(* ===== verification/_CoqProject ===== *)
-Q . S2P
Prelude.v
PyFloat.v
Metrics.v
CachePolicy.v
CPUManager.v
Protocol.v
Config.v
Lifecycle.v
LifecycleFacts.v
RetentionFacts.v
FreeQueue.v
BlockPool.v
BlockPoolFacts.v
Request.v
KVCache.v
KVCacheFacts.v
KVCacheProps.v
Scoring.v
ScoringFacts.v
Scheduling.v
SchedulingFacts.v
ControllerSteady.v
LedgerFacts.v
RangeFacts.v
OrderFacts.v
ControllerDemo.v
Hashing.v
HashingFacts.v
EncoderCache.v
EncoderFacts.v
RequestQueue.v
QueueFacts.v
QueueLaws.v
SchedUtils.v
OffloadPolicy.v
NativeOffload.v
LookupFacts.v
Hoare.v
OffloadKeys.v
OffloadRefs.v
OffloadJobs.v
OffloadSteps.v
OffloadLoads.v
OffloadStores.v
OffloadDone.v
OffloadTraces.v
OffloadGuests.v
OffloadDemo.v
Pressure.v
Scheduler.v
SchedulerFacts.v
SchedulerRunning.v
SchedulerStep.v
SchedulerEvents.v
EngineCore.v
SchedulerKeeps.v
SchedulerAny.v
SchedulerPlain.v
SchedulerWaiting.v
SchedulerAdmit.v
SchedulerLoop.v
SchedulerPhases.v
SchedulerReport.v
SchedulerProps.v
SchedulerUpdate.v
SchedulerResults.v
SchedulerOutcome.v
EngineProps.v
SchedulerDemo.v
EngineDemo.v
PressureFacts.v
Coordinator.v
CoordinatorFacts.v
CoordinatorState.v
CoordinatorStores.v
CoordinatorSteps.v
CoordinatorOutput.v
CoordinatorTraces.v
CoordinatorDemo.v
CoordinatorRun.v
