(* ===== verification/Prelude.v ===== *)
(** * TokenCake: cache management and agent-aware scheduling, verified

    TokenCake extends a vLLM engine that serves agents: requests carry
    metadata about the application they belong to, the scheduler admits and
    preempts by it, and the KV cache of a request whose agent is waiting for a
    tool call is preserved in CPU memory.  This development models the control
    logic (Python, under [src/vllm/]) as executable functions and proves what
    makes it correct.

    ** How the model reads

    A Python object is a record, an operation that mutates it a computation of
    the state-and-exception monad [M] of [Prelude]: it returns a value or
    raises an exception, and in both cases the state it reached is kept.
    Dictionaries are association lists in insertion order ([odict]), sets
    [gset]s; where code iterates a set of strings the order is a parameter.
    Python integers are [Z]; the reference counts of the offloading manager,
    32-bit fields in the code, wrap around.  Floats are any instance of
    [FloatOps] ([PyFloat]): binary64 for execution, rationals for theorems
    about ideal quantities.  Clocks are streams of readings.  Hash functions,
    [log1p], pydantic's parsing and the tensor digest are parameters.

    ** The parts, from the bottom up

    - CPU side of the offloading: [CachePolicy] (eviction policies LRU and ARC,
      [v1/kv_offload/cpu/policies]) behind the class of that name and its laws;
      [CPUManager] ([v1/kv_offload/cpu/manager.py]), generic in the policy.
    - Lifecycles of annotated generations: [Protocol] ([tokencake/protocol.py]),
      [Config] ([config.py]), [Metrics] ([metrics.py]), [Lifecycle] with
      [LifecycleFacts] and [RetentionFacts] ([lifecycle.py], [events.py]): the
      registry owns references on blocks of the CPU manager.
    - The decision to preserve: [OffloadPolicy] (the benefit gates) and
      [Pressure] with [PressureFacts] (the forecast of the waiting demand), both
      of [tokencake/offload_policy.py].
    - GPU side: [FreeQueue] and [BlockPool] with [BlockPoolFacts]
      ([v1/core/kv_cache_utils.py], [block_pool.py]); [KVCache] with
      [KVCacheFacts] and [KVCacheProps] ([single_type_kv_cache_manager.py],
      [kv_cache_coordinator.py], [kv_cache_manager.py]).
    - Prefix identity: [Request] ([v1/request.py]), [Hashing] with
      [HashingFacts] ([kv_cache_utils.py]).
    - Scheduling: [Scoring], [Scheduling] and the facts files [ScoringFacts],
      [SchedulingFacts], [LedgerFacts], [RangeFacts], [OrderFacts], with a
      concrete run in [ControllerDemo] ([tokencake/scheduling.py]);
      [RequestQueue] with [QueueFacts] ([v1/core/sched/request_queue.py]);
      [SchedUtils] ([sched/utils.py]); [EncoderCache] with [EncoderFacts]
      ([encoder_cache_manager.py] and its callers in [sched/scheduler.py]).
      [QueueLaws] has the laws of the queues by their contents,
      [ControllerSteady] what no controller call changes.
    - The scheduler over all of these ([sched/scheduler.py],
      [async_scheduler.py], [output.py]): [Scheduler] has its state, preemption
      and the loop over the running requests, [SchedulerStep] the loop over the
      waiting ones, the output and the whole of [schedule()].  The connector is
      a class of calls, [KVConnector].  [SchedulerFacts] has the invariant
      ([sched_inv]) and its rules for the movements of a request;
      [SchedulerRunning] treats the running loop over any promises of the parts,
      which [SchedulerAny] instantiates for every configuration (the parts may
      raise) and [SchedulerPlain] for a plain engine (they do not);
      [SchedulerWaiting], [SchedulerAdmit] and [SchedulerLoop] treat the loop
      over the waiting requests, [SchedulerPhases] and [SchedulerReport] what
      surrounds the two; [SchedulerProps] has the theorems, with concrete steps
      in [SchedulerDemo].
    - The engine around the scheduler: [SchedulerEvents] has what happens
      between the steps (new and aborted requests, [update_from_output] with
      failed loads and finished transfers, draft tokens, resets), [EngineCore]
      the calls of the engine ([v1/engine/core.py]) and its batch queue.
      [SchedulerKeeps] shows what a step leaves of the requests,
      [SchedulerUpdate], [SchedulerResults] and [SchedulerOutcome] have the rules
      of the results of a step, the last also those of new requests and resets;
      [EngineProps] has the invariant of the engine ([sound]) and the theorems on
      sequences of calls, with a concrete run in [EngineDemo].
    - Offloading between the two: [NativeOffload] ([v1/offloading/scheduler.py] of
      the KV connectors, its scheduler side) over any eviction policy;
      [LookupFacts] on its lookup; [Hoare], the program logic of the monad;
      [OffloadKeys], [OffloadRefs] and [OffloadJobs] on keys, references and
      transfer jobs; [OffloadSteps], [OffloadLoads], [OffloadStores] and
      [OffloadDone], a Hoare rule per call; [OffloadTraces] on sequences of
      calls, with a concrete run in [OffloadDemo].  The class [Guests] of
      [OffloadJobs] states what a subclass may keep in the connector's tables:
      jobs of its own and references on CPU blocks; the connector's rules are
      proved for any guests, [OffloadGuests] adds what guests themselves do.
    - TokenCake's coordinator over all of these: [Coordinator]
      ([tokencake/offloading.py]), a state that contains the connector, the
      lifecycle registry and the one CPU manager they share;
      [CoordinatorFacts] on its estimates and choices, with concrete runs in
      [CoordinatorDemo].  Its lifecycles and detached stores are [Guests] of the
      connector: [CoordinatorState] has the invariant ([coord_ok]) and what a
      step of the registry does to it, [CoordinatorStores] the registration of
      a store, [CoordinatorSteps] the evaluation and the end of a generation,
      [CoordinatorOutput] the reports of the workers and the hand-over to the
      lifecycles, [CoordinatorTraces] sequences of all calls, with a concrete
      run in [CoordinatorRun].

    ** What is proved

    - Invariants over sequences of calls, exceptions included: the CPU
      block pool (no block lost or handed out twice), reference ownership of
      lifecycles, GPU block accounting (references equal table entries; free
      exactly when unreferenced), the controller's ledger, the encoder cache,
      the transfer jobs of the offloading connector, and the connector, the
      registry and the coordinator together.
    - The step of the scheduler: whatever the configuration, a step that ends
      spends no more than its budgets, reports each scheduled request once and
      satisfies its own assertions; unless it schedules drafts synchronously it
      keeps every unfinished request in one place with no more computed than the
      request has; its loops end; in a plain engine the loop over the running
      requests does not fail.
    - The engine, with running requests reset only once it has drained: in any
      order of its calls the requests of every step on its way are where
      [update_from_output] takes them out, each has at most one output of a
      step, which ends where the stop test says, and the tokens of a request are
      exactly those of its outputs; requests ended from outside leave every
      queue.
    - What follows from them: worker reports and the end of requests do not fail
      (unless the cache is reset while a job of a request is in flight, which
      strands the request), a reused GPU block waits for the transfers that read
      it, reported jobs leave nothing behind, and a completed preservation is in
      CPU memory, held by the lifecycle it was made for.
    - Refinements: the linked free queue is a list, the heap is a priority
      queue, the expiry loop is a pointwise function of the records.
    - Equivalences with reference definitions: incremental block hashing and
      the chain over all blocks, executed ranges and sets of positions, the
      stop test and its declarative causes, the preservation gates.
    - Exactness of decisions: when allocation, storing, admission from
      reserved capacity, encoder admission succeed, and what they change when
      they do not; which waiting requests the forecast counts; how much of a
      snapshot is preserved.
    - Bounds, errors and safety: score ageing and overflow, safety horizons,
      configuration order, the choice of victims, what an equal block hash says
      of two requests.

    ** Fuel and bounds

    Recursion that is not structural takes fuel computed by its caller from
    the data it consumes (heap sizes, number of blocks, number of tokens); the
    theorems about those functions are equations or existence statements, so
    they include that the fuel is enough.  The KV-cache theorems are for an
    engine with one full-attention group; the definitions cover the other
    attention kinds.  The loops of the scheduler get one round for each running
    request and two for each waiting one (a deferred request has a second
    turn), and running out is an exception, so the theorem that more fuel
    changes nothing is about every outcome.  Theorems on sequences of calls state
    what is asked of each call ([call_ok], [coordinator_call_ok], [reg_call_ok],
    [allowed]).  Most of it the engine and the workers see to; two parts they do
    not.  One is that no 32-bit reference count is about to wrap ([roomy]).  The
    other concerns resets while work is in flight, which the code allows: of the
    offloading cache with jobs of requests under way (that it breaks the
    bookkeeping is a theorem, [reset_strands_requests]), and of the running
    requests with steps on their way.  The capacity of the batch queue is the
    parameter [batch_queue_size] of [EngineCore], at most two in the theorems.

    ** Not modelled

    The connector's worker side;
    Mamba, sink and context-parallel cache managers; the hybrid cache lookup;
    layout and sizing of KV-cache tensors; of the scheduler the streaming
    sessions (resumable requests), routed experts, log probabilities, events
    and statistics (with the assertion made where the first prefill is counted),
    and the lifecycle registry of an engine that schedules by agents without a
    connector; of the engine its start-up, sleeping, waves of data-parallel ranks,
    the loop of its process and the hand-over of drafts after a synchronous step;
    batch queues of more than two steps (pipeline parallelism) and draft tokens
    without asynchronous scheduling are modelled in the scheduler, but outside
    the theorems on the engine; the workers, kernels, model code and front end, which hold no scheduling state
    of their own; logging, statistics and tracing. *)
From stdpp Require Export base gmap strings sorting sets numbers.
From stdpp Require Export list.

(** ** Python exceptions and stateful code

    A Python call either returns or raises; in both cases the objects it has
    mutated so far keep their new contents.  [outcome S A] records both. *)
Inductive exn :=
  | AssertionError
  | KeyError
  | IndexError
  | ValueError
  | OverflowError
  | DuplicateLifecycleError
  | RuntimeError
  | ZeroDivisionError.

Inductive outcome (S A : Type) :=
  | Ret (a : A) (s : S)
  | Exc (e : exn) (s : S).
Arguments Ret {S A} _ _.
Arguments Exc {S A} _ _.

(** A stateful computation over the state [S]. *)
Definition M (S A : Type) : Type := S → outcome S A.

#[export] Instance M_ret (S : Type) : MRet (M S) := λ A a s, Ret a s.
#[export] Instance M_bind (S : Type) : MBind (M S) := λ A B k c s,
  match c s with
  | Ret a s' => k a s'
  | Exc e s' => Exc e s'
  end.

Section monad.
Context {S : Type}.

Definition get_state : M S S := λ s, Ret s s.
Definition put_state (s : S) : M S unit := λ _, Ret tt s.
Definition modify (f : S → S) : M S unit := λ s, Ret tt (f s).
Definition gets {A} (f : S → A) : M S A := λ s, Ret (f s) s.
Definition raise {A} (e : exn) : M S A := λ s, Exc e s.

(** Python's [assert b]. *)
Definition assertM (b : bool) : M S unit := λ s,
  if b then Ret tt s else Exc AssertionError s.

(** [for x in l: body(x)] *)
Fixpoint forM {A} (l : list A) (body : A → M S unit) : M S unit :=
  match l with
  | [] => mret tt
  | x :: l' => body x ;; forM l' body
  end.
End monad.

(** The state an outcome leaves behind, and whether it returned normally. *)
Definition out_state {S A} (o : outcome S A) : S :=
  match o with Ret _ s => s | Exc _ s => s end.
Definition returns {S A} (o : outcome S A) : bool :=
  match o with Ret _ _ => true | Exc _ _ => false end.
Definition out_value {S A} (o : outcome S A) : option A :=
  match o with Ret a _ => Some a | Exc _ _ => None end.

(** Run a computation on a component of a larger state. *)
Definition zoom {S T A} (get : S → T) (set : T → S → S) (c : M T A) : M S A := λ s,
  match c (get s) with
  | Ret a t => Ret a (set t s)
  | Exc e t => Exc e (set t s)
  end.

(** ** Record updates

    [update_field eta old new s] is the record [s] with the field [old] (a
    projection applied to [s]) replaced by [new]; [eta] is the expansion of the
    record into its constructor applied to its projections. *)
Ltac update_field eta old new s :=
  let e := eval cbv beta delta [eta] in (eta s) in
  match e with context C [old] => let r := context C [new] in exact r end.

(** ** Insertion-ordered dictionaries

    Python's [dict] and [OrderedDict] iterate in insertion order, and the
    order is observable (eviction order, tie breaking), so a dictionary is an
    association list without duplicate keys. *)
Abbreviation odict K V := (list (K * V)).

Section odict.
Context {K V : Type} `{EqDecision K}.
Implicit Types (k j : K) (v : V) (d : odict K V).

Fixpoint od_get k d : option V :=
  match d with
  | [] => None
  | (j, v) :: d' => if decide (j = k) then Some v else od_get k d'
  end.

(** [k in d] *)
Definition od_mem k d : bool := match od_get k d with Some _ => true | None => false end.

Definition od_keys d : list K := d.*1.
Definition od_values d : list V := d.*2.

(** [d[k] = v]: in place when the key is present, at the end otherwise. *)
Fixpoint od_set k v d : odict K V :=
  match d with
  | [] => [(k, v)]
  | (j, w) :: d' => if decide (j = k) then (j, v) :: d' else (j, w) :: od_set k v d'
  end.

(** [del d[k]], [d.pop(k, None)] *)
Fixpoint od_del k d : odict K V :=
  match d with
  | [] => []
  | (j, w) :: d' => if decide (j = k) then od_del k d' else (j, w) :: od_del k d'
  end.

(** Mutation of the object stored under [k]. *)
Fixpoint od_alter (f : V → V) k d : odict K V :=
  match d with
  | [] => []
  | (j, w) :: d' => if decide (j = k) then (j, f w) :: d' else (j, w) :: od_alter f k d'
  end.

(** [d.move_to_end(k)] for a present key. *)
Definition od_move_to_end k d : odict K V :=
  match od_get k d with
  | Some v => od_del k d ++ [(k, v)]
  | None => d
  end.

(** [d.setdefault(k, v)] *)
Definition od_setdefault k v d : odict K V := if od_mem k d then d else d ++ [(k, v)].

Definition od_wf d : Prop := NoDup (od_keys d).
End odict.

(** ** Stable sorting, [sorted(l, key=...)]

    [lt a b] is the comparison [key(a) < key(b)]; [reverse=True] swaps the
    arguments of [lt] and, as in Python, keeps equal elements in order. *)
Section sorting.
Context {A : Type} (lt : A → A → bool).

Fixpoint insert_sorted (x : A) (l : list A) : list A :=
  match l with
  | [] => [x]
  | y :: l' => if lt x y then x :: y :: l' else y :: insert_sorted x l'
  end.

Definition py_sorted (l : list A) : list A :=
  foldl (λ acc x, insert_sorted x acc) [] l.
End sorting.

(** [len(l)] *)
Definition zlen {A} (l : list A) : Z := Z.of_nat (length l).

(** The number of occurrences of [x] in [l]. *)
Fixpoint occ {A} `{EqDecision A} (x : A) (l : list A) : Z :=
  match l with
  | [] => 0
  | y :: l' => (if decide (y = x) then 1 else 0) + occ x l'
  end%Z.

(** [sum(l)] over integers. *)
Definition sumZ (l : list Z) : Z := foldr Z.add 0%Z l.

(** ** Bytes, as lists of byte values *)
Section bytes.
Local Open Scope Z_scope.

(** [n.to_bytes(4, "big", signed=False)], which raises [OverflowError] outside
    the 32-bit range. *)
Definition to_bytes4 (n : Z) : option (list Z) :=
  if (0 <=? n) && (n <? 2 ^ 32)
  then Some [n / 2 ^ 24; (n / 2 ^ 16) `mod` 2 ^ 8; (n / 2 ^ 8) `mod` 2 ^ 8; n `mod` 2 ^ 8]
  else None.

(** [int.from_bytes(bs, "big", signed=False)] *)
Definition from_bytes (bs : list Z) : Z := foldl (λ acc b, acc * 2 ^ 8 + b) 0 bs.

End bytes.

(** Signed 32-bit wrap-around ([ctypes.c_int32]). *)
Definition wrap32 (z : Z) : Z := ((z + 2 ^ 31) `mod` 2 ^ 32 - 2 ^ 31)%Z.
Definition int32_max : Z := (2 ^ 31 - 1)%Z.
Definition is_int32 (z : Z) : Prop := (- 2 ^ 31 ≤ z ≤ int32_max)%Z.

(** ** Automation *)
Create HintDb odict.
Create HintDb suncake.

(** Split every [decide] and [match] of the goal, then simplify. *)
Ltac crush_match := repeat (case_decide; simplify_eq/=); repeat (case_match; simplify_eq/=);
  try congruence.

(** One step of evaluation of a bind. *)
Lemma bind_unfold {S A B} (c : M S A) (k : A → M S B) s :
  (c ≫= k) s = match c s with Ret a s' => k a s' | Exc e s' => Exc e s' end.
Proof. done. Qed.

Lemma get_bind {S B} (k : S → M S B) s : (get_state ≫= k) s = k s s.
Proof. done. Qed.

Lemma modify_bind {S B} (f : S → S) (k : unit → M S B) s : (modify f ≫= k) s = k tt (f s).
Proof. done. Qed.

Lemma gets_bind {S A B} (f : S → A) (k : A → M S B) s : (gets f ≫= k) s = k (f s) s.
Proof. done. Qed.

Lemma mret_bind {S A B} (a : A) (k : A → M S B) s : (mret a ≫= k) s = k a s.
Proof. done. Qed.

Lemma assert_bind {S B} (b : bool) (k : unit → M S B) s :
  b = true → (assertM b ≫= k) s = k tt s.
Proof. by intros ->. Qed.

Lemma assertM_true {S} (b : bool) (s : S) : b = true → assertM b s = Ret tt s.
Proof. by intros ->. Qed.

(** A loop whose body always returns and keeps an invariant. *)
Lemma forM_total {S A} (P : S → Prop) (body : A → M S unit) l :
  (∀ x s, x ∈ l → P s → ∃ s', body x s = Ret tt s' ∧ P s') →
  ∀ s, P s → ∃ s', forM l body s = Ret tt s' ∧ P s'.
Proof.
  induction l as [|x l IH]; intros Hbody s Hs; cbn [forM]; [by exists s|].
  destruct (Hbody x s) as (s1 & Hx & Hs1); [by left|done|].
  destruct (IH (λ y t Hy, Hbody y t (list_elem_of_further _ _ _ Hy)) s1 Hs1) as (s' & Hl & Hs').
  exists s'. by rewrite bind_unfold, Hx.
Qed.

(** Invert a monadic bind that returned normally. *)
Lemma bind_Ret {S A B} (c : M S A) (k : A → M S B) s b s' :
  (c ≫= k) s = Ret b s' ↔ ∃ a s1, c s = Ret a s1 ∧ k a s1 = Ret b s'.
Proof. unfold mbind, M_bind. destruct (c s); naive_solver. Qed.

(** ** Lemmas on dictionaries *)
Section odict_lemmas.
Context {K V : Type} `{EqDecision K}.
Implicit Types (k j : K) (v : V) (d : odict K V).

Lemma od_get_set k j v d :
  od_get j (od_set k v d) = if decide (k = j) then Some v else od_get j d.
Proof. induction d as [|[i w] d IH]; simpl; crush_match; congruence. Qed.

Lemma od_get_del k j d :
  od_get j (od_del k d) = if decide (k = j) then None else od_get j d.
Proof. induction d as [|[i w] d IH]; simpl; crush_match; congruence. Qed.

Lemma od_get_alter f k j d :
  od_get j (od_alter f k d) = if decide (k = j) then f <$> od_get j d else od_get j d.
Proof. induction d as [|[i w] d IH]; simpl; crush_match; congruence. Qed.

Lemma od_get_app j d1 d2 :
  od_get j (d1 ++ d2) = match od_get j d1 with Some v => Some v | None => od_get j d2 end.
Proof. induction d1 as [|[i w] d IH]; simpl; crush_match; congruence. Qed.

Lemma od_get_move k j d : od_get j (od_move_to_end k d) = od_get j d.
Proof.
  unfold od_move_to_end. destruct (od_get k d) eqn:E; [|done].
  rewrite od_get_app, od_get_del. simpl. crush_match; congruence.
Qed.

Lemma od_get_setdefault k j v d :
  od_get j (od_setdefault k v d) =
    if decide (k = j) then Some (default v (od_get k d)) else od_get j d.
Proof.
  unfold od_setdefault, od_mem. destruct (od_get k d) eqn:E.
  - case_decide; [by subst; rewrite E|done].
  - rewrite od_get_app. simpl.
    case_decide; subst; [by rewrite E|by destruct (od_get j d)].
Qed.

Lemma od_get_elem k v d : od_get k d = Some v → (k, v) ∈ d.
Proof. induction d as [|[i w] d IH]; simpl; [done|]; crush_match; set_solver. Qed.

Lemma od_get_None k d : od_get k d = None ↔ k ∉ od_keys d.
Proof.
  unfold od_keys. induction d as [|[i w] d IH]; simpl; [set_solver|].
  case_decide; set_solver.
Qed.

Lemma od_get_is_Some k d : is_Some (od_get k d) ↔ k ∈ od_keys d.
Proof.
  pose proof (od_get_None k d). destruct (od_get k d) eqn:E.
  - split; [|by eauto]. intros _. destruct (decide (k ∈ od_keys d)); naive_solver.
  - split; [by intros [? ?]|]. naive_solver.
Qed.

Lemma od_mem_true k d : od_mem k d = true ↔ k ∈ od_keys d.
Proof. rewrite <-od_get_is_Some. unfold od_mem, is_Some. case_match; naive_solver. Qed.

Lemma od_mem_false k d : od_mem k d = false ↔ od_get k d = None.
Proof. unfold od_mem. case_match; naive_solver. Qed.

Lemma od_elem_get k v d : od_wf d → (k, v) ∈ d → od_get k d = Some v.
Proof.
  unfold od_wf, od_keys. induction d as [|[i w] d IH]; simpl; [set_solver|].
  rewrite NoDup_cons. intros [Hi Hd] [Heq|Hin]%elem_of_cons; simplify_eq.
  - by rewrite decide_True.
  - rewrite decide_False; [auto|]. intros ->. apply Hi, list_elem_of_fmap.
    by exists (k, v).
Qed.

Lemma od_elem_iff k v d : od_wf d → (k, v) ∈ d ↔ od_get k d = Some v.
Proof. split; [by apply od_elem_get|apply od_get_elem]. Qed.

Lemma od_keys_set k v d :
  od_keys (od_set k v d) = if od_mem k d then od_keys d else od_keys d ++ [k].
Proof.
  unfold od_keys, od_mem. induction d as [|[i w] d IH]; simpl; [done|].
  destruct (decide (i = k)) as [->|Hi]; [done|]. rewrite fmap_cons, IH. by case_match.
Qed.

Lemma od_keys_alter f k d : od_keys (od_alter f k d) = od_keys d.
Proof.
  unfold od_keys. induction d as [|[i w] d IH]; simpl; [done|].
  destruct (decide (i = k)); [done|]. rewrite fmap_cons. by f_equal.
Qed.

Lemma od_keys_del k d : od_keys (od_del k d) = filter (λ j, j ≠ k) (od_keys d).
Proof.
  unfold od_keys. induction d as [|[i w] d IH]; simpl; [done|].
  rewrite filter_cons. repeat case_decide; rewrite ?fmap_cons, ?IH; done || tauto.
Qed.

Lemma od_del_notin k d : od_get k d = None → od_del k d = d.
Proof. induction d as [|[i w] d IH]; simpl; [done|]. case_decide; [done|]. intros. f_equal. auto. Qed.

Lemma od_wf_nil : od_wf ([] : odict K V).
Proof. apply NoDup_nil_2. Qed.

Lemma od_wf_set k v d : od_wf d → od_wf (od_set k v d).
Proof.
  unfold od_wf. rewrite od_keys_set. destruct (od_mem k d) eqn:E; [done|].
  apply od_mem_false, od_get_None in E.
  intros. apply NoDup_app. repeat split; [done|set_solver|apply NoDup_singleton].
Qed.

Lemma od_wf_del k d : od_wf d → od_wf (od_del k d).
Proof. unfold od_wf. rewrite od_keys_del. apply NoDup_filter. Qed.

Lemma od_wf_alter f k d : od_wf d → od_wf (od_alter f k d).
Proof. unfold od_wf. by rewrite od_keys_alter. Qed.

Lemma od_wf_snoc k v d : od_wf d → od_get k d = None → od_wf (d ++ [(k, v)]).
Proof.
  unfold od_wf. rewrite od_get_None. unfold od_keys. rewrite fmap_app. simpl.
  intros. apply NoDup_app. repeat split; [done|set_solver|apply NoDup_singleton].
Qed.

Lemma od_wf_move k d : od_wf d → od_wf (od_move_to_end k d).
Proof.
  intros. unfold od_move_to_end. case_match; [|done].
  apply od_wf_snoc; [by apply od_wf_del|]. rewrite od_get_del. by case_decide.
Qed.

Lemma od_wf_setdefault k v d : od_wf d → od_wf (od_setdefault k v d).
Proof.
  intros. unfold od_setdefault. destruct (od_mem k d) eqn:E; [done|].
  apply od_wf_snoc; [done|]. by apply od_mem_false.
Qed.

Lemma od_wf_cons k v d : od_wf ((k, v) :: d) ↔ od_get k d = None ∧ od_wf d.
Proof. unfold od_wf. simpl. rewrite NoDup_cons. by rewrite od_get_None. Qed.

Lemma length_od_set k v d :
  length (od_set k v d) = if od_mem k d then length d else S (length d).
Proof.
  unfold od_mem. induction d as [|[i w] d IH]; simpl; [done|].
  case_decide; simpl; [done|]. rewrite IH. by case_match.
Qed.

Lemma length_od_del_le k d : length (od_del k d) ≤ length d.
Proof. induction d as [|[i w] d IH]; simpl; [done|]. case_decide; simpl; lia. Qed.

(** A removed entry, up to the position it had. *)
Lemma od_del_Permutation k v d :
  od_wf d → od_get k d = Some v → d ≡ₚ (k, v) :: od_del k d.
Proof.
  induction d as [|[i w] d IH]; simpl; [done|]. intros [Hi Hd]%od_wf_cons.
  case_decide; intros; simplify_eq.
  - by rewrite (od_del_notin k d).
  - rewrite IH at 1 by done. apply Permutation_swap.
Qed.

Lemma od_set_new k v d : od_get k d = None → od_set k v d = d ++ [(k, v)].
Proof.
  induction d as [|[i w] d IH]; simpl; [done|]. case_decide; [done|].
  intros. by rewrite IH.
Qed.

Lemma od_move_Permutation k d : od_wf d → od_move_to_end k d ≡ₚ d.
Proof.
  intros. unfold od_move_to_end. destruct (od_get k d) eqn:E; [|done].
  rewrite <-Permutation_cons_append. symmetry. by apply od_del_Permutation.
Qed.

Lemma od_wf_Permutation d1 d2 : d1 ≡ₚ d2 → od_wf d1 → od_wf d2.
Proof. unfold od_wf, od_keys. by intros ->. Qed.

Lemma od_get_Permutation k d1 d2 : od_wf d1 → d1 ≡ₚ d2 → od_get k d1 = od_get k d2.
Proof.
  intros Hwf Hp. assert (od_wf d2) by (by eapply od_wf_Permutation).
  apply option_eq. intros v. by rewrite <-!od_elem_iff, Hp by done.
Qed.

Lemma od_alter_app f k d1 d2 :
  od_alter f k (d1 ++ d2) = if od_mem k d1 then od_alter f k d1 ++ d2 else d1 ++ od_alter f k d2.
Proof.
  unfold od_mem. induction d1 as [|[i w] d1 IH]; simpl; [done|].
  case_decide; [done|]. rewrite IH. by case_match.
Qed.

Lemma od_alter_Permutation f k d1 d2 :
  od_wf d1 → d1 ≡ₚ d2 → od_alter f k d1 ≡ₚ od_alter f k d2.
Proof.
  intros Hwf Hp. assert (od_wf d2) by (by eapply od_wf_Permutation).
  assert (NoDup (od_alter f k d1)) by (eapply NoDup_fmap_1; by apply od_wf_alter).
  assert (NoDup (od_alter f k d2)) by (eapply NoDup_fmap_1; by apply od_wf_alter).
  apply NoDup_Permutation; [done..|]. intros [j v].
  rewrite !od_elem_iff by by apply od_wf_alter.
  by rewrite !od_get_alter, (od_get_Permutation j d1 d2).
Qed.

(** Deleting a list of present entries, one after the other. *)
Lemma od_dels_Permutation (l d : odict K V) :
  od_wf d → od_wf l → (∀ k v, (k, v) ∈ l → od_get k d = Some v) →
  d ≡ₚ l ++ foldl (λ d kv, od_del kv.1 d) d l ∧ od_wf (foldl (λ d kv, od_del kv.1 d) d l).
Proof.
  revert d. induction l as [|[k v] l IH]; intros d Hd Hl Hin; simpl; [done|].
  apply od_wf_cons in Hl as [Hk Hl].
  destruct (IH (od_del k d)) as [Hp Hw]; [by apply od_wf_del|done| |].
  - intros j w Hj. rewrite od_get_del. case_decide; [|apply Hin; set_solver].
    subst. apply od_elem_get in Hj; [congruence|done].
  - split; [|done]. rewrite <-Hp. apply od_del_Permutation; [done|].
    apply Hin. set_solver.
Qed.
End odict_lemmas.

#[export] Hint Resolve od_wf_nil od_wf_set od_wf_del od_wf_alter od_wf_move
  od_wf_setdefault : odict.
#[export] Hint Rewrite @od_get_set @od_get_del @od_get_alter @od_get_move
  @od_get_setdefault : odict.

(** ** Lemmas on sorting *)
Section sorting_lemmas.
Context {A : Type} (lt : A → A → bool).

Lemma insert_sorted_Permutation x l : insert_sorted lt x l ≡ₚ x :: l.
Proof.
  induction l as [|y l IH]; simpl; [done|]. case_match; [done|].
  rewrite IH. apply Permutation_swap.
Qed.

Lemma py_sorted_Permutation l : py_sorted lt l ≡ₚ l.
Proof.
  unfold py_sorted. assert (∀ acc, foldl (λ acc x, insert_sorted lt x acc) acc l ≡ₚ acc ++ l) as H.
  { induction l as [|x l IH]; intros acc; simpl; [by rewrite app_nil_r|].
    rewrite IH, insert_sorted_Permutation. apply Permutation_middle. }
  by rewrite H.
Qed.

Lemma elem_of_py_sorted x l : x ∈ py_sorted lt l ↔ x ∈ l.
Proof. by rewrite py_sorted_Permutation. Qed.

Lemma length_py_sorted l : length (py_sorted lt l) = length l.
Proof. apply Permutation_length, py_sorted_Permutation. Qed.

Lemma NoDup_py_sorted l : NoDup l → NoDup (py_sorted lt l).
Proof. by rewrite py_sorted_Permutation. Qed.

(** Sortedness, for a comparison that is a strict weak order: no element is
    followed by one the comparison puts strictly before it. *)
Context (lt_asym : ∀ x y, lt x y = true → lt y x = false).
Context (lt_trans : ∀ x y z, lt x y = false → lt y z = false → lt x z = false).

Lemma insert_sorted_StronglySorted x l :
  StronglySorted (λ a b, lt b a = false) l →
  StronglySorted (λ a b, lt b a = false) (insert_sorted lt x l).
Proof.
  induction 1 as [|y l Hl IH Hy]; simpl; [repeat constructor|].
  destruct (lt x y) eqn:E.
  - constructor; [by constructor|]. constructor; [by apply lt_asym|].
    eapply Forall_impl; [exact Hy|]. simpl. intros z Hz.
    apply lt_trans with y; [done|]. by apply lt_asym.
  - constructor; [done|]. apply Forall_forall. intros z Hz.
    rewrite insert_sorted_Permutation in Hz.
    apply elem_of_cons in Hz as [->|Hz]; [done|].
    by eapply Forall_forall in Hy.
Qed.

Lemma py_sorted_StronglySorted l :
  StronglySorted (λ a b, lt b a = false) (py_sorted lt l).
Proof.
  unfold py_sorted. assert (∀ acc, StronglySorted (λ a b, lt b a = false) acc →
    StronglySorted (λ a b, lt b a = false)
      (foldl (λ acc x, insert_sorted lt x acc) acc l)) as H.
  { induction l; simpl; intros; [done|]. auto using insert_sorted_StronglySorted. }
  apply H. constructor.
Qed.
End sorting_lemmas.

(** ** Lemmas on lists *)
Section list_lemmas.
Context {A : Type} `{EqDecision A}.
Implicit Types (x : A) (l : list A).
Local Open Scope Z_scope.

Lemma filter_iff_in (P Q : A → Prop) `{∀ x, Decision (P x)} `{∀ x, Decision (Q x)} l :
  (∀ x, x ∈ l → P x ↔ Q x) → filter P l = filter Q l.
Proof.
  induction l as [|x l IH]; intros Hl; [done|]. rewrite !filter_cons, IH by set_solver.
  destruct (Hl x); [set_solver|]. repeat case_decide; tauto || done.
Qed.

Lemma filter_all (P : A → Prop) `{∀ x, Decision (P x)} l :
  (∀ x, x ∈ l → P x) → filter P l = l.
Proof.
  induction l as [|x l IH]; intros Hl; [done|].
  rewrite filter_cons_True by set_solver. by rewrite IH by set_solver.
Qed.

Lemma occ_app x l1 l2 : occ x (l1 ++ l2) = occ x l1 + occ x l2.
Proof. induction l1 as [|y l1 IH]; simpl; [done|]. rewrite IH. lia. Qed.

Lemma occ_nonneg x l : 0 ≤ occ x l.
Proof. induction l as [|y l IH]; simpl; [done|]. case_decide; lia. Qed.

Lemma occ_Permutation x l1 l2 : l1 ≡ₚ l2 → occ x l1 = occ x l2.
Proof. induction 1; simpl; lia. Qed.

Lemma occ_notin x l : x ∉ l → occ x l = 0.
Proof.
  induction l as [|y l IH]; simpl; [done|]. intros [? ?]%not_elem_of_cons.
  rewrite decide_False by congruence. rewrite IH by done. lia.
Qed.

Lemma occ_in x l : x ∈ l → 1 ≤ occ x l.
Proof.
  induction l as [|y l IH]; simpl; [set_solver|]. pose proof (occ_nonneg x l).
  case_decide; [lia|]. intros [->|Hx]%elem_of_cons; [done|]. specialize (IH Hx). lia.
Qed.

Lemma occ_NoDup x l : NoDup l → occ x l = if decide (x ∈ l) then 1 else 0.
Proof.
  induction 1 as [|y l Hy _ IH]; [done|]. cbn [occ]. rewrite IH.
  destruct (decide (y = x)) as [->|]; repeat case_decide; set_solver by lia.
Qed.

Lemma occ_filter (P : A → Prop) `{∀ x, Decision (P x)} x l : P x → occ x (filter P l) = occ x l.
Proof.
  intros Hx. induction l as [|y l IH]; [done|]. rewrite filter_cons.
  case_decide; cbn [occ]; rewrite IH; [done|]. rewrite decide_False by congruence. lia.
Qed.
Lemma NoDup_occ l : (∀ x, occ x l ≤ 1) → NoDup l.
Proof.
  induction l as [|y l IH]; intros Hl; [apply NoDup_nil_2|]. apply NoDup_cons. split.
  - intros Hy%occ_in. specialize (Hl y). cbn [occ] in Hl. rewrite decide_True in Hl by done. lia.
  - apply IH. intros x. specialize (Hl x). cbn [occ] in Hl. case_decide; lia.
Qed.

Lemma occ_insert x y z i l :
  l !! i = Some y →
  occ x (<[i := z]> l) = occ x l - (if decide (y = x) then 1 else 0) + (if decide (z = x) then 1 else 0).
Proof.
  revert i. induction l as [|w l IH]; intros [|i] Hi; simplify_eq/=; [lia|].
  rewrite (IH i Hi). lia.
Qed.

Lemma occ_elem_iff x l : x ∈ l ↔ 1 ≤ occ x l.
Proof.
  split; [apply occ_in|]. intros H. destruct (decide (x ∈ l)) as [|Hn]; [done|].
  rewrite occ_notin in H by done. lia.
Qed.
End list_lemmas.

(** ** Integer lemmas *)
Lemma sumZ_app l1 l2 : sumZ (l1 ++ l2) = (sumZ l1 + sumZ l2)%Z.
Proof. induction l1; simpl; lia. Qed.

Lemma sumZ_Permutation l1 l2 : l1 ≡ₚ l2 → sumZ l1 = sumZ l2.
Proof. induction 1; simpl; lia. Qed.

Lemma sumZ_nonneg l : Forall (λ x, 0 ≤ x)%Z l → (0 ≤ sumZ l)%Z.
Proof. induction 1; simpl; lia. Qed.

Lemma wrap32_id z : is_int32 z → wrap32 z = z.
Proof. unfold wrap32, is_int32, int32_max. intros. rewrite Z.mod_small; lia. Qed.

Lemma wrap32_range z : is_int32 (wrap32 z).
Proof.
  unfold wrap32, is_int32, int32_max.
  pose proof (Z.mod_pos_bound (z + 2 ^ 31) (2 ^ 32) ltac:(lia)). lia.
Qed.

Section bytes_lemmas.
Local Open Scope Z_scope.

Lemma to_bytes4_spec n bs : to_bytes4 n = Some bs →
  0 ≤ n < 2 ^ 32 ∧ length bs = 4%nat ∧ from_bytes bs = n.
Proof.
  unfold to_bytes4. destruct (Z.leb_spec 0 n), (Z.ltb_spec n (2 ^ 32)); simpl; try done.
  intros [= <-]. split_and!; [lia..|done|]. unfold from_bytes. simpl.
  assert (n / 2 ^ 16 = n / 2 ^ 8 / 2 ^ 8) as -> by (rewrite Z.div_div; [done|lia..]).
  assert (n / 2 ^ 24 = n / 2 ^ 8 / 2 ^ 8 / 2 ^ 8) as -> by (rewrite !Z.div_div; [done|lia..]).
  pose proof (Z.div_mod n (2 ^ 8) ltac:(lia)).
  pose proof (Z.div_mod (n / 2 ^ 8) (2 ^ 8) ltac:(lia)).
  pose proof (Z.div_mod (n / 2 ^ 8 / 2 ^ 8) (2 ^ 8) ltac:(lia)). lia.
Qed.

End bytes_lemmas.

(** Wrapping arithmetic: an increment followed by a decrement is the identity
    on the 32-bit range, even across the wrap-around. *)
Lemma wrap32_inc_dec z : is_int32 z → wrap32 (wrap32 (z + 1) - 1) = z.
Proof.
  intros Hz. destruct (decide (z = int32_max)) as [->|Hne]; [reflexivity|].
  unfold is_int32 in *. rewrite (wrap32_id (z + 1)); [|unfold is_int32; lia].
  rewrite wrap32_id; [lia|]. unfold is_int32. lia.
Qed.
