(* ===== verification/PyFloat.v ===== *)
(** * Python floats

    The operations of Python's [float] the program uses, as a class: the
    definitions of the other files are written against it.  Two instances are
    given: [b64], the IEEE 754 binary64 numbers CPython uses (round to nearest
    even, signed zeros, infinities and NaN), which makes every definition
    executable on the values the interpreter would compute; and [Q], exact
    rational arithmetic, for the theorems about the ideal quantities that
    rounding approximates. *)
From Stdlib Require Import ZArith QArith Qround Qminmax Lqa SpecFloat.
From S2P Require Import Prelude.
Local Open Scope Z_scope.

(** [int_truediv] is the [/] of two Python ints (one rounding, not two);
    [f_trunc] is [int(x)], which raises on an infinity or a NaN ([None]). *)
Class FloatOps (F : Type) := {
  f_of_Z : Z → F;
  int_truediv : Z → Z → F;
  fadd : F → F → F;
  fsub : F → F → F;
  fmul : F → F → F;
  fdiv : F → F → F;
  fltb : F → F → bool;
  fleb : F → F → bool;
  f_trunc : F → option Z
}.

(** [float("inf")] *)
Class FloatInf (F : Type) := finf : F.

(** [math.log1p], a function of the C library. *)
Class FloatLog1p (F : Type) := flog1p : F → F.

Declare Scope pyfloat_scope.
Delimit Scope pyfloat_scope with F.
Notation "x + y" := (fadd x y) : pyfloat_scope.
Notation "x - y" := (fsub x y) : pyfloat_scope.
Notation "x * y" := (fmul x y) : pyfloat_scope.
Notation "x / y" := (fdiv x y) : pyfloat_scope.
Notation "x <? y" := (fltb x y) : pyfloat_scope.
Notation "x <=? y" := (fleb x y) : pyfloat_scope.

Section derived.
Context {F : Type} `{FloatOps F}.

(** A decimal literal such as [0.05]: the float nearest to [p / q]. *)
Definition f_lit (p q : Z) : F := int_truediv p q.

(** [max(a, b)] and [min(a, b)]: the first argument unless the second one
    compares strictly better. *)
Definition py_max (a b : F) : F := if fltb a b then b else a.
Definition py_min (a b : F) : F := if fltb b a then b else a.

(** [max(a, b, c)] *)
Definition py_max3 (a b c : F) : F := py_max (py_max a b) c.

(** [sum(l)], which starts from the int [0] and adds from the left (CPython up
    to 3.11; later versions compensate the rounding of the partial sums). *)
Definition f_sum (l : list F) : F := foldl fadd (f_of_Z 0) l.

(** [a == b] on floats. *)
Definition feqb (a b : F) : bool := fleb a b && fleb b a.

(** A bool used as a number. *)
Definition f_of_bool (b : bool) : F := f_of_Z (if b then 1 else 0).
End derived.

(** ** IEEE 754 binary64 *)
Definition b64 := spec_float.

Definition b64_of_Z (z : Z) : b64 := binary_normalize 53 1024 z 0 false.

(** An integer as an exact, unnormalised float, for [int / int]. *)
Definition b64_exact (z : Z) : b64 :=
  match z with
  | 0 => S754_zero false
  | Zpos p => S754_finite false p 0
  | Zneg p => S754_finite true p 0
  end.

Definition b64_trunc (x : b64) : option Z :=
  match x with
  | S754_zero _ => Some 0
  | S754_finite s m e =>
      let a := if 0 <=? e then Z.pos m * 2 ^ e else Z.pos m / 2 ^ (- e) in
      Some (if s then - a else a)
  | _ => None
  end.

#[export] Instance b64_ops : FloatOps b64 := {
  f_of_Z := b64_of_Z;
  int_truediv a b := SFdiv 53 1024 (b64_exact a) (b64_exact b);
  fadd := SFadd 53 1024;
  fsub := SFsub 53 1024;
  fmul := SFmul 53 1024;
  fdiv := SFdiv 53 1024;
  fltb := SFltb;
  fleb := SFleb;
  f_trunc := b64_trunc
}.

#[export] Instance b64_inf : FloatInf b64 := S754_infinity false.

(** ** Exact rationals *)
Definition Q_trunc (q : Q) : Z := Z.quot (Qnum q) (QDen q).

#[export] Instance Q_ops : FloatOps Q := {
  f_of_Z := inject_Z;
  int_truediv a b := Qdiv (inject_Z a) (inject_Z b);
  fadd := Qplus;
  fsub := Qminus;
  fmul := Qmult;
  fdiv := Qdiv;
  fltb a b := negb (Qle_bool b a);
  fleb := Qle_bool;
  f_trunc q := Some (Q_trunc q)
}.

(** ** Laws that hold without any assumption on rounding *)
Section clamp.
Context {F : Type} `{FloatOps F}.

(** [min(hi, max(lo, x))]: the clamp the code writes, whatever [x] is (a NaN
    included): one of the bounds, or [x] strictly between them. *)
Lemma clamp_cases lo hi x :
  let r := py_min hi (py_max lo x) in
  r = hi ∨ (r = lo ∧ fltb lo hi = true) ∨ (r = x ∧ fltb lo x = true ∧ fltb x hi = true).
Proof.
  unfold py_min, py_max. destruct (fltb lo x) eqn:E1.
  - destruct (fltb x hi) eqn:E2; auto.
  - destruct (fltb lo hi) eqn:E2; auto.
Qed.
End clamp.

(** Truncation of a non-negative rational is its floor. *)
Lemma Q_trunc_floor q : (0 <= q)%Q → Q_trunc q = Qfloor q.
Proof.
  destruct q as [n d]. unfold Q_trunc, Qfloor, Qle. simpl.
  intros. apply Z.quot_div_nonneg; lia.
Qed.

Lemma Qltb_lt (a b : Q) : negb (Qle_bool b a) = true ↔ (a < b)%Q.
Proof.
  rewrite negb_true_iff, <-not_true_iff_false, Qle_bool_iff.
  split; [apply Qnot_le_lt|apply Qlt_not_le].
Qed.

(** [min] and [max] of rationals, up to [==]. *)
Lemma py_min_Q (a b : Q) : (py_min a b == Qmin a b)%Q.
Proof.
  unfold py_min. cbn [fltb Q_ops]. destruct (negb (Qle_bool a b)) eqn:E.
  - apply Qltb_lt in E. symmetry. apply Q.min_r. lra.
  - apply negb_false_iff, Qle_bool_iff in E. symmetry. by apply Q.min_l.
Qed.

Lemma py_max_Qmax (a b : Q) : (py_max a b == Qmax a b)%Q.
Proof.
  unfold py_max. cbn [fltb Q_ops]. destruct (negb (Qle_bool b a)) eqn:E.
  - apply Qltb_lt in E. symmetry. apply Q.max_r. lra.
  - apply negb_false_iff, Qle_bool_iff in E. symmetry. by apply Q.max_l.
Qed.

(** The literals evaluate to the doubles CPython prints for them. *)
Example b64_literals :
  f_lit (F:=b64) 1 20 = S754_finite false 7205759403792794 (-57)
  ∧ fadd (f_lit 1 10) (f_lit 2 10) = f_lit (F:=b64) 30000000000000004 100000000000000000
  ∧ f_trunc (fmul (f_of_Z 100) (f_of_Z (F:=b64) (10 ^ 307))) = None.
Proof. vm_compute. auto. Qed.
