(* ===== verification/Metrics.v ===== *)
(** * Counters ([vllm/tokencake/metrics.py])

    The fixed-cardinality counters the lifecycle registry and the scheduling
    controller share, and the Prometheus exporter that turns successive
    snapshots of them into monotone counters. *)
From S2P Require Import Prelude PyFloat.
Local Open Scope string_scope.
Local Open Scope Z_scope.

(** [class Metric(str, Enum)] *)
Inductive Metric :=
  | ASSOCIATED
  | COMPLETED
  | STARTED
  | FINISHED
  | ABORTED
  | ERROR
  | EXPIRED
  | RESET
  | DUPLICATE
  | LATE_FINISH
  | UNKNOWN
  | CONFLICT
  | NOT_ELIGIBLE
  | EMPTY
  | LOW_PRESSURE
  | NO_WAITING_DEMAND
  | BACKOFF
  | UNPROFITABLE
  | PREFIX_GAP
  | CPU_CAPACITY
  | SELECTED
  | STALE
  | EXTERNAL
  | FENCE_WAIT
  | TRANSFER_FAILURE
  | SAVED
  | DEFERRED
  | PREEMPTED
  | PREFILL_CAPPED
  | PHYSICAL_PREEMPTED
  | RESERVATION_PREEMPTED
  | RESERVATION_DENIED
  | PREFILL_CAPACITY_DENIED
  | GENERATION_CAPACITY_DENIED
  | GENERATION_PROGRESS_DEFERRED
  | RECLAIM_BENEFICIARY
  | RESUME_DEFERRED
  | ADMITTED
  | WORK_CONSERVING_ADMITTED
  | CACHE_AFFINITY_ADMITTED
  | JOIN_PRIORITY_ADMITTED
  | PRIORITY_BORROW_ADMITTED
  | CRITICAL_ADMITTED
  | CRITICAL_WAIT_GE_60S
  | CRITICAL_WAIT_GE_180S
  | EXECUTED_TOKENS
  | RECOMPUTED_TOKENS
  | GPU_HIT_TOKENS
  | GPU_SHARED_HIT_BLOCKS
  | GPU_EXCLUSIVE_HIT_BLOCKS
  | CPU_HIT_TOKENS
  | RESUME_GPU_HIT_TOKENS
  | RESUME_CPU_HIT_TOKENS.

Definition metric_value (m : Metric) : string :=
  match m with
  | ASSOCIATED => "lifecycle.associated"
  | COMPLETED => "lifecycle.completed"
  | STARTED => "lifecycle.started"
  | FINISHED => "lifecycle.finished"
  | ABORTED => "lifecycle.aborted"
  | ERROR => "lifecycle.error"
  | EXPIRED => "lifecycle.expired"
  | RESET => "lifecycle.reset"
  | DUPLICATE => "lifecycle.duplicate"
  | LATE_FINISH => "lifecycle.late_finish"
  | UNKNOWN => "lifecycle.unknown"
  | CONFLICT => "lifecycle.conflict"
  | NOT_ELIGIBLE => "decision.not_eligible"
  | EMPTY => "decision.empty"
  | LOW_PRESSURE => "decision.low_pressure"
  | NO_WAITING_DEMAND => "decision.no_waiting_demand"
  | BACKOFF => "decision.backoff"
  | UNPROFITABLE => "decision.unprofitable"
  | PREFIX_GAP => "decision.prefix_gap"
  | CPU_CAPACITY => "decision.cpu_capacity"
  | SELECTED => "decision.selected"
  | STALE => "decision.stale_snapshot"
  | EXTERNAL => "decision.snapshot_external"
  | FENCE_WAIT => "decision.fence_wait"
  | TRANSFER_FAILURE => "decision.transfer_failure"
  | SAVED => "saved_blocks.completed"
  | DEFERRED => "scheduling.deferred"
  | PREEMPTED => "scheduling.preempted"
  | PREFILL_CAPPED => "scheduling.prefill_capped"
  | PHYSICAL_PREEMPTED => "scheduling.physical_preempted"
  | RESERVATION_PREEMPTED => "scheduling.reservation_preempted"
  | RESERVATION_DENIED => "scheduling.reservation_denied"
  | PREFILL_CAPACITY_DENIED => "scheduling.prefill_capacity_denied"
  | GENERATION_CAPACITY_DENIED => "scheduling.generation_capacity_denied"
  | GENERATION_PROGRESS_DEFERRED => "scheduling.generation_progress_deferred"
  | RECLAIM_BENEFICIARY => "scheduling.reclaim_beneficiary"
  | RESUME_DEFERRED => "scheduling.resume_deferred"
  | ADMITTED => "scheduling.admitted"
  | WORK_CONSERVING_ADMITTED => "scheduling.work_conserving_admitted"
  | CACHE_AFFINITY_ADMITTED => "scheduling.cache_affinity_admitted"
  | JOIN_PRIORITY_ADMITTED => "scheduling.join_priority_admitted"
  | PRIORITY_BORROW_ADMITTED => "scheduling.priority_borrow_admitted"
  | CRITICAL_ADMITTED => "scheduling.critical_admitted"
  | CRITICAL_WAIT_GE_60S => "scheduling.critical_wait_ge_60s"
  | CRITICAL_WAIT_GE_180S => "scheduling.critical_wait_ge_180s"
  | EXECUTED_TOKENS => "scheduling.executed_tokens"
  | RECOMPUTED_TOKENS => "scheduling.recomputed_tokens"
  | GPU_HIT_TOKENS => "scheduling.gpu_hit_tokens"
  | GPU_SHARED_HIT_BLOCKS => "scheduling.gpu_shared_hit_blocks"
  | GPU_EXCLUSIVE_HIT_BLOCKS => "scheduling.gpu_exclusive_hit_blocks"
  | CPU_HIT_TOKENS => "scheduling.cpu_hit_tokens"
  | RESUME_GPU_HIT_TOKENS => "scheduling.resume_gpu_hit_tokens"
  | RESUME_CPU_HIT_TOKENS => "scheduling.resume_cpu_hit_tokens"
  end.

(** Iteration over the enumeration, in declaration order. *)
Definition all_metrics : list Metric :=
  [ASSOCIATED; COMPLETED; STARTED; FINISHED; ABORTED; ERROR; EXPIRED;
   RESET; DUPLICATE; LATE_FINISH; UNKNOWN; CONFLICT; NOT_ELIGIBLE; EMPTY;
   LOW_PRESSURE; NO_WAITING_DEMAND; BACKOFF; UNPROFITABLE; PREFIX_GAP;
   CPU_CAPACITY; SELECTED; STALE; EXTERNAL; FENCE_WAIT; TRANSFER_FAILURE;
   SAVED; DEFERRED; PREEMPTED; PREFILL_CAPPED; PHYSICAL_PREEMPTED;
   RESERVATION_PREEMPTED; RESERVATION_DENIED; PREFILL_CAPACITY_DENIED;
   GENERATION_CAPACITY_DENIED; GENERATION_PROGRESS_DEFERRED;
   RECLAIM_BENEFICIARY; RESUME_DEFERRED; ADMITTED;
   WORK_CONSERVING_ADMITTED; CACHE_AFFINITY_ADMITTED;
   JOIN_PRIORITY_ADMITTED; PRIORITY_BORROW_ADMITTED; CRITICAL_ADMITTED;
   CRITICAL_WAIT_GE_60S; CRITICAL_WAIT_GE_180S; EXECUTED_TOKENS;
   RECOMPUTED_TOKENS; GPU_HIT_TOKENS; GPU_SHARED_HIT_BLOCKS;
   GPU_EXCLUSIVE_HIT_BLOCKS; CPU_HIT_TOKENS; RESUME_GPU_HIT_TOKENS;
   RESUME_CPU_HIT_TOKENS].

(** [Metric(s)]: the member with value [s], an error ([None]) otherwise. *)
Definition metric_of_value (s : string) : option Metric :=
  snd <$> list_find (λ m, metric_value m = s) all_metrics.

Lemma metric_of_value_value m : metric_of_value (metric_value m) = Some m.
Proof. destruct m; vm_compute; reflexivity. Qed.

#[export] Instance Metric_eq_dec : EqDecision Metric.
Proof. solve_decision. Defined.

#[export] Instance Metric_countable : Countable Metric :=
  inj_countable metric_value metric_of_value metric_of_value_value.

(** ** [TokenCakeMetrics] *)
Record TokenCakeMetrics := mkMetrics {
  counters : gmap Metric Z;
  max_critical_wait_ms : Z;
  max_critical_growth_wait_ms : Z
}.

(** [__init__]: [dict.fromkeys(Metric, 0)] and two gauges at zero. *)
Definition metrics_init : TokenCakeMetrics :=
  {| counters := list_to_map (map (λ m, (m, 0)) all_metrics);
     max_critical_wait_ms := 0; max_critical_growth_wait_ms := 0 |}.

Definition counter (t : TokenCakeMetrics) (m : Metric) : Z := default 0 (counters t !! m).

(** The body of [count] once its assertion holds. *)
Definition bump (m : Metric) (amount : Z) (t : TokenCakeMetrics) : TokenCakeMetrics :=
  {| counters := <[m := counter t m + amount]> (counters t);
     max_critical_wait_ms := max_critical_wait_ms t;
     max_critical_growth_wait_ms := max_critical_growth_wait_ms t |}.

(** [count(metric, amount)] *)
Definition count (m : Metric) (amount : Z) : M TokenCakeMetrics unit :=
  assertM (0 <=? amount) ;; modify (bump m amount).

(** [count(metric)]: the default amount 1 always passes the assertion. *)
Definition count1 (m : Metric) (t : TokenCakeMetrics) : TokenCakeMetrics := bump m 1 t.

Section waits.
Context {F : Type} `{FloatOps F}.

(** [int(seconds * 1000)] raises on a non-finite product; the callers pass
    the difference of two clock readings. *)
Definition to_ms (seconds : F) : option Z := f_trunc (fmul seconds (f_of_Z 1000)).

(** [growth_wait(seconds)] *)
Definition growth_wait (seconds : F) : M TokenCakeMetrics unit :=
  match to_ms seconds with
  | None => raise OverflowError
  | Some ms => modify (λ t,
      {| counters := counters t;
         max_critical_wait_ms := max_critical_wait_ms t;
         max_critical_growth_wait_ms := Z.max (max_critical_growth_wait_ms t) ms |})
  end.

Definition set_critical_wait (ms : Z) (t : TokenCakeMetrics) : TokenCakeMetrics :=
  {| counters := counters t;
     max_critical_wait_ms := Z.max (max_critical_wait_ms t) ms;
     max_critical_growth_wait_ms := max_critical_growth_wait_ms t |}.

(** [admission_wait(seconds, critical=...)] *)
Definition admission_wait (seconds : F) (critical : bool) : M TokenCakeMetrics unit :=
  count ADMITTED 1 ;;
  if critical then
    count CRITICAL_ADMITTED 1 ;;
    match to_ms seconds with
    | None => raise OverflowError
    | Some ms =>
        modify (set_critical_wait ms) ;;
        (if fleb (f_of_Z 60) seconds then count CRITICAL_WAIT_GE_60S 1 else mret tt) ;;
        (if fleb (f_of_Z 180) seconds then count CRITICAL_WAIT_GE_180S 1 else mret tt)
    end
  else mret tt.
End waits.

(** [snapshot(active)]: the wire form, a dict keyed by metric values.  The
    three gauges are merged last, under keys no metric value collides with. *)
Definition snapshot (active : Z) (t : TokenCakeMetrics) : odict string Z :=
  map (λ m, (metric_value m, counter t m)) all_metrics ++
  [("active", active); ("max_critical_wait_ms", max_critical_wait_ms t);
   ("max_critical_growth_wait_ms", max_critical_growth_wait_ms t)].

(** ** [TokenCakeProm]

    The Prometheus client is a library; a [Counter] is the running total of
    the amounts passed to [inc] and a [Gauge] is the last value [set]. *)
Record TokenCakeProm := mkProm {
  prom_previous : gmap Z (odict string Z);
  prom_counters : gmap (Z * string) Z;
  prom_active : gmap Z Z;
  prom_wait_ms : gmap Z Z;
  prom_growth_wait_ms : gmap Z Z
}.

(** [__init__] *)
Definition prom_init (engine_indexes : list Z) : TokenCakeProm :=
  {| prom_previous := list_to_map (map (λ i, (i, [])) engine_indexes);
     prom_counters := list_to_map
       (engine_indexes ≫= λ i, map (λ m, ((i, metric_value m), 0)) all_metrics);
     prom_active := ∅; prom_wait_ms := ∅; prom_growth_wait_ms := ∅ |}.

Definition prom_inc (engine_idx : Z) (name : string) (delta : Z) (p : TokenCakeProm) :
    TokenCakeProm :=
  {| prom_previous := prom_previous p;
     prom_counters :=
       <[(engine_idx, name) := default 0 (prom_counters p !! (engine_idx, name)) + delta]>
         (prom_counters p);
     prom_active := prom_active p; prom_wait_ms := prom_wait_ms p;
     prom_growth_wait_ms := prom_growth_wait_ms p |}.

(** One round of the loop of [observe]. *)
Definition observe_metric (values previous : odict string Z) (engine_idx : Z) (m : Metric) :
    M TokenCakeProm unit :=
  match od_get (metric_value m) values with
  | None => raise KeyError
  | Some value =>
      let delta := value - default 0 (od_get (metric_value m) previous) in
      assertM (0 <=? delta) ;;
      modify (prom_inc engine_idx (metric_value m) delta)
  end.

(** [observe(values, engine_idx)]; the two waits are kept in milliseconds, the
    unit before the division by 1000 that sets the gauges. *)
Definition observe (values : odict string Z) (engine_idx : Z) : M TokenCakeProm unit :=
  p ← get_state;
  match prom_previous p !! engine_idx with
  | None => raise KeyError
  | Some previous =>
      forM all_metrics (observe_metric values previous engine_idx) ;;
      match od_get "active" values with
      | None => raise KeyError
      | Some active =>
          modify (λ p,
            {| prom_previous := <[engine_idx := values]> (prom_previous p);
               prom_counters := prom_counters p;
               prom_active := <[engine_idx := active]> (prom_active p);
               prom_wait_ms :=
                 <[engine_idx := default 0 (od_get "max_critical_wait_ms" values)]>
                   (prom_wait_ms p);
               prom_growth_wait_ms :=
                 <[engine_idx := default 0 (od_get "max_critical_growth_wait_ms" values)]>
                   (prom_growth_wait_ms p) |})
      end
  end.

(** ** Properties *)
Lemma all_metrics_complete m : m ∈ all_metrics.
Proof. apply list_elem_of_In. destruct m; vm_compute; tauto. Qed.

Lemma all_metrics_NoDup : NoDup all_metrics.
Proof. apply (bool_decide_unpack _). by vm_compute. Qed.

#[export] Instance metric_value_inj : Inj (=) (=) metric_value.
Proof.
  intros m1 m2 Heq. apply (inj Some).
  by rewrite <-!metric_of_value_value, Heq.
Qed.

Lemma od_get_map_metric (f : Metric → Z) (l : list Metric) m :
  m ∈ l → od_get (metric_value m) (map (λ m, (metric_value m, f m)) l) = Some (f m).
Proof.
  induction l as [|x l IH]; [by intros ?%elem_of_nil|]. intros Hm. simpl.
  case_decide as Heq; [by apply metric_value_inj in Heq as ->|].
  apply IH. apply elem_of_cons in Hm as [->|]; done.
Qed.

(** A counter survives the trip through its wire name. *)
Lemma snapshot_get active t m : od_get (metric_value m) (snapshot active t) = Some (counter t m).
Proof.
  unfold snapshot. rewrite od_get_app.
  by rewrite (od_get_map_metric (counter t)) by apply all_metrics_complete.
Qed.

Lemma snapshot_active active t : od_get "active" (snapshot active t) = Some active.
Proof. reflexivity. Qed.

(** The order "every counter has grown". *)
Definition metrics_le (t1 t2 : TokenCakeMetrics) : Prop := ∀ m, counter t1 m ≤ counter t2 m.

#[export] Instance metrics_le_preorder : PreOrder metrics_le.
Proof. split; [by intros t m|]. intros t1 t2 t3 H12 H23 m. etrans; [apply H12|apply H23]. Qed.

Lemma counter_bump m n t m' :
  counter (bump m n t) m' = if decide (m = m') then counter t m + n else counter t m'.
Proof.
  unfold bump, counter. simpl. rewrite lookup_insert. by case_decide.
Qed.

Lemma bump_le m n t : 0 ≤ n → metrics_le t (bump m n t).
Proof. intros ? m'. rewrite counter_bump. case_decide; subst; lia. Qed.

Lemma count_Ret m n t u t' : count m n t = Ret u t' → 0 ≤ n ∧ t' = bump m n t.
Proof.
  unfold count, mbind, M_bind, assertM, modify.
  destruct (Z.leb_spec 0 n); intros [= <- <-]; auto.
Qed.

(** The exporter's invariant: every Prometheus counter shows the value of the
    last snapshot observed for its engine. *)
Definition prom_ok (p : TokenCakeProm) : Prop :=
  ∀ i prev m, prom_previous p !! i = Some prev →
    default 0 (prom_counters p !! (i, metric_value m)) =
    default 0 (od_get (metric_value m) prev).

Lemma observe_loop values prev i (l : list Metric) p :
  NoDup l →
  (∀ m, m ∈ l → ∃ v, od_get (metric_value m) values = Some v
                     ∧ default 0 (od_get (metric_value m) prev) ≤ v) →
  ∃ p', forM l (observe_metric values prev i) p = Ret tt p'
    ∧ prom_previous p' = prom_previous p
    ∧ (∀ m, m ∈ l → default 0 (prom_counters p' !! (i, metric_value m)) =
         default 0 (prom_counters p !! (i, metric_value m)) +
         (default 0 (od_get (metric_value m) values) -
          default 0 (od_get (metric_value m) prev)))
    ∧ (∀ j s, (j ≠ i ∨ ∀ m, m ∈ l → s ≠ metric_value m) →
         prom_counters p' !! (j, s) = prom_counters p !! (j, s)).
Proof.
  intros Hl. revert p. induction Hl as [|m l Hm Hl IH]; intros p Hv.
  { exists p. split; [done|]. set_solver. }
  destruct (Hv m) as (v & Hget & Hle); [set_solver|].
  destruct (IH (prom_inc i (metric_value m) (v - default 0 (od_get (metric_value m) prev)) p))
    as (p' & Hrun & Hprev & Hin & Hout); [set_solver|].
  exists p'. simpl. unfold mbind, M_bind at 1, observe_metric at 1. rewrite Hget.
  unfold mbind, M_bind at 1, assertM.
  rewrite (proj2 (Z.leb_le _ _)) by lia. split; [exact Hrun|]. split; [exact Hprev|].
  split.
  - intros m' [Heq|Hm']%elem_of_cons; [subst m'|].
    + rewrite Hout by (right; set_solver). cbn. rewrite lookup_insert_eq, Hget. done.
    + rewrite (Hin m' Hm'). cbn. rewrite lookup_insert_ne; [done|].
      intros [= Heq%metric_value_inj]; set_solver.
  - intros j s Hjs. rewrite Hout by (destruct Hjs; [by left|right; set_solver]). cbn.
    rewrite lookup_insert_ne; [done|]. intros [= <- <-]. destruct Hjs as [?|Hs]; [done|].
    by apply (Hs m); [left|].
Qed.

(** Observing a snapshot whose counters have grown since the previous
    one never trips the exporter's assertion, and afterwards every exported
    counter of that engine equals the engine's own counter. *)
Theorem prom_exports_counters p i prev active t :
  prom_ok p →
  prom_previous p !! i = Some prev →
  (∀ m, default 0 (od_get (metric_value m) prev) ≤ counter t m) →
  ∃ p', observe (snapshot active t) i p = Ret tt p'
    ∧ prom_ok p'
    ∧ prom_previous p' !! i = Some (snapshot active t)
    ∧ (∀ m, default 0 (prom_counters p' !! (i, metric_value m)) = counter t m)
    ∧ (∀ j s, j ≠ i → prom_counters p' !! (j, s) = prom_counters p !! (j, s)).
Proof.
  intros Hok Hi Hle.
  destruct (observe_loop (snapshot active t) prev i all_metrics p all_metrics_NoDup)
    as (p' & Hrun & Hprev & Hin & Hout).
  { intros m _. exists (counter t m). split; [apply snapshot_get|apply Hle]. }
  assert (∀ m, default 0 (prom_counters p' !! (i, metric_value m)) = counter t m) as Hcnt.
  { intros m. rewrite (Hin m) by apply all_metrics_complete.
    rewrite (Hok i prev m Hi), snapshot_get. simpl. lia. }
  unfold observe. rewrite get_bind, Hi, bind_unfold, Hrun, snapshot_active.
  eexists. split; [reflexivity|]. cbn -[snapshot]. split_and!.
  - intros j prev' m. cbn -[snapshot]. rewrite lookup_insert, Hprev. case_decide as Hj.
    + subst. intros [= <-]. by rewrite Hcnt, snapshot_get.
    + intros Hj'. rewrite Hout by (left; congruence). by apply Hok.
  - by rewrite lookup_insert_eq.
  - exact Hcnt.
  - intros j s Hj. by rewrite Hout by (left; congruence).
Qed.

Lemma prom_exports_counters_witness :
  let t := bump STARTED 3 metrics_init in
  ∃ p', observe (snapshot 2 t) 0 (prom_init [0]) = Ret tt p'
    ∧ default 0 (prom_counters p' !! (0, metric_value STARTED)) = 3.
Proof.
  intros t.
  destruct (prom_exports_counters (prom_init [0]) 0 [] 2 t) as (p' & Hrun & _ & _ & Hc & _).
  - intros i prev m Hi. destruct (decide (i = 0)) as [->|Hne].
    + assert (prev = []) as -> by (vm_compute in Hi; congruence).
      destruct m; vm_compute; reflexivity.
    + unfold prom_init in Hi. simpl in Hi. by rewrite lookup_insert_ne in Hi by congruence.
  - reflexivity.
  - intros m. destruct m; vm_compute; discriminate.
  - exists p'. split; [exact Hrun|]. rewrite (Hc STARTED). reflexivity.
Defined.
