(* ===== verification/CachePolicy.v ===== *)
(** * CPU cache policies ([vllm/v1/kv_offload/cpu/policies])

    Offload keys, block statuses, the [CachePolicy] interface the offloading
    manager is written against (a class of operations and a class of laws), and
    its two implementations, LRU and ARC. *)
From S2P Require Import Prelude PyFloat.
Local Open Scope Z_scope.

(** ** Offload keys ([vllm/v1/kv_offload/base.py])

    [bytes] are lists of byte values. *)
Definition OffloadKey := list Z.
#[export] Instance OffloadKey_eq_dec : EqDecision OffloadKey := _.
#[export] Instance OffloadKey_countable : Countable OffloadKey := _.

Definition make_offload_key (block_hash : list Z) (group_idx : Z) : option OffloadKey :=
  (λ bs, block_hash ++ bs) <$> to_bytes4 group_idx.

(** [key[:-4]] *)
Definition get_offload_block_hash (key : OffloadKey) : list Z := take (length key - 4) key.

(** [int.from_bytes(key[-4:], ...)] *)
Definition get_offload_group_idx (key : OffloadKey) : Z :=
  from_bytes (drop (length key - 4) key).

(** ** [BlockStatus]: a 32-bit reference count, -1 while the block is being
    written, and the index of the CPU buffer slot. *)
Record BlockStatus := mkBlockStatus { ref_cnt : Z; block_id : Z }.

#[export] Instance BlockStatus_eq_dec : EqDecision BlockStatus.
Proof. solve_decision. Defined.

(** [BlockStatus(block_id)] *)
Definition new_block (id : Z) : BlockStatus := {| ref_cnt := -1; block_id := id |}.

Definition is_ready (b : BlockStatus) : bool := 0 <=? ref_cnt b.

(** Assignments to the [c_int32] field. *)
Definition set_ref_cnt (z : Z) (b : BlockStatus) : BlockStatus :=
  {| ref_cnt := wrap32 z; block_id := block_id b |}.
Definition incr_ref (b : BlockStatus) : BlockStatus := set_ref_cnt (ref_cnt b + 1) b.
Definition decr_ref (b : BlockStatus) : BlockStatus := set_ref_cnt (ref_cnt b - 1) b.

(** ** The interface

    [p_alter f k] is the mutation of the [BlockStatus] object stored under
    [k], which the manager performs through the reference [get] returns. *)
Class CachePolicy (P : Type) := {
  p_init : Z → P;
  p_get : OffloadKey → P → option BlockStatus;
  p_insert : OffloadKey → BlockStatus → P → P;
  p_remove : OffloadKey → P → option P;
  p_touch : list OffloadKey → P → P;
  p_evict : nat → gset OffloadKey → P → option (odict OffloadKey BlockStatus * P);
  p_clear : P → P;
  p_alter : (BlockStatus → BlockStatus) → OffloadKey → P → P;
  (** the resident blocks, in the policy's own order *)
  p_blocks : P → odict OffloadKey BlockStatus
}.

(** A block an eviction may take. *)
Definition evictable (protected : gset OffloadKey) (kb : OffloadKey * BlockStatus) : Prop :=
  ref_cnt kb.2 = 0 ∧ kb.1 ∉ protected.
#[export] Instance evictable_dec protected kb : Decision (evictable protected kb).
Proof. unfold evictable. apply _. Defined.

Class CachePolicyLaws (P : Type) `{CachePolicy P} := {
  p_wf : P → Prop;
  p_wf_blocks p : p_wf p → od_wf (p_blocks p);
  p_get_blocks k p : p_get k p = od_get k (p_blocks p);
  p_init_wf c : p_wf (p_init c) ∧ p_blocks (p_init c) = [];
  p_insert_fresh k b p : p_wf p → p_get k p = None →
    p_wf (p_insert k b p) ∧ p_blocks (p_insert k b p) ≡ₚ (k, b) :: p_blocks p;
  p_remove_present k b p : p_wf p → p_get k p = Some b →
    ∃ p', p_remove k p = Some p' ∧ p_wf p' ∧ p_blocks p ≡ₚ (k, b) :: p_blocks p';
  p_touch_blocks ks p : p_wf p →
    p_wf (p_touch ks p) ∧ p_blocks (p_touch ks p) ≡ₚ p_blocks p;
  p_alter_blocks f k p : p_wf p →
    p_wf (p_alter f k p) ∧ p_blocks (p_alter f k p) ≡ₚ od_alter f k (p_blocks p);
  p_evict_sound n protected p l p' : p_wf p →
    p_evict n protected p = Some (l, p') →
    p_wf p' ∧ length l = n ∧ p_blocks p ≡ₚ l ++ p_blocks p' ∧ Forall (evictable protected) l;
  p_clear_blocks p : p_wf (p_clear p) ∧ p_blocks (p_clear p) = []
}.

(** ** [LRUCachePolicy] *)
Module LRU.
Record t := mk { blocks : odict OffloadKey BlockStatus }.

Definition init (cache_capacity : Z) : t := {| blocks := [] |}.
Definition get (key : OffloadKey) (p : t) : option BlockStatus := od_get key (blocks p).
Definition insert (key : OffloadKey) (block : BlockStatus) (p : t) : t :=
  {| blocks := od_set key block (blocks p) |}.

(** [del self.blocks[key]]: a [KeyError] when the key is absent. *)
Definition remove (key : OffloadKey) (p : t) : option t :=
  if od_mem key (blocks p) then Some {| blocks := od_del key (blocks p) |} else None.

Definition touch1 (key : OffloadKey) (d : odict OffloadKey BlockStatus) :=
  if od_mem key d then od_move_to_end key d else d.
Definition touch (keys : list OffloadKey) (p : t) : t :=
  {| blocks := foldl (λ d key, touch1 key d) (blocks p) (rev keys) |}.
Definition clear (p : t) : t := {| blocks := [] |}.
Definition alter (f : BlockStatus → BlockStatus) (key : OffloadKey) (p : t) : t :=
  {| blocks := od_alter f key (blocks p) |}.

(** The scan of [evict]: collect evictable entries from the oldest on, and
    [break] when [n] are found. *)
Fixpoint scan (n : nat) (protected : gset OffloadKey)
    (candidates items : odict OffloadKey BlockStatus) : odict OffloadKey BlockStatus :=
  match items with
  | [] => candidates
  | kb :: items' =>
      if decide (evictable protected kb) then
        let candidates' := candidates ++ [kb] in
        if decide (length candidates' = n) then candidates'
        else scan n protected candidates' items'
      else scan n protected candidates items'
  end.

Definition evict (n : nat) (protected : gset OffloadKey) (p : t) :
    option (odict OffloadKey BlockStatus * t) :=
  if decide (n = 0%nat) then Some ([], p) else
  let candidates := scan n protected [] (blocks p) in
  if decide (length candidates < n)%nat then None
  else Some (candidates,
             {| blocks := foldl (λ d kb, od_del kb.1 d) (blocks p) candidates |}).
End LRU.

#[export] Instance LRU_policy : CachePolicy LRU.t := {
  p_init := LRU.init; p_get := LRU.get; p_insert := LRU.insert; p_remove := LRU.remove;
  p_touch := LRU.touch; p_evict := LRU.evict; p_clear := LRU.clear; p_alter := LRU.alter;
  p_blocks := LRU.blocks
}.

(** ** [ARCCachePolicy]

    The ghost lists map keys to [None]: only their order matters. *)
Module ARC.
Section ARC.
Context {F : Type} `{FloatOps F}.

Record t := mk {
  cache_capacity : Z;
  target_t1_size : F;
  t1 : odict OffloadKey BlockStatus;
  t2 : odict OffloadKey BlockStatus;
  b1 : list OffloadKey;
  b2 : list OffloadKey
}.

Definition init (capacity : Z) : t :=
  {| cache_capacity := capacity; target_t1_size := f_of_Z 0;
     t1 := []; t2 := []; b1 := []; b2 := [] |}.

(** [self.t1.get(key) or self.t2.get(key)]: a [BlockStatus] is truthy. *)
Definition get (key : OffloadKey) (p : t) : option BlockStatus :=
  match od_get key (t1 p) with Some b => Some b | None => od_get key (t2 p) end.

Definition ghost_add (key : OffloadKey) (g : list OffloadKey) : list OffloadKey :=
  if decide (key ∈ g) then g else g ++ [key].
Definition ghost_pop (key : OffloadKey) (g : list OffloadKey) : list OffloadKey :=
  filter (λ j, j ≠ key) g.
Definition ghost_move_to_end (key : OffloadKey) (g : list OffloadKey) : list OffloadKey :=
  ghost_pop key g ++ [key].

Definition insert (key : OffloadKey) (block : BlockStatus) (p : t) : t :=
  {| cache_capacity := cache_capacity p; target_t1_size := target_t1_size p;
     t1 := od_set key block (t1 p); t2 := t2 p;
     b1 := ghost_pop key (b1 p); b2 := ghost_pop key (b2 p) |}.

(** [if self.t1.pop(key, None) is None: self.t2.pop(key, None)] *)
Definition remove (key : OffloadKey) (p : t) : option t :=
  Some (if od_mem key (t1 p)
   then {| cache_capacity := cache_capacity p; target_t1_size := target_t1_size p;
           t1 := od_del key (t1 p); t2 := t2 p; b1 := b1 p; b2 := b2 p |}
   else {| cache_capacity := cache_capacity p; target_t1_size := target_t1_size p;
           t1 := t1 p; t2 := od_del key (t2 p); b1 := b1 p; b2 := b2 p |}).

(** One round of the loop of [touch]. *)
Definition touch1 (key : OffloadKey) (p : t) : t :=
  let upd target t1' t2' b1' b2' :=
    {| cache_capacity := cache_capacity p; target_t1_size := target;
       t1 := t1'; t2 := t2'; b1 := b1'; b2 := b2' |} in
  match od_get key (t1 p) with
  | Some block =>
      let rest := od_del key (t1 p) in
      if negb (is_ready block)
      then upd (target_t1_size p) (od_set key block rest) (t2 p) (b1 p) (b2 p)
      else upd (target_t1_size p) rest (od_set key block (t2 p)) (b1 p) (b2 p)
  | None =>
      if od_mem key (t2 p) then
        upd (target_t1_size p) (t1 p) (od_move_to_end key (t2 p)) (b1 p) (b2 p)
      else if decide (key ∈ b1 p) then
        let delta := py_max (f_of_Z 1) (int_truediv (zlen (b2 p)) (zlen (b1 p))) in
        upd (py_min (fadd (target_t1_size p) delta) (f_of_Z (cache_capacity p)))
          (t1 p) (t2 p) (ghost_move_to_end key (b1 p)) (b2 p)
      else if decide (key ∈ b2 p) then
        let delta := py_max (f_of_Z 1) (int_truediv (zlen (b1 p)) (zlen (b2 p))) in
        upd (py_max (fsub (target_t1_size p) delta) (f_of_Z 0))
          (t1 p) (t2 p) (b1 p) (ghost_move_to_end key (b2 p))
      else p
  end.

Definition touch (keys : list OffloadKey) (p : t) : t :=
  foldl (λ p key, touch1 key p) p (rev keys).

Definition clear (p : t) : t :=
  {| cache_capacity := cache_capacity p; target_t1_size := f_of_Z 0;
     t1 := []; t2 := []; b1 := []; b2 := [] |}.

Definition alter (f : BlockStatus → BlockStatus) (key : OffloadKey) (p : t) : t :=
  if od_mem key (t1 p)
  then {| cache_capacity := cache_capacity p; target_t1_size := target_t1_size p;
          t1 := od_alter f key (t1 p); t2 := t2 p; b1 := b1 p; b2 := b2 p |}
  else {| cache_capacity := cache_capacity p; target_t1_size := target_t1_size p;
          t1 := t1 p; t2 := od_alter f key (t2 p); b1 := b1 p; b2 := b2 p |}.

(** The first entry of a partition that can be evicted and is not selected
    yet. *)
Fixpoint find_candidate (protected already : gset OffloadKey)
    (items : odict OffloadKey BlockStatus) : option (OffloadKey * BlockStatus) :=
  match items with
  | [] => None
  | kb :: items' =>
      if decide (evictable protected kb ∧ kb.1 ∉ already) then Some kb
      else find_candidate protected already items'
  end.

(** [int(self.target_t1_size)]; the target is a finite float between 0 and
    the capacity, so the conversion does not raise. *)
Definition target_int (p : t) : Z := default 0 (f_trunc (target_t1_size p)).

(** The selection loop of [evict]: nothing is modified, the size of T1 is
    simulated; the flag of a candidate says whether it comes from T1. *)
Fixpoint select (n : nat) (protected already : gset OffloadKey) (virtual_t1_size : Z)
    (p : t) : option (list (OffloadKey * BlockStatus * bool)) :=
  match n with
  | O => Some []
  | S n' =>
      let from_t1 :=
        if target_int p <=? virtual_t1_size
        then find_candidate protected already (t1 p) else None in
      match from_t1 with
      | Some kb =>
          rest ← select n' protected ({[kb.1]} ∪ already) (virtual_t1_size - 1) p;
          Some ((kb, true) :: rest)
      | None =>
          kb ← find_candidate protected already (t2 p);
          rest ← select n' protected ({[kb.1]} ∪ already) virtual_t1_size p;
          Some ((kb, false) :: rest)
      end
  end.

Definition apply1 (p : t) (c : OffloadKey * BlockStatus * bool) : t :=
  let key := c.1.1 in
  if c.2
  then {| cache_capacity := cache_capacity p; target_t1_size := target_t1_size p;
          t1 := od_del key (t1 p); t2 := t2 p; b1 := ghost_add key (b1 p); b2 := b2 p |}
  else {| cache_capacity := cache_capacity p; target_t1_size := target_t1_size p;
          t1 := t1 p; t2 := od_del key (t2 p); b1 := b1 p; b2 := ghost_add key (b2 p) |}.

(** [for _ in range(len(ghost) - capacity): ghost.popitem(last=False)] *)
Definition trim (capacity : Z) (g : list OffloadKey) : list OffloadKey :=
  drop (Z.to_nat (zlen g - capacity)) g.

Definition evict (n : nat) (protected : gset OffloadKey) (p : t) :
    option (odict OffloadKey BlockStatus * t) :=
  if decide (n = 0%nat) then Some ([], p) else
  candidates ← select n protected ∅ (zlen (t1 p)) p;
  let p' := foldl apply1 p candidates in
  Some (candidates.*1,
        {| cache_capacity := cache_capacity p'; target_t1_size := target_t1_size p';
           t1 := t1 p'; t2 := t2 p';
           b1 := trim (cache_capacity p') (b1 p');
           b2 := trim (cache_capacity p') (b2 p') |}).
End ARC.
Arguments t F : clear implicits.
End ARC.

#[export] Instance ARC_policy {F} `{FloatOps F} : CachePolicy (ARC.t F) := {
  p_init := ARC.init; p_get := ARC.get; p_insert := ARC.insert; p_remove := ARC.remove;
  p_touch := ARC.touch; p_evict := ARC.evict; p_clear := ARC.clear; p_alter := ARC.alter;
  p_blocks p := ARC.t1 p ++ ARC.t2 p
}.

(** ** LRU satisfies the interface *)
Lemma LRU_scan n protected candidates items :
  (length candidates < n)%nat →
  LRU.scan n protected candidates items =
    take n (candidates ++ filter (evictable protected) items).
Proof.
  revert candidates. induction items as [|kb items IH]; intros candidates Hn; simpl.
  - rewrite app_nil_r, take_ge; [done|lia].
  - rewrite filter_cons. case_decide as Hev; [|by apply IH].
    rewrite (cons_middle kb candidates (filter _ _)), app_assoc.
    assert (length (candidates ++ [kb]) = S (length candidates)) as Hlen
      by (rewrite length_app; simpl; lia).
    destruct (decide (length (candidates ++ [kb]) = n)).
    + rewrite take_app_le, take_ge; [done|lia..].
    + apply IH. lia.
Qed.

Lemma od_wf_sublist {K V} `{EqDecision K} (l d : odict K V) :
  l `sublist_of` d → od_wf d → od_wf l.
Proof.
  unfold od_wf, od_keys. intros Hs Hd. eapply sublist_NoDup; [exact Hd|].
  by apply fmap_sublist.
Qed.

(** What LRU eviction does: the [n] oldest evictable entries, or nothing. *)
Lemma LRU_evict_spec n protected p :
  LRU.evict n protected p =
    let l := take n (filter (evictable protected) (LRU.blocks p)) in
    if decide (length l < n)%nat then None
    else Some (l, LRU.mk (foldl (λ d kb, od_del kb.1 d) (LRU.blocks p) l)).
Proof.
  unfold LRU.evict. destruct (decide (n = 0%nat)) as [->|Hn].
  - rewrite take_0. simpl. by destruct p.
  - rewrite LRU_scan by (simpl; lia). done.
Qed.

#[export] Program Instance LRU_laws : CachePolicyLaws LRU.t := {
  p_wf p := od_wf (LRU.blocks p)
}.
Next Obligation. done. Qed.
Next Obligation. done. Qed.
Next Obligation. intros c. split; [apply od_wf_nil|done]. Qed.
Next Obligation.
  intros k b [d] Hwf Hk. cbn in *. unfold LRU.get in *. cbn in *.
  split; [by apply od_wf_set|].
  rewrite od_set_new by done. by rewrite <-Permutation_cons_append.
Qed.
Next Obligation.
  intros k b [d] Hwf Hk. cbn in *. unfold LRU.get, LRU.remove in *. cbn in *.
  unfold od_mem. rewrite Hk. eexists; split; [done|]. simpl.
  split; [by apply od_wf_del|]. by apply od_del_Permutation.
Qed.
Next Obligation.
  intros ks [d]; cbn; unfold LRU.touch; cbn. generalize (rev ks) as l. intros l. revert d.
  induction l as [|k l IH]; intros d Hwf; simpl; [done|].
  assert (od_wf (LRU.touch1 k d) ∧ LRU.touch1 k d ≡ₚ d) as [Hw Hp].
  { unfold LRU.touch1. case_match; [|done]. split; [by apply od_wf_move|].
    by apply od_move_Permutation. }
  destruct (IH _ Hw) as [Hw' Hp']. split; [done|]. by rewrite Hp'.
Qed.
Next Obligation. intros f k [d] Hwf. simpl in *. split; [by apply od_wf_alter|done]. Qed.
Next Obligation.
  intros n protected [d] l p' Hwf. simpl in *. rewrite LRU_evict_spec. simpl.
  case_decide as Hlen; [done|]. intros [= <- <-]. simpl.
  set (l := take n (filter (evictable protected) d)) in *.
  assert (l `sublist_of` d) as Hsub.
  { etrans; [apply sublist_take|apply sublist_filter]. }
  destruct (od_dels_Permutation l d) as [Hp Hw]; [done|by eapply od_wf_sublist| |].
  { intros k v Hkv. apply od_elem_get; [done|]. by eapply elem_of_sublist. }
  split_and!; [done| |done|].
  - pose proof (length_take_le (filter (evictable protected) d) n). unfold l in *.
    rewrite length_take in *. lia.
  - apply Forall_forall. intros kb Hkb.
    eapply elem_of_sublist in Hkb; [|apply sublist_take].
    by apply list_elem_of_filter in Hkb as [? _].
Qed.
Next Obligation. intros [d]. split; [apply od_wf_nil|done]. Qed.


(** ** ARC satisfies the interface *)
Section ARC_facts.
Context {F : Type} `{FloatOps F}.
Implicit Types p : ARC.t F.
Import ARC.

Definition arc_blocks p := t1 p ++ t2 p.

Lemma arc_t1_wf p : od_wf (arc_blocks p) → od_wf (t1 p).
Proof. apply od_wf_sublist. unfold arc_blocks. by apply sublist_inserts_r. Qed.
Lemma arc_t2_wf p : od_wf (arc_blocks p) → od_wf (t2 p).
Proof. apply od_wf_sublist. unfold arc_blocks. by apply sublist_inserts_l. Qed.

Lemma arc_disjoint p k b : od_wf (arc_blocks p) → od_get k (t1 p) = Some b →
  od_get k (t2 p) = None.
Proof.
  unfold arc_blocks, od_wf, od_keys. rewrite fmap_app, NoDup_app. intros (_ & Hd & _) Hk.
  apply od_get_None. apply Hd, (od_get_is_Some k (t1 p)). eauto.
Qed.

Lemma arc_del_t1 p k b : od_wf (arc_blocks p) → od_get k (t1 p) = Some b →
  arc_blocks p ≡ₚ (k, b) :: od_del k (t1 p) ++ t2 p.
Proof.
  intros Hwf Hk. unfold arc_blocks.
  by rewrite (od_del_Permutation k b (t1 p) (arc_t1_wf p Hwf) Hk) at 1.
Qed.

Lemma arc_del_t2 p k b : od_wf (arc_blocks p) → od_get k (t2 p) = Some b →
  arc_blocks p ≡ₚ (k, b) :: t1 p ++ od_del k (t2 p).
Proof.
  intros Hwf Hk. unfold arc_blocks.
  rewrite (od_del_Permutation k b (t2 p) (arc_t2_wf p Hwf) Hk) at 1.
  by rewrite Permutation_middle.
Qed.

Lemma arc_touch1 k p : od_wf (arc_blocks p) → arc_blocks (touch1 k p) ≡ₚ arc_blocks p.
Proof.
  intros Hwf. unfold touch1. destruct (od_get k (t1 p)) as [b|] eqn:Hk.
  - rewrite (arc_del_t1 p k b) by done. unfold arc_blocks. case_match; simpl.
    + rewrite od_set_new by (rewrite od_get_del; by case_decide).
      by rewrite <-app_assoc, Permutation_middle.
    + rewrite (od_set_new k b (t2 p)) by by eapply arc_disjoint.
      by rewrite (Permutation_app_comm (t2 p) [_]), Permutation_middle.
  - case_match; [|by repeat case_decide].
    unfold arc_blocks. simpl. by rewrite (od_move_Permutation k _ (arc_t2_wf p Hwf)).
Qed.

Lemma find_candidate_Some protected already items kb :
  find_candidate protected already items = Some kb →
  kb ∈ items ∧ evictable protected kb ∧ kb.1 ∉ already.
Proof.
  induction items as [|kb' items IH]; simpl; [done|].
  case_decide; [intros [= ->]; set_solver|]. intros [? ?]%IH. set_solver.
Qed.

Lemma find_candidate_None protected already items kb :
  find_candidate protected already items = None →
  kb ∈ items → evictable protected kb → kb.1 ∈ already.
Proof.
  induction items as [|kb' items IH]; simpl; [by intros _ ?%elem_of_nil|].
  case_decide as Hc; [done|]. intros Hn [->|Hin]%elem_of_cons Hev; [|auto].
  destruct (decide (kb'.1 ∈ already)); naive_solver.
Qed.

(** A candidate of the selection loop: where it lives and why it may go. *)
Definition selected (protected already : gset OffloadKey) p
    (c : OffloadKey * BlockStatus * bool) : Prop :=
  c.1 ∈ (if c.2 then t1 p else t2 p) ∧ evictable protected c.1 ∧ c.1.1 ∉ already.

Lemma select_sound n protected already v p l :
  select n protected already v p = Some l →
  length l = n ∧ Forall (selected protected already p) l ∧ NoDup (l.*1.*1).
Proof.
  revert already v l. induction n as [|n IH]; simpl; intros already v l Hs.
  { simplify_eq. split_and!; [done|constructor|constructor]. }
  assert (∃ kb b v' rest, select n protected ({[kb.1]} ∪ already) v' p = Some rest
    ∧ l = (kb, b) :: rest ∧ selected protected already p (kb, b))
    as (kb & b & v' & rest & Hrest & -> & Hsel).
  { case_match eqn:Hc.
    - destruct (select n _ _ _ p) as [rest|] eqn:Hrest; simplify_eq/=.
      case_match; [|done]. apply find_candidate_Some in Hc as (?&?&?).
      eexists _, true, _, rest. unfold selected. eauto.
    - destruct (find_candidate protected already (t2 p)) as [kb|] eqn:Hk; simplify_eq/=.
      destruct (select n _ _ _ p) as [rest|] eqn:Hrest; simplify_eq/=.
      apply find_candidate_Some in Hk as (?&?&?).
      eexists _, false, _, rest. unfold selected. eauto. }
  apply IH in Hrest as (Hlen & Hall & Hnd). split_and!; [simpl; lia| |].
  - constructor; [done|]. eapply Forall_impl; [exact Hall|]. unfold selected. set_solver.
  - rewrite !fmap_cons. constructor; [|done]. simpl.
    intros Hin. apply list_elem_of_fmap in Hin as (kb' & Heq1 & Hin).
    apply list_elem_of_fmap in Hin as (c & Heq2 & Hc).
    eapply Forall_forall in Hall; [|exact Hc]. destruct Hall as (_ & _ & Hni).
    subst kb'. set_solver.
Qed.

Lemma apply_candidates l p :
  od_wf (arc_blocks p) → NoDup (l.*1.*1) →
  Forall (λ c : OffloadKey * BlockStatus * bool, c.1 ∈ (if c.2 then t1 p else t2 p)) l →
  arc_blocks p ≡ₚ l.*1 ++ arc_blocks (foldl apply1 p l).
Proof.
  revert p. induction l as [|[[k b] s] l IH]; intros p Hwf Hnd Hall; [done|].
  rewrite !fmap_cons in *. apply NoDup_cons in Hnd as [Hk Hnd].
  apply Forall_cons in Hall as [Hkb Hall]. cbn [foldl].
  assert (arc_blocks p ≡ₚ (k, b) :: arc_blocks (apply1 p (k, b, s))) as Hp.
  { destruct s; simpl in *.
    - apply (arc_del_t1 p k b Hwf). by apply od_elem_get; [apply arc_t1_wf|].
    - apply (arc_del_t2 p k b Hwf). by apply od_elem_get; [apply arc_t2_wf|]. }
  assert (od_wf (arc_blocks (apply1 p (k, b, s)))) as Hwf'.
  { eapply od_wf_Permutation in Hwf; [|exact Hp]. by apply od_wf_cons in Hwf as [_ ?]. }
  rewrite Hp at 1. rewrite (IH _ Hwf' Hnd) at 1; [done|].
  apply Forall_forall. intros [[k' b'] s'] Hc.
  assert (k' ≠ k) as Hne.
  { intros ->. apply Hk. apply list_elem_of_fmap. exists (k, b'). split; [done|].
    apply list_elem_of_fmap. by exists (k, b', s'). }
  eapply Forall_forall in Hall; [|exact Hc]. simpl in *.
  destruct s, s'; simpl; try done.
  - apply od_elem_get in Hall; [|by apply arc_t1_wf]. apply od_get_elem.
    rewrite od_get_del. by rewrite decide_False.
  - apply od_elem_get in Hall; [|by apply arc_t2_wf]. apply od_get_elem.
    rewrite od_get_del. by rewrite decide_False.
Qed.
End ARC_facts.

#[export] Program Instance ARC_laws {F} `{FloatOps F} : CachePolicyLaws (ARC.t F) := {
  p_wf p := od_wf (arc_blocks p)
}.
Next Obligation. done. Qed.
Next Obligation. intros. cbn. unfold ARC.get. by rewrite od_get_app. Qed.
Next Obligation. intros. split; [apply od_wf_nil|done]. Qed.
Next Obligation.
  intros F ? k b p Hwf Hk. cbn in *. unfold ARC.get in Hk.
  destruct (od_get k (ARC.t1 p)) eqn:Hk1; [done|].
  assert (ARC.t1 (ARC.insert k b p) ++ ARC.t2 (ARC.insert k b p) ≡ₚ (k, b) :: arc_blocks p) as Hp.
  { simpl. rewrite od_set_new, <-app_assoc by done. symmetry. apply Permutation_middle. }
  split; [|done]. eapply od_wf_Permutation; [symmetry; exact Hp|]. apply od_wf_cons.
  split; [|done]. unfold arc_blocks. by rewrite od_get_app, Hk1.
Qed.
Next Obligation.
  intros F ? k b p Hwf Hk. cbn in *. unfold ARC.get, ARC.remove, od_mem in *.
  assert (∃ p', ARC.remove k p = Some p' ∧ arc_blocks p ≡ₚ (k, b) :: arc_blocks p')
    as (p' & Hr & Hp).
  { unfold ARC.remove, od_mem. eexists; split; [done|].
    destruct (od_get k (ARC.t1 p)) eqn:Hk1; simplify_eq.
    - exact (arc_del_t1 p k b Hwf Hk1).
    - exact (arc_del_t2 p k b Hwf Hk). }
  exists p'. split; [exact Hr|]. split; [|done].
  eapply od_wf_Permutation in Hwf; [|exact Hp]. by apply od_wf_cons in Hwf as [_ ?].
Qed.
Next Obligation.
  intros F ? ks p. cbn. unfold ARC.touch. generalize (rev ks) as l. intros l. revert p.
  induction l as [|k l IH]; intros p Hwf; [done|]. cbn [foldl].
  pose proof (arc_touch1 k p Hwf) as Hp.
  destruct (IH (ARC.touch1 k p)) as [Hw' Hp'].
  { eapply od_wf_Permutation; [symmetry; exact Hp|done]. }
  split; [done|]. etrans; [exact Hp'|exact Hp].
Qed.
Next Obligation.
  intros F ? f k p Hwf. cbn.
  assert (arc_blocks (ARC.alter f k p) = od_alter f k (arc_blocks p)) as Heq.
  { unfold arc_blocks, ARC.alter. rewrite od_alter_app. by destruct (od_mem k (ARC.t1 p)). }
  split.
  - rewrite Heq. by apply od_wf_alter.
  - change (arc_blocks (ARC.alter f k p) ≡ₚ od_alter f k (arc_blocks p)). by rewrite Heq.
Qed.
Next Obligation.
  intros F ? n protected p l p' Hwf. cbn. unfold ARC.evict.
  destruct (decide (n = 0%nat)) as [->|Hn].
  { intros [= <- <-]. split_and!; [done|done|done|constructor]. }
  destruct (ARC.select n protected ∅ (zlen (ARC.t1 p)) p) as [cs|] eqn:Hs; [|done].
  intros [= <- <-]. apply select_sound in Hs as (Hlen & Hall & Hnd).
  assert (arc_blocks p ≡ₚ cs.*1 ++ arc_blocks (foldl ARC.apply1 p cs)) as Hp.
  { apply apply_candidates; [done|done|]. eapply Forall_impl; [exact Hall|]. by intros c [? _]. }
  split_and!.
  - eapply od_wf_Permutation in Hwf; [|exact Hp].
    eapply od_wf_sublist; [|exact Hwf]. by apply sublist_inserts_l.
  - by rewrite length_fmap.
  - exact Hp.
  - apply Forall_fmap. eapply Forall_impl; [exact Hall|]. by intros c (_ & ? & _).
Qed.
Next Obligation. intros. split; [apply od_wf_nil|done]. Qed.

(** ** Properties *)
(** Packing a block hash and a group index loses nothing: for every
    group index that fits 32 bits the key exists and both accessors recover
    what was packed. *)
Theorem offload_key_roundtrip h g :
  0 ≤ g < 2 ^ 32 →
  ∃ k, make_offload_key h g = Some k
    ∧ get_offload_block_hash k = h ∧ get_offload_group_idx k = g.
Proof.
  intros Hg. unfold make_offload_key.
  destruct (to_bytes4 g) as [bs|] eqn:Hbs.
  - apply to_bytes4_spec in Hbs as (_ & Hlen & Hval). exists (h ++ bs). split; [done|].
    unfold get_offload_block_hash, get_offload_group_idx. rewrite length_app, Hlen.
    rewrite Nat.add_sub. by rewrite take_app_length, drop_app_length.
  - unfold to_bytes4 in Hbs.
    rewrite (proj2 (Z.leb_le 0 g)), (proj2 (Z.ltb_lt g _)) in Hbs by lia. done.
Qed.

Lemma offload_key_roundtrip_witness :
  ∃ k, make_offload_key [7; 9] 258 = Some k
    ∧ get_offload_block_hash k = [7; 9] ∧ get_offload_group_idx k = 258.
Proof. apply (offload_key_roundtrip [7; 9] 258). lia. Defined.

(** LRU eviction is complete and evicts the oldest blocks first: it
    fails exactly when fewer than [n] blocks are unreferenced and unprotected,
    and otherwise it takes the first [n] of those in recency order and leaves
    every other block where it was. *)
Theorem LRU_evict_oldest n protected p :
  od_wf (LRU.blocks p) →
  (LRU.evict n protected p = None ↔
     (length (filter (evictable protected) (LRU.blocks p)) < n)%nat)
  ∧ ∀ l p', LRU.evict n protected p = Some (l, p') →
      l = take n (filter (evictable protected) (LRU.blocks p))
      ∧ ∀ k, od_get k (LRU.blocks p') =
          if od_mem k l then None else od_get k (LRU.blocks p).
Proof.
  intros Hwf. rewrite LRU_evict_spec. cbn zeta. split.
  - rewrite length_take. case_decide; split; intros; [lia|done|done|lia].
  - intros l p'. case_decide; [done|]. intros [= Hl <-]. rewrite Hl. split; [done|].
    intros k. cbn. clear. generalize (LRU.blocks p) as d. induction l as [|kb l IH]; intros d; simpl.
    + done.
    + destruct kb as [j b]. rewrite IH, od_get_del. unfold od_mem. simpl.
      by destruct (decide (j = k)), (od_get k l).
Qed.

Lemma LRU_evict_oldest_witness :
  let p := LRU.mk [([1], mkBlockStatus 1 0); ([2], mkBlockStatus 0 1); ([3], mkBlockStatus 0 2)] in
  LRU.evict 3 ∅ p = None.
Proof.
  intros p. apply (LRU_evict_oldest 3 ∅ p).
  - apply (bool_decide_unpack _). by vm_compute.
  - vm_compute. lia.
Defined.

(** The ARC state reached from an empty cache of two blocks by inserting and
    evicting [1], touching it twice as a ghost, and storing [2]. *)
Definition arc_adapted : ARC.t b64 :=
  let ready k i p := p_alter (set_ref_cnt 0) k (p_insert k (new_block i) p) in
  let p := ready [1] 0 (p_init 2) in
  let p := match p_evict 1 ∅ p with Some (_, p) => p | None => p end in
  ready [2] 0 (p_touch [[1]] (p_touch [[1]] p)).

(** ARC eviction is not complete: in a reachable state it reports that
    no block can be evicted although a resident block is unreferenced and
    unprotected (T1 is below its adaptive target and T2 is empty). *)
Theorem ARC_evict_incomplete :
  ∃ kb, kb ∈ p_blocks arc_adapted ∧ evictable ∅ kb ∧ ARC.evict 1 ∅ arc_adapted = None.
Proof.
  exists ([2], mkBlockStatus 0 0). split_and!.
  - apply list_elem_of_In. vm_compute. auto.
  - split; [done|]. apply not_elem_of_empty.
  - vm_compute. reflexivity.
Qed.
