(* ===== verification/CPUManager.v ===== *)
(** * The CPU offloading manager ([vllm/v1/kv_offload/cpu/manager.py])

    Block pool management, reference counting, event emission and the
    prepare/complete skeletons, over any cache policy.  The block pool
    invariant and the theorems are proved once, against the laws of the
    policy interface. *)
From S2P Require Import Prelude PyFloat CachePolicy.
Local Open Scope Z_scope.

(** [OffloadingEvent]; the medium is the constant ["CPU"]. *)
Record OffloadingEvent := mkEvent { ev_keys : list OffloadKey; ev_removed : bool }.

(** [PrepareStoreOutput]; the store spec is the list of CPU block ids. *)
Record PrepareStoreOutput := mkPrepared {
  keys_to_store : list OffloadKey;
  store_spec : list Z;
  evicted_keys : list OffloadKey
}.

Section Manager.
Context {P : Type} `{CachePolicy P}.

(** [_free_list] is a stack ([append] and [pop] work at its end): the model
    keeps it with the end of the Python list first. *)
Record CPUOffloadingManager := mkManager {
  num_blocks : Z;
  num_allocated_blocks : Z;
  free_list : list Z;
  events : option (list OffloadingEvent);
  policy : P;
  store_threshold : Z;
  max_tracker_size : Z;
  counts : option (odict OffloadKey Z)
}.

Definition manager_init (n : Z) (enable_events : bool) (threshold tracker : Z) :
    CPUOffloadingManager :=
  {| num_blocks := n; num_allocated_blocks := 0; free_list := [];
     events := if enable_events then Some [] else None;
     policy := p_init n; store_threshold := threshold; max_tracker_size := tracker;
     counts := if 2 <=? threshold then Some [] else None |}.

Definition set_policy (p : P) (m : CPUOffloadingManager) : CPUOffloadingManager :=
  {| num_blocks := num_blocks m; num_allocated_blocks := num_allocated_blocks m;
     free_list := free_list m; events := events m; policy := p;
     store_threshold := store_threshold m; max_tracker_size := max_tracker_size m;
     counts := counts m |}.
Definition set_pool (allocated : Z) (free : list Z) (m : CPUOffloadingManager) :
    CPUOffloadingManager :=
  {| num_blocks := num_blocks m; num_allocated_blocks := allocated;
     free_list := free; events := events m; policy := policy m;
     store_threshold := store_threshold m; max_tracker_size := max_tracker_size m;
     counts := counts m |}.
Definition set_events (e : option (list OffloadingEvent)) (m : CPUOffloadingManager) :
    CPUOffloadingManager :=
  {| num_blocks := num_blocks m; num_allocated_blocks := num_allocated_blocks m;
     free_list := free_list m; events := e; policy := policy m;
     store_threshold := store_threshold m; max_tracker_size := max_tracker_size m;
     counts := counts m |}.
Definition set_counts (c : option (odict OffloadKey Z)) (m : CPUOffloadingManager) :
    CPUOffloadingManager :=
  {| num_blocks := num_blocks m; num_allocated_blocks := num_allocated_blocks m;
     free_list := free_list m; events := events m; policy := policy m;
     store_threshold := store_threshold m; max_tracker_size := max_tracker_size m;
     counts := c |}.

(** The status object stored under a key, and its mutation. *)
Definition block_of (k : OffloadKey) (m : CPUOffloadingManager) : option BlockStatus :=
  p_get k (policy m).
Definition alter_block (f : BlockStatus → BlockStatus) (k : OffloadKey)
    (m : CPUOffloadingManager) : CPUOffloadingManager :=
  set_policy (p_alter f k (policy m)) m.

(** [_get_num_free_blocks] *)
Definition get_num_free_blocks (m : CPUOffloadingManager) : Z :=
  zlen (free_list m) + num_blocks m - num_allocated_blocks m.

(** [_allocate_blocks(keys)], which only uses [len(keys)]: fresh slots first,
    then slots popped from the free list. *)
Definition allocate_blocks (n : Z) : M CPUOffloadingManager (list BlockStatus) :=
  m ← get_state;
  let num_fresh := Z.min n (num_blocks m - num_allocated_blocks m) in
  let num_reused := n - num_fresh in
  assertM (num_reused <=? zlen (free_list m)) ;;
  put_state (set_pool (num_allocated_blocks m + Z.max 0 num_fresh)
               (drop (Z.to_nat num_reused) (free_list m)) m) ;;
  mret (map new_block (seqZ (num_allocated_blocks m) num_fresh ++
                       take (Z.to_nat num_reused) (free_list m))).

(** [_free_block(block)] *)
Definition free_block (b : BlockStatus) (m : CPUOffloadingManager) : CPUOffloadingManager :=
  set_pool (num_allocated_blocks m) (block_id b :: free_list m) m.

(** The reference counting of [lookup], with its bounded tracker. *)
Definition track (key : OffloadKey) (m : CPUOffloadingManager) : CPUOffloadingManager :=
  match counts m with
  | None => m
  | Some c =>
      set_counts (Some
        (match od_get key c with
         | Some n => od_set key (n + 1) (od_move_to_end key c)
         | None => od_set key 1 (if max_tracker_size m <=? zlen c then tail c else c)
         end)) m
  end.

(** [lookup(key)]: [Some true] ready, [Some false] absent, [None] retry. *)
Definition lookup_key (key : OffloadKey) (m : CPUOffloadingManager) :
    option bool * CPUOffloadingManager :=
  let m := track key m in
  (match block_of key m with
   | None => Some false
   | Some b => if is_ready b then Some true else None
   end, m).

(** [prepare_load(keys)] returns the CPU block ids to read. *)
Fixpoint prepare_load (keys : list OffloadKey) : M CPUOffloadingManager (list Z) :=
  match keys with
  | [] => mret []
  | key :: keys' =>
      m ← get_state;
      match block_of key m with
      | None => raise AssertionError
      | Some b =>
          assertM (is_ready b) ;;
          modify (alter_block incr_ref key) ;;
          ids ← prepare_load keys';
          mret (block_id b :: ids)
      end
  end.

Definition touch_keys (keys : list OffloadKey) (m : CPUOffloadingManager) :
    CPUOffloadingManager :=
  set_policy (p_touch keys (policy m)) m.

(** [retain(keys)]: one reference for each distinct ready key.  The set the
    code iterates has no order; the model visits it in the order of
    [elements], and no result below depends on it. *)
Definition retain1 (acc : gset OffloadKey * CPUOffloadingManager) (key : OffloadKey) :
    gset OffloadKey * CPUOffloadingManager :=
  match block_of key acc.2 with
  | Some b => if is_ready b then ({[key]} ∪ acc.1, alter_block incr_ref key acc.2) else acc
  | None => acc
  end.
Definition retain (keys : gset OffloadKey) (m : CPUOffloadingManager) :
    gset OffloadKey * CPUOffloadingManager :=
  foldl retain1 (∅, m) (elements keys).

Definition releasable (m : CPUOffloadingManager) (key : OffloadKey) : bool :=
  match block_of key m with Some b => 0 <? ref_cnt b | None => false end.

(** [release(keys)]: the assertion covers all keys before any decrement. *)
Definition release (keys : gset OffloadKey) : M CPUOffloadingManager unit :=
  m ← get_state;
  assertM (forallb (releasable m) (elements keys)) ;;
  modify (λ m, foldl (λ m key, alter_block decr_ref key m) m (elements keys)).

(** [complete_load(keys)] *)
Fixpoint complete_load (keys : list OffloadKey) : M CPUOffloadingManager unit :=
  match keys with
  | [] => mret tt
  | key :: keys' =>
      m ← get_state;
      assertM (releasable m key) ;;
      modify (alter_block decr_ref key) ;;
      complete_load keys'
  end.

Definition append_event (e : OffloadingEvent) (m : CPUOffloadingManager) :
    CPUOffloadingManager :=
  match events m with
  | Some l => set_events (Some (l ++ [e])) m
  | None => m
  end.

(** The keys that pass the store-frequency threshold. *)
Definition admitted_keys (keys : list OffloadKey) (m : CPUOffloadingManager) :
    list OffloadKey :=
  match counts m with
  | Some c => filter (λ k, store_threshold m ≤ default 0 (od_get k c)) keys
  | None => keys
  end.

Definition missing_keys (keys : list OffloadKey) (m : CPUOffloadingManager) :
    list OffloadKey :=
  filter (λ k, block_of k m = None) keys.

Definition insert_blocks (kbs : odict OffloadKey BlockStatus) (m : CPUOffloadingManager) :
    CPUOffloadingManager :=
  set_policy (foldl (λ p kb, p_insert kb.1 kb.2 p) (policy m) kbs) m.

(** [prepare_store(keys)]; [None] when the eviction cannot be satisfied. *)
Definition prepare_store (keys : list OffloadKey) :
    M CPUOffloadingManager (option PrepareStoreOutput) :=
  m ← get_state;
  let keys := admitted_keys keys m in
  let todo := missing_keys keys m in
  match todo with
  | [] => mret (Some (mkPrepared [] [] []))
  | _ =>
      let num_to_evict := zlen todo - get_num_free_blocks m in
      let eviction :=
        if 0 <? num_to_evict
        then p_evict (Z.to_nat num_to_evict) (list_to_set keys) (policy m)
        else Some ([], policy m) in
      match eviction with
      | None => mret None
      | Some (evicted, p) =>
          let to_evict := od_keys evicted in
          modify (λ m, foldl (λ m kb, free_block kb.2 m) (set_policy p m) evicted) ;;
          (match to_evict with
           | [] => mret tt
           | _ => modify (append_event (mkEvent to_evict true))
           end) ;;
          blocks ← allocate_blocks (zlen todo);
          assertM (length blocks =? length todo)%nat ;;
          modify (insert_blocks (zip todo blocks)) ;;
          mret (Some (mkPrepared todo (map block_id blocks) to_evict))
      end
  end.

(** The two loops of [complete_store]. *)
Fixpoint complete_ok (keys stored : list OffloadKey) (m : CPUOffloadingManager) :
    list OffloadKey * CPUOffloadingManager :=
  match keys with
  | [] => (stored, m)
  | key :: keys' =>
      match block_of key m with
      | Some b =>
          if is_ready b then complete_ok keys' stored m
          else complete_ok keys' (stored ++ [key]) (alter_block (set_ref_cnt 0) key m)
      | None => complete_ok keys' stored m
      end
  end.

Fixpoint complete_failed (keys : list OffloadKey) : M CPUOffloadingManager unit :=
  match keys with
  | [] => mret tt
  | key :: keys' =>
      m ← get_state;
      match block_of key m with
      | Some b =>
          if is_ready b then complete_failed keys'
          else match p_remove key (policy m) with
               | None => raise KeyError
               | Some p => modify (λ m, free_block b (set_policy p m)) ;; complete_failed keys'
               end
      | None => complete_failed keys'
      end
  end.

(** [complete_store(keys, success=...)] *)
Definition complete_store (keys : list OffloadKey) (success : bool) :
    M CPUOffloadingManager unit :=
  if success then
    m ← get_state;
    let '(stored, m') := complete_ok keys [] m in
    put_state (match stored with
               | [] => m'
               | _ => append_event (mkEvent stored false) m'
               end)
  else complete_failed keys.

Definition reset_cache (m : CPUOffloadingManager) : CPUOffloadingManager :=
  set_pool 0 [] (set_policy (p_clear (policy m)) m).

(** [take_events()], consumed to its end by the caller. *)
Definition take_events (m : CPUOffloadingManager) :
    list OffloadingEvent * CPUOffloadingManager :=
  match events m with
  | Some l => (l, set_events (Some []) m)
  | None => ([], m)
  end.
End Manager.
Arguments CPUOffloadingManager P : clear implicits.

(** ** The block pool invariant *)
Section Facts.
Context {P : Type} `{CachePolicyLaws P}.
Implicit Types m : CPUOffloadingManager P.

(** The reference count of a key. *)
Definition ref_of (k : OffloadKey) m : option Z := ref_cnt <$> block_of k m.

(** Every CPU slot handed out so far is either used by exactly one resident
    block or on the free list, exactly once. *)
Definition pool_ok (used : list Z) m : Prop :=
  used ++ free_list m ≡ₚ seqZ 0 (num_allocated_blocks m)
  ∧ 0 ≤ num_allocated_blocks m ≤ num_blocks m.

Definition block_ids (d : odict OffloadKey BlockStatus) : list Z := map (λ kb, block_id kb.2) d.
Definition resident m : odict OffloadKey BlockStatus := p_blocks (policy m).

Record mgr_wf m : Prop := {
  wf_policy : p_wf (policy m);
  wf_pool : pool_ok (block_ids (resident m)) m;
  wf_refs : Forall (λ kb, is_int32 (ref_cnt kb.2)) (resident m)
}.

Lemma block_of_resident k m : block_of k m = od_get k (resident m).
Proof. apply p_get_blocks. Qed.

Lemma pool_ok_Permutation used used' m : used ≡ₚ used' → pool_ok used m → pool_ok used' m.
Proof. unfold pool_ok. by intros ->. Qed.

Lemma pool_ok_free used b m : pool_ok (block_id b :: used) m → pool_ok used (free_block b m).
Proof.
  intros [Hp Hb]. split; [|done]. simpl. rewrite <-Hp. symmetry. apply Permutation_middle.
Qed.

Lemma pool_ok_length used m : pool_ok used m →
  zlen used + get_num_free_blocks m = num_blocks m.
Proof.
  intros [Hp Hb]. apply Permutation_length in Hp.
  rewrite length_app, length_seqZ in Hp. unfold get_num_free_blocks, zlen. lia.
Qed.

Lemma seqZ_split a n : 0 ≤ a → 0 ≤ n → seqZ 0 (a + n) = seqZ 0 a ++ seqZ a n.
Proof. intros. rewrite seqZ_app by lia. by rewrite Z.add_0_l. Qed.

(** Allocation succeeds whenever enough slots are free. *)
Lemma allocate_spec used n m :
  pool_ok used m → 0 ≤ n ≤ get_num_free_blocks m →
  ∃ ids m', allocate_blocks n m = Ret (map new_block ids) m'
    ∧ zlen ids = n ∧ pool_ok (ids ++ used) m'
    ∧ m' = set_pool (num_allocated_blocks m') (free_list m') m.
Proof.
  intros [Hp Hb] Hn. unfold get_num_free_blocks in Hn. unfold allocate_blocks.
  rewrite get_bind, bind_unfold.
  set (fresh := Z.min n (num_blocks m - num_allocated_blocks m)).
  assert (0 ≤ fresh ∧ 0 ≤ n - fresh ≤ zlen (free_list m)) as [Hf Hr]
    by (unfold fresh, zlen in *; lia).
  rewrite assertM_true by (apply Z.leb_le; lia).
  eexists _, _. split; [reflexivity|]. split_and!.
  - unfold zlen in *. rewrite length_app, length_seqZ, length_take. lia.
  - split; simpl; [|unfold fresh; lia].
    rewrite Z.max_r, seqZ_split, <-Hp by lia.
    rewrite <-(take_drop (Z.to_nat (n - fresh)) (free_list m)) at 3.
    rewrite !(Permutation_app_comm _ (seqZ _ _)), !app_assoc_reverse.
    f_equiv. rewrite !app_assoc. f_equiv. apply Permutation_app_comm.
  - done.
Qed.

Lemma block_ids_alter f k d :
  (∀ b, block_id (f b) = block_id b) → block_ids (od_alter f k d) = block_ids d.
Proof.
  intros Hf. unfold block_ids. induction d as [|[j b] d IH]; simpl; [done|].
  case_decide; simpl; by rewrite ?Hf, ?IH.
Qed.

Lemma alter_wf f k m :
  (∀ b, block_id (f b) = block_id b) → (∀ b, is_int32 (ref_cnt (f b))) →
  mgr_wf m → mgr_wf (alter_block f k m).
Proof.
  intros Hid Hint [Hp Hpool Hrefs].
  destruct (p_alter_blocks f k (policy m) Hp) as [Hp' Hperm].
  split; [done| |].
  - eapply pool_ok_Permutation; [|exact Hpool]. unfold resident. simpl.
    unfold block_ids. rewrite Hperm. fold (block_ids (od_alter f k (p_blocks (policy m)))).
    by rewrite block_ids_alter.
  - unfold resident. simpl. rewrite Hperm. revert Hrefs. unfold resident. clear -Hint.
    induction 1 as [|[j b] d Hb Hd IH]; simpl; [constructor|].
    case_decide; constructor; simpl; auto.
Qed.

Lemma alter_block_of f k j m : p_wf (policy m) →
  block_of j (alter_block f k m) = if decide (k = j) then f <$> block_of j m else block_of j m.
Proof.
  intros Hp. destruct (p_alter_blocks f k (policy m) Hp) as [Hp' Hperm].
  rewrite !block_of_resident. unfold resident at 1. simpl.
  rewrite (od_get_Permutation j _ (od_alter f k (resident m))); [|by apply p_wf_blocks|done].
  apply od_get_alter.
Qed.

Lemma set_ref_id z b : block_id (set_ref_cnt z b) = block_id b.
Proof. done. Qed.
Lemma set_ref_int32 z b : is_int32 (ref_cnt (set_ref_cnt z b)).
Proof. apply wrap32_range. Qed.
Lemma incr_wf k m : mgr_wf m → mgr_wf (alter_block incr_ref k m).
Proof. apply alter_wf; intros b; [done|apply set_ref_int32]. Qed.
Lemma decr_wf k m : mgr_wf m → mgr_wf (alter_block decr_ref k m).
Proof. apply alter_wf; intros b; [done|apply set_ref_int32]. Qed.

(** Inserting fresh keys. *)
Lemma insert_blocks_spec kbs m :
  p_wf (policy m) → od_wf kbs → (∀ k, k ∈ od_keys kbs → block_of k m = None) →
  p_wf (policy (insert_blocks kbs m)) ∧ resident (insert_blocks kbs m) ≡ₚ kbs ++ resident m.
Proof.
  unfold resident, insert_blocks, block_of. simpl. generalize (policy m) as p.
  induction kbs as [|[k b] kbs IH]; intros p Hp Hkbs Hk; simpl; [done|].
  apply od_wf_cons in Hkbs as [Hnk Hkbs].
  destruct (p_insert_fresh k b p) as [Hp1 Hperm]; [done|apply Hk; simpl; set_solver|].
  destruct (IH (p_insert k b p)) as [Hp2 Hperm2]; [done|done| |].
  - intros j Hj. rewrite p_get_blocks.
    rewrite (od_get_Permutation j _ ((k, b) :: p_blocks p)); [|by apply p_wf_blocks|done].
    simpl. case_decide as Hkj.
    + subst. apply od_get_None in Hnk. done.
    + rewrite <-p_get_blocks. apply Hk. simpl. set_solver.
  - split; [done|]. rewrite Hperm2, Hperm. by rewrite Permutation_middle.
Qed.

(** Returning a list of blocks to the pool. *)
Lemma free_blocks_spec (l : odict OffloadKey BlockStatus) used m :
  pool_ok (block_ids l ++ used) m →
  ∃ free, foldl (λ m kb, free_block kb.2 m) m l = set_pool (num_allocated_blocks m) free m
    ∧ pool_ok used (set_pool (num_allocated_blocks m) free m)
    ∧ zlen free = zlen (free_list m) + zlen l.
Proof.
  revert m. induction l as [|[k b] l IH]; intros m Hpool; simpl.
  - exists (free_list m). destruct m; split_and!; [done|done|unfold zlen; simpl; lia].
  - apply (pool_ok_free (block_ids l ++ used) b m) in Hpool.
    destruct (IH _ Hpool) as (free & Heq & Hok & Hlen). exists free.
    rewrite Heq. split_and!; [done|done|]. unfold zlen in *. simpl in *. lia.
Qed.

Lemma block_ids_app d1 d2 : block_ids (d1 ++ d2) = block_ids d1 ++ block_ids d2.
Proof. apply map_app. Qed.

Lemma block_ids_Permutation d1 d2 : d1 ≡ₚ d2 → block_ids d1 ≡ₚ block_ids d2.
Proof. unfold block_ids. by intros ->. Qed.

Lemma block_ids_zip_new (ks : list OffloadKey) ids :
  length ks = length ids → block_ids (zip ks (map new_block ids)) = ids.
Proof.
  revert ids. induction ks as [|k ks IH]; intros [|i ids]; simpl; try done.
  intros [= ?]. by rewrite IH.
Qed.

Lemma od_keys_zip {V} (ks : list OffloadKey) (vs : list V) :
  length ks = length vs → od_keys (zip ks vs) = ks.
Proof. intros. apply fst_zip. lia. Qed.

(** The keys a store is going to write. *)
Definition store_todo (keys : list OffloadKey) m : list OffloadKey :=
  missing_keys (admitted_keys keys m) m.

Lemma store_todo_NoDup keys m : NoDup keys → NoDup (store_todo keys m).
Proof.
  intros. unfold store_todo, missing_keys, admitted_keys.
  apply NoDup_filter. case_match; [by apply NoDup_filter|done].
Qed.

Lemma store_todo_missing keys m k :
  k ∈ store_todo keys m ↔ k ∈ admitted_keys keys m ∧ block_of k m = None.
Proof. unfold store_todo, missing_keys. rewrite list_elem_of_filter. tauto. Qed.

Definition store_deficit keys m : Z := zlen (store_todo keys m) - get_num_free_blocks m.

(** The effect of a successful [prepare_store], before its phases are
    forgotten: [evicted] left, [rest] stayed, the new blocks came in. *)
Record stored (keys : list OffloadKey) m (out : PrepareStoreOutput) m' : Prop := {
  stored_wf : mgr_wf m';
  stored_keys : keys_to_store out = store_todo keys m;
  stored_spec : length (store_spec out) = length (store_todo keys m);
  stored_evict : ∃ evicted rest,
    resident m ≡ₚ evicted ++ rest
    ∧ Forall (evictable (list_to_set (admitted_keys keys m))) evicted
    ∧ evicted_keys out = od_keys evicted
    ∧ zlen evicted = Z.max 0 (if decide (store_todo keys m = []) then 0 else store_deficit keys m)
    ∧ resident m' ≡ₚ zip (store_todo keys m) (map new_block (store_spec out)) ++ rest
}.

Definition store_eviction keys m : option (odict OffloadKey BlockStatus * P) :=
  if 0 <? store_deficit keys m
  then p_evict (Z.to_nat (store_deficit keys m)) (list_to_set (admitted_keys keys m)) (policy m)
  else Some ([], policy m).

Lemma store_eviction_sound keys m evicted p :
  mgr_wf m → store_eviction keys m = Some (evicted, p) →
  p_wf p ∧ resident m ≡ₚ evicted ++ p_blocks p
  ∧ zlen evicted = Z.max 0 (store_deficit keys m)
  ∧ Forall (evictable (list_to_set (admitted_keys keys m))) evicted.
Proof.
  intros [Hp _ _]. unfold store_eviction. destruct (Z.ltb_spec 0 (store_deficit keys m)).
  - intros Hev. apply p_evict_sound in Hev as (? & Hlen & ? & ?); [|done].
    split_and!; [done|done| |done]. unfold zlen. lia.
  - intros [= <- <-]. split_and!; [done|done|unfold zlen; simpl; lia|constructor].
Qed.

Lemma is_int32_new kbs ids :
  Forall (λ kb : OffloadKey * BlockStatus, is_int32 (ref_cnt kb.2)) (zip kbs (map new_block ids)).
Proof.
  revert ids. induction kbs as [|k kbs IH]; intros [|i ids]; simpl; constructor; [|done].
  unfold is_int32, int32_max. simpl. lia.
Qed.

(** The second half of [prepare_store], once the eviction is decided. *)
Lemma prepare_store_commit keys m evicted p (upd : CPUOffloadingManager P → CPUOffloadingManager P) :
  mgr_wf m → NoDup keys → store_todo keys m ≠ [] →
  store_eviction keys m = Some (evicted, p) →
  (∀ m, ∃ e, upd m = set_events e m) →
  ∃ ids m',
    allocate_blocks (zlen (store_todo keys m))
      (upd (foldl (λ m kb, free_block kb.2 m) (set_policy p m) evicted)) =
        Ret (map new_block ids) m'
    ∧ length ids = length (store_todo keys m)
    ∧ stored keys m (mkPrepared (store_todo keys m) ids (od_keys evicted))
        (insert_blocks (zip (store_todo keys m) (map new_block ids)) m').
Proof.
  intros Hwf Hnd Htodo Hev Hupd.
  destruct (store_eviction_sound _ _ _ _ Hwf Hev) as (Hp & Hres & Hlen & Hevict).
  destruct Hwf as [Hp0 Hpool Hrefs].
  destruct (free_blocks_spec evicted (block_ids (p_blocks p)) (set_policy p m))
    as (free & Hfree & Hok & Hflen).
  { rewrite <-block_ids_app. eapply pool_ok_Permutation; [|exact Hpool].
    by apply block_ids_Permutation. }
  rewrite Hfree. set (m1 := set_pool _ free (set_policy p m)) in *.
  destruct (Hupd m1) as [e He]. rewrite He.
  pose proof (pool_ok_length _ _ Hpool) as Hcap.
  assert (zlen (resident m) = zlen evicted + zlen (p_blocks p)) as Hrl.
  { apply Permutation_length in Hres. unfold zlen. rewrite Hres, length_app. lia. }
  destruct (allocate_spec (block_ids (p_blocks p)) (zlen (store_todo keys m)) (set_events e m1))
    as (ids & m' & Halloc & Hids & Hpool' & Hm'); [exact Hok| |].
  { unfold get_num_free_blocks. simpl. unfold store_deficit, get_num_free_blocks in *.
    simpl in Hflen. unfold zlen in *. lia. }
  exists ids, m'. split; [done|].
  assert (length ids = length (store_todo keys m)) as Hidl by (unfold zlen in *; lia).
  split; [done|].
  assert (policy m' = p) as Hpol by (rewrite Hm'; done).
  destruct (insert_blocks_spec (zip (store_todo keys m) (map new_block ids)) m')
    as [Hp2 Hres2].
  { by rewrite Hpol. }
  { unfold od_wf. rewrite od_keys_zip by (rewrite length_map; lia). by apply store_todo_NoDup. }
  { intros k. rewrite od_keys_zip by (rewrite length_map; lia).
    intros [_ Hk]%store_todo_missing. rewrite block_of_resident in *.
    unfold resident in *. rewrite Hpol.
    rewrite (od_get_Permutation k _ (evicted ++ p_blocks p)) in Hk;
      [|by apply p_wf_blocks|done].
    rewrite od_get_app in Hk. by case_match. }
  split; [|done|done|].
  - split; [done| |].
    + eapply pool_ok_Permutation; [apply block_ids_Permutation; symmetry; exact Hres2|].
      rewrite block_ids_app, block_ids_zip_new by lia. unfold resident. by rewrite Hpol.
    + rewrite Hres2. apply Forall_app. split; [apply is_int32_new|].
      unfold resident in *. rewrite Hpol. rewrite Hres in Hrefs.
      by apply Forall_app in Hrefs as [_ ?].
  - exists evicted, (p_blocks p). split_and!; [done|done|done| |].
    + by rewrite decide_False.
    + simpl. rewrite Hres2. unfold resident. by rewrite Hpol.
Qed.

(** [prepare_store] never raises from a well-formed state: either it stores,
    or it leaves the manager exactly as it was. *)
Lemma prepare_store_spec keys m :
  mgr_wf m → NoDup keys →
  (prepare_store keys m = Ret None m ∧ store_todo keys m ≠ [] ∧ store_eviction keys m = None)
  ∨ ∃ out m', prepare_store keys m = Ret (Some out) m' ∧ stored keys m out m'.
Proof.
  intros Hwf Hnd. unfold prepare_store. rewrite get_bind.
  fold (store_todo keys m). fold (store_deficit keys m). fold (store_eviction keys m).
  destruct (store_todo keys m) as [|k0 ks0] eqn:Htodo.
  { right. exists (mkPrepared [] [] []), m. split; [done|]. split; simpl; rewrite ?Htodo; try done.
    exists [], (resident m). split_and!; done || constructor. }
  destruct (store_eviction keys m) as [[evicted p]|] eqn:Hev; [|by left].
  right.
  edestruct (prepare_store_commit keys m evicted p
    (match od_keys evicted with [] => id | _ => append_event (mkEvent (od_keys evicted) true) end))
    as (ids & m' & Halloc & Hlen & Hst); [done|done|by rewrite Htodo|done| |].
  { intros m0. case_match; [exists (events m0); by destruct m0|].
    unfold append_event. destruct (events m0) eqn:He; [by eexists|].
    exists (events m0). by destruct m0. }
  rewrite Htodo in *. eexists _, _. split; [|exact Hst].
  rewrite bind_unfold. unfold modify at 1. rewrite bind_unfold.
  assert (∀ s, allocate_blocks (zlen (k0 :: ks0)) s = Ret (map new_block ids) m' →
    (blocks ← allocate_blocks (zlen (k0 :: ks0));
     assertM (length blocks =? length (k0 :: ks0))%nat ;;
     modify (insert_blocks (zip (k0 :: ks0) blocks)) ;;
     mret (Some (mkPrepared (k0 :: ks0) (map block_id blocks) (od_keys evicted)))) s =
    Ret (Some (mkPrepared (k0 :: ks0) ids (od_keys evicted)))
      (insert_blocks (zip (k0 :: ks0) (map new_block ids)) m')) as Hrun.
  { intros s Hs. rewrite bind_unfold, Hs, bind_unfold, assertM_true
      by (apply Nat.eqb_eq; rewrite length_map; done).
    unfold modify. cbn -[insert_blocks zip map]. by rewrite map_map, map_id. }
  destruct (od_keys evicted) as [|e es]; apply Hrun; exact Halloc.
Qed.

(** ** Retention *)
Definition ready_key m (k : OffloadKey) : Prop :=
  ∃ b, block_of k m = Some b ∧ is_ready b = true.
#[global] Instance ready_key_dec m k : Decision (ready_key m k).
Proof.
  destruct (block_of k m) as [b|] eqn:E; [destruct (is_ready b) eqn:R|].
  - left. by exists b.
  - right. intros (b' & ? & ?). congruence.
  - right. intros (b' & ? & ?). congruence.
Defined.

Lemma retain_fold l acc m r m' :
  mgr_wf m → NoDup l → foldl retain1 (acc, m) l = (r, m') →
  mgr_wf m'
  ∧ r = acc ∪ filter (ready_key m) (list_to_set l)
  ∧ (∀ k, block_of k m' =
       if decide (k ∈ l ∧ ready_key m k) then incr_ref <$> block_of k m else block_of k m).
Proof.
  revert acc m. induction l as [|k l IH]; intros acc m Hwf Hnd Hfold; simpl in Hfold.
  { simplify_eq. split_and!; [done|set_solver|]. intros k. rewrite decide_False; [done|set_solver]. }
  apply NoDup_cons in Hnd as [Hk Hnd]. unfold retain1 in Hfold at 2. simpl in Hfold.
  assert (∀ m1 acc1, foldl retain1 (acc1, m1) l = (r, m') → mgr_wf m1 →
    (∀ j, j ≠ k → block_of j m1 = block_of j m) →
    ((ready_key m k ∧ acc1 = {[k]} ∪ acc ∧ block_of k m1 = incr_ref <$> block_of k m)
     ∨ (¬ ready_key m k ∧ acc1 = acc ∧ block_of k m1 = block_of k m)) →
    mgr_wf m' ∧ r = acc ∪ filter (ready_key m) (list_to_set (k :: l))
    ∧ (∀ j, block_of j m' = if decide (j ∈ k :: l ∧ ready_key m j)
         then incr_ref <$> block_of j m else block_of j m)) as Hstep.
  { intros m1 acc1 Hf Hwf1 Hoth Hcase.
    destruct (IH acc1 m1 Hwf1 Hnd Hf) as (Hwf' & Hr & Hb).
    assert (∀ j, j ≠ k → ready_key m1 j ↔ ready_key m j) as Hrd.
    { intros j Hj. unfold ready_key. by rewrite Hoth. }
    split_and!; [done| |].
    - apply set_eq. intros j. rewrite Hr. rewrite !elem_of_union, !elem_of_filter, !elem_of_list_to_set.
      destruct (decide (j = k)) as [->|Hj]; [destruct Hcase as [(?&->&_)|(?&->&_)]; set_solver|].
      rewrite (Hrd j Hj). destruct Hcase as [(?&->&_)|(?&->&_)]; set_solver.
    - intros j. rewrite (Hb j). destruct (decide (j = k)) as [->|Hj].
      + rewrite decide_False by (by intros [? _]).
        destruct Hcase as [(?&_&->)|(?&_&->)].
        * rewrite decide_True; [done|]. split; [by left|done].
        * rewrite decide_False; [done|]. by intros [_ ?].
      + rewrite (Hoth j Hj). apply decide_ext. rewrite (Hrd j Hj). set_solver. }
  destruct (block_of k m) as [b|] eqn:Hb; [destruct (is_ready b) eqn:Hrb|].
  - eapply Hstep; [exact Hfold|by apply incr_wf| |].
    + intros j Hj. rewrite alter_block_of by apply Hwf. by rewrite decide_False.
    + left. split; [by exists b|]. split; [done|].
      rewrite alter_block_of by apply Hwf. rewrite decide_True by done. by rewrite Hb.
  - eapply Hstep; [exact Hfold|done|done|]. right. split; [|done].
    intros (b' & Hb' & Hr'). congruence.
  - eapply Hstep; [exact Hfold|done|done|]. right. split; [|done].
    intros (b' & Hb' & Hr'). congruence.
Qed.

Lemma retain_spec keys m r m' :
  mgr_wf m → retain keys m = (r, m') →
  mgr_wf m' ∧ r = filter (ready_key m) keys
  ∧ ∀ k, block_of k m' = if decide (k ∈ r) then incr_ref <$> block_of k m else block_of k m.
Proof.
  intros Hwf Hr. apply retain_fold in Hr as (Hwf' & -> & Hb); [|done|apply NoDup_elements].
  split; [done|]. split; [by rewrite list_to_set_elements_L, union_empty_l_L|].
  intros k. rewrite (Hb k). apply decide_ext.
  rewrite elem_of_union, elem_of_filter, elem_of_list_to_set, elem_of_elements. set_solver.
Qed.

Lemma decr_fold l m :
  mgr_wf m → NoDup l →
  mgr_wf (foldl (λ m key, alter_block decr_ref key m) m l)
  ∧ ∀ k, block_of k (foldl (λ m key, alter_block decr_ref key m) m l) =
      if decide (k ∈ l) then decr_ref <$> block_of k m else block_of k m.
Proof.
  revert m. induction l as [|j l IH]; intros m Hwf Hnd; simpl.
  { split; [done|]. intros k. done. }
  apply NoDup_cons in Hnd as [Hj Hnd].
  destruct (IH (alter_block decr_ref j m)) as [Hwf' Hb]; [by apply decr_wf|done|].
  split; [done|]. intros k. rewrite (Hb k), alter_block_of by apply Hwf.
  destruct (decide (j = k)) as [->|Hne].
  - rewrite decide_False by done. rewrite decide_True by (by left). done.
  - apply decide_ext. set_solver.
Qed.

(** [release] succeeds exactly when every key is held, and then drops one
    reference of each. *)
Lemma release_spec keys m :
  mgr_wf m →
  (∀ k, k ∈ keys → releasable m k = true) →
  ∃ m', release keys m = Ret tt m' ∧ mgr_wf m'
    ∧ ∀ k, block_of k m' = if decide (k ∈ keys) then decr_ref <$> block_of k m else block_of k m.
Proof.
  intros Hwf Hrel. unfold release. rewrite get_bind, bind_unfold, assertM_true.
  2:{ apply forallb_forall. intros k Hk%list_elem_of_In. apply Hrel. by apply elem_of_elements. }
  destruct (decr_fold (elements keys) m Hwf (NoDup_elements _)) as [Hwf' Hb].
  eexists. split; [reflexivity|]. split; [done|].
  intros k. rewrite (Hb k). apply decide_ext. by rewrite elem_of_elements.
Qed.

Lemma release_fail keys m k :
  k ∈ keys → releasable m k = false → release keys m = Exc AssertionError m.
Proof.
  intros Hk Hr. unfold release. rewrite get_bind, bind_unfold. unfold assertM.
  destruct (forallb (releasable m) (elements keys)) eqn:E; [|done].
  rewrite forallb_forall in E. rewrite E in Hr; [done|].
  apply list_elem_of_In. by apply elem_of_elements.
Qed.

(** ** The other operations preserve the invariant *)
Lemma mgr_wf_set_events e m : mgr_wf m → mgr_wf (set_events e m).
Proof. by intros []. Qed.
Lemma mgr_wf_set_counts c m : mgr_wf m → mgr_wf (set_counts c m).
Proof. by intros []. Qed.

Lemma lookup_wf k m : mgr_wf m → mgr_wf (lookup_key k m).2.
Proof. intros. simpl. unfold track. case_match; [by apply mgr_wf_set_counts|done]. Qed.

Lemma touch_wf ks m : mgr_wf m → mgr_wf (touch_keys ks m).
Proof.
  intros [Hp Hpool Hrefs]. destruct (p_touch_blocks ks (policy m) Hp) as [Hp' Hperm].
  split; [done| |].
  - eapply pool_ok_Permutation; [|exact Hpool]. apply block_ids_Permutation. by symmetry.
  - unfold resident. simpl. by rewrite Hperm.
Qed.

Lemma prepare_load_wf ks m : mgr_wf m → mgr_wf (out_state (prepare_load ks m)).
Proof.
  revert m. induction ks as [|k ks IH]; intros m Hwf; simpl; [done|].
  rewrite get_bind. destruct (block_of k m) as [b|]; [|done].
  rewrite bind_unfold. unfold assertM. destruct (is_ready b); [|done].
  rewrite bind_unfold. unfold modify. rewrite bind_unfold.
  specialize (IH _ (incr_wf k m Hwf)). by destruct (prepare_load ks _).
Qed.

Lemma complete_load_wf ks m : mgr_wf m → mgr_wf (out_state (complete_load ks m)).
Proof.
  revert m. induction ks as [|k ks IH]; intros m Hwf; simpl; [done|].
  rewrite get_bind, bind_unfold. unfold assertM. destruct (releasable m k); [|done].
  rewrite bind_unfold. unfold modify. apply IH. by apply decr_wf.
Qed.

Lemma release_wf ks m : mgr_wf m → mgr_wf (out_state (release ks m)).
Proof.
  intros Hwf. destruct (decide (Forall (λ k, releasable m k = true) (elements ks))) as [Hf|Hf].
  - destruct (release_spec ks m Hwf) as (m' & -> & ? & _); [|done].
    intros k Hk. rewrite Forall_forall in Hf. apply Hf. by apply elem_of_elements.
  - apply not_Forall_Exists, Exists_exists in Hf as (k & Hk & Hr); [|apply _].
    apply elem_of_elements in Hk. apply not_true_is_false in Hr.
    by rewrite (release_fail ks m k Hk Hr).
Qed.

Lemma complete_ok_spec ks acc m :
  mgr_wf m →
  mgr_wf (complete_ok ks acc m).2
  ∧ (∀ k, block_of k (complete_ok ks acc m).2 =
      match block_of k m with
      | Some b => Some (if decide (k ∈ ks ∧ is_ready b = false) then set_ref_cnt 0 b else b)
      | None => None
      end).
Proof.
  revert acc m. induction ks as [|j ks IH]; intros acc m Hwf; cbn [complete_ok].
  { split; [done|]. intros k. cbn [snd]. destruct (block_of k m); [|done].
    rewrite decide_False; [done|set_solver]. }
  destruct (block_of j m) as [b|] eqn:Hb; [destruct (is_ready b) eqn:Hr|].
  - destruct (IH acc m Hwf) as [Hw Hk]. split; [done|]. intros k. rewrite (Hk k).
    destruct (block_of k m) as [b'|] eqn:Hb'; [|done]. f_equal. apply decide_ext.
    destruct (decide (k = j)) as [->|]; [|set_solver].
    simplify_eq. split; [set_solver|]. intros [_ ?]. congruence.
  - destruct (IH (acc ++ [j]) (alter_block (set_ref_cnt 0) j m)) as [Hw Hk].
    { apply alter_wf; [done|apply set_ref_int32|done]. }
    split; [done|]. intros k. rewrite (Hk k), alter_block_of by apply Hwf.
    destruct (decide (j = k)) as [->|Hne].
    + rewrite Hb. simpl. f_equal. rewrite decide_False by (by intros [_ ?]).
      rewrite decide_True; [done|]. split; [by left|done].
    + destruct (block_of k m); [|done]. f_equal. apply decide_ext. set_solver.
  - destruct (IH acc m Hwf) as [Hw Hk]. split; [done|]. intros k. rewrite (Hk k).
    destruct (block_of k m) as [b'|] eqn:Hb'; [|done]. f_equal. apply decide_ext.
    destruct (decide (k = j)) as [->|]; [congruence|set_solver].
Qed.

Lemma complete_failed_spec ks m :
  mgr_wf m →
  ∃ m', complete_failed ks m = Ret tt m' ∧ mgr_wf m'
    ∧ ∀ k, block_of k m' =
        match block_of k m with
        | Some b => if decide (k ∈ ks ∧ is_ready b = false) then None else Some b
        | None => None
        end.
Proof.
  revert m. induction ks as [|j ks IH]; intros m Hwf; cbn [complete_failed].
  { exists m. split_and!; [done|done|]. intros k. destruct (block_of k m); [|done].
    rewrite decide_False; [done|set_solver]. }
  rewrite get_bind. destruct (block_of j m) as [b|] eqn:Hb; [destruct (is_ready b) eqn:Hr|].
  - destruct (IH m Hwf) as (m' & Hrun & Hw & Hk). exists m'. split_and!; [done|done|].
    intros k. rewrite (Hk k). destruct (block_of k m) as [b'|] eqn:Hb'; [|done].
    apply decide_ext. destruct (decide (k = j)) as [->|]; [|set_solver].
    simplify_eq. split; [set_solver|]. intros [_ ?]. congruence.
  - destruct Hwf as [Hp Hpool Hrefs].
    destruct (p_remove_present j b (policy m) Hp Hb) as (p & Hrem & Hp' & Hperm).
    rewrite Hrem, bind_unfold. unfold modify.
    destruct (IH (free_block b (set_policy p m))) as (m' & Hrun & Hw & Hk).
    { split; [done| |].
      - apply (pool_ok_free (block_ids (p_blocks p)) b (set_policy p m)).
        eapply pool_ok_Permutation; [|exact Hpool].
        change (block_id b :: block_ids (p_blocks p)) with (block_ids ((j, b) :: p_blocks p)).
        by apply block_ids_Permutation.
      - unfold resident in *. rewrite Hperm in Hrefs. simpl.
        by apply Forall_cons in Hrefs as [_ ?]. }
    exists m'. split_and!; [done|done|]. intros k. rewrite (Hk k).
    assert (block_of k m = if decide (j = k) then Some b else p_get k p) as ->.
    { rewrite block_of_resident. unfold resident.
      rewrite (od_get_Permutation k _ ((j, b) :: p_blocks p)); [|by apply p_wf_blocks|done].
      simpl. by rewrite p_get_blocks. }
    change (block_of k (free_block b (set_policy p m))) with (p_get k p).
    destruct (decide (j = k)) as [->|Hne].
    + assert (p_get k p = None) as ->.
      { rewrite p_get_blocks. pose proof (p_wf_blocks _ Hp) as Hw0.
        eapply od_wf_Permutation in Hw0; [|exact Hperm]. by apply od_wf_cons in Hw0 as [? _]. }
      rewrite decide_True; [done|]. split; [by left|done].
    + destruct (p_get k p); [|done]. apply decide_ext. set_solver.
  - destruct (IH m Hwf) as (m' & Hrun & Hw & Hk). exists m'. split_and!; [done|done|].
    intros k. rewrite (Hk k). destruct (block_of k m) as [b'|] eqn:Hb'; [|done].
    apply decide_ext. destruct (decide (k = j)) as [->|]; [congruence|set_solver].
Qed.

Lemma complete_store_wf ks ok m : mgr_wf m → mgr_wf (out_state (complete_store ks ok m)).
Proof.
  intros Hwf. unfold complete_store. destruct ok.
  - rewrite get_bind. pose proof (proj1 (complete_ok_spec ks [] m Hwf)) as Hw.
    destruct (complete_ok ks [] m) as [st m']. simpl in *.
    unfold append_event. repeat case_match; simpl; auto using mgr_wf_set_events.
  - by destruct (complete_failed_spec ks m Hwf) as (m' & -> & ? & _).
Qed.

Lemma reset_wf m : mgr_wf m → mgr_wf (reset_cache m).
Proof.
  intros [_ [_ Hb] _]. destruct (p_clear_blocks (policy m)) as [Hp Heq].
  split; [done| |]; unfold resident; simpl; rewrite Heq; [|constructor].
  split; [done|]. simpl. lia.
Qed.

Lemma init_wf n ev th tr : 0 ≤ n → mgr_wf (manager_init n ev th tr : CPUOffloadingManager P).
Proof.
  intros. destruct (p_init_wf (P:=P) n) as [Hp Heq].
  split; [done| |]; unfold resident; simpl; rewrite Heq; [|constructor].
  split; [done|]. simpl. lia.
Qed.

(** The calls a scheduler can make, in any order. *)
Inductive mgr_call :=
  | CLookup (k : OffloadKey)
  | CPrepareLoad (ks : list OffloadKey)
  | CCompleteLoad (ks : list OffloadKey)
  | CTouch (ks : list OffloadKey)
  | CRetain (ks : gset OffloadKey)
  | CRelease (ks : gset OffloadKey)
  | CPrepareStore (ks : list OffloadKey)
  | CCompleteStore (ks : list OffloadKey) (success : bool)
  | CResetCache
  | CTakeEvents.

Definition run_call m (c : mgr_call) : CPUOffloadingManager P :=
  match c with
  | CLookup k => (lookup_key k m).2
  | CPrepareLoad ks => out_state (prepare_load ks m)
  | CCompleteLoad ks => out_state (complete_load ks m)
  | CTouch ks => touch_keys ks m
  | CRetain ks => (retain ks m).2
  | CRelease ks => out_state (release ks m)
  | CPrepareStore ks => out_state (prepare_store ks m)
  | CCompleteStore ks ok => out_state (complete_store ks ok m)
  | CResetCache => reset_cache m
  | CTakeEvents => (take_events m).2
  end.

(** The one precondition: a store does not name a key twice. *)
Definition call_ok (c : mgr_call) : Prop :=
  match c with CPrepareStore ks => NoDup ks | _ => True end.

Lemma run_call_wf m c : mgr_wf m → call_ok c → mgr_wf (run_call m c).
Proof.
  intros Hwf Hc. destruct c; simpl in *.
  - by apply (lookup_wf k m).
  - by apply prepare_load_wf.
  - by apply complete_load_wf.
  - by apply touch_wf.
  - destruct (retain ks m) as [r m'] eqn:Hr. by apply retain_spec in Hr as [? _].
  - by apply release_wf.
  - destruct (prepare_store_spec ks m Hwf Hc) as [(-> & _)|(out & m' & -> & [? _ _ _])]; done.
  - by apply complete_store_wf.
  - by apply reset_wf.
  - unfold take_events. case_match; simpl; [by apply mgr_wf_set_events|done].
Qed.
End Facts.
Arguments mgr_call : clear implicits.

(** ** Properties *)
Section Properties.
Context {P : Type} `{CachePolicyLaws P}.
Implicit Types m : CPUOffloadingManager P.

Lemma stored_block_of keys m out m' k :
  mgr_wf m → NoDup keys → stored keys m out m' →
  block_of k m' =
    match block_of k m with
    | Some b => if decide (k ∈ evicted_keys out) then None else Some b
    | None => new_block <$> od_get k (zip (store_todo keys m) (store_spec out))
    end.
Proof.
  intros Hwf Hnd [Hwf' Hkeys Hspec (evicted & rest & Hres & Hev & Hek & _ & Hres')].
  pose proof (p_wf_blocks _ (wf_policy m Hwf)) as Hw. fold (resident m) in Hw.
  pose proof (p_wf_blocks _ (wf_policy m' Hwf')) as Hw'. fold (resident m') in Hw'.
  assert (od_get k (resident m) = od_get k (evicted ++ rest)) as Hg
    by by apply od_get_Permutation.
  assert (od_get k (resident m') =
    od_get k (zip (store_todo keys m) (map new_block (store_spec out)) ++ rest)) as Hg'
    by by apply od_get_Permutation.
  assert (∀ ks ids, od_get k (zip ks (map new_block ids)) = new_block <$> od_get k (zip ks ids))
    as Hzip.
  { clear. induction ks as [|j ks IH]; intros [|i ids]; simpl; try done. by case_decide. }
  rewrite !block_of_resident, Hg', Hg, !od_get_app, Hzip, Hek.
  destruct (od_get k evicted) as [b|] eqn:Hke.
  - rewrite decide_True by (apply od_get_is_Some; eauto).
    assert (od_get k rest = None) as ->.
    { eapply od_wf_Permutation in Hw; [|exact Hres]. apply od_get_None.
      unfold od_wf, od_keys in Hw. rewrite fmap_app, NoDup_app in Hw.
      destruct Hw as (_ & Hd & _). apply Hd. apply (od_get_is_Some k evicted). eauto. }
    destruct (od_get k (zip _ _)) eqn:Hz; [|done]. exfalso.
    apply od_get_elem, elem_of_zip_l, store_todo_missing in Hz as [_ Hz].
    rewrite block_of_resident, Hg, od_get_app, Hke in Hz. done.
  - destruct (od_get k rest) as [b|] eqn:Hkr.
    + rewrite decide_False by (by apply od_get_None).
      destruct (od_get k (zip _ _)) eqn:Hz; [|done]. exfalso.
      apply od_get_elem, elem_of_zip_l, store_todo_missing in Hz as [_ Hz].
      rewrite block_of_resident, Hg, od_get_app, Hke in Hz. congruence.
    + by destruct (od_get k (zip _ _)).
Qed.

Lemma evicted_evictable keys m out m' k :
  mgr_wf m → stored keys m out m' → k ∈ evicted_keys out →
  k ∉ admitted_keys keys m ∧ ∃ b, block_of k m = Some b ∧ ref_cnt b = 0.
Proof.
  intros Hwf [_ _ _ (evicted & rest & Hres & Hev & -> & _)] Hk.
  apply list_elem_of_fmap in Hk as ([k' b] & -> & Hkb).
  rewrite Forall_forall in Hev. destruct (Hev _ Hkb) as [Hr Hp]. simpl in *.
  split; [set_solver|]. exists b. split; [|done].
  rewrite block_of_resident. apply od_elem_get; [apply p_wf_blocks, Hwf|].
  rewrite Hres. set_solver.
Qed.

Lemma reachable_wf n ev th tr (calls : list mgr_call) :
  0 ≤ n → Forall call_ok calls →
  mgr_wf (foldl run_call (manager_init n ev th tr : CPUOffloadingManager P) calls).
Proof.
  intros Hn Hcalls. pose proof (init_wf (P:=P) n ev th tr Hn) as Hwf. revert Hwf.
  generalize (manager_init n ev th tr : CPUOffloadingManager P).
  induction Hcalls as [|c calls Hc Hcalls IH]; intros m Hwf; simpl; [done|].
  apply IH. by apply run_call_wf.
Qed.

(** C15.  Whatever the scheduler calls, in whatever order, including calls
    that raise, every CPU slot handed out so far belongs to exactly one
    resident block or to the free list, no more than the configured number
    of slots is ever handed out, and no key is resident twice. *)
Theorem manager_pool_invariant n ev th tr (calls : list mgr_call) :
  0 ≤ n → Forall call_ok calls →
  let m := foldl run_call (manager_init n ev th tr) calls in
  block_ids (resident m) ++ free_list m ≡ₚ seqZ 0 (num_allocated_blocks m)
  ∧ 0 ≤ num_allocated_blocks m ≤ num_blocks m
  ∧ od_wf (resident m).
Proof.
  intros Hn Hcalls m.
  destruct (reachable_wf n ev th tr calls Hn Hcalls) as [Hp [Hpool Hb] _].
  fold m in Hp, Hpool, Hb. split_and!; [done|lia..|]. by apply p_wf_blocks.
Qed.

(** C21.  A store never raises from a well-formed manager.  It is refused
    exactly when absent blocks are admitted, the free slots do not suffice and
    the policy finds no eviction of the missing number of slots that spares
    the blocks named by the store; then nothing changes.  Otherwise exactly
    the admitted absent keys are written, each to a slot of the returned spec
    and not ready yet; exactly as many blocks as slots were missing are
    evicted, each of them unreferenced and not named by the store; and every
    other block keeps its status. *)
Theorem prepare_store_correct keys m :
  mgr_wf m → NoDup keys →
  let admitted := admitted_keys keys m in
  let absent := filter (λ k, block_of k m = None) admitted in
  let lacking := zlen absent - get_num_free_blocks m in
  prepare_store keys m = Ret None m ∧ absent ≠ [] ∧ 0 < lacking
    ∧ p_evict (Z.to_nat lacking) (list_to_set admitted) (policy m) = None
  ∨ ∃ out m', prepare_store keys m = Ret (Some out) m' ∧ mgr_wf m'
    ∧ keys_to_store out = absent
    ∧ length (store_spec out) = length absent
    ∧ (∀ i k, absent !! i = Some k →
         ∃ slot, store_spec out !! i = Some slot ∧ block_of k m' = Some (new_block slot))
    ∧ zlen (evicted_keys out) = (if decide (absent = []) then 0 else Z.max 0 lacking)
    ∧ (∀ k, k ∈ evicted_keys out → block_of k m' = None ∧ k ∉ admitted
         ∧ ref_cnt <$> block_of k m = Some 0)
    ∧ (∀ k, k ∉ absent → k ∉ evicted_keys out → block_of k m' = block_of k m).
Proof.
  intros Hwf Hnd admitted absent lacking.
  destruct (prepare_store_spec keys m Hwf Hnd) as [(Hrun & Htodo & Hnone)|(out & m' & Hrun & Hst)].
  { left. unfold store_eviction in Hnone. fold admitted in Hnone.
    change (store_deficit keys m) with lacking in Hnone.
    destruct (Z.ltb_spec 0 lacking); [|done]. done. }
  right. exists out, m'. split; [done|].
  pose proof (λ k, stored_block_of keys m out m' k Hwf Hnd Hst) as Hb.
  pose proof (λ k, evicted_evictable keys m out m' k Hwf Hst) as Hev.
  destruct Hst as [Hwf' Hkeys Hspec (evicted & rest & _ & _ & Hevk & Hevl & _)].
  change (store_todo keys m) with absent in *. change (store_deficit keys m) with lacking in *.
  split_and!; [done|done|done| | | |].
  - intros i k Hi. destruct (lookup_lt_is_Some_2 (store_spec out) i) as [slot Hs].
    { rewrite Hspec. by eapply lookup_lt_Some. }
    exists slot. split; [done|]. rewrite (Hb k).
    assert (block_of k m = None) as ->
      by (by apply list_elem_of_lookup_2, list_elem_of_filter in Hi as [? _]).
    rewrite (od_elem_get k slot); [done| |].
    + unfold od_wf. rewrite od_keys_zip by done. by apply (store_todo_NoDup keys m).
    + apply list_elem_of_lookup. exists i. by rewrite lookup_zip_with, Hi, Hs.
  - rewrite Hevk. unfold zlen, od_keys in *. rewrite length_map, Hevl. case_decide; lia.
  - intros k Hin. rewrite (Hb k). destruct (Hev k Hin) as [Hadm (b & -> & Hr)].
    rewrite decide_True by done. cbn. by rewrite Hr.
  - intros k Hk Hout. rewrite (Hb k). destruct (block_of k m) eqn:Hkm.
    + by rewrite decide_False.
    + rewrite (proj2 (od_get_None k _)); [done|]. by rewrite od_keys_zip.
Qed.

(** C22.  Retaining takes one reference of each distinct ready key and
    nothing else, which keeps it from being evicted; releasing exactly the
    returned set never trips the assertion and restores every status. *)
Theorem retain_release_roundtrip keys m r m1 :
  mgr_wf m → (∀ k b, block_of k m = Some b → ref_cnt b < int32_max) →
  retain keys m = (r, m1) →
  (∀ k, k ∈ r ↔ k ∈ keys ∧ ∃ b, block_of k m = Some b ∧ is_ready b = true)
  ∧ (∀ k protected, k ∈ r → ∀ b, block_of k m1 = Some b → ¬ evictable protected (k, b))
  ∧ ∃ m2, release r m1 = Ret tt m2 ∧ ∀ k, block_of k m2 = block_of k m.
Proof.
  intros Hwf Hmax Hret. destruct (retain_spec _ _ _ _ Hwf Hret) as (Hwf1 & Hr & Hb).
  assert (∀ k, k ∈ r → ∃ b, block_of k m = Some b ∧ 0 ≤ ref_cnt b < int32_max
    ∧ block_of k m1 = Some (incr_ref b) ∧ ref_cnt (incr_ref b) = ref_cnt b + 1) as Hheld.
  { intros k Hk. assert (ready_key m k) as (b & Hkb & Hrd%Z.leb_le)
      by (rewrite Hr in Hk; by apply elem_of_filter in Hk as [? _]).
    exists b. pose proof (Hmax _ _ Hkb). split_and!; [done|lia..| |].
    - rewrite (Hb k), decide_True by done. by rewrite Hkb.
    - simpl. apply wrap32_id. unfold is_int32, int32_max in *. lia. }
  split_and!.
  - intros k. rewrite Hr, elem_of_filter. unfold ready_key. tauto.
  - intros k protected Hk b Hkb [Hz _]. destruct (Hheld k Hk) as (b0 & _ & Hr0 & Hk1 & Hinc).
    simpl in Hz. rewrite Hk1 in Hkb. simplify_eq. lia.
  - destruct (release_spec r m1 Hwf1) as (m2 & Hrun & _ & Hb2).
    { intros k Hk. destruct (Hheld k Hk) as (b0 & _ & Hr0 & Hk1 & Hinc).
      unfold releasable. rewrite Hk1. apply Z.ltb_lt. lia. }
    exists m2. split; [done|]. intros k. rewrite (Hb2 k).
    destruct (decide (k ∈ r)) as [Hk|Hk].
    + destruct (Hheld k Hk) as (b0 & -> & Hr0 & -> & Hinc). simpl. f_equal.
      destruct b0 as [z i]. unfold decr_ref, incr_ref, set_ref_cnt in *. simpl in *. f_equal.
      apply wrap32_inc_dec. unfold is_int32, int32_max in *. lia.
    + rewrite (Hb k). by rewrite decide_False.
Qed.

(** Completing a store: on success every stored key becomes
    ready with no reference and a lookup finds it; on failure the stored
    keys are gone and their slots are free again.  Other keys keep their
    status in both cases, and neither path raises. *)
Theorem complete_store_correct keys m out m1 :
  mgr_wf m → NoDup keys → prepare_store keys m = Ret (Some out) m1 →
  (∃ m2, complete_store (keys_to_store out) true m1 = Ret tt m2
     ∧ (∀ k, k ∈ keys_to_store out →
          (lookup_key k m2).1 = Some true
          ∧ (ref_cnt <$> block_of k m2) = Some 0)
     ∧ ∀ k, k ∉ keys_to_store out → block_of k m2 = block_of k m1)
  ∧ (∃ m2, complete_store (keys_to_store out) false m1 = Ret tt m2
     ∧ (∀ k, k ∈ keys_to_store out → block_of k m2 = None)
     ∧ (∀ k, k ∉ keys_to_store out → block_of k m2 = block_of k m1)
     ∧ mgr_wf m2).
Proof.
  intros Hwf Hnd Hrun.
  destruct (prepare_store_spec keys m Hwf Hnd) as [(Hrun' & _)|(out' & m' & Hrun' & Hst)];
    [congruence|]. rewrite Hrun in Hrun'. simplify_eq.
  pose proof (λ k, stored_block_of keys m out' m' k Hwf Hnd Hst) as Hb.
  destruct Hst as [Hwf' Hkeys Hspec _]. rewrite Hkeys.
  assert (∀ k, k ∈ store_todo keys m → ∃ b, block_of k m' = Some b ∧ is_ready b = false) as Hnew.
  { intros k Hk. pose proof Hk as [_ Hn]%store_todo_missing. rewrite (Hb k), Hn.
    destruct (od_get k (zip (store_todo keys m) (store_spec out'))) as [i|] eqn:Hi; [by eexists|].
    apply od_get_None in Hi. by rewrite od_keys_zip in Hi. }
  split.
  - unfold complete_store. rewrite get_bind.
    destruct (complete_ok_spec (store_todo keys m) [] m' Hwf') as [Hw2 Hb2].
    destruct (complete_ok (store_todo keys m) [] m') as [st m2]. cbn [snd] in *.
    eexists. split; [reflexivity|].
    assert (∀ k, block_of k (match st with [] => m2 | _ => append_event (mkEvent st false) m2 end)
      = block_of k m2) as Heq.
    { intros k. unfold append_event. by repeat case_match. }
    split.
    + intros k Hk. destruct (Hnew k Hk) as (b & Hkb & Hrd).
      assert (block_of k m2 = Some (set_ref_cnt 0 b)) as Hk2.
      { rewrite (Hb2 k), Hkb. by rewrite decide_True. }
      rewrite Heq, Hk2. split; [|done]. unfold lookup_key. cbn [fst].
      assert (∀ m0, block_of k (track k m0) = block_of k m0) as ->.
      { intros m0. unfold track. by destruct (counts m0). }
      rewrite Heq, Hk2. done.
    + intros k Hk. rewrite Heq, (Hb2 k). destruct (block_of k m'); [|done].
      rewrite decide_False; [done|]. by intros [? _].
  - destruct (complete_failed_spec (store_todo keys m) m' Hwf') as (m2 & Hr2 & Hw2 & Hb2).
    exists m2. split_and!; [done| | |done].
    + intros k Hk. destruct (Hnew k Hk) as (b & Hkb & Hrd). rewrite (Hb2 k), Hkb.
      by rewrite decide_True.
    + intros k Hk. rewrite (Hb2 k). destruct (block_of k m'); [|done].
      rewrite decide_False; [done|]. by intros [? _].
Qed.
End Properties.

(** With the LRU policy a store is refused only when it has to
    be: exactly when the slots it lacks outnumber the resident blocks that are
    unreferenced and not named by the store itself. *)
Theorem LRU_store_refused_iff keys (m : CPUOffloadingManager LRU.t) :
  mgr_wf m → NoDup keys →
  let adm := admitted_keys keys m in
  let todo := filter (λ k, block_of k m = None) adm in
  (∃ m', prepare_store keys m = Ret None m') ↔
    todo ≠ [] ∧
    zlen (filter (evictable (list_to_set adm)) (LRU.blocks (policy m)))
      < zlen todo - get_num_free_blocks m.
Proof.
  intros Hwf Hnd adm todo. fold (missing_keys adm m) in todo. subst todo adm.
  fold (store_todo keys m). fold (store_deficit keys m).
  assert (store_eviction keys m = None ↔
    zlen (filter (evictable (list_to_set (admitted_keys keys m))) (LRU.blocks (policy m)))
      < store_deficit keys m) as Hev.
  { unfold store_eviction. destruct (Z.ltb_spec 0 (store_deficit keys m)) as [Hd|Hd].
    - cbn [p_evict LRU_policy]. rewrite LRU_evict_spec. cbn zeta. rewrite length_take.
      unfold zlen. case_decide; split; intros; [lia|done|done|lia].
    - split; [done|]. unfold zlen. lia. }
  destruct (prepare_store_spec keys m Hwf Hnd) as [(Hrun & Hne & Hn)|(out & m' & Hrun & Hst)].
  - split; [|by eauto]. intros _. split; [done|]. by apply Hev.
  - rewrite Hrun. split; [by intros [? ?]|]. intros [Hne Hlt]. exfalso.
    destruct Hst as [_ _ _ (evicted & rest & Hres & Hall & _ & Hlen & _)].
    rewrite decide_False in Hlen by done.
    assert (evicted ⊆+ filter (evictable (list_to_set (admitted_keys keys m)))
      (LRU.blocks (policy m))) as Hsub.
    { assert (filter (evictable (list_to_set (admitted_keys keys m))) evicted = evicted) as <-.
      { clear -Hall. induction Hall as [|kb l Hkb Hl IH]; [done|].
        rewrite filter_cons. rewrite decide_True by done. by rewrite IH. }
      change (LRU.blocks (policy m)) with (resident m). rewrite Hres, filter_app.
      by apply submseteq_inserts_r. }
    apply submseteq_length in Hsub. unfold zlen in *. lia.
Qed.

(** ** Witnesses: a two-slot LRU manager holding one ready block *)
Definition demo_calls : list mgr_call :=
  [CPrepareStore [[1]]; CCompleteStore [[1]] true].
Definition demo_manager : CPUOffloadingManager LRU.t :=
  foldl run_call (manager_init 2 true 1 64000) demo_calls.

Lemma demo_calls_ok : Forall call_ok demo_calls.
Proof. repeat constructor. all: set_solver. Qed.
Lemma demo_wf : mgr_wf demo_manager.
Proof. apply reachable_wf; [lia|apply demo_calls_ok]. Qed.

Lemma manager_pool_invariant_witness :
  block_ids (resident demo_manager) ++ free_list demo_manager ≡ₚ [0].
Proof.
  destruct (manager_pool_invariant (P:=LRU.t) 2 true 1 64000 demo_calls) as [Hp _].
  - lia.
  - apply demo_calls_ok.
  - exact Hp.
Defined.

(** Two new blocks in a pool of two slots evict the one that is there; while
    it is being loaded the store is refused. *)
Lemma prepare_store_correct_witness :
  (∃ out m', prepare_store [[2]; [3]] demo_manager = Ret (Some out) m'
     ∧ keys_to_store out = [[2]; [3]] ∧ evicted_keys out = [[1]]
     ∧ block_of [1] m' = None ∧ ∃ slot, block_of [2] m' = Some (new_block slot))
  ∧ prepare_store [[2]; [3]] (alter_block incr_ref [1] demo_manager)
    = Ret None (alter_block incr_ref [1] demo_manager).
Proof.
  split; [|vm_compute; reflexivity].
  destruct (prepare_store_correct [[2]; [3]] demo_manager) as [(Hn & _)|(out & m' & Hr & _ & Hk & _ & Hs & _ & He & _)].
  - apply demo_wf.
  - apply (bool_decide_unpack _). by vm_compute.
  - vm_compute in Hn. discriminate Hn.
  - exists out, m'. split; [exact Hr|]. split; [rewrite Hk; by vm_compute|].
    assert (evicted_keys out = [[1]]) as Hev by (vm_compute in Hr; injection Hr as <- _; reflexivity).
    split; [exact Hev|]. split.
    + apply (He [1]). rewrite Hev. by left.
    + destruct (Hs 0%nat [2]) as (slot & _ & Hb); [by vm_compute|]. by exists slot.
Defined.

Lemma retain_release_roundtrip_witness :
  ∃ m1 m2, retain {[ [1]; [2] ]} demo_manager = ({[ [1] ]}, m1)
    ∧ release {[ [1] ]} m1 = Ret tt m2 ∧ ∀ k, block_of k m2 = block_of k demo_manager.
Proof.
  assert ((retain {[ [1]; [2] ]} demo_manager).1 = {[ [1] ]}) as Heq
    by (apply (bool_decide_unpack _); by vm_compute).
  destruct (retain {[ [1]; [2] ]} demo_manager) as [r m1] eqn:Hr. simpl in Heq. subst r.
  destruct (retain_release_roundtrip {[ [1]; [2] ]} demo_manager {[ [1] ]} m1)
    as (_ & _ & m2 & Hrel & Hk).
  - apply demo_wf.
  - intros k b Hb. apply od_get_elem in Hb. vm_compute in Hb.
    apply list_elem_of_singleton in Hb. simplify_eq. by vm_compute.
  - exact Hr.
  - exists m1, m2. auto.
Defined.

Lemma complete_store_correct_witness :
  ∃ out m1 m2, prepare_store [[2]] demo_manager = Ret (Some out) m1
    ∧ complete_store (keys_to_store out) false m1 = Ret tt m2 ∧ block_of [2] m2 = None.
Proof.
  destruct (prepare_store [[2]] demo_manager) as [[out|] m1|] eqn:Hr;
    [|by vm_compute in Hr..].
  destruct (complete_store_correct [[2]] demo_manager out m1) as (_ & m2 & Hc & Hk & _).
  - apply demo_wf.
  - apply NoDup_singleton.
  - exact Hr.
  - exists out, m1, m2. split_and!; [done|exact Hc|]. apply Hk.
    assert (keys_to_store out = [[2]]) as -> by (vm_compute in Hr; by simplify_eq).
    set_solver.
Defined.

Lemma LRU_store_refused_iff_witness :
  ∃ m', prepare_store [[1]; [2]; [3]] demo_manager = Ret None m'.
Proof.
  apply (LRU_store_refused_iff [[1]; [2]; [3]] demo_manager).
  - apply demo_wf.
  - apply (bool_decide_unpack _). by vm_compute.
  - split; [by vm_compute|]. by vm_compute.
Defined.
