(* ===== verification/Protocol.v ===== *)
(** * Request metadata ([vllm/tokencake/protocol.py])

    Lifecycle identifiers, the metadata record an application attaches to a
    request, and the request-level validation.  The field-by-field parsing of
    JSON is done by the pydantic library: it is a parameter here. *)
From Stdlib Require Import Ascii.
From S2P Require Import Prelude PyFloat.
Local Open Scope string_scope.
Local Open Scope Z_scope.

(** ** Hexadecimal digits and UUIDs (the part of [uuid.UUID] that is used) *)
Definition hex_digit (c : ascii) : option Z :=
  let n := Z.of_N (N_of_ascii c) in
  if (48 <=? n) && (n <=? 57) then Some (n - 48)
  else if (97 <=? n) && (n <=? 102) then Some (n - 87)
  else if (65 <=? n) && (n <=? 70) then Some (n - 55)
  else None.

Definition hex_char (d : Z) : ascii :=
  ascii_of_N (Z.to_N (if d <? 10 then d + 48 else d + 87)).

(** [int(s, 16)] on digit strings.  The other spellings [int] accepts
    (underscores, signs, blanks, a [0x] prefix) are never canonical, so
    rejecting them here or at the canonical-form test is the same error. *)
Definition hex_parse (l : list ascii) : option Z :=
  foldl (λ acc c, n ← acc; d ← hex_digit c; Some (n * 16 + d)) (Some 0) l.

(** ['%032x' % n] for [0 <= n < 2^128]: 32 digits, the most significant first. *)
Fixpoint hex_print (width : nat) (n : Z) : list ascii :=
  match width with
  | O => []
  | S w => hex_print w (n / 16) ++ [hex_char (n `mod` 16)]
  end.

(** [UUID(hex=h)], for an input of 32 characters. *)
Definition uuid_of_hex (h : list ascii) : option Z :=
  if (length h =? 32)%nat then hex_parse h else None.

(** [UUID.version]: the version nibble, when the variant is RFC 4122. *)
Definition uuid_version (n : Z) : option Z :=
  if Z.testbit n 63 && negb (Z.testbit n 62) then Some (Z.land (Z.shiftr n 76) 15) else None.

Definition starts_with_tc (l : list ascii) : bool :=
  match l with
  | a :: b :: c :: _ => (Ascii.eqb a "t" && Ascii.eqb b "c" && Ascii.eqb c "-")%char
  | _ => false
  end.

(** [validate_lifecycle_id(value)]; [None] is the [ValueError]. *)
Definition validate_lifecycle_id (value : string) : option string :=
  let l := String.list_ascii_of_string value in
  if negb (length l =? 35)%nat || negb (starts_with_tc l) then None
  else
    match uuid_of_hex (drop 3 l) with
    | None => None
    | Some identifier =>
        if negb (bool_decide (uuid_version identifier = Some 4))
           || negb (bool_decide (hex_print 32 identifier = drop 3 l))
        then None
        else Some value
    end.

(** ** [TokenCakeMetadata] *)
Section Metadata.
Context {F : Type} `{FloatOps F}.

Record TokenCakeMetadata := mkMetadata {
  lifecycle_id : string;
  agent_type : string;
  agent_name : string;
  importance : F;
  depth : Z;
  in_degree : Z;
  out_degree : Z;
  similarity : F;
  application_started_at_s : F;
  application_start_offset_s : F;
  application_elapsed_s : F;
  application_max_depth : Z;
  remaining_depth : Z;
  critical_path : bool;
  near_completion : bool;
  join_group : string;
  dependency_depth : Z;
  fanout_width : Z;
  memory_weight : F;
  offload_eligible : bool;
  reusable_prefix : bool
}.

(** The defaults of every optional field. *)
Definition default_metadata (id : string) : TokenCakeMetadata :=
  {| lifecycle_id := id; agent_type := ""; agent_name := ""; importance := f_of_Z 0;
     depth := 0; in_degree := 0; out_degree := 0; similarity := f_of_Z 0;
     application_started_at_s := f_of_Z 0; application_start_offset_s := f_of_Z 0;
     application_elapsed_s := f_of_Z 0; application_max_depth := 0; remaining_depth := 0;
     critical_path := false; near_completion := false; join_group := "";
     dependency_depth := 0; fanout_width := 1; memory_weight := f_of_Z 1;
     offload_eligible := false; reusable_prefix := false |}.

(** The annotated constraints ([ge], [le]) of the fields. *)
Definition fields_ok (d : TokenCakeMetadata) : bool :=
  match validate_lifecycle_id (lifecycle_id d) with Some _ => true | None => false end
  && fleb (f_of_Z 0) (importance d) && (0 <=? depth d) && (0 <=? in_degree d)
  && (0 <=? out_degree d) && fleb (f_of_Z 0) (similarity d) && fleb (similarity d) (f_of_Z 1)
  && fleb (f_of_Z 0) (application_started_at_s d)
  && fleb (f_of_Z 0) (application_start_offset_s d)
  && fleb (f_of_Z 0) (application_elapsed_s d)
  && (0 <=? application_max_depth d) && (0 <=? remaining_depth d)
  && (0 <=? dependency_depth d) && (1 <=? fanout_width d)
  && fleb (f_of_Z 0) (memory_weight d).

(** [validate_depths], given the set of fields the caller supplied. *)
Definition validate_depths (fields_set : gset string) (d : TokenCakeMetadata) :
    option TokenCakeMetadata :=
  if bool_decide ("application_max_depth" ∈ fields_set) then
    if application_max_depth d <? depth d then None
    else if application_max_depth d <? remaining_depth d then None
    else Some d
  else Some d.

(** ** Request-level validation

    A JSON object is a dictionary; [is_object] is [isinstance(value, dict)];
    [parse_fields] is pydantic's strict field parsing (the fields and the set
    of supplied names) and [dump] is [model_dump(exclude_unset=True)]. *)
Section Request.
Context {Json : Type} (is_object : Json → bool)
  (parse_fields : Json → option (TokenCakeMetadata * gset string))
  (dump : TokenCakeMetadata → gset string → Json).

(** [TokenCakeMetadata.model_validate(value)] *)
Definition model_validate (value : Json) : option (TokenCakeMetadata * gset string) :=
  '(d, set) ← parse_fields value;
  if fields_ok d then d' ← validate_depths set d; Some (d', set) else None.

(** [metadata_from_extra_args]: [inl ()] is the [ValueError]. *)
Definition metadata_from_extra_args (extra_args : option (odict string Json)) :
    unit + option (TokenCakeMetadata * gset string) :=
  match extra_args ≫= od_get "tokencake" with
  | None => inr None
  | Some value =>
      if is_object value then
        match model_validate value with
        | Some d => inr (Some d)
        | None => inl ()
        end
      else inl ()
  end.

(** [validate_request_metadata]: the new [extra_args], or the error. *)
Definition validate_request_metadata (extra_args : option (odict string Json))
    (request_id : string) (n : option Z) (use_beam_search : bool) :
    unit + option (odict string Json) :=
  match metadata_from_extra_args extra_args with
  | inl e => inl e
  | inr None => inr extra_args
  | inr (Some (d, set)) =>
      if negb (bool_decide (lifecycle_id d = request_id)) then inl ()
      else if negb (bool_decide (n = None ∨ n = Some 1)) || use_beam_search then inl ()
      else inr (od_set "tokencake" (dump d set) <$> extra_args)
  end.

(** [validate_generation_count]: [true] when it does not raise. *)
Definition validate_generation_count (extra_args : option (odict string Json))
    (count : Z) (builtin_tools : bool) : bool :=
  negb (match extra_args with Some d => od_mem "tokencake" d | None => false end
        && (negb (count =? 1) || builtin_tools)).
End Request.
End Metadata.
Arguments TokenCakeMetadata F : clear implicits.

(** ** Properties *)
Lemma hex_parse_snoc l c :
  hex_parse (l ++ [c]) = n ← hex_parse l; d ← hex_digit c; Some (n * 16 + d).
Proof. unfold hex_parse. by rewrite foldl_app. Qed.

Lemma hex_digit_range c d : hex_digit c = Some d → 0 ≤ d < 16.
Proof.
  unfold hex_digit. intros Hd. repeat case_match; simplify_eq;
    repeat match goal with H : (_ && _)%bool = true |- _ => apply andb_true_iff in H as [?%Z.leb_le ?%Z.leb_le] end; lia.
Qed.

Lemma hex_digit_char d : 0 ≤ d < 16 → hex_digit (hex_char d) = Some d.
Proof.
  intros Hd. assert (d ∈ seqZ 0 16) as Hin by (apply elem_of_seqZ; lia).
  revert Hin. generalize d. apply Forall_forall. repeat constructor.
Qed.

Lemma hex_parse_app l1 l2 n1 :
  hex_parse l1 = Some n1 →
  hex_parse (l1 ++ l2) = (λ n2, n1 * 16 ^ zlen l2 + n2) <$> hex_parse l2.
Proof.
  intros H1. induction l2 as [|c l2 IH] using rev_ind.
  - rewrite app_nil_r, H1. unfold zlen. simpl. f_equal. lia.
  - rewrite app_assoc, !hex_parse_snoc, IH.
    destruct (hex_parse l2) as [n2|]; [|done]. simpl. destruct (hex_digit c); [|done]. simpl.
    f_equal. unfold zlen. rewrite length_app. simpl.
    rewrite Nat.add_1_r, Nat2Z.inj_succ, Z.pow_succ_r by lia. lia.
Qed.

Lemma hex_parse_range l n : hex_parse l = Some n → 0 ≤ n < 16 ^ zlen l.
Proof.
  revert n. induction l as [|c l IH] using rev_ind; intros n.
  - intros [= <-]. unfold zlen. simpl. lia.
  - rewrite hex_parse_snoc. destruct (hex_parse l) as [m|]; [|done]. simpl.
    destruct (hex_digit c) as [d|] eqn:Hd; [|done]. simpl. intros [= <-].
    apply hex_digit_range in Hd. specialize (IH m eq_refl). unfold zlen in *.
    rewrite length_app. simpl. rewrite Nat.add_1_r, Nat2Z.inj_succ, Z.pow_succ_r by lia. lia.
Qed.

Lemma hex_print_parse w n : 0 ≤ n < 16 ^ Z.of_nat w → hex_parse (hex_print w n) = Some n.
Proof.
  revert n. induction w as [|w IH]; intros n Hn.
  - simpl in Hn. cbn. f_equal. lia.
  - rewrite Nat2Z.inj_succ, Z.pow_succ_r in Hn by lia. cbn [hex_print].
    rewrite hex_parse_snoc, IH; [|split; [apply Z.div_pos; lia|apply Z.div_lt_upper_bound; lia]].
    pose proof (Z.mod_pos_bound n 16 ltac:(lia)). cbn [mbind option_bind].
    rewrite hex_digit_char by lia. cbn. f_equal. pose proof (Z.div_mod n 16 ltac:(lia)). lia.
Qed.

(** [c] is one of the sixteen lower-case hexadecimal digits. *)
Definition lower_hex (c : ascii) : Prop := ∃ d, 0 ≤ d < 16 ∧ c = hex_char d.

Lemma hex_print_lower w n : Forall lower_hex (hex_print w n).
Proof.
  revert n. induction w; intros n; cbn; [constructor|].
  apply Forall_app. split; [done|]. repeat constructor.
  exists (n `mod` 16). split; [apply Z.mod_pos_bound; lia|done].
Qed.

Lemma lower_hex_parse l : Forall lower_hex l →
  ∃ n, hex_parse l = Some n ∧ hex_print (length l) n = l.
Proof.
  induction l as [|c l IH] using rev_ind; [by exists 0|].
  intros [Hl (d & Hd & ->)%Forall_singleton]%Forall_app.
  destruct (IH Hl) as (n & Hn & Hp). exists (n * 16 + d).
  rewrite hex_parse_snoc, Hn. cbn [mbind option_bind]. rewrite hex_digit_char by lia.
  split; [done|]. rewrite length_app, Nat.add_1_r. cbn [hex_print].
  assert ((n * 16 + d) / 16 = n) as -> by (rewrite Z.div_add_l, Z.div_small; lia).
  assert ((n * 16 + d) `mod` 16 = d) as ->
    by (rewrite Z.add_comm, Z.mod_add, Z.mod_small; lia).
  by rewrite Hp.
Qed.

(** A digit of the number is a character of its hexadecimal form. *)
Lemma hex_parse_digit l i n c d :
  hex_parse l = Some n → l !! i = Some c → hex_digit c = Some d →
  (n / 16 ^ (zlen l - 1 - Z.of_nat i)) `mod` 16 = d.
Proof.
  intros Hn Hi Hd. rewrite <-(take_drop_middle l i c Hi) in Hn.
  destruct (hex_parse (take i l)) as [a|] eqn:Ha.
  2:{ exfalso. assert (∀ r, hex_parse (take i l ++ c :: r) = None) as Hnone; [|congruence].
      clear -Ha. intros r. induction r as [|x r IH] using rev_ind.
      - by rewrite hex_parse_snoc, Ha.
      - rewrite app_comm_cons, app_assoc, hex_parse_snoc. by rewrite IH. }
  rewrite (cons_middle c (take i l)), app_assoc in Hn.
  erewrite hex_parse_app in Hn by (rewrite hex_parse_snoc, Ha; cbn; rewrite Hd; done).
  destruct (hex_parse (drop (S i) l)) as [r|] eqn:Hr; [|done]. simpl in Hn. simplify_eq.
  apply hex_parse_range in Hr. apply lookup_lt_Some in Hi. unfold zlen in *.
  rewrite length_drop in *. apply hex_digit_range in Hd.
  replace (Z.of_nat (length l - S i)) with (Z.of_nat (length l) - 1 - Z.of_nat i) in * by lia.
  rewrite Z.div_add_l, Z.div_small, Z.add_0_r by lia.
  rewrite Z.add_comm, Z.mod_add, Z.mod_small; lia.
Qed.

Lemma uuid_version_digits n :
  uuid_version n =
    let q := (n / 16 ^ 15) `mod` 16 in
    if Z.testbit q 3 && negb (Z.testbit q 2) then Some ((n / 16 ^ 19) `mod` 16) else None.
Proof.
  unfold uuid_version. cbn zeta.
  assert (∀ k, 0 ≤ k < 4 → Z.testbit ((n / 16 ^ 15) `mod` 16) k = Z.testbit n (60 + k)) as Hbit.
  { intros k Hk. change (16 ^ 15) with (2 ^ 60). change 16 with (2 ^ 4).
    rewrite Z.mod_pow2_bits_low by lia. rewrite <-Z.shiftr_div_pow2 by lia.
    rewrite Z.shiftr_spec by lia. f_equal. lia. }
  rewrite !Hbit by lia. change (60 + 3) with 63. change (60 + 2) with 62.
  case_match; [|done]. f_equal. change 15 with (Z.ones 4). rewrite Z.land_ones by lia.
  rewrite Z.shiftr_div_pow2 by lia. done.
Qed.

Definition variant_chars : list ascii := ["8"; "9"; "a"; "b"]%char.

Lemma variant_digit q : 0 ≤ q < 16 →
  (Z.testbit q 3 && negb (Z.testbit q 2)) = bool_decide (hex_char q ∈ variant_chars).
Proof.
  intros Hd. assert (q ∈ seqZ 0 16) as Hin by (apply elem_of_seqZ; lia).
  revert Hin. generalize q. apply Forall_forall. repeat constructor.
Qed.

Lemma version_digit q : 0 ≤ q < 16 → q = 4 ↔ hex_char q = "4"%char.
Proof.
  intros Hd. assert (q ∈ seqZ 0 16) as Hin by (apply elem_of_seqZ; lia).
  assert (Forall (λ q, bool_decide (q = 4) = bool_decide (hex_char q = "4"%char)) (seqZ 0 16)) as Hall
    by repeat constructor.
  rewrite Forall_forall in Hall. specialize (Hall q Hin).
  by rewrite <-(bool_decide_eq_true (q = 4)), Hall, bool_decide_eq_true.
Qed.

(** The textual shape of a canonical version 4 UUID, hyphens removed. *)
Definition uuid4_hex (h : list ascii) : Prop :=
  length h = 32%nat ∧ Forall lower_hex h ∧ h !! 12%nat = Some "4"%char
  ∧ ∃ c, h !! 16%nat = Some c ∧ c ∈ variant_chars.

Lemma uuid4_hex_iff h n :
  length h = 32%nat → hex_parse h = Some n → Forall lower_hex h →
  uuid_version n = Some 4 ↔ uuid4_hex h.
Proof.
  intros Hlen Hn Hlow.
  destruct (lookup_lt_is_Some_2 h 12) as [c12 H12]; [lia|].
  destruct (lookup_lt_is_Some_2 h 16) as [c16 H16]; [lia|].
  assert (lower_hex c12) as (d12 & Hd12 & ->) by (by eapply Forall_lookup_1).
  assert (lower_hex c16) as (d16 & Hd16 & ->) by (by eapply Forall_lookup_1).
  pose proof (hex_parse_digit h 12 n _ d12 Hn H12 (hex_digit_char _ Hd12)) as E12.
  pose proof (hex_parse_digit h 16 n _ d16 Hn H16 (hex_digit_char _ Hd16)) as E16.
  unfold zlen in *. rewrite Hlen in *.
  change (Z.of_nat 32 - 1 - Z.of_nat 12) with 19 in E12.
  change (Z.of_nat 32 - 1 - Z.of_nat 16) with 15 in E16.
  rewrite uuid_version_digits. cbn zeta. rewrite E12, E16, variant_digit by lia.
  unfold uuid4_hex. rewrite H12, H16.
  pose proof (version_digit d12 Hd12) as Hv. case_bool_decide as Hc.
  - split; [intros [= ->]; split_and!; [done|done|by rewrite (proj1 Hv)|by eauto]|].
    intros (_ & _ & [= Hx] & _). f_equal. by apply Hv.
  - split; [done|]. intros (_ & _ & _ & c & [= <-] & ?). done.
Qed.

(** The accepted identifiers are exactly the strings ["tc-"] followed by
    the 32 lower-case hexadecimal digits of an RFC 4122 version 4 UUID; an
    accepted identifier is returned unchanged. *)
Theorem lifecycle_id_accepted_iff (value : string) :
  (validate_lifecycle_id value = Some value ↔
     ∃ h, String.list_ascii_of_string value = (["t"; "c"; "-"]%char ++ h)%list ∧ uuid4_hex h)
  ∧ (∀ v, validate_lifecycle_id value = Some v → v = value).
Proof.
  unfold validate_lifecycle_id. set (l := String.list_ascii_of_string value).
  split; [split|].
  - destruct (Nat.eqb_spec (length l) 35) as [Hlen|]; [|done].
    destruct (starts_with_tc l) eqn:Htc; [|by intros].
    destruct l as [|a [|b [|c h]]]; [done..|]. cbn in Hlen, Htc.
    cbn [negb orb drop].
    apply andb_true_iff in Htc as [[->%Ascii.eqb_eq ->%Ascii.eqb_eq]%andb_true_iff ->%Ascii.eqb_eq].
    rewrite drop_0. assert (length h = 32%nat) as Hh by lia.
    unfold uuid_of_hex. rewrite Hh, Nat.eqb_refl.
    destruct (hex_parse h) as [n|] eqn:Hn; [|done].
    destruct (bool_decide_reflect (uuid_version n = Some 4)) as [Hv|]; [|done].
    destruct (bool_decide_reflect (hex_print 32 n = h)) as [Hp|]; [|done].
    intros _. exists h. split; [done|]. apply (uuid4_hex_iff h n); [done|done| |done].
    rewrite <-Hp. apply hex_print_lower.
  - intros (h & -> & Hh). pose proof Hh as (Hlen & Hlow & _).
    rewrite length_app, Hlen. cbn [length Nat.add Nat.eqb negb orb app starts_with_tc Ascii.eqb drop].
    cbn. rewrite drop_0. unfold uuid_of_hex. rewrite Hlen, Nat.eqb_refl.
    destruct (lower_hex_parse h Hlow) as (n & Hn & Hp). rewrite Hlen in Hp. rewrite Hn.
    rewrite bool_decide_true by (by apply (uuid4_hex_iff h n)).
    by rewrite bool_decide_true.
  - intros v. repeat case_match; naive_solver.
Qed.

Example lifecycle_id_accepts :
  validate_lifecycle_id "tc-0123456789ab4def8123456789abcdef"
    = Some "tc-0123456789ab4def8123456789abcdef"
  ∧ validate_lifecycle_id "tc-0123456789AB4def8123456789abcdef" = None
  ∧ validate_lifecycle_id "tc-0123456789ab1def8123456789abcdef" = None.
Proof. vm_compute. auto. Qed.
