(* ===== verification/Config.v ===== *)
(** * Settings ([vllm/tokencake/config.py])

    The immutable settings of the [tokencake] namespace, their validators and
    the deployment prerequisites.  The field-by-field reading of a section
    (types and ranges) is pydantic's and is a parameter. *)
From S2P Require Import Prelude PyFloat.
Local Open Scope string_scope.
Local Open Scope Z_scope.

Inductive TemporalSelection := first_fit | best_fit | priority_first.
#[export] Instance TemporalSelection_eq_dec : EqDecision TemporalSelection.
Proof. solve_decision. Defined.

Inductive GenerationReserveMode := mode_all | mode_progress | mode_reclaim.
#[export] Instance GenerationReserveMode_eq_dec : EqDecision GenerationReserveMode.
Proof. solve_decision. Defined.

(** JSON values, as far as the settings code inspects them. *)
Inductive Json :=
  | JNull
  | JBool (b : bool)
  | JNumber (text : string)
  | JString (s : string)
  | JArray (l : list Json)
  | JObject (d : list (string * Json)).

Section Config.
Context {F : Type} `{FloatOps F}.

Record SchedulingConfig := mkSchedulingConfig {
  sc_enabled : bool;
  reserve_generation_tokens : bool;
  generation_reserve_mode : GenerationReserveMode;
  decode_prefill_token_budget : Z;
  cache_affinity_score_band : Z;
  inherit_join_priority : bool;
  priority_borrow_score_margin : Z;
  sc_temporal_selection : TemporalSelection;
  critical_ratio : F;
  reserve_ratio_min : F;
  reserve_ratio_max : F;
  gpu_usage_low : F;
  gpu_usage_high : F;
  reserve_adjustment_step : F
}.

Definition default_scheduling : SchedulingConfig :=
  {| sc_enabled := true; reserve_generation_tokens := true;
     generation_reserve_mode := mode_all; decode_prefill_token_budget := 0;
     cache_affinity_score_band := 500; inherit_join_priority := true;
     priority_borrow_score_margin := 500; sc_temporal_selection := first_fit;
     critical_ratio := f_lit 75 100; reserve_ratio_min := f_lit 5 100;
     reserve_ratio_max := f_lit 30 100; gpu_usage_low := f_lit 40 100;
     gpu_usage_high := f_lit 75 100; reserve_adjustment_step := f_lit 5 100 |}.

(** [SchedulingConfig.validate_bounds]: [true] when it does not raise. *)
Definition scheduling_bounds (s : SchedulingConfig) : bool :=
  negb (fltb (reserve_ratio_max s) (reserve_ratio_min s))
  && negb (fleb (gpu_usage_high s) (gpu_usage_low s)).

Record TransferConfig := mkTransferConfig {
  d2h_bandwidth_gbps : F;
  h2d_bandwidth_gbps : F;
  d2h_base_time_s : F;
  h2d_base_time_s : F;
  submission_time_per_run_s : F
}.

Definition default_transfer : TransferConfig :=
  {| d2h_bandwidth_gbps := f_of_Z 12; h2d_bandwidth_gbps := f_of_Z 12;
     d2h_base_time_s := f_of_Z 0; h2d_base_time_s := f_of_Z 0;
     submission_time_per_run_s := f_lit 3 1000000 |}.

Record OffloadConfig := mkOffloadConfig {
  oc_enabled : bool;
  min_gpu_usage : F;
  high_pressure_gpu_usage : F;
  score_threshold : F;
  backoff_steps : Z;
  eviction_window_blocks : Z;
  max_relief_blocks : Z;
  default_stall_s : F;
  release_lead_s : F;
  ewma_alpha : F;
  transfer : TransferConfig
}.

Definition default_offload : OffloadConfig :=
  {| oc_enabled := true; min_gpu_usage := f_lit 60 100;
     high_pressure_gpu_usage := f_lit 85 100; score_threshold := f_of_Z 1;
     backoff_steps := 8; eviction_window_blocks := 128; max_relief_blocks := 0;
     default_stall_s := f_of_Z 1; release_lead_s := f_lit 10 100;
     ewma_alpha := f_lit 1 2; transfer := default_transfer |}.

(** [OffloadConfig.validate_bounds] *)
Definition offload_bounds (s : OffloadConfig) : bool :=
  negb (fleb (high_pressure_gpu_usage s) (min_gpu_usage s)).

Record TokenCakeConfig := mkTokenCakeConfig {
  scheduling : SchedulingConfig;
  offload : OffloadConfig
}.

Definition temporal_selection (c : TokenCakeConfig) : TemporalSelection :=
  if sc_enabled (scheduling c) then sc_temporal_selection (scheduling c) else first_fit.

(** A section that is switched off and still supplies tuning fields. *)
Definition disabled_with_tuning (section : option Json) : bool :=
  match section with
  | Some (JObject d) =>
      match od_get "enabled" d with
      | Some (JBool false) => negb (bool_decide (Forall (λ k, k = "enabled") (od_keys d)))
      | _ => false
      end
  | _ => false
  end.

Section Parse.
(** pydantic's construction of the fields, before the model validators. *)
Context (parse_sections : odict string Json → option TokenCakeConfig).

(** [parse_tokencake_config]: [inl ()] is an error, [inr None] the absence
    of the namespace. *)
Definition parse_tokencake_config (additional_config : Json) :
    unit + option TokenCakeConfig :=
  match additional_config with
  | JObject top =>
      match od_get "tokencake" top with
      | None => inr None
      | Some (JObject value) =>
          if disabled_with_tuning (od_get "scheduling" value) then inl ()
          else if disabled_with_tuning (od_get "offload" value) then inl ()
          else
            match parse_sections value with
            | None => inl ()
            | Some c =>
                if scheduling_bounds (scheduling c) && offload_bounds (offload c)
                then inr (Some c) else inl ()
            end
      | Some _ => inl ()
      end
  | _ => inr None
  end.
End Parse.

(** ** Deployment prerequisites *)
Record KVTransferConfig := mkKVTransfer {
  kv_connector : option string;
  kv_connector_module_path : option string;
  spec_name : option string
}.

Record VllmConfig := mkVllmConfig {
  data_parallel_size : Z;
  kv_offloading_size : option F;
  kv_offloading_backend : string;
  use_simple_kv_offload : bool;
  kv_transfer_config : option KVTransferConfig
}.

(** [math.isfinite]: [int()] raises exactly on the other values. *)
Definition is_finite (x : F) : bool := bool_decide (is_Some (f_trunc x)).

(** [validate_prerequisites]: [true] when it does not raise. *)
Definition validate_prerequisites (v : VllmConfig) (s : TokenCakeConfig) : bool :=
  if negb (sc_enabled (scheduling s) || oc_enabled (offload s)) then true
  else if 1 <? data_parallel_size v then false
  else if negb (oc_enabled (offload s)) then true
  else if (match kv_offloading_size v with
           | None => true
           | Some c => negb (is_finite c) || fleb c (f_of_Z 0)
           end) then false
  else if negb (bool_decide (kv_offloading_backend v = "native")) then false
  else if use_simple_kv_offload v then false
  else
    match kv_transfer_config v with
    | None => true
    | Some t =>
        if negb (bool_decide (kv_connector t ∈
             [None; Some "OffloadingConnector"; Some "TokenCakeConnector"])) then false
        else if bool_decide (is_Some (kv_connector_module_path t)) then false
        else bool_decide (default "CPUOffloadingSpec" (spec_name t) = "CPUOffloadingSpec")
    end.
End Config.
Arguments SchedulingConfig F : clear implicits.
Arguments TransferConfig F : clear implicits.
Arguments OffloadConfig F : clear implicits.
Arguments TokenCakeConfig F : clear implicits.
Arguments VllmConfig F : clear implicits.

(** The defaults pass their own validators, in binary64. *)
Example default_config_valid :
  scheduling_bounds (F:=b64) default_scheduling && offload_bounds (F:=b64) default_offload = true.
Proof. vm_compute. reflexivity. Qed.

(** ** Properties *)
Section ConfigFacts.
Context {F : Type} `{FloatOps F}.
Context (parse_sections : odict string Json → option (TokenCakeConfig F)).

(** A configuration that is accepted has ordered watermarks and
    reservation bounds, and a section that is switched off brought no tuning
    field with it. *)
Theorem accepted_config_ordered top c :
  parse_tokencake_config parse_sections top = inr (Some c) →
  fltb (reserve_ratio_max (scheduling c)) (reserve_ratio_min (scheduling c)) = false
  ∧ fleb (gpu_usage_high (scheduling c)) (gpu_usage_low (scheduling c)) = false
  ∧ fleb (high_pressure_gpu_usage (offload c)) (min_gpu_usage (offload c)) = false
  ∧ ∃ d value, top = JObject d ∧ od_get "tokencake" d = Some (JObject value)
    ∧ ∀ name sec, name ∈ ["scheduling"; "offload"] →
        od_get name value = Some (JObject sec) →
        od_get "enabled" sec = Some (JBool false) →
        ∀ k, k ∈ od_keys sec → k = "enabled".
Proof.
  unfold parse_tokencake_config. destruct top as [| | | | |d]; try done.
  destruct (od_get "tokencake" d) as [[| | | | |value]|] eqn:Hv; try done.
  destruct (disabled_with_tuning (od_get "scheduling" value)) eqn:Hs; [done|].
  destruct (disabled_with_tuning (od_get "offload" value)) eqn:Ho; [done|].
  destruct (parse_sections value) as [c'|]; [|done].
  unfold scheduling_bounds, offload_bounds.
  destruct (fltb _ _) eqn:E1, (fleb (gpu_usage_high _) _) eqn:E2,
    (fleb (high_pressure_gpu_usage _) _) eqn:E3; try done.
  intros [= <-]. split_and!; [done..|]. exists d, value. split_and!; [done..|].
  intros name sec Hn Hsec Hen. assert (disabled_with_tuning (od_get name value) = false) as Hdis.
  { apply elem_of_cons in Hn as [->|[->|Hn]%elem_of_cons]; [done|done|].
    by apply elem_of_nil in Hn. }
  rewrite Hsec in Hdis. unfold disabled_with_tuning in Hdis. rewrite Hen in Hdis.
  apply negb_false_iff, bool_decide_eq_true in Hdis. by apply Forall_forall.
Qed.
End ConfigFacts.

Lemma accepted_config_ordered_witness :
  ∃ c : TokenCakeConfig b64, fltb (reserve_ratio_max (scheduling c)) (reserve_ratio_min (scheduling c)) = false.
Proof.
  exists (mkTokenCakeConfig default_scheduling default_offload).
  apply (accepted_config_ordered
    (λ _, Some (mkTokenCakeConfig default_scheduling default_offload))
    (JObject [("tokencake", JObject [("offload", JObject [("enabled", JBool false)])])])).
  vm_compute. reflexivity.
Defined.
