(* ===== verification/Lifecycle.v ===== *)
(** * Lifecycle coordination ([vllm/tokencake/lifecycle.py], [events.py])

    A lifecycle is one annotated generation and the stall (a tool call) that
    follows it.  The registry records its phase, predicts the stall from past
    ones, and owns references on the CPU blocks preserved for it; deadlines
    expire it.  [time.monotonic()] is a stream of readings: an operation that
    calls the clock several times consumes several of them. *)
From S2P Require Import Prelude PyFloat Metrics CachePolicy CPUManager Protocol Config.
Local Open Scope string_scope.
Local Open Scope Z_scope.

(** ** Events ([vllm/tokencake/events.py]) *)
Inductive EventName := stall_started | stall_finished.
#[export] Instance EventName_eq_dec : EqDecision EventName.
Proof. solve_decision. Defined.

Inductive Disposition := applied | duplicate | late_finish | unknown | conflict | unavailable.
#[export] Instance Disposition_eq_dec : EqDecision Disposition.
Proof. solve_decision. Defined.

Definition disposition_str (d : Disposition) : string :=
  match d with
  | applied => "applied" | duplicate => "duplicate" | late_finish => "late_finish"
  | unknown => "unknown" | conflict => "conflict" | unavailable => "unavailable"
  end.

Inductive GenerationCause := gen_completed | gen_aborted | gen_error.
#[export] Instance GenerationCause_eq_dec : EqDecision GenerationCause.
Proof. solve_decision. Defined.
Inductive TerminalCause := t_completed | t_finished | t_aborted | t_error | t_expired | t_reset.
#[export] Instance TerminalCause_eq_dec : EqDecision TerminalCause.
Proof. solve_decision. Defined.

Definition cause_str (c : TerminalCause) : string :=
  match c with
  | t_completed => "completed" | t_finished => "finished" | t_aborted => "aborted"
  | t_error => "error" | t_expired => "expired" | t_reset => "reset"
  end.

Definition cause_of_generation (c : GenerationCause) : TerminalCause :=
  match c with gen_completed => t_completed | gen_aborted => t_aborted | gen_error => t_error end.

(** The phases [Lifecycle.state] reports. *)
Inductive LifecycleState :=
  | Generating
  | AwaitingStart
  | Active
  | Released
  | Terminal (c : TerminalCause).
#[export] Instance LifecycleState_eq_dec : EqDecision LifecycleState.
Proof. solve_decision. Defined.

(** ** Snapshots of a completed prefix; hashes are bytes. *)
Record SnapshotGroup := mkSnapshotGroup {
  sg_keys : list OffloadKey;
  sg_block_ids : list (list nat);
  sg_gpu_hashes : list (list (option (list Z)))
}.
Record PrefixSnapshot := mkPrefixSnapshot {
  groups : list SnapshotGroup;
  req_context : string
}.

Module Registry.
Section Registry.
Context {F : Type} `{FloatOps F, FloatInf F}.
Context {P : Type} `{CachePolicy P}.

Record LifecycleEvent := mkLifecycleEvent {
  ev_event : EventName;
  ev_lifecycle_id : string;
  ev_kind : string;
  ev_estimated_duration_s : option F
}.

(** Structural equality of two events, as Python compares the fields. *)
Definition event_eqb (a b : LifecycleEvent) : bool :=
  bool_decide (ev_event a = ev_event b)
  && bool_decide (ev_lifecycle_id a = ev_lifecycle_id b)
  && bool_decide (ev_kind a = ev_kind b)
  && match ev_estimated_duration_s a, ev_estimated_duration_s b with
     | None, None => true
     | Some x, Some y => feqb x y
     | _, _ => false
     end.

(** The reported state: the phase of a record, or ["unknown"]. *)
Record LifecycleEventResult := mkEventResult {
  res_lifecycle_id : string;
  res_event : EventName;
  res_state : option LifecycleState;
  res_disposition : Disposition;
  res_status_code : Z
}.

Record Lifecycle := mkLifecycle {
  metadata : TokenCakeMetadata F;
  completed_at : option F;
  snapshot : option PrefixSnapshot;
  start : option LifecycleEvent;
  started_at : option F;
  predicted_duration : F;
  safety_deadline : F;
  release_deadline : F;
  ownership_released : bool;
  retained : gset OffloadKey;
  pending_retention : gset OffloadKey;
  pending_evaluation : bool;
  next_evaluation_step : Z;
  backoff_signature : option (list Z);
  last_store_step : Z;
  terminal_cause : option TerminalCause;
  terminal_at : option F;
  finish_accepted : bool;
  anonymous_sample : option F
}.

Definition set_completed_at (v : option F) (r : Lifecycle) : Lifecycle :=
  {| metadata := metadata r; completed_at := v; snapshot := snapshot r; start := start r;
     started_at := started_at r; predicted_duration := predicted_duration r;
     safety_deadline := safety_deadline r; release_deadline := release_deadline r;
     ownership_released := ownership_released r; retained := retained r;
     pending_retention := pending_retention r; pending_evaluation := pending_evaluation r;
     next_evaluation_step := next_evaluation_step r;
     backoff_signature := backoff_signature r; last_store_step := last_store_step r;
     terminal_cause := terminal_cause r; terminal_at := terminal_at r;
     finish_accepted := finish_accepted r; anonymous_sample := anonymous_sample r |}.
Definition set_snapshot (v : option PrefixSnapshot) (r : Lifecycle) : Lifecycle :=
  {| metadata := metadata r; completed_at := completed_at r; snapshot := v; start := start r;
     started_at := started_at r; predicted_duration := predicted_duration r;
     safety_deadline := safety_deadline r; release_deadline := release_deadline r;
     ownership_released := ownership_released r; retained := retained r;
     pending_retention := pending_retention r; pending_evaluation := pending_evaluation r;
     next_evaluation_step := next_evaluation_step r;
     backoff_signature := backoff_signature r; last_store_step := last_store_step r;
     terminal_cause := terminal_cause r; terminal_at := terminal_at r;
     finish_accepted := finish_accepted r; anonymous_sample := anonymous_sample r |}.
Definition set_start (v : option LifecycleEvent) (r : Lifecycle) : Lifecycle :=
  {| metadata := metadata r; completed_at := completed_at r; snapshot := snapshot r;
     start := v; started_at := started_at r; predicted_duration := predicted_duration r;
     safety_deadline := safety_deadline r; release_deadline := release_deadline r;
     ownership_released := ownership_released r; retained := retained r;
     pending_retention := pending_retention r; pending_evaluation := pending_evaluation r;
     next_evaluation_step := next_evaluation_step r;
     backoff_signature := backoff_signature r; last_store_step := last_store_step r;
     terminal_cause := terminal_cause r; terminal_at := terminal_at r;
     finish_accepted := finish_accepted r; anonymous_sample := anonymous_sample r |}.
Definition set_started_at (v : option F) (r : Lifecycle) : Lifecycle :=
  {| metadata := metadata r; completed_at := completed_at r; snapshot := snapshot r;
     start := start r; started_at := v; predicted_duration := predicted_duration r;
     safety_deadline := safety_deadline r; release_deadline := release_deadline r;
     ownership_released := ownership_released r; retained := retained r;
     pending_retention := pending_retention r; pending_evaluation := pending_evaluation r;
     next_evaluation_step := next_evaluation_step r;
     backoff_signature := backoff_signature r; last_store_step := last_store_step r;
     terminal_cause := terminal_cause r; terminal_at := terminal_at r;
     finish_accepted := finish_accepted r; anonymous_sample := anonymous_sample r |}.
Definition set_predicted_duration (v : F) (r : Lifecycle) : Lifecycle :=
  {| metadata := metadata r; completed_at := completed_at r; snapshot := snapshot r;
     start := start r; started_at := started_at r; predicted_duration := v;
     safety_deadline := safety_deadline r; release_deadline := release_deadline r;
     ownership_released := ownership_released r; retained := retained r;
     pending_retention := pending_retention r; pending_evaluation := pending_evaluation r;
     next_evaluation_step := next_evaluation_step r;
     backoff_signature := backoff_signature r; last_store_step := last_store_step r;
     terminal_cause := terminal_cause r; terminal_at := terminal_at r;
     finish_accepted := finish_accepted r; anonymous_sample := anonymous_sample r |}.
Definition set_safety_deadline (v : F) (r : Lifecycle) : Lifecycle :=
  {| metadata := metadata r; completed_at := completed_at r; snapshot := snapshot r;
     start := start r; started_at := started_at r;
     predicted_duration := predicted_duration r; safety_deadline := v;
     release_deadline := release_deadline r; ownership_released := ownership_released r;
     retained := retained r; pending_retention := pending_retention r;
     pending_evaluation := pending_evaluation r;
     next_evaluation_step := next_evaluation_step r;
     backoff_signature := backoff_signature r; last_store_step := last_store_step r;
     terminal_cause := terminal_cause r; terminal_at := terminal_at r;
     finish_accepted := finish_accepted r; anonymous_sample := anonymous_sample r |}.
Definition set_release_deadline (v : F) (r : Lifecycle) : Lifecycle :=
  {| metadata := metadata r; completed_at := completed_at r; snapshot := snapshot r;
     start := start r; started_at := started_at r;
     predicted_duration := predicted_duration r; safety_deadline := safety_deadline r;
     release_deadline := v; ownership_released := ownership_released r;
     retained := retained r; pending_retention := pending_retention r;
     pending_evaluation := pending_evaluation r;
     next_evaluation_step := next_evaluation_step r;
     backoff_signature := backoff_signature r; last_store_step := last_store_step r;
     terminal_cause := terminal_cause r; terminal_at := terminal_at r;
     finish_accepted := finish_accepted r; anonymous_sample := anonymous_sample r |}.
Definition set_ownership_released (v : bool) (r : Lifecycle) : Lifecycle :=
  {| metadata := metadata r; completed_at := completed_at r; snapshot := snapshot r;
     start := start r; started_at := started_at r;
     predicted_duration := predicted_duration r; safety_deadline := safety_deadline r;
     release_deadline := release_deadline r; ownership_released := v; retained := retained r;
     pending_retention := pending_retention r; pending_evaluation := pending_evaluation r;
     next_evaluation_step := next_evaluation_step r;
     backoff_signature := backoff_signature r; last_store_step := last_store_step r;
     terminal_cause := terminal_cause r; terminal_at := terminal_at r;
     finish_accepted := finish_accepted r; anonymous_sample := anonymous_sample r |}.
Definition set_retained (v : gset OffloadKey) (r : Lifecycle) : Lifecycle :=
  {| metadata := metadata r; completed_at := completed_at r; snapshot := snapshot r;
     start := start r; started_at := started_at r;
     predicted_duration := predicted_duration r; safety_deadline := safety_deadline r;
     release_deadline := release_deadline r; ownership_released := ownership_released r;
     retained := v; pending_retention := pending_retention r;
     pending_evaluation := pending_evaluation r;
     next_evaluation_step := next_evaluation_step r;
     backoff_signature := backoff_signature r; last_store_step := last_store_step r;
     terminal_cause := terminal_cause r; terminal_at := terminal_at r;
     finish_accepted := finish_accepted r; anonymous_sample := anonymous_sample r |}.
Definition set_pending_retention (v : gset OffloadKey) (r : Lifecycle) : Lifecycle :=
  {| metadata := metadata r; completed_at := completed_at r; snapshot := snapshot r;
     start := start r; started_at := started_at r;
     predicted_duration := predicted_duration r; safety_deadline := safety_deadline r;
     release_deadline := release_deadline r; ownership_released := ownership_released r;
     retained := retained r; pending_retention := v;
     pending_evaluation := pending_evaluation r;
     next_evaluation_step := next_evaluation_step r;
     backoff_signature := backoff_signature r; last_store_step := last_store_step r;
     terminal_cause := terminal_cause r; terminal_at := terminal_at r;
     finish_accepted := finish_accepted r; anonymous_sample := anonymous_sample r |}.
Definition set_pending_evaluation (v : bool) (r : Lifecycle) : Lifecycle :=
  {| metadata := metadata r; completed_at := completed_at r; snapshot := snapshot r;
     start := start r; started_at := started_at r;
     predicted_duration := predicted_duration r; safety_deadline := safety_deadline r;
     release_deadline := release_deadline r; ownership_released := ownership_released r;
     retained := retained r; pending_retention := pending_retention r;
     pending_evaluation := v; next_evaluation_step := next_evaluation_step r;
     backoff_signature := backoff_signature r; last_store_step := last_store_step r;
     terminal_cause := terminal_cause r; terminal_at := terminal_at r;
     finish_accepted := finish_accepted r; anonymous_sample := anonymous_sample r |}.
Definition set_next_evaluation_step (v : Z) (r : Lifecycle) : Lifecycle :=
  {| metadata := metadata r; completed_at := completed_at r; snapshot := snapshot r;
     start := start r; started_at := started_at r;
     predicted_duration := predicted_duration r; safety_deadline := safety_deadline r;
     release_deadline := release_deadline r; ownership_released := ownership_released r;
     retained := retained r; pending_retention := pending_retention r;
     pending_evaluation := pending_evaluation r; next_evaluation_step := v;
     backoff_signature := backoff_signature r; last_store_step := last_store_step r;
     terminal_cause := terminal_cause r; terminal_at := terminal_at r;
     finish_accepted := finish_accepted r; anonymous_sample := anonymous_sample r |}.
Definition set_backoff_signature (v : option (list Z)) (r : Lifecycle) : Lifecycle :=
  {| metadata := metadata r; completed_at := completed_at r; snapshot := snapshot r;
     start := start r; started_at := started_at r;
     predicted_duration := predicted_duration r; safety_deadline := safety_deadline r;
     release_deadline := release_deadline r; ownership_released := ownership_released r;
     retained := retained r; pending_retention := pending_retention r;
     pending_evaluation := pending_evaluation r;
     next_evaluation_step := next_evaluation_step r; backoff_signature := v;
     last_store_step := last_store_step r; terminal_cause := terminal_cause r;
     terminal_at := terminal_at r; finish_accepted := finish_accepted r;
     anonymous_sample := anonymous_sample r |}.
Definition set_last_store_step (v : Z) (r : Lifecycle) : Lifecycle :=
  {| metadata := metadata r; completed_at := completed_at r; snapshot := snapshot r;
     start := start r; started_at := started_at r;
     predicted_duration := predicted_duration r; safety_deadline := safety_deadline r;
     release_deadline := release_deadline r; ownership_released := ownership_released r;
     retained := retained r; pending_retention := pending_retention r;
     pending_evaluation := pending_evaluation r;
     next_evaluation_step := next_evaluation_step r;
     backoff_signature := backoff_signature r; last_store_step := v;
     terminal_cause := terminal_cause r; terminal_at := terminal_at r;
     finish_accepted := finish_accepted r; anonymous_sample := anonymous_sample r |}.
Definition set_terminal_cause (v : option TerminalCause) (r : Lifecycle) : Lifecycle :=
  {| metadata := metadata r; completed_at := completed_at r; snapshot := snapshot r;
     start := start r; started_at := started_at r;
     predicted_duration := predicted_duration r; safety_deadline := safety_deadline r;
     release_deadline := release_deadline r; ownership_released := ownership_released r;
     retained := retained r; pending_retention := pending_retention r;
     pending_evaluation := pending_evaluation r;
     next_evaluation_step := next_evaluation_step r;
     backoff_signature := backoff_signature r; last_store_step := last_store_step r;
     terminal_cause := v; terminal_at := terminal_at r; finish_accepted := finish_accepted r;
     anonymous_sample := anonymous_sample r |}.
Definition set_terminal_at (v : option F) (r : Lifecycle) : Lifecycle :=
  {| metadata := metadata r; completed_at := completed_at r; snapshot := snapshot r;
     start := start r; started_at := started_at r;
     predicted_duration := predicted_duration r; safety_deadline := safety_deadline r;
     release_deadline := release_deadline r; ownership_released := ownership_released r;
     retained := retained r; pending_retention := pending_retention r;
     pending_evaluation := pending_evaluation r;
     next_evaluation_step := next_evaluation_step r;
     backoff_signature := backoff_signature r; last_store_step := last_store_step r;
     terminal_cause := terminal_cause r; terminal_at := v;
     finish_accepted := finish_accepted r; anonymous_sample := anonymous_sample r |}.
Definition set_finish_accepted (v : bool) (r : Lifecycle) : Lifecycle :=
  {| metadata := metadata r; completed_at := completed_at r; snapshot := snapshot r;
     start := start r; started_at := started_at r;
     predicted_duration := predicted_duration r; safety_deadline := safety_deadline r;
     release_deadline := release_deadline r; ownership_released := ownership_released r;
     retained := retained r; pending_retention := pending_retention r;
     pending_evaluation := pending_evaluation r;
     next_evaluation_step := next_evaluation_step r;
     backoff_signature := backoff_signature r; last_store_step := last_store_step r;
     terminal_cause := terminal_cause r; terminal_at := terminal_at r; finish_accepted := v;
     anonymous_sample := anonymous_sample r |}.
Definition set_anonymous_sample (v : option F) (r : Lifecycle) : Lifecycle :=
  {| metadata := metadata r; completed_at := completed_at r; snapshot := snapshot r;
     start := start r; started_at := started_at r;
     predicted_duration := predicted_duration r; safety_deadline := safety_deadline r;
     release_deadline := release_deadline r; ownership_released := ownership_released r;
     retained := retained r; pending_retention := pending_retention r;
     pending_evaluation := pending_evaluation r;
     next_evaluation_step := next_evaluation_step r;
     backoff_signature := backoff_signature r; last_store_step := last_store_step r;
     terminal_cause := terminal_cause r; terminal_at := terminal_at r;
     finish_accepted := finish_accepted r; anonymous_sample := v |}.

(** [Lifecycle(metadata)] with the defaults of the dataclass. *)
Definition new_lifecycle (d : TokenCakeMetadata F) : Lifecycle :=
  {| metadata := d; completed_at := None; snapshot := None; start := None;
     started_at := None; predicted_duration := f_of_Z 0; safety_deadline := finf;
     release_deadline := finf; ownership_released := false; retained := ∅;
     pending_retention := ∅; pending_evaluation := false; next_evaluation_step := 0;
     backoff_signature := None; last_store_step := -5; terminal_cause := None;
     terminal_at := None; finish_accepted := false; anonymous_sample := None |}.

Definition state (r : Lifecycle) : LifecycleState :=
  match terminal_cause r with
  | Some c => Terminal c
  | None =>
      match start r with
      | Some _ => if ownership_released r then Released else Active
      | None => match completed_at r with None => Generating | Some _ => AwaitingStart end
      end
  end.

Definition is_none {A} (o : option A) : bool := match o with None => true | Some _ => false end.

Definition owns_preservation (r : Lifecycle) : bool :=
  negb (is_none (start r)) && is_none (terminal_at r) && negb (ownership_released r).

(** ** [LifecycleRegistry] *)
Record LifecycleRegistry := mkRegistry {
  settings : OffloadConfig F;
  manager : option (CPUOffloadingManager P);
  records : odict string Lifecycle;
  generations : odict string string;
  history : odict (string * string * string) F;
  metrics : TokenCakeMetrics;
  tick : nat
}.

Definition put_manager (v : option (CPUOffloadingManager P)) (r : LifecycleRegistry) : LifecycleRegistry :=
  {| settings := settings r; manager := v; records := records r;
     generations := generations r; history := history r; metrics := metrics r;
     tick := tick r |}.
Definition put_records (v : odict string Lifecycle) (r : LifecycleRegistry) : LifecycleRegistry :=
  {| settings := settings r; manager := manager r; records := v;
     generations := generations r; history := history r; metrics := metrics r;
     tick := tick r |}.
Definition put_generations (v : odict string string) (r : LifecycleRegistry) : LifecycleRegistry :=
  {| settings := settings r; manager := manager r; records := records r; generations := v;
     history := history r; metrics := metrics r; tick := tick r |}.
Definition put_history (v : odict (string * string * string) F) (r : LifecycleRegistry) : LifecycleRegistry :=
  {| settings := settings r; manager := manager r; records := records r;
     generations := generations r; history := v; metrics := metrics r; tick := tick r |}.
Definition put_metrics (v : TokenCakeMetrics) (r : LifecycleRegistry) : LifecycleRegistry :=
  {| settings := settings r; manager := manager r; records := records r;
     generations := generations r; history := history r; metrics := v; tick := tick r |}.
Definition put_tick (v : nat) (r : LifecycleRegistry) : LifecycleRegistry :=
  {| settings := settings r; manager := manager r; records := records r;
     generations := generations r; history := history r; metrics := metrics r; tick := v |}.

Definition ATTACH_SECONDS : F := f_of_Z 60.
Definition TOMBSTONE_SECONDS : F := f_of_Z 60.
Definition HISTORY_LIMIT : Z := 4096.

(** [__init__] *)
Definition registry_init (s : OffloadConfig F) (m : option (CPUOffloadingManager P)) :
    LifecycleRegistry :=
  {| settings := s; manager := m; records := []; generations := []; history := [];
     metrics := metrics_init; tick := 0%nat |}.

(** The clock: the [n]-th reading of [time.monotonic()]. *)
Context (clock : nat → F).

Notation RM := (M LifecycleRegistry).

Definition read_clock : RM F := λ s, Ret (clock (tick s)) (put_tick (S (tick s)) s).
Definition countM (m : Metric) : RM unit :=
  modify (λ s, put_metrics (count1 m (metrics s)) s).

(** [self.metrics.count(Metric(name))] *)
Definition count_named (name : string) : RM unit :=
  match metric_of_value name with
  | None => raise ValueError
  | Some m => countM m
  end.

(** Mutation of the record object stored under an identifier. *)
Definition update (id : string) (f : Lifecycle → Lifecycle) : RM unit :=
  modify (λ s, put_records (od_alter f id (records s)) s).
Definition get_record (id : string) : RM (option Lifecycle) :=
  gets (λ s, od_get id (records s)).

(** [self.manager.release(keys)] *)
Definition manager_release (keys : gset OffloadKey) : RM unit :=
  s ← get_state;
  match manager s with
  | None => raise AssertionError
  | Some m =>
      match CPUManager.release keys m with
      | Ret u m' => put_state (put_manager (Some m') s)
      | Exc e m' => λ s0, Exc e (put_manager (Some m') s)
      end
  end.

Definition drop_ownership (r : Lifecycle) : Lifecycle :=
  set_ownership_released true (set_pending_retention ∅ (set_retained ∅ r)).

(** [release(record)] *)
Definition release (id : string) : RM unit :=
  o ← get_record id;
  match o with
  | None => mret tt
  | Some r =>
      update id drop_ownership ;;
      if decide (retained r = ∅) then mret tt else manager_release (retained r)
  end.

Definition close (cause : TerminalCause) (now : F) (r : Lifecycle) : Lifecycle :=
  set_terminal_at (Some now) (set_terminal_cause (Some cause)
    (set_backoff_signature None (set_next_evaluation_step 0
      (set_pending_evaluation false (set_snapshot None r))))).

(** [_terminalize(record, cause, now)] *)
Definition terminalize (id : string) (cause : TerminalCause) (now : F) : RM unit :=
  o ← get_record id;
  match o with
  | None => mret tt
  | Some r =>
      if negb (is_none (terminal_at r)) then mret tt
      else
        release id ;;
        update id (close cause now) ;;
        count_named ("lifecycle." ++ cause_str cause)
  end.

(** One round of the loop of [expire]. *)
Definition expire1 (now : F) (id : string) : RM unit :=
  o ← get_record id;
  match o with
  | None => mret tt
  | Some r =>
      match terminal_at r with
      | Some at_ =>
          if fleb (fadd at_ TOMBSTONE_SECONDS) now
          then modify (λ s, put_records (od_del id (records s)) s)
          else mret tt
      | None =>
          match started_at r with
          | Some _ =>
              if fleb (safety_deadline r) now then terminalize id t_expired now
              else if fleb (release_deadline r) now then release id
              else mret tt
          | None =>
              match completed_at r with
              | Some done_at =>
                  if fleb (fadd done_at ATTACH_SECONDS) now
                  then terminalize id t_expired now else mret tt
              | None => mret tt
              end
          end
      end
  end.

(** [expire()]: the keys are listed before the loop starts. *)
Definition expire : RM unit :=
  now ← read_clock;
  ids ← gets (λ s, od_keys (records s));
  forM ids (expire1 now).

(** [associate(request_id, metadata)] *)
Definition associate (request_id : string) (d : TokenCakeMetadata F) : RM unit :=
  expire ;;
  s ← get_state;
  let identifier := lifecycle_id d in
  if od_mem identifier (records s) || od_mem identifier (generations s) then
    countM CONFLICT ;; raise DuplicateLifecycleError
  else
    modify (λ s, put_generations (od_set identifier request_id (generations s)) s) ;;
    modify (λ s, put_records (od_set identifier (new_lifecycle d) (records s)) s) ;;
    countM ASSOCIATED.

Definition finish_generation (now : F) (snap : option PrefixSnapshot) (r : Lifecycle) :
    Lifecycle :=
  set_pending_evaluation (negb (is_none (start r)))
    (set_snapshot snap (set_completed_at (Some now) r)).

(** [generation_finished(identifier, cause, snapshot)] *)
Definition generation_finished (identifier : string) (cause : GenerationCause)
    (snap : option PrefixSnapshot) : RM unit :=
  expire ;;
  modify (λ s, put_generations (od_del identifier (generations s)) s) ;;
  o ← get_record identifier;
  match o with
  | None => mret tt
  | Some r =>
      if negb (is_none (terminal_at r)) then mret tt
      else
        now ← read_clock;
        s ← get_state;
        if negb (bool_decide (cause = gen_completed)) || negb (oc_enabled (settings s))
        then terminalize identifier (cause_of_generation cause) now
        else
          update identifier (finish_generation now snap) ;;
          countM COMPLETED
  end.

(** [_history_key(record, kind)] *)
Definition history_key (r : Lifecycle) (kind : string) : option (string * string * string) :=
  if bool_decide (agent_type (metadata r) ≠ "") then Some ("type", agent_type (metadata r), kind)
  else if bool_decide (agent_name (metadata r) ≠ "")
  then Some ("name", agent_name (metadata r), kind)
  else None.

(** [_predict(record, event)] *)
Definition predict (r : Lifecycle) (event : LifecycleEvent) : RM F :=
  s ← get_state;
  let key := history_key r (ev_kind event) in
  let hist := k ← key; od_get k (history s) in
  (match key, hist with
   | Some k, Some _ => put_state (put_history (od_move_to_end k (history s)) s)
   | _, _ => mret tt
   end) ;;
  mret (match ev_estimated_duration_s event, hist with
        | None, None => default_stall_s (settings s)
        | None, Some h => h
        | Some estimate, None => estimate
        | Some estimate, Some h => fmul (f_lit 1 2) (fadd estimate h)
        end).

(** The new sample of [_learn] and the history it goes to. *)
Definition learn_history (alpha : F) (key : string * string * string) (sample : F)
    (h : odict (string * string * string) F) : odict (string * string * string) F :=
  let rest := od_del key h in
  match od_get key h with
  | Some previous =>
      od_set key (fadd (fmul alpha sample) (fmul (fsub (f_of_Z 1) alpha) previous)) rest
  | None => od_set key sample (if HISTORY_LIMIT <=? zlen rest then tail rest else rest)
  end.

(** [_learn(record, now)] *)
Definition learn (id : string) (now : F) : RM unit :=
  o ← get_record id;
  match o with
  | None => mret tt
  | Some r =>
      match start r, started_at r with
      | Some ev, Some at_ =>
          let sample := py_max (f_of_Z 0) (fsub now at_) in
          match history_key r (ev_kind ev) with
          | None => update id (set_anonymous_sample (Some sample))
          | Some key =>
              modify (λ s,
                put_history (learn_history (ewma_alpha (settings s)) key sample (history s)) s)
          end
      | _, _ => raise AssertionError
      end
  end.

(** [set_h2d_estimate(record, seconds)] *)
Definition set_h2d_estimate (id : string) (seconds : F) : RM unit :=
  o ← get_record id;
  match o with
  | None => mret tt
  | Some r =>
      match started_at r with
      | None => raise AssertionError
      | Some at_ =>
          s ← get_state;
          let deadline :=
            fsub (fadd at_ (predicted_duration r))
              (py_max (release_lead_s (settings s)) (fmul (f_lit 125 100) seconds)) in
          update id (set_release_deadline deadline) ;;
          now ← read_clock;
          if fleb deadline now then release id else mret tt
      end
  end.

(** [now + min(3600.0, max(60.0, 4 * predicted))] *)
Definition safety_horizon (predicted : F) : F :=
  py_min (f_of_Z 3600) (py_max (f_of_Z 60) (fmul (f_of_Z 4) predicted)).

(** The accepted branch of a [stall_started]. *)
Definition begin_stall (id : string) (r : Lifecycle) (event : LifecycleEvent) (now : F) :
    RM unit :=
  update id (λ r, set_started_at (Some now) (set_start (Some event) r)) ;;
  predicted ← predict r event;
  update id (set_predicted_duration predicted) ;;
  update id (set_safety_deadline (fadd now (safety_horizon predicted))) ;;
  set_h2d_estimate id (f_of_Z 0) ;;
  update id (λ r, set_pending_evaluation (negb (is_none (completed_at r))) r) ;;
  countM STARTED.

(** The accepted branch of a [stall_finished]. *)
Definition end_stall (id : string) (now : F) : RM unit :=
  learn id now ;;
  update id (set_finish_accepted true) ;;
  terminalize id t_finished now.

Definition same_start (r : Lifecycle) (event : LifecycleEvent) : bool :=
  match start r with Some ev => event_eqb ev event | None => false end.

(** The decision of [apply] and its effect, on a present record. *)
Definition dispatch (id : string) (r : Lifecycle) (event : LifecycleEvent) (now : F) :
    RM (Disposition * Z) :=
  match ev_event event with
  | stall_started =>
      if same_start r event then mret (duplicate, 200)
      else if negb (is_none (start r)) || negb (is_none (terminal_at r))
      then mret (conflict, 409)
      else begin_stall id r event now ;; mret (applied, 200)
  | stall_finished =>
      if negb (is_none (terminal_at r))
      then mret (if finish_accepted r then duplicate else late_finish, 200)
      else if is_none (start r) then mret (conflict, 409)
      else end_stall id now ;; mret (applied, 200)
  end.

(** [apply(event)] *)
Definition apply (event : LifecycleEvent) : RM LifecycleEventResult :=
  expire ;;
  let id := ev_lifecycle_id event in
  o ← get_record id;
  match o with
  | None =>
      countM UNKNOWN ;;
      mret (mkEventResult id (ev_event event) None unknown 404)
  | Some r =>
      now ← read_clock;
      '(disposition, status) ← dispatch id r event now;
      (if decide (disposition = applied) then mret tt
       else count_named ("lifecycle." ++ disposition_str disposition)) ;;
      o' ← get_record id;
      mret (mkEventResult id (ev_event event) (state <$> o') disposition status)
  end.

(** [retain_ready(record, keys)] *)
Definition retain_ready (id : string) (keys : gset OffloadKey) : RM (gset OffloadKey) :=
  expire ;;
  o ← get_record id;
  match o with
  | None => mret ∅
  | Some r =>
      if negb (owns_preservation r) then mret ∅
      else
        s ← get_state;
        match manager s with
        | None => raise AssertionError
        | Some m =>
            let '(got, m') := CPUManager.retain (keys ∖ retained r) m in
            put_state (put_manager (Some m') s) ;;
            update id (λ r, set_retained (retained r ∪ got) r) ;;
            mret got
        end
  end.

(** [invalidate_snapshots()] *)
Definition invalidate_snapshots (s : LifecycleRegistry) : LifecycleRegistry :=
  put_records (map (λ p : string * Lifecycle,
    (p.1, set_pending_evaluation false (set_snapshot None p.2))) (records s)) s.

(** [external_reset_succeeded()] *)
Definition external_reset_succeeded : RM unit :=
  now ← read_clock;
  ids ← gets (λ s, od_keys (records s));
  forM ids (λ id,
    update id (set_retained ∅) ;;
    terminalize id t_reset now).

Definition has_pending_evaluation (s : LifecycleRegistry) : bool :=
  existsb (λ p : string * Lifecycle, pending_evaluation p.2) (records s).

(** [stats()] *)
Definition stats (s : LifecycleRegistry) : odict string Z :=
  Metrics.snapshot
    (sumZ (map (λ p : string * Lifecycle, if is_none (terminal_at p.2) then 1 else 0) (records s)))
    (metrics s).
End Registry.
Arguments LifecycleRegistry F P : clear implicits.
Arguments Lifecycle F : clear implicits.
Arguments LifecycleEvent F : clear implicits.
End Registry.
