(* ===== verification/LifecycleFacts.v ===== *)
(** * Correctness of the lifecycle registry

    The ownership invariant (every reference a record holds is backed by the
    CPU manager's reference count), what [expire] does to each record, and the
    phase diagram of a lifecycle. *)
From Stdlib Require Import QArith Lqa.
From S2P Require Import Prelude PyFloat Metrics CachePolicy CPUManager Protocol Config Lifecycle.
Local Open Scope string_scope.
Local Open Scope Z_scope.
Import Registry.

(** What holds of every snapshot that is handed to the registry. *)
Class SnapshotLaw := snap_ok : PrefixSnapshot → Prop.

Section Facts.
Context {F : Type} `{FloatOps F, FloatInf F}.
Context {P : Type} `{CachePolicyLaws P} `{SnapshotLaw}.
Context (clock : nat → F).
Implicit Types (r : Lifecycle F) (s : LifecycleRegistry F P) (recs : odict string (Lifecycle F)).

(** ** Ownership accounting *)
Definition held1 (k : OffloadKey) r : Z := if decide (k ∈ retained r) then 1 else 0.
Definition held recs (k : OffloadKey) : Z := sumZ (map (λ p, held1 k p.2) recs).

(** Each reference held by a record is counted on a resident block. *)
Definition cover s : Prop :=
  match manager s with
  | None => ∀ k, held (records s) k = 0
  | Some m =>
      mgr_wf m ∧
      ∀ k, 0 < held (records s) k →
        ∃ b, block_of k m = Some b ∧ held (records s) k ≤ ref_cnt b
  end.

(** The local invariant of a record. *)
Record rec_ok (id : string) r : Prop := {
  ro_id : lifecycle_id (metadata r) = id;
  ro_cause : terminal_cause r = None ↔ terminal_at r = None;
  ro_terminal : terminal_at r ≠ None →
    ownership_released r = true ∧ snapshot r = None ∧ pending_evaluation r = false;
  ro_released : ownership_released r = true → retained r = ∅ ∧ pending_retention r = ∅;
  ro_start : start r = None ↔ started_at r = None;
  ro_unstarted : start r = None → retained r = ∅ ∧ pending_retention r = ∅;
  ro_snapshot : ∀ p, snapshot r = Some p → snap_ok p
}.

Record reg_base s : Prop := {
  rb_wf : od_wf (records s);
  rb_recs : ∀ id r, od_get id (records s) = Some r → rec_ok id r;
  rb_history : od_wf (history s) ∧ zlen (history s) ≤ HISTORY_LIMIT
}.

Definition reg_ok s : Prop := reg_base s ∧ cover s.

Lemma held1_nonneg k r : 0 ≤ held1 k r ≤ 1.
Proof. unfold held1. case_decide; lia. Qed.

Lemma held_nonneg recs k : 0 ≤ held recs k.
Proof.
  apply sumZ_nonneg, Forall_map, Forall_forall. intros p _. apply held1_nonneg.
Qed.

Lemma held_alter f id recs k :
  held (od_alter f id recs) k =
    held recs k + match od_get id recs with
                  | Some r => held1 k (f r) - held1 k r
                  | None => 0
                  end.
Proof.
  unfold held. induction recs as [|[j r] recs IH]; simpl; [done|].
  case_decide; simpl; [lia|]. rewrite IH. lia.
Qed.

Lemma held_del id recs k :
  od_wf recs → held (od_del id recs) k =
    held recs k - match od_get id recs with Some r => held1 k r | None => 0 end.
Proof.
  unfold held. induction recs as [|[j r] recs IH]; simpl; [done|].
  intros [Hj Hw]%od_wf_cons. case_decide; simpl.
  - subst. rewrite od_del_notin by done. lia.
  - rewrite IH by done. lia.
Qed.

Lemma held_set_new id r recs k :
  od_get id recs = None → held (od_set id r recs) k = held recs k + held1 k r.
Proof.
  intros Hn. rewrite od_set_new by done. unfold held. rewrite map_app, sumZ_app. simpl. lia.
Qed.

Lemma held_ge id recs r k :
  od_get id recs = Some r → k ∈ retained r → 1 ≤ held recs k.
Proof.
  intros Hg Hk. unfold held. induction recs as [|[j r'] recs IH]; simpl in *; [done|].
  assert (0 ≤ sumZ (map (λ p : string * Lifecycle F, held1 k p.2) recs)) by apply held_nonneg.
  case_decide; simplify_eq.
  - unfold held1 at 1. rewrite decide_True by done. lia.
  - pose proof (held1_nonneg k r'). specialize (IH Hg). lia.
Qed.

(** Accounting only depends on the records' retained sets. *)
Lemma cover_ext s s' :
  manager s' = manager s → (∀ k, held (records s') k = held (records s) k) →
  cover s → cover s'.
Proof.
  unfold cover. intros -> Hh. destruct (manager s) as [m|].
  - intros [Hm Hc]. split; [done|]. intros k. rewrite Hh. apply Hc.
  - intros Hc k. rewrite Hh. apply Hc.
Qed.

Lemma held_alter_same f id recs k :
  (∀ r, retained (f r) = retained r) → held (od_alter f id recs) k = held recs k.
Proof.
  intros Hf. rewrite held_alter. case_match; [|lia]. unfold held1. rewrite Hf. lia.
Qed.

Lemma rec_ok_alter f id recs :
  (∀ r, od_get id recs = Some r → rec_ok id r → rec_ok id (f r)) →
  (∀ j r, od_get j recs = Some r → rec_ok j r) →
  ∀ j r, od_get j (od_alter f id recs) = Some r → rec_ok j r.
Proof.
  intros Hf Hall j r. rewrite od_get_alter. case_decide as Hj; [|apply Hall].
  subst. destruct (od_get j recs) as [r0|] eqn:E; [|done]. simpl. intros [= <-]. auto.
Qed.

Lemma od_alter_ext (f g : Lifecycle F → Lifecycle F) id recs :
  (∀ r, od_get id recs = Some r → f r = g r) → od_alter f id recs = od_alter g id recs.
Proof.
  induction recs as [|[j r] recs IH]; simpl; [done|]. intros Hfg.
  case_decide; f_equal; [|by apply IH]. by rewrite Hfg.
Qed.

Lemma od_alter_alter (f g : Lifecycle F → Lifecycle F) id recs :
  od_alter g id (od_alter f id recs) = od_alter (λ r, g (f r)) id recs.
Proof.
  induction recs as [|[j r] recs IH]; simpl; [done|].
  destruct (decide (j = id)) as [->|]; simpl; [by rewrite decide_True|].
  rewrite decide_False by done. by rewrite IH.
Qed.

Lemma od_alter_id id recs : od_alter (λ r, r) id recs = recs.
Proof. induction recs as [|[j r] recs IH]; simpl; [done|]. case_decide; congruence. Qed.

Lemma od_alter_absent (f : Lifecycle F → Lifecycle F) id recs :
  od_get id recs = None → od_alter f id recs = recs.
Proof.
  intros Hn. rewrite (od_alter_ext f (λ r, r)) by congruence. apply od_alter_id.
Qed.

(** No reference count is about to leave the 32-bit range. *)
Definition room s : Prop :=
  ∀ m k b, manager s = Some m → block_of k m = Some b → ref_cnt b < int32_max.

(** The counts of the manager's blocks change exactly as the references the
    records hold. *)
Definition balanced s s' : Prop :=
  match manager s, manager s' with
  | Some m, Some m' =>
      ∀ k, ref_of k m' = (λ z, z + (held (records s') k - held (records s) k)) <$> ref_of k m
  | None, None => True
  | _, _ => False
  end.

Lemma balanced_same s s' :
  manager s' = manager s → (∀ k, held (records s') k = held (records s) k) → balanced s s'.
Proof.
  intros Hm Hh. unfold balanced. rewrite Hm. destruct (manager s); [|done]. intros k. rewrite Hh.
  destruct (ref_of k _); cbn; [f_equal; lia|done].
Qed.

Lemma balanced_refl s : balanced s s.
Proof. by apply balanced_same. Qed.

Lemma balanced_trans s1 s2 s3 : balanced s1 s2 → balanced s2 s3 → balanced s1 s3.
Proof.
  unfold balanced. destruct (manager s1), (manager s2), (manager s3); try done. intros H12 H23 k.
  rewrite H23, H12. destruct (ref_of k _); cbn; [f_equal; lia|done].
Qed.

Lemma balanced_alter f id s s' :
  manager s' = manager s → records s' = od_alter f id (records s) → (∀ r, retained (f r) = retained r) → balanced s s'.
Proof. intros Hm Hr Hf. apply balanced_same; [done|]. intros k. rewrite Hr. by apply held_alter_same. Qed.

(** What the ownership operations leave alone. *)
Definition frame s s' : Prop :=
  settings s' = settings s ∧ generations s' = generations s ∧ history s' = history s
  ∧ (room s → room s') ∧ (is_Some (manager s) → is_Some (manager s')) ∧ balanced s s'.

Lemma frame_intro s s' :
  settings s' = settings s → generations s' = generations s → history s' = history s →
  manager s' = manager s → (∀ k, held (records s') k = held (records s) k) → frame s s'.
Proof.
  intros ? ? ? Hm Hh. pose proof (balanced_same _ _ Hm Hh). unfold frame, room. by rewrite Hm.
Qed.

Lemma frame_refl s : frame s s.
Proof. by apply frame_intro. Qed.

Lemma frame_trans s1 s2 s3 : frame s1 s2 → frame s2 s3 → frame s1 s3.
Proof.
  intros (? & ? & ? & ? & ? & H12) (? & ? & ? & ? & ? & H23). pose proof (balanced_trans _ _ _ H12 H23).
  unfold frame. intuition congruence.
Qed.

Lemma frame_balanced s s' : frame s s' → balanced s s'.
Proof. by intros (_ & _ & _ & _ & _ & ?). Qed.

(** ** [release] *)
Lemma drop_ownership_ok id r : rec_ok id r → rec_ok id (drop_ownership r).
Proof. intros [? ? Ht ? ? ?]. split; simpl; try done. intros Hn. by destruct (Ht Hn). Qed.

Lemma release_ok s id :
  reg_ok s →
  ∃ s', release id s = Ret tt s' ∧ reg_ok s'
    ∧ records s' = od_alter drop_ownership id (records s)
    ∧ frame s s' ∧ tick s' = tick s.
Proof.
  intros [[Hwf Hrecs Hhist] Hcov]. unfold release, get_record, gets.
  rewrite bind_unfold. destruct (od_get id (records s)) as [r|] eqn:Hr.
  2:{ exists s. split; [done|]. split; [by split|].
      rewrite od_alter_absent by done. by split_and!; [|apply frame_refl|]. }
  rewrite bind_unfold. unfold update, modify.
  set (s1 := put_records (od_alter drop_ownership id (records s)) s).
  assert (reg_base s1) as Hb1.
  { split; simpl; [by apply od_wf_alter| |done]. apply rec_ok_alter; [|done].
    intros. by apply drop_ownership_ok. }
  assert (∀ k, held (records s1) k = held (records s) k - held1 k r) as Hheld.
  { intros k. simpl. rewrite held_alter, Hr. unfold held1 at 1. simpl.
    rewrite decide_False by set_solver. lia. }
  destruct (decide (retained r = ∅)) as [He|Hne].
  - assert (∀ k, held (records s1) k = held (records s) k) as Hsame.
    { intros k. rewrite Hheld. unfold held1. rewrite He. rewrite decide_False by set_solver. lia. }
    exists s1. split; [done|]. split; [|by split_and!; [|apply frame_intro|]]. split; [done|].
    by eapply cover_ext; [| |exact Hcov].
  - unfold manager_release. rewrite get_bind. unfold cover in Hcov.
    change (manager s1) with (manager s). destruct (manager s) as [m|] eqn:Hm.
    2:{ exfalso. apply Hne. apply set_eq. intros k. split; [|set_solver]. intros Hk.
        pose proof (held_ge _ _ _ _ Hr Hk). rewrite Hcov in *. lia. }
    destruct Hcov as [Hmwf Hcov].
    destruct (release_spec (retained r) m Hmwf) as (m' & Hrun & Hmwf' & Hb').
    { intros k Hk. pose proof (held_ge _ _ _ _ Hr Hk).
      destruct (Hcov k) as (b & Hkb & Hle); [lia|]. unfold releasable. rewrite Hkb.
      apply Z.ltb_lt. lia. }
    rewrite Hrun. eexists. split; [reflexivity|].
    assert (∀ k b, block_of k m = Some b → is_int32 (ref_cnt b)) as Hint.
    { intros k b Hkb. pose proof (wf_refs m Hmwf) as Hf. rewrite Forall_forall in Hf.
      rewrite block_of_resident in Hkb. by apply od_get_elem, Hf in Hkb. }
    split; [|split_and!; try done].
    2:{ unfold frame. split_and!; try done.
        2:{ unfold balanced. rewrite Hm. cbn [put_manager manager]. intros k.
            change (records (put_manager (Some m') s1)) with (records s1). rewrite Hheld. unfold ref_of.
            rewrite (Hb' k). destruct (block_of k m) as [b|] eqn:Hb0; [|by case_decide].
            pose proof (Hint k b Hb0). case_decide as Hk; cbn; unfold held1.
            - pose proof (held_ge _ _ _ _ Hr Hk). destruct (Hcov k) as (b1 & ? & ?); [lia|]. simplify_eq.
              rewrite decide_True, wrap32_id by (done || unfold is_int32, int32_max in *; lia). f_equal. lia.
            - rewrite decide_False by done. f_equal. lia. }
        intros Hroom m0 k b [= <-]. rewrite (Hb' k). specialize (Hroom m k).
        destruct (decide (k ∈ retained r)) as [Hk|Hk]; [|by apply Hroom].
        destruct (block_of k m) as [b0|] eqn:Hb0; [|done]. intros [= <-].
        specialize (Hroom b0 Hm eq_refl). pose proof (Hint k b0 Hb0).
        pose proof (held_ge _ _ _ _ Hr Hk). destruct (Hcov k) as (b1 & ? & ?); [lia|].
        simplify_eq. simpl. rewrite wrap32_id; unfold is_int32, int32_max in *; lia. }
    split; [by destruct Hb1|]. split; [done|]. intros k Hk.
    change (records (put_manager (Some m') s1)) with (records s1) in *. rewrite Hheld in *.
    pose proof (held1_nonneg k r).
    destruct (Hcov k) as (b & Hkb & Hle); [lia|]. rewrite (Hb' k), Hkb.
    destruct (decide (k ∈ retained r)) as [Hin|Hin].
    + exists (decr_ref b). split; [done|]. unfold held1 in *. rewrite decide_True in * by done.
      pose proof (Hint k b Hkb). simpl. rewrite wrap32_id; [lia|]. unfold is_int32 in *. lia.
    + exists b. split; [done|]. unfold held1. rewrite decide_False by done. lia.
Qed.

(** ** [_terminalize] *)
Definition terminate (cause : TerminalCause) (now : F) r : Lifecycle F :=
  if is_none (terminal_at r) then close cause now (drop_ownership r) else r.

Lemma terminate_ok id cause now r : rec_ok id r → rec_ok id (terminate cause now r).
Proof.
  intros Hr. unfold terminate. destruct (terminal_at r) eqn:E; [done|].
  destruct Hr. by split.
Qed.

Lemma count_named_cause cause s :
  ∃ mt, count_named ("lifecycle." ++ cause_str cause) s = Ret tt (put_metrics mt s).
Proof. destruct cause; by eexists. Qed.

Lemma count_named_disposition d s :
  d ≠ applied → d ≠ unavailable →
  ∃ mt, count_named ("lifecycle." ++ disposition_str d) s = Ret tt (put_metrics mt s).
Proof. intros Ha Hu. destruct d; try done; by eexists. Qed.

Lemma reg_ok_put_metrics mt s : reg_ok s → reg_ok (put_metrics mt s).
Proof. intros [[] ?]. by split. Qed.
Lemma reg_ok_put_tick n s : reg_ok s → reg_ok (put_tick n s).
Proof. intros [[] ?]. by split. Qed.
Lemma reg_ok_put_generations g s : reg_ok s → reg_ok (put_generations g s).
Proof. intros [[] ?]. by split. Qed.
Lemma reg_ok_put_history h s :
  od_wf h → zlen h ≤ HISTORY_LIMIT → reg_ok s → reg_ok (put_history h s).
Proof. intros ? ? [[] ?]. by split. Qed.

(** A mutation of one record that keeps its invariant and its references. *)
Lemma reg_ok_alter f id s :
  (∀ r, od_get id (records s) = Some r → rec_ok id r → rec_ok id (f r)) →
  (∀ r, retained (f r) = retained r) →
  reg_ok s → reg_ok (put_records (od_alter f id (records s)) s).
Proof.
  intros Hf Hret [[Hwf Hrecs Hh] Hcov]. split.
  - split; simpl; [by apply od_wf_alter|by apply rec_ok_alter|done].
  - eapply cover_ext; [| |exact Hcov]; [done|]. intros k. by apply held_alter_same.
Qed.

Lemma terminalize_ok s id cause now :
  reg_ok s →
  ∃ s', terminalize id cause now s = Ret tt s' ∧ reg_ok s'
    ∧ records s' = od_alter (terminate cause now) id (records s)
    ∧ frame s s' ∧ tick s' = tick s.
Proof.
  intros Hok. unfold terminalize, get_record, gets. rewrite bind_unfold.
  destruct (od_get id (records s)) as [r|] eqn:Hr.
  2:{ exists s. rewrite od_alter_absent by done. by split_and!; [| | |apply frame_refl|]. }
  destruct (terminal_at r) as [t|] eqn:Ht; simpl.
  { exists s. rewrite (od_alter_ext _ (λ r, r)), od_alter_id;
      [by split_and!; [| | |apply frame_refl|]|].
    intros r' Hr'. simplify_eq. unfold terminate. by rewrite Ht. }
  rewrite bind_unfold.
  destruct (release_ok s id Hok) as (s1 & -> & Hok1 & Hrec1 & Hf1 & Ht1).
  rewrite bind_unfold. unfold update, modify.
  set (s2 := put_records (od_alter (close cause now) id (records s1)) s1).
  destruct (count_named_cause cause s2) as [mt ->].
  assert (frame s1 (put_metrics mt s2)) as Hf2 by (apply frame_intro; try done; intros k; by apply held_alter_same).
  exists (put_metrics mt s2). split; [done|]. split; [|split_and!; try done; [|by eapply frame_trans]].
  - apply reg_ok_put_metrics. apply reg_ok_alter; [|done|done].
    intros r1 Hr1 Hrok. rewrite Hrec1, od_get_alter, decide_True, Hr in Hr1 by done.
    simplify_eq/=. destruct Hrok. by split.
  - simpl. rewrite Hrec1, od_alter_alter. apply od_alter_ext.
    intros r' Hr'. simplify_eq. unfold terminate. by rewrite Ht.
Qed.

(** ** [expire] *)

(** The abstract effect of one expiry pass on a record: [None] deletes it. *)
Definition expire_record (now : F) r : option (Lifecycle F) :=
  match terminal_at r with
  | Some at_ => if fleb (fadd at_ TOMBSTONE_SECONDS) now then None else Some r
  | None =>
      match started_at r with
      | Some _ =>
          if fleb (safety_deadline r) now then Some (close t_expired now (drop_ownership r))
          else if fleb (release_deadline r) now then Some (drop_ownership r)
          else Some r
      | None =>
          match completed_at r with
          | Some done_at =>
              if fleb (fadd done_at ATTACH_SECONDS) now
              then Some (close t_expired now (drop_ownership r)) else Some r
          | None => Some r
          end
      end
  end.

Lemma expire1_ok s id now :
  reg_ok s →
  ∃ s', expire1 now id s = Ret tt s' ∧ reg_ok s' ∧ frame s s' ∧ tick s' = tick s
    ∧ ∀ j, od_get j (records s') =
        if decide (j = id) then od_get j (records s) ≫= expire_record now
        else od_get j (records s).
Proof.
  intros Hok. unfold expire1, get_record, gets. rewrite bind_unfold.
  destruct (od_get id (records s)) as [r|] eqn:Hr.
  2:{ exists s. split_and!; try done; try by apply frame_refl.
      intros j. case_decide; [|done]. subst. by rewrite Hr. }
  assert (∀ f s', records s' = od_alter f id (records s) →
    expire_record now r = Some (f r) →
    ∀ j, od_get j (records s') =
      if decide (j = id) then od_get j (records s) ≫= expire_record now
      else od_get j (records s)) as Halter.
  { intros f s' -> Hex j. rewrite od_get_alter.
    destruct (decide (id = j)) as [<-|Hj]; [|by rewrite decide_False].
    rewrite decide_True, Hr by done. symmetry. exact Hex. }
  assert (∀ (Hex : expire_record now r = Some r),
    ∃ s', Ret (S:=LifecycleRegistry F P) tt s = Ret tt s' ∧ reg_ok s' ∧ frame s s'
    ∧ tick s' = tick s ∧ ∀ j, od_get j (records s') =
        if decide (j = id) then od_get j (records s) ≫= expire_record now
        else od_get j (records s)) as Hskip.
  { intros Hex. exists s. split_and!; try done; try by apply frame_refl. apply (Halter (λ r, r)); [|done].
    by rewrite od_alter_id. }
  assert (∀ (Ht : terminal_at r = None)
    (Hex : expire_record now r = Some (close t_expired now (drop_ownership r))),
    ∃ s', terminalize id t_expired now s = Ret tt s' ∧ reg_ok s' ∧ frame s s'
    ∧ tick s' = tick s ∧ ∀ j, od_get j (records s') =
        if decide (j = id) then od_get j (records s) ≫= expire_record now
        else od_get j (records s)) as Hterm.
  { intros Ht Hex. destruct (terminalize_ok s id t_expired now Hok)
      as (s' & -> & Hok' & Hrec & ? & ?).
    exists s'. split_and!; try done. apply (Halter (terminate t_expired now)); [done|].
    unfold terminate. by rewrite Ht. }
  unfold expire_record in Hskip, Hterm, Halter.
  destruct (terminal_at r) as [at_|] eqn:Ht.
  { destruct (fleb (fadd at_ TOMBSTONE_SECONDS) now) eqn:Hle; [|by apply Hskip].
    eexists. split; [reflexivity|].
    assert (retained r = ∅) as Hempty.
    { destruct Hok as [[_ Hrecs _] _]. destruct (Hrecs id r Hr) as [_ _ Hrt Hrr _ _].
      destruct Hrt as (Hrel & _); [by rewrite Ht|]. by destruct (Hrr Hrel). }
    assert (∀ k, held (od_del id (records s)) k = held (records s) k) as Hsame.
    { intros k. rewrite held_del, Hr by apply Hok. unfold held1. rewrite Hempty, decide_False by set_solver. lia. }
    split_and!; try done; try by apply frame_intro.
    - destruct Hok as [[Hwf Hrecs Hh] Hcov]. split.
      + split; simpl; [by apply od_wf_del| |done]. intros j r'. rewrite od_get_del.
        case_decide; [done|]. apply Hrecs.
      + by eapply cover_ext; [| |exact Hcov].
    - intros j. simpl. rewrite od_get_del.
      destruct (decide (id = j)) as [->|]; [|by rewrite decide_False].
      rewrite decide_True, Hr by done. simpl. unfold expire_record. by rewrite Ht, Hle. }
  destruct (started_at r) as [st|] eqn:Hst.
  - destruct (fleb (safety_deadline r) now); [by apply Hterm|].
    destruct (fleb (release_deadline r) now) eqn:Hrel; [|by apply Hskip].
    destruct (release_ok s id Hok) as (s' & -> & Hok' & Hrec & ? & ?).
    exists s'. split_and!; try done. by apply (Halter drop_ownership).
  - destruct (completed_at r) as [c|] eqn:Hc; [|by apply Hskip].
    destruct (fleb (fadd c ATTACH_SECONDS) now); [by apply Hterm|by apply Hskip].
Qed.

Lemma expire_fold ids s now :
  NoDup ids → reg_ok s →
  ∃ s', forM ids (expire1 now) s = Ret tt s' ∧ reg_ok s' ∧ frame s s' ∧ tick s' = tick s
    ∧ ∀ j, od_get j (records s') =
        if decide (j ∈ ids) then od_get j (records s) ≫= expire_record now
        else od_get j (records s).
Proof.
  intros Hnd. revert s. induction Hnd as [|id ids Hid Hnd IH]; intros s Hok; cbn [forM].
  { exists s. by split_and!; try apply frame_refl. }
  rewrite bind_unfold. destruct (expire1_ok s id now Hok) as (s1 & -> & Hok1 & Hf1 & Ht1 & Hg1).
  destruct (IH s1 Hok1) as (s2 & -> & Hok2 & Hf2 & Ht2 & Hg2).
  exists s2. split; [done|]. split; [done|]. split; [by eapply frame_trans|]. split; [congruence|]. intros j. rewrite (Hg2 j), (Hg1 j).
  destruct (decide (j = id)) as [->|Hne].
  - rewrite decide_False by done. rewrite decide_True by (by left). done.
  - apply decide_ext. set_solver.
Qed.

(** [expire] never fails and is exactly the pointwise [expire_record]. *)
Lemma expire_ok s :
  reg_ok s →
  ∃ s', expire clock s = Ret tt s' ∧ reg_ok s' ∧ frame s s' ∧ tick s' = S (tick s)
    ∧ ∀ j, od_get j (records s') = od_get j (records s) ≫= expire_record (clock (tick s)).
Proof.
  intros Hok. unfold expire, read_clock, gets. rewrite bind_unfold. rewrite bind_unfold.
  set (s1 := put_tick (S (tick s)) s).
  destruct (expire_fold (od_keys (records s1)) s1 (clock (tick s)))
    as (s2 & Hrun & Hok2 & Hf2 & Ht2 & Hg2).
  { apply Hok. } { by apply reg_ok_put_tick. }
  exists s2. split; [done|]. split; [done|]. split; [done|]. split; [by rewrite Ht2|].
  intros j. rewrite (Hg2 j). case_decide as Hj; [done|].
  apply od_get_None in Hj. change (records s1) with (records s) in *. by rewrite Hj.
Qed.

(** ** The phase diagram *)
Inductive phase_step : option LifecycleState → option LifecycleState → Prop :=
  | ps_complete : phase_step (Some Generating) (Some AwaitingStart)
  | ps_start p : p = Generating ∨ p = AwaitingStart → phase_step (Some p) (Some Active)
  | ps_release : phase_step (Some Active) (Some Released)
  | ps_terminate p c : (∀ c', p ≠ Terminal c') → phase_step (Some p) (Some (Terminal c))
  | ps_forget c : phase_step (Some (Terminal c)) None.

Definition phase (id : string) s : option LifecycleState := state <$> od_get id (records s).

Definition evolves s s' : Prop := ∀ id, rtc phase_step (phase id s) (phase id s').

Lemma evolves_refl s s' : records s' = records s → evolves s s'.
Proof. intros Heq id. unfold phase. by rewrite Heq. Qed.

Lemma evolves_trans s1 s2 s3 : evolves s1 s2 → evolves s2 s3 → evolves s1 s3.
Proof. intros H12 H23 id. etrans; [apply H12|apply H23]. Qed.

Lemma evolves_alter f id s s' :
  records s' = od_alter f id (records s) →
  (∀ r, od_get id (records s) = Some r → rtc phase_step (Some (state r)) (Some (state (f r)))) →
  evolves s s'.
Proof.
  intros Heq Hf j. unfold phase. rewrite Heq, od_get_alter. case_decide; [|done].
  subst. destruct (od_get j (records s)) as [r|] eqn:E; [|done]. simpl. by apply Hf.
Qed.

Lemma phase_drop r : rtc phase_step (Some (state r)) (Some (state (drop_ownership r))).
Proof.
  unfold state. simpl. destruct (terminal_cause r); [done|]. destruct (start r); [|done].
  destruct (ownership_released r); [done|]. apply rtc_once, ps_release.
Qed.

Lemma state_live id r : rec_ok id r → terminal_at r = None → ∀ c, state r ≠ Terminal c.
Proof.
  intros [_ Hc _ _ _ _] Ht c. apply Hc in Ht. unfold state. rewrite Ht. by repeat case_match.
Qed.

Lemma phase_close id r cause now : rec_ok id r → terminal_at r = None →
  rtc phase_step (Some (state r)) (Some (state (close cause now (drop_ownership r)))).
Proof. intros Hr Ht. apply rtc_once, ps_terminate. by eapply state_live. Qed.

Lemma phase_terminate id r cause now : rec_ok id r →
  rtc phase_step (Some (state r)) (Some (state (terminate cause now r))).
Proof.
  intros Hr. unfold terminate. destruct (terminal_at r) eqn:E; [done|]. by eapply phase_close.
Qed.

Lemma phase_expire id r now : rec_ok id r →
  rtc phase_step (Some (state r)) (state <$> expire_record now r).
Proof.
  intros Hr. unfold expire_record. destruct (terminal_at r) eqn:Ht.
  { case_match; [|done]. simpl. destruct Hr as [_ Hc _ _ _ _ _].
    destruct (terminal_cause r) as [c|] eqn:Hcause; [|naive_solver].
    unfold state. rewrite Hcause. apply rtc_once, ps_forget. }
  repeat case_match; simpl; try done; try (by eapply phase_close). apply phase_drop.
Qed.

Lemma expire_evolves s s' now :
  reg_ok s → (∀ j, od_get j (records s') = od_get j (records s) ≫= expire_record now) →
  evolves s s'.
Proof.
  intros [[_ Hrecs _] _] Hg id. unfold phase. rewrite (Hg id).
  destruct (od_get id (records s)) as [r|] eqn:E; [|done]. simpl. eapply phase_expire; eauto.
Qed.

(** The outcome of an operation that may not fail. *)
Definition good {A} s (o : outcome (LifecycleRegistry F P) A) : Prop :=
  ∃ a s', o = Ret a s' ∧ reg_ok s' ∧ evolves s s' ∧ balanced s s'.

Lemma expire_good s : reg_ok s → good s (expire clock s).
Proof.
  intros Hok. destruct (expire_ok s Hok) as (s' & Hrun & Hok' & Hf & _ & Hg).
  exists tt, s'. split_and!; [done|done|by eapply expire_evolves|by apply frame_balanced].
Qed.

(** ** The other operations *)
Lemma new_lifecycle_ok d : rec_ok (lifecycle_id d) (new_lifecycle d).
Proof. by split. Qed.

(** [associate] either registers a fresh record or raises, and then only
    because the identifier is taken. *)
Lemma associate_ok rid (d : TokenCakeMetadata F) s :
  reg_ok s →
  ∃ s1, expire clock s = Ret tt s1 ∧ evolves s s1 ∧
  if od_mem (lifecycle_id d) (records s1) || od_mem (lifecycle_id d) (generations s1)
  then ∃ s', associate clock rid d s = Exc DuplicateLifecycleError s'
         ∧ reg_ok s' ∧ balanced s s' ∧ records s' = records s1 ∧ generations s' = generations s1
  else ∃ s', associate clock rid d s = Ret tt s' ∧ reg_ok s' ∧ balanced s s'
         ∧ records s' = od_set (lifecycle_id d) (new_lifecycle d) (records s1)
         ∧ generations s' = od_set (lifecycle_id d) rid (generations s1).
Proof.
  intros Hok. destruct (expire_ok s Hok) as (s1 & Hrun & Hok1 & Hbal%frame_balanced & _ & Hg).
  exists s1. split; [done|]. split; [by eapply expire_evolves|].
  unfold associate. rewrite bind_unfold, Hrun, get_bind.
  destruct (od_mem (lifecycle_id d) (records s1)) eqn:Hm1; simpl.
  { eexists. split; [reflexivity|]. split_and!; [by apply reg_ok_put_metrics|exact Hbal|done|done]. }
  destruct (od_mem (lifecycle_id d) (generations s1)) eqn:Hm2; simpl.
  { eexists. split; [reflexivity|]. split_and!; [by apply reg_ok_put_metrics|exact Hbal|done|done]. }
  eexists. split; [reflexivity|]. apply od_mem_false in Hm1.
  assert (∀ k, held (od_set (lifecycle_id d) (new_lifecycle d) (records s1)) k = held (records s1) k) as Hsame.
  { intros k. rewrite held_set_new by done. unfold held1. simpl. rewrite decide_False by set_solver. lia. }
  split_and!; [|eapply balanced_trans; [exact Hbal|by apply balanced_same]|done|done].
  apply reg_ok_put_metrics. destruct Hok1 as [[Hwf Hrecs Hh] Hcov]. split.
  - split; simpl; [by apply od_wf_set| |done]. intros j r. rewrite od_get_set.
    case_decide; [|by apply Hrecs]. intros [= <-]. subst. apply new_lifecycle_ok.
  - by eapply cover_ext; [| |exact Hcov].
Qed.

Lemma finish_generation_ok id now snap r :
  terminal_at r = None → (∀ p, snap = Some p → snap_ok p) → rec_ok id r → rec_ok id (finish_generation now snap r).
Proof. intros Ht Hs []. split; simpl; done. Qed.

Lemma generation_finished_good id cause snap s :
  reg_ok s → (∀ p, snap = Some p → snap_ok p) → good s (generation_finished clock id cause snap s).
Proof.
  intros Hok Hsnap. destruct (expire_ok s Hok) as (s1 & Hrun & Hok1 & Hbal%frame_balanced & _ & Hg).
  unfold good, generation_finished. rewrite bind_unfold, Hrun, bind_unfold.
  unfold modify at 1. set (s2 := put_generations _ s1). unfold get_record, gets. rewrite bind_unfold.
  assert (evolves s s2) as Hev.
  { eapply evolves_trans; [by eapply expire_evolves|]. by apply evolves_refl. }
  assert (reg_ok s2) as Hok2 by by apply reg_ok_put_generations.
  destruct (od_get id (records s2)) as [r|] eqn:Hr; [|by eexists _, s2].
  destruct (terminal_at r) eqn:Ht; simpl; [by eexists _, s2|].
  unfold read_clock at 1. rewrite bind_unfold, get_bind. set (s3 := put_tick _ s2).
  assert (reg_ok s3) as Hok3 by by apply reg_ok_put_tick.
  case_match.
  - destruct (terminalize_ok s3 id (cause_of_generation cause) (clock (tick s2)) Hok3)
      as (s4 & -> & Hok4 & Hrec4 & Hf4 & _). exists tt, s4. split_and!; [done|done| |].
    + eapply evolves_trans; [exact Hev|]. eapply evolves_alter; [exact Hrec4|].
      intros r' Hr'. eapply phase_terminate, Hok2. exact Hr'.
    + eapply balanced_trans; [exact Hbal|]. exact (frame_balanced _ _ Hf4).
  - eexists _, _. split; [reflexivity|]. split_and!.
    + apply reg_ok_put_metrics, reg_ok_alter; [|done|done].
      intros r' Hr' Hrok. apply finish_generation_ok; [|done..].
      change (records s3) with (records s2) in Hr'. congruence.
    + eapply evolves_trans; [exact Hev|]. eapply evolves_alter; [reflexivity|].
      intros r' Hr'. change (records s3) with (records s2) in Hr'. simplify_eq.
      unfold state. simpl. destruct (terminal_cause r) eqn:Hc; [done|].
      destruct (start r); [done|]. destruct (completed_at r); [done|].
      apply rtc_once, ps_complete.
    + eapply balanced_trans; [exact Hbal|]. by eapply balanced_alter.
Qed.

(** *** History *)
Lemma zlen_Permutation {A} (l1 l2 : list A) : l1 ≡ₚ l2 → zlen l1 = zlen l2.
Proof. intros Hp. unfold zlen. by rewrite Hp. Qed.

Lemma learn_history_ok alpha key sample (h : odict (string * string * string) F) :
  od_wf h → zlen h ≤ HISTORY_LIMIT →
  od_wf (learn_history alpha key sample h) ∧ zlen (learn_history alpha key sample h) ≤ HISTORY_LIMIT.
Proof.
  intros Hwf Hlen. unfold learn_history. destruct (od_get key h) as [v|] eqn:Hk.
  - split; [by apply od_wf_set, od_wf_del|].
    pose proof (zlen_Permutation _ _ (od_del_Permutation key v h Hwf Hk)) as Hp.
    unfold zlen in *. rewrite length_od_set. simpl in Hp. destruct (od_mem _ _); lia.
  - rewrite od_del_notin by done. destruct (Z.leb_spec HISTORY_LIMIT (zlen h)).
    + split.
      * apply od_wf_set. destruct h as [|[k v] h]; [done|]. by apply od_wf_cons in Hwf as [_ ?].
      * unfold zlen in *. rewrite length_od_set. unfold HISTORY_LIMIT in *.
        destruct h as [|x h]; cbn [tail length] in *; destruct (od_mem _ _); lia.
    + split; [by apply od_wf_set|]. unfold zlen in *. rewrite length_od_set.
      destruct (od_mem _ _); lia.
Qed.

Lemma predict_ok r ev s :
  reg_ok s →
  ∃ p h, predict r ev s = Ret p (put_history h s) ∧ reg_ok (put_history h s).
Proof.
  intros Hok. pose proof Hok as [[_ _ [Hwf Hlen]] _]. unfold predict. rewrite get_bind, bind_unfold.
  assert (∀ s, put_history (history s) s = s) as Hid by by intros [].
  destruct (history_key r (ev_kind ev)) as [k|]; simpl;
    [destruct (od_get k (history s)); simpl|].
  - eexists _, _. split; [reflexivity|]. apply reg_ok_put_history; [by apply od_wf_move| |done].
    by rewrite (zlen_Permutation _ _ (od_move_Permutation k _ Hwf)).
  - eexists _, (history s). by rewrite Hid.
  - eexists _, (history s). by rewrite Hid.
Qed.

(** [set_h2d_estimate] on a started record. *)
Lemma set_h2d_estimate_ok id secs s r :
  reg_ok s → od_get id (records s) = Some r → started_at r ≠ None →
  ∃ d s', set_h2d_estimate clock id secs s = Ret tt s' ∧ reg_ok s' ∧ balanced s s'
    ∧ (records s' = od_alter (set_release_deadline d) id (records s)
       ∨ records s' = od_alter (λ r, drop_ownership (set_release_deadline d r)) id (records s)).
Proof.
  intros Hok Hr Hst. unfold set_h2d_estimate, get_record, gets. rewrite bind_unfold, Hr.
  destruct (started_at r) as [at_|]; [|done]. rewrite get_bind, bind_unfold. unfold update, modify.
  set (d := fsub _ _). exists d. unfold read_clock. rewrite bind_unfold.
  set (s1 := put_tick _ _).
  assert (reg_ok s1) as Hok1.
  { apply reg_ok_put_tick, reg_ok_alter; [|done|done]. intros r' _ []. by split. }
  assert (balanced s s1) as Hbal by by eapply balanced_alter.
  case_match; [|by exists s1; eauto 6].
  destruct (release_ok s1 id Hok1) as (s2 & -> & Hok2 & Hrec & Hf & _).
  exists s2. split; [done|]. split; [done|]. split; [by eapply balanced_trans, frame_balanced|]. right. rewrite Hrec. simpl. by rewrite od_alter_alter.
Qed.

Definition started (ev : LifecycleEvent F) (now : F) r : Lifecycle F :=
  set_started_at (Some now) (set_start (Some ev) r).

Lemma begin_stall_good id r ev now s :
  reg_ok s → od_get id (records s) = Some r → start r = None → terminal_at r = None →
  ∃ s', begin_stall clock id r ev now s = Ret tt s' ∧ reg_ok s' ∧ evolves s s' ∧ balanced s s'
    ∧ ∃ r', od_get id (records s') = Some r' ∧ start r' = Some ev ∧ terminal_at r' = None.
Proof.
  intros Hok Hr Hst Ht. unfold begin_stall. rewrite bind_unfold. unfold update at 1, modify at 1.
  fold (started ev now). set (s1 := put_records _ s).
  assert (rec_ok id r) as Hrok by by apply Hok.
  assert (reg_ok s1) as Hok1.
  { apply reg_ok_alter; [|done|done]. intros r' Hr' Hro. simplify_eq. destruct Hro. by split. }
  assert (od_get id (records s1) = Some (started ev now r)) as Hr1
    by (simpl; by rewrite od_get_alter, decide_True, Hr).
  rewrite bind_unfold. destruct (predict_ok r ev s1 Hok1) as (p & h & -> & Hok2).
  set (s2 := put_history h s1) in *. rewrite bind_unfold. unfold update at 1, modify at 1.
  rewrite bind_unfold. unfold update at 1, modify at 1. set (s3 := put_records _ (put_records _ s2)).
  assert (reg_ok s3) as Hok3.
  { apply reg_ok_alter; [|done|]; [intros r' _ []; by split|].
    apply reg_ok_alter; [|done|done]. intros r' _ []; by split. }
  set (r3 := set_safety_deadline (fadd now (safety_horizon p))
               (set_predicted_duration p (started ev now r))).
  assert (od_get id (records s3) = Some r3) as Hr3.
  { simpl. rewrite !od_get_alter, !decide_True by done. by rewrite Hr. }
  rewrite bind_unfold.
  destruct (set_h2d_estimate_ok id (f_of_Z 0) s3 r3 Hok3 Hr3) as (d & s4 & -> & Hok4 & Hbal4 & Hrec4); [done|].
  rewrite bind_unfold. unfold update, modify. set (s5 := put_records _ s4).
  assert (∃ r4, od_get id (records s4) = Some r4 ∧ start r4 = Some ev ∧ terminal_at r4 = None
    ∧ terminal_cause r4 = terminal_cause r
    ∧ ∀ j, j ≠ id → od_get j (records s4) = od_get j (records s)) as (r4 & Hr4 & Hs4 & Ht4 & Hc4 & Hoth).
  { destruct Hrec4 as [->| ->].
    - exists (set_release_deadline d r3). rewrite od_get_alter, decide_True, Hr3 by done.
      split_and!; try done. intros j Hj. rewrite od_get_alter, decide_False by done. simpl.
      by rewrite !od_get_alter, !decide_False by done.
    - exists (drop_ownership (set_release_deadline d r3)).
      rewrite od_get_alter, decide_True, Hr3 by done.
      split_and!; try done. intros j Hj. rewrite od_get_alter, decide_False by done. simpl.
      by rewrite !od_get_alter, !decide_False by done. }
  eexists. split; [reflexivity|]. split_and!.
  - apply reg_ok_put_metrics, reg_ok_alter; [|done|done].
    intros r' Hr' []. simplify_eq. split; simpl; try done.
  - intros j. unfold phase. simpl. rewrite od_get_alter. destruct (decide (id = j)) as [<-|Hj].
    + rewrite Hr, Hr4. simpl. assert (terminal_cause r = None) as Hcn by by apply Hrok.
      unfold state. simpl. rewrite Hst, Hc4, Hcn, Hs4.
      etrans; [apply rtc_once, ps_start; destruct (completed_at r); auto|].
      destruct (ownership_released r4); [apply rtc_once, ps_release|done].
    + by rewrite Hoth.
  - eapply (balanced_trans _ s3); [|eapply balanced_trans; [exact Hbal4|by eapply balanced_alter]].
    apply balanced_same; [done|]. intros k. simpl. by rewrite !held_alter_same.
  - simpl. rewrite od_get_alter, decide_True, Hr4 by done. by eexists.
Qed.

Lemma learn_ok id now s r :
  reg_ok s → od_get id (records s) = Some r → start r ≠ None →
  ∃ s' f, learn id now s = Ret tt s' ∧ reg_ok s' ∧ manager s' = manager s ∧ records s' = od_alter f id (records s)
    ∧ ∀ r, f r = r ∨ ∃ x, f r = set_anonymous_sample x r.
Proof.
  intros Hok Hr Hst. unfold learn, get_record, gets. rewrite bind_unfold, Hr.
  assert (rec_ok id r) as [_ _ _ _ Hsa _] by by apply Hok.
  destruct (start r) as [ev|]; [|done]. destruct (started_at r) as [at_|]; [|naive_solver].
  destruct (history_key r (ev_kind ev)) as [key|].
  - eexists _, (λ r, r). split; [reflexivity|]. rewrite od_alter_id. split_and!; [|done|done|eauto].
    pose proof Hok as [[_ _ [Hwf Hlen]] _].
    apply reg_ok_put_history; [..|done]; by apply learn_history_ok.
  - eexists _, (set_anonymous_sample _). split; [reflexivity|]. split_and!; [|done|done|eauto].
    apply reg_ok_alter; [|done|done]. intros r' _ []. by split.
Qed.

Lemma end_stall_good id now s r :
  reg_ok s → od_get id (records s) = Some r → start r ≠ None → terminal_at r = None →
  ∃ s', end_stall id now s = Ret tt s' ∧ reg_ok s' ∧ evolves s s' ∧ balanced s s'
    ∧ ∃ r', od_get id (records s') = Some r' ∧ finish_accepted r' = true
        ∧ state r' = Terminal t_finished.
Proof.
  intros Hok Hr Hst Ht. unfold end_stall. rewrite bind_unfold.
  destruct (learn_ok id now s r Hok Hr Hst) as (s1 & f & -> & Hok1 & Hm1 & Hrec1 & Hf).
  rewrite bind_unfold. unfold update, modify. set (s2 := put_records _ s1).
  assert (reg_ok s2) as Hok2.
  { apply reg_ok_alter; [|done|done]. intros r' _ []. by split. }
  destruct (terminalize_ok s2 id t_finished now Hok2) as (s3 & Hrun & Hok3 & Hrec3 & Hf3 & _).
  exists s3. assert (od_get id (records s3) =
    Some (close t_finished now (drop_ownership (set_finish_accepted true (f r))))) as Hr3.
  { rewrite Hrec3. simpl. rewrite !od_get_alter, !decide_True, Hrec1 by done.
    rewrite od_get_alter, decide_True, Hr by done. simpl. unfold terminate.
    destruct (Hf r) as [->|(x & ->)]; simpl; by rewrite Ht. }
  split_and!; [done|done| | |by eexists].
  2:{ eapply balanced_trans; [|exact (frame_balanced _ _ Hf3)]. apply balanced_same; [exact Hm1|].
      intros k. simpl. rewrite held_alter_same by done. rewrite Hrec1. apply held_alter_same.
      intros r0. by destruct (Hf r0) as [->|(x & ->)]. }
  intros j. unfold phase. destruct (decide (j = id)) as [->|Hj].
  - rewrite Hr, Hr3. simpl. apply rtc_once, ps_terminate.
    eapply state_live; [|done]. by apply Hok.
  - rewrite Hrec3. simpl. rewrite !od_get_alter, !decide_False, Hrec1 by done.
    by rewrite od_get_alter, decide_False.
Qed.

(** The disposition of an event on a present record: the table [apply]
    implements, without the effects. *)
Definition decision r (ev : LifecycleEvent F) : Disposition * Z :=
  match ev_event ev with
  | stall_started =>
      if same_start r ev then (duplicate, 200)
      else if negb (is_none (start r)) || negb (is_none (terminal_at r)) then (conflict, 409)
      else (applied, 200)
  | stall_finished =>
      if negb (is_none (terminal_at r))
      then (if finish_accepted r then duplicate else late_finish, 200)
      else if is_none (start r) then (conflict, 409) else (applied, 200)
  end.

Lemma dispatch_good id r ev now s :
  reg_ok s → od_get id (records s) = Some r →
  ∃ s', dispatch clock id r ev now s = Ret (decision r ev) s' ∧ reg_ok s' ∧ evolves s s' ∧ balanced s s'
    ∧ is_Some (od_get id (records s'))
    ∧ ((decision r ev).1 ≠ applied → s' = s).
Proof.
  intros Hok Hr. unfold dispatch, decision.
  assert (∀ d : Disposition * Z, ∃ s', Ret d s = Ret d s' ∧ reg_ok s' ∧ evolves s s' ∧ balanced s s'
    ∧ is_Some (od_get id (records s')) ∧ (d.1 ≠ applied → s' = s)) as Hskip.
  { intros d. exists s. split_and!; [done|done|by apply evolves_refl|apply balanced_refl|by rewrite Hr|done]. }
  destruct (ev_event ev).
  - case_match; [apply Hskip|].
    destruct (start r) as [e|] eqn:Hst; simpl; [apply Hskip|].
    destruct (terminal_at r) eqn:Ht; simpl; [apply Hskip|].
    rewrite bind_unfold.
    destruct (begin_stall_good id r ev now s) as (s' & -> & ? & ? & ? & r' & Hr' & _); [done..|].
    exists s'. split_and!; try done; by rewrite Hr'.
  - destruct (terminal_at r) eqn:Ht; simpl; [apply Hskip|].
    destruct (start r) as [e|] eqn:Hst; simpl; [|apply Hskip].
    rewrite bind_unfold.
    destruct (end_stall_good id now s r) as (s' & -> & ? & ? & ? & r' & Hr' & _);
      [done|done|by rewrite Hst|done|].
    exists s'. split_and!; try done; by rewrite Hr'.
Qed.

(** [apply] never fails; its answer is [unknown]/404 or the table. *)
Lemma apply_ok ev s :
  reg_ok s →
  ∃ s1, expire clock s = Ret tt s1 ∧
  ∃ res s', apply clock ev s = Ret res s' ∧ reg_ok s' ∧ evolves s s' ∧ balanced s s'
    ∧ res_lifecycle_id res = ev_lifecycle_id ev ∧ res_event res = ev_event ev
    ∧ res_state res = phase (ev_lifecycle_id ev) s'
    ∧ match od_get (ev_lifecycle_id ev) (records s1) with
      | None => res_disposition res = unknown ∧ res_status_code res = 404
                ∧ records s' = records s1
      | Some r =>
          (res_disposition res, res_status_code res) = decision r ev
          ∧ (res_disposition res ≠ applied →
               records s' = records s1 ∧ manager s' = manager s1 ∧ history s' = history s1)
      end.
Proof.
  intros Hok. destruct (expire_ok s Hok) as (s1 & Hrun & Hok1 & Hbal%frame_balanced & _ & Hg).
  exists s1. split; [done|]. unfold apply. rewrite bind_unfold, Hrun.
  unfold get_record, gets. rewrite bind_unfold.
  assert (evolves s s1) as Hev by by eapply expire_evolves.
  destruct (od_get (ev_lifecycle_id ev) (records s1)) as [r|] eqn:Hr.
  2:{ eexists _, _. split; [reflexivity|]. split_and!; try done; [by apply reg_ok_put_metrics|].
      unfold phase. simpl. by rewrite Hr. }
  unfold read_clock. rewrite bind_unfold, bind_unfold. set (s2 := put_tick _ s1).
  destruct (dispatch_good (ev_lifecycle_id ev) r ev (clock (tick s1)) s2) as
    (s3 & -> & Hok3 & Hev3 & Hbal3 & _ & Hsame); [by apply reg_ok_put_tick|done|].
  destruct (decision r ev) as [d st] eqn:Hdec. rewrite bind_unfold.
  assert (evolves s s3) as Hev' by by eapply evolves_trans.
  assert (balanced s s3) as Hbal' by (eapply balanced_trans; [exact Hbal|exact Hbal3]).
  destruct (decide (d = applied)) as [->|Hne].
  - eexists _, _. split; [reflexivity|]. by split_and!.
  - destruct (count_named_disposition d s3) as [mt ->]; [done| |].
    { clear -Hdec. unfold decision in Hdec. intros ->. by repeat case_match. }
    eexists _, _. split; [reflexivity|]. simpl in Hsame. rewrite Hsame in * by done.
    split_and!; try done. by apply reg_ok_put_metrics.
Qed.

(** *** Retention *)
Lemma held_retain id r got recs k : od_get id recs = Some r → got ## retained r →
  held (od_alter (λ r, set_retained (retained r ∪ got) r) id recs) k
  = held recs k + (if decide (k ∈ got) then 1 else 0).
Proof.
  intros Hr Hd. rewrite held_alter, Hr. unfold held1. cbn [set_retained retained].
  destruct (decide (k ∈ got)) as [Hg|Hg].
  - rewrite decide_True by (apply elem_of_union; by right). rewrite decide_False by set_solver. lia.
  - destruct (decide (k ∈ retained r)).
    + rewrite decide_True by (apply elem_of_union; by left). lia.
    + rewrite decide_False by set_solver. lia.
Qed.

(** Retention takes exactly the references it notes. *)
Lemma retain_balanced s id r m got m' keys :
  mgr_wf m → room s → manager s = Some m → od_get id (records s) = Some r →
  CPUManager.retain (keys ∖ retained r) m = (got, m') →
  balanced s (put_records (od_alter (λ r, set_retained (retained r ∪ got) r) id (records s)) (put_manager (Some m') s)).
Proof.
  intros Hmwf Hroom Hm Hr Hret. destruct (retain_spec _ _ _ _ Hmwf Hret) as (Hmwf' & Hgot & Hb).
  assert (got ## retained r) as Hd by (rewrite Hgot; intros j [_ ?]%elem_of_filter; set_solver).
  unfold balanced. rewrite Hm. cbn [put_records put_manager manager records]. intros k.
  rewrite (held_retain id r) by done. unfold ref_of. rewrite Hb. case_decide as Hk.
  - assert (ready_key m k) as (b & Hkb & Hrd%Z.leb_le) by (rewrite Hgot in Hk; by apply elem_of_filter in Hk as [? _]).
    rewrite Hkb. cbn. pose proof (Hroom m k b Hm Hkb).
    rewrite wrap32_id by (unfold is_int32, int32_max in *; lia). f_equal. lia.
  - destruct (block_of k m); cbn; [f_equal; lia|done].
Qed.

Lemma cover_retain s id r m got m' keys :
  reg_ok s → room s → manager s = Some m → od_get id (records s) = Some r →
  CPUManager.retain (keys ∖ retained r) m = (got, m') →
  cover (put_records (od_alter (λ r, set_retained (retained r ∪ got) r) id (records s))
           (put_manager (Some m') s)).
Proof.
  intros [_ Hcov] Hroom Hm Hr Hret. unfold cover in *. rewrite Hm in Hcov. destruct Hcov as [Hmwf Hcov].
  pose proof (retain_balanced s id r m got m' keys Hmwf Hroom Hm Hr Hret) as Hbal.
  destruct (retain_spec _ _ _ _ Hmwf Hret) as (Hmwf' & Hgot & Hb). unfold balanced in Hbal. rewrite Hm in Hbal.
  cbn [put_records put_manager manager records] in *. split; [done|]. intros k Hk. specialize (Hbal k).
  assert (∃ b, block_of k m = Some b ∧ held (records s) k ≤ ref_cnt b) as (b & Hkb & Hle).
  { destruct (decide (0 < held (records s) k)) as [Hpos|Hz]; [by apply Hcov|].
    rewrite (held_retain id r) in Hk; [|done|rewrite Hgot; intros j [_ ?]%elem_of_filter; set_solver].
    case_decide as Hin; [|lia]. rewrite Hgot in Hin. apply elem_of_filter in Hin as [(b & Hkb & Hrd%Z.leb_le) _].
    exists b. split; [done|lia]. }
  unfold ref_of in Hbal. rewrite Hkb in Hbal. destruct (block_of k m') as [b'|]; [|done].
  exists b'. split; [done|]. injection Hbal as ->. lia.
Qed.

Lemma retain_ready_ok id keys s :
  reg_ok s → room s → is_Some (manager s) →
  ∃ got s', retain_ready clock id keys s = Ret got s' ∧ reg_ok s' ∧ evolves s s' ∧ balanced s s' ∧ got ⊆ keys
    ∧ match od_get id (records s') with
      | Some r => got ⊆ retained r ∧ (got ≠ ∅ → state r = Active)
      | None => got = ∅
      end.
Proof.
  intros Hok Hroom Hman. destruct (expire_ok s Hok) as (s1 & Hrun & Hok1 & Hf & _ & Hg).
  destruct Hf as (_ & _ & _ & Hroom1 & Hman1 & Hbal1). specialize (Hroom1 Hroom).
  destruct (Hman1 Hman) as [m Hm]. unfold retain_ready. rewrite bind_unfold, Hrun.
  unfold get_record, gets. rewrite bind_unfold.
  assert (evolves s s1) as Hev by by eapply expire_evolves.
  destruct (od_get id (records s1)) as [r|] eqn:Hr.
  2:{ exists ∅, s1. split_and!; try done; by rewrite ?Hr; set_solver. }
  destruct (owns_preservation r) eqn:Hown; simpl.
  2:{ exists ∅, s1. split_and!; try done; rewrite ?Hr; set_solver. }
  rewrite get_bind, Hm. destruct (CPUManager.retain (keys ∖ retained r) m) as [got m'] eqn:Hret.
  eexists got, _. split; [reflexivity|].
  assert (got ⊆ keys) as Hsub.
  { destruct Hok1 as [_ Hc]. unfold cover in Hc. rewrite Hm in Hc.
    destruct (retain_spec _ _ _ _ (proj1 Hc) Hret) as (_ & -> & _). intros k Hk.
    apply elem_of_filter in Hk as [_ ?]. set_solver. }
  assert (terminal_at r = None ∧ ownership_released r = false ∧ is_Some (start r)) as (Ht & Ho & Hs).
  { unfold owns_preservation in Hown. destruct (start r), (terminal_at r), (ownership_released r);
      naive_solver. }
  split_and!; [|..|done|].
  3:{ eapply balanced_trans; [exact Hbal1|]. apply (retain_balanced s1 id r m got m' keys); try done.
      destruct Hok1 as [_ Hc]. unfold cover in Hc. rewrite Hm in Hc. apply Hc. }
  - split; [|by apply (cover_retain s1 id r m got m' keys)]. destruct Hok1 as [[Hwf Hrecs Hh] _].
    split; simpl; [by apply od_wf_alter| |done]. apply rec_ok_alter; [|done].
    intros r' Hr' []. simplify_eq. destruct Hs as [e He]. split; simpl; try done.
    + by rewrite Ho.
    + by rewrite He.
  - eapply evolves_trans; [exact Hev|]. eapply evolves_alter; [reflexivity|]. done.
  - simpl. rewrite od_get_alter, decide_True, Hr by done. simpl. split; [set_solver|].
    intros _. destruct Hok1 as [[_ Hrecs _] _]. pose proof (ro_cause _ _ (Hrecs id r Hr)) as Hc.
    unfold state. simpl. destruct (terminal_cause r); [naive_solver|].
    destruct Hs as [e He]. by rewrite He, Ho.
Qed.

(** *** Native resets *)
Lemma invalidate_get id s :
  od_get id (records (invalidate_snapshots s)) =
    (λ r, set_pending_evaluation false (set_snapshot None r)) <$> od_get id (records s).
Proof.
  unfold invalidate_snapshots. simpl.
  induction (records s) as [|[j r] l IH]; simpl; [done|]. by case_decide.
Qed.

Lemma invalidate_good s : reg_ok s → reg_ok (invalidate_snapshots s) ∧ evolves s (invalidate_snapshots s).
Proof.
  intros [[Hwf Hrecs Hh] Hcov]. split; [split|].
  - split; [| |done].
    + unfold od_wf, od_keys, invalidate_snapshots in *. simpl.
      rewrite <-list_fmap_compose. exact Hwf.
    + intros j r. rewrite invalidate_get. destruct (od_get j (records s)) as [r0|] eqn:E; [|done].
      intros [= <-]. destruct (Hrecs j r0 E) as [? ? Ht ? ? ?]. split; simpl; try done.
      intros Hn. by destruct (Ht Hn) as (? & _).
  - eapply cover_ext; [| |exact Hcov]; [done|]. intros k. unfold held, invalidate_snapshots.
    simpl. rewrite map_map. done.
  - intros j. unfold phase. rewrite invalidate_get. by destruct (od_get j (records s)).
Qed.

(** *** Giving up ownership, and a new estimate of the restore *)
Lemma release_good s id : reg_ok s → good s (release id s).
Proof.
  intros Hok. destruct (release_ok s id Hok) as (s' & Hrun & Hok' & Hrec & Hf & _).
  exists tt, s'. split_and!; [done|done| |by apply frame_balanced].
  eapply evolves_alter; [exact Hrec|]. intros r _. apply phase_drop.
Qed.

Lemma set_h2d_estimate_good s id secs :
  reg_ok s → (∀ r, od_get id (records s) = Some r → started_at r ≠ None) → good s (set_h2d_estimate clock id secs s).
Proof.
  intros Hok Hst. destruct (od_get id (records s)) as [r|] eqn:Hr.
  - destruct (set_h2d_estimate_ok id secs s r Hok Hr (Hst r eq_refl)) as (d & s' & Hrun & Hok' & Hb & Hrec).
    exists tt, s'. split_and!; [done|done| |done].
    destruct Hrec as [Hrec|Hrec]; (eapply evolves_alter; [exact Hrec|]); intros r' _; [done|].
    apply (phase_drop (set_release_deadline d r')).
  - exists tt, s. split_and!; [|done|by apply evolves_refl|apply balanced_refl].
    unfold set_h2d_estimate, get_record, gets. by rewrite bind_unfold, Hr.
Qed.

Lemma release_empty s id r :
  od_get id (records s) = Some r → retained r = ∅ →
  release id s = Ret tt (put_records (od_alter drop_ownership id (records s)) s).
Proof.
  intros Hr He. unfold release, get_record, gets. rewrite bind_unfold, Hr, bind_unfold.
  by rewrite decide_True.
Qed.

Lemma terminalize_empty s id cause now :
  (∀ r, od_get id (records s) = Some r → retained r = ∅) →
  ∃ s', terminalize id cause now s = Ret tt s' ∧ manager s' = manager s
    ∧ history s' = history s ∧ records s' = od_alter (terminate cause now) id (records s).
Proof.
  intros He. unfold terminalize, get_record, gets. rewrite bind_unfold.
  destruct (od_get id (records s)) as [r|] eqn:Hr.
  2:{ exists s. by rewrite od_alter_absent. }
  destruct (terminal_at r) as [t|] eqn:Ht; simpl.
  { exists s. split_and!; try done. rewrite (od_alter_ext _ (λ r, r)), od_alter_id; [done|].
    intros r' Hr'. simplify_eq. unfold terminate. by rewrite Ht. }
  rewrite bind_unfold, (release_empty s id r) by auto. rewrite bind_unfold.
  unfold update, modify.
  destruct (count_named_cause cause (put_records (od_alter (close cause now) id
    (records (put_records (od_alter drop_ownership id (records s)) s)))
    (put_records (od_alter drop_ownership id (records s)) s))) as [mt ->].
  eexists. split; [reflexivity|]. split_and!; try done. simpl. rewrite od_alter_alter.
  apply od_alter_ext. intros r' Hr'. simplify_eq. unfold terminate. by rewrite Ht.
Qed.

(** After the native cache has been reset the counts that backed the records
    are gone: the accounting invariant does not hold on entry, and the
    operation must restore it without touching the manager. *)
Lemma external_reset_fold ids s now :
  reg_base s → (∀ id r, od_get id (records s) = Some r → id ∉ ids →
                  retained r = ∅ ∧ terminal_at r ≠ None) →
  ∃ s', forM ids (λ id, update id (set_retained ∅) ;; terminalize id t_reset now) s = Ret tt s'
    ∧ reg_base s' ∧ evolves s s' ∧ manager s' = manager s
    ∧ od_keys (records s') = od_keys (records s)
    ∧ ∀ id r, od_get id (records s') = Some r → retained r = ∅ ∧ terminal_at r ≠ None.
Proof.
  revert s. induction ids as [|id ids IH]; intros s Hb Hrest; cbn [forM].
  { exists s. split_and!; try done; [by apply evolves_refl|].
    intros id r Hr. eapply Hrest; [exact Hr|set_solver]. }
  set (step := λ r, terminate t_reset now (set_retained ∅ r)).
  assert (∃ s1, (update id (set_retained ∅) ;; terminalize id t_reset now) s = Ret tt s1
    ∧ manager s1 = manager s ∧ history s1 = history s
    ∧ records s1 = od_alter step id (records s)) as (s1 & Hrun & Hm1 & Hh1 & Hrec1).
  { rewrite bind_unfold. unfold update at 1, modify at 1. set (s0 := put_records _ s).
    destruct (terminalize_empty s0 id t_reset now) as (s1 & Hrun & Hm1 & Hh1 & Hrec1).
    { intros r. simpl. rewrite od_get_alter, decide_True by done.
      destruct (od_get id (records s)); [|done]. by intros [= <-]. }
    exists s1. split_and!; [done|done|done|]. rewrite Hrec1. simpl. by rewrite od_alter_alter. }
  rewrite bind_unfold, Hrun.
  assert (∀ j r, rec_ok j r → rec_ok j (step r)) as Hstep.
  { intros j r Hr. apply terminate_ok. destruct Hr. split; simpl; try done; naive_solver. }
  destruct (IH s1) as (s2 & Hrun2 & Hb2 & Hev2 & Hm2 & Hk2 & Hall2).
  - destruct Hb as [Hwf Hrecs Hh]. split; [rewrite Hrec1; by apply od_wf_alter| |by rewrite Hh1].
    rewrite Hrec1. apply rec_ok_alter; [|done]. auto.
  - intros j r. rewrite Hrec1, od_get_alter. case_decide as Hj.
    + subst. destruct (od_get j (records s)) as [r0|]; [|done]. intros [= <-] _.
      unfold step, terminate. simpl. by destruct (terminal_at r0) eqn:E; simpl; rewrite ?E.
    + intros Hr Hni. eapply Hrest; [exact Hr|set_solver].
  - exists s2. split_and!; [done|done| |congruence| |done].
    + eapply evolves_trans; [|exact Hev2]. eapply evolves_alter; [exact Hrec1|].
      intros r Hr. apply (phase_terminate id (set_retained ∅ r)).
      destruct (rb_recs s Hb id r Hr). split; simpl; try done; naive_solver.
    + rewrite Hk2, Hrec1. apply od_keys_alter.
Qed.

Lemma held_zero recs k :
  od_wf recs → (∀ id r, od_get id recs = Some r → k ∉ retained r) → held recs k = 0.
Proof.
  unfold held. induction recs as [|[j r] recs IH]; simpl; [done|].
  intros [Hj Hw]%od_wf_cons Hall. rewrite IH; [|done|].
  - unfold held1. rewrite decide_False; [lia|]. apply (Hall j). by rewrite decide_True.
  - intros id r' Hr'. apply (Hall id). rewrite decide_False; [done|]. congruence.
Qed.
Lemma external_reset_ok s :
  reg_base s →
  ∃ s', external_reset_succeeded clock s = Ret tt s' ∧ reg_base s' ∧ manager s' = manager s
    ∧ od_keys (records s') = od_keys (records s) ∧ evolves s s'
    ∧ ∀ id r, od_get id (records s') = Some r → retained r = ∅ ∧ terminal_at r ≠ None.
Proof.
  intros Hb. unfold external_reset_succeeded, read_clock, gets.
  rewrite bind_unfold, bind_unfold. set (s0 := put_tick _ s).
  destruct (external_reset_fold (od_keys (records s0)) s0 (clock (tick s)))
    as (s' & Hrun & Hb' & Hev & Hm' & Hk' & Hall).
  { destruct Hb. by split. }
  { intros id r Hr Hni. apply od_get_None in Hni. congruence. }
  by exists s'.
Qed.

(** The native cache is reset first; with it go the counts that backed the
    records, and with them the claims of the records. *)
Lemma reset_registry_ok s :
  reg_ok s →
  ∃ s', external_reset_succeeded clock (put_manager (CPUManager.reset_cache <$> manager s) s) = Ret tt s'
    ∧ reg_ok s' ∧ evolves s s'.
Proof.
  intros [[Hwf Hrecs Hh] Hcov]. set (s0 := put_manager _ s).
  destruct (external_reset_ok s0) as (s' & Hrun & Hb' & Hm' & _ & Hev & Hall); [by split|].
  exists s'. split_and!; [done| |exact Hev]. split; [done|].
  assert (∀ k, held (records s') k = 0) as Hzero.
  { intros k. apply held_zero; [apply Hb'|]. intros id r Hr. destruct (Hall id r Hr) as [-> _]. set_solver. }
  unfold cover in *. rewrite Hm'. unfold s0. cbn [put_manager manager]. destruct (manager s) as [m|]; [|done].
  destruct Hcov as [Hm _]. split; [by apply reset_wf|]. intros k. rewrite Hzero. lia.
Qed.
End Facts.

(** ** Properties *)
Section Properties.
Context {F : Type} `{FloatOps F, FloatInf F}.
Context {P : Type} `{CachePolicyLaws P} `{SnapshotLaw}.
Context (clock : nat → F).
Implicit Types (s : LifecycleRegistry F P).

(** The calls of the scheduler and of the coordinator on the registry; a reset
    of the native cache comes with the report that it succeeded. *)
Inductive reg_call :=
  | RAssociate (request_id : string) (d : TokenCakeMetadata F)
  | RGenerationFinished (id : string) (cause : GenerationCause) (snap : option PrefixSnapshot)
  | RApply (ev : LifecycleEvent F)
  | RRetainReady (id : string) (keys : gset OffloadKey)
  | RRelease (id : string)
  | RSetH2dEstimate (id : string) (seconds : F)
  | RExpire
  | RInvalidate
  | RReset.

Definition run_reg (c : reg_call) s : outcome (LifecycleRegistry F P) unit :=
  match c with
  | RAssociate rid d => associate clock rid d s
  | RGenerationFinished id cause snap => generation_finished clock id cause snap s
  | RApply ev => (apply clock ev ;; mret tt) s
  | RRetainReady id keys => (retain_ready clock id keys ;; mret tt) s
  | RRelease id => release id s
  | RSetH2dEstimate id seconds => set_h2d_estimate clock id seconds s
  | RExpire => expire clock s
  | RInvalidate => Ret tt (invalidate_snapshots s)
  | RReset => external_reset_succeeded clock (put_manager (CPUManager.reset_cache <$> manager s) s)
  end.

(** Retaining needs a manager and head-room in the 32-bit counters; an estimate
    is for a stall that has started; snapshots are as they should be. *)
Definition reg_call_ok (c : reg_call) s : Prop :=
  match c with
  | RRetainReady _ _ => is_Some (manager s) ∧ room s
  | RSetH2dEstimate id _ => ∀ r, od_get id (records s) = Some r → started_at r ≠ None
  | RGenerationFinished _ _ snap => ∀ p, snap = Some p → snap_ok p
  | _ => True
  end.

(** A phase reached from [p] by the call [c], for the lifecycle [id]. *)
Definition phase_after (c : reg_call) (id : string) (p p' : option LifecycleState) : Prop :=
  rtc phase_step p p'
  ∨ ∃ rid d, c = RAssociate rid d ∧ lifecycle_id d = id ∧ rtc phase_step p None
      ∧ p' = Some Generating.

Lemma run_reg_balanced c s : reg_ok s → reg_call_ok c s → c ≠ RReset → balanced s (out_state (run_reg c s)).
Proof.
  intros Hok Hc Hreset. destruct c; cbn [run_reg reg_call_ok] in *.
  - destruct (associate_ok clock request_id d s Hok) as (s1 & _ & _ & Ha).
    destruct (_ || _); destruct Ha as (s' & -> & _ & Hb & _); exact Hb.
  - destruct (generation_finished_good clock id cause snap s Hok Hc) as (? & s' & -> & _ & _ & Hb). exact Hb.
  - destruct (apply_ok clock ev s Hok) as (s1 & _ & res & s' & Hrun & _ & _ & Hb & _). rewrite bind_unfold, Hrun. exact Hb.
  - destruct Hc as [Hm Hroom]. destruct (retain_ready_ok clock id keys s Hok Hroom Hm) as (got & s' & Hrun & _ & _ & Hb & _).
    rewrite bind_unfold, Hrun. exact Hb.
  - destruct (release_good s id Hok) as (? & s' & -> & _ & _ & Hb). exact Hb.
  - destruct (set_h2d_estimate_good clock s id seconds Hok Hc) as (? & s' & -> & _ & _ & Hb). exact Hb.
  - destruct (expire_good clock s Hok) as (? & s' & -> & _ & _ & Hb). exact Hb.
  - apply balanced_same; [done|]. intros k. unfold held, invalidate_snapshots. cbn. by rewrite map_map.
  - done.
Qed.

Lemma run_reg_spec c s :
  reg_ok s → reg_call_ok c s →
  reg_ok (out_state (run_reg c s))
  ∧ (∀ id, phase_after c id (phase id s) (phase id (out_state (run_reg c s))))
  ∧ (returns (run_reg c s) = true ∨ ∃ rid d s', c = RAssociate rid d
       ∧ run_reg c s = Exc DuplicateLifecycleError s').
Proof.
  assert (∀ c s', evolves s s' → ∀ id, phase_after c id (phase id s) (phase id s')) as Hev
    by (by left).
  intros Hok Hc. destruct c; cbn [run_reg reg_call_ok] in *.
  - destruct (associate_ok clock request_id d s Hok) as (s1 & _ & Hev1 & Ha).
    destruct (od_mem (lifecycle_id d) (records s1)) eqn:Hm1;
      [|destruct (od_mem (lifecycle_id d) (generations s1)) eqn:Hm2]; simpl in Ha;
      destruct Ha as (s' & -> & Hok' & _ & Hrec & _); cbn [out_state returns];
      (split; [done|]); (split; [intros id|eauto 10]); unfold phase at 2; rewrite Hrec.
    + left. apply Hev1.
    + left. apply Hev1.
    + rewrite od_get_set. case_decide as Hid; [|left; apply Hev1].
      right. exists request_id, d. split_and!; try done. apply od_mem_false in Hm1. subst id.
      specialize (Hev1 (lifecycle_id d)). unfold phase in Hev1 at 2. by rewrite Hm1 in Hev1.
  - destruct (generation_finished_good clock id cause snap s Hok Hc) as (? & s' & -> & ? & ? & _);
      cbn; auto.
  - destruct (apply_ok clock ev s Hok) as (s1 & _ & res & s' & Hrun & ? & ? & _).
    rewrite bind_unfold, Hrun. cbn. auto.
  - destruct Hc as [Hm Hroom].
    destruct (retain_ready_ok clock id keys s Hok Hroom Hm) as (got & s' & Hrun & ? & ? & _).
    rewrite bind_unfold, Hrun. cbn. auto.
  - destruct (release_good s id Hok) as (? & s' & -> & ? & ? & _); cbn; auto.
  - destruct (set_h2d_estimate_good clock s id seconds Hok Hc) as (? & s' & -> & ? & ? & _); cbn; auto.
  - destruct (expire_good clock s Hok) as (? & s' & -> & ? & ? & _); cbn; auto.
  - destruct (invalidate_good s Hok). split_and!; [done|by apply Hev|by left].
  - destruct (reset_registry_ok clock s Hok) as (s' & -> & ? & ?); cbn; auto.
Qed.

Lemma phase_step_terminal cause p' :
  rtc phase_step (Some (Terminal cause)) p' → p' = Some (Terminal cause) ∨ p' = None.
Proof.
  intros Hs. apply rtc_inv in Hs as [<-|(q & Hq & Hrest)]; [by left|]. right.
  inv Hq; [naive_solver..|]. apply rtc_inv in Hrest as [<-|(q & Hq & _)]; [done|]. inv Hq.
Qed.

(** C12.  From a well-formed registry every call on it (association, end of a
    generation, event, retention, release, new estimate of the restore, expiry,
    invalidation of the snapshots, reset of the native cache) leaves it well
    formed: each reference a live lifecycle holds is backed by a counted
    reference of the CPU manager, a terminal or released one holds none, and
    the duration history stays within its limit.  So no call ever trips the
    manager's release assertion: the only exception that can leave the
    registry is the rejection of a duplicate generation.  Retention is asked
    of a registry that has a manager, with room in the 32-bit reference counts,
    and an estimate is for a stall that has started. *)
Theorem registry_calls_safe c s :
  reg_ok s → reg_call_ok c s →
  reg_ok (out_state (run_reg c s))
  ∧ (∀ e s', run_reg c s = Exc e s' →
       e = DuplicateLifecycleError ∧ ∃ rid d, c = RAssociate rid d).
Proof.
  intros Hok Hc. destruct (run_reg_spec c s Hok Hc) as (Hok' & _ & Hr). split; [done|].
  intros e s' Hrun. rewrite Hrun in Hr. destruct Hr as [|(rid & d & s'' & ? & ?)]; [done|].
  naive_solver.
Qed.

(** C16.  Under every call on a well-formed registry (the same calls, under the
    same conditions, a reset of the native cache included), a lifecycle moves
    only along the phase diagram (generating, awaiting its stall, active,
    released, terminal); only the association of a new generation creates one,
    and only where none is recorded.  A terminal lifecycle never comes back to
    life: short of a new association it stays terminal with the same cause or
    its tombstone is dropped. *)
Theorem registry_phases c s id :
  reg_ok s → reg_call_ok c s →
  phase_after c id (phase id s) (phase id (out_state (run_reg c s)))
  ∧ ∀ cause, phase id s = Some (Terminal cause) →
      phase id (out_state (run_reg c s)) = Some (Terminal cause)
      ∨ phase id (out_state (run_reg c s)) = None
      ∨ ∃ rid d, c = RAssociate rid d ∧ lifecycle_id d = id.
Proof.
  intros Hok Hc. destruct (run_reg_spec c s Hok Hc) as (_ & Hev & _). split; [apply Hev|].
  intros cause Hp. destruct (Hev id) as [Hs|(rid & d & ? & ? & _)];
    [|right; right; by exists rid, d].
  rewrite Hp in Hs. apply phase_step_terminal in Hs. tauto.
Qed.

(** An expiry pass is the pointwise application of
    [expire_record] at one clock reading: a tombstone is dropped 60 seconds
    after its end, a stall is closed at its safety deadline and gives up its
    blocks at its release deadline, a completed generation waits 60 seconds
    for its stall; every other lifecycle is untouched.  The pass never fails
    and keeps the generations associated. *)
Theorem expire_refines s :
  reg_ok s →
  ∃ s', expire clock s = Ret tt s'
    ∧ (∀ id, od_get id (records s') = od_get id (records s) ≫= expire_record (clock (tick s)))
    ∧ generations s' = generations s ∧ tick s' = S (tick s).
Proof.
  intros Hok. destruct (expire_ok clock s Hok) as (s' & ? & _ & (_ & ? & _) & ? & ?).
  exists s'. by split_and!.
Qed.

(** C20.  The answer to an event, on every branch: after the expiry pass
    an unknown lifecycle answers 404; a repeated start is a duplicate and any
    other start of a started or closed one conflicts (409); a finish
    before any start conflicts, and after the end it is a duplicate or late.
    Only an applied event changes a record, the preserved blocks or the
    history, and the reported state is the one the event left. *)
Theorem apply_answers ev s :
  reg_ok s →
  ∃ s1 res s', expire clock s = Ret tt s1 ∧ apply clock ev s = Ret res s'
    ∧ res_state res = phase (ev_lifecycle_id ev) s'
    ∧ match od_get (ev_lifecycle_id ev) (records s1) with
      | None => (res_disposition res, res_status_code res) = (unknown, 404)
      | Some r => (res_disposition res, res_status_code res) = decision r ev
      end
    ∧ (res_disposition res ≠ applied → records s' = records s1).
Proof.
  intros Hok. destruct (apply_ok clock ev s Hok) as (s1 & He & res & s' & Ha & _ & _ & _ & _ & _ & Hst & Hc).
  exists s1, res, s'. split; [done|]. split; [done|]. split; [done|].
  destruct (od_get _ (records s1)).
  - destruct Hc as [Hd Hsame]. split; [done|]. intros Hne. by apply Hsame.
  - destruct Hc as (-> & -> & ->). done.
Qed.

(** A generation is associated exactly when its lifecycle identifier
    is neither recorded nor held by a live generation; otherwise the call
    raises and no record and no association changes. *)
Theorem associate_exclusive rid (d : TokenCakeMetadata F) s :
  reg_ok s →
  ∃ s1 s', expire clock s = Ret tt s1
    ∧ (if decide (lifecycle_id d ∈ od_keys (records s1) ∨ lifecycle_id d ∈ od_keys (generations s1))
       then associate clock rid d s = Exc DuplicateLifecycleError s'
            ∧ records s' = records s1 ∧ generations s' = generations s1
       else associate clock rid d s = Ret tt s'
            ∧ phase (lifecycle_id d) s' = Some Generating
            ∧ od_get (lifecycle_id d) (generations s') = Some rid).
Proof.
  intros Hok. destruct (associate_ok clock rid d s Hok) as (s1 & He & _ & Ha).
  destruct (od_mem (lifecycle_id d) (records s1)) eqn:Hm1; [|destruct (od_mem (lifecycle_id d) (generations s1)) eqn:Hm2];
    simpl in Ha; destruct Ha as (s' & Hrun & _ & _ & Hrec & Hgen); exists s1, s'; (split; [done|]).
  - apply od_mem_true in Hm1. rewrite decide_True by tauto. done.
  - apply od_mem_true in Hm2. rewrite decide_True by tauto. done.
  - apply od_mem_false, od_get_None in Hm1, Hm2. rewrite decide_False by tauto.
    unfold phase. rewrite Hrec, Hgen, !od_get_set, !decide_True by done. done.
Qed.

(** Once the native cache has been reset, closing the registry
    never fails although the blocks behind the references are gone; it leaves
    the manager alone, closes every lifecycle and restores the ownership
    invariant. *)
Theorem external_reset_restores s m :
  reg_base s → manager s = Some m → mgr_wf m →
  ∃ s', external_reset_succeeded clock s = Ret tt s' ∧ reg_ok s'
    ∧ manager s' = Some m
    ∧ ∀ id, is_Some (od_get id (records s)) → ∃ c, phase id s' = Some (Terminal c).
Proof.
  intros Hb Hm Hmwf. destruct (external_reset_ok clock s Hb) as (s' & Hrun & Hb' & Hm' & Hk' & _ & Hall).
  exists s'. split; [exact Hrun|]. split_and!.
  - split; [done|]. unfold cover. rewrite Hm', Hm. split; [done|].
    intros k. rewrite held_zero; [lia|apply Hb'|]. intros id r Hr.
    destruct (Hall id r Hr) as [-> _]. set_solver.
  - by rewrite Hm'.
  - intros id Hid. apply od_get_is_Some in Hid. rewrite <-Hk' in Hid.
    apply od_get_is_Some in Hid as [r Hr]. unfold phase. rewrite Hr. simpl.
    destruct (Hall id r Hr) as [_ Ht]. pose proof (ro_cause _ _ (rb_recs _ Hb' id r Hr)) as Hc.
    unfold state. destruct (terminal_cause r) as [c|]; [by exists c|naive_solver].
Qed.

(** The safety deadline of a stall lies one minute to one hour
    after its start, whatever duration was predicted, a NaN included. *)
Theorem safety_horizon_bounds (predicted : F) :
  let h := safety_horizon predicted in
  h = f_of_Z 60 ∨ h = f_of_Z 3600
  ∨ (fltb (f_of_Z 60) h = true ∧ fltb h (f_of_Z 3600) = true).
Proof.
  intros h. destruct (clamp_cases (f_of_Z 60) (f_of_Z 3600) (fmul (f_of_Z 4) predicted))
    as [Hc|[[Hc _]|(Hc & ? & ?)]]; unfold h, safety_horizon; rewrite Hc; auto.
Qed.
End Properties.
Arguments reg_call : clear implicits.

(** In exact arithmetic, with a weight in (0, 1], the learned duration
    lies between the previous estimate and the new sample. *)
Theorem learned_between (alpha sample previous : Q) key h :
  (0 < alpha)%Q → (alpha <= 1)%Q → od_get key h = Some previous →
  ∃ v, od_get key (learn_history alpha key sample h) = Some v
    ∧ ((previous <= sample → previous <= v <= sample)
       ∧ (sample <= previous → sample <= v <= previous))%Q.
Proof.
  intros H0 H1 Hk. unfold learn_history. rewrite Hk, od_get_set, decide_True by done.
  eexists. split; [reflexivity|]. cbn. split; intros Hle; split; unfold inject_Z; nra.
Qed.

(** ** Witnesses *)
#[local] Instance any_snapshot : SnapshotLaw := λ _, True.
Definition demo_clock (n : nat) : b64 := f_of_Z (100 + Z.of_nat n).
Definition demo_id : string := "tc-0123456789ab4def8123456789abcdef".
Definition demo_metadata : TokenCakeMetadata b64 := default_metadata demo_id.
Definition demo_registry : LifecycleRegistry b64 LRU.t :=
  registry_init default_offload (Some demo_manager).
Definition demo_start : LifecycleEvent b64 := mkLifecycleEvent stall_started demo_id "tool" (Some (f_of_Z 30)).

Lemma registry_init_ok : reg_ok demo_registry.
Proof.
  split; [split; [apply od_wf_nil|done|split; [apply od_wf_nil|vm_compute; discriminate]]|].
  split; [apply demo_wf|]. intros k. unfold held. simpl. lia.
Qed.

(** A registry with one active stall. *)
Definition demo_active : LifecycleRegistry b64 LRU.t :=
  out_state (run_reg demo_clock (RApply demo_start)
    (out_state (run_reg demo_clock (RAssociate "r1" demo_metadata) demo_registry))).

Lemma demo_active_ok : reg_ok demo_active.
Proof.
  apply (run_reg_spec demo_clock (RApply demo_start)); [|done].
  by apply (run_reg_spec demo_clock (RAssociate "r1" demo_metadata)); [apply registry_init_ok|].
Qed.

Lemma registry_calls_safe_witness :
  phase demo_id demo_active = Some Active
  ∧ reg_ok (out_state (run_reg demo_clock (RRetainReady demo_id {[ [1] ]}) demo_active)).
Proof.
  split; [vm_compute; reflexivity|].
  apply (registry_calls_safe demo_clock (RRetainReady demo_id {[ [1] ]}) demo_active).
  - apply demo_active_ok.
  - split; [vm_compute; eexists; reflexivity|]. intros m k b Hm Hb.
    assert (m = demo_manager) as -> by (vm_compute in Hm; vm_compute; congruence).
    apply od_get_elem in Hb. vm_compute in Hb.
    apply list_elem_of_singleton in Hb. simplify_eq. vm_compute; reflexivity.
Defined.

(** A reset ends the active stall; the cause stays what it was. *)
Definition demo_reset : LifecycleRegistry b64 LRU.t := out_state (run_reg demo_clock RReset demo_active).

Lemma registry_phases_witness :
  phase demo_id demo_reset = Some (Terminal t_reset)
  ∧ (phase demo_id (out_state (run_reg demo_clock RExpire demo_reset)) = Some (Terminal t_reset)
     ∨ phase demo_id (out_state (run_reg demo_clock RExpire demo_reset)) = None).
Proof.
  assert (phase demo_id demo_reset = Some (Terminal t_reset)) as Hp by (vm_compute; reflexivity).
  split; [exact Hp|].
  destruct (registry_phases demo_clock RExpire demo_reset demo_id) as [_ Ht].
  - by apply (run_reg_spec demo_clock RReset); [apply demo_active_ok|].
  - done.
  - destruct (Ht t_reset Hp) as [?|[?|(? & ? & [=] & _)]]; [by left|by right].
Defined.

Lemma expire_refines_witness :
  ∃ s', expire (λ _, f_of_Z 1000) demo_active = Ret tt s'
    ∧ od_get demo_id (records s') =
        od_get demo_id (records demo_active) ≫= expire_record (f_of_Z 1000).
Proof.
  destruct (expire_refines (λ _, f_of_Z 1000) demo_active) as (s' & Hr & Hg & _).
  - apply demo_active_ok.
  - exists s'. split; [exact Hr|apply Hg].
Defined.

Lemma apply_answers_witness :
  ∃ s1 res s', expire demo_clock demo_active = Ret tt s1
    ∧ apply demo_clock demo_start demo_active = Ret res s'
    ∧ res_state res = phase demo_id s'.
Proof.
  destruct (apply_answers demo_clock demo_start demo_active) as (s1 & res & s' & He & Ha & Hs & _).
  - apply demo_active_ok.
  - exists s1, res, s'. auto.
Defined.

Lemma associate_exclusive_witness :
  ∃ s', associate demo_clock "r2" demo_metadata demo_active = Exc DuplicateLifecycleError s'.
Proof.
  destruct (associate_exclusive demo_clock "r2" demo_metadata demo_active) as (s1 & s' & He & Ha).
  - apply demo_active_ok.
  - exists s'. assert (demo_id ∈ od_keys (records s1)) as Hin.
    { apply od_mem_true. replace s1 with (out_state (expire demo_clock demo_active)) by (by rewrite He).
      vm_compute. reflexivity. }
    change (lifecycle_id demo_metadata) with demo_id in Ha.
    rewrite decide_True in Ha by (by left). apply Ha.
Defined.

Lemma external_reset_restores_witness :
  ∃ s', external_reset_succeeded demo_clock demo_active = Ret tt s'
    ∧ ∃ c, phase demo_id s' = Some (Terminal c).
Proof.
  destruct (external_reset_restores demo_clock demo_active demo_manager) as (s' & Hr & _ & _ & Ht).
  - exact (proj1 demo_active_ok).
  - vm_compute; reflexivity.
  - apply demo_wf.
  - exists s'. split; [exact Hr|]. apply Ht. vm_compute; eexists; reflexivity.
Defined.

Lemma learned_between_witness :
  ∃ v, od_get ("type", "a", "t") (learn_history (1 # 2)%Q ("type", "a", "t") 4%Q
         [(("type", "a", "t"), 2%Q)]) = Some v ∧ (2 <= v <= 4)%Q.
Proof.
  destruct (learned_between (1 # 2) 4 2 ("type", "a", "t") [(("type", "a", "t"), 2%Q)])
    as (v & Hv & Hb & _).
  - reflexivity.
  - discriminate.
  - reflexivity.
  - exists v. split; [exact Hv|]. apply Hb. discriminate.
Defined.
