(* ===== verification/RetentionFacts.v ===== *)
(** * Retention of prefixes by lifecycles

    A lifecycle that owns its preservation loses none of the CPU blocks it holds
    or waits for, and [retain_ready] gives it all of the keys it is called for
    that are in CPU memory. *)
From S2P Require Import Prelude PyFloat Metrics CachePolicy CPUManager Protocol Config Lifecycle LifecycleFacts.
Local Open Scope Z_scope.
Import Registry.

Section retention.
Context {F : Type} `{FloatOps F, FloatInf F}.
Context {P : Type} `{CachePolicyLaws P} `{SnapshotLaw}.
Context (clock : nat → F).
Implicit Types (r : Lifecycle F) (s : LifecycleRegistry F P) (recs : odict string (Lifecycle F)).

(** What a lifecycle holds or waits for. *)
Definition wanted r : gset OffloadKey := retained r ∪ pending_retention r.

(** Lifecycles wait for nothing new, and those that still own their preservation
    did before and have lost nothing. *)
Definition conserves recs recs' : Prop := ∀ id r', od_get id recs' = Some r' →
  ∃ r, od_get id recs = Some r ∧ pending_retention r' ⊆ pending_retention r
    ∧ (owns_preservation r' = true → owns_preservation r = true ∧ wanted r ⊆ wanted r').

Lemma conserves_refl recs : conserves recs recs.
Proof. intros id r Hr. by exists r. Qed.

Lemma conserves_trans recs1 recs2 recs3 : conserves recs1 recs2 → conserves recs2 recs3 → conserves recs1 recs3.
Proof.
  intros H12 H23 id r3 (r2 & Hr2 & Hp23 & Ho23)%H23. destruct (H12 id r2 Hr2) as (r1 & Hr1 & Hp12 & Ho12).
  exists r1. split; [done|]. split; [by etrans|]. intros [Ho2 Hw2]%Ho23. destruct (Ho12 Ho2) as [? ?]. split; [done|by etrans].
Qed.

Lemma conserves_alter f id recs :
  (∀ r, od_get id recs = Some r → pending_retention (f r) ⊆ pending_retention r
     ∧ (owns_preservation (f r) = true → owns_preservation r = true ∧ wanted r ⊆ wanted (f r))) →
  conserves recs (od_alter f id recs).
Proof.
  intros Hf i r'. rewrite od_get_alter. case_decide as Hi; [|by exists r'].
  subst i. intros (r & Hr & ->)%fmap_Some. exists r. split; [done|by apply Hf].
Qed.

Lemma drop_ownership_disowns r : owns_preservation (drop_ownership r) = false.
Proof. unfold drop_ownership, owns_preservation. cbn. by rewrite andb_false_r. Qed.

Lemma expire_record_conserves now r r' : expire_record now r = Some r' →
  pending_retention r' ⊆ pending_retention r ∧ (owns_preservation r' = true → r' = r).
Proof.
  assert (∀ c, owns_preservation (close c now (drop_ownership r)) ≠ true) as Hc
    by (intros c; unfold owns_preservation, close; cbn; by rewrite andb_false_r).
  unfold expire_record. intros He. repeat case_match; simplify_eq; (split; [done || apply empty_subseteq|]);
    try done; try (by intros ?%Hc); by rewrite drop_ownership_disowns.
Qed.

Lemma expire_conserves recs recs' now :
  (∀ id, od_get id recs' = od_get id recs ≫= expire_record now) → conserves recs recs'.
Proof.
  intros Hall id r'. rewrite Hall. intros (r & Hr & He)%bind_Some. exists r. split; [done|].
  destruct (expire_record_conserves now r r' He) as [? Ho]. split; [done|]. intros Ho'. by rewrite <- (Ho Ho').
Qed.

(** What [retain_ready] does after the expiry it starts with. *)
Lemma retain_ready_exact id keys s s1 :
  expire clock s = Ret tt s1 →
  match od_get id (records s1), manager s1 with
  | Some r, Some m =>
      if owns_preservation r then
        let got := CPUManager.retain (keys ∖ retained r) m in
        retain_ready clock id keys s
        = Ret got.1 (put_records (od_alter (λ r, set_retained (retained r ∪ got.1) r) id (records s1)) (put_manager (Some got.2) s1))
      else retain_ready clock id keys s = Ret ∅ s1
  | None, _ => retain_ready clock id keys s = Ret ∅ s1
  | _, _ => True
  end.
Proof.
  intros Hrun. unfold retain_ready. rewrite bind_unfold, Hrun. unfold get_record, gets. rewrite bind_unfold.
  destruct (od_get id (records s1)) as [r|]; [|done]. destruct (manager s1) as [m|] eqn:Hm; [|done].
  destruct (owns_preservation r); [|done]. cbn [negb]. cbv zeta. rewrite get_bind, Hm. by destruct (CPUManager.retain _ m).
Qed.

(** A lifecycle that owns its preservation holds, after [retain_ready], every
    one of the keys that are in CPU memory. *)
Lemma retain_ready_keeps id keys s got s' :
  reg_ok s → retain_ready clock id keys s = Ret got s' → is_Some (manager s) →
  conserves (records s) (records s')
  ∧ ∀ r', od_get id (records s') = Some r' → owns_preservation r' = true →
      ∀ k, k ∈ keys → (∀ s1, expire clock s = Ret tt s1 → ∃ m, manager s1 = Some m ∧ ready_key m k) → k ∈ retained r'.
Proof.
  intros Hok Hret Hman. destruct (expire_ok clock s Hok) as (s1 & Hrun & Hok1 & Hf & _ & Hg).
  pose proof (expire_conserves _ _ _ Hg) as Hcons. pose proof (retain_ready_exact id keys s s1 Hrun) as Hex.
  destruct Hf as (_ & _ & _ & _ & Hman1 & _). destruct (Hman1 Hman) as [m Hm]. rewrite Hm in Hex.
  destruct (od_get id (records s1)) as [r|] eqn:Hr.
  2:{ rewrite Hret in Hex. injection Hex as -> ->. split; [done|]. intros r' Hr'. congruence. }
  destruct (owns_preservation r) eqn:Ho.
  2:{ rewrite Hret in Hex. injection Hex as -> ->. split; [done|]. intros r' Hr'. congruence. }
  cbv zeta in Hex. rewrite Hret in Hex. injection Hex as -> ->.
  destruct (CPUManager.retain (keys ∖ retained r) m) as [g m'] eqn:Hg'. cbn [fst snd put_records put_manager records].
  split.
  - eapply conserves_trans; [exact Hcons|]. apply conserves_alter. intros r0 Hr0. assert (r0 = r) as -> by congruence.
    cbn. split; [done|]. intros _. split; [done|]. unfold wanted. cbn. set_solver.
  - intros r'. rewrite od_get_alter, decide_True, Hr by done. intros [= <-] _ k Hk Hready. cbn.
    destruct (decide (k ∈ retained r)) as [|Hn]; [by apply elem_of_union; left|]. apply elem_of_union. right.
    destruct (Hready s1 Hrun) as (m0 & Hm0 & Hrk). assert (m0 = m) as -> by congruence.
    destruct Hok1 as [_ Hc]. unfold cover in Hc. rewrite Hm in Hc.
    destruct (retain_spec _ _ _ _ (proj1 Hc) Hg') as (_ & -> & _). apply elem_of_filter. split; [done|set_solver].
Qed.
End retention.
