(* ===== verification/FreeQueue.v ===== *)
(** * The free-block queue ([FreeKVCacheBlockQueue], [vllm/v1/core/kv_cache_utils.py])

    The queue threads the blocks of the pool on a doubly linked list through
    the attributes [prev_free_block] and [next_free_block] of the block
    objects, between two fake blocks.  The store is those two attributes, as
    maps from objects to objects (an absent entry is [None]); a block of the
    pool is named by its index.  The section [Refinement] shows that the
    pointer operations implement the operations on a list of blocks. *)
From S2P Require Import Prelude.

(** A [KVCacheBlock] object: the fake head, the fake tail or a pool block. *)
Inductive node := FakeHead | FakeTail | Block (b : nat).
#[export] Instance node_eq_dec : EqDecision node.
Proof. solve_decision. Defined.
#[export] Instance node_countable : Countable node.
Proof.
  apply (inj_countable'
    (λ n, match n with FakeHead => inl true | FakeTail => inl false | Block b => inr b end)
    (λ s : bool + nat, match s with inl true => FakeHead | inl false => FakeTail | inr b => Block b end)).
  by intros [].
Defined.

#[export] Instance Block_inj : Inj (=) (=) Block.
Proof. by intros ?? [= ->]. Qed.

Record FreeKVCacheBlockQueue := mkQueue {
  num_free_blocks : Z;
  prev_free_block : gmap node node;
  next_free_block : gmap node node
}.

(** Attribute assignments; [None] is stored by removing the entry. *)
Definition set_next (n : node) (v : option node) (q : FreeKVCacheBlockQueue) :=
  {| num_free_blocks := num_free_blocks q; prev_free_block := prev_free_block q;
     next_free_block := partial_alter (λ _, v) n (next_free_block q) |}.
Definition set_prev (n : node) (v : option node) (q : FreeKVCacheBlockQueue) :=
  {| num_free_blocks := num_free_blocks q;
     prev_free_block := partial_alter (λ _, v) n (prev_free_block q);
     next_free_block := next_free_block q |}.
Definition set_num (z : Z) (q : FreeKVCacheBlockQueue) :=
  {| num_free_blocks := z; prev_free_block := prev_free_block q;
     next_free_block := next_free_block q |}.

Definition get_next (n : node) (q : FreeKVCacheBlockQueue) : option node := next_free_block q !! n.
Definition get_prev (n : node) (q : FreeKVCacheBlockQueue) : option node := prev_free_block q !! n.

(** The body of the constructor's loop over [range(num_free_blocks)]. *)
Definition init_link (n : nat) (q : FreeKVCacheBlockQueue) (i : nat) : FreeKVCacheBlockQueue :=
  let q := if (0 <? i)%nat then set_prev (Block i) (Some (Block (i - 1))) q else q in
  if (i <? n - 1)%nat then set_next (Block i) (Some (Block (i + 1))) q else q.

(** [__init__] on the blocks of indices [0 .. n - 1]. *)
Definition queue_init (n : nat) : FreeKVCacheBlockQueue :=
  let q := foldl (init_link n) (mkQueue (Z.of_nat n) ∅ ∅) (seq 0 n) in
  if (0 <? n)%nat then
    set_next (Block (n - 1)) (Some FakeTail)
      (set_prev FakeTail (Some (Block (n - 1)))
        (set_prev (Block 0) (Some FakeHead) (set_next FakeHead (Some (Block 0)) q)))
  else set_prev FakeTail (Some FakeHead) (set_next FakeHead (Some FakeTail) q).

Abbreviation QM := (M FreeKVCacheBlockQueue).

Definition popleft : QM node :=
  q ← get_state;
  match get_next FakeHead q with
  | None | Some FakeTail =>
      assertM (num_free_blocks q =? 0)%Z ;; raise ValueError
  | Some first_block =>
      match get_next first_block q with
      | None => raise RuntimeError
      | Some second =>
          modify (set_next FakeHead (Some second)) ;;
          modify (set_prev second (Some FakeHead)) ;;
          modify (set_next first_block None) ;;
          modify (set_prev first_block None) ;;
          modify (λ q, set_num (num_free_blocks q - 1)%Z q) ;;
          mret first_block
      end
  end.

(** The loop of [popleft_n]: the popped blocks and the block after them. *)
Fixpoint pop_loop (n : nat) (curr_block : option node) : QM (list node * option node) :=
  match n with
  | O => mret ([], curr_block)
  | S n' =>
      match curr_block with
      | None => raise AssertionError
      | Some last_block =>
          q ← get_state;
          modify (set_prev last_block None) ;;
          modify (set_next last_block None) ;;
          r ← pop_loop n' (get_next last_block q);
          mret (last_block :: r.1, r.2)
      end
  end.

Definition popleft_n (n : Z) : QM (list node) :=
  if (n =? 0)%Z then mret []
  else
    q ← get_state;
    assertM (n <=? num_free_blocks q)%Z ;;
    modify (λ q, set_num (num_free_blocks q - n)%Z q) ;;
    r ← pop_loop (Z.to_nat n) (get_next FakeHead q);
    match r.2 with
    | Some curr_block =>
        modify (set_next FakeHead (Some curr_block)) ;;
        modify (set_prev curr_block (Some FakeHead))
    | None => mret tt
    end ;;
    mret r.1.

Definition remove (block : node) : QM unit :=
  q ← get_state;
  match get_prev block q, get_next block q with
  | Some p, Some n =>
      modify (set_next p (Some n)) ;;
      modify (set_prev n (Some p)) ;;
      modify (set_next block None) ;;
      modify (set_prev block None) ;;
      modify (λ q, set_num (num_free_blocks q - 1)%Z q)
  | _, _ => raise RuntimeError
  end.

Definition append (block : node) : QM unit :=
  q ← get_state;
  match get_prev FakeTail q with
  | None => raise RuntimeError
  | Some last_block =>
      modify (set_next last_block (Some block)) ;;
      modify (set_prev block (Some last_block)) ;;
      modify (set_next block (Some FakeTail)) ;;
      modify (set_prev FakeTail (Some block)) ;;
      modify (λ q, set_num (num_free_blocks q + 1)%Z q)
  end.

(** The loop of [append_n]: link [blocks] after [last_block]; the last one. *)
Fixpoint link_loop (blocks : list node) (last_block : node) (q : FreeKVCacheBlockQueue) :
    node * FreeKVCacheBlockQueue :=
  match blocks with
  | [] => (last_block, q)
  | block :: blocks' =>
      link_loop blocks' block
        (set_next last_block (Some block) (set_prev block (Some last_block) q))
  end.

Definition append_n (blocks : list node) : QM unit :=
  match blocks with
  | [] => mret tt
  | _ =>
      q ← get_state;
      match get_prev FakeTail q with
      | None => raise AssertionError
      | Some last_block =>
          let '(last_block, q') := link_loop blocks last_block q in
          put_state q' ;;
          modify (set_next last_block (Some FakeTail)) ;;
          modify (set_prev FakeTail (Some last_block)) ;;
          modify (λ q, set_num (num_free_blocks q + zlen blocks)%Z q)
      end
  end.

(** The traversal of [get_all_free_blocks]; [None] when the fuel runs out. *)
Fixpoint walk (fuel : nat) (curr_block : node) (q : FreeKVCacheBlockQueue) : option (list node) :=
  match get_next curr_block q with
  | None => Some []
  | Some n => match fuel with O => None | S f => cons curr_block <$> walk f n q end
  end.

Definition get_all_free_blocks (fuel : nat) : QM (option (list node)) :=
  q ← get_state;
  match get_next FakeHead q with
  | None => raise RuntimeError
  | Some first => mret (walk fuel first q)
  end.

(** The bounded traversal of [BlockPool.peek_free_block_frontier]. *)
Fixpoint peek (limit : nat) (block : option node) (q : FreeKVCacheBlockQueue) : list node :=
  match limit, block with
  | S l, Some (Block b) => Block b :: peek l (get_next (Block b) q) q
  | S l, Some FakeHead => FakeHead :: peek l (get_next FakeHead q) q
  | _, _ => []
  end.

(** ** Refinement to a list *)
Section Refinement.
Implicit Types (c A B X : list node) (a x : node) (l : list nat) (q : FreeKVCacheBlockQueue).

(** [b] directly follows [a] in [c]. *)
Fixpoint adj c a (b : node) : Prop :=
  match c with
  | x :: c' => (x = a ∧ head c' = Some b) ∨ adj c' a b
  | [] => False
  end.

Lemma adj_app c1 c2 a b :
  adj (c1 ++ c2) a b ↔
    adj c1 a b ∨ adj c2 a b ∨ (last c1 = Some a ∧ head c2 = Some b).
Proof.
  induction c1 as [|x [|y c1] IH]; simpl in *; [naive_solver|naive_solver|].
  rewrite IH. naive_solver.
Qed.

Lemma adj_snoc c x a b : adj (c ++ [x]) a b ↔ adj c a b ∨ (last c = Some a ∧ b = x).
Proof. rewrite adj_app. simpl. naive_solver. Qed.

Lemma adj_elem c a b : adj c a b → a ∈ c ∧ b ∈ c.
Proof.
  induction c as [|x c IH]; simpl; [done|]. intros [[-> Hh]|[??]%IH].
  - split; [set_solver|]. destruct c; simplify_eq/=. set_solver.
  - set_solver.
Qed.

Lemma last_elem {T} (s : list T) (y0 : T) : last s = Some y0 → y0 ∈ s.
Proof. intros [c' ->]%last_Some. set_solver. Qed.

Lemma head_elem {T} (s : list T) (y0 : T) : head s = Some y0 → y0 ∈ s.
Proof. destruct s; simpl; intros; simplify_eq. set_solver. Qed.

(** The last element has no successor, the first one no predecessor. *)
Lemma adj_last c a b : NoDup c → last c = Some a → ¬ adj c a b.
Proof.
  intros Hnd [c' ->]%last_Some [Ha|[Ha ->]]%adj_snoc; apply NoDup_app in Hnd as (_ & Hd & _).
  - apply adj_elem in Ha as [Ha _]. eapply Hd; [exact Ha|]. set_solver.
  - eapply Hd; [by apply last_elem|]. set_solver.
Qed.

Lemma adj_head c a b : NoDup c → head c = Some b → ¬ adj c a b.
Proof.
  destruct c as [|y c]; [done|]. intros Hnd [= ->]. simpl.
  apply NoDup_cons in Hnd as [Hn _]. intros [[_ Hh%head_elem]|[_ ?]%adj_elem]; done.
Qed.

Definition nx q a := next_free_block q !! a.
Definition pv q a := prev_free_block q !! a.

(** The two attributes spell the chain [c] and nothing else. *)
Record linked q c : Prop := {
  lk_nodup : NoDup c;
  lk_next a b : nx q a = Some b ↔ adj c a b;
  lk_prev a b : pv q b = Some a ↔ adj c a b
}.

Definition chain l : list node := FakeHead :: (Block <$> l) ++ [FakeTail].

(** The queue holds exactly the blocks [l], in this order. *)
Definition queue_repr q l : Prop := linked q (chain l) ∧ num_free_blocks q = zlen l.

Lemma linked_next_at q A p n B :
  linked q (A ++ B) → last A = Some p → head B = Some n → nx q p = Some n ∧ pv q n = Some p.
Proof. intros Hq HA HB. rewrite (lk_next _ _ Hq), (lk_prev _ _ Hq), adj_app. tauto. Qed.

Lemma linked_None q c : linked q c → 
  (∀ a, last c = Some a → nx q a = None) ∧ (∀ a, head c = Some a → pv q a = None).
Proof.
  intros Hq. split; intros a Ha; apply eq_None_not_Some; intros [b Hb].
  - apply (lk_next _ _ Hq) in Hb. by eapply adj_last in Hb; [|apply Hq|].
  - apply (lk_prev _ _ Hq) in Hb. by eapply adj_head in Hb; [|apply Hq|].
Qed.

Lemma linked_out q c a : linked q c → a ∉ c → nx q a = None ∧ pv q a = None.
Proof.
  intros Hq Ha. split; apply eq_None_not_Some; intros [b Hb].
  - by apply (lk_next _ _ Hq), adj_elem in Hb as [? _].
  - by apply (lk_prev _ _ Hq), adj_elem in Hb as [_ ?].
Qed.

(** Cutting a segment out of a chain. *)
Lemma linked_cut q q' A X B p n :
  linked q (A ++ X ++ B) → last A = Some p → head B = Some n →
  (∀ a, nx q' a = if decide (a ∈ X) then None else if decide (a = p) then Some n else nx q a) →
  (∀ a, pv q' a = if decide (a ∈ X) then None else if decide (a = n) then Some p else pv q a) →
  linked q' (A ++ B).
Proof.
  intros Hq HA HB Hn Hp. pose proof (lk_nodup _ _ Hq) as Hnd.
  assert (NoDup (A ++ B) ∧ (∀ a, a ∈ A ++ B → a ∉ X)) as [Hnd' Hout].
  { rewrite (Permutation_app_comm A), <-app_assoc in Hnd.
    apply NoDup_app in Hnd as (_ & HX & Hnd). rewrite Permutation_app_comm in Hnd.
    split; [done|]. intros a Ha Hx. apply (HX a Hx). set_solver. }
  split; [done| |].
  - intros a b. rewrite Hn. case_decide as Hx.
    { split; [done|]. intros [Ha _]%adj_elem. by destruct (Hout a). }
    case_decide as Ha; subst.
    + rewrite adj_app. split; [intros [= ->]; auto|].
      intros [H|[H|[_ H]]]; [| |congruence].
      * exfalso. eapply (adj_last A); [|done|done]. by apply NoDup_app in Hnd' as [? _].
      * exfalso. apply adj_elem in H as [H _]. apply NoDup_app in Hnd' as (_ & Hd & _).
        eapply Hd; [by apply last_elem|done].
    + rewrite (lk_next _ _ Hq), !adj_app. split.
      * intros [H|[[H|[H|[H _]]]|[H _]]]; [auto| |by auto| |congruence].
        { by apply adj_elem in H as [? _]. } { by apply last_elem in H. }
      * intros [H|[H|[H _]]]; [auto|auto|congruence].
  - intros a b. rewrite Hp. case_decide as Hx.
    { split; [done|]. intros [_ Hb]%adj_elem. by destruct (Hout b). }
    case_decide as Hb; subst.
    + rewrite adj_app. split; [intros [= ->]; auto|].
      intros [H|[H|[H _]]]; [| |congruence].
      * exfalso. apply adj_elem in H as [_ H]. apply NoDup_app in Hnd' as (_ & Hd & _).
        eapply Hd; [done|by apply head_elem].
      * exfalso. eapply (adj_head B); [|done|done]. by apply NoDup_app in Hnd' as (_ & _ & ?).
    + rewrite (lk_prev _ _ Hq), !adj_app. split.
      * intros [H|[[H|[H|[_ H]]]|[_ H]]]; [auto| |by auto|congruence|].
        { by apply adj_elem in H as [_ ?]. }
        { destruct X as [|y X]; simpl in H; [congruence|]. simplify_eq. set_solver. }
      * intros [H|[H|[_ H]]]; [auto|auto|congruence].
Qed.

(** A chain being extended at its end, whose last [next] and the tail's [prev]
    are stale. *)
Record opened q c e : Prop := {
  op_nodup : NoDup c;
  op_last : last c = Some e;
  op_next a b : a ≠ e → (nx q a = Some b ↔ adj c a b);
  op_prev a b : b ≠ FakeTail → (pv q b = Some a ↔ adj c a b)
}.

Lemma opened_step q q' c e x :
  opened q c e → FakeTail ∉ c → x ∉ c →
  (∀ a, nx q' a = if decide (a = e) then Some x else nx q a) →
  (∀ a, pv q' a = if decide (a = x) then Some e else pv q a) →
  opened q' (c ++ [x]) x.
Proof.
  intros Ho Ht Hx Hn Hp. pose proof (op_last _ _ _ Ho) as He. split.
  - apply NoDup_app. split_and!; [apply Ho|set_solver|apply NoDup_singleton].
  - by rewrite last_snoc.
  - intros a b Ha. rewrite Hn, adj_snoc, He. case_decide as Hae; subst.
    + split; [intros [= ->]; auto|]. intros [H|[_ ->]]; [|done].
      exfalso. by eapply (adj_last c); [apply Ho| |].
    + rewrite (op_next _ _ _ Ho) by done. naive_solver.
  - intros a b Hb. rewrite Hp, adj_snoc, He. case_decide as Hbx; subst.
    + split; [intros [= ->]; auto|]. intros [[_ H]%adj_elem|[[= ->] _]]; done.
    + rewrite (op_prev _ _ _ Ho) by done. naive_solver.
Qed.

Lemma opened_close q q' c e :
  opened q c e → FakeTail ∉ c →
  (∀ a, nx q' a = if decide (a = e) then Some FakeTail else nx q a) →
  (∀ a, pv q' a = if decide (a = FakeTail) then Some e else pv q a) →
  linked q' (c ++ [FakeTail]).
Proof.
  intros Ho Ht Hn Hp. assert (opened q' (c ++ [FakeTail]) FakeTail) as Ho'.
  { by eapply opened_step. }
  pose proof (op_last _ _ _ Ho) as He.
  assert (e ≠ FakeTail) by (intros ->; by apply Ht, last_elem).
  split; [apply Ho'| |].
  - intros a b. destruct (decide (a = FakeTail)) as [->|]; [|by apply Ho'].
    rewrite Hn, decide_False, (op_next _ _ _ Ho), adj_snoc by congruence.
    split; [auto|]. intros [Hb|[Hb _]]; [done|]. congruence.
  - intros a b. destruct (decide (b = FakeTail)) as [->|]; [|by apply Ho'].
    rewrite Hp, decide_True, adj_snoc by done. split; [intros [= ->]; auto|].
    intros [[_ Hb]%adj_elem|[Hb _]]; [done|congruence].
Qed.

Lemma linked_opened q c e :
  linked q (c ++ [FakeTail]) → last c = Some e → opened q c e ∧ FakeTail ∉ c.
Proof.
  intros Hq He. pose proof (lk_nodup _ _ Hq) as (Hnd & Hd & _)%NoDup_app.
  split; [|intros Ht; apply (Hd _ Ht); set_solver]. split; [done|done| |].
  - intros a b Ha. rewrite (lk_next _ _ Hq), adj_snoc. split; [|auto].
    intros [H|[H _]]; [done|congruence].
  - intros a b Hb. rewrite (lk_prev _ _ Hq), adj_snoc. split; [|auto]. by intros [H|[_ H]].
Qed.

(** *** The operations *)
Lemma next_set_next q n v a : nx (set_next n v q) a = if decide (a = n) then v else nx q a.
Proof.
  unfold nx. simpl. case_decide; subst; [apply lookup_partial_alter_eq|by apply lookup_partial_alter_ne].
Qed.
Lemma prev_set_prev q n v a : pv (set_prev n v q) a = if decide (a = n) then v else pv q a.
Proof.
  unfold pv. simpl. case_decide; subst; [apply lookup_partial_alter_eq|by apply lookup_partial_alter_ne].
Qed.
Lemma next_set_prev q n v a : nx (set_prev n v q) a = nx q a.
Proof. done. Qed.
Lemma prev_set_next q n v a : pv (set_next n v q) a = pv q a.
Proof. done. Qed.
Lemma next_set_num q z a : nx (set_num z q) a = nx q a.
Proof. done. Qed.
Lemma prev_set_num q z a : pv (set_num z q) a = pv q a.
Proof. done. Qed.

Create HintDb links.
Hint Rewrite next_set_num prev_set_num next_set_next prev_set_next
  next_set_prev prev_set_prev : links.
(** Read the attributes after a series of assignments. *)
Ltac links := intros; autorewrite with links; repeat case_decide.

Lemma block_elem (b : nat) l : Block b ∈ (Block <$> l) ↔ b ∈ l.
Proof. rewrite list_elem_of_fmap. naive_solver. Qed.

Lemma elem_block1 a (b : nat) : a ∈ Block <$> [b] ↔ a = Block b.
Proof. simpl. by rewrite list_elem_of_singleton. Qed.

Lemma chain_nodup l : NoDup (chain l) ↔ NoDup l.
Proof.
  unfold chain. rewrite NoDup_cons, NoDup_app, NoDup_fmap by (intros ?? [= ->]; done).
  rewrite elem_of_app, !list_elem_of_fmap. split; [tauto|]. intros Hl.
  split; [set_solver|]. split_and!; [done| |apply NoDup_singleton].
  intros a (b & -> & _)%list_elem_of_fmap. set_solver.
Qed.

Lemma chain_split l1 (X : list nat) l2 :
  chain (l1 ++ X ++ l2) = (FakeHead :: (Block <$> l1)) ++ (Block <$> X) ++ ((Block <$> l2) ++ [FakeTail]).
Proof. unfold chain. by rewrite !fmap_app, <-!app_assoc. Qed.

Lemma chain_cut l1 l2 :
  chain (l1 ++ l2) = (FakeHead :: (Block <$> l1)) ++ ((Block <$> l2) ++ [FakeTail]).
Proof. unfold chain. by rewrite !fmap_app, <-!app_assoc. Qed.

Lemma tail_head l : ∃ n, head ((Block <$> l) ++ [FakeTail]) = Some n ∧ n ≠ FakeHead
  ∧ (∀ b : nat, n = Block b → b ∈ l) ∧ (n = FakeTail → l = []).
Proof. destruct l as [|b l]; simpl; eexists; (split; [done|]); split_and!; set_solver. Qed.

Lemma head_last l : ∃ p, last (FakeHead :: (Block <$> l)) = Some p ∧ p ≠ FakeTail
  ∧ (∀ b : nat, p = Block b → b ∈ l).
Proof.
  destruct l as [|b l] using rev_ind; [by eexists|].
  rewrite fmap_app, app_comm_cons. change (Block <$> [b]) with [Block b].
  rewrite last_snoc. eexists. split; [done|]. set_solver.
Qed.

Lemma tail_last_head l n : ∃ m, head ((Block <$> l) ++ [n]) = Some m.
Proof. destruct l; by eexists. Qed.

(** [remove] deletes the block from the middle of the list. *)
Lemma remove_spec q l1 (b : nat) l2 :
  queue_repr q (l1 ++ b :: l2) →
  ∃ q', remove (Block b) q = Ret tt q' ∧ queue_repr q' (l1 ++ l2).
Proof.
  intros [Hq Hnum]. pose proof (lk_nodup _ _ Hq) as Hnd%chain_nodup.
  change (b :: l2) with ([b] ++ l2) in *. rewrite chain_split in Hq.
  destruct (head_last l1) as (p & Hp & Hpt & Hpin), (tail_head l2) as (n & Hn & Hnh & Hnin & _).
  assert (p ≠ Block b ∧ n ≠ Block b) as [Hpb Hnb].
  { apply NoDup_app in Hnd as (_ & Hd & [Hb2 _]%NoDup_cons).
    split; intros ->; [eapply Hd; [by apply Hpin|set_solver]|by apply Hb2, Hnin]. }
  destruct (linked_next_at _ (FakeHead :: (Block <$> l1)) p (Block b) _ Hq Hp eq_refl) as [_ Hprev].
  pose proof Hq as Hq'. rewrite app_assoc in Hq'.
  destruct (linked_next_at _ _ (Block b) n _ Hq' (last_snoc _ _) Hn) as [Hnext _].
  unfold remove. rewrite get_bind. unfold get_prev, get_next. unfold nx, pv in Hprev, Hnext.
  rewrite Hprev, Hnext. eexists. split; [reflexivity|]. split.
  - rewrite chain_cut. eapply linked_cut with (p := p) (n := n); [exact Hq|done|done| |];
      intros a; rewrite (decide_ext _ _ _ _ (elem_block1 a b));
      links; congruence.
  - simpl. rewrite Hnum. unfold zlen. rewrite !length_app. simpl. lia.
Qed.

(** *** Popping *)
Lemma popleft_spec q (b : nat) l :
  queue_repr q (b :: l) → ∃ q', popleft q = Ret (Block b) q' ∧ queue_repr q' l.
Proof.
  intros [Hq Hnum]. pose proof (lk_nodup _ _ Hq) as Hnd%chain_nodup.
  change (b :: l) with ([] ++ [b] ++ l) in *. rewrite chain_split in Hq.
  destruct (tail_head l) as (n & Hn & Hnh & Hnin & _).
  assert (n ≠ Block b) as Hnb.
  { intros ->. apply NoDup_cons in Hnd as [Hb _]. by apply Hb, Hnin. }
  destruct (linked_next_at _ [FakeHead] FakeHead (Block b) _ Hq eq_refl eq_refl) as [Hf _].
  pose proof Hq as Hq'. rewrite app_assoc in Hq'.
  destruct (linked_next_at _ _ (Block b) n _ Hq' (last_snoc _ _) Hn) as [Hnext _].
  unfold popleft. rewrite get_bind. unfold get_next. unfold nx in Hf, Hnext.
  rewrite Hf, Hnext. eexists. split; [reflexivity|]. split.
  - change (chain l) with ([FakeHead] ++ ((Block <$> l) ++ [FakeTail])). eapply linked_cut with (p := FakeHead) (n := n); [exact Hq|done|done| |];
      intros a; rewrite (decide_ext _ _ _ _ (elem_block1 a b)); links; congruence.
  - simpl. rewrite Hnum. unfold zlen. simpl. lia.
Qed.

Lemma popleft_empty q : queue_repr q [] → popleft q = Exc ValueError q.
Proof.
  intros [Hq Hnum].
  destruct (linked_next_at _ [FakeHead] FakeHead FakeTail [FakeTail] Hq eq_refl eq_refl) as [Hf _].
  unfold popleft. rewrite get_bind. unfold get_next. unfold nx in Hf. rewrite Hf.
  rewrite bind_unfold, assertM_true; [done|]. by rewrite Hnum.
Qed.

Lemma pop_loop_spec (bs : list nat) n : ∀ q curr,
  NoDup bs → curr = head ((Block <$> bs) ++ [n]) →
  (∀ a b, a ∈ Block <$> bs → adj ((Block <$> bs) ++ [n]) a b → nx q a = Some b) →
  ∃ q', pop_loop (length bs) curr q = Ret (Block <$> bs, Some n) q'
    ∧ (∀ a, nx q' a = if decide (a ∈ Block <$> bs) then None else nx q a)
    ∧ (∀ a, pv q' a = if decide (a ∈ Block <$> bs) then None else pv q a)
    ∧ num_free_blocks q' = num_free_blocks q.
Proof.
  induction bs as [|b bs IH]; intros q curr Hnd -> Hp.
  - eexists. split; [reflexivity|]. split_and!; [..|done]; intros a; by rewrite decide_False by set_solver.
  - apply NoDup_cons in Hnd as [Hb Hnd]. rewrite fmap_cons. cbn [app head length pop_loop].
    rewrite get_bind.
    assert (get_next (Block b) q = head ((Block <$> bs) ++ [n])) as ->.
    { destruct (tail_last_head bs n) as [m Hm]. rewrite Hm. apply Hp; [set_solver|]. simpl. auto. }
    set (q1 := set_next (Block b) None (set_prev (Block b) None q)).
    destruct (IH q1 _ Hnd eq_refl) as (q' & Hrun & Hn & Hv & Hnum).
    { intros a b' Ha Hadj. unfold q1. autorewrite with links. rewrite decide_False.
      - apply Hp; [set_solver|]. simpl. auto.
      - intros ->. by apply Hb, block_elem. }
    exists q'. split; [|split_and!].
    + rewrite !modify_bind. fold q1. by rewrite bind_unfold, Hrun.
    + intros a. rewrite Hn. unfold q1. autorewrite with links. 
      destruct (decide (a = Block b)) as [->|]; [rewrite (decide_True (P:=_ ∈ _ :: _)) by set_solver; by case_decide|].
      apply decide_ext. set_solver.
    + intros a. rewrite Hv. unfold q1. autorewrite with links.
      destruct (decide (a = Block b)) as [->|]; [rewrite (decide_True (P:=_ ∈ _ :: _)) by set_solver; by case_decide|].
      apply decide_ext. set_solver.
    + by rewrite Hnum.
Qed.

Lemma popleft_n_spec q (bs : list nat) l :
  queue_repr q (bs ++ l) →
  ∃ q', popleft_n (zlen bs) q = Ret (Block <$> bs) q' ∧ queue_repr q' l.
Proof.
  intros Hr. destruct (decide (bs = [])) as [->|Hne]; [by eexists|].
  destruct Hr as [Hq Hnum]. pose proof (lk_nodup _ _ Hq) as Hnd%chain_nodup.
  destruct (tail_head l) as (n & Hn & Hnh & Hnin & _).
  pose proof Hq as Hq0. change (bs ++ l) with ([] ++ bs ++ l) in Hq0. rewrite chain_split in Hq0.
  unfold popleft_n. rewrite (proj2 (Z.eqb_neq _ _)) by (destruct bs; [done|unfold zlen; simpl; lia]).
  rewrite get_bind, bind_unfold, assertM_true
    by (apply Z.leb_le; rewrite Hnum; unfold zlen; rewrite length_app; lia).
  rewrite bind_unfold. cbn [modify]. set (q1 := set_num _ q).
  assert (get_next FakeHead q = head ((Block <$> bs) ++ [n])) as Hhd.
  { assert (head ((Block <$> bs) ++ (Block <$> l) ++ [FakeTail]) = head ((Block <$> bs) ++ [n])) as Hh
      by by destruct bs.
    destruct (tail_last_head bs n) as [m Hm]. rewrite Hm in *.
    by destruct (linked_next_at _ [FakeHead] FakeHead m _ Hq0 eq_refl Hh). }
  destruct (pop_loop_spec bs n q1 (get_next FakeHead q)) as (q2 & Hrun & Hn2 & Hv2 & Hnum2).
  { by apply NoDup_app in Hnd as [? _]. } { done. }
  { intros a b Ha Hadj. unfold q1. rewrite next_set_num. apply (lk_next _ _ Hq0).
    apply adj_app. right. left. apply adj_app in Hadj. apply adj_app.
    destruct Hadj as [H|[H|[H1 H2]]]; [auto|simpl in H; naive_solver|].
    right. right. simpl in H2. simplify_eq. done. }
  unfold zlen at 1. rewrite Nat2Z.id, bind_unfold, Hrun. cbn [fst snd].
  eexists. split; [reflexivity|]. split.
  - change (chain l) with ([FakeHead] ++ ((Block <$> l) ++ [FakeTail])). eapply linked_cut with (p := FakeHead) (n := n); [exact Hq0|done|done| |].
    + intros a. autorewrite with links. rewrite Hn2. unfold q1. autorewrite with links.
      destruct (decide (a = FakeHead)) as [->|]; [|done].
      rewrite decide_False; [done|]. intros (? & ? & _)%list_elem_of_fmap. done.
    + intros a. autorewrite with links. rewrite Hv2. unfold q1. autorewrite with links.
      destruct (decide (a = n)) as [->|]; [|done].
      rewrite decide_False; [done|]. intros (b & -> & Hb)%list_elem_of_fmap.
      apply NoDup_app in Hnd as (_ & Hd & _). eapply Hd; [done|by apply Hnin].
  - cbn -[zlen]. rewrite Hnum2. cbn -[zlen]. rewrite Hnum. unfold zlen. rewrite length_app. lia.
Qed.

(** *** Appending *)
Lemma link_loop_spec (bs : list nat) : ∀ c e q,
  opened q c e → FakeTail ∉ c → NoDup bs → (∀ b, b ∈ bs → Block b ∉ c) →
  ∃ e' q', link_loop (Block <$> bs) e q = (e', q')
    ∧ opened q' (c ++ (Block <$> bs)) e' ∧ FakeTail ∉ c ++ (Block <$> bs)
    ∧ num_free_blocks q' = num_free_blocks q.
Proof.
  induction bs as [|b bs IH]; intros c e q Ho Ht Hnd Hin.
  - exists e, q. rewrite app_nil_r. auto.
  - apply NoDup_cons in Hnd as [Hb Hnd]. simpl.
    set (q1 := set_next e _ (set_prev (Block b) _ q)).
    destruct (IH (c ++ [Block b]) (Block b) q1) as (e' & q' & Hrun & Ho' & Ht' & Hnum).
    + eapply opened_step; [exact Ho|done|by apply Hin; set_solver| |];
        intros a; unfold q1; links; congruence.
    + set_solver.
    + done.
    + intros b' Hb'. rewrite not_elem_of_app, list_elem_of_singleton. split; [apply Hin; set_solver|].
      intros [= ->]. done.
    + exists e', q'. rewrite <-app_assoc in Ho', Ht'. done.
Qed.

Lemma chain_open l : chain l = (FakeHead :: (Block <$> l)) ++ [FakeTail].
Proof. done. Qed.

Lemma append_n_spec q l (bs : list nat) :
  queue_repr q l → NoDup bs → (∀ b, b ∈ bs → b ∉ l) →
  ∃ q', append_n (Block <$> bs) q = Ret tt q' ∧ queue_repr q' (l ++ bs).
Proof.
  intros Hr Hnd Hout. destruct (decide (bs = [])) as [->|Hne].
  { exists q. by rewrite app_nil_r. }
  destruct Hr as [Hq Hnum]. destruct (head_last l) as (p & Hp & Hpt & _).
  rewrite chain_open in Hq.
  destruct (linked_next_at _ _ p FakeTail [FakeTail] Hq Hp eq_refl) as [_ Hpv].
  destruct (linked_opened _ _ _ Hq Hp) as [Ho Ht].
  destruct (link_loop_spec bs _ _ _ Ho Ht Hnd) as (e' & q' & Hrun & Ho' & Ht' & Hnum').
  { intros b Hb [?|?%block_elem]%elem_of_cons; [done|]. by apply (Hout b). }
  assert (append_n (Block <$> bs) q =
    Ret tt (set_num (num_free_blocks q' + zlen bs) (set_prev FakeTail (Some e')
      (set_next e' (Some FakeTail) q')))) as ->.
  { unfold append_n. destruct bs as [|b bs]; [done|]. rewrite fmap_cons. rewrite get_bind.
    unfold get_prev. unfold pv in Hpv. rewrite Hpv, <-fmap_cons, Hrun.
    unfold zlen. by rewrite length_fmap. }
  eexists. split; [done|]. split.
  - rewrite chain_open, fmap_app, app_comm_cons.
    eapply opened_close; [exact Ho'|done| |]; intros a; links; congruence.
  - cbn -[zlen]. rewrite Hnum', Hnum. unfold zlen. rewrite length_app. lia.
Qed.

(** [append] and [append_n] of one block are the same. *)
Lemma append_one q b : is_Some (get_prev FakeTail q) → b ≠ FakeTail →
  get_prev FakeTail q ≠ Some b →
  ∃ q', append b q = Ret tt q' ∧ append_n [b] q = Ret tt q'.
Proof.
  intros [p Hp] Hb Hbp. unfold append, append_n. rewrite !get_bind, Hp. eexists.
  split; [reflexivity|]. simpl.
  unfold modify, mret, M_ret, put_state, mbind, M_bind, set_num, set_next, set_prev. simpl. done.
Qed.

Lemma append_spec q l (b : nat) :
  queue_repr q l → b ∉ l →
  ∃ q', append (Block b) q = Ret tt q' ∧ queue_repr q' (l ++ [b]).
Proof.
  intros Hr Hb. destruct (append_n_spec q l [b] Hr (NoDup_singleton b)) as (q' & Hrun & Hr').
  { set_solver. }
  destruct Hr as [Hq _]. destruct (head_last l) as (p & Hp & Hpt & Hpin).
  rewrite chain_open in Hq.
  destruct (linked_next_at _ _ p FakeTail [FakeTail] Hq Hp eq_refl) as [_ Hpv].
  destruct (append_one q (Block b)) as (q'' & Ha & Hn).
  - by exists p.
  - done.
  - unfold get_prev. unfold pv in Hpv. rewrite Hpv. intros [= ->]. by apply Hb, Hpin.
  - rewrite Ha. exists q''. split; [done|].
    change (Block <$> [b]) with [Block b] in Hrun. rewrite Hn in Hrun. by injection Hrun as ->.
Qed.

(** *** Traversals *)
Lemma linked_tail q A : linked q (A ++ [FakeTail]) → nx q FakeTail = None.
Proof. intros Hq. apply (linked_None _ _ Hq). apply last_snoc. Qed.

Lemma linked_step q A b l n :
  linked q (A ++ Block b :: (Block <$> l) ++ [FakeTail]) →
  head ((Block <$> l) ++ [FakeTail]) = Some n → nx q (Block b) = Some n.
Proof.
  intros Hq Hn. rewrite cons_middle, app_assoc in Hq.
  by destruct (linked_next_at _ _ (Block b) n _ Hq (last_snoc _ _) Hn).
Qed.

Lemma walk_spec q l : ∀ A first fuel,
  linked q (A ++ (Block <$> l) ++ [FakeTail]) →
  head ((Block <$> l) ++ [FakeTail]) = Some first → length l ≤ fuel →
  walk fuel first q = Some (Block <$> l).
Proof.
  induction l as [|b l IH]; intros A first fuel Hq Hf Hfuel.
  - simplify_eq/=. apply linked_tail in Hq. destruct fuel; simpl; unfold get_next; unfold nx in Hq;
      by rewrite Hq.
  - simplify_eq/=. destruct fuel as [|fuel]; [lia|]. destruct (tail_head l) as (n & Hn & _).
    pose proof (linked_step _ _ _ _ _ Hq Hn) as Hnext. simpl. unfold get_next. unfold nx in Hnext.
    rewrite Hnext. rewrite cons_middle, app_assoc in Hq.
    by rewrite (IH _ n fuel Hq Hn) by lia.
Qed.

Lemma peek_spec q l : ∀ A first limit,
  linked q (A ++ (Block <$> l) ++ [FakeTail]) →
  head ((Block <$> l) ++ [FakeTail]) = Some first →
  peek limit (Some first) q = Block <$> take limit l.
Proof.
  induction l as [|b l IH]; intros A first limit Hq Hf; simplify_eq/=.
  - by destruct limit.
  - destruct limit as [|limit]; [done|]. destruct (tail_head l) as (n & Hn & _).
    pose proof (linked_step _ _ _ _ _ Hq Hn) as Hnext. simpl. unfold get_next. unfold nx in Hnext.
    rewrite Hnext. rewrite cons_middle, app_assoc in Hq. by rewrite (IH _ n limit Hq Hn).
Qed.

Lemma queue_first q l :
  queue_repr q l → ∃ n, get_next FakeHead q = Some n ∧ head ((Block <$> l) ++ [FakeTail]) = Some n.
Proof.
  intros [Hq _]. destruct (tail_head l) as (n & Hn & _). exists n. split; [|done].
  change (chain l) with ([FakeHead] ++ ((Block <$> l) ++ [FakeTail])) in Hq.
  by destruct (linked_next_at _ [FakeHead] FakeHead n _ Hq eq_refl Hn).
Qed.

Lemma get_all_spec q l fuel :
  queue_repr q l → length l ≤ fuel →
  get_all_free_blocks fuel q = Ret (Some (Block <$> l)) q.
Proof.
  intros Hr Hfuel. destruct (queue_first _ _ Hr) as (n & Hf & Hn). destruct Hr as [Hq _].
  unfold get_all_free_blocks. rewrite get_bind, Hf.
  change (chain l) with ([FakeHead] ++ ((Block <$> l) ++ [FakeTail])) in Hq.
  by rewrite (walk_spec _ _ _ _ _ Hq Hn Hfuel).
Qed.

Lemma peek_frontier q l limit :
  queue_repr q l → peek limit (get_next FakeHead q) q = Block <$> take limit l.
Proof.
  intros Hr. destruct (queue_first _ _ Hr) as (n & Hf & Hn). destruct Hr as [Hq _].
  change (chain l) with ([FakeHead] ++ ((Block <$> l) ++ [FakeTail])) in Hq.
  rewrite Hf. by eapply peek_spec.
Qed.

(** *** The constructor *)
Lemma init_loop n k :
  k ≤ n →
  let q := foldl (init_link n) (mkQueue (Z.of_nat n) ∅ ∅) (seq 0 k) in
  (∀ a b, nx q a = Some b ↔ ∃ i, i < k ∧ S i < n ∧ a = Block i ∧ b = Block (S i))
  ∧ (∀ a b, pv q b = Some a ↔ ∃ i, S i < k ∧ a = Block i ∧ b = Block (S i))
  ∧ num_free_blocks q = Z.of_nat n.
Proof.
  induction k as [|k IH]; intros Hk; cbn zeta.
  - unfold nx, pv. simpl. split_and!; [..|done]; intros a b; rewrite lookup_empty; split; [done|naive_solver lia|done|naive_solver lia].
  - destruct IH as (Hn & Hp & Hnum); [lia|]. rewrite seq_S, foldl_app. cbn [foldl Nat.add].
    set (q := foldl _ _ _) in *. unfold init_link.
    set (q1 := if (0 <? k)%nat then _ else q).
    assert ((∀ a, nx q1 a = nx q a) ∧ num_free_blocks q1 = num_free_blocks q
      ∧ ∀ a b, pv q1 b = Some a ↔ ∃ i, S i < S k ∧ a = Block i ∧ b = Block (S i)) as (Hn1 & Hnum1 & Hp1).
    { unfold q1. destruct (Nat.ltb_spec 0 k); split_and!; [done|done| |done|done|].
      - intros a b. links; subst.
        + split; [intros [= <-]; exists (k - 1); split_and!; [lia|done|f_equal; lia]|].
          intros (i & ? & -> & [= ->]). do 2 f_equal. lia.
        + rewrite Hp. split; [naive_solver lia|]. intros (i & ? & -> & ->). exists i.
          split_and!; [|done..]. assert (S i ≠ k) by congruence. lia.
      - intros a b. rewrite Hp. naive_solver lia. }
    clearbody q1. destruct (Nat.ltb_spec k (n - 1)).
    + split_and!; [|by intros a b; links; rewrite Hp1|by rewrite <-Hnum, <-Hnum1].
      intros a b. links; subst.
      * split; [intros [= <-]; exists k; split_and!; [lia|lia|done|f_equal; lia]|].
        intros (i & ? & ? & [= ->] & ->). do 2 f_equal. lia.
      * rewrite Hn1, Hn. split; [naive_solver lia|]. intros (i & ? & ? & -> & ->). exists i.
        split_and!; [|done..]. assert (i ≠ k) by congruence. lia.
    + split_and!; [|done|by rewrite <-Hnum, <-Hnum1].
      intros a b. rewrite Hn1, Hn. split; [naive_solver lia|]. intros (i & ? & ? & -> & ->).
      exists i. split_and!; [lia|done..].
Qed.

Lemma adj_seq n a b : ∀ s,
  adj (Block <$> seq s n) a b ↔ ∃ i, s ≤ i ∧ S i < s + n ∧ a = Block i ∧ b = Block (S i).
Proof.
  induction n as [|n IH]; intros s; [simpl; naive_solver lia|].
  cbn [seq fmap list_fmap adj]. rewrite IH. split.
  - intros [[<- Hh]|(i & ? & ? & -> & ->)].
    + destruct n; simplify_eq/=. exists s. split_and!; [lia..|done|done].
    + exists i. split_and!; [lia..|done|done].
  - intros (i & ? & ? & -> & ->). destruct (decide (i = s)) as [->|].
    + left. split; [done|]. destruct n; [lia|done].
    + right. exists i. split_and!; [lia..|done|done].
Qed.

Lemma linked_cons q q' c x h :
  linked q c → x ∉ c → head c = Some h →
  (∀ a, nx q' a = if decide (a = x) then Some h else nx q a) →
  (∀ a, pv q' a = if decide (a = h) then Some x else pv q a) →
  linked q' (x :: c).
Proof.
  intros Hq Hx Hh Hn Hp. destruct (linked_None _ _ Hq) as [_ Hnone].
  destruct (linked_out _ _ _ Hq Hx) as [Hxn _]. split.
  - apply NoDup_cons. split; [done|apply Hq].
  - intros a b. rewrite Hn. cbn [adj]. rewrite Hh, <-(lk_next _ _ Hq).
    case_decide; subst; [rewrite Hxn|]; naive_solver.
  - intros a b. rewrite Hp. cbn [adj]. rewrite Hh, <-(lk_prev _ _ Hq).
    case_decide; subst; [rewrite (Hnone h Hh)|]; naive_solver.
Qed.

Lemma linked_single q x : linked q [] → linked q [x].
Proof.
  intros Hq. split; [apply NoDup_singleton|..]; intros a b; cbn;
    rewrite ?(lk_next _ _ Hq), ?(lk_prev _ _ Hq); cbn; naive_solver.
Qed.

Lemma linked_is_opened q c e : linked q c → last c = Some e → opened q c e.
Proof. intros Hq He. split; [apply Hq|done|..]; intros; apply Hq. Qed.

Lemma queue_init_spec n : queue_repr (queue_init n) (seq 0 n).
Proof.
  unfold queue_init. destruct (init_loop n n) as (Hn & Hp & Hnum); [done|].
  set (q := foldl _ _ _) in *. clearbody q.
  assert (linked q (Block <$> seq 0 n)) as Hq.
  { split; [apply NoDup_fmap, NoDup_seq; apply _| |].
    - intros a b. rewrite Hn, adj_seq.
      split; intros (i & Hi); exists i; destruct_and!; split_and!; done || lia.
    - intros a b. rewrite Hp, adj_seq.
      split; intros (i & Hi); exists i; destruct_and!; split_and!; done || lia. }
  destruct n as [|n]; (split; [|unfold zlen; rewrite length_seq; exact Hnum]).
  - eapply (linked_cons q _ [FakeTail] FakeHead FakeTail); [by apply linked_single|set_solver|done|..];
      intros a; cbn [Nat.ltb Nat.leb]; links; congruence.
  - set (q1 := set_prev (Block 0) _ (set_next FakeHead _ q)).
    assert (linked q1 (FakeHead :: (Block <$> seq 0 (S n)))) as Hq1.
    { eapply (linked_cons q _ _ FakeHead (Block 0)); [exact Hq| |done|..];
        [|by intros a; unfold q1; links; congruence..].
      by intros (? & ? & _)%list_elem_of_fmap. }
    rewrite chain_open. eapply opened_close; [eapply (linked_is_opened q1 _ (Block n))|..]; [done| | |..].
    + rewrite seq_S, fmap_app, app_comm_cons. apply last_snoc.
    + intros [?|(? & ? & _)%list_elem_of_fmap]%elem_of_cons; done.
    + intros a. cbn [Nat.ltb Nat.leb]. rewrite Nat.sub_succ, Nat.sub_0_r. fold q1. links; congruence.
    + intros a. cbn [Nat.ltb Nat.leb]. rewrite Nat.sub_succ, Nat.sub_0_r. fold q1. links; congruence.
Qed.

(** *** The queue as a list *)
Inductive queue_op :=
  | QPopleft
  | QPopleftN (n : nat)
  | QRemove (b : nat)
  | QAppend (b : nat)
  | QAppendN (bs : list nat).

Definition run_op (op : queue_op) : QM (list node) :=
  match op with
  | QPopleft => b ← popleft; mret [b]
  | QPopleftN n => popleft_n (Z.of_nat n)
  | QRemove b => remove (Block b) ;; mret []
  | QAppend b => append (Block b) ;; mret []
  | QAppendN bs => append_n (Block <$> bs) ;; mret []
  end.

(** The same operations on the list of free blocks. *)
Definition spec_op (op : queue_op) l : (list nat + exn) * list nat :=
  match op with
  | QPopleft => match l with [] => (inr ValueError, l) | b :: l' => (inl [b], l') end
  | QPopleftN n =>
      if decide (n ≤ length l) then (inl (take n l), drop n l) else (inr AssertionError, l)
  | QRemove b =>
      if decide (b ∈ l) then (inl [], filter (λ i, i ≠ b) l) else (inr RuntimeError, l)
  | QAppend b => (inl [], l ++ [b])
  | QAppendN bs => (inl [], l ++ bs)
  end.

(** Only blocks outside the queue are appended. *)
Definition op_ok (op : queue_op) l : Prop :=
  match op with
  | QAppend b => b ∉ l
  | QAppendN bs => NoDup bs ∧ ∀ b, b ∈ bs → b ∉ l
  | _ => True
  end.

(** A run of calls, each one's answer or exception, and the final store. *)
Fixpoint run_ops (ops : list queue_op) q : list (list node + exn) * FreeKVCacheBlockQueue :=
  match ops with
  | [] => ([], q)
  | op :: ops' =>
      let '(res, q') := match run_op op q with Ret o q' => (inl o, q') | Exc e q' => (inr e, q') end in
      let '(rs, q'') := run_ops ops' q' in (res :: rs, q'')
  end.

Fixpoint spec_ops (ops : list queue_op) l : list (list nat + exn) * list nat :=
  match ops with
  | [] => ([], l)
  | op :: ops' =>
      let '(res, l') := spec_op op l in
      let '(rs, l'') := spec_ops ops' l' in (res :: rs, l'')
  end.

Fixpoint ops_ok (ops : list queue_op) l : Prop :=
  match ops with
  | [] => True
  | op :: ops' => op_ok op l ∧ ops_ok ops' (spec_op op l).2
  end.

Definition answer (r : list nat + exn) : list node + exn :=
  match r with inl l => inl (Block <$> l) | inr e => inr e end.

Lemma filter_ne_notin (b : nat) l : b ∉ l → filter (λ i, i ≠ b) l = l.
Proof.
  induction l as [|i l IH]; [done|]. intros [Hi Hl]%not_elem_of_cons.
  rewrite filter_cons_True by congruence. by rewrite IH.
Qed.

Lemma run_op_spec op q l :
  queue_repr q l → op_ok op l →
  ∃ q', match run_op op q with Ret o q' => (inl o, q') | Exc e q' => (inr e, q') end
        = (answer (spec_op op l).1, q')
    ∧ queue_repr q' (spec_op op l).2.
Proof.
  intros Hr Hok. destruct op as [|n|b|b|bs]; unfold run_op, spec_op.
  - destruct l as [|b l].
    + exists q. rewrite bind_unfold, popleft_empty by done. done.
    + destruct (popleft_spec q b l Hr) as (q' & Hrun & Hr'). exists q'.
      rewrite bind_unfold, Hrun. done.
  - case_decide as Hn.
    + rewrite <-(take_drop n l) in Hr. destruct (popleft_n_spec _ _ _ Hr) as (q' & Hrun & Hr').
      exists q'. unfold zlen in Hrun. rewrite length_take, Nat.min_l in Hrun by done.
      rewrite Hrun. done.
    + exists q. destruct Hr as [Hq Hnum]. split; [|done]. unfold popleft_n.
      rewrite (proj2 (Z.eqb_neq _ _)) by lia. rewrite get_bind, bind_unfold. unfold assertM.
      rewrite (proj2 (Z.leb_gt _ _)); [done|]. rewrite Hnum. unfold zlen. lia.
  - case_decide as Hb.
    + apply list_elem_of_split in Hb as (l1 & l2 & ->).
      destruct (remove_spec q l1 b l2 Hr) as (q' & Hrun & Hr'). exists q'.
      rewrite bind_unfold, Hrun. split; [done|]. cbn [snd].
      destruct Hr as [Hq _]. pose proof (lk_nodup _ _ Hq) as Hnd%chain_nodup.
      apply NoDup_app in Hnd as (_ & Hd & [Hb _]%NoDup_cons).
      rewrite filter_app, filter_cons_False by tauto.
      rewrite !filter_ne_notin; [done|done|]. intros Hi. eapply Hd; [done|set_solver].
    + exists q. split; [|done]. destruct Hr as [Hq _].
      destruct (linked_out q (chain l) (Block b) Hq) as [Hn _].
      { unfold chain. rewrite elem_of_cons, elem_of_app, block_elem. set_solver. }
      rewrite bind_unfold. unfold remove. rewrite get_bind. unfold get_next. unfold nx in Hn.
      rewrite Hn. by destruct (get_prev (Block b) q).
  - destruct (append_spec q l b Hr Hok) as (q' & Hrun & Hr'). exists q'.
    rewrite bind_unfold, Hrun. done.
  - destruct Hok as [Hnd Hout]. destruct (append_n_spec q l bs Hr Hnd Hout) as (q' & Hrun & Hr').
    exists q'. rewrite bind_unfold, Hrun. done.
Qed.

Lemma run_ops_spec ops : ∀ q l,
  queue_repr q l → ops_ok ops l →
  ∃ q', run_ops ops q = (answer <$> (spec_ops ops l).1, q') ∧ queue_repr q' (spec_ops ops l).2.
Proof.
  induction ops as [|op ops IH]; intros q l Hr; [by exists q|]. intros [Hok Hoks].
  destruct (run_op_spec op q l Hr Hok) as (q1 & Hrun & Hr1).
  destruct (IH _ _ Hr1 Hoks) as (q2 & Hruns & Hr2). exists q2. cbn [run_ops spec_ops].
  rewrite Hrun, Hruns. destruct (spec_op op l) as [res l1]. cbn [fst snd] in *.
  by destruct (spec_ops ops l1).
Qed.

(** C18.  The doubly linked list implements a list of blocks: started on
    the [n] blocks of a pool, any sequence of calls that appends only blocks
    outside the queue gives the answers and exceptions the same calls give on
    the list [0 .. n-1], and afterwards the counter is the length of that list
    and the traversal (which terminates within that length) returns it. *)
Theorem queue_refines_list n ops :
  ops_ok ops (seq 0 n) →
  let '(rs, l) := spec_ops ops (seq 0 n) in
  ∃ q', run_ops ops (queue_init n) = (answer <$> rs, q')
    ∧ num_free_blocks q' = zlen l
    ∧ get_all_free_blocks (length l) q' = Ret (Some (Block <$> l)) q'
    ∧ ∀ limit, peek limit (get_next FakeHead q') q' = Block <$> take limit l.
Proof.
  intros Hok. destruct (run_ops_spec ops _ _ (queue_init_spec n) Hok) as (q' & Hrun & Hr).
  destruct (spec_ops ops (seq 0 n)) as [rs l]. cbn [fst snd] in *. exists q'.
  split_and!; [done|apply Hr|by apply get_all_spec|intros limit; by apply peek_frontier].
Qed.
End Refinement.

Definition demo_ops : list queue_op :=
  [QPopleft; QRemove 2; QAppendN [2; 0]; QPopleftN 3; QRemove 1; QAppend 3; QPopleftN 9].

Lemma queue_refines_list_witness :
  ∃ q', run_ops demo_ops (queue_init 4)
      = ([inl [Block 0]; inl []; inl []; inl [Block 1; Block 3; Block 2]; inr RuntimeError;
          inl []; inr AssertionError], q')
    ∧ get_all_free_blocks 2 q' = Ret (Some [Block 0; Block 3]) q'.
Proof.
  destruct (queue_refines_list 4 demo_ops) as (q' & Hrun & _ & Hall & _).
  { cbn. repeat split; try set_solver. apply (bool_decide_unpack _). by vm_compute. }
  exists q'. split; [exact Hrun|exact Hall].
Defined.
