(* ===== verification/BlockPool.v ===== *)
(** * The GPU block pool ([vllm/v1/core/block_pool.py])

    Physical blocks, their reference counts and hashes, the prefix cache from
    block hashes to blocks, and the free queue.  The attributes of the
    [KVCacheBlock] objects are split: the links are the maps of the queue, the
    others are the record [KVCacheBlock], stored by block index.  The optional
    residency-metrics collector, the log lines and the token ids, LoRA and
    multi-modal fields of a stored event are left out. *)
From S2P Require Import Prelude PyFloat FreeQueue.
Local Open Scope Z_scope.

Definition BlockHash := list Z.
Definition BlockHashWithGroupId := list Z.
#[export] Instance BlockHashWithGroupId_eq_dec : EqDecision BlockHashWithGroupId := _.
#[export] Instance BlockHashWithGroupId_countable : Countable BlockHashWithGroupId := _.

Definition make_block_hash_with_group_id (block_hash : BlockHash) (group_id : Z) :
    option BlockHashWithGroupId :=
  (λ bs, block_hash ++ bs) <$> to_bytes4 group_id.

(** [key[:-4]] and [int.from_bytes(key[-4:])] *)
Definition get_block_hash (key : BlockHashWithGroupId) : BlockHash := take (length key - 4) key.
Definition get_group_id (key : BlockHashWithGroupId) : Z := from_bytes (drop (length key - 4) key).

(** [ExternalBlockHash = bytes | int]; the flag is the environment variable
    [VLLM_KV_EVENTS_USE_INT_BLOCK_HASHES]. *)
Inductive ExternalBlockHash := HashBytes (h : BlockHash) | HashInt (z : Z).
Definition maybe_convert_block_hash (use_int : bool) (h : BlockHash) : ExternalBlockHash :=
  if use_int then HashInt (Z.land (from_bytes h) (Z.shiftl 1 64 - 1)) else HashBytes h.

Record KVCacheBlock := mkBlock {
  ref_cnt : Z;
  block_hash : option BlockHashWithGroupId;
  is_null : bool
}.
#[export] Instance KVCacheBlock_inhabited : Inhabited KVCacheBlock := populate (mkBlock 0 None false).

(** ** [BlockHashToBlockMap]: one block, or a dict of blocks, per hash. *)
Inductive CachedBlocks := OneBlock (b : nat) | BlockDict (bs : list nat).
Abbreviation BlockHashToBlockMap := (gmap BlockHashWithGroupId CachedBlocks).

Definition get_one_block (key : BlockHashWithGroupId) (c : BlockHashToBlockMap) : option nat :=
  match c !! key with
  | None => None
  | Some (OneBlock b) => Some b
  | Some (BlockDict bs) => head bs
  end.

(** [d[b] = ...] on a dict keyed by block id. *)
Definition dict_add (b : nat) (bs : list nat) : list nat :=
  if bool_decide (b ∈ bs) then bs else bs ++ [b].

Definition cache_insert (key : BlockHashWithGroupId) (b : nat) (c : BlockHashToBlockMap) :
    BlockHashToBlockMap :=
  match c !! key with
  | None => <[key := OneBlock b]> c
  | Some (OneBlock b0) => <[key := BlockDict (dict_add b [b0])]> c
  | Some (BlockDict bs) => <[key := BlockDict (dict_add b bs)]> c
  end.

Definition cache_pop (key : BlockHashWithGroupId) (b : nat) (c : BlockHashToBlockMap) :
    option nat * BlockHashToBlockMap :=
  match c !! key with
  | None => (None, c)
  | Some (OneBlock b0) => if (b0 =? b)%nat then (Some b0, delete key c) else (None, c)
  | Some (BlockDict bs) =>
      let bs' := filter (λ i, i ≠ b) bs in
      (if bool_decide (b ∈ bs) then Some b else None,
       match bs' with [] => delete key c | _ => <[key := BlockDict bs']> c end)
  end.

(** ** [BlockPool] *)
Inductive KVCacheEvent :=
  | BlockStored (block_hashes : list ExternalBlockHash) (parent_block_hash : option ExternalBlockHash)
      (start_token_idx end_token_idx : Z) (block_size : Z) (group_idx : Z)
  | BlockRemoved (block_hashes : list ExternalBlockHash) (group_idx : Z)
  | AllBlocksCleared.

Record BlockPool := mkPool {
  num_gpu_blocks : Z;
  enable_caching : bool;
  hash_block_size : Z;
  blocks : list KVCacheBlock;
  free_block_queue : FreeKVCacheBlockQueue;
  cached_block_hash_to_block : BlockHashToBlockMap;
  null_block : nat;
  enable_kv_cache_events : bool;
  use_int_block_hashes : bool;
  kv_event_queue : list KVCacheEvent
}.

Definition set_blocks (v : list KVCacheBlock) (p : BlockPool) : BlockPool :=
  {| num_gpu_blocks := num_gpu_blocks p; enable_caching := enable_caching p;
     hash_block_size := hash_block_size p; blocks := v; free_block_queue := free_block_queue p;
     cached_block_hash_to_block := cached_block_hash_to_block p; null_block := null_block p;
     enable_kv_cache_events := enable_kv_cache_events p;
     use_int_block_hashes := use_int_block_hashes p; kv_event_queue := kv_event_queue p |}.
Definition set_queue (v : FreeKVCacheBlockQueue) (p : BlockPool) : BlockPool :=
  {| num_gpu_blocks := num_gpu_blocks p; enable_caching := enable_caching p;
     hash_block_size := hash_block_size p; blocks := blocks p; free_block_queue := v;
     cached_block_hash_to_block := cached_block_hash_to_block p; null_block := null_block p;
     enable_kv_cache_events := enable_kv_cache_events p;
     use_int_block_hashes := use_int_block_hashes p; kv_event_queue := kv_event_queue p |}.
Definition set_cache (v : BlockHashToBlockMap) (p : BlockPool) : BlockPool :=
  {| num_gpu_blocks := num_gpu_blocks p; enable_caching := enable_caching p;
     hash_block_size := hash_block_size p; blocks := blocks p;
     free_block_queue := free_block_queue p; cached_block_hash_to_block := v;
     null_block := null_block p; enable_kv_cache_events := enable_kv_cache_events p;
     use_int_block_hashes := use_int_block_hashes p; kv_event_queue := kv_event_queue p |}.
Definition set_event_queue (v : list KVCacheEvent) (p : BlockPool) : BlockPool :=
  {| num_gpu_blocks := num_gpu_blocks p; enable_caching := enable_caching p;
     hash_block_size := hash_block_size p; blocks := blocks p;
     free_block_queue := free_block_queue p;
     cached_block_hash_to_block := cached_block_hash_to_block p; null_block := null_block p;
     enable_kv_cache_events := enable_kv_cache_events p;
     use_int_block_hashes := use_int_block_hashes p; kv_event_queue := v |}.

(** A block object and the assignment of its attributes. *)
Definition block_of (p : BlockPool) (b : nat) : KVCacheBlock := blocks p !!! b.
Definition alter_block (f : KVCacheBlock → KVCacheBlock) (b : nat) (p : BlockPool) : BlockPool :=
  set_blocks (alter f b (blocks p)) p.
Definition add_ref (z : Z) (blk : KVCacheBlock) : KVCacheBlock :=
  {| ref_cnt := ref_cnt blk + z; block_hash := block_hash blk; is_null := is_null blk |}.
Definition set_hash (h : option BlockHashWithGroupId) (blk : KVCacheBlock) : KVCacheBlock :=
  {| ref_cnt := ref_cnt blk; block_hash := h; is_null := is_null blk |}.
Definition set_null (blk : KVCacheBlock) : KVCacheBlock :=
  {| ref_cnt := ref_cnt blk; block_hash := block_hash blk; is_null := true |}.

(** The queue holds pool blocks only; the fake ends are never handed out. *)
Definition block_ids (ns : list node) : list nat :=
  omap (λ n, match n with Block b => Some b | _ => None end) ns.

Abbreviation PM := (M BlockPool).

(** Run a queue operation on the pool's queue. *)
Definition in_queue {A} (c : QM A) : PM A := zoom free_block_queue set_queue c.

(** [__init__]; [None] is the assertion on the number of blocks. *)
Definition pool_init (n : nat) (caching : bool) (hash_size : Z) (events use_int : bool) :
    option BlockPool :=
  if (0 <? n)%nat then
    match popleft (queue_init n) with
    | Ret (Block b) q =>
        Some {| num_gpu_blocks := Z.of_nat n; enable_caching := caching;
                hash_block_size := hash_size;
                blocks := alter set_null b (replicate n (mkBlock 0 None false));
                free_block_queue := q; cached_block_hash_to_block := ∅; null_block := b;
                enable_kv_cache_events := events; use_int_block_hashes := use_int;
                kv_event_queue := [] |}
    | _ => None
    end
  else None.

Definition get_num_free_blocks (p : BlockPool) : Z := num_free_blocks (free_block_queue p).

(** [get_cached_block]: one block per group, or [None] at the first miss. *)
Fixpoint get_cached_block (h : BlockHash) (kv_cache_group_ids : list Z) :
    PM (option (list nat)) :=
  match kv_cache_group_ids with
  | [] => mret (Some [])
  | group_id :: ids =>
      match make_block_hash_with_group_id h group_id with
      | None => raise OverflowError
      | Some key =>
          p ← get_state;
          match get_one_block key (cached_block_hash_to_block p) with
          | None => mret None
          | Some b => r ← get_cached_block h ids; mret (cons b <$> r)
          end
      end
  end.

Definition push_event (e : KVCacheEvent) (p : BlockPool) : BlockPool :=
  if enable_kv_cache_events p then set_event_queue (kv_event_queue p ++ [e]) p else p.

Definition maybe_evict_cached_block (b : nat) : PM bool :=
  p ← get_state;
  match block_hash (block_of p b) with
  | None => mret false
  | Some h =>
      let r := cache_pop h b (cached_block_hash_to_block p) in
      modify (set_cache r.2) ;;
      match r.1 with
      | None => mret false
      | Some _ =>
          modify (alter_block (set_hash None) b) ;;
          modify (push_event (BlockRemoved
            [maybe_convert_block_hash (use_int_block_hashes p) (get_block_hash h)] (get_group_id h))) ;;
          mret true
      end
  end.

(** [get_new_blocks]: the body of the loop over the popped blocks. *)
Definition claim (b : nat) : PM unit :=
  p ← get_state;
  (if enable_caching p then maybe_evict_cached_block b ;; mret tt else mret tt) ;;
  p ← get_state;
  assertM (ref_cnt (block_of p b) =? 0) ;;
  modify (alter_block (add_ref 1) b).

Definition get_new_blocks (num_blocks : Z) : PM (list nat) :=
  p ← get_state;
  if get_num_free_blocks p <? num_blocks then raise ValueError
  else
    ns ← in_queue (popleft_n num_blocks);
    let ret := block_ids ns in
    forM ret claim ;;
    mret ret.

Definition touch1 (b : nat) : PM unit :=
  p ← get_state;
  (if (ref_cnt (block_of p b) =? 0) && negb (is_null (block_of p b))
   then in_queue (remove (Block b)) else mret tt) ;;
  modify (alter_block (add_ref 1) b).

Definition touch (bs : list nat) : PM unit := forM bs touch1.

Definition free_blocks (ordered_blocks : list nat) : PM unit :=
  modify (λ p, foldl (λ p b, alter_block (add_ref (-1)) b p) p ordered_blocks) ;;
  p ← get_state;
  in_queue (append_n (Block <$>
    filter (λ b, ref_cnt (block_of p b) = 0 ∧ is_null (block_of p b) = false) ordered_blocks)).

Definition evict_blocks (ids : list nat) : PM unit :=
  forM ids (λ b,
    p ← get_state;
    assertM (b <? length (blocks p))%nat ;;
    maybe_evict_cached_block b ;; mret tt).

Definition reset_prefix_cache : PM bool :=
  p ← get_state;
  if negb (num_gpu_blocks p - get_num_free_blocks p =? 1) then mret false
  else
    modify (set_cache ∅) ;;
    modify (λ p, set_blocks (set_hash None <$> blocks p) p) ;;
    modify (push_event AllBlocksCleared) ;;
    mret true.

Definition peek_free_block_frontier (limit : Z) : PM (list (nat * option BlockHashWithGroupId)) :=
  assertM (0 <=? limit) ;;
  p ← get_state;
  let q := free_block_queue p in
  mret ((λ b, (b, block_hash (block_of p b))) <$>
    block_ids (peek (Z.to_nat limit) (get_next FakeHead q) q)).

Definition get_usage {F} `{FloatOps F} (p : BlockPool) : F :=
  let total_gpu_blocks := num_gpu_blocks p - 1 in
  if total_gpu_blocks =? 0 then f_of_Z 0
  else fsub (f_of_Z 1) (int_truediv (get_num_free_blocks p) total_gpu_blocks).

Definition take_events : PM (list KVCacheEvent) :=
  p ← get_state;
  if negb (enable_kv_cache_events p) then mret []
  else modify (set_event_queue []) ;; mret (kv_event_queue p).

(** ** [cache_full_blocks]

    [BlockHashListWithBlockSize._get_value_at]: the hashes of [scale]
    consecutive blocks, concatenated. *)
Definition hash_value_at (hashes : list BlockHash) (scale idx : nat) : BlockHash :=
  concat (take scale (drop (idx * scale) hashes)).

(** The request's hashes at the block size of the group: as they are, or
    coarsened; [None] is the failed divisibility assertion. *)
Definition group_hashes (hash_size block_size : Z) (hashes : list BlockHash) :
    option (list BlockHash) :=
  if block_size =? hash_size then Some hashes
  else if block_size mod hash_size =? 0 then
    let scale := Z.to_nat (block_size / hash_size) in
    Some (hash_value_at hashes scale <$> seq 0 (length hashes / scale))
  else None.

(** The parent's hash, [block_hashes[num_cached_blocks - 1]]. *)
Definition parent_hash (hash_size block_size : Z) (hashes : list BlockHash) (i : nat) :
    option BlockHash :=
  if block_size =? hash_size then hashes !! i
  else Some (hash_value_at hashes (Z.to_nat (block_size / hash_size)) i).

(** The loop over the new full blocks, with their mask and hashes; the hashes
    stored. *)
Fixpoint store_blocks (i : nat) (bs : list nat) (block_mask : option (list bool))
    (new_block_hashes : list BlockHash) (group_id : Z) : PM (list BlockHash) :=
  match bs with
  | [] => mret []
  | b :: bs' =>
      p ← get_state;
      if is_null (block_of p b)
         || match block_mask with None => false | Some m => negb (default false (m !! i)) end
      then store_blocks (S i) bs' block_mask new_block_hashes group_id
      else
        assertM (bool_decide (block_hash (block_of p b) = None)) ;;
        match new_block_hashes !! i with
        | None => raise IndexError
        | Some h =>
            match make_block_hash_with_group_id h group_id with
            | None => raise OverflowError
            | Some key =>
                modify (alter_block (set_hash (Some key)) b) ;;
                modify (λ p, set_cache (cache_insert key b (cached_block_hash_to_block p)) p) ;;
                r ← store_blocks (S i) bs' block_mask new_block_hashes group_id;
                mret (h :: r)
            end
        end
  end.

Definition cache_full_blocks (request_hashes : list BlockHash) (bs : list nat)
    (num_cached_blocks num_full_blocks : nat) (block_size kv_cache_group_id : Z)
    (block_mask : option (list bool)) : PM unit :=
  if (num_full_blocks <=? num_cached_blocks)%nat then mret tt
  else
    let new_full_blocks := take (num_full_blocks - num_cached_blocks) (drop num_cached_blocks bs) in
    assertM (num_full_blocks <=? length request_hashes)%nat ;;
    assertM (match block_mask with
             | None => true
             | Some m => (length m =? length new_full_blocks)%nat
             end) ;;
    p ← get_state;
    match group_hashes (hash_block_size p) block_size request_hashes with
    | None => raise AssertionError
    | Some hashes =>
        stored ← store_blocks 0 new_full_blocks block_mask (drop num_cached_blocks hashes)
                   kv_cache_group_id;
        if negb (enable_kv_cache_events p) then mret tt
        else
          parent ← (if (num_cached_blocks =? 0)%nat then mret None
                    else match parent_hash (hash_block_size p) block_size request_hashes
                                 (num_cached_blocks - 1) with
                         | None => raise IndexError
                         | Some h => mret (Some (maybe_convert_block_hash (use_int_block_hashes p) h))
                         end);
          modify (push_event (BlockStored
            (maybe_convert_block_hash (use_int_block_hashes p) <$> stored) parent
            (Z.of_nat num_cached_blocks * block_size) (Z.of_nat num_full_blocks * block_size)
            block_size kv_cache_group_id))
    end.
