(* ===== verification/BlockPoolFacts.v ===== *)
(** * Facts about the block pool

    The invariant of [BlockPool.v] and what each operation does to reference
    counts, hashes and the eviction order. *)
From S2P Require Import Prelude PyFloat FreeQueue BlockPool.
Local Open Scope Z_scope.

(** ** The prefix cache *)
Definition entry_ids (e : CachedBlocks) : list nat :=
  match e with OneBlock b => [b] | BlockDict bs => bs end.
Definition ids_of (c : BlockHashToBlockMap) (h : BlockHashWithGroupId) : list nat :=
  match c !! h with None => [] | Some e => entry_ids e end.

Lemma ids_of_insert c h e h' :
  ids_of (<[h := e]> c) h' = if decide (h = h') then entry_ids e else ids_of c h'.
Proof. unfold ids_of. rewrite lookup_insert. by case_decide. Qed.

Lemma ids_of_delete c h h' :
  ids_of (delete h c) h' = if decide (h = h') then [] else ids_of c h'.
Proof. unfold ids_of. rewrite lookup_delete. by case_decide. Qed.

(** No entry is an empty dict and no block is listed twice under a hash. *)
Definition cache_wf (c : BlockHashToBlockMap) : Prop :=
  ∀ h, NoDup (ids_of c h) ∧ c !! h ≠ Some (BlockDict []).

Lemma get_one_block_None h c : cache_wf c → get_one_block h c = None ↔ ids_of c h = [].
Proof.
  intros Hc. destruct (Hc h) as [_ Hne]. unfold get_one_block, ids_of.
  destruct (c !! h) as [[b|[|b bs]]|]; naive_solver.
Qed.

Lemma get_one_block_elem h c b : get_one_block h c = Some b → b ∈ ids_of c h.
Proof.
  unfold get_one_block, ids_of. destruct (c !! h) as [[b'|bs]|]; simpl; intros; simplify_eq.
  - set_solver.
  - destruct bs; simplify_eq/=. set_solver.
Qed.

Lemma dict_add_spec b bs :
  (∀ i, i ∈ dict_add b bs ↔ i = b ∨ i ∈ bs) ∧ (NoDup bs → NoDup (dict_add b bs)) ∧ dict_add b bs ≠ [].
Proof.
  unfold dict_add. case_bool_decide.
  - split_and!; [naive_solver|done|]. intros ->. set_solver.
  - split_and!; [set_solver| |by destruct bs]. intros. apply NoDup_app.
    split_and!; [done|set_solver|apply NoDup_singleton].
Qed.

Lemma cache_wf_insert c h e :
  cache_wf c → NoDup (entry_ids e) → e ≠ BlockDict [] → cache_wf (<[h := e]> c).
Proof.
  intros Hc Hnd He h'. rewrite ids_of_insert, lookup_insert.
  case_decide; [split; [done|congruence]|apply Hc].
Qed.

Lemma cache_wf_delete c h : cache_wf c → cache_wf (delete h c).
Proof.
  intros Hc h'. rewrite ids_of_delete, lookup_delete.
  case_decide; [split; [apply NoDup_nil_2|done]|apply Hc].
Qed.

Lemma cache_insert_spec h b c :
  cache_wf c →
  cache_wf (cache_insert h b c)
  ∧ ∀ h' i, i ∈ ids_of (cache_insert h b c) h' ↔ (h' = h ∧ i = b) ∨ i ∈ ids_of c h'.
Proof.
  intros Hc. destruct (Hc h) as [Hnd Hne].
  assert (∃ e, cache_insert h b c = <[h := e]> c ∧ NoDup (entry_ids e) ∧ e ≠ BlockDict []
    ∧ ∀ i, i ∈ entry_ids e ↔ i = b ∨ i ∈ ids_of c h) as (e & -> & Hnd' & Hne' & Hin).
  { unfold cache_insert, ids_of in *. destruct (c !! h) as [[b0|bs]|] eqn:Hh; eexists; (split; [done|]); simpl.
    - destruct (dict_add_spec b [b0]) as (Hin & Hnd' & ?). split_and!; [auto|congruence|done].
    - destruct (dict_add_spec b bs) as (Hin & Hnd' & ?). split_and!; [auto|congruence|done].
    - split_and!; [apply NoDup_singleton|done|set_solver]. }
  split; [by apply cache_wf_insert|]. intros h' i. rewrite ids_of_insert.
  case_decide; subst; rewrite ?Hin; naive_solver.
Qed.

Lemma cache_pop_spec h b c :
  cache_wf c →
  cache_wf (cache_pop h b c).2
  ∧ (cache_pop h b c).1 = (if bool_decide (b ∈ ids_of c h) then Some b else None)
  ∧ ∀ h' i, i ∈ ids_of (cache_pop h b c).2 h' ↔ i ∈ ids_of c h' ∧ ¬ (h' = h ∧ i = b).
Proof.
  intros Hc. destruct (Hc h) as [Hnd _]. 
  unfold cache_pop. destruct (c !! h) as [[b0|bs]|] eqn:Hh; cbn [fst snd].
  - assert (ids_of c h = [b0]) as Hb0 by (unfold ids_of; by rewrite Hh).
    destruct (Nat.eqb_spec b0 b) as [->|Hb]; cbn [fst snd].
    + split_and!; [by apply cache_wf_delete|by rewrite Hb0, bool_decide_eq_true_2 by (by apply list_elem_of_singleton)|].
      intros h' i. rewrite ids_of_delete. clear Hc.
      case_decide; subst; [rewrite Hb0, list_elem_of_singleton, elem_of_nil|]; naive_solver.
    + split_and!; [done|by rewrite Hb0, bool_decide_eq_false_2 by (rewrite list_elem_of_singleton; congruence)|]. intros h' i.
      split; [|tauto]. intros Hi. split; [done|]. intros [-> ->].
      rewrite Hb0 in Hi. apply list_elem_of_singleton in Hi. congruence.
  - assert (ids_of c h = bs) as Hbs by (unfold ids_of; by rewrite Hh). rewrite Hbs in Hnd |- *.
    split_and!; [|done|].
    + destruct (filter (λ i, i ≠ b) bs) eqn:Hf; [by apply cache_wf_delete|].
      apply cache_wf_insert; [done| |congruence]. simpl. rewrite <-Hf. by apply NoDup_filter.
    + intros h' i. assert (i ∈ filter (λ i, i ≠ b) bs ↔ i ≠ b ∧ i ∈ bs) as Hf
        by (by rewrite list_elem_of_filter).
      clear Hc. destruct (filter (λ i, i ≠ b) bs); rewrite ?ids_of_delete, ?ids_of_insert; simpl;
        case_decide; subst; rewrite ?Hbs, <-?Hf, ?Hf; naive_solver.
  - assert (ids_of c h = []) as Hb0 by (unfold ids_of; by rewrite Hh).
    split_and!; [done|by rewrite Hb0|].
    intros h' i. split; [|tauto]. intros Hi. split; [done|]. intros [-> ->].
      rewrite Hb0 in Hi. by apply elem_of_nil in Hi.
Qed.

(** ** The invariant *)
Definition ref (p : BlockPool) (b : nat) : Z := ref_cnt (block_of p b).
Definition hash (p : BlockPool) (b : nat) : option BlockHashWithGroupId := block_hash (block_of p b).

(** What no operation changes. *)
Definition static (p : BlockPool) : Z * bool * Z * nat * bool * bool * nat :=
  (num_gpu_blocks p, enable_caching p, hash_block_size p, null_block p,
   enable_kv_cache_events p, use_int_block_hashes p, length (blocks p)).

(** A block of the pool other than the null block. *)
Definition real (p : BlockPool) (b : nat) : Prop := (0 < b < length (blocks p))%nat.

(** The data of a pool whose unreferenced blocks are [fr]. *)
Record pool_core (p : BlockPool) (fr : list nat) : Prop := {
  pc_num : num_gpu_blocks p = zlen (blocks p);
  pc_pos : (0 < length (blocks p))%nat;
  pc_null : null_block p = 0%nat;
  pc_is_null b : (b < length (blocks p))%nat → is_null (block_of p b) = bool_decide (b = 0%nat);
  pc_ref b : real p b → 0 ≤ ref p b;
  pc_free b : b ∈ fr ↔ real p b ∧ ref p b = 0;
  pc_nodup : NoDup fr;
  pc_cache h b : b ∈ ids_of (cached_block_hash_to_block p) h ↔ real p b ∧ hash p b = Some h;
  pc_cache_wf : cache_wf (cached_block_hash_to_block p);
  pc_hash0 : hash p 0 = None
}.

(** The free queue holds exactly the unreferenced blocks, in the order [l]. *)
Definition pool_inv (p : BlockPool) (l : list nat) : Prop :=
  pool_core p l ∧ queue_repr (free_block_queue p) l.

Lemma inv_num_free p l : pool_inv p l → get_num_free_blocks p = zlen l.
Proof. intros [_ [_ H]]. exact H. Qed.

Lemma core_Permutation p l l' : l ≡ₚ l' → pool_core p l → pool_core p l'.
Proof.
  intros Hp Hc. split; try apply Hc.
  - intros b. rewrite <-Hp. apply Hc.
  - rewrite <-Hp. apply Hc.
Qed.

Lemma length_alter_blocks f b p : length (blocks (alter_block f b p)) = length (blocks p).
Proof. apply length_alter. Qed.

Lemma block_of_alter f b p i :
  (b < length (blocks p))%nat →
  block_of (alter_block f b p) i = if decide (i = b) then f (block_of p b) else block_of p i.
Proof.
  intros Hb. unfold block_of. simpl. apply lookup_lt_is_Some_2 in Hb as [blk Hblk].
  rewrite !list_lookup_total_alt, list_lookup_alter.
  destruct (decide (i = b)) as [->|]; [by rewrite decide_True, Hblk by done|].
  by rewrite decide_False by congruence.
Qed.

Lemma ref_alter z b p i :
  (b < length (blocks p))%nat →
  ref (alter_block (add_ref z) b p) i = if decide (i = b) then ref p b + z else ref p i.
Proof. intros. unfold ref. rewrite block_of_alter by done. by case_decide. Qed.

Lemma hash_alter h b p i :
  (b < length (blocks p))%nat →
  hash (alter_block (set_hash h) b p) i = if decide (i = b) then h else hash p i.
Proof. intros. unfold hash. rewrite block_of_alter by done. by case_decide. Qed.

Lemma hash_add_ref z b p i :
  (b < length (blocks p))%nat → hash (alter_block (add_ref z) b p) i = hash p i.
Proof. intros. unfold hash. rewrite block_of_alter by done. case_decide; by subst. Qed.

Lemma ref_set_hash h b p i :
  (b < length (blocks p))%nat → ref (alter_block (set_hash h) b p) i = ref p i.
Proof. intros. unfold ref. rewrite block_of_alter by done. case_decide; by subst. Qed.

Lemma is_null_alter f b p i :
  (∀ blk, is_null (f blk) = is_null blk) → (b < length (blocks p))%nat →
  is_null (block_of (alter_block f b p) i) = is_null (block_of p i).
Proof. intros Hf Hb. rewrite block_of_alter by done. case_decide; subst; by rewrite ?Hf. Qed.

Lemma static_alter f b p : static (alter_block f b p) = static p.
Proof. unfold static. by rewrite length_alter_blocks. Qed.

(** Changing reference counts only. *)
Lemma core_add_ref p fr fr' b z :
  pool_core p fr → real p b → 0 ≤ ref p b + z → NoDup fr' →
  (∀ i, i ∈ fr' ↔ if decide (i = b) then ref p b + z = 0 else i ∈ fr) →
  pool_core (alter_block (add_ref z) b p) fr'.
Proof.
  intros Hc [Hb0 Hb] Hz Hnd Hfr.
  assert (∀ i, real (alter_block (add_ref z) b p) i ↔ real p i) as Hreal.
  { intros i. unfold real. by rewrite length_alter_blocks. }
  split; [| | |..|].
  - unfold zlen. rewrite length_alter_blocks. exact (pc_num _ _ Hc).
  - rewrite length_alter_blocks. exact (pc_pos _ _ Hc).
  - exact (pc_null _ _ Hc).
  - intros i. rewrite length_alter_blocks, is_null_alter by done. apply Hc.
  - intros i. rewrite Hreal, ref_alter by done. case_decide; [done|apply Hc].
  - intros i. rewrite Hreal, ref_alter, Hfr by done. case_decide; subst; [|apply Hc].
    unfold real. tauto.
  - done.
  - intros h i. rewrite Hreal, hash_add_ref by done. apply Hc.
  - exact (pc_cache_wf _ _ Hc).
  - rewrite hash_add_ref by done. apply Hc.
Qed.

(** The null block's count is not maintained: any change of it is harmless. *)
Lemma core_add_ref_null p fr z :
  pool_core p fr → pool_core (alter_block (add_ref z) 0 p) fr.
Proof.
  intros Hc. pose proof (pc_pos _ _ Hc) as Hpos.
  assert (∀ i, real (alter_block (add_ref z) 0 p) i ↔ real p i) as Hreal.
  { intros i. unfold real. by rewrite length_alter_blocks. }
  assert (∀ i, real p i → ref (alter_block (add_ref z) 0 p) i = ref p i) as Href.
  { intros i [Hi _]. rewrite ref_alter, decide_False by lia. done. }
  split; [| | |..|].
  - unfold zlen. rewrite length_alter_blocks. exact (pc_num _ _ Hc).
  - by rewrite length_alter_blocks.
  - exact (pc_null _ _ Hc).
  - intros i. rewrite length_alter_blocks, is_null_alter by done. apply Hc.
  - intros i. rewrite Hreal. intros Hi. rewrite Href by done. by apply Hc.
  - intros i. rewrite (pc_free _ _ Hc), Hreal. split; intros [Hi ?]; (split; [done|]);
      [by rewrite Href|by rewrite <-Href].
  - exact (pc_nodup _ _ Hc).
  - intros h i. rewrite Hreal, hash_add_ref by done. apply Hc.
  - exact (pc_cache_wf _ _ Hc).
  - rewrite hash_add_ref by done. apply Hc.
Qed.

Lemma real_dec p b : (b < length (blocks p))%nat → b = 0%nat ∨ real p b.
Proof. unfold real. lia. Qed.

Lemma core_is_null p fr b : pool_core p fr → real p b → is_null (block_of p b) = false.
Proof. intros Hc [? ?]. rewrite (pc_is_null _ _ Hc) by done. apply bool_decide_eq_false_2. lia. Qed.

(** *** Eviction from the prefix cache *)
Lemma push_event_same e p :
  blocks (push_event e p) = blocks p ∧ free_block_queue (push_event e p) = free_block_queue p
  ∧ cached_block_hash_to_block (push_event e p) = cached_block_hash_to_block p
  ∧ static (push_event e p) = static p.
Proof. unfold push_event. by destruct (enable_kv_cache_events p). Qed.

Lemma static_proj p p' : static p' = static p →
  num_gpu_blocks p' = num_gpu_blocks p ∧ null_block p' = null_block p
  ∧ length (blocks p') = length (blocks p) ∧ enable_caching p' = enable_caching p.
Proof. unfold static. intros. by simplify_eq. Qed.

(** A pool that differs in hashes, prefix cache and events only. *)
Lemma core_rehash p p' fr :
  pool_core p fr → static p' = static p →
  (∀ i, (i < length (blocks p))%nat →
     ref p' i = ref p i ∧ is_null (block_of p' i) = is_null (block_of p i)) →
  (∀ h b, b ∈ ids_of (cached_block_hash_to_block p') h ↔ real p b ∧ hash p' b = Some h) →
  cache_wf (cached_block_hash_to_block p') → hash p' 0 = None →
  pool_core p' fr.
Proof.
  intros Hc Hs Hsame Hcache Hwf H0. apply static_proj in Hs as (Hn & Hnull & Hlen & _).
  assert (∀ b, real p' b ↔ real p b) as Hreal by (intros; unfold real; by rewrite Hlen).
  split; [..|done].
  - unfold zlen. rewrite Hn, Hlen. exact (pc_num _ _ Hc).
  - rewrite Hlen. exact (pc_pos _ _ Hc).
  - rewrite Hnull. exact (pc_null _ _ Hc).
  - intros b. rewrite Hlen. intros Hb. destruct (Hsame b Hb) as [_ ->]. by apply Hc.
  - intros b. rewrite Hreal. intros Hb. destruct (Hsame b) as [-> _]; [apply Hb|by apply Hc].
  - intros b. rewrite Hreal, (pc_free _ _ Hc). split; intros [Hb ?]; (split; [done|]);
      destruct (Hsame b) as [Hr _]; (apply Hb || congruence).
  - exact (pc_nodup _ _ Hc).
  - intros h b. rewrite Hreal. apply Hcache.
  - done.
Qed.

Lemma maybe_evict_spec p fr b :
  pool_core p fr → (b < length (blocks p))%nat →
  ∃ p', maybe_evict_cached_block b p = Ret (bool_decide (is_Some (hash p b))) p'
    ∧ pool_core p' fr ∧ static p' = static p ∧ free_block_queue p' = free_block_queue p
    ∧ (∀ i, ref p' i = ref p i)
    ∧ (∀ i, hash p' i = if decide (i = b) then None else hash p i).
Proof.
  intros Hc Hb. unfold maybe_evict_cached_block. rewrite get_bind.
  change (block_hash (block_of p b)) with (hash p b).
  destruct (hash p b) as [h|] eqn:Hh.
  2:{ exists p. rewrite bool_decide_eq_false_2 by (by intros []). split_and!; try done.
      intros i. case_decide; congruence. }
  assert (real p b) as Hreal.
  { destruct (real_dec p b Hb) as [->|]; [|done]. rewrite (pc_hash0 _ _ Hc) in Hh. done. }
  assert (b ∈ ids_of (cached_block_hash_to_block p) h) as Hin by (by apply Hc).
  destruct (cache_pop_spec h b _ (pc_cache_wf _ _ Hc)) as (Hwf & Hr & Hids).
  rewrite bool_decide_eq_true_2 in Hr by done.
  destruct (cache_pop h b _) as [r c']. cbn [fst snd] in *. subst r.
  rewrite modify_bind, modify_bind, modify_bind. rewrite bool_decide_eq_true_2 by done.
  set (p1 := alter_block (set_hash None) b (set_cache c' p)).
  set (e := BlockRemoved _ _). destruct (push_event_same e p1) as (Hbl & Hq & Hca & Hst).
  eexists. split; [reflexivity|].
  assert (∀ i, hash (push_event e p1) i = if decide (i = b) then None else hash p i) as Hhash.
  { intros i. unfold hash at 1, block_of. rewrite Hbl. fold (block_of p1 i). fold (hash p1 i).
    unfold p1. rewrite hash_alter by done. by case_decide. }
  assert (∀ i, ref (push_event e p1) i = ref p i) as Href.
  { intros i. unfold ref at 1, block_of. rewrite Hbl. fold (block_of p1 i). fold (ref p1 i).
    unfold p1. by rewrite ref_set_hash. }
  assert (static (push_event e p1) = static p) as Hstat.
  { rewrite Hst. unfold p1. by rewrite static_alter. }
  split_and!; [|exact Hstat|by rewrite Hq|exact Href|exact Hhash].
  apply (core_rehash p); [done|exact Hstat| | | |].
  - intros i Hi. split; [apply Href|]. unfold block_of. rewrite Hbl. fold (block_of p1 i).
    unfold p1. by rewrite is_null_alter.
  - intros h' i. rewrite Hca, Hhash. unfold p1. cbn [cached_block_hash_to_block alter_block set_blocks set_cache].
    rewrite Hids, (pc_cache _ _ Hc). case_decide; subst; [rewrite Hh|]; naive_solver.
  - by rewrite Hca.
  - rewrite Hhash. case_decide; [done|apply Hc].
Qed.

(** *** Allocation *)
(** The hash a block is handed out with: evicted when caching is enabled. *)
Definition fresh_hash (p : BlockPool) (b : nat) : option BlockHashWithGroupId :=
  if enable_caching p then None else hash p b.

Lemma claim_spec p fr b :
  pool_core p (b :: fr) →
  ∃ p', claim b p = Ret tt p' ∧ pool_core p' fr ∧ static p' = static p
    ∧ free_block_queue p' = free_block_queue p
    ∧ (∀ i, ref p' i = if decide (i = b) then 1 else ref p i)
    ∧ (∀ i, hash p' i = if decide (i = b) then fresh_hash p i else hash p i).
Proof.
  intros Hc. destruct (proj1 (pc_free _ _ Hc b)) as [Hb Hr]; [set_solver|].
  pose proof (pc_nodup _ _ Hc) as [Hnin Hnd]%NoDup_cons. pose proof (proj2 Hb) as Hlt.
  unfold claim. rewrite get_bind.
  assert (∃ p1, ((if enable_caching p then maybe_evict_cached_block b ;; mret tt else mret tt) : PM unit) p
      = Ret tt p1 ∧ pool_core p1 (b :: fr) ∧ static p1 = static p
      ∧ free_block_queue p1 = free_block_queue p ∧ (∀ i, ref p1 i = ref p i)
      ∧ (∀ i, hash p1 i = if decide (i = b) then fresh_hash p i else hash p i))
    as (p1 & Hrun & Hc1 & Hs1 & Hq1 & Hr1 & Hh1).
  { unfold fresh_hash. destruct (enable_caching p) eqn:He.
    - destruct (maybe_evict_spec p _ b Hc Hlt) as (p1 & Hrun & ? & ? & ? & ? & Hh). exists p1.
      rewrite bind_unfold, Hrun. by split_and!.
    - exists p. split_and!; try done. intros i. by case_decide. }
  rewrite bind_unfold, Hrun, get_bind, assert_bind
    by (apply Z.eqb_eq; change (ref p1 b = 0); by rewrite Hr1).
  destruct (static_proj _ _ Hs1) as (_ & _ & Hlen & _).
  assert (real p1 b) as Hb1 by (unfold real; rewrite Hlen; exact Hb).
  exists (alter_block (add_ref 1) b p1). split; [done|]. split_and!.
  - eapply core_add_ref; [exact Hc1|done|rewrite Hr1, Hr; lia|done|].
    intros i. rewrite Hr1, Hr. destruct (decide (i = b)) as [->|]; [split; [by intros ?%Hnin|lia]|].
    rewrite elem_of_cons. naive_solver.
  - by rewrite static_alter.
  - done.
  - intros i. rewrite ref_alter by apply Hb1. rewrite !Hr1, Hr. by case_decide.
  - intros i. by rewrite hash_add_ref by apply Hb1.
Qed.

Lemma claims_spec X : ∀ p fr,
  pool_core p (X ++ fr) →
  ∃ p', forM X claim p = Ret tt p' ∧ pool_core p' fr ∧ static p' = static p
    ∧ free_block_queue p' = free_block_queue p
    ∧ (∀ i, ref p' i = if decide (i ∈ X) then 1 else ref p i)
    ∧ (∀ i, hash p' i = if decide (i ∈ X) then fresh_hash p i else hash p i).
Proof.
  induction X as [|b X IH]; intros p fr Hc.
  { exists p. split_and!; try done; intros i; by rewrite decide_False by set_solver. }
  destruct (claim_spec p (X ++ fr) b Hc) as (p1 & Hrun & Hc1 & Hs1 & Hq1 & Hr1 & Hh1).
  destruct (IH p1 fr Hc1) as (p2 & Hrun2 & Hc2 & Hs2 & Hq2 & Hr2 & Hh2).
  destruct (static_proj _ _ Hs1) as (_ & _ & _ & He).
  exists p2. cbn [forM]. rewrite bind_unfold, Hrun, Hrun2.
  split_and!; [done|done|by rewrite Hs2|by rewrite Hq2| |].
  - intros i. rewrite Hr2, Hr1. destruct (decide (i ∈ X)), (decide (i = b)), (decide (i ∈ b :: X)); set_solver.
  - intros i. unfold fresh_hash in *. rewrite Hh2, Hh1, He.
    destruct (enable_caching p), (decide (i ∈ X)), (decide (i = b)), (decide (i ∈ b :: X)); set_solver.
Qed.

Lemma block_ids_fmap bs : block_ids (Block <$> bs) = bs.
Proof. unfold block_ids. induction bs; simpl; [done|]. by f_equal. Qed.

(** [get_new_blocks] pops the head of the free list and references each block
    once; with prefix caching on, their hashes are evicted. *)
Lemma get_new_blocks_spec p X l :
  pool_inv p (X ++ l) →
  ∃ p', get_new_blocks (zlen X) p = Ret X p' ∧ pool_inv p' l ∧ static p' = static p
    ∧ (∀ i, ref p' i = if decide (i ∈ X) then 1 else ref p i)
    ∧ (∀ i, hash p' i = if decide (i ∈ X) then fresh_hash p i else hash p i).
Proof.
  intros [Hc Hq]. unfold get_new_blocks. rewrite get_bind.
  rewrite (proj2 (Z.ltb_ge _ _)).
  2:{ rewrite (inv_num_free p (X ++ l)) by by split. unfold zlen. rewrite length_app. lia. }
  destruct (popleft_n_spec _ _ _ Hq) as (q' & Hpop & Hq').
  rewrite bind_unfold. unfold in_queue, zoom. rewrite Hpop. cbn zeta. rewrite block_ids_fmap.
  destruct (claims_spec X (set_queue q' p) l) as (p' & Hrun & Hc' & Hs & Hqe & Hr & Hh).
  { destruct Hc. by split. }
  rewrite bind_unfold, Hrun. exists p'. split_and!; [done|split; [done|by rewrite Hqe]|done|done|done].
Qed.

Lemma get_new_blocks_short p l n :
  pool_inv p l → zlen l < n → get_new_blocks n p = Exc ValueError p.
Proof.
  intros Hp Hn. unfold get_new_blocks. rewrite get_bind, (inv_num_free p l) by done.
  by rewrite (proj2 (Z.ltb_lt _ _)).
Qed.

(** *** Touching *)
(** A pool that differs in reference counts only. *)
Lemma core_recount p p' fr fr' :
  pool_core p fr → static p' = static p →
  cached_block_hash_to_block p' = cached_block_hash_to_block p →
  (∀ i, is_null (block_of p' i) = is_null (block_of p i)) →
  (∀ i, hash p' i = hash p i) →
  (∀ i, real p i → 0 ≤ ref p' i) → NoDup fr' →
  (∀ i, i ∈ fr' ↔ real p i ∧ ref p' i = 0) →
  pool_core p' fr'.
Proof.
  intros Hc Hs Hcache Hnull Hhash Hr Hnd Hfr. apply static_proj in Hs as (Hn & Hnl & Hlen & _).
  assert (∀ b, real p' b ↔ real p b) as Hreal by (intros; unfold real; by rewrite Hlen).
  split.
  - unfold zlen. rewrite Hn, Hlen. exact (pc_num _ _ Hc).
  - rewrite Hlen. exact (pc_pos _ _ Hc).
  - rewrite Hnl. exact (pc_null _ _ Hc).
  - intros b. rewrite Hlen, Hnull. apply Hc.
  - intros b. rewrite Hreal. apply Hr.
  - intros b. rewrite Hreal. apply Hfr.
  - done.
  - intros h b. rewrite Hreal, Hhash, Hcache. apply Hc.
  - rewrite Hcache. exact (pc_cache_wf _ _ Hc).
  - rewrite Hhash. exact (pc_hash0 _ _ Hc).
Qed.

Lemma in_queue_Ret {A} (c : QM A) p a q' :
  c (free_block_queue p) = Ret a q' → in_queue c p = Ret a (set_queue q' p).
Proof. intros H. unfold in_queue, zoom. by rewrite H. Qed.

Lemma free_real p fr b : pool_core p fr → b ∈ fr → real p b ∧ b ≠ 0%nat.
Proof. intros Hc [Hb _]%(pc_free _ _ Hc). split; [done|]. destruct Hb. lia. Qed.

Lemma touch1_spec p l b :
  pool_inv p l → (b < length (blocks p))%nat →
  ∃ p', touch1 b p = Ret tt p' ∧ pool_inv p' (filter (λ i, i ≠ b) l) ∧ static p' = static p
    ∧ (∀ i, ref p' i = ref p i + if decide (i = b) then 1 else 0)
    ∧ (∀ i, hash p' i = hash p i).
Proof.
  intros [Hc Hq] Hb. unfold touch1. rewrite get_bind.
  destruct (real_dec p b Hb) as [->|Hreal].
  { rewrite (pc_is_null _ _ Hc) by done. cbn [bool_decide negb]. rewrite andb_false_r.
    rewrite mret_bind. eexists. split; [done|].
    rewrite filter_ne_notin by (intros H0; by apply (free_real p l) in H0 as [_ ?]).
    split_and!; [split; [by apply core_add_ref_null|done]|by rewrite static_alter| |].
    - intros i. rewrite ref_alter by done. case_decide; subst; lia.
    - intros i. by rewrite hash_add_ref. }
  pose proof (pc_ref _ _ Hc b Hreal) as Hge. rewrite (core_is_null p l b Hc Hreal). cbn [negb]. rewrite andb_true_r.
  assert (∃ q', ((if ref_cnt (block_of p b) =? 0 then in_queue (remove (Block b)) else mret tt) : PM unit) p
     = Ret tt (set_queue q' p) ∧ queue_repr q' (filter (λ i, i ≠ b) l)) as (q' & Hrun & Hq').
  { change (ref_cnt (block_of p b)) with (ref p b).
    destruct (Z.eqb_spec (ref p b) 0) as [H0|H0].
    - assert (b ∈ l) as Hbl by (by apply Hc).
      destruct (run_op_spec (QRemove b) _ _ Hq I) as (q' & Hrun & Hr). unfold run_op, spec_op in *.
      rewrite decide_True in Hrun, Hr by done. exists q'. split; [|done].
      apply in_queue_Ret. rewrite bind_unfold in Hrun.
      destruct (remove (Block b) (free_block_queue p)) as [[]|]; cbn in Hrun; by simplify_eq.
    - exists (free_block_queue p). split; [by destruct p|].
      rewrite filter_ne_notin; [done|]. intros [_ ?]%(pc_free _ _ Hc). done. }
  rewrite bind_unfold, Hrun. eexists. split; [done|].
  split_and!.
  - split; [|done]. eapply (core_add_ref _ l).
    + by destruct Hc; split.
    + done.
    + change (ref (set_queue q' p) b) with (ref p b). lia.
    + apply NoDup_filter, Hc.
    + intros i. change (ref (set_queue q' p) b) with (ref p b).
      rewrite list_elem_of_filter. case_decide; [|tauto]. split; [tauto|lia].
  - by rewrite static_alter.
  - intros i. rewrite ref_alter by done. change (ref (set_queue q' p)) with (ref p).
    case_decide; subst; lia.
  - intros i. by rewrite hash_add_ref.
Qed.

(** [touch] adds one reference per occurrence and takes the touched blocks out
    of the free list, keeping the order of the others. *)
Lemma touch_spec bs : ∀ p l,
  pool_inv p l → (∀ b, b ∈ bs → (b < length (blocks p))%nat) →
  ∃ p', touch bs p = Ret tt p' ∧ pool_inv p' (filter (λ i, i ∉ bs) l) ∧ static p' = static p
    ∧ (∀ i, ref p' i = ref p i + occ i bs)
    ∧ (∀ i, hash p' i = hash p i).
Proof.
  unfold touch. induction bs as [|b bs IH]; intros p l Hp Hb.
  { exists p. split; [done|]. rewrite filter_all by set_solver.
    split_and!; [apply Hp..|done| |done]. intros. simpl. lia. }
  destruct (touch1_spec p l b Hp) as (p1 & Hrun & Hp1 & Hs1 & Hr1 & Hh1); [by apply Hb; set_solver|].
  destruct (IH p1 _ Hp1) as (p2 & Hrun2 & Hp2 & Hs2 & Hr2 & Hh2).
  { intros b' Hb'. apply static_proj in Hs1 as (_ & _ & -> & _). apply Hb. set_solver. }
  exists p2. cbn [forM]. rewrite bind_unfold, Hrun. split; [done|]. split_and!.
  - rewrite list_filter_filter in Hp2.
    erewrite filter_iff_in; [exact Hp2|]. intros i _. simpl. set_solver.
  - by rewrite Hs2.
  - intros i. rewrite Hr2, Hr1. cbn [occ]. destruct (decide (i = b)), (decide (b = i)); subst; lia || done.
  - intros i. by rewrite Hh2, Hh1.
Qed.

(** *** Freeing *)
Lemma drop_refs_spec bs : ∀ p,
  (∀ b, b ∈ bs → (b < length (blocks p))%nat) →
  let p' := foldl (λ p b, alter_block (add_ref (-1)) b p) p bs in
  static p' = static p ∧ cached_block_hash_to_block p' = cached_block_hash_to_block p
  ∧ free_block_queue p' = free_block_queue p
  ∧ (∀ i, is_null (block_of p' i) = is_null (block_of p i)) ∧ (∀ i, hash p' i = hash p i)
  ∧ (∀ i, ref p' i = ref p i - occ i bs).
Proof.
  induction bs as [|b bs IH]; intros p Hb; cbn zeta; cbn [foldl].
  { split_and!; try done. intros. simpl. lia. }
  assert (b < length (blocks p))%nat as Hlt by (apply Hb; set_solver).
  destruct (IH (alter_block (add_ref (-1)) b p)) as (Hs & Hca & Hq & Hn & Hh & Hr).
  { intros b' Hb'. rewrite length_alter_blocks. apply Hb. set_solver. }
  split_and!; [by rewrite Hs, static_alter|by rewrite Hca|by rewrite Hq|..]; intros i.
  - by rewrite Hn, is_null_alter.
  - by rewrite Hh, hash_add_ref.
  - rewrite Hr, ref_alter by done. cbn [occ].
    destruct (decide (i = b)), (decide (b = i)); subst; lia || done.
Qed.

(** [free_blocks] drops one reference per block and appends, in the given
    order, the blocks whose last reference it was. *)
Lemma pool_free_spec p l bs :
  pool_inv p l → (∀ b, b ∈ bs → b = 0%nat ∨ real p b ∧ 1 ≤ ref p b) →
  NoDup (filter (λ b, b ≠ 0%nat) bs) →
  ∃ p', free_blocks bs p = Ret tt p'
    ∧ pool_inv p' (l ++ filter (λ b, b ≠ 0%nat ∧ ref p b = 1) bs) ∧ static p' = static p
    ∧ (∀ i, ref p' i = ref p i - occ i bs) ∧ (∀ i, hash p' i = hash p i).
Proof.
  intros [Hc Hq] Hbs Hnd. unfold free_blocks. rewrite modify_bind, get_bind.
  destruct (drop_refs_spec bs p) as (Hs & Hca & Hqe & Hn & Hh & Hr).
  { intros b Hb. pose proof (pc_pos _ _ Hc). destruct (Hbs b Hb) as [->|[[??] _]]; lia. }
  set (p1 := foldl _ p bs) in *.
  assert (∀ b, b ∈ bs → b ≠ 0%nat → occ b bs = 1) as Hocc.
  { intros b Hb H0. rewrite <-(occ_filter (λ b, b ≠ 0%nat)) by done.
    rewrite occ_NoDup, decide_True; [done| |done]. by apply list_elem_of_filter. }
  set (F := filter (λ b, b ≠ 0%nat ∧ ref p b = 1) bs).
  assert (filter (λ b, ref_cnt (block_of p1 b) = 0 ∧ is_null (block_of p1 b) = false) bs = F) as ->.
  { apply filter_iff_in. intros b Hb. rewrite Hn. change (ref_cnt (block_of p1 b)) with (ref p1 b).
    rewrite Hr. destruct (decide (b = 0%nat)) as [->|H0].
    - rewrite (pc_is_null _ _ Hc) by apply Hc. rewrite bool_decide_eq_true_2 by done. naive_solver.
    - rewrite Hocc by done. destruct (Hbs b Hb) as [?|[Hreal _]]; [done|].
      rewrite (core_is_null p l b) by done. split; [intros [? _]; split; [done|lia]|intros [_ ?]; split; [lia|done]]. }
  assert (∀ b, b ∈ F → b ≠ 0%nat ∧ real p b ∧ ref p b = 1 ∧ b ∈ bs) as HF.
  { intros b [[H0 H1] Hb]%list_elem_of_filter. destruct (Hbs b Hb) as [?|[? _]]; [done|]. auto. }
  assert (NoDup F) as HndF.
  { unfold F. eapply NoDup_Permutation_proper in Hnd; [|reflexivity].
    assert (F = filter (λ b, ref p b = 1) (filter (λ b, b ≠ 0%nat) bs)) as HFe.
    { unfold F. rewrite list_filter_filter. apply filter_iff_in. intros. tauto. }
    fold F. rewrite HFe. by apply NoDup_filter. }
  destruct (append_n_spec (free_block_queue p1) l F) as (q' & Hrun & Hq'); [by rewrite Hqe|done| |].
  { intros b Hb Hbl. apply (pc_free _ _ Hc) in Hbl as [_ ?]. destruct (HF b Hb) as (_ & _ & ? & _). lia. }
  erewrite in_queue_Ret by exact Hrun. eexists. split; [done|]. split_and!.
  - split; [|done]. apply (core_recount p _ l); try done.
    + intros i Hi. change (ref (set_queue q' p1) i) with (ref p1 i). rewrite Hr.
      pose proof (pc_ref _ _ Hc i Hi). destruct (decide (i ∈ bs)) as [Hb|Hb].
      * destruct Hi as [Hi0 ?]. rewrite Hocc by (done || lia). destruct (Hbs i Hb) as [?|[_ ?]]; lia.
      * rewrite occ_notin by done. lia.
    + apply NoDup_app. split_and!; [apply Hc| |done]. intros b Hbl HbF.
      apply (pc_free _ _ Hc) in Hbl as [_ ?]. destruct (HF b HbF) as (_ & _ & ? & _). lia.
    + intros i. change (ref (set_queue q' p1) i) with (ref p1 i). rewrite Hr, elem_of_app, (pc_free _ _ Hc).
      split.
      * intros [[Hi H0]|Hi].
        { split; [done|]. rewrite occ_notin; [lia|]. intros Hb. destruct Hi as [? ?].
          destruct (Hbs i Hb) as [?|[_ ?]]; lia. }
        { destruct (HF i Hi) as (? & ? & ? & ?). rewrite Hocc by done. split; [done|lia]. }
      * intros [Hi H0]. destruct (decide (i ∈ bs)) as [Hb|Hb].
        { right. apply list_elem_of_filter. destruct Hi as [? ?]. rewrite Hocc in H0 by (done || lia).
          split; [lia|done]. }
        { rewrite occ_notin in H0 by done. left. split; [done|lia]. }
  - exact Hs.
  - exact Hr.
  - exact Hh.
Qed.

(** *** Explicit eviction, reset, construction *)
Lemma evict_blocks_spec ids : ∀ p l,
  pool_inv p l → (∀ b, b ∈ ids → (b < length (blocks p))%nat) →
  ∃ p', evict_blocks ids p = Ret tt p' ∧ pool_inv p' l ∧ static p' = static p
    ∧ (∀ i, ref p' i = ref p i)
    ∧ (∀ i, hash p' i = if decide (i ∈ ids) then None else hash p i).
Proof.
  unfold evict_blocks. induction ids as [|b ids IH]; intros p l Hp Hb.
  { exists p. split_and!; try apply Hp; done. }
  assert (b < length (blocks p))%nat as Hlt by (apply Hb; set_solver).
  destruct Hp as [Hc Hq].
  destruct (maybe_evict_spec p l b Hc Hlt) as (p1 & Hrun & Hc1 & Hs1 & Hq1 & Hr1 & Hh1).
  destruct (IH p1 l) as (p2 & Hrun2 & Hp2 & Hs2 & Hr2 & Hh2).
  { split; [done|by rewrite Hq1]. }
  { intros b' Hb'. apply static_proj in Hs1 as (_ & _ & -> & _). apply Hb. set_solver. }
  exists p2. cbn [forM]. rewrite bind_unfold, get_bind, assert_bind by by apply Nat.ltb_lt.
  rewrite bind_unfold, Hrun. split; [exact Hrun2|]. split_and!; [apply Hp2..|by rewrite Hs2| |].
  - intros i. by rewrite Hr2.
  - intros i. rewrite Hh2, Hh1. destruct (decide (i ∈ ids)), (decide (i = b)), (decide (i ∈ b :: ids));
      done || set_solver.
Qed.

(** A pool whose free list has [num_gpu_blocks - 1] entries references nothing. *)
Lemma all_free p l :
  pool_core p l → zlen l = num_gpu_blocks p - 1 → ∀ b, real p b → b ∈ l.
Proof.
  intros Hc Hlen b [Hb0 Hb]. rewrite (pc_num _ _ Hc) in Hlen.
  assert (seq 1 (length (blocks p) - 1) ⊆+ l) as Hsub.
  { assert (l ⊆+ seq 1 (length (blocks p) - 1)) as Hl.
    { apply NoDup_submseteq; [apply Hc|]. intros i [[??] _]%(pc_free _ _ Hc). apply elem_of_seq. lia. }
    apply submseteq_length_Permutation in Hl; [by rewrite Hl|].
    rewrite length_seq. unfold zlen in Hlen. lia. }
  eapply elem_of_submseteq; [|exact Hsub]. apply elem_of_seq. lia.
Qed.

Lemma reset_prefix_cache_spec p l :
  pool_inv p l →
  if decide (zlen l = num_gpu_blocks p - 1) then
    ∃ p', reset_prefix_cache p = Ret true p' ∧ pool_inv p' l ∧ static p' = static p
      ∧ (∀ i, ref p' i = ref p i) ∧ (∀ i, hash p' i = None)
      ∧ cached_block_hash_to_block p' = ∅
  else reset_prefix_cache p = Ret false p.
Proof.
  intros [Hc Hq]. unfold reset_prefix_cache. rewrite get_bind, (inv_num_free p l) by by split.
  destruct (Z.eqb_spec (num_gpu_blocks p - zlen l) 1); [|by rewrite decide_False by lia].
  rewrite decide_True by lia. cbn [negb]. rewrite !modify_bind.
  set (p1 := set_blocks _ (set_cache ∅ p)).
  destruct (push_event_same AllBlocksCleared p1) as (Hbl & Hqe & Hca & Hst).
  eexists. split; [reflexivity|].
  assert (∀ i, block_of (push_event AllBlocksCleared p1) i = set_hash None (block_of p i)
    ∨ (length (blocks p) ≤ i)%nat ∧ block_of (push_event AllBlocksCleared p1) i = inhabitant) as Hb.
  { intros i. unfold block_of. rewrite Hbl. unfold p1. cbn [blocks set_blocks set_cache].
    rewrite !list_lookup_total_alt, list_lookup_fmap.
    destruct (blocks p !! i) eqn:Hi; [by left|right]. split; [by apply lookup_ge_None|done]. }
  assert (static (push_event AllBlocksCleared p1) = static p) as Hs.
  { rewrite Hst. unfold static, p1. cbn. by rewrite length_fmap. }
  assert (∀ i, ref (push_event AllBlocksCleared p1) i = ref p i) as Href.
  { intros i. unfold ref. destruct (Hb i) as [->|[Hi ->]]; [done|].
    unfold block_of. rewrite list_lookup_total_alt. apply lookup_ge_None in Hi. by rewrite Hi. }
  assert (∀ i, hash (push_event AllBlocksCleared p1) i = None) as Hhash.
  { intros i. unfold hash. by destruct (Hb i) as [->|[_ ->]]. }
  split_and!; [|exact Hs|exact Href|exact Hhash|by rewrite Hca].
  split; [|by rewrite Hqe]. apply (core_rehash p); [done|exact Hs| | | |done].
  - intros i Hi. split; [apply Href|]. destruct (Hb i) as [->|[? _]]; [done|lia].
  - intros h b. rewrite Hca, Hhash. unfold p1. simpl. unfold ids_of. rewrite lookup_empty. set_solver.
  - rewrite Hca. intros h. unfold ids_of. simpl. rewrite lookup_empty. split; [apply NoDup_nil_2|done].
Qed.

Lemma pool_init_spec n caching hash_size events use_int :
  (0 < n)%nat →
  ∃ p, pool_init n caching hash_size events use_int = Some p
    ∧ pool_inv p (seq 1 (n - 1)) ∧ (∀ i, ref p i = 0) ∧ (∀ i, hash p i = None)
    ∧ length (blocks p) = n ∧ enable_caching p = caching ∧ hash_block_size p = hash_size.
Proof.
  intros Hn. pose proof (queue_init_spec n) as Hq. destruct n as [|n]; [lia|].
  destruct (popleft_spec (queue_init (S n)) 0%nat (seq 1 n) Hq) as (q & Hrun & Hq').
  unfold pool_init. cbn [Nat.ltb Nat.leb]. rewrite Hrun. eexists. split; [reflexivity|].
  set (p := mkPool _ _ _ _ _ _ _ _ _ _).
  assert (length (blocks p) = S n) as Hlen by (cbn; by rewrite length_replicate).
  assert (∀ i, (i < S n)%nat → block_of p i = mkBlock 0 None (bool_decide (i = 0%nat))) as Hb.
  { intros i Hi. unfold block_of. rewrite list_lookup_total_alt.
    change (blocks p) with (alter set_null 0%nat (replicate (S n) (mkBlock 0 None false))).
    rewrite list_lookup_alter.
    destruct (decide (0%nat = i)) as [<-|Hi0]; [done|].
    by rewrite (bool_decide_eq_false_2 (i = 0%nat)), lookup_replicate_2 by lia. }
  assert (∀ i, ref p i = 0 ∧ hash p i = None) as Hrh.
  { intros i. unfold ref, hash. destruct (decide (i < S n)%nat) as [Hi|Hi]; [by rewrite Hb|].
    unfold block_of. rewrite list_lookup_total_alt.
    rewrite (proj2 (lookup_ge_None (blocks p) i)); [done|lia]. }
  rewrite Nat.sub_succ, Nat.sub_0_r.
  split_and!; [|apply Hrh..|done|done|done]. split; [|done]. split.
  - unfold zlen. rewrite Hlen. done.
  - lia.
  - done.
  - intros i Hi. rewrite Hlen in Hi. by rewrite Hb.
  - intros i _. destruct (Hrh i) as [-> _]. done.
  - intros i. rewrite elem_of_seq. unfold real. rewrite Hlen. destruct (Hrh i) as [-> _].
    split; [intros; split; lia|lia].
  - apply NoDup_seq.
  - intros h i. destruct (Hrh i) as [_ ->]. unfold ids_of. simpl. rewrite lookup_empty. set_solver.
  - intros h. unfold ids_of. simpl. rewrite lookup_empty. split; [apply NoDup_nil_2|done].
  - apply Hrh.
Qed.

(** *** Caching full blocks *)
Definition selected (block_mask : option (list bool)) (i : nat) : bool :=
  match block_mask with None => true | Some m => default false (m !! i) end.

Lemma store_one p fr b key :
  pool_core p fr → real p b → hash p b = None →
  let p1 := alter_block (set_hash (Some key)) b p in
  let p' := set_cache (cache_insert key b (cached_block_hash_to_block p1)) p1 in
  pool_core p' fr ∧ static p' = static p ∧ (∀ i, ref p' i = ref p i)
  ∧ ∀ i, hash p' i = if decide (i = b) then Some key else hash p i.
Proof.
  intros Hc [Hb0 Hb] Hnone p1 p'.
  assert (∀ i, hash p' i = if decide (i = b) then Some key else hash p i) as Hhash.
  { intros i. change (hash p' i) with (hash p1 i). unfold p1. by apply hash_alter. }
  assert (∀ i, ref p' i = ref p i) as Href.
  { intros i. change (ref p' i) with (ref p1 i). unfold p1. by apply ref_set_hash. }
  assert (static p' = static p) as Hs.
  { change (static p') with (static p1). apply static_alter. }
  destruct (cache_insert_spec key b _ (pc_cache_wf _ _ Hc)) as [Hwf Hids].
  split_and!; [|done..]. apply (core_rehash p); [done..| | | |].
  - intros i Hi. split; [apply Href|]. change (block_of p' i) with (block_of p1 i).
    unfold p1. by rewrite is_null_alter.
  - intros h i. rewrite Hhash.
    change (cached_block_hash_to_block p') with (cache_insert key b (cached_block_hash_to_block p)).
    rewrite Hids, (pc_cache _ _ Hc). case_decide; subst.
    + rewrite Hnone. unfold real. split; [|naive_solver].
      intros [[-> _]|[_ ?]]; [split; [lia|done]|done].
    + naive_solver.
  - exact Hwf.
  - rewrite Hhash, decide_False by lia. apply Hc.
Qed.

Lemma store_blocks_spec mask nh g gb fr bs : ∀ i p,
  to_bytes4 g = Some gb → pool_core p fr →
  (∀ b, b ∈ bs → b = 0%nat ∨ real p b) → NoDup (filter (λ b, b ≠ 0%nat) bs) →
  (∀ j b, bs !! j = Some b → b ≠ 0%nat → selected mask (i + j) = true → hash p b = None) →
  (∀ j, (j < length bs)%nat → is_Some (nh !! (i + j)%nat)) →
  ∃ stored p', store_blocks i bs mask nh g p = Ret stored p'
    ∧ pool_core p' fr ∧ static p' = static p ∧ free_block_queue p' = free_block_queue p
    ∧ (∀ x, ref p' x = ref p x)
    ∧ (∀ j b (h : BlockHash), bs !! j = Some b → b ≠ 0%nat → selected mask (i + j) = true →
         nh !! (i + j)%nat = Some h → hash p' b = Some (h ++ gb))
    ∧ (∀ x, (∀ j, bs !! j = Some x → x ≠ 0%nat → selected mask (i + j) = false) → hash p' x = hash p x).
Proof.
  intros i p Hg. revert i p. induction bs as [|b bs IH]; intros i p Hc Hb Hnd Hnone Hlen.
  { exists [], p. split_and!; done. }
  assert (∀ j, (S i + j = i + S j)%nat) as Hsh by lia.
  cbn [store_blocks]. rewrite get_bind. fold (selected mask i).
  assert (is_null (block_of p b) = bool_decide (b = 0%nat)) as ->.
  { apply (pc_is_null _ _ Hc). destruct (Hb b) as [->|[? ?]]; [set_solver|apply Hc|done]. }
  assert (match mask with Some m => negb (default false (m !! i)) | None => false end
    = negb (selected mask i)) as -> by by destruct mask.
  destruct (decide (b ≠ 0%nat ∧ selected mask i = true)) as [[H0 Hsel]|Hskip].
  - rewrite bool_decide_eq_false_2, Hsel by done. cbn [negb orb].
    assert (hash p b = None) as Hbn.
    { apply (Hnone 0%nat b); [done|done|]. by rewrite Nat.add_0_r. }
    rewrite assert_bind by (by apply bool_decide_eq_true_2).
    destruct (Hlen 0%nat) as [h Hh]; [simpl; lia|]. rewrite Nat.add_0_r in Hh. rewrite Hh.
    unfold make_block_hash_with_group_id. rewrite Hg. cbn [fmap option_fmap option_map].
    rewrite !modify_bind. destruct (Hb b) as [?|Hreal]; [set_solver|done|].
    pose proof (store_one p fr b (h ++ gb) Hc Hreal Hbn) as Hone. cbn zeta in Hone.
    destruct Hone as (Hc1 & Hs1 & Hr1 & Hh1).
    set (p1 := set_cache _ _) in *.
    rewrite filter_cons_True in Hnd by done. apply NoDup_cons in Hnd as [Hbn' Hnd].
    assert (b ∉ bs) as Hbbs by (intros ?; by apply Hbn', list_elem_of_filter).
    destruct (IH (S i) p1) as (stored & p2 & Hrun & Hc2 & Hs2 & Hq2 & Hr2 & Hin & Hout); [done| |done|..].
    { intros b' Hb'. unfold real. destruct (static_proj _ _ Hs1) as (_ & _ & -> & _).
      apply Hb. set_solver. }
    { intros j b' Hj ? Hsel'. rewrite Hh1, decide_False by (intros ->; by apply Hbbs, (list_elem_of_lookup_2 _ j)).
      apply (Hnone (S j) b'); [done|done|]. by rewrite <-Hsh. }
    { intros j Hj. rewrite Hsh. apply Hlen. simpl. lia. }
    exists (h :: stored), p2. rewrite bind_unfold, Hrun.
    split_and!; [done|done|by rewrite Hs2|by rewrite Hq2| | |].
    + intros x. by rewrite Hr2, Hr1.
    + intros [|j] b' h' Hj ? Hsel' Hh'; [injection Hj as <-|].
      * rewrite Nat.add_0_r in Hh'. rewrite Hh in Hh'. injection Hh' as <-.
        rewrite Hout; [by rewrite Hh1, decide_True|].
        intros j Hj. exfalso. by apply (list_elem_of_lookup_2 _ j) in Hj.
      * rewrite <-Hsh in Hsel', Hh'. by eapply Hin.
    + intros x Hx. rewrite Hout, Hh1.
      * rewrite decide_False; [done|]. intros ->. specialize (Hx 0%nat eq_refl H0).
        rewrite Nat.add_0_r in Hx. congruence.
      * intros j Hj Hx0. rewrite Hsh. by apply Hx.
  - assert (bool_decide (b = 0%nat) || negb (selected mask i) = true) as ->.
    { destruct (decide (b = 0%nat)) as [->|]; [done|]. rewrite bool_decide_eq_false_2 by done.
      destruct (selected mask i); naive_solver. }
    destruct (IH (S i) p) as (stored & p2 & Hrun & Hc2 & Hs2 & Hq2 & Hr2 & Hin & Hout); [done|set_solver|..].
    { rewrite filter_cons in Hnd. case_decide; [by apply NoDup_cons in Hnd as [_ ?]|done]. }
    { intros j b' Hj. rewrite Hsh. apply (Hnone (S j) b' Hj). }
    { intros j Hj. rewrite Hsh. apply Hlen. simpl. lia. }
    exists stored, p2. split_and!; try done.
    + intros [|j] b' h' Hj ? Hsel' Hh'; [injection Hj as <-|].
      * rewrite Nat.add_0_r in Hsel'. tauto.
      * rewrite <-Hsh in Hsel', Hh'. by eapply Hin.
    + intros x Hx. apply Hout. intros j Hj Hx0. rewrite Hsh. by apply Hx.
Qed.

Lemma elem_of_take_drop (b : nat) n m bs : b ∈ take n (drop m bs) → b ∈ bs.
Proof.
  intros Hb. rewrite <-(take_drop m bs), elem_of_app. right.
  rewrite <-(take_drop n (drop m bs)), elem_of_app. by left.
Qed.

(** [cache_full_blocks] gives the blocks of indices [num_cached .. num_full-1]
    (except null and masked ones) the request's hashes, and nothing else. *)
Lemma cache_full_blocks_spec p l hashes hs bs nc nf block_size g gb mask :
  pool_inv p l → to_bytes4 g = Some gb →
  group_hashes (hash_block_size p) block_size hashes = Some hs →
  (nf ≤ length hashes)%nat → (nf ≤ length hs)%nat →
  (∀ m, mask = Some m → length m = length (take (nf - nc) (drop nc bs))) →
  (∀ b, b ∈ bs → b = 0%nat ∨ real p b) →
  NoDup (filter (λ b, b ≠ 0%nat) (take (nf - nc) (drop nc bs))) →
  (∀ j b, (nc ≤ j < nf)%nat → bs !! j = Some b → b ≠ 0%nat → selected mask (j - nc) = true → hash p b = None) →
  ∃ p', cache_full_blocks hashes bs nc nf block_size g mask p = Ret tt p'
    ∧ pool_inv p' l ∧ static p' = static p
    ∧ (∀ x, ref p' x = ref p x)
    ∧ (∀ j b (h : BlockHash), (nc ≤ j < nf)%nat → bs !! j = Some b → b ≠ 0%nat → selected mask (j - nc) = true →
         hs !! j = Some h → hash p' b = Some (h ++ gb))
    ∧ (∀ x, x ∉ take (nf - nc) (drop nc bs) → hash p' x = hash p x).
Proof.
  intros [Hc Hq] Hg Hhs Hnf Hnf' Hm Hb Hnd Hnone. unfold cache_full_blocks.
  destruct (Nat.leb_spec nf nc) as [Hle|Hlt].
  { exists p. split_and!; [done|split; done|done|done|lia|done]. }
  rewrite assert_bind by by apply Nat.leb_le.
  rewrite assert_bind by (destruct mask; [apply Nat.eqb_eq; by apply Hm|done]).
  rewrite get_bind, Hhs.
  destruct (store_blocks_spec mask (drop nc hs) g gb l (take (nf - nc) (drop nc bs)) 0 p)
    as (stored & p1 & Hrun & Hc1 & Hs1 & Hq1 & Hr1 & Hin & Hout); [done|done| |done|..].
  { intros b Hbi. apply Hb. by eapply elem_of_take_drop. }
  { intros j b [Hj Hjl]%lookup_take_Some ? Hsel. rewrite lookup_drop in Hj.
    apply (Hnone (nc + j)%nat b); [lia|done|done|]. by rewrite Nat.add_comm, Nat.add_sub. }
  { intros j Hj. rewrite lookup_drop. apply lookup_lt_is_Some. rewrite length_take in Hj. simpl. lia. }
  rewrite bind_unfold, Hrun.
  assert (∃ p', ((if negb (enable_kv_cache_events p) then mret tt
      else parent ← (if (nc =? 0)%nat then mret None
         else match parent_hash (hash_block_size p) block_size hashes (nc - 1) with
              | None => raise IndexError
              | Some h => mret (Some (maybe_convert_block_hash (use_int_block_hashes p) h))
              end);
         modify (push_event (BlockStored
            (maybe_convert_block_hash (use_int_block_hashes p) <$> stored) parent
            (Z.of_nat nc * block_size) (Z.of_nat nf * block_size) block_size g))) : PM unit) p1
      = Ret tt p' ∧ (p' = p1 ∨ ∃ e, p' = push_event e p1)) as (p' & -> & Hp').
  { destruct (enable_kv_cache_events p); cbn [negb]; [|eauto].
    destruct (Nat.eqb_spec nc 0) as [?|Hnc]; [eexists; split; [reflexivity|eauto]|].
    assert (is_Some (parent_hash (hash_block_size p) block_size hashes (nc - 1))) as [h ->].
    { unfold parent_hash. case_match; [|by eexists]. apply lookup_lt_is_Some. lia. }
    eexists. split; [reflexivity|eauto]. }
  exists p'. split; [done|].
  assert (pool_core p' l ∧ free_block_queue p' = free_block_queue p1 ∧ static p' = static p1
    ∧ (∀ x, ref p' x = ref p1 x) ∧ (∀ x, hash p' x = hash p1 x)) as (Hc' & Hqe & Hse & Hre & Hhe).
  { destruct Hp' as [->|[e ->]]; [by split_and!|].
    destruct (push_event_same e p1) as (Hbl & Hqe & Hca & Hst).
    assert (∀ x, block_of (push_event e p1) x = block_of p1 x) as Hbo.
    { intros x. unfold block_of. by rewrite Hbl. }
    split_and!; [|done|done|intros x; unfold ref; by rewrite Hbo|intros x; unfold hash; by rewrite Hbo].
    apply (core_rehash p1); [done|done| | | |].
    - intros x _. unfold ref. by rewrite Hbo.
    - intros h x. rewrite Hca. unfold hash. rewrite Hbo. apply Hc1.
    - rewrite Hca. apply Hc1.
    - unfold hash. rewrite Hbo. apply Hc1. }
  split_and!.
  - split; [done|]. by rewrite Hqe, Hq1.
  - by rewrite Hse.
  - intros x. by rewrite Hre.
  - intros j b h Hj Hbj H0 Hsel Hh. rewrite Hhe. apply (Hin (j - nc)%nat); [|done|done|].
    + apply lookup_take_Some. rewrite lookup_drop. split; [|lia].
      by replace (nc + (j - nc))%nat with j by lia.
    + rewrite lookup_drop. by replace (nc + (0 + (j - nc)))%nat with j by lia.
  - intros x Hx. rewrite Hhe. apply Hout. intros j Hj _. by apply (list_elem_of_lookup_2 _ j) in Hj.
Qed.
