(* ===== verification/Request.v ===== *)
(** * Requests ([vllm/v1/request.py])

    A [Request] with the fields the scheduler, the KV-cache manager, the
    encoder cache and the agent policy read: its construction, counters,
    status, priority order, and the appending of tokens with the hashes of the
    new blocks.  Streaming updates, events and statistics are left out. *)
From S2P Require Import Prelude PyFloat.
Local Open Scope Z_scope.

Inductive RequestStatus :=
  | WAITING
  | WAITING_FOR_STRUCTURED_OUTPUT_GRAMMAR
  | WAITING_FOR_REMOTE_KVS
  | WAITING_FOR_STREAMING_REQ
  | RUNNING
  | PREEMPTED
  | FINISHED_STOPPED
  | FINISHED_LENGTH_CAPPED
  | FINISHED_ABORTED
  | FINISHED_IGNORED
  | FINISHED_ERROR
  | FINISHED_REPETITION.
#[export] Instance RequestStatus_eq_dec : EqDecision RequestStatus.
Proof. solve_decision. Defined.

(** The value of the [IntEnum] member. *)
Definition status_value (s : RequestStatus) : Z :=
  match s with
  | WAITING => 1 | WAITING_FOR_STRUCTURED_OUTPUT_GRAMMAR => 2 | WAITING_FOR_REMOTE_KVS => 3
  | WAITING_FOR_STREAMING_REQ => 4 | RUNNING => 5 | PREEMPTED => 6 | FINISHED_STOPPED => 7
  | FINISHED_LENGTH_CAPPED => 8 | FINISHED_ABORTED => 9 | FINISHED_IGNORED => 10
  | FINISHED_ERROR => 11 | FINISHED_REPETITION => 12
  end.

Definition status_is_finished (s : RequestStatus) : bool :=
  status_value PREEMPTED <? status_value s.

Inductive FinishReason := STOP | LENGTH | ABORT | ERROR | REPETITION.
#[export] Instance FinishReason_eq_dec : EqDecision FinishReason.
Proof. solve_decision. Defined.

(** [_FINISHED_REASON_MAP.get(status)] *)
Definition status_finished_reason (s : RequestStatus) : option FinishReason :=
  match s with
  | FINISHED_STOPPED => Some STOP
  | FINISHED_LENGTH_CAPPED => Some LENGTH
  | FINISHED_ABORTED => Some ABORT
  | FINISHED_IGNORED => Some LENGTH
  | FINISHED_ERROR => Some ERROR
  | WAITING_FOR_STREAMING_REQ => Some STOP
  | FINISHED_REPETITION => Some REPETITION
  | _ => None
  end.

(** ** Parts of a request *)
(** [MultiModalFeatureSpec] with its [PlaceholderRange]: [is_embed] is the
    mask that selects the positions of the placeholder with an embedding. *)
Record MMFeature := mkMMFeature {
  identifier : string;
  mm_offset : Z;
  mm_length : Z;
  is_embed : option (list bool)
}.
#[export] Instance MMFeature_eq_dec : EqDecision MMFeature.
Proof. solve_decision. Defined.

(** [embeds_cumsum] of a mask: the running count of selected positions. *)
Fixpoint cumsum (n : Z) (mask : list bool) : list Z :=
  match mask with
  | [] => []
  | b :: mask' => let n' := if b : bool then n + 1 else n in n' :: cumsum n' mask'
  end.
Definition embeds_cumsum (f : MMFeature) : option (list Z) := cumsum 0 <$> is_embed f.

(** [get_num_embeds] *)
Definition get_num_embeds (f : MMFeature) : Z :=
  match embeds_cumsum f with
  | None => mm_length f
  | Some c => default 0 (last c)
  end.

(** [get_embeds_indices_in_range]; [None] is an [IndexError]. *)
Definition get_embeds_indices_in_range (f : MMFeature) (start_idx end_idx : Z) : option (Z * Z) :=
  match embeds_cumsum f with
  | None => Some (start_idx, end_idx)
  | Some c =>
      s ← (if 0 <? start_idx then c !! Z.to_nat (start_idx - 1) else Some 0);
      e ← (if 0 <? end_idx then c !! Z.to_nat (end_idx - 1) else Some 0);
      Some (s, e)
  end.

Record LoRARequest := mkLoRARequest { lora_name : string; lora_int_id : Z }.

Record RepetitionDetectionParams := mkRepetition {
  max_pattern_size : Z;
  min_pattern_size : Z;
  min_count : Z
}.

(** The fields of [SamplingParams] that a request and the scheduler read;
    [structured_outputs] tells whether any output constraint is set. *)
Record SamplingParams := mkSamplingParams {
  sp_max_tokens : option Z;
  min_tokens : Z;
  eos_token_id : option Z;
  stop_token_ids : option (list Z);
  repetition_detection : option RepetitionDetectionParams;
  sp_skip_reading_prefix_cache : option bool;
  structured_outputs : bool
}.

Record PoolingParams := mkPoolingParams { pp_skip_reading_prefix_cache : option bool }.

(** [stop_reason]: a token id or a text. *)
Inductive StopReason := StopToken (t : Z) | StopText (s : string).

#[export] Instance LoRARequest_eq_dec : EqDecision LoRARequest.
Proof. solve_decision. Defined.
#[export] Instance RepetitionDetectionParams_eq_dec : EqDecision RepetitionDetectionParams.
Proof. solve_decision. Defined.
#[export] Instance SamplingParams_eq_dec : EqDecision SamplingParams.
Proof. solve_decision. Defined.
#[export] Instance PoolingParams_eq_dec : EqDecision PoolingParams.
Proof. solve_decision. Defined.
#[export] Instance StopReason_eq_dec : EqDecision StopReason.
Proof. solve_decision. Defined.

Section Request.
Context {F : Type} `{FloatOps F}.

(** [prompt_embeds] is one byte string per position. *)
Record Request := mkRequest {
  request_id : string;
  priority : Z;
  arrival_time : F;
  status : RequestStatus;
  max_tokens : Z;
  num_prompt_tokens : Z;
  output_token_ids : list Z;
  all_token_ids : list Z;
  spec_token_ids : list Z;
  num_computed_tokens : Z;
  mm_features : list MMFeature;
  num_preemptions : Z;
  block_hashes : list (list Z);
  skip_reading_prefix_cache : bool;
  sampling_params : option SamplingParams;
  pooling_params : option PoolingParams;
  lora_request : option LoRARequest;
  cache_salt : option string;
  prompt_embeds : option (list (list Z));
  stop_reason : option StopReason
}.

Definition request_eta (r : Request) : Request :=
  {| request_id := request_id r; priority := priority r; arrival_time := arrival_time r;
     status := status r; max_tokens := max_tokens r; num_prompt_tokens := num_prompt_tokens r;
     output_token_ids := output_token_ids r; all_token_ids := all_token_ids r;
     spec_token_ids := spec_token_ids r; num_computed_tokens := num_computed_tokens r;
     mm_features := mm_features r; num_preemptions := num_preemptions r;
     block_hashes := block_hashes r; skip_reading_prefix_cache := skip_reading_prefix_cache r;
     sampling_params := sampling_params r; pooling_params := pooling_params r;
     lora_request := lora_request r; cache_salt := cache_salt r; prompt_embeds := prompt_embeds r;
     stop_reason := stop_reason r |}.
Definition put_status (v : RequestStatus) (r : Request) : Request :=
  ltac:(update_field request_eta (status r) v r).
Definition put_stop_reason (v : option StopReason) (r : Request) : Request :=
  ltac:(update_field request_eta (stop_reason r) v r).
Definition put_output_token_ids (v : list Z) (r : Request) : Request :=
  ltac:(update_field request_eta (output_token_ids r) v r).
Definition put_all_token_ids (v : list Z) (r : Request) : Request :=
  ltac:(update_field request_eta (all_token_ids r) v r).
Definition put_num_computed_tokens (v : Z) (r : Request) : Request :=
  ltac:(update_field request_eta (num_computed_tokens r) v r).
Definition put_spec_token_ids (v : list Z) (r : Request) : Request :=
  ltac:(update_field request_eta (spec_token_ids r) v r).
Definition put_num_preemptions (v : Z) (r : Request) : Request :=
  ltac:(update_field request_eta (num_preemptions r) v r).
Definition put_block_hashes (v : list (list Z)) (r : Request) : Request :=
  ltac:(update_field request_eta (block_hashes r) v r).

Definition num_tokens (r : Request) : Z := zlen (all_token_ids r).
Definition num_tokens_with_spec (r : Request) : Z :=
  zlen (all_token_ids r) + zlen (spec_token_ids r).
Definition num_output_tokens (r : Request) : Z := zlen (output_token_ids r).
Definition num_encoder_inputs (r : Request) : Z := zlen (mm_features r).
Definition has_encoder_inputs (r : Request) : bool := 0 <? num_encoder_inputs r.
Definition is_finished (r : Request) : bool := status_is_finished (status r).
Definition get_finished_reason (r : Request) : option FinishReason :=
  status_finished_reason (status r).

(** [get_num_encoder_embeds]; [None] is the failed assertion. *)
Definition get_num_encoder_embeds (r : Request) (input_id : nat) : option Z :=
  get_num_embeds <$> mm_features r !! input_id.

(** [get_skip_reading_prefix_cache] *)
Definition get_skip_reading_prefix_cache (sp : option SamplingParams) (pp : option PoolingParams) : bool :=
  match sp ≫= sp_skip_reading_prefix_cache with
  | Some b => b
  | None => default false (pp ≫= pp_skip_reading_prefix_cache)
  end.

(** [length_from_prompt_token_ids_or_embeds]; [None] is the [ValueError]. *)
Definition length_from_prompt_token_ids_or_embeds {E} (prompt_token_ids : option (list Z))
    (prompt_embeds : option (list E)) : option Z :=
  match prompt_token_ids, prompt_embeds with
  | None, None => None
  | None, Some e => Some (zlen e)
  | Some t, None => Some (zlen t)
  | Some t, Some e => if zlen e =? zlen t then Some (zlen t) else None
  end.

(** [a.__lt__(b)]: priority, arrival time, identifier; [lt_id] is the
    comparison of the object addresses, the last resort. *)
Definition request_lt (lt_id : bool) (a b : Request) : bool :=
  if negb (priority a =? priority b) then priority a <? priority b
  else if negb (feqb (arrival_time a) (arrival_time b)) then fltb (arrival_time a) (arrival_time b)
  else if bool_decide (request_id a = request_id b) then lt_id
  else bool_decide (String.compare (request_id a) (request_id b) = Lt).

(** ** The hasher of a request

    [block_hasher] is the function [get_request_block_hasher] returns, which
    may raise, or [None] when nothing is cached. *)
Section hasher.
Context (block_hasher : option (Request → option (list (list Z)))).

(** [update_block_hashes]; [None] is an exception of the hasher. *)
Definition update_block_hashes (r : Request) : option Request :=
  match block_hasher with
  | None => Some r
  | Some hasher => new ← hasher r; Some (put_block_hashes (block_hashes r ++ new) r)
  end.

(** [append_output_token_ids] of a list of tokens. *)
Definition append_output_token_ids (token_ids : list Z) (r : Request) : option Request :=
  update_block_hashes
    (put_all_token_ids (all_token_ids r ++ token_ids)
      (put_output_token_ids (output_token_ids r ++ token_ids) r)).

(** [Request.__init__]; [None] is the [ValueError] or the failed assertion. *)
Definition request_init (request_id : string) (prompt_token_ids : option (list Z))
    (sampling_params : option SamplingParams) (pooling_params : option PoolingParams)
    (arrival_time : F) (prompt_embeds : option (list (list Z))) (mm_features : list MMFeature)
    (lora_request : option LoRARequest) (cache_salt : option string) (priority : Z) : option Request :=
  let structured := match sampling_params with Some sp => structured_outputs sp | None => false end in
  limits ← match pooling_params, sampling_params with
           | Some _, _ => Some (1, WAITING)
           | None, Some sp =>
               n ← sp_max_tokens sp;
               Some (n, if structured then WAITING_FOR_STRUCTURED_OUTPUT_GRAMMAR else WAITING)
           | None, None => None
           end;
  n ← length_from_prompt_token_ids_or_embeds prompt_token_ids prompt_embeds;
  update_block_hashes
    {| request_id := request_id; priority := priority; arrival_time := arrival_time;
       status := limits.2; max_tokens := limits.1; num_prompt_tokens := n; output_token_ids := [];
       all_token_ids := default (replicate (Z.to_nat n) 0) prompt_token_ids;
       spec_token_ids := []; num_computed_tokens := 0; mm_features := mm_features;
       num_preemptions := 0; block_hashes := [];
       skip_reading_prefix_cache := get_skip_reading_prefix_cache sampling_params pooling_params;
       sampling_params := sampling_params; pooling_params := pooling_params;
       lora_request := lora_request; cache_salt := cache_salt; prompt_embeds := prompt_embeds;
       stop_reason := None |}.
End hasher.
End Request.
Arguments Request : clear implicits.
#[export] Instance Request_eq_dec {F} `{EqDecision F} : EqDecision (Request F).
Proof. solve_decision. Defined.

(** Exactly the statuses after [PREEMPTED] are final, and every final status
    has a finish reason. *)
Lemma finished_has_reason s : status_is_finished s = true → is_Some (status_finished_reason s).
Proof. destruct s; simpl; done || (intros; by eexists). Qed.
