(* ===== verification/KVCache.v ===== *)
(** * KV-cache management ([vllm/v1/core])

    The block tables of the requests: one [SingleTypeKVCacheManager] per
    KV-cache group over a shared block pool
    ([single_type_kv_cache_manager.py]), the coordinators without prefix
    caching and with a single group ([kv_cache_coordinator.py]) and the
    [KVCacheManager] the scheduler calls ([kv_cache_manager.py]).  Full,
    sliding-window, chunked-local and cross attention are modelled; Mamba and
    sink managers, the hybrid coordinator and the hit-rate statistics are not. *)
From S2P Require Import Prelude PyFloat FreeQueue BlockPool Request.
Local Open Scope Z_scope.

(** [cdiv(a, b)], [-(a // -b)] *)
Definition cdiv (a b : Z) : Z := - (a / (- b)).

(** The manager class and the spec data it reads.  [FullAttention exact]: the
    flag tells [type(spec) in (FullAttentionSpec, TQFullAttentionSpec)]. *)
Inductive SpecKind :=
  | FullAttention (exact : bool)
  | SlidingWindow (sliding_window : Z)
  | ChunkedLocalAttention (attention_chunk_size : Z)
  | CrossAttention.

Record SingleTypeKVCacheManager := mkManager {
  block_size : Z;
  spec_kind : SpecKind;
  max_admission_blocks_per_request : option Z;
  kv_cache_group_id : Z;
  new_block_ids : list nat;
  req_to_blocks : odict string (list nat);
  num_cached_block : odict string nat
}.

Definition set_new_block_ids (v : list nat) (m : SingleTypeKVCacheManager) :=
  {| block_size := block_size m; spec_kind := spec_kind m;
     max_admission_blocks_per_request := max_admission_blocks_per_request m;
     kv_cache_group_id := kv_cache_group_id m; new_block_ids := v;
     req_to_blocks := req_to_blocks m; num_cached_block := num_cached_block m |}.
Definition set_req_to_blocks (v : odict string (list nat)) (m : SingleTypeKVCacheManager) :=
  {| block_size := block_size m; spec_kind := spec_kind m;
     max_admission_blocks_per_request := max_admission_blocks_per_request m;
     kv_cache_group_id := kv_cache_group_id m; new_block_ids := new_block_ids m;
     req_to_blocks := v; num_cached_block := num_cached_block m |}.
Definition set_num_cached_block (v : odict string nat) (m : SingleTypeKVCacheManager) :=
  {| block_size := block_size m; spec_kind := spec_kind m;
     max_admission_blocks_per_request := max_admission_blocks_per_request m;
     kv_cache_group_id := kv_cache_group_id m; new_block_ids := new_block_ids m;
     req_to_blocks := req_to_blocks m; num_cached_block := v |}.

(** ** One manager and the pool it shares *)
Abbreviation SM := (M (BlockPool * SingleTypeKVCacheManager)).

Definition in_pool {A} (c : PM A) : SM A := zoom fst (λ p s, (p, s.2)) c.
Definition upd (f : SingleTypeKVCacheManager → SingleTypeKVCacheManager) : SM unit :=
  modify (λ s, (s.1, f s.2)).

(** [req_to_blocks.get(request_id, ())] and [req_to_blocks[request_id]], which
    creates the entry. *)
Definition table (id : string) (m : SingleTypeKVCacheManager) : list nat :=
  default [] (od_get id (req_to_blocks m)).
Definition ensure (id : string) (m : SingleTypeKVCacheManager) : SingleTypeKVCacheManager :=
  set_req_to_blocks (od_setdefault id [] (req_to_blocks m)) m.
(** Mutation of the list of blocks of a request. *)
Definition on_table (f : list nat → list nat) (id : string) (m : SingleTypeKVCacheManager) :=
  set_req_to_blocks (od_alter f id (req_to_blocks m)) m.

Definition get_num_skipped_tokens (num_computed_tokens : Z) (m : SingleTypeKVCacheManager) : Z :=
  match spec_kind m with
  | SlidingWindow w => Z.max 0 (num_computed_tokens - w + 1)
  | ChunkedLocalAttention c => num_computed_tokens / c * c
  | _ => 0
  end.

Definition get_num_evictable_blocks (p : BlockPool) (bs : list nat) : Z :=
  zlen (filter (λ b, ref_cnt (block_of p b) = 0 ∧ is_null (block_of p b) = false) bs).

Definition get_num_blocks_to_allocate (request_id : string) (num_tokens : Z)
    (new_computed_blocks : list nat) (total_computed_tokens num_tokens_main_model : Z)
    (apply_admission_cap : bool) : SM Z :=
  s ← get_state;
  let p := s.1 in let m := s.2 in
  let num_required_blocks := cdiv num_tokens (block_size m) in
  let num_required_blocks :=
    match apply_admission_cap, max_admission_blocks_per_request m with
    | true, Some cap => Z.min num_required_blocks cap
    | _, _ => num_required_blocks
    end in
  let num_req_blocks := zlen (table request_id m) in
  if od_mem request_id (num_cached_block m) then
    assertM (zlen new_computed_blocks =? 0) ;;
    mret (Z.max (num_required_blocks - num_req_blocks) 0)
  else
    let num_skipped_tokens := get_num_skipped_tokens total_computed_tokens m in
    let num_local_computed_blocks := zlen new_computed_blocks + num_req_blocks in
    let num_skipped_blocks := num_skipped_tokens / block_size m in
    let num_new_blocks :=
      Z.max (num_required_blocks - Z.max num_skipped_blocks num_local_computed_blocks) 0 in
    let num_skipped_new_computed_blocks := Z.max 0 (num_skipped_blocks - num_req_blocks) in
    let num_evictable_blocks :=
      get_num_evictable_blocks p (drop (Z.to_nat num_skipped_new_computed_blocks) new_computed_blocks) in
    mret (num_new_blocks + num_evictable_blocks).

(** The blocks to be zeroed by the worker are recorded for exact full attention. *)
Definition record_new (bs : list nat) (m : SingleTypeKVCacheManager) : SingleTypeKVCacheManager :=
  match spec_kind m with
  | FullAttention true => set_new_block_ids (new_block_ids m ++ bs) m
  | _ => m
  end.

Definition allocate_new_computed_blocks (request_id : string) (new_computed_blocks : list nat)
    (num_local_computed_tokens num_external_computed_tokens : Z) : SM unit :=
  s ← get_state;
  let m := s.2 in
  match spec_kind m with
  | CrossAttention => assertM (zlen new_computed_blocks =? 0)
  | _ =>
  if od_mem request_id (num_cached_block m) then assertM (zlen new_computed_blocks =? 0)
  else
    upd (ensure request_id) ;;
    assertM (zlen (table request_id m) =? 0) ;;
    let num_total_computed_tokens := num_local_computed_tokens + num_external_computed_tokens in
    let num_skipped_tokens := get_num_skipped_tokens num_total_computed_tokens m in
    let num_skipped_blocks := num_skipped_tokens / block_size m in
    let '(new_computed_blocks, num_external_computed_tokens) :=
      if 0 <? num_skipped_blocks
      then (drop (Z.to_nat num_skipped_blocks) new_computed_blocks,
            Z.min (num_total_computed_tokens - num_skipped_tokens) num_external_computed_tokens)
      else (new_computed_blocks, num_external_computed_tokens) in
    (if enable_caching s.1 then in_pool (touch new_computed_blocks)
     else assertM (zlen new_computed_blocks =? 0)) ;;
    upd (on_table (λ t, t ++ replicate (Z.to_nat num_skipped_blocks) (null_block s.1)
                          ++ new_computed_blocks) request_id) ;;
    s ← get_state;
    upd (λ m, set_num_cached_block
           (od_set request_id (length (table request_id s.2)) (num_cached_block m)) m) ;;
    if 0 <? num_external_computed_tokens then
      allocated_blocks ← in_pool (get_new_blocks
        (cdiv num_total_computed_tokens (block_size m) - zlen (table request_id s.2)));
      upd (on_table (λ t, t ++ allocated_blocks) request_id) ;;
      upd (record_new allocated_blocks)
    else mret tt
  end.

Definition allocate_new_blocks (request_id : string) (num_tokens : Z) : SM (list nat) :=
  upd (ensure request_id) ;;
  s ← get_state;
  let num_required_blocks := cdiv num_tokens (block_size s.2) in
  let num_new_blocks := num_required_blocks - zlen (table request_id s.2) in
  if num_new_blocks <=? 0 then mret []
  else
    new_blocks ← in_pool (get_new_blocks num_new_blocks);
    upd (on_table (λ t, t ++ new_blocks) request_id) ;;
    upd (record_new new_blocks) ;;
    mret new_blocks.

Definition take_new_block_ids : SM (list nat) :=
  s ← get_state;
  upd (set_new_block_ids []) ;;
  mret (new_block_ids s.2).

(** [_cache_block_mask]: the blocks of each aligned segment a sliding window
    can hit. *)
Definition cache_block_mask (num_cached_blocks num_full_blocks : nat) (alignment_tokens : Z) :
    SM (option (list bool)) :=
  s ← get_state;
  match spec_kind s.2 with
  | SlidingWindow w =>
      assertM (block_size s.2 <? alignment_tokens) ;;
      let per_segment := alignment_tokens / block_size s.2 in
      let tail := cdiv (w - 1) (block_size s.2) in
      if per_segment <=? tail then mret None
      else
        let skip := per_segment - tail in
        mret (Some ((λ i, skip <=? Z.of_nat i mod per_segment)
          <$> seq num_cached_blocks (num_full_blocks - num_cached_blocks)))
  | _ => mret None
  end.

Definition cache_blocks (request_id : string) (block_hashes : list BlockHash) (num_tokens : Z)
    (alignment_tokens : option Z) : SM unit :=
  s ← get_state;
  let m := s.2 in
  match spec_kind m with
  | CrossAttention => raise ValueError
  | _ =>
  let num_cached_blocks := default 0%nat (od_get request_id (num_cached_block m)) in
  let num_full_blocks := Z.to_nat (num_tokens / block_size m) in
  if (num_full_blocks <=? num_cached_blocks)%nat then mret tt
  else
    block_mask ← match alignment_tokens with
                 | None => mret None
                 | Some a => if a <=? block_size m then mret None
                             else cache_block_mask num_cached_blocks num_full_blocks a
                 end;
    upd (ensure request_id) ;;
    in_pool (cache_full_blocks block_hashes (table request_id m) num_cached_blocks num_full_blocks
               (block_size m) (kv_cache_group_id m) block_mask) ;;
    upd (λ m, set_num_cached_block (od_set request_id num_full_blocks (num_cached_block m)) m)
  end.

(** [free]: the tail of the table is freed first. *)
Definition free (request_id : string) : SM unit :=
  s ← get_state;
  upd (λ m, set_req_to_blocks (od_del request_id (req_to_blocks m)) m) ;;
  in_pool (free_blocks (rev (table request_id s.2))) ;;
  upd (λ m, set_num_cached_block (od_del request_id (num_cached_block m)) m).

(** The loop of [remove_skipped_blocks], from index [n - 1] down: the blocks
    taken out and the new table. *)
Fixpoint skip_loop (null : nat) (n : nat) (t : list nat) : list nat * list nat :=
  match n with
  | O => ([], t)
  | S i =>
      match t !! i with
      | None => ([], t)
      | Some b =>
          if (b =? null)%nat then ([], t)
          else let r := skip_loop null i (<[i := null]> t) in (b :: r.1, r.2)
      end
  end.

Definition remove_skipped_blocks (request_id : string) (total_computed_tokens : Z) : SM unit :=
  s ← get_state;
  let num_skipped_tokens := get_num_skipped_tokens total_computed_tokens s.2 in
  if num_skipped_tokens <=? 0 then mret tt
  else
    upd (ensure request_id) ;;
    let t := table request_id s.2 in
    let num_skipped_blocks := Z.min (num_skipped_tokens / block_size s.2) (zlen t) in
    let r := skip_loop (null_block s.1) (Z.to_nat num_skipped_blocks) t in
    upd (on_table (λ _, r.2) request_id) ;;
    in_pool (free_blocks r.1).

(** [get_num_common_prefix_blocks]: the blocks every request shares; 0 outside
    full attention. *)
Definition get_num_common_prefix_blocks (running_request_id : string) : SM Z :=
  s ← get_state;
  match spec_kind s.2 with
  | FullAttention _ =>
      upd (ensure running_request_id) ;;
      s ← get_state;
      let n := zlen (req_to_blocks s.2) in
      mret (foldr (λ b acc, if ref_cnt (block_of s.1 b) =? n then 1 + acc else 0) 0
              (table running_request_id s.2))
  | _ => mret 0
  end.

(** ** [find_longest_cache_hit], for one group

    Full attention: the longest prefix of cached hashes. *)
Fixpoint hit_prefix (hashes : list BlockHash) (group_id : Z) : PM (list nat) :=
  match hashes with
  | [] => mret []
  | h :: hs =>
      r ← get_cached_block h [group_id];
      match r with
      | Some [b] => bs ← hit_prefix hs group_id; mret (b :: bs)
      | _ => mret []
      end
  end.

(** [while block_size != alignment and len(blocks) * block_size % alignment != 0:
    blocks.pop()], by recursion on the length. *)
Fixpoint align_hit (n : nat) (block_size alignment_tokens : Z) (bs : list nat) : list nat :=
  if (block_size =? alignment_tokens) || (zlen bs * block_size mod alignment_tokens =? 0) then bs
  else match n with O => bs | S n' => align_hit n' block_size alignment_tokens (removelast bs) end.

Definition full_find_longest_cache_hit (hashes : list BlockHash) (max_length : Z) (group_id : Z)
    (block_size : Z) (use_eagle : bool) (alignment_tokens : Z) : PM (list nat) :=
  let max_num_blocks := max_length / block_size in
  bs ← hit_prefix (take (Z.to_nat max_num_blocks) hashes) group_id;
  let bs := if use_eagle then removelast bs else bs in
  mret (align_hit (length bs) block_size alignment_tokens bs).

(** Chunked local attention: null blocks up to the chunk of the next token,
    then the longest prefix of cached hashes. *)
Definition chunked_find_longest_cache_hit (hashes : list BlockHash) (max_length : Z) (group_id : Z)
    (block_size chunk : Z) (use_eagle : bool) (alignment_tokens : Z) : PM (list nat) :=
  assertM (negb use_eagle) ;;
  assertM (block_size =? alignment_tokens) ;;
  p ← get_state;
  let max_num_blocks := max_length / block_size in
  let start_idx := if 0 <? max_length then max_length / chunk * chunk else 0 in
  let start_block := start_idx / block_size in
  let window := seq (Z.to_nat start_block) (Z.to_nat max_num_blocks - Z.to_nat start_block) in
  let fix scan (idxs : list nat) : PM (list nat) :=
    match idxs with
    | [] => mret []
    | i :: idxs0 =>
        match hashes !! i with
        | None => raise IndexError
        | Some h =>
            r ← get_cached_block h [group_id];
            match r with
            | Some [b] => bs ← scan idxs0; mret (b :: bs)
            | _ => mret []
            end
        end
    end in
  hits ← scan window;
  mret (replicate (Z.to_nat start_block) (null_block p) ++ hits).

(** Sliding window: scan from the right for a run of [needed] cached blocks.
    [i] counts the indices left, [run] the current run; [computed] is the
    result being filled; the flag tells whether a full run was found. *)
Fixpoint window_scan (i : nat) (hashes : list BlockHash) (group_id block_size : Z) (use_eagle : bool)
    (alignment_tokens needed : Z) (run : nat) (computed : list nat) : PM (bool * nat * list nat) :=
  match i with
  | O => mret (false, run, computed)
  | S i' =>
      match hashes !! i' with
      | None => raise IndexError
      | Some h =>
          r ← get_cached_block h [group_id];
          match r with
          | Some [b] =>
              let post_pop_blocks := if use_eagle then Z.of_nat i' else Z.of_nat i' + 1 in
              if (run =? 0)%nat && negb (block_size =? alignment_tokens)
                 && negb (post_pop_blocks * block_size mod alignment_tokens =? 0)
              then window_scan i' hashes group_id block_size use_eagle alignment_tokens needed run computed
              else
                let computed := <[i' := b]> computed in
                let run := S run in
                if needed <=? Z.of_nat run then mret (true, run, take (i' + run) computed)
                else window_scan i' hashes group_id block_size use_eagle alignment_tokens needed run computed
          | _ => window_scan i' hashes group_id block_size use_eagle alignment_tokens needed 0 computed
          end
      end
  end.

Definition window_find_longest_cache_hit (hashes : list BlockHash) (max_length : Z) (group_id : Z)
    (block_size sliding_window : Z) (use_eagle : bool) (alignment_tokens : Z) : PM (list nat) :=
  p ← get_state;
  let needed := cdiv (sliding_window - 1) block_size + (if use_eagle then 1 else 0) in
  let max_num_blocks := Z.to_nat (max_length / block_size) in
  r ← window_scan max_num_blocks hashes group_id block_size use_eagle alignment_tokens needed 0
        (replicate max_num_blocks (null_block p));
  let '(match_found, run, computed) := r in
  let computed :=
    if match_found : bool then computed
    else let c := take run computed in align_hit (length c) block_size alignment_tokens c in
  mret (if use_eagle && negb (bool_decide (computed = [])) then
          let c := removelast computed in align_hit (length c) block_size alignment_tokens c
        else computed).

(** ** Coordinator and [KVCacheManager] *)
Record KVCacheManager := mkKVCacheManager {
  block_pool : BlockPool;
  single_type_managers : list SingleTypeKVCacheManager;
  max_model_len : Z;
  eagle_group_ids : gset nat
}.

Abbreviation KM := (M KVCacheManager).

#[export] Instance manager_inhabited : Inhabited SingleTypeKVCacheManager :=
  populate (mkManager 1 CrossAttention None 0 [] [] []).

Definition set_pool (p : BlockPool) (k : KVCacheManager) : KVCacheManager :=
  {| block_pool := p; single_type_managers := single_type_managers k;
     max_model_len := max_model_len k; eagle_group_ids := eagle_group_ids k |}.
Definition set_pair (i : nat) (s : BlockPool * SingleTypeKVCacheManager) (k : KVCacheManager) :
    KVCacheManager :=
  {| block_pool := s.1; single_type_managers := <[i := s.2]> (single_type_managers k);
     max_model_len := max_model_len k; eagle_group_ids := eagle_group_ids k |}.

(** A call on the manager of group [i], and on the pool. *)
Definition at_manager {A} (i : nat) (c : SM A) : KM A :=
  zoom (λ k, (block_pool k, single_type_managers k !!! i)) (set_pair i) c.
Definition at_pool {A} (c : PM A) : KM A := zoom block_pool set_pool c.

(** The groups, in order. *)
Definition groups (k : KVCacheManager) : list nat := seq 0 (length (single_type_managers k)).

Definition is_cross (k : KVCacheManager) (i : nat) : bool :=
  match spec_kind (single_type_managers k !!! i) with CrossAttention => true | _ => false end.

Fixpoint sumM (l : list nat) (body : nat → KM Z) : KM Z :=
  match l with
  | [] => mret 0
  | i :: l' => n ← body i; rest ← sumM l' body; mret (n + rest)
  end.

Fixpoint collectM {A} (l : list nat) (body : nat → KM A) : KM (list A) :=
  match l with
  | [] => mret []
  | i :: l' => x ← body i; rest ← collectM l' body; mret (x :: rest)
  end.

Definition coord_get_num_blocks_to_allocate (request_id : string) (num_tokens : Z)
    (new_computed_blocks : list (list nat)) (num_encoder_tokens total_computed_tokens
     num_tokens_main_model : Z) (apply_admission_cap : bool) : KM Z :=
  k ← get_state;
  sumM (groups k) (λ i,
    at_manager i
      (if is_cross k i
       then get_num_blocks_to_allocate request_id num_encoder_tokens [] 0 num_encoder_tokens
              apply_admission_cap
       else get_num_blocks_to_allocate request_id num_tokens (new_computed_blocks !!! i)
              total_computed_tokens num_tokens_main_model apply_admission_cap)).

Definition coord_allocate_new_computed_blocks (request_id : string)
    (new_computed_blocks : list (list nat)) (num_local_computed_tokens
     num_external_computed_tokens : Z) : KM unit :=
  k ← get_state;
  forM (groups k) (λ i, at_manager i
    (allocate_new_computed_blocks request_id (new_computed_blocks !!! i)
       num_local_computed_tokens num_external_computed_tokens)).

Definition coord_allocate_new_blocks (request_id : string) (num_tokens num_encoder_tokens : Z) :
    KM (list (list nat)) :=
  k ← get_state;
  collectM (groups k) (λ i, at_manager i
    (allocate_new_blocks request_id (if is_cross k i then num_encoder_tokens else num_tokens))).

Definition coord_cache_blocks (request_id : string) (hashes : list BlockHash)
    (num_computed_tokens : Z) : KM unit :=
  k ← get_state;
  forM (groups k) (λ i, at_manager i (cache_blocks request_id hashes num_computed_tokens None)).

Definition coord_free (request_id : string) : KM unit :=
  k ← get_state;
  forM (groups k) (λ i, at_manager i (free request_id)).

Definition coord_remove_skipped_blocks (request_id : string) (total_computed_tokens : Z) : KM unit :=
  k ← get_state;
  forM (groups k) (λ i, at_manager i (remove_skipped_blocks request_id total_computed_tokens)).

(** [get_blocks]: the tables of a request, one per group. *)
Definition get_blocks (request_id : string) (k : KVCacheManager) : list (list nat) :=
  table request_id <$> single_type_managers k.

(** [KVCacheCoordinatorNoPrefixCache] has no hits; [UnitaryKVCacheCoordinator]
    asks its only manager. *)
Definition coord_find_longest_cache_hit (hashes : list BlockHash) (max_cache_hit_length : Z) :
    KM (list (list nat) * Z) :=
  k ← get_state;
  if negb (enable_caching (block_pool k))
  then mret (replicate (length (single_type_managers k)) [], 0)
  else
    let m := single_type_managers k !!! 0%nat in
    let use_eagle := bool_decide (0%nat ∈ eagle_group_ids k) in
    hit ← at_pool
      match spec_kind m with
      | FullAttention _ =>
          full_find_longest_cache_hit hashes max_cache_hit_length 0 (block_size m) use_eagle (block_size m)
      | SlidingWindow w =>
          window_find_longest_cache_hit hashes max_cache_hit_length 0 (block_size m) w use_eagle (block_size m)
      | ChunkedLocalAttention c =>
          chunked_find_longest_cache_hit hashes max_cache_hit_length 0 (block_size m) c use_eagle (block_size m)
      | CrossAttention => raise RuntimeError
      end;
    mret ([hit], zlen hit * block_size m).

Definition coord_get_num_common_prefix_blocks (running_request_id : string) : KM (list Z) :=
  k ← get_state;
  if negb (enable_caching (block_pool k)) then mret (replicate (length (single_type_managers k)) 0)
  else collectM (groups k) (λ i, at_manager i (get_num_common_prefix_blocks running_request_id)).

(** [empty_kv_cache_blocks.blocks] *)
Definition empty_kv_cache_blocks (k : KVCacheManager) : list (list nat) :=
  replicate (length (single_type_managers k)) [].

Section Manager.
Context {F : Type} `{FloatOps F}.

Definition usage (k : KVCacheManager) : F := get_usage (block_pool k).

Definition get_computed_blocks (request : Request F) : KM (list (list nat) * Z) :=
  k ← get_state;
  if negb (enable_caching (block_pool k)) || skip_reading_prefix_cache request
  then mret (empty_kv_cache_blocks k, 0)
  else
    let max_cache_hit_length := num_tokens request - 1 in
    coord_find_longest_cache_hit (block_hashes request) max_cache_hit_length.

(** [allocate_slots].  [new_computed_blocks] is [None] when the caller passes
    none (or the manager's own empty blocks, which the source recognises by
    identity). *)
Definition allocate_slots (request : Request F) (num_new_tokens num_new_computed_tokens : Z)
    (new_computed_blocks : option (list (list nat))) (num_lookahead_tokens
     num_external_computed_tokens : Z) (delay_cache_blocks : bool) (num_encoder_tokens : Z)
    (full_sequence_must_fit : bool) : KM (option (list (list nat))) :=
  if (num_new_tokens =? 0) && (num_external_computed_tokens =? 0) then raise ValueError
  else
    k ← get_state;
    let new_computed_block_list := default (empty_kv_cache_blocks k) new_computed_blocks in
    let num_local_computed_tokens := num_computed_tokens request + num_new_computed_tokens in
    let total_computed_tokens :=
      Z.min (num_local_computed_tokens + num_external_computed_tokens) (max_model_len k) in
    fits ← (if full_sequence_must_fit then
              let full_num_tokens := Z.min (num_tokens request) (max_model_len k) in
              n ← coord_get_num_blocks_to_allocate (request_id request) full_num_tokens
                    new_computed_block_list num_encoder_tokens total_computed_tokens
                    full_num_tokens true;
              mret (n <=? get_num_free_blocks (block_pool k))
            else mret true);
    if negb fits then mret None
    else
      let num_tokens_main_model := total_computed_tokens + num_new_tokens in
      let num_tokens_need_slot :=
        Z.min (num_tokens_main_model + num_lookahead_tokens) (max_model_len k) in
      coord_remove_skipped_blocks (request_id request) total_computed_tokens ;;
      num_blocks_to_allocate ← coord_get_num_blocks_to_allocate (request_id request)
        num_tokens_need_slot new_computed_block_list num_encoder_tokens
        (num_local_computed_tokens + num_external_computed_tokens) num_tokens_main_model false;
      k ← get_state;
      if get_num_free_blocks (block_pool k) <? num_blocks_to_allocate then mret None
      else
        (if bool_decide (new_computed_blocks ≠ None) || (0 <? num_external_computed_tokens)
         then coord_allocate_new_computed_blocks (request_id request) new_computed_block_list
                num_local_computed_tokens num_external_computed_tokens
         else mret tt) ;;
        new_blocks ← coord_allocate_new_blocks (request_id request) num_tokens_need_slot
                       num_encoder_tokens;
        if negb (enable_caching (block_pool k)) || delay_cache_blocks then mret (Some new_blocks)
        else
          let num_tokens_to_cache :=
            Z.min (total_computed_tokens + num_new_tokens) (num_tokens request) in
          coord_cache_blocks (request_id request) (block_hashes request) num_tokens_to_cache ;;
          mret (Some new_blocks).

Definition kv_free (request : Request F) : KM unit := coord_free (request_id request).

Definition kv_cache_blocks (request : Request F) (num_computed_tokens : Z) : KM unit :=
  k ← get_state;
  if enable_caching (block_pool k)
  then coord_cache_blocks (request_id request) (block_hashes request) num_computed_tokens
  else mret tt.
End Manager.

Definition kv_evict_blocks (ids : list nat) : KM unit := at_pool (evict_blocks ids).
Definition kv_reset_prefix_cache : KM bool := at_pool reset_prefix_cache.

Definition kv_take_new_block_ids : KM (list nat) :=
  k ← get_state;
  ids ← collectM (groups k) (λ i, at_manager i take_new_block_ids);
  mret (concat ids).
