(* ===== verification/KVCacheFacts.v ===== *)
(** * Facts about KV-cache management

    The accounting invariant between block tables and the pool (a block is
    referenced once per table entry, and is free exactly when no table names
    it), its preservation by every manager operation, and the exactness of the
    allocation predictor. *)
From S2P Require Import Prelude PyFloat FreeQueue BlockPool BlockPoolFacts Request KVCache.
Local Open Scope Z_scope.

Lemma cdiv_spec a b : 0 < b → (cdiv a b - 1) * b < a ≤ cdiv a b * b.
Proof.
  intros Hb. unfold cdiv. pose proof (Z.div_mod a (- b) ltac:(lia)).
  pose proof (Z.mod_neg_bound a (- b) ltac:(lia)). nia.
Qed.

Lemma cdiv_mono a a' b : 0 < b → a ≤ a' → cdiv a b ≤ cdiv a' b.
Proof. intros Hb Ha. pose proof (cdiv_spec a b Hb). pose proof (cdiv_spec a' b Hb). nia. Qed.

Lemma cdiv_mul a b : 0 < b → cdiv (a * b) b = a.
Proof. intros Hb. pose proof (cdiv_spec (a * b) b Hb). nia. Qed.

(** ** Block tables *)
Section tables.
Implicit Types (m : SingleTypeKVCacheManager) (d : odict string (list nat)).

(** The entries of all the tables of a manager naming [b]. *)
Definition eocc (b : nat) m : Z := occ b (concat (od_values (req_to_blocks m))).

Lemma occ_values_nonneg b d : 0 ≤ occ b (concat (od_values d)).
Proof. apply occ_nonneg. Qed.

Lemma occ_values_cons b i t d :
  occ b (concat (od_values ((i, t) :: d))) = occ b t + occ b (concat (od_values d)).
Proof. apply occ_app. Qed.

Lemma occ_alter b f id d t :
  od_wf d → od_get id d = Some t →
  occ b (concat (od_values (od_alter f id d)))
    = occ b (concat (od_values d)) - occ b t + occ b (f t).
Proof.
  induction d as [|[i v] d IH]; cbn [od_alter od_get]; [done|]. intros [_ Hd]%od_wf_cons.
  case_decide; intros; simplify_eq; rewrite !occ_values_cons; [lia|]. rewrite IH by done. lia.
Qed.

Lemma occ_del b id d :
  od_wf d →
  occ b (concat (od_values (od_del id d)))
    = occ b (concat (od_values d)) - occ b (default [] (od_get id d)).
Proof.
  induction d as [|[i v] d IH]; cbn [od_del od_get]; [done|]. intros [Hi Hd]%od_wf_cons.
  case_decide; subst; rewrite !occ_values_cons, IH by done; [|lia]. rewrite Hi. simpl. lia.
Qed.

Lemma occ_setdefault b id d :
  occ b (concat (od_values (od_setdefault id [] d))) = occ b (concat (od_values d)).
Proof.
  unfold od_setdefault, od_values. case_match; [done|].
  rewrite fmap_app, concat_app, occ_app. simpl. lia.
Qed.

Lemma occ_table b id m : od_wf (req_to_blocks m) → occ b (table id m) ≤ eocc b m.
Proof.
  intros Hwf. unfold eocc, table. pose proof (occ_del b id _ Hwf).
  pose proof (occ_values_nonneg b (od_del id (req_to_blocks m))). lia.
Qed.

Lemma occ_two_tables b id id' m :
  od_wf (req_to_blocks m) → id ≠ id' → occ b (table id m) + occ b (table id' m) ≤ eocc b m.
Proof.
  intros Hwf Hne. pose proof (occ_del b id _ Hwf) as Hd.
  pose proof (occ_table b id' (set_req_to_blocks (od_del id (req_to_blocks m)) m)) as Ht.
  unfold eocc, table in *. cbn [req_to_blocks set_req_to_blocks] in Ht.
  rewrite od_get_del, decide_False in Ht by done. specialize (Ht (od_wf_del _ _ Hwf)). lia.
Qed.

(** The cached prefix of a table. *)
Definition cached_len (id : string) m : nat := default 0%nat (od_get id (num_cached_block m)).

Lemma table_ensure id id' m : table id' (ensure id m) = table id' m.
Proof. unfold table. cbn [ensure req_to_blocks set_req_to_blocks]. rewrite od_get_setdefault. case_decide; by subst. Qed.

Lemma eocc_ensure b id m : eocc b (ensure id m) = eocc b m.
Proof. apply occ_setdefault. Qed.

Lemma table_on_table f id id' m :
  od_mem id (req_to_blocks m) = true →
  table id' (on_table f id m) = if decide (id = id') then f (table id m) else table id' m.
Proof.
  intros Hm. unfold table. cbn [on_table req_to_blocks set_req_to_blocks]. rewrite od_get_alter.
  case_decide; [|done]. subst. unfold od_mem in Hm. by destruct (od_get id' (req_to_blocks m)).
Qed.

Lemma eocc_on_table b f id m :
  od_wf (req_to_blocks m) → od_mem id (req_to_blocks m) = true →
  eocc b (on_table f id m) = eocc b m - occ b (table id m) + occ b (f (table id m)).
Proof.
  intros Hwf Hm. unfold eocc, table, od_mem in *. cbn [on_table req_to_blocks set_req_to_blocks].
  destruct (od_get id (req_to_blocks m)) as [t|] eqn:Ht; [|done]. by apply occ_alter.
Qed.

Lemma ensure_mem id m : od_mem id (req_to_blocks (ensure id m)) = true.
Proof.
  cbn [ensure req_to_blocks set_req_to_blocks]. unfold od_mem. rewrite od_get_setdefault, decide_True by done. done.
Qed.
End tables.

(** ** The invariant of one manager over the shared pool *)
Record man_ok (p : BlockPool) (m : SingleTypeKVCacheManager) : Prop := {
  mo_size : 0 < block_size m;
  mo_group : ∃ gb, to_bytes4 (kv_cache_group_id m) = Some gb;
  mo_wf : od_wf (req_to_blocks m);
  mo_valid id b : b ∈ table id m → b = 0%nat ∨ real p b;
  mo_nodup id : NoDup (filter (λ b, b ≠ 0%nat) (table id m));
  mo_cached id : (cached_len id m ≤ length (table id m))%nat;
  mo_tail id j b : table id m !! j = Some b → b ≠ 0%nat → (cached_len id m ≤ j)%nat →
    hash p b = None ∧ ref p b = 1
}.

(** [o b] counts the references held by the other managers. *)
Record sm_inv (o : nat → Z) (p : BlockPool) (m : SingleTypeKVCacheManager) (l : list nat) : Prop := {
  si_pool : pool_inv p l;
  si_others b : 0 ≤ o b;
  si_ref b : real p b → ref p b = o b + eocc b m;
  si_nocache : enable_caching p = false → ∀ b, hash p b = None;
  si_man : man_ok p m
}.

(** What a call on this manager guarantees to the others: their blocks keep
    their hashes, and their unhashed blocks are not taken into its tables. *)
Record sm_frame (o : nat → Z) (p p' : BlockPool) (m m' : SingleTypeKVCacheManager) : Prop := {
  sf_static : static p' = static p;
  sf_hash b : 1 ≤ o b → hash p' b = hash p b;
  sf_occ b : b ≠ 0%nat → 1 ≤ o b → hash p b = None → eocc b m' ≤ eocc b m;
  sf_size : block_size m' = block_size m;
  sf_kind : spec_kind m' = spec_kind m;
  sf_cap : max_admission_blocks_per_request m' = max_admission_blocks_per_request m;
  sf_group : kv_cache_group_id m' = kv_cache_group_id m
}.

Lemma sm_frame_refl o p m : sm_frame o p p m m.
Proof. by split. Qed.

Lemma sm_frame_trans o p1 p2 p3 m1 m2 m3 :
  sm_frame o p1 p2 m1 m2 → sm_frame o p2 p3 m2 m3 → sm_frame o p1 p3 m1 m3.
Proof.
  intros H1 H2. destruct H1, H2. split; try congruence.
  - intros b Hb. rewrite sf_hash1, sf_hash0 by done. done.
  - intros b H0 Hb Hn. specialize (sf_occ0 b H0 Hb Hn). specialize (sf_occ1 b H0 Hb).
    rewrite sf_hash0 in sf_occ1 by done. specialize (sf_occ1 Hn). lia.
Qed.

Lemma static_real p p' b : static p' = static p → real p' b ↔ real p b.
Proof. intros (_ & _ & Hl & _)%static_proj. unfold real. by rewrite Hl. Qed.

Section one_manager.
Context (o : nat → Z).
Implicit Types (p : BlockPool) (m : SingleTypeKVCacheManager) (l : list nat) (id : string).

(** An entry of a table is a reference. *)
Lemma entry_ref p m l id b :
  sm_inv o p m l → b ∈ table id m → b ≠ 0%nat → real p b ∧ 1 ≤ ref p b.
Proof.
  intros Hi Hb H0. destruct (mo_valid _ _ (si_man _ _ _ _ Hi) id b Hb) as [?|Hreal]; [done|].
  split; [done|]. rewrite (si_ref _ _ _ _ Hi) by done.
  pose proof (occ_in b _ Hb). pose proof (occ_table b id m (mo_wf _ _ (si_man _ _ _ _ Hi))).
  pose proof (si_others _ _ _ _ Hi b). lia.
Qed.

(** A free block is in no table. *)
Lemma free_unheld p m l b :
  sm_inv o p m l → b ∈ l → o b = 0 ∧ eocc b m = 0 ∧ ∀ id, b ∉ table id m.
Proof.
  intros Hi Hb. destruct (si_pool _ _ _ _ Hi) as [Hc _].
  pose proof Hb as [Hreal H0]%(pc_free _ _ Hc). rewrite (si_ref _ _ _ _ Hi) in H0 by done.
  pose proof (si_others _ _ _ _ Hi b). pose proof (occ_nonneg b (concat (od_values (req_to_blocks m)))).
  unfold eocc in *. split_and!; [lia..|]. intros id Hid.
  pose proof (occ_in b _ Hid). pose proof (occ_table b id m (mo_wf _ _ (si_man _ _ _ _ Hi))).
  unfold eocc in *. lia.
Qed.

(** An unshared block of one table is in no other. *)
Lemma tail_private p m l id id' b :
  sm_inv o p m l → b ∈ table id m → ref p b = 1 → b ≠ 0%nat → id' ≠ id → b ∉ table id' m.
Proof.
  intros Hi Hb H1 H0 Hne Hb'. destruct (entry_ref _ _ _ _ _ Hi Hb H0) as [Hreal _].
  rewrite (si_ref _ _ _ _ Hi) in H1 by done. pose proof (si_others _ _ _ _ Hi b).
  pose proof (occ_in b _ Hb). pose proof (occ_in b _ Hb').
  pose proof (occ_two_tables b id' id m (mo_wf _ _ (si_man _ _ _ _ Hi)) Hne). lia.
Qed.

Lemma in_pool_Ret {A} (c : PM A) p m a p' :
  c p = Ret a p' → in_pool c (p, m) = Ret a (p', m).
Proof. intros H. unfold in_pool, zoom. simpl. by rewrite H. Qed.

Lemma upd_bind {B} f (k : unit → SM B) p m : (upd f ≫= k) (p, m) = k tt (p, f m).
Proof. done. Qed.

(** *** [free] *)
Lemma occ_rev b (t : list nat) : occ b (rev t) = occ b t.
Proof. apply occ_Permutation. symmetry. apply Permutation_rev. Qed.

Lemma free_ok p m l id :
  sm_inv o p m l →
  ∃ p' m', free id (p, m) = Ret tt (p', m')
    ∧ sm_inv o p' m' (l ++ filter (λ b, b ≠ 0%nat ∧ ref p b = 1) (rev (table id m)))
    ∧ sm_frame o p p' m m'
    ∧ req_to_blocks m' = od_del id (req_to_blocks m)
    ∧ (∀ b, hash p' b = hash p b).
Proof.
  intros Hi. pose proof (si_man _ _ _ _ Hi) as Hm. set (t := table id m).
  set (m1 := set_req_to_blocks (od_del id (req_to_blocks m)) m).
  destruct (pool_free_spec p l (rev t)) as (p' & Hrun & Hp' & Hs & Hr & Hh).
  { apply Hi. }
  { intros b Hb. rewrite <-Permutation_rev in Hb. destruct (decide (b = 0%nat)); [by left|right].
    by eapply entry_ref. }
  { rewrite <-Permutation_rev. apply Hm. }
  set (m' := set_num_cached_block (od_del id (num_cached_block m1)) m1).
  exists p', m'.
  assert (∀ b, eocc b m' = eocc b m - occ b t) as He by (intros b; apply occ_del, Hm).
  assert (∀ id', table id' m' = if decide (id = id') then [] else table id' m) as Ht.
  { intros id'. unfold table. cbn. rewrite od_get_del. by case_decide. }
  assert (∀ id', cached_len id' m' = if decide (id = id') then 0%nat else cached_len id' m) as Hcl.
  { intros id'. unfold cached_len. cbn. rewrite od_get_del. by case_decide. }
  split_and!.
  - unfold free. rewrite get_bind, upd_bind. cbn [fst snd].
    fold t m1. rewrite bind_unfold. by erewrite in_pool_Ret by exact Hrun.
  - split; [done|apply Hi| | |].
    + intros b. rewrite (static_real p) by done. intros Hb.
      rewrite Hr, He, occ_rev, (si_ref _ _ _ _ Hi) by done. lia.
    + intros Hc b. rewrite Hh. apply (si_nocache _ _ _ _ Hi).
      by apply static_proj in Hs as (_ & _ & _ & <-).
    + split; try apply Hm.
      * apply od_wf_del, Hm.
      * intros id' b. rewrite Ht, (static_real p) by done. case_decide; [set_solver|apply Hm].
      * intros id'. rewrite Ht. case_decide; [apply NoDup_nil_2|apply Hm].
      * intros id'. rewrite Ht, Hcl. case_decide; [done|apply Hm].
      * intros id' j b. rewrite Ht, Hcl. case_decide as Hid; [done|]. intros Hj H0 Hle.
        destruct (mo_tail _ _ Hm id' j b Hj H0 Hle) as [Hn H1]. rewrite Hh, Hr, occ_rev.
        split; [done|]. rewrite occ_notin; [lia|].
        eapply tail_private; [done|by eapply list_elem_of_lookup_2|done..].
  - split; try done.
    intros b _ _ _. rewrite He. pose proof (occ_nonneg b t). lia.
  - done.
  - done.
Qed.

(** Managers with the same tables. *)
Record same_tables m m' : Prop := {
  st_size : block_size m' = block_size m;
  st_kind : spec_kind m' = spec_kind m;
  st_cap : max_admission_blocks_per_request m' = max_admission_blocks_per_request m;
  st_group : kv_cache_group_id m' = kv_cache_group_id m;
  st_cached : num_cached_block m' = num_cached_block m;
  st_table id : table id m' = table id m;
  st_eocc b : eocc b m' = eocc b m;
  st_wf : od_wf (req_to_blocks m) → od_wf (req_to_blocks m')
}.

Lemma same_record_new bs m : same_tables m (record_new bs m).
Proof. unfold record_new. destruct (spec_kind m) as [[]| | |]; by split. Qed.

Lemma same_ensure id m : same_tables m (ensure id m).
Proof.
  split; try done; [intros; apply table_ensure|intros; apply eocc_ensure|].
  apply od_wf_setdefault.
Qed.

Lemma sm_inv_same p m m' l : same_tables m m' → sm_inv o p m l → sm_inv o p m' l.
Proof.
  intros [] []. split; try done.
  - intros b Hb. rewrite st_eocc0. by apply si_ref0.
  - assert (∀ id, cached_len id m' = cached_len id m) as Hcl.
    { intros id. unfold cached_len. by rewrite st_cached0. }
    destruct si_man0. split; [by rewrite st_size0|by rewrite st_group0|auto|..]; intros id;
      rewrite ?st_table0, ?Hcl; [apply mo_valid0|apply mo_nodup0|apply mo_cached0|apply mo_tail0].
Qed.

Lemma frame_same p m m' : same_tables m m' → sm_frame o p p m m'.
Proof. intros []. split; try done. intros b _ _. by rewrite st_eocc0. Qed.

Lemma same_trans m1 m2 m3 : same_tables m1 m2 → same_tables m2 m3 → same_tables m1 m3.
Proof. intros [] []. split; intros; congruence || auto. Qed.

(** *** Allocation of fresh blocks *)
Lemma grow_ok p m l X id :
  sm_inv o p m (X ++ l) → od_mem id (req_to_blocks m) = true →
  ∃ p', get_new_blocks (zlen X) p = Ret X p'
    ∧ sm_inv o p' (on_table (λ t, t ++ X) id m) l
    ∧ sm_frame o p p' m (on_table (λ t, t ++ X) id m)
    ∧ (∀ b, b ∉ X → hash p' b = hash p b).
Proof.
  intros Hi Hmem. pose proof (si_man _ _ _ _ Hi) as Hm. pose proof (si_pool _ _ _ _ Hi) as Hp.
  destruct (get_new_blocks_spec p X l Hp) as (p' & Hrun & Hp' & Hs & Hr & Hh).
  set (m' := on_table _ id m).
  assert (∀ b, b ∈ X → real p b ∧ b ≠ 0%nat ∧ o b = 0 ∧ eocc b m = 0 ∧ ∀ id, b ∉ table id m) as HX.
  { intros b Hb. assert (b ∈ X ++ l) as Hbl by (apply elem_of_app; by left).
    destruct (free_real p _ b (proj1 Hp) Hbl). destruct (free_unheld p m _ b Hi Hbl) as (? & ? & ?). auto. }
  assert (NoDup X) as HndX by (destruct Hp as [Hc _]; by pose proof (pc_nodup _ _ Hc) as (? & _)%NoDup_app).
  assert (∀ b, eocc b m' = eocc b m + occ b X) as He.
  { intros b. unfold m'. rewrite eocc_on_table by (done || apply Hm). rewrite occ_app. lia. }
  assert (∀ id', table id' m' = if decide (id = id') then table id m ++ X else table id' m) as Ht
    by (intros; by apply table_on_table).
  assert (∀ b, ref p' b = ref p b + occ b X) as Hr'.
  { intros b. rewrite Hr, occ_NoDup by done. case_decide as Hb; [|lia].
    destruct (HX b Hb) as (Hreal & _ & Ho & Heo & _). rewrite (si_ref _ _ _ _ Hi) by done. lia. }
  exists p'. split; [done|]. split_and!.
  - split; [done|apply Hi| | |].
    + intros b. rewrite (static_real p) by done. intros Hb.
      rewrite Hr', He, (si_ref _ _ _ _ Hi) by done. lia.
    + pose proof Hs as (_ & _ & _ & Hca)%static_proj. rewrite Hca. intros Hca' b. rewrite Hh.
      unfold fresh_hash. rewrite Hca'. case_decide; by apply (si_nocache _ _ _ _ Hi).
    + split; try apply Hm.
      * apply od_wf_alter, Hm.
      * intros id' b. rewrite Ht, (static_real p) by done. case_decide; [|apply Hm].
        rewrite elem_of_app. intros [?|Hb]; [by eapply Hm|right; by apply HX].
      * intros id'. rewrite Ht. case_decide; [|apply Hm]. rewrite filter_app. apply NoDup_app. split_and!.
        { apply Hm. }
        { intros b [_ Hb]%list_elem_of_filter [_ HbX]%list_elem_of_filter.
          destruct (HX b HbX) as (_ & _ & _ & _ & Hn). by apply (Hn id). }
        { by apply NoDup_filter. }
      * intros id'. rewrite Ht. change (cached_len id' m') with (cached_len id' m).
        pose proof (mo_cached _ _ Hm id'). case_decide; subst; [rewrite length_app|]; lia.
      * intros id' j b. rewrite Ht. change (cached_len id' m') with (cached_len id' m).
        assert (b ∈ table id' m → b ≠ 0%nat → ref p b = 1 → hash p b = None → hash p' b = None ∧ ref p' b = 1) as Hold.
        { intros Hb H0 H1 Hn. assert (b ∉ X) as HbX.
          { intros HbX. destruct (HX b HbX) as (_ & _ & _ & _ & Hno). by apply (Hno id'). }
          rewrite Hh, Hr', occ_notin, decide_False by done. split; [done|lia]. }
        intros Hj H0 Hle. case_decide as Hid; subst.
        { apply lookup_app_Some in Hj as [Hj|[Hj HjX]].
          - destruct (mo_tail _ _ Hm id' j b Hj H0 Hle). apply Hold; [by eapply list_elem_of_lookup_2|done..].
          - apply list_elem_of_lookup_2 in HjX. rewrite Hh, Hr, !decide_True by done.
            unfold fresh_hash. destruct (enable_caching p) eqn:Hca; [done|].
            split; [by apply (si_nocache _ _ _ _ Hi)|done]. }
        { destruct (mo_tail _ _ Hm id' j b Hj H0 Hle). apply Hold; [by eapply list_elem_of_lookup_2|done..]. }
  - split; try done.
    + intros b Hb. rewrite Hh, decide_False; [done|]. intros HbX. destruct (HX b HbX) as (_ & _ & ? & _). lia.
    + intros b _ Hb _. rewrite He, occ_notin; [lia|]. intros HbX. destruct (HX b HbX) as (_ & _ & ? & _). lia.
  - intros b Hb. by rewrite Hh, decide_False.
Qed.

(** [allocate_new_blocks] extends the table to the blocks the tokens need with
    the head of the free list. *)
Lemma allocate_new_blocks_ok p m l id nt :
  sm_inv o p m l →
  let n := cdiv nt (block_size m) - zlen (table id m) in
  n ≤ zlen l →
  ∃ p' m', allocate_new_blocks id nt (p, m) = Ret (take (Z.to_nat n) l) (p', m')
    ∧ sm_inv o p' m' (drop (Z.to_nat n) l) ∧ sm_frame o p p' m m'
    ∧ table id m' = table id m ++ take (Z.to_nat n) l
    ∧ num_cached_block m' = num_cached_block m
    ∧ (∀ b, b ∉ take (Z.to_nat n) l → hash p' b = hash p b).
Proof.
  intros Hi n Hn. unfold allocate_new_blocks. rewrite upd_bind, get_bind. cbn [fst snd].
  set (m1 := ensure id m). pose proof (same_ensure id m) as Hs1. fold m1 in Hs1.
  rewrite (st_table _ _ Hs1). change (block_size m1) with (block_size m). fold n.
  pose proof (sm_inv_same _ _ _ _ Hs1 Hi) as Hi1.
  destruct (Z.leb_spec n 0) as [Hle|Hgt].
  { assert (Z.to_nat n = 0%nat) as -> by lia. exists p, m1. rewrite take_0, drop_0, app_nil_r.
    split_and!; [done|done|by apply frame_same|apply Hs1|done|done]. }
  set (X := take (Z.to_nat n) l). rewrite <-(take_drop (Z.to_nat n) l) in Hi1. fold X in Hi1.
  destruct (grow_ok p m1 _ X id Hi1 (ensure_mem id m)) as (p' & Hrun & Hi2 & Hf2 & Hh2).
  assert (zlen X = n) as HX by (unfold X, zlen in *; rewrite length_take; lia).
  rewrite HX in Hrun. rewrite bind_unfold. erewrite in_pool_Ret by exact Hrun.
  rewrite !upd_bind.
  set (m2 := on_table _ id m1) in *. pose proof (same_record_new X m2) as Hs3.
  eexists p', (record_new X m2). split; [reflexivity|]. split_and!.
  - by eapply sm_inv_same.
  - eapply sm_frame_trans; [by apply (frame_same p m m1)|]. eapply sm_frame_trans; [exact Hf2|].
    by apply frame_same.
  - rewrite (st_table _ _ Hs3). unfold m2. rewrite table_on_table by apply ensure_mem.
    rewrite decide_True by done. by rewrite (st_table _ _ Hs1).
  - by rewrite (st_cached _ _ Hs3).
  - done.
Qed.

Lemma allocate_new_blocks_short p m l id nt :
  sm_inv o p m l → zlen l < cdiv nt (block_size m) - zlen (table id m) →
  allocate_new_blocks id nt (p, m) = Exc ValueError (p, ensure id m).
Proof.
  intros Hi Hn. unfold allocate_new_blocks. rewrite upd_bind, get_bind. cbn [fst snd].
  rewrite table_ensure. change (block_size (ensure id m)) with (block_size m).
  pose proof (Zle_0_nat (length l)). rewrite (proj2 (Z.leb_gt _ _)) by (unfold zlen in *; lia).
  rewrite bind_unfold. unfold in_pool, zoom. cbn [fst snd].
  by erewrite get_new_blocks_short by (apply Hi || done).
Qed.

(** *** [remove_skipped_blocks] *)
Lemma skip_loop_spec n : ∀ t,
  (n ≤ length t)%nat →
  let r := skip_loop 0 n t in
  length r.2 = length t
  ∧ (∀ j b, r.2 !! j = Some b → b ≠ 0%nat → t !! j = Some b)
  ∧ (∀ b, b ∈ r.1 → b ≠ 0%nat)
  ∧ (∀ b, b ≠ 0%nat → occ b t = occ b r.2 + occ b r.1).
Proof.
  induction n as [|i IH]; intros t Hn; cbn zeta; cbn [skip_loop fst snd].
  { split_and!; [done..|set_solver|intros; simpl; lia]. }
  destruct (lookup_lt_is_Some_2 t i ltac:(lia)) as [x Hx]. rewrite Hx.
  destruct (Nat.eqb_spec x 0) as [->|Hx0].
  { split_and!; [done..|set_solver|intros; simpl; lia]. }
  destruct (IH (<[i := 0%nat]> t)) as (Hl & Hj & Hr & Ho); [rewrite length_insert; lia|].
  cbn [fst snd]. split_and!.
  - by rewrite Hl, length_insert.
  - intros j b Hb H0. apply (Hj j b Hb) in H0 as Hins. apply list_lookup_insert_Some in Hins as [(-> & <- & _)|[_ ?]]; done.
  - intros b [->|Hb]%elem_of_cons; [done|by apply Hr].
  - intros b H0. specialize (Ho b H0). rewrite (occ_insert b x 0%nat i t Hx) in Ho. cbn [occ].
    rewrite (decide_False (P := 0%nat = b)) in Ho by congruence. lia.
Qed.

Lemma occ_table_le_1 p m b id : man_ok p m → b ≠ 0%nat → occ b (table id m) ≤ 1.
Proof.
  intros Hm H0. rewrite <-(occ_filter (λ b, b ≠ 0%nat)) by done.
  rewrite occ_NoDup by apply Hm. case_decide; lia.
Qed.

(** The references of the blocks slid out of the window are dropped; the table
    keeps its length and its cached prefix. *)
Lemma remove_skipped_blocks_ok p m l id n :
  sm_inv o p m l →
  ∃ p' m' F, remove_skipped_blocks id n (p, m) = Ret tt (p', m')
    ∧ sm_inv o p' m' (l ++ F) ∧ sm_frame o p p' m m'
    ∧ num_cached_block m' = num_cached_block m
    ∧ (∀ id', length (table id' m') = length (table id' m))
    ∧ (∀ b, hash p' b = hash p b)
    ∧ (∀ id', id' ≠ id → table id' m' = table id' m)
    ∧ (get_num_skipped_tokens n m ≤ 0 → p' = p ∧ m' = m ∧ F = []).
Proof.
  intros Hi. pose proof (si_man _ _ _ _ Hi) as Hm. destruct (si_pool _ _ _ _ Hi) as [Hc Hq].
  unfold remove_skipped_blocks. rewrite get_bind. cbn [fst snd].
  destruct (Z.leb_spec (get_num_skipped_tokens n m) 0) as [Hle|Hgt].
  { exists p, m, []. rewrite app_nil_r. split_and!; try done; apply sm_frame_refl. }
  rewrite upd_bind. pose proof (same_ensure id m) as Hs1. set (m1 := ensure id m) in *.
  pose proof (sm_inv_same _ _ _ _ Hs1 Hi) as Hi1.
  set (t := table id m). rewrite (pc_null _ _ Hc).
  set (k := Z.to_nat _). assert (k ≤ length t)%nat as Hk by (unfold k, zlen; lia).
  destruct (skip_loop_spec k t Hk) as (Hlen & Hj & Hr0 & Hocc).
  destruct (skip_loop 0 k t) as [r t']. cbn [fst snd] in *. rewrite upd_bind.
  assert (∀ b, b ∈ r → real p b ∧ 1 ≤ ref p b ∧ occ b r = 1 ∧ b ∉ t') as Hr.
  { intros b Hb. pose proof (Hr0 b Hb) as H0. specialize (Hocc b H0). pose proof (occ_in b r Hb).
    pose proof (occ_nonneg b t'). pose proof (occ_table_le_1 p m b id Hm H0) as Hle. fold t in Hle.
    assert (b ∈ t) as Hbt by (apply occ_elem_iff; lia).
    destruct (entry_ref p m l id b Hi Hbt H0). split_and!; [done|done|lia|].
    intros ?%occ_in. lia. }
  destruct (pool_free_spec p l r) as (p' & Hrun & Hp' & Hst & Href & Hh); [done| | |].
  { intros b Hb. right. destruct (Hr b Hb) as (? & ? & _). done. }
  { apply NoDup_filter, NoDup_occ. intros b. destruct (decide (b ∈ r)) as [Hb|Hb].
    - destruct (Hr b Hb) as (_ & _ & -> & _). lia.
    - rewrite occ_notin by done. lia. }
  set (m2 := on_table (λ _, t') id m1).
  assert (∀ id', table id' m2 = if decide (id = id') then t' else table id' m) as Ht.
  { intros id'. unfold m2. rewrite table_on_table by apply ensure_mem.
    case_decide; [done|]. apply Hs1. }
  assert (∀ b, b ≠ 0%nat → eocc b m2 = eocc b m - occ b r) as He.
  { intros b H0. unfold m2. rewrite eocc_on_table by (apply ensure_mem || by apply Hs1, Hm).
    rewrite (st_eocc _ _ Hs1), (st_table _ _ Hs1). fold t. specialize (Hocc b H0). lia. }
  eexists p', m2, _. split; [by erewrite in_pool_Ret by exact Hrun|]. split_and!; [| |done| |done| |lia].
  - split; [exact Hp'|apply Hi| | |].
    + intros b. rewrite (static_real p) by done. intros Hb. destruct Hb as [Hb0 Hb1].
      rewrite Href, He, (si_ref _ _ _ _ Hi) by (done || lia). lia.
    + intros Hca b. rewrite Hh. apply (si_nocache _ _ _ _ Hi).
      by apply static_proj in Hst as (_ & _ & _ & <-).
    + assert (∀ id' j b, table id' m2 !! j = Some b → b ≠ 0%nat → table id' m !! j = Some b) as Hsub.
      { intros id' j b. rewrite Ht. case_decide; [subst; apply Hj|done]. }
      split; try apply Hm.
      * apply od_wf_alter, Hs1, Hm.
      * intros id' b Hb. rewrite (static_real p) by done.
        apply list_elem_of_lookup in Hb as [j Hb]. destruct (decide (b = 0%nat)); [by left|].
        eapply Hm. eapply list_elem_of_lookup_2. by apply (Hsub id' j).
      * intros id'. apply NoDup_occ. intros b. destruct (decide (b = 0%nat)) as [->|H0].
        { rewrite occ_notin; [lia|]. by intros [? _]%list_elem_of_filter. }
        rewrite occ_filter by done. rewrite Ht. case_decide; subst.
        { pose proof (occ_table_le_1 p m b id' Hm H0) as Hle. fold t in Hle.
          specialize (Hocc b H0). pose proof (occ_nonneg b r). lia. }
        { by apply (occ_table_le_1 p). }
      * intros id'. change (cached_len id' m2) with (cached_len id' m). rewrite Ht.
        case_decide; [subst; rewrite Hlen|]; apply Hm.
      * intros id' j b Hb H0. change (cached_len id' m2) with (cached_len id' m). intros Hle.
        pose proof (Hsub id' j b Hb H0) as Hb'.
        destruct (mo_tail _ _ Hm id' j b Hb' H0 Hle) as [Hn H1]. rewrite Hh, Href.
        split; [done|]. rewrite occ_notin; [lia|]. intros Hbr. destruct (Hr b Hbr) as (_ & _ & Ho & Hbt).
        rewrite Ht in Hb. case_decide; subst.
        { apply Hbt. by eapply list_elem_of_lookup_2. }
        { assert (b ∈ t) as Hbt'.
          { apply occ_elem_iff. specialize (Hocc b H0). pose proof (occ_nonneg b t'). lia. }
          eapply (tail_private p m l id id' b); try done. by eapply list_elem_of_lookup_2. }
  - split; try done. intros b H0 _ _. rewrite He by done. pose proof (occ_nonneg b r). lia.
  - intros id'. rewrite Ht. case_decide; [by subst; rewrite Hlen|done].
  - intros id' Hne. rewrite Ht. by rewrite decide_False by congruence.
Qed.

(** *** Prefix-cache hits *)
(** What [find_longest_cache_hit] returns: null blocks and distinct hashed ones. *)
Definition hits_ok p (hits : list nat) : Prop :=
  (∀ b, b ∈ hits → b = 0%nat ∨ real p b ∧ is_Some (hash p b))
  ∧ NoDup (filter (λ b, b ≠ 0%nat) hits).

Lemma hits_drop p n hits : hits_ok p hits → hits_ok p (drop n hits).
Proof.
  intros [Hb Hnd]. rewrite <-(take_drop n hits) in Hb, Hnd. split.
  - intros b H. apply Hb, elem_of_app. by right.
  - rewrite filter_app in Hnd. by apply NoDup_app in Hnd as (_ & _ & ?).
Qed.

(** Touching hits takes exactly the evictable ones out of the free list. *)
Lemma touched_free p l hits :
  pool_core p l → (∀ b, b ∈ hits → b = 0%nat ∨ real p b) → NoDup (filter (λ b, b ≠ 0%nat) hits) →
  zlen (filter (λ i, i ∉ hits) l) = zlen l - get_num_evictable_blocks p hits.
Proof.
  intros Hc Hb Hnd. unfold get_num_evictable_blocks.
  assert (filter (λ b, ref_cnt (block_of p b) = 0 ∧ is_null (block_of p b) = false) hits
    ≡ₚ filter (λ b, b ∈ hits) l) as Hp.
  { apply NoDup_Permutation; [|apply NoDup_filter, Hc|].
    - apply NoDup_occ. intros b. destruct (decide (b ∈ filter (λ b, ref_cnt (block_of p b) = 0 ∧ is_null (block_of p b) = false) hits)) as [Hin|Hn];
        [|rewrite occ_notin by done; lia].
      apply list_elem_of_filter in Hin as [[Hr Hnull] Hin]. rewrite occ_filter by done.
      assert (b ≠ 0%nat) as H0.
      { intros ->. rewrite (pc_is_null _ _ Hc), bool_decide_eq_true_2 in Hnull by (apply Hc || done). done. }
      rewrite <-(occ_filter (λ b, b ≠ 0%nat)), occ_NoDup by done. case_decide; lia.
    - intros b. rewrite !list_elem_of_filter, (pc_free _ _ Hc). unfold ref. split.
      + intros [[Hr Hnull] Hin]. destruct (Hb b Hin) as [->|Hreal]; [|done].
        rewrite (pc_is_null _ _ Hc), bool_decide_eq_true_2 in Hnull by (apply Hc || done). done.
      + intros [Hin [Hreal Hr]]. split; [|done]. split; [done|]. by eapply core_is_null. }
  unfold zlen. rewrite (Permutation_length Hp).
  pose proof (Permutation_length (filter_app_complement (λ b, b ∈ hits) l)) as Hl.
  rewrite length_app in Hl.
  assert (∀ a b c : nat, (a + b)%nat = c → Z.of_nat b = Z.of_nat c - Z.of_nat a) as Harith by lia.
  exact (Harith _ _ _ Hl).
Qed.

(** A fresh request adopts its hits: [k] null blocks, then the touched hits. *)
Lemma adopt_ok p m l id k hits :
  sm_inv o p m l → hits_ok p hits → (enable_caching p = false → hits = []) →
  table id m = [] → od_mem id (req_to_blocks m) = true →
  ∃ p', touch hits p = Ret tt p'
    ∧ let m' := set_num_cached_block (od_set id (k + length hits)%nat (num_cached_block m))
                  (on_table (λ t, t ++ replicate k 0%nat ++ hits) id m) in
      sm_inv o p' m' (filter (λ i, i ∉ hits) l) ∧ sm_frame o p p' m m'
    ∧ (∀ b, hash p' b = hash p b).
Proof.
  intros Hi [Hb Hnd] Hcaching Ht Hmem. pose proof (si_man _ _ _ _ Hi) as Hm.
  pose proof (si_pool _ _ _ _ Hi) as Hp. pose proof (pc_pos _ _ (proj1 Hp)) as Hpos.
  destruct (touch_spec hits p l Hp) as (p' & Hrun & Hp' & Hs & Hr & Hh).
  { intros b Hin. destruct (Hb b Hin) as [->|[[??] _]]; lia. }
  exists p'. split; [done|]. set (m' := set_num_cached_block _ _).
  assert (∀ b, b ≠ 0%nat → eocc b m' = eocc b m + occ b hits) as He.
  { intros b H0. change (eocc b m') with (eocc b (on_table (λ t, t ++ replicate k 0%nat ++ hits) id m)).
    rewrite eocc_on_table by (done || apply Hm). rewrite !occ_app, (occ_notin b (replicate _ _)); [lia|].
    by intros [? _]%elem_of_replicate. }
  assert (∀ id', table id' m' = if decide (id = id') then replicate k 0%nat ++ hits else table id' m) as Htab.
  { intros id'. change (table id' m') with (table id' (on_table (λ t, t ++ replicate k 0%nat ++ hits) id m)).
    rewrite table_on_table by done. by rewrite Ht. }
  assert (∀ id', cached_len id' m' = if decide (id = id') then (k + length hits)%nat else cached_len id' m) as Hcl.
  { intros id'. unfold cached_len. cbn. rewrite od_get_set. by case_decide. }
  assert (∀ b, b ∈ hits → b ≠ 0%nat → is_Some (hash p b)) as Hsome.
  { intros b Hin H0. by destruct (Hb b Hin) as [?|[_ ?]]. }
  split_and!; [| |done].
  - split; [done|apply Hi| | |].
    + intros b. rewrite (static_real p) by done. intros [Hb0 Hb1].
      rewrite Hr, He, (si_ref _ _ _ _ Hi) by (done || lia). lia.
    + intros Hca b. rewrite Hh. apply (si_nocache _ _ _ _ Hi).
      by apply static_proj in Hs as (_ & _ & _ & <-).
    + split; try apply Hm.
      * apply od_wf_alter, Hm.
      * intros id' b. rewrite Htab, (static_real p) by done. case_decide; [|apply Hm].
        rewrite elem_of_app, elem_of_replicate. intros [[? _]|Hin]; [by left|].
        destruct (Hb b Hin) as [?|[? _]]; auto.
      * intros id'. rewrite Htab. case_decide; [|apply Hm]. rewrite filter_app.
        assert (filter (λ b, b ≠ 0%nat) (replicate k 0%nat) = []) as ->; [|done].
        clear. induction k as [|k IH]; [done|]. by rewrite replicate_S, filter_cons_False by (intros H; by apply H).
      * intros id'. rewrite Htab, Hcl. case_decide; [|apply Hm].
        rewrite length_app, length_replicate. lia.
      * intros id' j b. rewrite Htab, Hcl. case_decide as Hid.
        { intros Hj%lookup_lt_Some _ Hle. rewrite length_app, length_replicate in Hj. lia. }
        intros Hj H0 Hle. destruct (mo_tail _ _ Hm id' j b Hj H0 Hle) as [Hn H1].
        rewrite Hh, Hr, occ_notin; [split; [done|lia]|]. intros Hin.
        destruct (Hsome b Hin H0) as [? ?]. congruence.
  - split; try done. intros b H0 _ Hn. rewrite He by done. rewrite occ_notin; [lia|].
    intros Hin. destruct (Hsome b Hin H0) as [? ?]. congruence.
Qed.

(** [allocate_new_computed_blocks] for a request without blocks: the hits
    outside the skipped prefix are adopted, and fresh blocks hold the
    externally computed tokens. *)
Lemma allocate_new_computed_blocks_ok p m l id hits loc ext :
  sm_inv o p m l → hits_ok p hits → (enable_caching p = false → hits = []) →
  spec_kind m ≠ CrossAttention → od_mem id (num_cached_block m) = false → table id m = [] →
  let k := Z.to_nat (get_num_skipped_tokens (loc + ext) m / block_size m) in
  let H := drop k hits in
  let l1 := filter (λ i, i ∉ H) l in
  let n := cdiv (loc + ext) (block_size m) - Z.of_nat (k + length H) in
  let new := if decide (ext ≤ 0 ∨ loc + ext ≤ get_num_skipped_tokens (loc + ext) m ∧ (0 < k)%nat)
             then [] else take (Z.to_nat n) l1 in
  0 ≤ get_num_skipped_tokens (loc + ext) m → 0 ≤ n ≤ zlen l1 →
  ∃ p' m', allocate_new_computed_blocks id hits loc ext (p, m) = Ret tt (p', m')
    ∧ sm_inv o p' m' (drop (length new) l1) ∧ sm_frame o p p' m m'
    ∧ table id m' = replicate k 0%nat ++ H ++ new
    ∧ (∀ id', id' ≠ id → table id' m' = table id' m)
    ∧ num_cached_block m' = od_set id (k + length H)%nat (num_cached_block m).
Proof.
  intros Hi Hhits Hca Hkind Hcached Ht k H l1 n new Hsk Hn.
  pose proof (mo_size _ _ (si_man _ _ _ _ Hi)) as Hbs.
  unfold allocate_new_computed_blocks. rewrite get_bind. cbn [fst snd].
  assert (∀ A (x y : A), match spec_kind m with CrossAttention => x | _ => y end = y) as Hnc
    by by destruct (spec_kind m).
  rewrite Hnc, Hcached, upd_bind, assert_bind by by rewrite Ht.
  pose proof (same_ensure id m) as Hs1. set (m1 := ensure id m) in *.
  pose proof (sm_inv_same _ _ _ _ Hs1 Hi) as Hi1.
  set (skipped := get_num_skipped_tokens (loc + ext) m) in *. cbn zeta.
  assert (0 ≤ skipped / block_size m) as Hk0 by (by apply Z.div_pos).
  set (ext' := if 0 <? skipped / block_size m then Z.min (loc + ext - skipped) ext else ext).
  assert ((if 0 <? skipped / block_size m
           then (drop (Z.to_nat (skipped / block_size m)) hits, Z.min (loc + ext - skipped) ext)
           else (hits, ext)) = (H, ext')) as ->.
  { unfold ext', H, k. destruct (Z.ltb_spec 0 (skipped / block_size m)); [done|].
    assert (Z.to_nat (skipped / block_size m) = 0%nat) as -> by lia. by rewrite drop_0. }
  fold k. rewrite (pc_null _ _ (proj1 (si_pool _ _ _ _ Hi))).
  destruct (adopt_ok p m1 l id k H Hi1) as (p1 & Hrun1 & Hi2 & Hf2 & Hh1).
  { by apply hits_drop. } { intros Hc0. unfold H. rewrite Hca by done. by rewrite drop_nil. }
  { by rewrite (st_table _ _ Hs1). } { apply ensure_mem. }
  set (m2 := set_num_cached_block _ _) in *.
  assert (∀ kont : SM unit, ((if enable_caching p then in_pool (touch H) else assertM (zlen H =? 0)) ;; kont) (p, m1)
    = kont (p1, m1)) as Htouch.
  { intros kont. rewrite bind_unfold. destruct (enable_caching p) eqn:Hc0.
    - by erewrite in_pool_Ret by exact Hrun1.
    - assert (H = []) as HH by (unfold H; rewrite Hca by done; by rewrite drop_nil).
      rewrite HH in Hrun1 |- *. cbn in Hrun1. injection Hrun1 as <-. done. }
  rewrite Htouch, upd_bind, get_bind. cbn [fst snd].
  assert (table id m2 = replicate k 0%nat ++ H) as Htm2.
  { change (table id m2) with (table id (on_table (λ t, t ++ replicate k 0%nat ++ H) id m1)).
    rewrite table_on_table, decide_True by (done || apply ensure_mem). rewrite (st_table _ _ Hs1), Ht. done. }
  change (table id (on_table (λ t, t ++ replicate k 0%nat ++ H) id m1)) with (table id m2).
  rewrite upd_bind, Htm2.
  change (set_num_cached_block _ _) with (set_num_cached_block
    (od_set id (length (replicate k 0%nat ++ H)) (num_cached_block m1))
    (on_table (λ t, t ++ replicate k 0%nat ++ H) id m1)).
  assert (length (replicate k 0%nat ++ H) = (k + length H)%nat) as Hlen
    by by rewrite length_app, length_replicate.
  rewrite Hlen. fold m2.
  assert (∀ id', id' ≠ id → table id' m2 = table id' m) as Hoth.
  { intros id' Hne. change (table id' m2) with (table id' (on_table (λ t, t ++ replicate k 0%nat ++ H) id m1)).
    rewrite table_on_table, decide_False by (congruence || apply ensure_mem). apply Hs1. }
  assert (sm_frame o p p1 m m2) as Hf12 by (eapply sm_frame_trans; [by apply (frame_same p m m1)|exact Hf2]).
  assert (new = if 0 <? ext' then take (Z.to_nat n) l1 else []) as Hnew.
  { unfold new, ext', k. destruct (Z.ltb_spec 0 (skipped / block_size m)) as [Hpos|Hnp].
    - destruct (Z.ltb_spec 0 (Z.min (loc + ext - skipped) ext)); case_decide; (done || lia).
    - destruct (Z.ltb_spec 0 ext); case_decide; (done || lia). }
  destruct (Z.ltb_spec 0 ext') as [Hext|Hext]; rewrite Hnew.
  - unfold zlen at 1. rewrite Hlen. fold n.
    set (X := take (Z.to_nat n) l1) in *. pose proof Hi2 as Hi2'.
    change (filter (λ i, i ∉ H) l) with l1 in Hi2'. rewrite <-(take_drop (Z.to_nat n) l1) in Hi2'. fold X in Hi2'.
    assert (zlen X = n ∧ length X = Z.to_nat n) as [HX HXl] by (unfold X, zlen in *; rewrite length_take; lia).
    assert (od_mem id (req_to_blocks m2) = true) as Hmem2.
    { apply od_mem_true. change (req_to_blocks m2) with (od_alter (λ t, t ++ replicate k 0%nat ++ H) id (req_to_blocks m1)).
      rewrite od_keys_alter. apply od_mem_true, ensure_mem. }
    destruct (grow_ok p1 m2 _ X id Hi2' Hmem2) as (p' & Hrun & Hi3 & Hf3 & _).
    rewrite HX in Hrun. rewrite bind_unfold. erewrite in_pool_Ret by exact Hrun. rewrite upd_bind.
    set (m3 := on_table _ id m2) in *. pose proof (same_record_new X m3) as Hs4.
    eexists p', (record_new X m3). split; [reflexivity|]. split_and!.
    + eapply sm_inv_same; [done|]. by rewrite HXl.
    + eapply sm_frame_trans; [exact Hf12|]. eapply sm_frame_trans; [exact Hf3|]. by apply frame_same.
    + rewrite (st_table _ _ Hs4). unfold m3. rewrite table_on_table, decide_True by done.
      by rewrite Htm2, <-app_assoc.
    + intros id' Hne. rewrite (st_table _ _ Hs4). unfold m3.
      rewrite table_on_table, decide_False by (done || congruence). by apply Hoth.
    + by rewrite (st_cached _ _ Hs4).
  - exists p1, m2. rewrite app_nil_r. cbn [length]. rewrite drop_0. by split_and!.
Qed.

(** *** [cache_blocks] *)
(** The hashes given to a request suffice for its full blocks. *)
Definition hashes_cover p m (hashes : list BlockHash) (nf : nat) : Prop :=
  (nf ≤ length hashes)%nat
  ∧ ∃ hs, group_hashes (hash_block_size p) (block_size m) hashes = Some hs ∧ (nf ≤ length hs)%nat.

Lemma cache_blocks_ok p m l id hashes nt :
  sm_inv o p m l → enable_caching p = true → spec_kind m ≠ CrossAttention →
  let nf := Z.to_nat (nt / block_size m) in
  (nf ≤ length (table id m))%nat → hashes_cover p m hashes nf →
  ∃ p' m', cache_blocks id hashes nt None (p, m) = Ret tt (p', m')
    ∧ sm_inv o p' m' l ∧ sm_frame o p p' m m'
    ∧ (∀ id', table id' m' = table id' m)
    ∧ cached_len id m' = Nat.max (cached_len id m) nf.
Proof.
  intros Hi Hca Hkind nf Hnf (Hlen & hs & Hhs & Hlhs). pose proof (si_man _ _ _ _ Hi) as Hm.
  unfold cache_blocks. rewrite get_bind. cbn [fst snd].
  assert (∀ A (x y : A), match spec_kind m with CrossAttention => x | _ => y end = y) as Hnc
    by by destruct (spec_kind m).
  rewrite Hnc. fold nf. fold (cached_len id m).
  destruct (Nat.leb_spec nf (cached_len id m)) as [Hle|Hlt].
  { exists p, m. split_and!; done || apply sm_frame_refl || lia. }
  rewrite mret_bind, upd_bind.
  pose proof (same_ensure id m) as Hs1. set (m1 := ensure id m) in *.
  pose proof (sm_inv_same _ _ _ _ Hs1 Hi) as Hi1.
  set (t := table id m) in *. set (nc := cached_len id m) in *.
  destruct (mo_group _ _ Hm) as [gb Hgb].
  set (seg := take (nf - nc) (drop nc t)).
  assert (∀ b, b ∈ seg → b ≠ 0%nat → ∃ j, (nc ≤ j < nf)%nat ∧ t !! j = Some b) as Hseg.
  { intros b [j Hj]%list_elem_of_lookup _. unfold seg in Hj. apply lookup_take_Some in Hj as [Hj ?].
    rewrite lookup_drop in Hj. exists (nc + j)%nat. split; [lia|done]. }
  destruct (cache_full_blocks_spec p l hashes hs t nc nf (block_size m) (kv_cache_group_id m) gb None)
    as (p' & Hrun & Hp' & Hst & Hr & Hin & Hout); [apply Hi|done..| | | |].
  { intros b. apply Hm. }
  { apply NoDup_occ. intros b. destruct (decide (b = 0%nat)) as [->|H0].
    - rewrite occ_notin; [lia|]. by intros [? _]%list_elem_of_filter.
    - rewrite occ_filter by done. pose proof (occ_table_le_1 p m b id Hm H0) as Hle. fold t in Hle.
      rewrite <-(take_drop nc t), occ_app, <-(take_drop (nf - nc) (drop nc t)), occ_app in Hle.
      fold seg in Hle |- *. pose proof (occ_nonneg b (take nc t)). pose proof (occ_nonneg b (drop (nf - nc) (drop nc t))). lia. }
  { intros j b Hj Hb H0 _. exact (proj1 (mo_tail _ _ Hm id j b Hb H0 (proj1 Hj))). }
  rewrite bind_unfold. erewrite in_pool_Ret by exact Hrun. unfold upd, modify. cbn [fst snd].
  set (m' := set_num_cached_block _ m1). exists p', m'.
  assert (∀ b, b ∉ seg ∨ b = 0%nat → hash p' b = hash p b) as Hsame.
  { intros b [Hb| ->]; [by apply Hout|].
    rewrite (pc_hash0 _ _ (proj1 Hp')), (pc_hash0 _ _ (proj1 (si_pool _ _ _ _ Hi))). done. }
  assert (∀ b, b ∈ seg → b ≠ 0%nat → ref p b = 1) as Href1.
  { intros b Hb H0. destruct (Hseg b Hb H0) as (j & Hj & Hjb).
    exact (proj2 (mo_tail _ _ Hm id j b Hjb H0 (proj1 Hj))). }
  assert (∀ b, b ∈ seg → b ∈ t) as Hsub by (intros b; apply elem_of_take_drop).
  assert (∀ id', cached_len id' m' = if decide (id = id') then nf else cached_len id' m) as Hcl.
  { intros id'. unfold cached_len. cbn. rewrite od_get_set. by case_decide. }
  assert (∀ id', table id' m' = table id' m) as Htab by (intros id'; apply (st_table _ _ Hs1)).
  split_and!; [done| | |done|].
  - split; [done|apply Hi| | |].
    + intros b. rewrite (static_real p) by done. intros Hb. rewrite Hr.
      change (eocc b m') with (eocc b m1). by apply Hi1.
    + intros Hc0. apply static_proj in Hst as (_ & _ & _ & Hc1). congruence.
    + split; try apply Hm.
      * apply Hs1, Hm.
      * intros id' b. rewrite Htab, (static_real p) by done. apply Hm.
      * intros id'. rewrite Htab. apply Hm.
      * intros id'. rewrite Htab, Hcl. case_decide; [by subst|apply Hm].
      * intros id' j b. rewrite Htab, Hcl, Hr. case_decide as Hid.
        { subst id'. intros Hj H0 Hle. destruct (mo_tail _ _ Hm id j b Hj H0 ltac:(unfold nc in *; lia)) as [Hn H1].
          split; [|done]. rewrite Hsame; [done|left]. intros Hb.
          destruct (Hseg b Hb H0) as (j' & Hj' & Hjb).
          pose proof (occ_table_le_1 p m b id Hm H0) as Hocc. fold t in Hocc, Hj.
          rewrite <-(take_drop nf t), occ_app in Hocc.
          assert (b ∈ take nf t) as H1'%occ_in.
          { apply (list_elem_of_lookup_2 _ j'). apply lookup_take_Some. split; [done|lia]. }
          assert (b ∈ drop nf t) as H2'%occ_in.
          { apply (list_elem_of_lookup_2 _ (j - nf)%nat). rewrite lookup_drop.
            by replace (nf + (j - nf))%nat with j by lia. }
          lia. }
        intros Hj H0 Hle. destruct (mo_tail _ _ Hm id' j b Hj H0 Hle) as [Hn H1]. split; [|done].
        rewrite Hsame; [done|left]. intros Hb.
        eapply (tail_private p m l id id' b); try done; [by apply Hsub|by eapply list_elem_of_lookup_2].
  - split; try done.
    + intros b Hb. destruct (decide (b = 0%nat)) as [->|H0]; [apply Hsame; by right|].
      apply Hsame. left. intros Hin'. pose proof (Href1 b Hin' H0) as H1.
      destruct (entry_ref p m l id b Hi (Hsub b Hin') H0) as [Hreal _].
      rewrite (si_ref _ _ _ _ Hi) in H1 by done. pose proof (occ_in b _ (Hsub b Hin')).
      pose proof (occ_table b id m (mo_wf _ _ Hm)). fold t in H2. lia.
    + intros b _ _ _. change (eocc b m') with (eocc b m1). by rewrite (st_eocc _ _ Hs1).
  - rewrite Hcl, decide_True by done. unfold nc in *. lia.
Qed.
End one_manager.
