(* ===== verification/KVCacheProps.v ===== *)
(** * Properties of the KV-cache manager

    The KV-cache manager of an engine with one full-attention group: the
    exactness of [allocate_slots] against its own predictor, the accounting
    invariant over all sequences of calls, and the correctness of prefix-cache
    hits. *)
From Stdlib Require Import QArith.
From S2P Require Import Prelude PyFloat FreeQueue BlockPool BlockPoolFacts Request KVCache KVCacheFacts.
Local Open Scope Z_scope.

Definition alone (b : nat) : Z := 0.

(** A manager with one full-attention group over its pool, whose free list is
    [l]: each block is referenced once per table entry, and is free exactly
    when no table names it. *)
Record kv_inv (k : KVCacheManager) (m : SingleTypeKVCacheManager) (l : list nat) : Prop := {
  kv_single : single_type_managers k = [m];
  kv_kind : ∃ exact, spec_kind m = FullAttention exact;
  kv_cap : max_admission_blocks_per_request m = None;
  kv_sm : sm_inv alone (block_pool k) m l
}.

Definition with_state (p : BlockPool) (m : SingleTypeKVCacheManager) (k : KVCacheManager) :
    KVCacheManager :=
  {| block_pool := p; single_type_managers := [m]; max_model_len := max_model_len k;
     eagle_group_ids := eagle_group_ids k |}.

Section kv.
Implicit Types (k : KVCacheManager) (m : SingleTypeKVCacheManager) (p : BlockPool) (l : list nat).

Lemma at_manager_Ret {A} (c : SM A) k m a p' m' :
  single_type_managers k = [m] → c (block_pool k, m) = Ret a (p', m') →
  at_manager 0 c k = Ret a (with_state p' m' k).
Proof.
  intros Hk Hc. unfold at_manager, zoom. rewrite Hk. cbn. rewrite Hc.
  unfold set_pair, with_state. by rewrite Hk.
Qed.

Lemma with_state_eta k m l : kv_inv k m l → with_state (block_pool k) m k = k.
Proof. intros Hk. unfold with_state. rewrite <-(kv_single _ _ _ Hk). by destruct k. Qed.

Lemma kv_inv_step k m l p' m' l' :
  kv_inv k m l → sm_inv alone p' m' l' → sm_frame alone (block_pool k) p' m m' →
  kv_inv (with_state p' m' k) m' l'.
Proof.
  intros Hk Hi Hf. destruct Hk as [_ [e He] Hcap _]. split; [done| | |done].
  - exists e. by rewrite (sf_kind _ _ _ _ _ Hf).
  - by rewrite (sf_cap _ _ _ _ _ Hf).
Qed.

Lemma groups_single k m l : kv_inv k m l → groups k = [0%nat].
Proof. intros Hk. unfold groups. by rewrite (kv_single _ _ _ Hk). Qed.

Lemma cross_single k m l : kv_inv k m l → is_cross k 0 = false.
Proof.
  intros Hk. unfold is_cross. rewrite (kv_single _ _ _ Hk). simpl.
  by destruct (kv_kind _ _ _ Hk) as [e ->].
Qed.

Lemma skipped_full k m l n : kv_inv k m l → get_num_skipped_tokens n m = 0.
Proof. intros Hk. unfold get_num_skipped_tokens. by destruct (kv_kind _ _ _ Hk) as [e ->]. Qed.

(** The blocks a full-attention request takes from the free list to hold
    [num_tokens] tokens: the missing ones and the evictable hits. *)
Definition blocks_needed p m (id : string) (hits : list nat) (num_tokens : Z) : Z :=
  Z.max (cdiv num_tokens (block_size m) - (zlen hits + zlen (table id m))) 0
  + get_num_evictable_blocks p hits.

Lemma num_blocks_single k m l id nt hits enc tot main cap :
  kv_inv k m l → (od_mem id (num_cached_block m) = true → hits = []) →
  coord_get_num_blocks_to_allocate id nt [hits] enc tot main cap k
    = Ret (blocks_needed (block_pool k) m id hits nt) k.
Proof.
  intros Hk Hh. unfold coord_get_num_blocks_to_allocate. rewrite get_bind, (groups_single k m l) by done.
  cbn [sumM]. rewrite (cross_single k m l) by done. cbn [list_lookup_total].
  assert (get_num_blocks_to_allocate id nt hits tot main cap (block_pool k, m)
    = Ret (blocks_needed (block_pool k) m id hits nt) (block_pool k, m)) as Hrun.
  { unfold get_num_blocks_to_allocate, blocks_needed. rewrite get_bind. cbn [fst snd].
    rewrite (kv_cap _ _ _ Hk). cbn zeta.
    assert (∀ x : Z, (if cap then match None with Some c => Z.min x c | None => x end else x) = x) as Hcap
      by by destruct cap.
    assert (∀ x : Z, match cap, (None : option Z) with true, Some c => Z.min x c | _, _ => x end = x) as Hcap'
      by by destruct cap.
    rewrite Hcap', (skipped_full k m l) by done. rewrite Z.div_0_l by (pose proof (mo_size _ _ (si_man _ _ _ _ (kv_sm _ _ _ Hk))); lia).
    destruct (od_mem id (num_cached_block m)) eqn:Hmem.
    - rewrite (Hh eq_refl). rewrite assert_bind by done. unfold get_num_evictable_blocks. cbn.
      unfold mret, M_ret. f_equal. unfold zlen. simpl. lia.
    - rewrite (Z.max_r 0 (zlen hits + _)) by (unfold zlen; lia).
      rewrite (Z.max_l 0 (0 - _)) by (unfold zlen; lia). change (Z.to_nat 0) with 0%nat.
      by rewrite drop_0. }
  rewrite bind_unfold. erewrite at_manager_Ret by (apply Hk || exact Hrun).
  rewrite (with_state_eta k m l) by done. unfold mret, M_ret, mbind, M_bind. by rewrite Z.add_0_r.
Qed.

Lemma remove_skipped_single k m l id n :
  kv_inv k m l → coord_remove_skipped_blocks id n k = Ret tt k.
Proof.
  intros Hk. unfold coord_remove_skipped_blocks. rewrite get_bind, (groups_single k m l) by done.
  destruct (remove_skipped_blocks_ok alone _ _ _ id n (kv_sm _ _ _ Hk)) as (p' & m' & F & Hrun & _ & _ & _ & _ & _ & _ & Hsame).
  destruct Hsame as (-> & -> & _); [by rewrite (skipped_full k m l)|].
  cbn [forM]. rewrite bind_unfold. erewrite at_manager_Ret by (apply Hk || exact Hrun).
  by rewrite (with_state_eta k m l).
Qed.

(** Calls on the only manager. *)
Lemma coord_single {A} k m l (c : nat → SM A) a p' m' :
  kv_inv k m l → c 0%nat (block_pool k, m) = Ret a (p', m') →
  collectM (groups k) (λ i, at_manager i (c i)) k = Ret [a] (with_state p' m' k).
Proof.
  intros Hk Hc. rewrite (groups_single k m l) by done. cbn [collectM].
  rewrite bind_unfold. by erewrite at_manager_Ret by (apply Hk || exact Hc).
Qed.

Lemma coord_unit k m l (c : nat → SM unit) p' m' :
  kv_inv k m l → c 0%nat (block_pool k, m) = Ret tt (p', m') →
  forM (groups k) (λ i, at_manager i (c i)) k = Ret tt (with_state p' m' k).
Proof.
  intros Hk Hc. rewrite (groups_single k m l) by done. cbn [forM].
  rewrite bind_unfold. by erewrite at_manager_Ret by (apply Hk || exact Hc).
Qed.
End kv.

(** ** [allocate_slots] *)
Section slots.
Context {F : Type} `{FO : FloatOps F}.
Implicit Types (r : Request F) (k : KVCacheManager) (m : SingleTypeKVCacheManager).

(** How the scheduler calls [allocate_slots]: either for more tokens of a
    request without new hits, or for a request without blocks, with the hits
    and the external tokens found for it. *)
Record slots_ok k m r (num_new num_new_computed : Z) (hits : option (list (list nat)))
    (lookahead ext : Z) (delay : bool) (H : list nat) : Prop := {
  so_some : num_new ≠ 0 ∨ ext ≠ 0;
  so_new : 0 ≤ num_new;
  so_look : 0 ≤ lookahead;
  so_len : num_tokens r ≤ max_model_len k;
  so_nonneg : 0 ≤ num_computed_tokens r + num_new_computed ∧ 0 ≤ max_model_len k;
  so_hits :
    (hits = None ∧ ext = 0 ∧ H = [])
    ∨ (hits = Some [H] ∨ (hits = None ∧ H = [] ∧ 0 < ext))
      ∧ od_mem (request_id r) (num_cached_block m) = false ∧ table (request_id r) m = []
      ∧ hits_ok (block_pool k) H ∧ (enable_caching (block_pool k) = false → H = [])
      ∧ num_computed_tokens r + num_new_computed = zlen H * block_size m
      ∧ 0 ≤ ext ∧ num_computed_tokens r + num_new_computed + ext ≤ max_model_len k;
  so_hashes : enable_caching (block_pool k) = true → delay = false →
    hashes_cover (block_pool k) m (block_hashes r)
      (Z.to_nat (num_tokens r / block_size m))
}.

Definition slot_tokens k r (num_new num_new_computed lookahead ext : Z) : Z :=
  Z.min (Z.min (num_computed_tokens r + num_new_computed + ext) (max_model_len k)
         + num_new + lookahead) (max_model_len k).

Lemma hashes_cover_le p m hashes n n' : (n ≤ n')%nat → hashes_cover p m hashes n' → hashes_cover p m hashes n.
Proof. intros Hn (Hl & hs & Hhs & Hl'). split; [lia|]. exists hs. split; [done|lia]. Qed.

Lemma hits_none k m l r num_new nc hits look ext delay H :
  kv_inv k m l → slots_ok k m r num_new nc hits look ext delay H →
  default (empty_kv_cache_blocks k) hits = [H]
  ∧ (od_mem (request_id r) (num_cached_block m) = true → H = []).
Proof.
  intros Hk Hs. unfold empty_kv_cache_blocks. rewrite (kv_single _ _ _ Hk).
  destruct (so_hits _ _ _ _ _ _ _ _ _ _ Hs) as [(-> & _ & ->)|(Hh & Hc & _)]; [done|].
  split; [|congruence]. by destruct Hh as [->|(-> & -> & _)].
Qed.

Lemma div_le_cdiv a b c : 0 < b → a ≤ c → a / b ≤ cdiv c b.
Proof.
  intros Hb Ha. pose proof (cdiv_spec c b Hb). pose proof (Z.div_mod a b ltac:(lia)).
  pose proof (Z.mod_pos_bound a b Hb). nia.
Qed.

(** The allocation proper, once the predictor has admitted it. *)
Lemma allocate_admitted k m l r num_new nc hits look ext delay H :
  kv_inv k m l → slots_ok k m r num_new nc hits look ext delay H →
  let slots := slot_tokens k r num_new nc look ext in
  let need := blocks_needed (block_pool k) m (request_id r) H slots in
  need ≤ zlen l →
  ∃ new_blocks k' m' l',
    ((if bool_decide (hits ≠ None) || (0 <? ext)
      then coord_allocate_new_computed_blocks (request_id r) [H] (num_computed_tokens r + nc) ext
      else mret tt) ;;
     coord_allocate_new_blocks (request_id r) slots 0) k = Ret [new_blocks] k'
    ∧ kv_inv k' m' l' ∧ static (block_pool k') = static (block_pool k)
    ∧ max_model_len k' = max_model_len k
    ∧ zlen l' = zlen l - need
    ∧ zlen (table (request_id r) m') = Z.max (zlen (table (request_id r) m) + zlen H) (cdiv slots (block_size m))
    ∧ block_size m' = block_size m.
Proof.
  intros Hk Hs slots need Hneed. pose proof (kv_sm _ _ _ Hk) as Hi.
  pose proof (mo_size _ _ (si_man _ _ _ _ Hi)) as Hbs.
  assert (∀ k1 m1 l1 n, kv_inv k1 m1 l1 → block_size m1 = block_size m →
    n = cdiv slots (block_size m) - zlen (table (request_id r) m1) → n ≤ zlen l1 →
    ∃ nb k' m' l', coord_allocate_new_blocks (request_id r) slots 0 k1 = Ret [nb] k'
      ∧ kv_inv k' m' l' ∧ static (block_pool k') = static (block_pool k1)
      ∧ max_model_len k' = max_model_len k1 ∧ zlen l' = zlen l1 - Z.max n 0
      ∧ zlen (table (request_id r) m') = Z.max (zlen (table (request_id r) m1)) (cdiv slots (block_size m))
      ∧ block_size m' = block_size m) as Hgrow.
  { intros k1 m1 l1 n Hk1 Hbs1 Hn Hle. pose proof (kv_sm _ _ _ Hk1) as Hi1.
    destruct (allocate_new_blocks_ok alone (block_pool k1) m1 l1 (request_id r) slots Hi1)
      as (p' & m' & Hrun & Hi' & Hf & Ht & _); [rewrite Hbs1; lia|].
    exists (take (Z.to_nat n) l1), (with_state p' m' k1), m', (drop (Z.to_nat n) l1).
    rewrite Hbs1, <-Hn in Hrun, Hi', Ht. split_and!; try done.
    - unfold coord_allocate_new_blocks. rewrite get_bind.
      eapply (coord_single k1 m1 l1 (λ i, allocate_new_blocks (request_id r)
        (if is_cross k1 i then 0 else slots))); [done|].
      by rewrite (cross_single k1 m1 l1).
    - by eapply kv_inv_step.
    - apply Hf.
    - unfold zlen in *. rewrite length_drop. lia.
    - rewrite Ht. unfold zlen in *. rewrite length_app, length_take. lia.
    - by rewrite (sf_size _ _ _ _ _ Hf). }
  destruct (so_hits _ _ _ _ _ _ _ _ _ _ Hs) as [(-> & -> & ->)|(Hh & Hc & Ht & Hok & Hca & Hloc & Hext & Hmax)].
  - rewrite bool_decide_eq_false_2 by (by intros H1; apply H1). change (0 <? 0) with false. cbn [orb]. rewrite mret_bind.
    unfold need, blocks_needed, get_num_evictable_blocks in *. change (zlen (filter _ [])) with 0 in *.
    change (zlen ([] : list nat)) with 0 in *.
    destruct (Hgrow k m l _ Hk eq_refl eq_refl) as (nb & k' & m' & l' & Hrun & Hk' & Hst & Hml & Hl' & Htl & Hb').
    { lia. }
    exists nb, k', m', l'. split_and!; try done; [lia|]. rewrite Htl. unfold zlen. lia.
  - set (id := request_id r) in *. set (bs := block_size m) in *.
    set (loc := num_computed_tokens r + nc) in *.
    assert (slots = Z.min (loc + ext + num_new + look) (max_model_len k)
      ∧ loc + ext ≤ slots) as [Hslots Hle].
    { pose proof (so_new _ _ _ _ _ _ _ _ _ _ Hs). pose proof (so_look _ _ _ _ _ _ _ _ _ _ Hs).
      unfold slots, slot_tokens. fold loc. lia. }
    set (l1 := filter (λ i, i ∉ H) l).
    assert (zlen l1 = zlen l - get_num_evictable_blocks (block_pool k) H) as Hl1.
    { apply touched_free; [apply Hi| |apply Hok]. intros b Hb.
      destruct (proj1 Hok b Hb) as [?|[? _]]; auto. }
    assert (zlen H ≤ cdiv (loc + ext) bs ∧ cdiv (loc + ext) bs ≤ cdiv slots bs) as [Hc1 Hc2].
    { split; [|by apply cdiv_mono]. rewrite <-(cdiv_mul (zlen H) bs Hbs).
      apply cdiv_mono; [done|]. lia. }
    assert (need = cdiv slots bs - zlen H + get_num_evictable_blocks (block_pool k) H) as Hneq.
    { unfold need, blocks_needed. fold id bs. rewrite Ht. unfold zlen in *. simpl. lia. }
    pose proof (skipped_full k m l (loc + ext) Hk) as Hsk.
    pose proof (allocate_new_computed_blocks_ok alone (block_pool k) m l id H loc ext Hi Hok Hca) as Hal.
    cbn zeta in Hal. fold bs in Hal. rewrite Hsk in Hal. rewrite Z.div_0_l in Hal by lia.
    change (Z.to_nat 0) with 0%nat in Hal. rewrite drop_0 in Hal. fold l1 in Hal.
    destruct Hal as (p1 & m1 & Hrun & Hi1 & Hf1 & Ht1 & _ & _); [|done|done|lia|unfold zlen in *; lia|].
    { by destruct (kv_kind _ _ _ Hk) as [e ->]. }
    set (new := if decide _ then _ else _) in *.
    assert (zlen new = if 0 <? ext then cdiv (loc + ext) bs - zlen H else 0) as Hnew.
    { unfold new. destruct (Z.ltb_spec 0 ext).
      - rewrite decide_False by lia. unfold zlen in *. rewrite length_take. lia.
      - rewrite decide_True by lia. done. }
    assert (kv_inv (with_state p1 m1 k) m1 (drop (length new) l1)) as Hk1 by (by eapply kv_inv_step).
    assert (zlen (drop (length new) l1) = zlen l1 - zlen new) as Hd.
    { unfold zlen in *. rewrite length_drop. destruct (Z.ltb_spec 0 ext); lia. }
    assert (zlen (table id m1) = zlen H + zlen new) as Htl1.
    { rewrite Ht1. cbn [replicate app]. unfold zlen. rewrite length_app. lia. }
    destruct (Hgrow _ _ _ _ Hk1 (sf_size _ _ _ _ _ Hf1) eq_refl) as (nb & k' & m' & l' & Hrun' & Hk' & Hst & Hml & Hl' & Htl & Hb').
    { fold bs id. rewrite Htl1. destruct (Z.ltb_spec 0 ext); lia. }
    exists nb, k', m', l'. split_and!; try done.
    + assert (bool_decide (hits ≠ None) || (0 <? ext) = true) as ->.
      { destruct Hh as [->|(-> & _ & Hpos)]; [done|]. rewrite (proj2 (Z.ltb_lt 0 ext)) by done.
        apply orb_true_r. }
      unfold coord_allocate_new_computed_blocks. rewrite bind_unfold, get_bind.
      erewrite (coord_unit k m l (λ i, allocate_new_computed_blocks id ([H] !!! i) loc ext)) by (done || exact Hrun).
      exact Hrun'.
    + rewrite Hst. cbn [block_pool with_state]. apply Hf1.
    + rewrite Hl', Hd, Hl1, Hneq. fold bs id. rewrite Htl1. destruct (Z.ltb_spec 0 ext); lia.
    + rewrite Htl. fold id bs. rewrite Htl1, Ht. unfold zlen at 3. simpl.
      destruct (Z.ltb_spec 0 ext); lia.
Qed.

(** Caching the full blocks of the finalized tokens. *)
Lemma coord_cache_ok k m l r n :
  kv_inv k m l → enable_caching (block_pool k) = true →
  n ≤ zlen (table (request_id r) m) * block_size m → n ≤ num_tokens r →
  hashes_cover (block_pool k) m (block_hashes r) (Z.to_nat (num_tokens r / block_size m)) →
  ∃ k' m', coord_cache_blocks (request_id r) (block_hashes r) n k = Ret tt k'
    ∧ kv_inv k' m' l ∧ static (block_pool k') = static (block_pool k)
    ∧ max_model_len k' = max_model_len k
    ∧ (∀ id, table id m' = table id m) ∧ block_size m' = block_size m.
Proof.
  intros Hk Hca Hn Hnt Hcov. pose proof (kv_sm _ _ _ Hk) as Hi.
  pose proof (mo_size _ _ (si_man _ _ _ _ Hi)) as Hbs.
  assert (n / block_size m ≤ num_tokens r / block_size m ∧ n / block_size m ≤ zlen (table (request_id r) m)) as [Hd1 Hd2].
  { split; [by apply Z.div_le_mono|]. apply Z.div_le_upper_bound; lia. }
  destruct (cache_blocks_ok alone _ _ _ (request_id r) (block_hashes r) n Hi Hca)
    as (p' & m' & Hrun & Hi' & Hf & Ht & _).
  { by destruct (kv_kind _ _ _ Hk) as [e ->]. }
  { unfold zlen in Hd2. lia. }
  { eapply hashes_cover_le; [|exact Hcov]. lia. }
  exists (with_state p' m' k), m'. split_and!; try done.
  - unfold coord_cache_blocks. rewrite get_bind.
    by apply (coord_unit k m l (λ i, cache_blocks (request_id r) (block_hashes r) n None)).
  - by eapply kv_inv_step.
  - apply Hf.
  - by rewrite (sf_size _ _ _ _ _ Hf).
Qed.

Lemma allocate_slots_outcome k m l r num_new nc hits look ext delay must_fit H :
  kv_inv k m l → slots_ok k m r num_new nc hits look ext delay H →
  let id := request_id r in
  let slots := slot_tokens k r num_new nc look ext in
  let need n := blocks_needed (block_pool k) m id H n in
  let out := allocate_slots r num_new nc hits look ext delay 0 must_fit k in
  if decide (zlen l < need slots ∨ must_fit = true ∧ zlen l < need (Z.min (num_tokens r) (max_model_len k)))
  then out = Ret None k
  else ∃ new_blocks k' m' l', out = Ret (Some [new_blocks]) k' ∧ kv_inv k' m' l'
    ∧ zlen l' = zlen l - need slots
    ∧ slots ≤ zlen (table id m') * block_size m'
    ∧ static (block_pool k') = static (block_pool k)
    ∧ block_size m' = block_size m ∧ max_model_len k' = max_model_len k.
Proof.
  intros Hk Hs id slots need out. pose proof (kv_sm _ _ _ Hk) as Hi.
  pose proof (mo_size _ _ (si_man _ _ _ _ Hi)) as Hbs.
  destruct (hits_none _ _ _ _ _ _ _ _ _ _ _ Hk Hs) as [Hlist Hcached].
  pose proof (inv_num_free _ _ (si_pool _ _ _ _ Hi)) as Hfree.
  unfold out, allocate_slots.
  assert ((num_new =? 0) && (ext =? 0) = false) as ->.
  { destruct (so_some _ _ _ _ _ _ _ _ _ _ Hs); apply andb_false_iff; [left|right]; by apply Z.eqb_neq. }
  rewrite get_bind, Hlist. cbn zeta. rewrite bind_unfold.
  set (fit := zlen l <? need (Z.min (num_tokens r) (max_model_len k))).
  match goal with |- context [match ?c with Ret _ _ => _ | Exc _ _ => _ end] =>
    assert (c = Ret (negb (must_fit && fit)) k) as -> end.
  { destruct must_fit; [|done]. rewrite bind_unfold, (num_blocks_single k m l) by done.
    unfold mret, M_ret. rewrite Hfree. unfold fit. fold id. unfold need. by rewrite Z.leb_antisym. }
  destruct (must_fit && fit) eqn:Hmf; cbn [negb].
  { apply andb_true_iff in Hmf as [-> Hfit%Z.ltb_lt]. rewrite decide_True; [done|]. by right. }
  rewrite bind_unfold, (remove_skipped_single k m l) by done.
  rewrite bind_unfold. erewrite num_blocks_single by (done || exact Hk). rewrite get_bind, Hfree.
  fold (slot_tokens k r num_new nc look ext). fold slots id. fold (need slots).
  destruct (Z.ltb_spec (zlen l) (need slots)) as [Hlt|Hge].
  { rewrite decide_True; [done|]. by left. }
  rewrite decide_False.
  2:{ intros [?|[-> Hfit]]; [lia|]. apply Z.ltb_lt in Hfit. unfold fit in Hmf. by rewrite Hfit in Hmf. }
  destruct (allocate_admitted k m l r num_new nc hits look ext delay H Hk Hs Hge)
    as (nb & k' & m' & l' & Hrun & Hk' & Hst & Hml & Hl' & Htl & Hb').
  fold slots id in Hrun, Htl.
  assert (slots ≤ zlen (table id m') * block_size m') as Hslots.
  { rewrite Htl, Hb'. pose proof (cdiv_spec slots (block_size m) Hbs). nia. }
  match goal with |- context [(?c ;; ?d ≫= ?rest) k] =>
    assert ((c ;; d ≫= rest) k = rest [nb] k') as -> end.
  { rewrite !bind_unfold in Hrun. rewrite !bind_unfold.
    destruct ((if bool_decide (hits ≠ None) || (0 <? ext)
               then coord_allocate_new_computed_blocks id [H] (num_computed_tokens r + nc) ext
               else mret tt) k) as [[] k1|]; [|done].
    by rewrite bind_unfold, Hrun. }
  destruct (negb (enable_caching (block_pool k)) || delay) eqn:Hdelay.
  { exists nb, k', m', l'. by split_and!. }
  apply orb_false_iff in Hdelay as [Hca%negb_false_iff ->].
  pose proof (static_proj _ _ Hst) as (_ & _ & _ & Hca').
  destruct (coord_cache_ok k' m' l' r
    (Z.min (Z.min (num_computed_tokens r + nc + ext) (max_model_len k) + num_new) (num_tokens r)) Hk')
    as (k2 & m2 & Hrun2 & Hk2 & Hst2 & Hml2 & Ht2 & Hb2).
  - congruence.
  - fold id. unfold slots, slot_tokens in Hslots.
    pose proof (so_look _ _ _ _ _ _ _ _ _ _ Hs). pose proof (so_len _ _ _ _ _ _ _ _ _ _ Hs). lia.
  - lia.
  - rewrite Hb'. destruct (so_hashes _ _ _ _ _ _ _ _ _ _ Hs Hca eq_refl) as (Hl1 & hs & Hhs & Hl2).
    split; [done|]. exists hs. split; [|done]. rewrite Hb'.
    assert (hash_block_size (block_pool k') = hash_block_size (block_pool k)) as ->; [|done].
    unfold static in Hst. congruence.
  - fold id in Hrun2. rewrite bind_unfold, Hrun2. exists nb, k2, m2, l'. split_and!; try done.
    + by rewrite Ht2, Hb2.
    + congruence.
    + congruence.
    + congruence.
Qed.
(** C14.  [allocate_slots] on a full-attention engine agrees with its own
    predictor.  It answers [None], changing nothing, exactly when the blocks
    needed for the slots (or, when asked, for the whole sequence) outnumber the
    free ones; otherwise it never raises, takes exactly that many blocks from
    the free list, leaves the request a table that covers all its slots, and
    preserves the accounting of the pool. *)
Theorem allocate_slots_exact k m l r num_new nc hits look ext delay must_fit H :
  kv_inv k m l → slots_ok k m r num_new nc hits look ext delay H →
  let id := request_id r in
  let slots := slot_tokens k r num_new nc look ext in
  let need n := blocks_needed (block_pool k) m id H n in
  let out := allocate_slots r num_new nc hits look ext delay 0 must_fit k in
  if decide (zlen l < need slots ∨ must_fit = true ∧ zlen l < need (Z.min (num_tokens r) (max_model_len k)))
  then out = Ret None k
  else ∃ new_blocks k' m' l', out = Ret (Some [new_blocks]) k' ∧ kv_inv k' m' l'
    ∧ zlen l' = zlen l - need slots
    ∧ slots ≤ zlen (table id m') * block_size m'
    ∧ static (block_pool k') = static (block_pool k).
Proof.
  intros Hk Hs id slots need out. pose proof (allocate_slots_outcome k m l r num_new nc hits look ext delay must_fit H Hk Hs) as Ho.
  cbn zeta in Ho. unfold out, need, slots, id. case_decide; [done|].
  destruct Ho as (nb & k' & m' & l' & ? & ? & ? & ? & ? & _). by exists nb, k', m', l'.
Qed.
End slots.

(** ** Prefix-cache hits *)
Section hits.
Implicit Types (p : BlockPool) (l : list nat).

Lemma get_cached_block_one p l h g gb :
  pool_inv p l → to_bytes4 g = Some gb →
  ∃ o, get_cached_block h [g] p = Ret ((λ b, [b]) <$> o) p
    ∧ match o with
      | Some b => real p b ∧ hash p b = Some (h ++ gb)
      | None => ∀ b, real p b → hash p b ≠ Some (h ++ gb)
      end.
Proof.
  intros [Hc _] Hg. cbn [get_cached_block]. unfold make_block_hash_with_group_id. rewrite Hg.
  cbn [fmap option_fmap option_map]. rewrite get_bind.
  exists (get_one_block (h ++ gb) (cached_block_hash_to_block p)).
  destruct (get_one_block (h ++ gb) (cached_block_hash_to_block p)) as [b|] eqn:Hone.
  - split; [done|]. by apply get_one_block_elem, (pc_cache _ _ Hc) in Hone.
  - split; [done|]. intros b Hb Hh. apply get_one_block_None in Hone; [|apply Hc].
    assert (b ∈ ids_of (cached_block_hash_to_block p) (h ++ gb)) as Hin by (by apply Hc).
    rewrite Hone in Hin. by apply elem_of_nil in Hin.
Qed.

Lemma hit_prefix_spec p l g gb hashes :
  pool_inv p l → to_bytes4 g = Some gb →
  ∃ bs, hit_prefix hashes g p = Ret bs p
    ∧ (∀ i b, bs !! i = Some b → ∃ h : BlockHash, hashes !! i = Some h ∧ real p b ∧ hash p b = Some (h ++ gb))
    ∧ (length bs ≤ length hashes)%nat
    ∧ (∀ h : BlockHash, hashes !! length bs = Some h → ∀ b, real p b → hash p b ≠ Some (h ++ gb)).
Proof.
  intros Hp Hg. induction hashes as [|h hashes (bs & Hrun & Hin & Hlen & Hmax)].
  { exists []. by split_and!. }
  destruct (get_cached_block_one p l h g gb Hp Hg) as (oh & Hone & Hspec).
  cbn [hit_prefix]. rewrite bind_unfold, Hone. destruct oh as [b|]; cbn [fmap option_fmap option_map].
  - exists (b :: bs). rewrite bind_unfold, Hrun. split_and!; [done| |simpl; lia|exact Hmax].
    intros [|i] b' Hi; simpl in Hi; simplify_eq; [exists h; naive_solver|by apply Hin].
  - exists []. split_and!; [done|done|simpl; lia|]. intros h' Hh'. simpl in Hh'. by simplify_eq.
Qed.

(** Blocks found under distinct hashes are distinct. *)
Lemma hits_distinct p gb (hashes : list BlockHash) bs :
  (∀ i b, bs !! i = Some b → ∃ h : BlockHash, hashes !! i = Some h ∧ real p b ∧ hash p b = Some (h ++ gb)) →
  NoDup hashes → hits_ok p bs.
Proof.
  intros Hin Hnd. split.
  - intros b [i Hi]%list_elem_of_lookup. right. destruct (Hin i b Hi) as (h & _ & ? & ->). by split.
  - apply NoDup_filter. apply NoDup_alt. intros i j b Hi Hj.
    destruct (Hin i b Hi) as (h1 & Hh1 & _ & E1), (Hin j b Hj) as (h2 & Hh2 & _ & E2).
    rewrite E1 in E2. assert (h1 = h2) as -> by (apply (inj (.++ gb)); congruence).
    by eapply NoDup_lookup.
Qed.

Context {F : Type} `{FO : FloatOps F}.

End hits.

(** ** Sequences of calls *)
Section calls.
Context {F : Type} `{FO : FloatOps F}.
Implicit Types (r : Request F) (k : KVCacheManager) (m : SingleTypeKVCacheManager) (p : BlockPool).

Inductive kv_call :=
| KGetComputed (r : Request F)
| KAllocate (r : Request F) (num_new num_new_computed : Z) (hits : option (list (list nat)))
    (lookahead ext : Z) (delay must_fit : bool)
| KCache (r : Request F) (num_computed_tokens : Z)
| KFree (r : Request F)
| KEvict (ids : list nat)
| KReset
| KTakeNew.

Definition run_call (c : kv_call) : KM unit :=
  match c with
  | KGetComputed r => get_computed_blocks r ;; mret tt
  | KAllocate r n nc hits look ext delay fit => allocate_slots r n nc hits look ext delay 0 fit ;; mret tt
  | KCache r n => kv_cache_blocks r n
  | KFree r => kv_free r
  | KEvict ids => kv_evict_blocks ids
  | KReset => kv_reset_prefix_cache ;; mret tt
  | KTakeNew => kv_take_new_block_ids ;; mret tt
  end.

(** What the callers guarantee of each call in the state they make it in. *)
Definition call_ok (c : kv_call) k : Prop :=
  let m := single_type_managers k !!! 0%nat in
  match c with
  | KAllocate r n nc hits look ext delay _ => ∃ H, slots_ok k m r n nc hits look ext delay H
  | KCache r n => enable_caching (block_pool k) = true →
      n ≤ zlen (table (request_id r) m) * block_size m ∧ n ≤ num_tokens r
      ∧ hashes_cover (block_pool k) m (block_hashes r) (Z.to_nat (num_tokens r / block_size m))
  | KEvict ids => ∀ b, b ∈ ids → (b < length (blocks (block_pool k)))%nat
  | _ => True
  end.

Fixpoint run_calls (cs : list kv_call) : KM unit :=
  match cs with [] => mret tt | c :: cs => run_call c ;; run_calls cs end.

Fixpoint calls_ok (cs : list kv_call) k : Prop :=
  match cs with
  | [] => True
  | c :: cs => call_ok c k ∧ match run_call c k with Ret _ k' => calls_ok cs k' | Exc _ _ => True end
  end.

Lemma eocc_zero b m : od_wf (req_to_blocks m) → (∀ id, b ∉ table id m) → eocc b m = 0.
Proof.
  intros Hwf Hnone. apply occ_notin.
  intros (t & Ht & Hb)%list_elem_of_In%in_concat. apply list_elem_of_In in Hb.
  apply list_elem_of_In, list_elem_of_fmap in Ht as ([id t'] & -> & Ht). apply (od_elem_get _ _ _ Hwf) in Ht.
  apply (Hnone id). unfold table. by rewrite Ht.
Qed.

Lemma kv_single_lookup k m l : kv_inv k m l → single_type_managers k !!! 0%nat = m.
Proof. intros Hk. by rewrite (kv_single _ _ _ Hk). Qed.

Lemma find_longest_pure k m l hashes n :
  kv_inv k m l → enable_caching (block_pool k) = true →
  ∃ hit, coord_find_longest_cache_hit hashes n k = Ret ([hit], zlen hit * block_size m) k.
Proof.
  intros Hk Hca. pose proof (kv_sm _ _ _ Hk) as Hi. unfold coord_find_longest_cache_hit.
  rewrite get_bind, Hca. cbn [negb]. rewrite (kv_single_lookup k m l) by done.
  destruct (kv_kind _ _ _ Hk) as [e ->]. rewrite bind_unfold. unfold at_pool, zoom.
  unfold full_find_longest_cache_hit. cbn zeta. rewrite bind_unfold.
  match goal with |- context [hit_prefix ?h 0 _] =>
    destruct (hit_prefix_spec (block_pool k) l 0 [0; 0; 0; 0] h (si_pool _ _ _ _ Hi) eq_refl) as (bs & Hrun & _) end.
  match goal with |- context [hit_prefix ?h ?g ?p] =>
    assert (hit_prefix h g p = Ret bs p) as -> by exact Hrun end.
  eexists. unfold mret, M_ret, set_pool. by destruct k.
Qed.

Lemma get_computed_pure k m l r : kv_inv k m l → ∃ a, get_computed_blocks r k = Ret a k.
Proof.
  intros Hk. unfold get_computed_blocks. rewrite get_bind.
  destruct (enable_caching (block_pool k)) eqn:Hca; cbn [negb orb]; [|by eexists].
  destruct (skip_reading_prefix_cache r); [by eexists|].
  destruct (find_longest_pure k m l (block_hashes r) (num_tokens r - 1) Hk Hca) as [hit ->]. by eexists.
Qed.

(** Changing only the pool, with hashes at most forgotten. *)
Lemma kv_pool_step k m l p' :
  kv_inv k m l → pool_inv p' l → static p' = static (block_pool k) →
  (∀ b, ref p' b = ref (block_pool k) b) →
  (∀ b, hash p' b = None ∨ hash p' b = hash (block_pool k) b) →
  kv_inv (set_pool p' k) m l.
Proof.
  intros Hk Hp Hs Hr Hh. destruct Hk as [H1 H2 H3 [_ Ho Href Hnc [Hbs Hg Hw Hv Hn Hcd Htl]]].
  split; [done..|]. cbn [block_pool set_pool]. split; [done|done| | |split; try done].
  - intros b Hb. rewrite Hr. apply Href. by apply (static_real _ _ _ Hs).
  - intros Hca b. apply static_proj in Hs as (_ & _ & _ & Hs). rewrite Hs in Hca.
    destruct (Hh b) as [?| ->]; [done|by apply Hnc].
  - intros id b Hb. rewrite (static_real _ _ _ Hs). by eapply Hv.
  - intros id j b Hj Hb0 Hc. destruct (Htl id j b Hj Hb0 Hc) as [E1 E2]. rewrite Hr. split; [|done].
    destruct (Hh b) as [?| ->]; done.
Qed.

Lemma run_call_inv c k m l :
  kv_inv k m l → call_ok c k → ∃ k' m' l', run_call c k = Ret tt k' ∧ kv_inv k' m' l'.
Proof.
  intros Hk Hc. pose proof (kv_sm _ _ _ Hk) as Hi.
  destruct c as [r|r n nc hits look ext delay fit|r n|r|ids| |]; cbn [run_call call_ok] in *;
    rewrite ?(kv_single_lookup k m l) in Hc by done.
  - destruct (get_computed_pure k m l r Hk) as [a Hrun]. exists k, m, l. by rewrite bind_unfold, Hrun.
  - destruct Hc as [H Hs].
    pose proof (allocate_slots_outcome k m l r n nc hits look ext delay fit H Hk Hs) as Hout. cbn zeta in Hout.
    rewrite bind_unfold. case_decide.
    + exists k, m, l. by rewrite Hout.
    + destruct Hout as (nb & k' & m' & l' & Hrun & Hk' & _). exists k', m', l'. by rewrite Hrun.
  - unfold kv_cache_blocks. rewrite get_bind. destruct (enable_caching (block_pool k)) eqn:Hca; [|by exists k, m, l].
    destruct (Hc eq_refl) as (Hn & Hnt & Hcov).
    destruct (coord_cache_ok k m l r n) as (k' & m' & Hrun & Hk' & _); [done..|]. by exists k', m', l.
  - destruct (free_ok alone _ _ _ (request_id r) Hi) as (p' & m' & Hrun & Hi' & Hf & _).
    eexists (with_state p' m' k), m', _. split; [|by eapply kv_inv_step].
    unfold kv_free, coord_free. rewrite get_bind.
    by apply (coord_unit k m l (λ _, free (request_id r))).
  - destruct (evict_blocks_spec ids _ l (si_pool _ _ _ _ Hi) Hc) as (p' & Hrun & Hp & Hs & Hr & Hh).
    exists (set_pool p' k), m, l. split; [unfold kv_evict_blocks, at_pool, zoom; by rewrite Hrun|].
    apply kv_pool_step; [done..|]. intros b. rewrite Hh. case_decide; auto.
  - pose proof (reset_prefix_cache_spec _ l (si_pool _ _ _ _ Hi)) as Hr. case_decide.
    + destruct Hr as (p' & Hrun & Hp & Hs & Href & Hh & _). exists (set_pool p' k), m, l.
      split; [|by apply kv_pool_step; auto].
      rewrite bind_unfold. unfold kv_reset_prefix_cache, at_pool, zoom. by rewrite Hrun.
    + exists k, m, l. split; [|done]. rewrite bind_unfold.
      unfold kv_reset_prefix_cache, at_pool, zoom. rewrite Hr. unfold set_pool, mret, M_ret. by destruct k.
  - set (m' := set_new_block_ids [] m). assert (same_tables m m') as Hsame by by split.
    exists (with_state (block_pool k) m' k), m', l. split.
    + unfold kv_take_new_block_ids. rewrite bind_unfold, get_bind, bind_unfold.
      by erewrite (coord_single k m l (λ _, take_new_block_ids)).
    + eapply kv_inv_step; [done|by eapply sm_inv_same|by apply frame_same].
Qed.

Lemma calls_ok_prefix cs cs' : ∀ k, calls_ok (cs ++ cs') k → calls_ok cs k.
Proof.
  induction cs as [|c cs IH]; intros k; [done|]. cbn [app calls_ok]. intros [Hc Hr]. split; [done|].
  destruct (run_call c k); [by apply IH|done].
Qed.

Lemma run_calls_inv cs : ∀ k m l,
  kv_inv k m l → calls_ok cs k → ∃ k' m' l', run_calls cs k = Ret tt k' ∧ kv_inv k' m' l'.
Proof.
  induction cs as [|c cs IH]; intros k m l Hk; [by exists k, m, l|]. intros [Hc Hcs].
  destruct (run_call_inv c k m l Hk Hc) as (k1 & m1 & l1 & Hrun & Hk1). rewrite Hrun in Hcs.
  destruct (IH k1 m1 l1 Hk1 Hcs) as (k' & m' & l' & Hrun' & Hk').
  exists k', m', l'. cbn [run_calls]. by rewrite bind_unfold, Hrun.
Qed.

(** The manager of an engine with [n] blocks and one full-attention group. *)
Definition kv_init (n : nat) (caching : bool) (hash_size size max_len : Z) (exact : bool) : option KVCacheManager :=
  p ← pool_init n caching hash_size false true;
  Some (mkKVCacheManager p [mkManager size (FullAttention exact) None 0 [] [] []] max_len ∅).

Lemma kv_init_inv n caching hash_size size max_len exact :
  (0 < n)%nat → 0 < size →
  ∃ k m, kv_init n caching hash_size size max_len exact = Some k ∧ kv_inv k m (seq 1 (n - 1)).
Proof.
  intros Hn Hs. destruct (pool_init_spec n caching hash_size false true Hn) as (p & Hp & Hinv & Hr & Hh & Hl & Hc & Hz).
  unfold kv_init. rewrite Hp. eexists _, _. split; [reflexivity|].
  split; [done|by eexists|done|]. cbn [block_pool]. split; [done|done| |done|split].
  - intros b _. by rewrite Hr.
  - done.
  - by exists [0; 0; 0; 0].
  - apply NoDup_nil_2.
  - intros id b Hb. by apply elem_of_nil in Hb.
  - intros id. apply NoDup_nil_2.
  - intros id. cbn. lia.
  - intros id j b Hj. done.
Qed.

(** C13.  From its construction, no sequence of the scheduler's calls
    (lookups, allocations granted or refused, caching, frees, evictions,
    resets) makes the KV-cache manager raise, and afterwards every block other
    than the null block has as many references as the tables of the requests
    name it; it is in the free queue, once, exactly when no table names it;
    within one table it occurs once. *)
Theorem kv_calls_account n caching hash_size size max_len exact cs :
  (0 < n)%nat → 0 < size →
  ∃ k0, kv_init n caching hash_size size max_len exact = Some k0 ∧
  (calls_ok cs k0 →
   ∃ k m l, run_calls cs k0 = Ret tt k
    ∧ single_type_managers k = [m]
    ∧ get_all_free_blocks (length l) (free_block_queue (block_pool k))
        = Ret (Some (Block <$> l)) (free_block_queue (block_pool k))
    ∧ get_num_free_blocks (block_pool k) = zlen l
    ∧ NoDup l
    ∧ (∀ b, real (block_pool k) b →
         ref (block_pool k) b = occ b (concat (od_values (req_to_blocks m)))
         ∧ (b ∈ l ↔ ∀ id, b ∉ table id m))
    ∧ (∀ id, NoDup (filter (λ b, b ≠ 0%nat) (table id m)))).
Proof.
  intros Hn Hs. destruct (kv_init_inv n caching hash_size size max_len exact Hn Hs) as (k0 & m0 & Hk0 & Hinv).
  exists k0. split; [done|]. intros Hok.
  destruct (run_calls_inv cs k0 m0 _ Hinv Hok) as (k & m & l & Hrun & Hk). exists k, m, l.
  pose proof (kv_sm _ _ _ Hk) as Hi. destruct (si_pool _ _ _ _ Hi) as [Hc Hq].
  split_and!; [done|apply Hk|by apply get_all_spec|by apply inv_num_free|apply Hc| |apply Hi].
  intros b Hb. assert (ref (block_pool k) b = eocc b m) as Hr by by rewrite (si_ref _ _ _ _ Hi).
  split; [done|]. split.
  - intros Hl. by apply (free_unheld alone _ _ _ _ Hi).
  - intros Hnone. apply (pc_free _ _ Hc). split; [done|]. rewrite Hr. apply eocc_zero; [apply Hi|done].
Qed.
End calls.

(** ** A concrete engine: seven usable blocks of two tokens *)
Definition demo_req (id : string) (tokens : nat) (hashes : list BlockHash) : Request Q :=
  mkRequest id 0 0%Q RUNNING 16 (Z.of_nat tokens) [] (replicate tokens 5) [] 0 [] 0 hashes false None None None None None None.

Definition demo_hashes : list BlockHash := [[11]; [12]; [13]].
Definition demo_A := demo_req "A" 5 [[11]; [12]].
Definition demo_B := demo_req "B" 7 demo_hashes.
Definition demo_C := demo_req "C" 12 [[21]; [22]; [23]; [24]; [25]; [26]].

(** A new request: its whole prompt is scheduled with the hits found for it. *)
Definition demo_start (r : Request Q) (hits : list nat) : kv_call :=
  KAllocate r (num_tokens r - zlen hits * 2) (zlen hits * 2) (Some [hits]) 0 0 false false.

Definition run_state {A} (c : KM A) (k : KVCacheManager) : KVCacheManager :=
  match c k with Ret _ k' | Exc _ k' => k' end.

Definition no_manager : KVCacheManager :=
  mkKVCacheManager (mkPool 0 false 1 [] (queue_init 0) ∅ 0 false false []) [] 0 ∅.
Definition demo_k0 : KVCacheManager := default no_manager (kv_init 8 true 2 2 100 false).

(** The prompt of A is computed and cached, and A ends. *)
Definition demo_calls1 : list (kv_call (F := Q)) := [demo_start demo_A []; KFree demo_A].
Definition demo_k1 : KVCacheManager := run_state (run_calls demo_calls1) demo_k0.

(** B reuses A's two blocks, C does not fit, a block is evicted, B ends. *)
Definition demo_calls2 : list (kv_call (F := Q)) :=
  demo_calls1 ++ [KGetComputed demo_B; demo_start demo_B [1%nat; 2%nat]; demo_start demo_C [];
                  KTakeNew; KCache demo_B 7; KReset; KEvict [3%nat]; KFree demo_B; KReset].

Lemma demo_init : ∃ m, kv_init 8 true 2 2 100 false = Some demo_k0 ∧ kv_inv demo_k0 m (seq 1 7).
Proof.
  destruct (kv_init_inv 8 true 2 2 100 false) as (k & m & Hk & Hi); [lia..|].
  assert (k = demo_k0) as -> by (unfold demo_k0; by rewrite Hk). by exists m.
Qed.

(** The side conditions of [demo_start] on a concrete state. *)
Ltac known_hits :=
  split; [apply list.Forall_forall; repeat (apply Forall_cons; split); try exact (Forall_nil_2 _);
            (right; split; [vm_compute; lia|eexists; by vm_compute])
         |apply (bool_decide_unpack _); by vm_compute].
Ltac slots_of :=
  split;
  [ left; by vm_compute | by vm_compute | by vm_compute | by vm_compute | split; by vm_compute
  | right; split; [by left|]; split_and!; first [by vm_compute | known_hits]
  | intros _ _; split; [vm_compute; lia|]; eexists; split; [by vm_compute|vm_compute; lia] ].

Lemma allocate_slots_exact_witness :
  ∃ nb k' m' l', allocate_slots demo_A 5 0 (Some [[]]) 0 0 false 0 true demo_k0 = Ret (Some [nb]) k'
    ∧ kv_inv k' m' l' ∧ zlen l' = 4.
Proof.
  destruct demo_init as (m & _ & Hk). pose proof (kv_single _ _ _ Hk) as Hm.
  assert (m = mkManager 2 (FullAttention false) None 0 [] [] []) as -> by (vm_compute in Hm; congruence).
  assert (slots_ok demo_k0 (mkManager 2 (FullAttention false) None 0 [] [] []) demo_A 5 0 (Some [[]]) 0 0 false []) as Hs.
  { slots_of. }
  pose proof (allocate_slots_exact _ _ _ _ _ _ _ _ _ _ true _ Hk Hs) as Hout. cbn zeta in Hout.
  rewrite decide_False in Hout by (vm_compute; intros [?|[_ ?]]; discriminate).
  destruct Hout as (nb & k' & m' & l' & Hrun & Hk' & Hl & _). exists nb, k', m', l'.
  split; [exact Hrun|]. split; [exact Hk'|]. rewrite Hl. by vm_compute.
Defined.

Lemma demo_calls2_ok : calls_ok demo_calls2 demo_k0.
Proof.
  cbn [demo_calls2 demo_calls1 app calls_ok].
  repeat (split; [|match goal with |- match ?c with Ret _ _ => _ | _ => _ end =>
    let v := eval vm_compute in c in assert (c = v) as -> by (by vm_compute) end]).
  all: cbn [call_ok demo_start]; try done.
  - exists []. slots_of.
  - exists [1%nat; 2%nat]. slots_of.
  - exists []. slots_of.
  - intros _. split_and!; [by vm_compute|by vm_compute|]. split; [vm_compute; lia|].
    eexists. split; [by vm_compute|vm_compute; lia].
  - intros b ->%list_elem_of_singleton. vm_compute. lia.
Qed.

Lemma kv_calls_account_witness :
  ∃ k m l, run_calls demo_calls2 demo_k0 = Ret tt k ∧ single_type_managers k = [m]
    ∧ get_num_free_blocks (block_pool k) = zlen l ∧ NoDup l
    ∧ (∀ b, real (block_pool k) b → (b ∈ l ↔ ∀ id, b ∉ table id m)).
Proof.
  destruct (kv_calls_account 8 true 2 2 100 false demo_calls2) as (k0 & Hk0 & Hall); [lia..|].
  assert (k0 = demo_k0) as -> by (unfold demo_k0; by rewrite Hk0).
  destruct (Hall demo_calls2_ok) as (k & m & l & Hrun & Hm & _ & Hn & Hd & Hb & _).
  exists k, m, l. repeat split; [exact Hrun|exact Hm|exact Hn|exact Hd| |];
    destruct (Hb b ltac:(eassumption)) as [_ [Hin Hout]]; assumption.
Defined.

