(* ===== verification/Scoring.v ===== *)
(** * Agent scores and capacity shares ([vllm/tokencake/scheduling.py], 28-143)

    The score of an annotated request, the score of an agent type from its
    history, and the split of the block pool into a shared part and a
    reservation per critical agent type. *)
From Stdlib Require Import ZArith QArith Qround.
From S2P Require Import Prelude PyFloat Request Protocol.
Local Open Scope Z_scope.

(** ** Comparison of the tuples used as sort keys

    A tuple comparison looks at the first components that differ by [==]. *)
Definition lexb (eq lt : bool) (rest : bool) : bool := if eq then rest else lt.

Definition str_eqb (a b : string) : bool := bool_decide (a = b).
Definition str_ltb (a b : string) : bool := bool_decide (String.compare a b = Lt).

(** [a[:n]], which drops from the end when [n] is negative. *)
Definition slice_to {A} (n : Z) (l : list A) : list A :=
  take (Z.to_nat (if n <? 0 then zlen l + n else n)) l.

(** Python's truth value of an int. *)
Definition truthy (n : Z) : bool := negb (n =? 0).

(** [set(l)], as a membership test over a list. *)
Definition mem (k : string) (l : list string) : bool := bool_decide (k ∈ l).

Section Scores.
Context {F : Type} `{FloatOps F} `{FloatLog1p F}.

(** [a / b] on floats; [None] is the [ZeroDivisionError]. *)
Definition py_div (a b : F) : option F := if feqb b (f_of_Z 0) then None else Some (fdiv a b).

(** [request_score]; [None] when [int] is applied to an infinity or a NaN. *)
Definition request_score (metadata : TokenCakeMetadata F) (arrival_time now : F) : option Z :=
  let zero := f_of_Z 0 in
  let one := f_of_Z 1 in
  let depth := depth metadata in
  let max_depth := Z.max (Z.max depth (application_max_depth metadata)) 1 in
  let remaining := remaining_depth metadata in
  let remaining_ratio := py_min one (int_truediv remaining max_depth) in
  let progress := py_min one (int_truediv depth max_depth) in
  let elapsed := application_elapsed_s metadata in
  let elapsed :=
    if fltb zero (application_started_at_s metadata)
    then py_max elapsed (fsub now (application_started_at_s metadata)) else elapsed in
  let wait := py_max zero (fsub now arrival_time) in
  let similarity := similarity metadata in
  let parallel_width :=
    if fltb zero similarity && fltb similarity one then fdiv one similarity else one in
  let age := (py_min elapsed (f_of_Z 300) * (one + f_lit 75 100 * remaining_ratio))%F in
  let queue := (py_min wait (f_of_Z 180) * (one + f_lit 5 10 * remaining_ratio))%F in
  let completion := (py_min elapsed (f_of_Z 240) * progress)%F in
  f_trunc
    (f_of_Z 100 * importance metadata
     + f_of_Z (15 * depth)
     + f_of_Z (45 * out_degree metadata)
     + f_of_Z (10 * in_degree metadata)
     + f_of_Z 20 * similarity
     + f_of_Z (20 * remaining)
     + f_of_Z 120 * (parallel_width - one)
     + f_of_Z 6 * py_min (application_start_offset_s metadata) (f_of_Z 60)
     + f_of_Z 5 * age
     + f_of_Z 8 * queue
     + f_of_Z 5 * completion
     + f_of_Z (180 * (if critical_path metadata then 1 else 0))
     + f_of_Z (90 * (if near_completion metadata then 1 else 0))
     + f_of_Z (20 * (if str_eqb (join_group metadata) "" then 0 else 1))
     + f_of_Z (4 * (if truthy (dependency_depth metadata) then dependency_depth metadata else depth))
     + f_of_Z (12 * Z.max (fanout_width metadata - 1) 0)
     - f_of_Z 8 * py_max (memory_weight metadata - one) zero)%F.

(** ** [AgentHistory] *)
Record AgentHistory := mkHistory {
  h_importance : F;
  deferrals : Z;
  preemptions : Z;
  samples : Z;
  input_tokens : Z;
  output_tokens : Z;
  completed : Z;
  duration : F;
  h_depth : Z;
  h_out_degree : Z;
  h_in_degree : Z;
  elapsed : F;
  remaining : Z
}.

Definition new_history : AgentHistory :=
  {| h_importance := f_of_Z 0; deferrals := 0; preemptions := 0; samples := 0;
     input_tokens := 0; output_tokens := 0; completed := 0; duration := f_of_Z 0;
     h_depth := 0; h_out_degree := 0; h_in_degree := 0; elapsed := f_of_Z 0; remaining := 0 |}.

(** [AgentHistory.score] *)
Definition history_score (h : AgentHistory) (importance : F) (waiting : Z) (average_wait : F) : F :=
  let one := f_of_Z 1 in
  let zero := f_of_Z 0 in
  let urgency :=
    (flog1p average_wait + flog1p (f_of_Z waiting) + flog1p (f_of_Z (deferrals h))
     + f_lit 15 10 * flog1p (f_of_Z (preemptions h)))%F in
  let tokens := int_truediv (input_tokens h + output_tokens h) (Z.max 1 (samples h)) in
  let mean := fdiv (duration h) (f_of_Z (Z.max 1 (completed h))) in
  let cost := flog1p tokens in
  let cost :=
    if fltb zero mean && fltb zero tokens
    then (cost + (flog1p mean + flog1p (tokens / mean)))%F else cost in
  let count := f_of_Z (Z.max 1 (samples h)) in
  let graph :=
    (f_lit 7 10 * f_of_Z (h_depth h) / count
     + f_lit 5 10 * f_of_Z (h_out_degree h) / count
     + f_lit 25 100 * f_of_Z (h_in_degree h) / count
     + f_lit 20 100 * f_of_Z (remaining h) / count
     + f_lit 10 100 * py_min (elapsed h / count) (f_of_Z 180))%F in
  py_max one (f_of_Z 2 * importance + urgency + f_lit 5 10 * cost + graph)%F.

(** ** [partition_capacity] *)
Record CapacityPlan := mkPlan {
  critical : gset string;
  plan_scores : odict string F;
  reserved : odict string Z;
  shared : Z
}.

Definition empty_plan : CapacityPlan :=
  {| critical := ∅; plan_scores := []; reserved := []; shared := 0 |}.

(** The iteration order of a set of strings depends on the interpreter's hash
    seed. *)
Context (set_order : gset string → list string).

(** The reverse sort by [(scores[k], importance[k], k)]. *)
Definition rank_lt (scores importance : string → F) (a b : string) : bool :=
  lexb (feqb (scores a) (scores b))
    (fltb (scores b) (scores a))
    (lexb (feqb (importance a) (importance b))
       (fltb (importance b) (importance a)) (str_ltb b a)).

Definition lookup0 (d : odict string F) (k : string) : F := default (f_of_Z 0) (od_get k d).
Definition count0 (d : odict string Z) (k : string) : Z := default 0 (od_get k d).

(** The weight of one critical agent type. *)
Definition weight (scores : odict string F) (used : odict string Z) (score_sum : F) (used_sum : Z)
    (key : string) : option F :=
  score_share ← py_div (lookup0 scores key) score_sum;
  let memory_share :=
    if truthy used_sum then int_truediv (count0 used key) used_sum else f_of_Z 0 in
  Some (py_max3 score_share (fdiv (fadd memory_share score_share) (f_of_Z 2)) (f_lit 1 1000000)).

(** The remainder, one block each to the largest fractional parts. *)
Definition add_one (counts : odict string Z) (key : string) : odict string Z :=
  od_alter (λ n, n + 1) key counts.

Definition fraction_lt (exact : odict string F) (counts : odict string Z) (a b : string) : bool :=
  let frac k := fsub (lookup0 exact k) (f_of_Z (count0 counts k)) in
  lexb (feqb (frac a) (frac b)) (fltb (frac b) (frac a)) (str_ltb b a).

(** [None]: a float operation raises.  The keys of [importance] include those
    of [scores]. *)
Definition partition_capacity (scores importance : odict string F) (used : odict string Z)
    (total : Z) (reserve_ratio critical_ratio : F) : option CapacityPlan :=
  let ordered := py_sorted (rank_lt (lookup0 scores) (lookup0 importance)) (od_keys scores) in
  n ← f_trunc (fmul (f_of_Z (zlen ordered)) critical_ratio);
  let critical := list_to_set (slice_to (Z.max 1 n) ordered) : gset string in
  reserved ← (if bool_decide (critical = ∅) then Some 0
              else f_trunc (fmul (f_of_Z total) reserve_ratio));
  let score_sum := f_sum (lookup0 scores <$> set_order critical) in
  let used_sum := sumZ (od_values used) in
  weights ← mapM (λ key, w ← weight scores used score_sum used_sum key; Some (key, w))
              (py_sorted str_ltb (set_order critical));
  let weight_sum := f_sum (od_values weights) in
  exact ← mapM (λ '(key, w), e ← py_div (fmul (f_of_Z reserved) w) weight_sum; Some (key, e)) weights;
  counts ← mapM (λ '(key, e), c ← f_trunc e; Some (key, c)) exact;
  let remainder := reserved - sumZ (od_values counts) in
  let extra := slice_to remainder (py_sorted (fraction_lt exact counts) (od_keys exact)) in
  Some {| critical := critical; plan_scores := scores;
          reserved := foldl add_one counts extra; shared := total - reserved |}.
End Scores.
Arguments AgentHistory : clear implicits.
Arguments CapacityPlan : clear implicits.
