(* ===== verification/ScoringFacts.v ===== *)
(** * Properties of scores and capacity shares

    In exact arithmetic the capacity split hands out exactly the reserved
    blocks, one share per critical agent type, and time moves a request's score
    within a fixed band; on the floats of the interpreter a validated request
    can have no score at all. *)
From Stdlib Require Import ZArith QArith Qround Lqa Qminmax.
From S2P Require Import Prelude PyFloat Request Protocol Scoring.
Local Open Scope Z_scope.

(** ** Sums of rationals and of their floors *)
Definition sumQ (l : list Q) : Q := foldr Qplus 0%Q l.

Lemma f_sum_sumQ (l : list Q) : (f_sum l == sumQ l)%Q.
Proof.
  unfold f_sum. assert (∀ a, foldl Qplus a l == a + sumQ l)%Q as H.
  { induction l as [|x l IH]; intros a; simpl; [ring|]. rewrite IH. ring. }
  cbn [fadd f_of_Z Q_ops]. rewrite H. unfold inject_Z. ring.
Qed.

Lemma sumQ_Permutation l1 l2 : l1 ≡ₚ l2 → (sumQ l1 == sumQ l2)%Q.
Proof. induction 1; simpl; [done|by rewrite IHPermutation|ring|etrans; eauto]. Qed.

Lemma sumQ_pos (l : list Q) : Forall (Qlt 0) l → l ≠ [] → (0 < sumQ l)%Q.
Proof.
  intros Hl. assert (∀ l', Forall (Qlt 0) l' → 0 <= sumQ l')%Q as H.
  { induction 1; simpl; [done|lra]. }
  destruct Hl as [|x l' Hx Hl']; [done|]. intros _. simpl. specialize (H _ Hl'). lra.
Qed.

Lemma sumQ_scale {A} (f g : A → Q) (a : Q) l :
  (∀ x, f x == a * g x)%Q → (sumQ (f <$> l) == a * sumQ (g <$> l))%Q.
Proof.
  intros Hf. induction l as [|x l IH]; cbn [fmap list_fmap sumQ foldr]; [ring|].
  fold (sumQ (f <$> l)) (sumQ (g <$> l)). rewrite IH, Hf. ring.
Qed.

(** Each floor loses less than one. *)
Lemma floors_remainder (l : list Q) (R : Z) :
  Forall (Qle 0) l → (sumQ l == inject_Z R)%Q →
  0 ≤ R - sumZ (Q_trunc <$> l) ≤ zlen l.
Proof.
  intros Hl HR. assert (inject_Z (sumZ (Q_trunc <$> l)) <= sumQ l
    /\ sumQ l <= inject_Z (sumZ (Q_trunc <$> l) + zlen l))%Q as [H1 H2].
  { clear HR R. unfold zlen. induction Hl as [|x l Hx Hl [IH1 IH2]]; [split; discriminate|].
    cbn [fmap list_fmap sumZ sumQ foldr length] in *. rewrite (Q_trunc_floor x) in * by done.
    pose proof (Qfloor_le x). pose proof (Qlt_floor x).
    fold (sumZ (Q_trunc <$> l)) (sumQ l) in *.
    rewrite Nat2Z.inj_succ. unfold Z.succ. rewrite ?inject_Z_plus in *. split; lra. }
  rewrite HR, <-Zle_Qle in H1, H2. lia.
Qed.

(** ** [partition_capacity] in exact arithmetic *)
Lemma mapM_total {A B} (f : A → option B) (g : A → B) l :
  (∀ x, x ∈ l → f x = Some (g x)) → mapM f l = Some (g <$> l).
Proof.
  induction l as [|x l IH]; intros H; [done|]. cbn [mapM]. rewrite H by (by left).
  cbn [mbind option_bind]. rewrite IH by (intros; apply H; by right). done.
Qed.

Lemma py_div_Q (a b : Q) : (0 < b)%Q → py_div a b = Some (a / b)%Q.
Proof.
  intros Hb. unfold py_div, feqb. cbn [fleb f_of_Z Q_ops]. destruct (Qle_bool b (inject_Z 0)) eqn:E; [|done].
  apply Qle_bool_iff in E. unfold inject_Z in E. lra.
Qed.

Lemma py_max_Q (a b : Q) : (a <= py_max a b ∧ b <= py_max a b)%Q.
Proof.
  unfold py_max. cbn [fltb Q_ops]. destruct (negb (Qle_bool b a)) eqn:E.
  - apply Qltb_lt in E. split; lra.
  - apply negb_false_iff, Qle_bool_iff in E. split; lra.
Qed.

Lemma slice_to_pos {A} n (l : list A) : 0 ≤ n → slice_to n l = take (Z.to_nat n) l.
Proof. intros. unfold slice_to. by rewrite (proj2 (Z.ltb_ge n 0)) by lia. Qed.

Lemma od_get_fmap_pair {V} (f : string → V) k (l : list string) :
  k ∈ l → od_get k ((λ i, (i, f i)) <$> l) = Some (f k).
Proof.
  induction l as [|i l IH]; [by intros ?%elem_of_nil|].
  intros [->|Hk]%elem_of_cons; cbn [fmap list_fmap od_get]; case_decide; subst; try done.
  by apply IH.
Qed.

Lemma od_keys_fmap_pair {V} (f : string → V) (l : list string) :
  od_keys ((λ i, (i, f i)) <$> l) = l.
Proof. unfold od_keys. rewrite <-list_fmap_compose. by rewrite list_fmap_id. Qed.

Lemma od_values_fmap_pair {V} (f : string → V) (l : list string) :
  od_values ((λ i, (i, f i)) <$> l) = f <$> l.
Proof. unfold od_values. by rewrite <-list_fmap_compose. Qed.

(** Adding one block to distinct keys. *)
Lemma add_ones extra : ∀ counts : odict string Z,
  od_wf counts → NoDup extra → (∀ k, k ∈ extra → k ∈ od_keys counts) →
  od_keys (foldl add_one counts extra) = od_keys counts
  ∧ sumZ (od_values (foldl add_one counts extra)) = sumZ (od_values counts) + zlen extra
  ∧ (∀ k, od_get k (foldl add_one counts extra) =
       (λ n, if decide (k ∈ extra) then n + 1 else n) <$> od_get k counts).
Proof.
  induction extra as [|e extra IH]; intros counts Hwf Hnd Hin; cbn [foldl].
  { split_and!; [done|unfold zlen; simpl; lia|]. intros k. by destruct (od_get k counts). }
  apply NoDup_cons in Hnd as [He Hnd].
  destruct (IH (add_one counts e)) as (Hk & Hs & Hg); [by apply od_wf_alter|done| |].
  { intros k Hke. unfold add_one. rewrite od_keys_alter. apply Hin. by right. }
  split_and!.
  - rewrite Hk. apply od_keys_alter.
  - rewrite Hs. assert (e ∈ od_keys counts) as [n Hn]%od_get_is_Some by (apply Hin; by left).
    assert (sumZ (od_values (add_one counts e)) = sumZ (od_values counts) + 1) as ->;
      [|unfold zlen; simpl; lia].
    clear -Hn. unfold add_one. revert Hn. induction counts as [|[j w] d IHd]; [done|].
    cbn [od_get od_alter]. case_decide; intros; simplify_eq; unfold od_values in *; cbn [fmap list_fmap snd sumZ foldr]; [lia|].
    fold (sumZ (d.*2)). rewrite <-Z.add_assoc, <-IHd by done. done.
  - intros k. rewrite Hg. unfold add_one. rewrite od_get_alter.
    destruct (decide (e = k)) as [->|Hne]; [|].
    + destruct (od_get k counts); [|done]. cbn [fmap option_fmap option_map]. f_equal.
      by rewrite decide_False, decide_True by (done || by left).
    + destruct (od_get k counts); [|done]. cbn [fmap option_fmap option_map]. f_equal.
      destruct (decide (k ∈ extra)), (decide (k ∈ e :: extra)) as [Hc|Hc]; try done.
      * destruct Hc. by right.
      * by apply elem_of_cons in Hc as [?|?].
Qed.

Section partition.
Context (set_order : gset string → list string).
Context (set_order_elements : ∀ X, set_order X ≡ₚ elements X).
Implicit Types (scores importance : odict string Q) (used : odict string Z).

(** The share of one critical agent type before rounding. *)
Definition share_weight scores used (C : gset string) (k : string) : Q :=
  let score_share := (lookup0 scores k / f_sum (lookup0 scores <$> set_order C))%Q in
  let memory_share :=
    if truthy (sumZ (od_values used)) then int_truediv (count0 used k) (sumZ (od_values used))
    else f_of_Z 0 in
  py_max3 score_share ((memory_share + score_share) / f_of_Z 2)%Q (f_lit 1 1000000).

Lemma share_weight_pos scores used C k : (0 < share_weight scores used C k)%Q.
Proof.
  unfold share_weight, py_max3.
  match goal with |- (0 < py_max ?a ?b)%Q => destruct (py_max_Q a b) as [_ H] end. eapply Qlt_le_trans; [|exact H]. reflexivity.
Qed.

(** The allocation once the critical types and the size of the reservation are
    known: the last steps of [partition_capacity]. *)
Definition split_reserved scores used (C : gset string) (R : Z) : odict string Z :=
  let keys := py_sorted str_ltb (set_order C) in
  let w := share_weight scores used C in
  let exact k := (inject_Z R * w k / f_sum (w <$> keys))%Q in
  let counts := (λ k, (k, Q_trunc (exact k))) <$> keys in
  foldl add_one counts
    (slice_to (R - sumZ (od_values counts))
      (py_sorted (fraction_lt ((λ k, (k, exact k)) <$> keys) counts) keys)).

Lemma split_keys C : py_sorted str_ltb (set_order C) ≡ₚ elements C.
Proof. by rewrite py_sorted_Permutation. Qed.

Lemma split_reserved_spec scores used C R :
  0 ≤ R → (C = ∅ → R = 0) →
  let keys := py_sorted str_ltb (set_order C) in
  let exact k := (inject_Z R * share_weight scores used C k / f_sum (share_weight scores used C <$> keys))%Q in
  od_keys (split_reserved scores used C R) = keys
  ∧ sumZ (od_values (split_reserved scores used C R)) = R
  ∧ ∀ k n, od_get k (split_reserved scores used C R) = Some n →
      0 ≤ n ∧ (inject_Z n - 1 <= exact k)%Q ∧ (exact k < inject_Z n + 1)%Q.
Proof.
  intros HR HC keys exact. set (w := share_weight scores used C) in *.
  set (counts := (λ k, (k, Q_trunc (exact k))) <$> keys).
  assert (∀ k, keys ≠ [] → (0 <= exact k)%Q) as Hex.
  { intros k Hk. unfold exact. apply Qle_shift_div_l.
    - rewrite f_sum_sumQ. apply sumQ_pos; [|by destruct keys].
      apply Forall_fmap, Forall_true. intros. apply share_weight_pos.
    - pose proof (share_weight_pos scores used C k) as Hw. fold w in Hw.
      assert (0 <= inject_Z R)%Q by by rewrite (Zle_Qle 0) in HR.
      rewrite Qmult_0_l. apply Qmult_le_0_compat; [done|]. by apply Qlt_le_weak. }
  assert (sumQ (exact <$> keys) == inject_Z R)%Q as Hsum.
  { destruct (decide (keys = [])) as [E|Hne].
    - rewrite E. assert (C = ∅) as ->; [|by rewrite HC].
      pose proof (split_keys C) as P. fold keys in P. rewrite E in P.
      apply leibniz_equiv, elements_empty_inv. by apply Permutation_nil.
    - assert (0 < f_sum (w <$> keys))%Q as HW.
      { rewrite f_sum_sumQ. apply sumQ_pos; [|by destruct keys].
        apply Forall_fmap, Forall_true. intros. apply share_weight_pos. }
      set (W := f_sum (w <$> keys)) in *.
      assert (sumQ (exact <$> keys) == (inject_Z R / W) * sumQ (w <$> keys))%Q as ->.
      { apply sumQ_scale. intros k. unfold exact. fold W. unfold Qdiv. ring. }
      rewrite <-f_sum_sumQ. fold W. field. lra. }
  assert (0 ≤ R - sumZ (od_values counts) ≤ zlen keys) as Hrem.
  { unfold counts. rewrite od_values_fmap_pair. rewrite (list_fmap_compose exact Q_trunc).
    assert (zlen keys = zlen (exact <$> keys)) as -> by (unfold zlen; by rewrite length_fmap).
    apply floors_remainder; [|done]. apply Forall_fmap, Forall_forall. intros k Hk. apply Hex.
    intros E. rewrite E in Hk. by apply elem_of_nil in Hk. }
  assert (od_keys counts = keys) as Hkc by apply od_keys_fmap_pair.
  assert (NoDup keys) as Hnd by (unfold keys; rewrite split_keys; apply NoDup_elements).
  set (extra := slice_to (R - sumZ (od_values counts))
    (py_sorted (fraction_lt ((λ k, (k, exact k)) <$> keys) counts) keys)).
  assert (zlen extra = R - sumZ (od_values counts)) as Hlen.
  { unfold extra. rewrite slice_to_pos by lia. unfold zlen in *. rewrite length_take, length_py_sorted. lia. }
  destruct (add_ones extra counts) as (Hk & Hs & Hg).
  { unfold od_wf. by rewrite Hkc. }
  { unfold extra. rewrite slice_to_pos by lia. eapply sublist_NoDup; [apply NoDup_py_sorted, Hnd|apply sublist_take]. }
  { intros k Hk. rewrite Hkc. unfold extra in Hk. rewrite slice_to_pos in Hk by lia.
    by apply elem_of_take in Hk as (i & Hi & _); apply list_elem_of_lookup_2, elem_of_py_sorted in Hi. }
  change (split_reserved scores used C R) with (foldl add_one counts extra).
  split_and!; [by rewrite Hk|lia|].
  intros k n Hn. rewrite Hg in Hn.
  destruct (decide (k ∈ keys)) as [Hin|Hin].
  - unfold counts in Hn. rewrite (od_get_fmap_pair (λ k, Q_trunc (exact k))) in Hn by done.
    assert (0 <= exact k)%Q as H0 by (apply Hex; intros E; rewrite E in Hin; by apply elem_of_nil in Hin).
    rewrite Q_trunc_floor in Hn by done. cbn [fmap option_fmap option_map] in Hn.
    pose proof (Qfloor_le (exact k)). pose proof (Qlt_floor (exact k)) as Hf.
    assert (0 ≤ Qfloor (exact k)) by (change 0 with (Qfloor 0); by apply Qfloor_resp_le).
    rewrite inject_Z_plus in Hf. change (inject_Z 1) with 1%Q in Hf.
    case_decide; simplify_eq; rewrite ?inject_Z_plus; change (inject_Z 1) with 1%Q;
      (split; [lia|]); split; lra.
  - rewrite <-Hkc in Hin. apply od_get_None in Hin. by rewrite Hin in Hn.
Qed.

(** *** The stages of the partition *)
Definition top_ranked (scores importance : odict string Q) (n : Z) : gset string :=
  list_to_set (take (Z.to_nat (Z.max 1 n)) (py_sorted (rank_lt (lookup0 scores) (lookup0 importance)) (od_keys scores))).

Lemma top_ranked_known scores importance n k : k ∈ top_ranked scores importance n → is_Some (od_get k scores).
Proof.
  intros (i & Hi & _)%elem_of_list_to_set%elem_of_take. apply list_elem_of_lookup_2 in Hi.
  apply elem_of_py_sorted in Hi. by apply od_get_is_Some.
Qed.

Lemma top_ranked_empty scores importance n : top_ranked scores importance n = ∅ ↔ scores = [].
Proof.
  split; intros E; [|by rewrite E; unfold top_ranked; cbn; rewrite take_nil].
  destruct scores as [|[k s] d]; [done|]. exfalso. unfold top_ranked in E.
  set (ranking := py_sorted _ _) in E.
  assert (ranking ≡ₚ od_keys ((k, s) :: d)) as P by apply py_sorted_Permutation.
  destruct ranking as [|i l]; [by apply Permutation_nil in P|].
  replace (Z.to_nat (Z.max 1 n)) with (S (Z.to_nat (Z.max 1 n) - 1)) in E by lia.
  cbn [take list_to_set] in E. assert (i ∈ (∅ : gset string)) as Hi by (rewrite <-E; set_solver).
  by apply elem_of_empty in Hi.
Qed.

(** The part of [total] set aside. *)
Definition set_aside (scores : odict string Q) (total : Z) (ratio : Q) : Z :=
  if decide (scores = []) then 0 else Qfloor (inject_Z total * ratio).

Lemma set_aside_range scores total ratio :
  0 ≤ total → (0 <= ratio <= 1)%Q → 0 ≤ set_aside scores total ratio ≤ total.
Proof.
  intros Ht [Hr0 Hr1]. unfold set_aside. case_decide; [lia|].
  assert (0 <= inject_Z total)%Q by by rewrite (Zle_Qle 0) in Ht. split.
  - change 0 with (Qfloor 0). apply Qfloor_resp_le. by apply Qmult_le_0_compat.
  - rewrite <-(Qfloor_Z total) at 2. apply Qfloor_resp_le. nra.
Qed.

Lemma trunc_scaled z q : 0 ≤ z → (0 <= q)%Q → f_trunc (fmul (f_of_Z z) q) = Some (Qfloor (inject_Z z * q)).
Proof.
  intros Hz Hq. cbn [f_trunc fmul f_of_Z Q_ops]. rewrite Q_trunc_floor; [done|].
  apply Qmult_le_0_compat; [by rewrite (Zle_Qle 0) in Hz|done].
Qed.

(** No division of the weights is by zero. *)
Lemma weights_run scores used C :
  (∀ k, k ∈ C → (0 < lookup0 scores k)%Q) →
  let keys := py_sorted str_ltb (set_order C) in
  mapM (λ k, w ← weight scores used (f_sum (lookup0 scores <$> set_order C)) (sumZ (od_values used)) k; Some (k, w)) keys
  = Some ((λ k, (k, share_weight scores used C k)) <$> keys).
Proof.
  intros HC keys. apply mapM_total. intros k Hk. unfold weight. rewrite py_div_Q; [done|].
  rewrite f_sum_sumQ. apply sumQ_pos.
  - apply Forall_fmap, Forall_forall. intros i Hi. rewrite set_order_elements in Hi.
    by apply HC, elem_of_elements.
  - intros E%fmap_nil_inv. unfold keys in Hk. apply elem_of_py_sorted in Hk. by rewrite E, elem_of_nil in Hk.
Qed.

Lemma exact_run scores used C R :
  let keys := py_sorted str_ltb (set_order C) in
  let w := share_weight scores used C in
  mapM (λ '(k, w'), e ← py_div (fmul (f_of_Z R) w') (f_sum (w <$> keys)); Some (k, e))
    ((λ k, (k, w k)) <$> keys)
  = Some ((λ k, (k, inject_Z R * w k / f_sum (w <$> keys))%Q) <$> keys).
Proof.
  intros keys w. rewrite (mapM_total _ (λ kw, (kw.1, inject_Z R * kw.2 / f_sum (w <$> keys))%Q)).
  { by rewrite <-list_fmap_compose. }
  intros [k q] Hk. rewrite py_div_Q; [done|]. rewrite f_sum_sumQ. apply sumQ_pos.
  - apply Forall_fmap, Forall_true. intros. apply share_weight_pos.
  - intros E%fmap_nil_inv. rewrite E in Hk. by apply elem_of_nil in Hk.
Qed.

Lemma partition_run scores importance used total reserve_ratio critical_ratio :
  (∀ k s, od_get k scores = Some s → 0 < s)%Q →
  0 ≤ total → (0 <= reserve_ratio)%Q → (0 <= critical_ratio)%Q →
  let C := top_ranked scores importance (Qfloor (inject_Z (zlen scores) * critical_ratio)) in
  let R := set_aside scores total reserve_ratio in
  partition_capacity set_order scores importance used total reserve_ratio critical_ratio
  = Some {| critical := C; plan_scores := scores; reserved := split_reserved scores used C R;
            shared := total - R |}.
Proof.
  intros Hpos Ht Hr Hc C R. unfold partition_capacity.
  assert (zlen (py_sorted (rank_lt (lookup0 scores) (lookup0 importance)) (od_keys scores)) = zlen scores) as Hzl.
  { unfold zlen. rewrite length_py_sorted. unfold od_keys. by rewrite length_fmap. }
  rewrite Hzl, (trunc_scaled (zlen scores) critical_ratio) by (done || unfold zlen; lia). cbn [mbind option_bind].
  rewrite slice_to_pos by lia. fold (top_ranked scores importance (Qfloor (inject_Z (zlen scores) * critical_ratio))).
  fold C. pose proof (top_ranked_empty scores importance (Qfloor (inject_Z (zlen scores) * critical_ratio))) as HCe.
  fold C in HCe.
  assert ((if bool_decide (C = ∅) then Some 0 else f_trunc (fmul (f_of_Z total) reserve_ratio)) = Some R) as ->.
  { unfold R, set_aside. destruct (decide (scores = [])) as [E|E].
    - by rewrite bool_decide_eq_true_2 by by apply HCe.
    - rewrite bool_decide_eq_false_2 by (by rewrite HCe). by apply trunc_scaled. }
  cbn [mbind option_bind]. rewrite weights_run.
  2:{ intros k [s Hs]%top_ranked_known. unfold lookup0. rewrite Hs. by eapply Hpos. }
  cbn [mbind option_bind]. rewrite od_values_fmap_pair, exact_run. cbn [mbind option_bind].
  rewrite (mapM_total _ (λ ke, (ke.1, Q_trunc ke.2))) by by intros [].
  rewrite <-list_fmap_compose. unfold compose. cbn [fst snd mbind option_bind].
  rewrite od_keys_fmap_pair. reflexivity.
Qed.

(** *** Any arithmetic *)
Section any_floats.
Context {F : Type} `{FloatOps F}.

(** What every plan is, whatever the arithmetic rounds.  The float expressions
    of the code say how many types are critical, how many blocks [R] are set
    aside, and the share of each critical type; each type gets its share cut to
    an integer or one more, and all shares together are [R] blocks provided the
    rounding leaves between none and one block per type to be handed out. *)
Record splits (scores importance : odict string F) (used : odict string Z) (total : Z)
    (reserve_ratio critical_ratio : F) (plan : CapacityPlan F) (R : Z) (shares : odict string F) : Prop := {
  sp_critical : ∃ n, f_trunc (fmul (f_of_Z (zlen scores)) critical_ratio) = Some n
    ∧ critical plan = list_to_set (take (Z.to_nat (Z.max 1 n))
        (py_sorted (rank_lt (lookup0 scores) (lookup0 importance)) (od_keys scores)));
  sp_set_aside : (if decide (critical plan = ∅) then Some 0 else f_trunc (fmul (f_of_Z total) reserve_ratio)) = Some R;
  sp_shared : shared plan = total - R;
  sp_keys : od_keys (reserved plan) = od_keys shares ∧ od_keys shares ≡ₚ elements (critical plan);
  sp_share : ∃ weights, Forall2 (λ kw ke, ke.1 = kw.1
      ∧ weight scores used (f_sum (lookup0 scores <$> set_order (critical plan))) (sumZ (od_values used)) kw.1 = Some kw.2
      ∧ py_div (fmul (f_of_Z R) kw.2) (f_sum (od_values weights)) = Some ke.2) weights shares;
  sp_reserved : ∃ floors, Forall2 (λ ke kc, kc.1 = ke.1 ∧ f_trunc ke.2 = Some kc.2) shares floors
    ∧ (∀ k n, od_get k (reserved plan) = Some n → ∃ c, od_get k floors = Some c ∧ (n = c ∨ n = c + 1))
    ∧ (0 ≤ R - sumZ (od_values floors) ≤ zlen shares → sumZ (od_values (reserved plan)) = R)
}.

Lemma Forall2_keys {V W} (P : V → W → Prop) (l : odict string V) (l' : odict string W) :
  Forall2 (λ a b, b.1 = a.1 ∧ P a.2 b.2) l l' → od_keys l' = od_keys l.
Proof. unfold od_keys. induction 1 as [|[k v] [k' v'] l l' [Hk _] _ IH]; cbn in *; [done|]. by rewrite Hk, IH. Qed.

Lemma sublist_slice {A} n (l : list A) : slice_to n l `sublist_of` l.
Proof. apply sublist_take. Qed.

Lemma partition_splits (scores importance : odict string F) used total (reserve_ratio critical_ratio : F) plan :
  partition_capacity set_order scores importance used total reserve_ratio critical_ratio = Some plan →
  ∃ R shares, splits scores importance used total reserve_ratio critical_ratio plan R shares.
Proof.
  unfold partition_capacity. set (ranking := py_sorted _ (od_keys scores)). intros Hp.
  assert (zlen ranking = zlen scores) as Hz.
  { unfold zlen, ranking, od_keys. by rewrite length_py_sorted, length_fmap. }
  apply bind_Some in Hp as (n & Hn & Hp). set (C := list_to_set (slice_to (Z.max 1 n) ranking) : gset string) in Hp.
  apply bind_Some in Hp as (R & HR & Hp). apply bind_Some in Hp as (weights & Hw & Hp).
  apply bind_Some in Hp as (exact & Hx & Hp). apply bind_Some in Hp as (counts & Hc & [= <-]).
  apply mapM_Some in Hw, Hx, Hc.
  assert (od_keys weights = py_sorted str_ltb (set_order C)) as Hkw.
  { clear -Hw. unfold od_keys. induction Hw as [|k [k' w] ks ws Hk _ IH]; cbn; [done|].
    apply bind_Some in Hk as (w' & _ & [= <- <-]). by rewrite IH. }
  assert (Forall2 (λ kw ke : string * F, ke.1 = kw.1 ∧ py_div (fmul (f_of_Z R) kw.2) (f_sum (od_values weights)) = Some ke.2)
    weights exact) as Hx'.
  { eapply Forall2_impl; [exact Hx|]. intros [k w] [k' e] (e' & He & [= <- <-])%bind_Some. done. }
  assert (Forall2 (λ (ke : string * F) (kc : string * Z), kc.1 = ke.1 ∧ f_trunc ke.2 = Some kc.2) exact counts) as Hc'.
  { eapply Forall2_impl; [exact Hc|]. intros [k e] [k' c] (c' & He & [= <- <-])%bind_Some. done. }
  assert (od_keys exact = od_keys weights) as Hkx by exact (Forall2_keys (λ w e, py_div (fmul (f_of_Z R) w) (f_sum (od_values weights)) = Some e) _ _ Hx').
  assert (od_keys counts = od_keys exact) as Hkc by exact (Forall2_keys (λ e c, f_trunc e = Some c) _ _ Hc').
  assert (NoDup (od_keys exact)) as Hnd.
  { rewrite Hkx, Hkw. rewrite py_sorted_Permutation, set_order_elements. apply NoDup_elements. }
  set (extra := slice_to _ (py_sorted (fraction_lt exact counts) (od_keys exact))).
  destruct (add_ones extra counts) as (Hk & Hs & Hg).
  { unfold od_wf. by rewrite Hkc. }
  { eapply sublist_NoDup; [apply NoDup_py_sorted, Hnd|apply sublist_slice]. }
  { intros k Hk. rewrite Hkc, <-(elem_of_py_sorted (fraction_lt exact counts)). unfold extra, slice_to in Hk. apply elem_of_take in Hk as (i & Hi & _). by eapply list_elem_of_lookup_2. }
  exists R, exact. split; cbn [critical shared reserved].
  - exists n. rewrite <-Hz. split; [done|]. unfold C. by rewrite slice_to_pos by lia.
  - rewrite <-HR. destruct (decide (C = ∅)); [by rewrite bool_decide_eq_true_2|by rewrite bool_decide_eq_false_2].
  - done.
  - rewrite Hk, Hkc. split; [done|]. by rewrite Hkx, Hkw, py_sorted_Permutation, set_order_elements.
  - exists weights. clear -Hw Hx' Hkw. revert Hx'. generalize (f_sum (od_values weights)). intros W Hx'.
    assert (Forall (λ kw : string * F, weight scores used (f_sum (lookup0 scores <$> set_order C)) (sumZ (od_values used)) kw.1 = Some kw.2)
      weights) as Hall.
    { clear -Hw. induction Hw as [|k [k' w] ks ws Hk _ IH]; constructor; [|done].
      apply bind_Some in Hk as (w' & Hw' & [= <- <-]). done. }
    clear -Hall Hx'. induction Hx' as [|kw ke weights exact [Hk He] _ IH]; constructor; apply Forall_cons in Hall as [Hkw Hall]; auto.
  - exists counts. split; [done|]. split.
    + intros k m. rewrite Hg. destruct (od_get k counts) as [c|]; [|done]. cbn [fmap option_fmap option_map].
      intros [= <-]. exists c. split; [done|]. destruct (decide _); [by right|by left].
    + intros Hrem. rewrite Hs. enough (zlen extra = R - sumZ (od_values counts)) by lia.
      unfold extra. rewrite slice_to_pos by lia. unfold zlen in *. rewrite length_take, length_py_sorted.
      unfold od_keys. rewrite length_fmap. lia.
Qed.
End any_floats.

(** In exact arithmetic the split never fails, and the whole part set aside is
    handed out. *)
Lemma partition_in_Q scores importance used total reserve_ratio critical_ratio :
  od_wf scores → (∀ k s, od_get k scores = Some s → 0 < s)%Q →
  0 ≤ total → (0 <= reserve_ratio <= 1)%Q → (0 <= critical_ratio <= 1)%Q →
  ∃ plan, partition_capacity set_order scores importance used total reserve_ratio critical_ratio = Some plan
    ∧ (let R := if decide (scores = []) then 0 else Qfloor (inject_Z total * reserve_ratio) in
       sumZ (od_values (reserved plan)) = R ∧ shared plan = total - R ∧ 0 ≤ R ≤ total)
    ∧ od_keys (reserved plan) ≡ₚ elements (critical plan)
    ∧ (∀ k n, od_get k (reserved plan) = Some n →
         let w := share_weight scores used (critical plan) in
         let exact := (inject_Z (sumZ (od_values (reserved plan))) * w k
                       / f_sum (w <$> od_keys (reserved plan)))%Q in
         0 ≤ n ∧ (inject_Z n - 1 <= exact < inject_Z n + 1)%Q)
    ∧ (let ranking := py_sorted (rank_lt (lookup0 scores) (lookup0 importance)) (od_keys scores) in
       critical plan = list_to_set (take (Z.to_nat (Z.max 1 (Qfloor (inject_Z (zlen scores) * critical_ratio)))) ranking)).
Proof.
  intros Hwf Hpos Ht Hr [Hc0 Hc1]. eexists. split; [apply partition_run; done || apply Hr|].
  set (C := top_ranked _ _ _). cbn [reserved shared critical].
  pose proof (set_aside_range scores total reserve_ratio Ht Hr) as HR. set (R := set_aside _ _ _) in *.
  destruct (split_reserved_spec scores used C R) as (Hk & Hs & Hg); [lia| |].
  { intros E%top_ranked_empty. unfold R, set_aside. by rewrite decide_True. }
  rewrite Hs, Hk. split_and!; [done|done|apply HR|apply HR|apply split_keys| |done].
  intros k m Hm. destruct (Hg k m Hm) as (? & ? & ?). done.
Qed.

(** C23.  The capacity split.  Under any arithmetic, the binary64 floats of the
    interpreter included, a plan sets aside the blocks the code's own product
    [int(total * reserve_ratio)] says, leaves the rest of the pool shared, and
    gives each of the top-ranked types, and no other, its computed share cut to
    an integer or one more; together they are all the blocks set aside,
    provided the rounding leaves between none and one block per type to be
    handed out.  In exact arithmetic, with positive scores, a pool that is not
    negative and ratios between 0 and 1, the split never fails, that proviso
    holds, and the shares are proportional up to one block. *)
Theorem partition_capacity_exact :
  (∀ {F : Type} `{FloatOps F} (scores importance : odict string F) used total reserve_ratio critical_ratio plan,
     partition_capacity set_order scores importance used total reserve_ratio critical_ratio = Some plan →
     ∃ R shares, splits scores importance used total reserve_ratio critical_ratio plan R shares)
  ∧ (∀ (scores importance : odict string Q) used total reserve_ratio critical_ratio,
     od_wf scores → (∀ k s, od_get k scores = Some s → 0 < s)%Q →
     0 ≤ total → (0 <= reserve_ratio <= 1)%Q → (0 <= critical_ratio <= 1)%Q →
     ∃ plan, partition_capacity set_order scores importance used total reserve_ratio critical_ratio = Some plan
       ∧ (let R := if decide (scores = []) then 0 else Qfloor (inject_Z total * reserve_ratio) in
          sumZ (od_values (reserved plan)) = R ∧ shared plan = total - R ∧ 0 ≤ R ≤ total)
       ∧ od_keys (reserved plan) ≡ₚ elements (critical plan)
       ∧ (∀ k n, od_get k (reserved plan) = Some n →
            let w := share_weight scores used (critical plan) in
            let exact := (inject_Z (sumZ (od_values (reserved plan))) * w k
                          / f_sum (w <$> od_keys (reserved plan)))%Q in
            0 ≤ n ∧ (inject_Z n - 1 <= exact < inject_Z n + 1)%Q)
       ∧ (let ranking := py_sorted (rank_lt (lookup0 scores) (lookup0 importance)) (od_keys scores) in
          critical plan = list_to_set (take (Z.to_nat (Z.max 1 (Qfloor (inject_Z (zlen scores) * critical_ratio)))) ranking))).
Proof. split; [intros; by eapply partition_splits|apply partition_in_Q]. Qed.
End partition.

(** ** Ageing *)
Lemma Q_trunc_neg q : (q <= 0)%Q → Q_trunc q = - Qfloor (- q).
Proof.
  intros Hq. rewrite <-Q_trunc_floor by lra. destruct q as [n d]. unfold Q_trunc. cbn [Qopp Qnum Qden].
  rewrite Z.quot_opp_l by lia. lia.
Qed.

Lemma Q_trunc_close x y k : 0 ≤ k → (x <= y)%Q → (y <= x + inject_Z k)%Q →
  Q_trunc x ≤ Q_trunc y ≤ Q_trunc x + k.
Proof.
  intros Hk Hxy Hyx.
  assert (∀ q, (inject_Z (Q_trunc q) - 1 < q ∧ q < inject_Z (Q_trunc q) + 1
    ∧ (0 <= q → inject_Z (Q_trunc q) <= q) ∧ (q <= 0 → q <= inject_Z (Q_trunc q)))%Q
    ∧ ((0 <= q)%Q → 0 ≤ Q_trunc q) ∧ ((q <= 0)%Q → Q_trunc q ≤ 0)) as Ht.
  { intros q. destruct (Qlt_le_dec q 0) as [H|H].
    - rewrite Q_trunc_neg by lra. pose proof (Qfloor_le (- q)). pose proof (Qlt_floor (- q)) as Hf.
      assert (0 ≤ Qfloor (- q)) by (change 0 with (Qfloor 0); apply Qfloor_resp_le; lra).
      rewrite inject_Z_opp. rewrite inject_Z_plus in Hf. change (inject_Z 1) with 1%Q in Hf.
      split_and!; try lra; intros; lia || lra.
    - rewrite Q_trunc_floor by lra. pose proof (Qfloor_le q). pose proof (Qlt_floor q) as Hf.
      assert (0 ≤ Qfloor q) by (change 0 with (Qfloor 0); apply Qfloor_resp_le; lra).
      rewrite inject_Z_plus in Hf. change (inject_Z 1) with 1%Q in Hf.
      assert ((q <= 0)%Q → Qfloor q = 0) as Hz.
      { intros Hq. assert (q == 0)%Q as E by lra. by rewrite E. }
      split_and!; try lra; intros Hq; rewrite ?Hz by done; change (inject_Z 0) with 0%Q; lia || lra. }
  destruct (Ht x) as [(? & ? & Hx1 & Hx2) [Hx3 Hx4]], (Ht y) as [(? & ? & Hy1 & Hy2) [Hy3 Hy4]].
  set (a := Q_trunc x) in *. set (b := Q_trunc y) in *. clearbody a b. split.
  - destruct (Qlt_le_dec x 0), (Qlt_le_dec y 0).
    + specialize (Hx4 ltac:(lra)). specialize (Hy2 ltac:(lra)).
      assert (inject_Z a - 1 < inject_Z b)%Q as Hq by lra.
      change 1%Q with (inject_Z 1) in Hq. unfold Qminus in Hq. rewrite <-inject_Z_opp, <-inject_Z_plus, <-Zlt_Qlt in Hq. lia.
    + specialize (Hx4 ltac:(lra)). specialize (Hy3 ltac:(lra)). lia.
    + exfalso. lra.
    + specialize (Hx1 ltac:(lra)).
      assert (inject_Z a < inject_Z b + 1)%Q as Hq by lra.
      change 1%Q with (inject_Z 1) in Hq. rewrite <-inject_Z_plus, <-Zlt_Qlt in Hq. lia.
  - destruct (Qlt_le_dec y 0).
    + assert (x <= inject_Z a)%Q by (apply Hx2; lra).
      assert (inject_Z b - 1 < inject_Z a + inject_Z k)%Q as Hq by lra.
      change 1%Q with (inject_Z 1) in Hq. unfold Qminus in Hq. rewrite <-inject_Z_opp, <-!inject_Z_plus, <-Zlt_Qlt in Hq. lia.
    + specialize (Hy1 ltac:(lra)).
      assert (inject_Z b < inject_Z a + 1 + inject_Z k)%Q as Hq by lra.
      change 1%Q with (inject_Z 1) in Hq. rewrite <-!inject_Z_plus, <-Zlt_Qlt in Hq. lia.
Qed.

(** A capped duration grows with the duration, by at most the cap. *)
Lemma capped_grows (x y cap : Q) : (0 <= x → x <= y → 0 <= cap →
  0 <= py_min y cap - py_min x cap <= cap)%Q.
Proof.
  intros Hx Hy Hc. rewrite !py_min_Q. split.
  - pose proof (Q.min_le_compat_r x y cap Hy). lra.
  - pose proof (Q.le_min_r y cap). assert (0 <= Qmin x cap)%Q by by apply Q.min_glb. lra.
Qed.

Lemma scaled_grows (x y d r k : Q) : (0 <= y - x <= d → 0 <= r <= k → 0 <= y * r - x * r <= d * k)%Q.
Proof. intros [H1 H2] [H3 H4]. split; nra. Qed.

Lemma ratio_bounds (n d : Z) : 0 ≤ n → 0 < d → (0 <= py_min (f_of_Z 1) (int_truediv n d) <= 1)%Q.
Proof.
  intros Hn Hd. rewrite py_min_Q. cbn [f_of_Z int_truediv Q_ops]. split.
  - apply Q.min_glb; [discriminate|]. apply Qle_shift_div_l.
    + change 0%Q with (inject_Z 0). by rewrite <-Zlt_Qlt.
    + rewrite Qmult_0_l. change 0%Q with (inject_Z 0). by rewrite <-Zle_Qle.
  - apply Q.le_min_l.
Qed.

(** In exact arithmetic the score of a validated request never
    falls as time passes, and however long it waits and its application runs
    the score rises by at most 5985 in all: 2625 for age, 2160 for queueing
    and 1200 for completion. *)
Theorem request_score_ageing (d : TokenCakeMetadata Q) (arrival_time now later : Q) :
  fields_ok d = true → (now <= later)%Q →
  ∃ s s', request_score d arrival_time now = Some s ∧ request_score d arrival_time later = Some s'
    ∧ s ≤ s' ≤ s + 5985.
Proof.
  intros Hok Hle. eexists _, _. split; [reflexivity|]. split; [reflexivity|].
  unfold fields_ok in Hok. repeat match goal with
    H : _ && _ = true |- _ => apply andb_true_iff in H; destruct H end.
  repeat match goal with H : fleb _ _ = true |- _ => cbn [fleb f_of_Z Q_ops] in H; apply Qle_bool_iff in H end.
  repeat match goal with H : (_ <=? _) = true |- _ => apply Z.leb_le in H end.
  cbn zeta. set (max_depth := Z.max _ 1).
  pose proof (ratio_bounds (remaining_depth d) max_depth ltac:(done) ltac:(lia)) as Hr.
  pose proof (ratio_bounds (depth d) max_depth ltac:(done) ltac:(lia)) as Hp.
  set (rr := py_min (f_of_Z 1) (int_truediv (remaining_depth d) max_depth)) in *.
  set (pr := py_min (f_of_Z 1) (int_truediv (depth d) max_depth)) in *.
  set (e0 := application_elapsed_s d) in *.
  set (e := if fltb _ _ then py_max _ (fsub now _) else _).
  set (e' := if fltb _ _ then py_max _ (fsub later _) else _).
  assert (0 <= e ∧ e <= e')%Q as [He Hee].
  { unfold e, e'. destruct (fltb _ _); [|split; [done|lra]]. rewrite !py_max_Qmax. cbn [fsub Q_ops]. split.
    - eapply Qle_trans; [|apply Q.le_max_l]. done.
    - apply Q.max_le_compat_l. lra. }
  set (w := py_max _ (fsub now arrival_time)). set (w' := py_max _ (fsub later arrival_time)).
  assert (0 <= w ∧ w <= w')%Q as [Hw Hww].
  { unfold w, w'. rewrite !py_max_Qmax. cbn [fsub f_of_Z Q_ops]. split; [apply Q.le_max_l|].
    apply Q.max_le_compat_l. lra. }
  pose proof (scaled_grows _ _ _ (1 + f_lit 75 100 * rr) (7 # 4) (capped_grows e e' 300 He Hee ltac:(done))) as Hage.
  pose proof (scaled_grows _ _ _ (1 + f_lit 5 10 * rr) (3 # 2) (capped_grows w w' 180 Hw Hww ltac:(done))) as Hq.
  pose proof (scaled_grows _ _ _ pr 1 (capped_grows e e' 240 He Hee ltac:(done)) Hp) as Hcp.
  assert (0 <= 1 + f_lit 75 100 * rr <= 7 # 4 ∧ 0 <= 1 + f_lit 5 10 * rr <= 3 # 2)%Q as [Hr1 Hr2].
  { assert (f_lit 75 100 == 3 # 4)%Q as -> by done. assert (f_lit 5 10 == 1 # 2)%Q as -> by done. split; lra. }
  specialize (Hage Hr1). specialize (Hq Hr2).
  repeat match goal with |- context [(py_min ?x (f_of_Z ?c) * ?r)%F] =>
    change (py_min x (f_of_Z c) * r)%F with (py_min x (f_of_Z c) * r)%Q end.
  change (f_of_Z 300) with 300%Q in *. change (f_of_Z 180) with 180%Q in *. change (f_of_Z 240) with 240%Q in *.
  change (f_of_Z 1 + f_lit 75 100 * rr)%F with (1 + f_lit 75 100 * rr)%Q in *.
  change (f_of_Z 1 + f_lit 5 10 * rr)%F with (1 + f_lit 5 10 * rr)%Q in *.
  set (a := (py_min e 300 * _)%Q) in *. set (a' := (py_min e' 300 * _)%Q) in *.
  set (q := (py_min w 180 * _)%Q) in *. set (q' := (py_min w' 180 * _)%Q) in *.
  set (c := (py_min e 240 * _)%Q) in *. set (c' := (py_min e' 240 * _)%Q) in *.
  clearbody a a' q q' c c'. cbn [fadd fsub fmul f_of_Z Q_ops].
  change (inject_Z 5) with 5%Q. change (inject_Z 8) with 8%Q.
  apply Q_trunc_close; [done|lra|]. change (inject_Z 5985) with 5985%Q. lra.
Qed.

(** ** On the floats of the interpreter *)
Local Open Scope string_scope.
Local Open Scope Z_scope.
Definition demo_id : string := "tc-00000000000040008000000000000000".

Definition demo_metadata {F} `{FloatOps F} (importance : F) : TokenCakeMetadata F :=
  {| lifecycle_id := demo_id; agent_type := "planner"; agent_name := ""; importance := importance;
     depth := 1; in_degree := 0; out_degree := 2; similarity := f_of_Z 0;
     application_started_at_s := f_of_Z 100; application_start_offset_s := f_of_Z 0;
     application_elapsed_s := f_of_Z 0; application_max_depth := 3; remaining_depth := 2;
     critical_path := true; near_completion := false; join_group := "";
     dependency_depth := 0; fanout_width := 1; memory_weight := f_of_Z 1;
     offload_eligible := false; reusable_prefix := false |}.

(** The metadata of a request may be valid and its score still
    not exist: the field bounds admit every finite importance, and one hundred
    times 10^307 is an infinity that [int] refuses. *)
Theorem request_score_overflow :
  let d := demo_metadata (F := b64) (f_of_Z (10 ^ 307)) in
  fields_ok d = true ∧ validate_depths {["importance"; "application_max_depth"]} d = Some d
  ∧ request_score d (f_of_Z 100) (f_of_Z 160) = None
  ∧ request_score (demo_metadata (F := b64) (f_of_Z 3)) (f_of_Z 100) (f_of_Z 160) = Some 1819.
Proof. split_and!; by vm_compute. Qed.

Lemma request_score_ageing_witness :
  ∃ s s', request_score (demo_metadata (F := Q) 3%Q) 100%Q 100%Q = Some s
    ∧ request_score (demo_metadata (F := Q) 3%Q) 100%Q 1000%Q = Some s' ∧ s ≤ s' ≤ s + 5985.
Proof. apply (request_score_ageing (demo_metadata 3%Q) 100%Q 100%Q 1000%Q); [by vm_compute|done]. Defined.

Definition demo_scores : odict string Q := [("planner", 3%Q); ("coder", 5%Q); ("critic", 1%Q)].
Definition demo_used : odict string Z := [("planner", 4); ("coder", 2)].

(** The same scores as binary64 numbers; 0.29 of 100 blocks are 28 of them. *)
Definition float_scores : odict string b64 := [("planner", f_of_Z 3); ("coder", f_of_Z 5); ("critic", f_of_Z 1)].
Definition float_plan : option (CapacityPlan b64) :=
  partition_capacity elements float_scores float_scores demo_used 100 (f_lit 29 100) (f_lit 3 4).

Lemma partition_capacity_exact_witness :
  (∃ plan shares, float_plan = Some plan
    ∧ splits elements float_scores float_scores demo_used 100 (f_lit 29 100) (f_lit 3 4) plan 28 shares
    ∧ sumZ (od_values (reserved plan)) = 28)
  ∧ ∃ plan, partition_capacity elements demo_scores demo_scores demo_used 100 (3 # 10)%Q (3 # 4)%Q = Some plan
    ∧ sumZ (od_values (reserved plan)) = 30 ∧ shared plan = 70
    ∧ critical plan = list_to_set ["coder"; "planner"].
Proof.
  split.
  - destruct float_plan as [plan|] eqn:E; [|by vm_compute in E].
    destruct (proj1 (partition_capacity_exact elements ltac:(done)) b64 _ float_scores float_scores demo_used 100
      (f_lit 29 100) (f_lit 3 4) plan E) as (R & shares & Hs).
    assert (shared plan = 72) as H72 by (vm_compute in E; by injection E as <-).
    assert (sumZ (od_values (reserved plan)) = 28) as H28 by (vm_compute in E; by injection E as <-).
    assert (R = 28) as -> by (pose proof (sp_shared _ _ _ _ _ _ _ _ _ _ Hs); lia).
    exists plan, shares. split; [reflexivity|]. split; [exact Hs|exact H28].
  - destruct (proj2 (partition_capacity_exact elements ltac:(done)) demo_scores demo_scores demo_used 100 (3 # 10)%Q (3 # 4)%Q)
      as (plan & Hrun & (Hs & Hsh & _) & _ & _ & Hc).
    + apply (bool_decide_unpack _). by vm_compute.
    + intros k s Hk%od_get_elem. repeat (apply elem_of_cons in Hk as [Hk|Hk]; [injection Hk as -> ->; done|]).
      by apply elem_of_nil in Hk.
    + done.
    + done.
    + done.
    + exists plan. split; [exact Hrun|]. rewrite decide_False in Hs, Hsh by done.
      split; [exact Hs|]. split; [exact Hsh|]. rewrite Hc. f_equal.
Defined.
