(* ===== verification/Scheduling.v ===== *)
(** * The scheduling controller ([vllm/tokencake/scheduling.py], 145-1035)

    Admission, capacity accounting, ordering and victim selection for annotated
    requests, over the KV-cache manager of the engine.  The controller's
    attributes are the fields of one record; [tick] counts the clock readings
    made so far.  Requests are passed by value: the controller only reads them,
    and [request_id] stands for their identity. *)
From S2P Require Import Prelude PyFloat Metrics Protocol Config Request BlockPool KVCache Scoring.
Local Open Scope string_scope.
Local Open Scope Z_scope.

Module Controller.
Definition ADJUSTMENT_WINDOW : Z := 500.
Definition HISTORY_LIMIT : Z := 4096.
Definition PREEMPTION_SCORE_BAND : Z := 3000.

Section Controller.
Context {F : Type} `{FloatOps F} `{FloatLog1p F}.

Record SchedulingController := mkController {
  settings : SchedulingConfig F;
  manager : KVCacheManager;
  metrics : TokenCakeMetrics;
  num_lookahead_tokens : Z;
  cache_capacity_precheck : bool;
  progress_reservation : bool;
  reclaim_reservation : bool;
  metadata : odict string (TokenCakeMetadata F);
  scores : odict string Z;
  agent_scores : odict string Z;
  history : odict string (AgentHistory F);
  started : odict string F;
  charges : gmap nat (option string);
  used : gmap (option string) Z;
  plan : CapacityPlan F;
  reserve_ratio : F;
  step : Z;
  waiting_critical : gset string;
  waiting_scores : odict string Z;
  shared_available : Z;
  reserved_available : odict string Z;
  accounting_active : bool;
  executed_ranges : odict string (list (Z * Z));
  admitted : odict string Z;
  growth_commitments : odict string Z;
  prefill_limits : odict string Z;
  prefill_growth : odict string Z;
  growth_wait_started : odict string F;
  reclaim_beneficiaries : gset string;
  retry_capacity : odict string (Z * Z);
  queued_at : odict string F;
  completion_epoch : Z;
  reservation_deferred : gset string;
  cache_preferred : gset string;
  priority_borrowed : gset string;
  tick : nat
}.

Definition controller_eta (s : SchedulingController) : SchedulingController :=
  {| settings := settings s; manager := manager s; metrics := metrics s;
     num_lookahead_tokens := num_lookahead_tokens s;
     cache_capacity_precheck := cache_capacity_precheck s;
     progress_reservation := progress_reservation s;
     reclaim_reservation := reclaim_reservation s; metadata := metadata s; scores := scores s;
     agent_scores := agent_scores s; history := history s; started := started s;
     charges := charges s; used := used s; plan := plan s; reserve_ratio := reserve_ratio s;
     step := step s; waiting_critical := waiting_critical s; waiting_scores := waiting_scores s;
     shared_available := shared_available s; reserved_available := reserved_available s;
     accounting_active := accounting_active s; executed_ranges := executed_ranges s;
     admitted := admitted s; growth_commitments := growth_commitments s;
     prefill_limits := prefill_limits s; prefill_growth := prefill_growth s;
     growth_wait_started := growth_wait_started s;
     reclaim_beneficiaries := reclaim_beneficiaries s; retry_capacity := retry_capacity s;
     queued_at := queued_at s; completion_epoch := completion_epoch s;
     reservation_deferred := reservation_deferred s; cache_preferred := cache_preferred s;
     priority_borrowed := priority_borrowed s; tick := tick s |}.

Definition put_manager (v : KVCacheManager) (s : SchedulingController) : SchedulingController :=
  ltac:(update_field controller_eta (manager s) v s).
Definition put_metrics (v : TokenCakeMetrics) (s : SchedulingController) : SchedulingController :=
  ltac:(update_field controller_eta (metrics s) v s).
Definition put_metadata (v : odict string (TokenCakeMetadata F)) (s : SchedulingController) : SchedulingController :=
  ltac:(update_field controller_eta (metadata s) v s).
Definition put_scores (v : odict string Z) (s : SchedulingController) : SchedulingController :=
  ltac:(update_field controller_eta (scores s) v s).
Definition put_agent_scores (v : odict string Z) (s : SchedulingController) : SchedulingController :=
  ltac:(update_field controller_eta (agent_scores s) v s).
Definition put_history (v : odict string (AgentHistory F)) (s : SchedulingController) : SchedulingController :=
  ltac:(update_field controller_eta (history s) v s).
Definition put_started (v : odict string F) (s : SchedulingController) : SchedulingController :=
  ltac:(update_field controller_eta (started s) v s).
Definition put_charges (v : gmap nat (option string)) (s : SchedulingController) : SchedulingController :=
  ltac:(update_field controller_eta (charges s) v s).
Definition put_used (v : gmap (option string) Z) (s : SchedulingController) : SchedulingController :=
  ltac:(update_field controller_eta (used s) v s).
Definition put_plan (v : CapacityPlan F) (s : SchedulingController) : SchedulingController :=
  ltac:(update_field controller_eta (plan s) v s).
Definition put_reserve_ratio (v : F) (s : SchedulingController) : SchedulingController :=
  ltac:(update_field controller_eta (reserve_ratio s) v s).
Definition put_step (v : Z) (s : SchedulingController) : SchedulingController :=
  ltac:(update_field controller_eta (step s) v s).
Definition put_waiting_critical (v : gset string) (s : SchedulingController) : SchedulingController :=
  ltac:(update_field controller_eta (waiting_critical s) v s).
Definition put_waiting_scores (v : odict string Z) (s : SchedulingController) : SchedulingController :=
  ltac:(update_field controller_eta (waiting_scores s) v s).
Definition put_shared_available (v : Z) (s : SchedulingController) : SchedulingController :=
  ltac:(update_field controller_eta (shared_available s) v s).
Definition put_reserved_available (v : odict string Z) (s : SchedulingController) : SchedulingController :=
  ltac:(update_field controller_eta (reserved_available s) v s).
Definition put_accounting_active (v : bool) (s : SchedulingController) : SchedulingController :=
  ltac:(update_field controller_eta (accounting_active s) v s).
Definition put_executed_ranges (v : odict string (list (Z * Z))) (s : SchedulingController) : SchedulingController :=
  ltac:(update_field controller_eta (executed_ranges s) v s).
Definition put_admitted (v : odict string Z) (s : SchedulingController) : SchedulingController :=
  ltac:(update_field controller_eta (admitted s) v s).
Definition put_growth_commitments (v : odict string Z) (s : SchedulingController) : SchedulingController :=
  ltac:(update_field controller_eta (growth_commitments s) v s).
Definition put_prefill_limits (v : odict string Z) (s : SchedulingController) : SchedulingController :=
  ltac:(update_field controller_eta (prefill_limits s) v s).
Definition put_prefill_growth (v : odict string Z) (s : SchedulingController) : SchedulingController :=
  ltac:(update_field controller_eta (prefill_growth s) v s).
Definition put_growth_wait_started (v : odict string F) (s : SchedulingController) : SchedulingController :=
  ltac:(update_field controller_eta (growth_wait_started s) v s).
Definition put_reclaim_beneficiaries (v : gset string) (s : SchedulingController) : SchedulingController :=
  ltac:(update_field controller_eta (reclaim_beneficiaries s) v s).
Definition put_retry_capacity (v : odict string (Z * Z)) (s : SchedulingController) : SchedulingController :=
  ltac:(update_field controller_eta (retry_capacity s) v s).
Definition put_queued_at (v : odict string F) (s : SchedulingController) : SchedulingController :=
  ltac:(update_field controller_eta (queued_at s) v s).
Definition put_completion_epoch (v : Z) (s : SchedulingController) : SchedulingController :=
  ltac:(update_field controller_eta (completion_epoch s) v s).
Definition put_reservation_deferred (v : gset string) (s : SchedulingController) : SchedulingController :=
  ltac:(update_field controller_eta (reservation_deferred s) v s).
Definition put_cache_preferred (v : gset string) (s : SchedulingController) : SchedulingController :=
  ltac:(update_field controller_eta (cache_preferred s) v s).
Definition put_priority_borrowed (v : gset string) (s : SchedulingController) : SchedulingController :=
  ltac:(update_field controller_eta (priority_borrowed s) v s).
Definition put_tick (v : nat) (s : SchedulingController) : SchedulingController :=
  ltac:(update_field controller_eta (tick s) v s).

Notation CM := (M SchedulingController).

(** ** Calls on the parts *)
Definition kv {A} (c : M KVCacheManager A) : CM A := zoom manager put_manager c.
Definition count (m : Metric) (amount : Z) : CM unit := zoom metrics put_metrics (Metrics.count m amount).
Definition on_metrics (c : M TokenCakeMetrics unit) : CM unit := zoom metrics put_metrics c.

(** [time.time()] and [time.monotonic()]: the readings the clocks will give. *)
Context (time_time time_monotonic : nat → F).
Context (set_order : gset string → list string).

Definition read_time (clock : nat → F) : CM F := λ s, Ret (clock (tick s)) (put_tick (S (tick s)) s).

Definition free_blocks (s : SchedulingController) : Z := get_num_free_blocks (block_pool (manager s)).

(** ** Construction *)
(** [__init__]; [all_full_attention] tells whether the spec of every group of
    the KV-cache configuration is a [FullAttentionSpec] itself. *)
Definition controller_init (cfg : SchedulingConfig F) (k : KVCacheManager) (t : TokenCakeMetrics)
    (all_full_attention : bool) (lookahead : Z) : SchedulingController :=
  let precheck := (lookahead =? 0) && all_full_attention in
  let selective := reserve_generation_tokens cfg && precheck in
  {| settings := cfg; manager := k; metrics := t;
     num_lookahead_tokens := if reserve_generation_tokens cfg then lookahead else 0;
     cache_capacity_precheck := precheck;
     progress_reservation := selective && bool_decide (generation_reserve_mode cfg = mode_progress);
     reclaim_reservation := selective && bool_decide (generation_reserve_mode cfg = mode_reclaim);
     metadata := []; scores := []; agent_scores := []; history := []; started := [];
     charges := ∅; used := ∅; plan := empty_plan; reserve_ratio := reserve_ratio_min cfg;
     step := 0; waiting_critical := ∅; waiting_scores := []; shared_available := 0;
     reserved_available := []; accounting_active := false; executed_ranges := [];
     admitted := []; growth_commitments := []; prefill_limits := []; prefill_growth := [];
     growth_wait_started := []; reclaim_beneficiaries := ∅; retry_capacity := []; queued_at := [];
     completion_epoch := 0; reservation_deferred := ∅; cache_preferred := ∅;
     priority_borrowed := ∅; tick := 0 |}.

(** [associate] *)
Definition associate (request_id : string) (d : TokenCakeMetadata F) : CM unit :=
  modify (λ s, put_metadata (od_set request_id d (metadata s)) s) ;;
  now ← read_time time_monotonic;
  modify (λ s, put_queued_at (od_set request_id now (queued_at s)) s).

(** [_history]: find or create, mark as most recent, drop the oldest beyond
    the limit; the caller mutates the record it returns. *)
Definition touch_history (key : string) : CM unit :=
  modify (λ s,
    let d := od_move_to_end key (od_setdefault key new_history (history s)) in
    put_history (drop (length d - Z.to_nat HISTORY_LIMIT) d) s).
Definition alter_history (f : AgentHistory F → AgentHistory F) (key : string) : CM unit :=
  touch_history key ;; modify (λ s, put_history (od_alter f key (history s)) s).

(** ** Capacity accounting *)
(** [_block_ids] *)
Definition block_ids (request_id : string) (k : KVCacheManager) : gset nat :=
  list_to_set (filter (λ b, is_null (block_of (block_pool k) b) = false) (concat (get_blocks request_id k))).

Definition admission_tokens (request : Request F) (s : SchedulingController) : Z :=
  let full_tokens := num_tokens request in
  let full_tokens :=
    if reserve_generation_tokens (settings s)
    then Z.max full_tokens (num_prompt_tokens request + max_tokens request) else full_tokens in
  Z.min full_tokens (max_model_len (manager s)).

(** [_generation_headroom]: the smallest remaining generation growth. *)
Definition generation_headroom (s : SchedulingController) : Z :=
  match (λ '(id, growth), Z.max 0 (growth - count0 (prefill_growth s) id)) <$> growth_commitments s with
  | [] => 0
  | x :: l => foldl Z.min x l
  end.

(** The blocks promised to accepted work; [None] is a [KeyError]. *)
Definition committed (s : SchedulingController) : option Z :=
  if progress_reservation s
  then Some (sumZ (od_values (prefill_growth s)) + generation_headroom s)
  else if reclaim_reservation s
  then
    terms ← mapM (λ key,
      p ← od_get key (prefill_growth s);
      Some (Z.max 0 (count0 (growth_commitments s) key - p)))
      (filter (λ key, od_mem key (growth_commitments s) = true) (set_order (reclaim_beneficiaries s)));
    Some (sumZ (od_values (prefill_growth s)) + sumZ terms)
  else Some (sumZ (od_values (growth_commitments s))).

Definition uncommitted_blocks : CM Z :=
  s ← get_state;
  match committed s with
  | None => raise KeyError
  | Some c => mret (free_blocks s - c)
  end.

(** [_remaining_growth] *)
Definition remaining_growth (request : Request F) (input_only : bool) : CM Z :=
  s ← get_state;
  let full_tokens :=
    if input_only
    then Z.min (default (num_tokens request) (od_get (request_id request) (prefill_limits s)))
           (max_model_len (manager s))
    else admission_tokens request s in
  if full_tokens <=? num_computed_tokens request then mret 0
  else kv (coord_get_num_blocks_to_allocate (request_id request)
             (Z.min (full_tokens + num_lookahead_tokens s) (max_model_len (manager s)))
             (empty_kv_cache_blocks (manager s)) (count0 (admitted s) (request_id request))
             (num_computed_tokens request) full_tokens true).

(** [admission_demand] *)
Definition admission_demand (request : Request F) (computed : Z) (blocks : list (list nat))
    (num_encoder_tokens : Z) : CM Z :=
  s ← get_state;
  let required (tokens : Z) : CM Z :=
    kv (coord_get_num_blocks_to_allocate (request_id request)
          (Z.min (tokens + num_lookahead_tokens s) (max_model_len (manager s)))
          blocks num_encoder_tokens computed tokens true) in
  let inputs_now := required (Z.min (num_tokens request) (max_model_len (manager s))) in
  if reclaim_reservation s then inputs_now
  else
    full ← required (admission_tokens request s);
    if negb (progress_reservation s) then mret full
    else
      inputs ← inputs_now;
      let headroom := Z.max 0 (full - inputs) in
      let headroom :=
        if bool_decide (growth_commitments s = []) then headroom
        else let previous := generation_headroom s in Z.min previous headroom - previous in
      mret (Z.max 0 (inputs + headroom)).

(** [Counter(charges.values())] *)
Definition counter_of (c : gmap nat (option string)) : gmap (option string) Z :=
  map_fold (λ _ o acc, <[o := default 0 (acc !! o) + 1]> acc) ∅ c.
Definition used_by (o : option string) (s : SchedulingController) : Z := default 0 (used s !! o).

(** [sorted(keys, key=lambda k: plan.scores[k])] *)
Definition score_lt (s : SchedulingController) (a b : string) : bool :=
  fltb (lookup0 (plan_scores (plan s)) a) (lookup0 (plan_scores (plan s)) b).
Definition scores_known (keys : list string) (s : SchedulingController) : bool :=
  forallb (λ k, od_mem k (plan_scores (plan s))) keys.

(** The lowest-scored reservations give up the excess first. *)
Definition shave (acc : odict string Z * Z) (key : string) : odict string Z * Z :=
  let reduction := Z.min acc.2 (count0 acc.1 key) in
  (od_alter (λ n, n - reduction) key acc.1, acc.2 - reduction).

(** [_update_available] *)
Definition update_available : CM unit :=
  modify (λ s, put_shared_available (Z.max 0 (shared (plan s) - used_by None s)) s) ;;
  modify (λ s, put_reserved_available
    ((λ '(key, count), (key, Z.max 0 (count - used_by (Some key) s))) <$> reserved (plan s)) s) ;;
  uncommitted ← uncommitted_blocks;
  s ← get_state;
  let excess := Z.max 0 (shared_available s + sumZ (od_values (reserved_available s))
                         - Z.max 0 uncommitted) in
  let reduction := Z.min excess (shared_available s) in
  modify (put_shared_available (shared_available s - reduction)) ;;
  if negb (scores_known (od_keys (reserved_available s)) s) then raise KeyError
  else modify (put_reserved_available
    (foldl shave (reserved_available s, excess - reduction)
       (py_sorted (score_lt s) (od_keys (reserved_available s)))).1).

(** [release] *)
Definition release : CM unit :=
  s ← get_state;
  if negb (accounting_active s) then mret tt
  else
    modify (λ s, put_charges
      (filter (λ '(b, _), 0 < ref_cnt (block_of (block_pool (manager s)) b)) (charges s)) s) ;;
    modify (λ s, put_used (counter_of (charges s)) s) ;;
    update_available.

(** [self.manager.remove_skipped_blocks], and a release when it freed some. *)
Definition remove_skipped (request_id : string) (computed : Z) : CM unit :=
  free ← gets free_blocks;
  kv (coord_remove_skipped_blocks request_id computed) ;;
  now ← gets free_blocks;
  if free =? now then mret tt else release.

(** [prepare_running] *)
Definition prepare_running (request : Request F) : CM unit :=
  remove_skipped (request_id request) (num_computed_tokens request).

Definition prefill_budget (running : list (Request F)) (native_budget : Z) (s : SchedulingController) : Z :=
  let limit := decode_prefill_token_budget (settings s) in
  if truthy limit && existsb (λ r, num_prompt_tokens r <=? num_computed_tokens r) running
  then Z.min native_budget limit else native_budget.

Definition cap_prefill (tokens budget : Z) : CM Z :=
  if budget <? tokens then count PREFILL_CAPPED 1 ;; mret budget else mret tokens.

(** ** Consumption of shared and reserved capacity *)
Definition agent_of (request : Request F) (s : SchedulingController) : option (TokenCakeMetadata F) :=
  od_get (request_id request) (metadata s).

(** The donors, largest remaining reservation first. *)
Definition donor_lt (s : SchedulingController) (a b : string) : bool :=
  lexb (count0 (reserved_available s) a =? count0 (reserved_available s) b)
    (count0 (reserved_available s) b <? count0 (reserved_available s) a)
    (score_lt s b a).

(** The guard under which a donor with critical work waiting is passed over. *)
Definition protected (request : Request F) (borrow_reserved : bool) (s : SchedulingController)
    (owner : string) : bool :=
  negb borrow_reserved && bool_decide (owner ∈ waiting_critical s)
  && let margin := priority_borrow_score_margin (settings s) in
     (negb (truthy margin)
      || match od_get owner (waiting_scores s), od_get (request_id request) (scores s) with
         | Some owner_score, Some score => score - owner_score <? margin
         | _, _ => true
         end).

(** The loop over the donors; it stops once nothing remains. *)
Fixpoint borrow (request : Request F) (borrow_reserved : bool) (s : SchedulingController)
    (donors : list string) (usage : list (option string * Z)) (remaining : Z) :
    option (list (option string * Z)) :=
  match donors with
  | [] => if remaining =? 0 then Some usage else None
  | owner :: donors' =>
      if protected request borrow_reserved s owner
      then borrow request borrow_reserved s donors' usage remaining
      else
        let borrowed := Z.min remaining (count0 (reserved_available s) owner) in
        let usage := (usage ++ [(Some owner, borrowed)])%list in
        if remaining - borrowed =? 0 then Some usage
        else borrow request borrow_reserved s donors' usage (remaining - borrowed)
  end.

(** [_consumption] *)
Definition consumption (request : Request F) (demand : Z) (borrow_reserved : bool) :
    CM (option (list (option string * Z))) :=
  s ← get_state;
  let from_shared := Z.min demand (shared_available s) in
  let usage := [(None, from_shared)] in
  let remaining := demand - from_shared in
  if remaining =? 0 then mret (Some usage)
  else
    match agent_of request s with
    | None => mret None
    | Some d =>
        let key := agent_type d in
        let own := if bool_decide (key ∈ critical (plan s))
                   then Some (Z.min remaining (count0 (reserved_available s) key)) else None in
        let usage := (usage ++ match own with Some n => [(Some key, n)] | None => [] end)%list in
        let remaining := remaining - default 0 own in
        if bool_decide (is_Some own) && (remaining =? 0) then mret (Some usage)
        else
          let donors := filter (λ k, k ≠ key) (od_keys (reserved_available s)) in
          if negb (scores_known donors s) then raise KeyError
          else mret (borrow request borrow_reserved s (py_sorted (donor_lt s) donors) usage remaining)
    end.

(** ** Admission *)
Definition denied_metric (s : SchedulingController) : Metric :=
  if reserve_generation_tokens (settings s) then GENERATION_CAPACITY_DENIED
  else PREFILL_CAPACITY_DENIED.

(** [defer_cache_lookup] *)
Definition defer_cache_lookup (request : Request F) (computed : Z) (blocks : list (list nat)) : CM bool :=
  s ← get_state;
  if negb (cache_capacity_precheck s) || negb (od_mem (request_id request) (metadata s))
     || od_mem (request_id request) (admitted s) || has_encoder_inputs request
  then mret false
  else
    demand ← admission_demand request computed blocks 0;
    available ← uncommitted_blocks;
    if demand <=? available then mret false
    else count (denied_metric s) 1 ;; mret true.

(** [can_allocate].  [new_computed_blocks] is the argument or, when it is
    [None], the manager's empty blocks. *)
Definition can_allocate (request : Request F) (num_new_tokens num_new_computed_tokens : Z)
    (new_computed_blocks : option (list (list nat)))
    (lookahead num_external_computed_tokens num_encoder_tokens : Z) (borrow_reserved : bool) : CM bool :=
  s ← get_state;
  let id := request_id request in
  if od_mem id (admitted s) then mret true
  else
    let computed := num_computed_tokens request + num_new_computed_tokens + num_external_computed_tokens in
    let main_tokens := Z.min computed (max_model_len (manager s)) + num_new_tokens in
    let blocks := default (empty_kv_cache_blocks (manager s)) new_computed_blocks in
    remove_skipped id computed ;;
    demand ← kv (coord_get_num_blocks_to_allocate id
                   (Z.min (main_tokens + lookahead) (max_model_len (manager s)))
                   blocks num_encoder_tokens computed main_tokens false);
    full_demand ← admission_demand request computed blocks num_encoder_tokens;
    let demand := Z.max demand full_demand in
    available ← uncommitted_blocks;
    if available <? demand then count (denied_metric s) 1 ;; mret false
    else
      s ← get_state;
      if match od_get id (retry_capacity s) with
         | Some (capacity, epoch) =>
             negb (bool_decide (admitted s = [])) && (epoch =? completion_epoch s)
             && (available <=? capacity)
         | None => false
         end
      then count RESUME_DEFERRED 1 ;; mret false
      else
        usage ← consumption request demand borrow_reserved;
        match usage with
        | None =>
            count RESERVATION_DENIED 1 ;;
            modify (λ s, if od_mem id (metadata s)
                         then put_reservation_deferred ({[id]} ∪ reservation_deferred s) s else s) ;;
            mret false
        | Some usage =>
            modify (λ s,
              match agent_of request s with
              | Some d =>
                  if negb borrow_reserved
                     && existsb (λ '(owner, n),
                          truthy n
                          && match owner with
                             | None => false
                             | Some o => bool_decide (o ∈ waiting_critical s)
                                         && negb (str_eqb o (agent_type d))
                             end) usage
                  then put_priority_borrowed ({[id]} ∪ priority_borrowed s) s else s
              | None => s
              end) ;;
            mret true
        end.

(** ** [commit] *)
(** One entry of the usage: its blocks are charged to the owner. *)
Definition charge (block_ids : list nat) (offset : nat) (owner : option string) (n : Z) : CM unit :=
  modify (λ s, put_charges
    (foldl (λ c b, <[b := owner]> c) (charges s) (take (Z.to_nat n) (drop offset block_ids))) s) ;;
  modify (λ s, put_used (<[owner := used_by owner s + n]> (used s)) s) ;;
  match owner with
  | None => modify (λ s, put_shared_available (Z.max 0 (shared_available s - n)) s)
  | Some o =>
      s ← get_state;
      if od_mem o (reserved_available s)
      then modify (put_reserved_available (od_alter (λ a, a - n) o (reserved_available s)))
      else raise KeyError
  end.

Fixpoint charge_all (block_ids : list nat) (offset : nat) (usage : list (option string * Z)) : CM unit :=
  match usage with
  | [] => mret tt
  | (owner, n) :: usage' =>
      charge block_ids offset owner n ;;
      charge_all block_ids (offset + Z.to_nat n) usage'
  end.

(** The counters of an admission from the waiting queue. *)
Definition admission_metrics (request : Request F) (d : TokenCakeMetadata F) : CM unit :=
  s ← get_state;
  let id := request_id request in
  match od_get id (queued_at s) with
  | None => mret tt
  | Some queued =>
      modify (put_queued_at (od_del id (queued_at s))) ;;
      (if bool_decide (id ∈ priority_borrowed s) then
         count PRIORITY_BORROW_ADMITTED 1 ;;
         modify (λ s, put_priority_borrowed (priority_borrowed s ∖ {[id]}) s)
       else mret tt) ;;
      (if count0 (agent_scores s) id <? count0 (scores s) id
       then count JOIN_PRIORITY_ADMITTED 1 else mret tt) ;;
      now ← read_time time_monotonic;
      on_metrics (admission_wait (py_max (f_of_Z 0) (fsub now queued))
        (critical_path d || bool_decide (agent_type d ∈ critical (plan s))))
  end.

(** What the agent's history records of an admission. *)
Definition history_admit (request : Request F) (d : TokenCakeMetadata F) (first : bool)
    (h : AgentHistory F) : AgentHistory F :=
  let h' :=
    {| h_importance := importance d; deferrals := Z.max 0 (deferrals h - 1);
       preemptions := preemptions h; samples := samples h; input_tokens := input_tokens h;
       output_tokens := output_tokens h; completed := completed h; duration := duration h;
       h_depth := h_depth h; h_out_degree := h_out_degree h; h_in_degree := h_in_degree h;
       elapsed := elapsed h; remaining := remaining h |} in
  if negb first then h'
  else
    {| h_importance := importance d; deferrals := deferrals h'; preemptions := preemptions h;
       samples := samples h + 1; input_tokens := input_tokens h + num_prompt_tokens request;
       output_tokens := output_tokens h; completed := completed h; duration := duration h;
       h_depth := h_depth h + depth d; h_out_degree := h_out_degree h + out_degree d;
       h_in_degree := h_in_degree h + in_degree d;
       elapsed := fadd (elapsed h) (application_elapsed_s d);
       remaining := remaining h + remaining_depth d |}.

(** The blocks to charge: the new ones of a running request, or all those of
    the request, that are not charged yet. *)
Definition uncharged (request : Request F) (running : bool) (new_blocks : option (list (list nat)))
    (s : SchedulingController) : list nat :=
  let ids :=
    match running, new_blocks with
    | true, Some bs =>
        list_to_set (filter (λ b, is_null (block_of (block_pool (manager s)) b) = false) (concat bs))
    | _, _ => block_ids (request_id request) (manager s)
    end : gset nat in
  py_sorted Nat.ltb (elements (ids ∖ dom (charges s))).

(** The bookkeeping that follows the charges. *)
Definition record_commit (request : Request F) (running : bool) (num_encoder_tokens : Z)
    (borrow_reserved : bool) : CM unit :=
  s ← get_state;
  let id := request_id request in
  modify (λ s, put_admitted
    (od_set id (Z.max (count0 (admitted s) id) num_encoder_tokens) (admitted s)) s) ;;
  modify (λ s, put_prefill_limits (od_setdefault id (num_tokens request) (prefill_limits s)) s) ;;
  growth ← remaining_growth request false;
  modify (λ s, put_growth_commitments (od_set id growth (growth_commitments s)) s) ;;
  (if progress_reservation s || reclaim_reservation s then
     inputs ← remaining_growth request true;
     modify (λ s, put_prefill_growth (od_set id inputs (prefill_growth s)) s)
   else mret tt) ;;
  modify (λ s, put_retry_capacity (od_del id (retry_capacity s)) s) ;;
  modify (λ s, put_reservation_deferred (reservation_deferred s ∖ {[id]}) s) ;;
  (if borrow_reserved && negb running then count WORK_CONSERVING_ADMITTED 1 else mret tt) ;;
  (if negb running && bool_decide (id ∈ cache_preferred s) then
     count CACHE_AFFINITY_ADMITTED 1 ;;
     modify (λ s, put_cache_preferred (cache_preferred s ∖ {[id]}) s)
   else mret tt) ;;
  update_available ;;
  match agent_of request s with
  | None => mret tt
  | Some d =>
      admission_metrics request d ;;
      (if str_eqb (agent_type d) "" then mret tt
       else
         s ← get_state;
         alter_history (history_admit request d (negb (od_mem id (started s)))) (agent_type d)) ;;
      now ← read_time time_monotonic;
      modify (λ s, put_started (od_setdefault id now (started s)) s)
  end.

Definition commit (request : Request F) (running : bool) (num_encoder_tokens : Z)
    (new_blocks : option (list (list nat))) (borrow_reserved : bool) : CM unit :=
  s ← get_state;
  let ids := uncharged request running new_blocks s in
  usage ← consumption request (zlen ids) borrow_reserved;
  let usage :=
    if bool_decide (usage = None) && (running || od_mem (request_id request) (admitted s))
    then Some [(None, zlen ids)] else usage in
  match usage with
  | None => raise AssertionError
  | Some usage =>
      charge_all ids 0 usage ;;
      record_commit request running num_encoder_tokens borrow_reserved
  end.

(** ** [begin_step] *)
(** [{r.request_id: body(r) for r in requests if keep(r)}] *)
Fixpoint dict_of {V} (requests : list (Request F)) (keep : Request F → bool) (body : Request F → CM V)
    (acc : odict string V) : CM (odict string V) :=
  match requests with
  | [] => mret acc
  | r :: rs =>
      if keep r then v ← body r; dict_of rs keep body (od_set (request_id r) v acc)
      else dict_of rs keep body acc
  end.

(** The attributes emptied when no annotated request is left. *)
Definition reset_accounting (s : SchedulingController) : SchedulingController :=
  put_charges ∅ (put_used ∅ (put_scores [] (put_agent_scores [] (put_admitted []
    (put_growth_commitments [] (put_prefill_limits [] (put_prefill_growth []
      (put_growth_wait_started [] (put_reclaim_beneficiaries ∅ (put_retry_capacity []
        (put_accounting_active false s))))))))))).

Definition adopt_running (s : SchedulingController) (r : Request F) : SchedulingController :=
  put_admitted (od_setdefault (request_id r) 0 (admitted s))
    (put_prefill_limits (od_setdefault (request_id r) (num_tokens r) (prefill_limits s)) s).

(** The join a request belongs to: application start and group name. *)
Definition join_of (id : string) (s : SchedulingController) : option (F * string) :=
  d ← od_get id (metadata s);
  if fltb (f_of_Z 0) (application_started_at_s d) && negb (str_eqb (join_group d) "")
  then Some (application_started_at_s d, join_group d) else None.

Definition same_join (a b : F * string) : bool := feqb a.1 b.1 && str_eqb a.2 b.2.

(** The scores with, for the members of a join, the highest score among them. *)
Definition inherit_join (s : SchedulingController) : odict string Z :=
  (λ '(id, score),
    (id, match join_of id s with
         | None => score
         | Some g =>
             foldl (λ acc '(id', score'),
               match join_of id' s with
               | Some g' => if same_join g g' then Z.max acc score' else acc
               | None => acc
               end) score (agent_scores s)
         end)) <$> agent_scores s.

(** The waiting annotated requests, by agent type: their number, highest score
    and total waiting time. *)
Definition tally (now : F) (acc : odict string Z * odict string Z * odict string F) (s : SchedulingController)
    (r : Request F) : odict string Z * odict string Z * odict string F :=
  let '(counts, best, times) := acc in
  match agent_of r s with
  | None => acc
  | Some d =>
      let key := agent_type d in
      if str_eqb key "" then acc
      else
        let score := count0 (scores s) (request_id r) in
        (od_set key (count0 counts key + 1) counts,
         od_set key (Z.max (default score (od_get key best)) score) best,
         od_set key (fadd (lookup0 times key) (py_max (f_of_Z 0) (fsub now (arrival_time r)))) times)
  end.

(** The importance and the blocks of every agent type in sight. *)
Definition observe_agent (acc : odict string F * odict string Z) (s : SchedulingController)
    (r : Request F) : odict string F * odict string Z :=
  let '(importances, in_use) := acc in
  match agent_of r s with
  | None => acc
  | Some d =>
      let key := agent_type d in
      if str_eqb key "" then acc
      else
        (od_set key (py_max (lookup0 importances key) (importance d)) importances,
         od_set key (count0 in_use key + Z.of_nat (size (block_ids (request_id r) (manager s)))) in_use)
  end.

(** The reserve ratio follows the pressure on the pool, within its bounds. *)
Definition adjust_ratio (s : SchedulingController) : F :=
  let cfg := settings s in
  let ratio :=
    if fleb (gpu_usage_high cfg) (usage (manager s))
    then fadd (reserve_ratio s) (reserve_adjustment_step cfg)
    else if fleb (usage (manager s)) (gpu_usage_low cfg)
    then fsub (reserve_ratio s) (reserve_adjustment_step cfg) else reserve_ratio s in
  py_min (reserve_ratio_max cfg) (py_max (reserve_ratio_min cfg) ratio).

(** The periodic renewal of the plan.  [OverflowError] stands for any
    exception of the float operations in [partition_capacity]. *)
Definition replan (requests : list (Request F)) (counts : odict string Z) (times : odict string F) : CM unit :=
  s ← get_state;
  let '(importances, in_use) :=
    foldl (λ acc r, observe_agent acc s r)
      ((λ '(key, h), (key, h_importance h)) <$> history s, []) requests in
  let new_scores :=
    (λ '(key, value),
      (key, history_score (default new_history (od_get key (history s))) value (count0 counts key)
              (fdiv (lookup0 times key) (f_of_Z (Z.max 1 (count0 counts key)))))) <$> importances in
  modify (λ s, put_reserve_ratio (adjust_ratio s) s) ;;
  s ← get_state;
  match partition_capacity set_order new_scores importances in_use
          (zlen (blocks (block_pool (manager s))) - 1) (reserve_ratio s) (critical_ratio (settings s)) with
  | None => raise OverflowError
  | Some p => modify (put_plan p)
  end.

Definition begin_step (waiting running : list (Request F)) : CM bool :=
  modify (λ s, put_reservation_deferred ∅ (put_cache_preferred ∅ (put_priority_borrowed ∅
                 (put_waiting_scores [] s)))) ;;
  s ← get_state;
  if bool_decide (metadata s = []) then modify reset_accounting ;; mret false
  else
    now ← read_time time_time;
    let requests := (waiting ++ running)%list in
    modify (λ s, foldl adopt_running s running) ;;
    s ← get_state;
    growth ← dict_of requests (λ r, od_mem (request_id r) (admitted s)) (λ r, remaining_growth r false) [];
    modify (put_growth_commitments growth) ;;
    (if progress_reservation s || reclaim_reservation s then
       inputs ← dict_of requests (λ r, od_mem (request_id r) (admitted s)) (λ r, remaining_growth r true) [];
       modify (put_prefill_growth inputs)
     else mret tt) ;;
    own ← dict_of requests (λ r, od_mem (request_id r) (metadata s))
            (λ r, match (d ← agent_of r s; request_score d (arrival_time r) now) with
                  | Some score => mret score
                  | None => raise OverflowError
                  end) [];
    modify (put_agent_scores own) ;;
    modify (λ s, put_scores (if inherit_join_priority (settings s) then inherit_join s
                             else agent_scores s) s) ;;
    modify (λ s, put_step (step s + 1) s) ;;
    modify (λ s,
      if accounting_active s then s
      else put_accounting_active true
             (put_charges
                (foldl (λ c r, set_fold (λ b c, match c !! b with Some _ => c | None => <[b := None]> c end)
                                 c (block_ids (request_id r) (manager s)))
                   (charges s) requests) s)) ;;
    s ← get_state;
    let '(counts, best, times) := foldl (λ acc r, tally now acc s r) ([], [], []) waiting in
    modify (put_waiting_scores best) ;;
    (if bool_decide (plan_scores (plan s) = []) || (step s mod ADJUSTMENT_WINDOW =? 0)
     then replan requests counts times else mret tt) ;;
    modify (λ s, put_waiting_critical (filter (λ k, k ∈ od_keys counts) (critical (plan s))) s) ;;
    release ;;
    mret true.

(** ** Growth of running requests *)
(** [_record_growth_wait] *)
Definition record_growth_wait (request : Request F) (allowed : bool) : CM bool :=
  let id := request_id request in
  started ← (if allowed then
               s ← get_state;
               modify (put_growth_wait_started (od_del id (growth_wait_started s))) ;;
               mret (od_get id (growth_wait_started s))
             else
               count GENERATION_PROGRESS_DEFERRED 1 ;;
               now ← read_time time_monotonic;
               modify (λ s, put_growth_wait_started (od_setdefault id now (growth_wait_started s)) s) ;;
               gets (λ s, od_get id (growth_wait_started s)));
  match started with
  | None => mret allowed
  | Some since =>
      s ← get_state;
      match agent_of request s with
      | Some d =>
          if critical_path d || bool_decide (agent_type d ∈ critical (plan s)) then
            now ← read_time time_monotonic;
            on_metrics (growth_wait (py_max (f_of_Z 0) (fsub now since))) ;;
            mret allowed
          else mret allowed
      | None => mret allowed
      end
  end.

(** [min(growth_commitments, key=(growth, -score, id))] *)
Definition finisher_lt (s : SchedulingController) (a b : string * Z) : bool :=
  lexb (a.2 =? b.2) (a.2 <? b.2)
    (lexb (count0 (scores s) a.1 =? count0 (scores s) b.1)
       (count0 (scores s) b.1 <? count0 (scores s) a.1) (str_ltb a.1 b.1)).

(** [min(l, key=...)]: the first element no other is below; [None] is the
    [ValueError] of an empty [min]. *)
Definition min_by {A} (lt : A → A → bool) (l : list A) : option A :=
  match l with
  | [] => None
  | x :: l' => Some (foldl (λ best y, if lt y best then y else best) x l')
  end.

(** [can_grow] *)
Definition can_grow (request : Request F) (num_new_tokens : Z) : CM bool :=
  s ← get_state;
  let id := request_id request in
  if negb (progress_reservation s) then mret true
  else
    let main_tokens := num_computed_tokens request + num_new_tokens in
    demand ← kv (coord_get_num_blocks_to_allocate id main_tokens (empty_kv_cache_blocks (manager s)) 0
                   (num_computed_tokens request) main_tokens false);
    if demand =? 0 then record_growth_wait request true
    else
      available ← uncommitted_blocks;
      if available <? 0 then
        match min_by (finisher_lt s) (growth_commitments s) with
        | None => raise ValueError
        | Some (beneficiary, _) => record_growth_wait request (str_eqb id beneficiary)
        end
      else
        let inputs := count0 (prefill_growth s) id in
        let left '(key, growth) :=
          let d := if str_eqb key id then demand else 0 in
          Z.max 0 (growth - d) - Z.max 0 (count0 (prefill_growth s) key - d) in
        match left <$> growth_commitments s with
        | [] => raise ValueError
        | x :: l =>
            let remaining_headroom := foldl Z.min x l in
            let released := Z.min demand inputs + generation_headroom s - remaining_headroom in
            record_growth_wait request (demand <=? available + released)
        end.

(** ** Deferral, preemption, completion *)
Definition history_of (request : Request F) (f : TokenCakeMetadata F → AgentHistory F → AgentHistory F) : CM unit :=
  s ← get_state;
  match agent_of request s with
  | Some d => if str_eqb (agent_type d) "" then mret tt else alter_history (f d) (agent_type d)
  | None => mret tt
  end.

Definition history_defer (_ : TokenCakeMetadata F) (h : AgentHistory F) : AgentHistory F :=
  {| h_importance := h_importance h; deferrals := deferrals h + 1; preemptions := preemptions h;
     samples := samples h; input_tokens := input_tokens h; output_tokens := output_tokens h;
     completed := completed h; duration := duration h; h_depth := h_depth h;
     h_out_degree := h_out_degree h; h_in_degree := h_in_degree h; elapsed := elapsed h;
     remaining := remaining h |}.
Definition history_preempt (_ : TokenCakeMetadata F) (h : AgentHistory F) : AgentHistory F :=
  {| h_importance := h_importance h; deferrals := deferrals h; preemptions := preemptions h + 1;
     samples := samples h; input_tokens := input_tokens h; output_tokens := output_tokens h;
     completed := completed h; duration := duration h; h_depth := h_depth h;
     h_out_degree := h_out_degree h; h_in_degree := h_in_degree h; elapsed := elapsed h;
     remaining := remaining h |}.
Definition history_finish (output : Z) (d : TokenCakeMetadata F) (h : AgentHistory F) : AgentHistory F :=
  {| h_importance := importance d; deferrals := deferrals h; preemptions := preemptions h;
     samples := samples h; input_tokens := input_tokens h; output_tokens := output_tokens h + output;
     completed := completed h + 1; duration := duration h; h_depth := h_depth h;
     h_out_degree := h_out_degree h; h_in_degree := h_in_degree h; elapsed := elapsed h;
     remaining := remaining h |}.
Definition add_duration (t : F) (h : AgentHistory F) : AgentHistory F :=
  {| h_importance := h_importance h; deferrals := deferrals h; preemptions := preemptions h;
     samples := samples h; input_tokens := input_tokens h; output_tokens := output_tokens h;
     completed := completed h; duration := fadd (duration h) t; h_depth := h_depth h;
     h_out_degree := h_out_degree h; h_in_degree := h_in_degree h; elapsed := elapsed h;
     remaining := remaining h |}.

Definition defer (request : Request F) : CM unit :=
  count DEFERRED 1 ;; history_of request history_defer.

(** The accepted work of a request is withdrawn. *)
Definition withdraw (id : string) (s : SchedulingController) : SchedulingController :=
  put_admitted (od_del id (admitted s)) (put_growth_commitments (od_del id (growth_commitments s))
    (put_prefill_limits (od_del id (prefill_limits s)) (put_prefill_growth (od_del id (prefill_growth s))
      (put_reclaim_beneficiaries (reclaim_beneficiaries s ∖ {[id]}) s)))).

Definition preempt (request : Request F) (physical : bool) : CM unit :=
  let id := request_id request in
  record_growth_wait request true ;;
  modify (withdraw id) ;;
  release ;;
  count Metrics.PREEMPTED 1 ;;
  (if physical then
     count PHYSICAL_PREEMPTED 1 ;;
     available ← uncommitted_blocks;
     modify (λ s, put_retry_capacity (od_set id (available, completion_epoch s) (retry_capacity s)) s)
   else mret tt) ;;
  now ← read_time time_monotonic;
  modify (λ s, put_queued_at (od_set id now (queued_at s)) s) ;;
  history_of request history_preempt.

Definition finish (request : Request F) : CM unit :=
  let id := request_id request in
  record_growth_wait request true ;;
  s ← get_state;
  let was_admitted := od_mem id (admitted s) in
  modify (withdraw id) ;;
  modify (λ s, put_retry_capacity (od_del id (retry_capacity s)) (put_queued_at (od_del id (queued_at s)) s)) ;;
  (if was_admitted then modify (λ s, put_completion_epoch (completion_epoch s + 1) s) else mret tt) ;;
  modify (λ s, put_executed_ranges (od_del id (executed_ranges s))
    (put_metadata (od_del id (metadata s)) (put_started (od_del id (started s))
      (put_scores (od_del id (scores s)) (put_agent_scores (od_del id (agent_scores s)) s))))) ;;
  match od_get id (metadata s), od_get id (started s) with
  | Some d, Some since =>
      if str_eqb (agent_type d) "" then mret tt
      else
        alter_history (history_finish (num_output_tokens request) d) (agent_type d) ;;
        now ← read_time time_monotonic;
        modify (λ s, put_history
          (od_alter (add_duration (py_max (f_of_Z 0) (fsub now since))) (agent_type d) (history s)) s)
  | _, _ => mret tt
  end.

(** ** Measurements *)
Definition cache_hits (request : Request F) (gpu cpu : Z) (blocks : option (list (list nat))) : CM unit :=
  count GPU_HIT_TOKENS gpu ;;
  count CPU_HIT_TOKENS cpu ;;
  match blocks with
  | None => mret tt
  | Some bs =>
      s ← get_state;
      let blk b := block_of (block_pool (manager s)) b in
      let matched := remove_dups (filter (λ b, is_null (blk b) = false) (concat bs)) in
      let shared := zlen (filter (λ b, 1 < ref_cnt (blk b)) matched) in
      count GPU_SHARED_HIT_BLOCKS shared ;;
      count GPU_EXCLUSIVE_HIT_BLOCKS (zlen matched - shared)
  end ;;
  if truthy (num_preemptions request)
  then count RESUME_GPU_HIT_TOKENS gpu ;; count RESUME_CPU_HIT_TOKENS cpu else mret tt.

(** The tokens of [[start, end_)] already executed. *)
Definition repeated_tokens (ranges : list (Z * Z)) (start end_ : Z) : Z :=
  sumZ ((λ '(a, b), Z.max 0 (Z.min end_ b - Z.max start a)) <$> ranges).

Definition range_lt (x y : Z * Z) : bool := lexb (x.1 =? y.1) (x.1 <? y.1) (x.2 <? y.2).

(** The loop over the sorted ranges; [merged] is reversed, its last element
    first. *)
Definition merge_step (merged : list (Z * Z)) (x : Z * Z) : list (Z * Z) :=
  match merged with
  | (c, d) :: rest => if x.1 <=? d then (c, Z.max d x.2) :: rest else x :: merged
  | [] => [x]
  end.
Definition merge_ranges (ranges : list (Z * Z)) (start end_ : Z) : list (Z * Z) :=
  rev (foldl merge_step [] (py_sorted range_lt (ranges ++ [(start, end_)])%list)).

(** The outputs [executed] reads: the cached requests with their positions,
    the new ones with theirs, and the tokens scheduled. *)
Record SchedulerOutput := mkOutput {
  cached_reqs : list (string * Z);
  new_reqs : list (string * Z);
  num_scheduled_tokens : odict string Z
}.

Definition output_starts (o : SchedulerOutput) : odict string Z :=
  foldl (λ d '(id, n), od_set id n d) [] (cached_reqs o ++ new_reqs o)%list.

(** [executed]; [failed_loads] is empty when the argument is [None]. *)
Definition executed (o : SchedulerOutput) (req_id_to_index : gset string) (failed_loads : gset string) : CM unit :=
  forM (num_scheduled_tokens o) (λ '(id, n),
    s ← get_state;
    if negb (od_mem id (metadata s)) || bool_decide (id ∈ failed_loads)
       || negb (bool_decide (id ∈ req_id_to_index))
    then mret tt
    else
      match od_get id (output_starts o) with
      | None => raise KeyError
      | Some start =>
          modify (λ s, put_executed_ranges (od_setdefault id [] (executed_ranges s)) s) ;;
          let ranges := default [] (od_get id (executed_ranges s)) in
          count EXECUTED_TOKENS n ;;
          count RECOMPUTED_TOKENS (repeated_tokens ranges start (start + n)) ;;
          modify (λ s, put_executed_ranges
            (od_set id (merge_ranges ranges start (start + n)) (executed_ranges s)) s)
      end).

(** ** Ordering *)
(** [order_key(a) < order_key(b)] *)
Definition order_lt (s : SchedulingController) (a b : Request F) : bool :=
  let score r := count0 (scores s) (request_id r) in
  let own r := default (score r) (od_get (request_id r) (agent_scores s)) in
  lexb (score a =? score b) (score b <? score a)
    (lexb (own a =? own b) (own b <? own a)
      (lexb (priority a =? priority b) (priority a <? priority b)
        (lexb (feqb (arrival_time a) (arrival_time b)) (fltb (arrival_time a) (arrival_time b))
          (str_ltb (request_id a) (request_id b))))).

(** [_active_prefix_affinity]; the integer 0 of the source's 0.0 is exact. *)
Definition active_prefix_affinity (request : Request F) : CM (F * Z) :=
  let none := (f_of_Z 0, 0) in
  if truthy (num_computed_tokens request) || skip_reading_prefix_cache request || has_encoder_inputs request
  then mret none
  else
    hit ← kv (coord_find_longest_cache_hit (block_hashes request) (num_tokens request - 1));
    s ← get_state;
    let blk b := block_of (block_pool (manager s)) b in
    let shared := zlen (remove_dups
      (filter (λ b, is_null (blk b) = false ∧ 0 < ref_cnt (blk b)) (concat hit.1))) in
    if shared =? 0 then mret none
    else
      demand ← admission_demand request hit.2 hit.1 0;
      if shared <? demand then mret none
      else mret (int_truediv shared (Z.max 1 (shared + demand)), shared).

Section queues.
Context {Q : Type}.

(** [key=...] of a sort is evaluated once for each element, in order. *)
Fixpoint affinities (group : list (Request F * Q)) : CM (list ((Request F * Q) * (F * Z))) :=
  match group with
  | [] => mret []
  | x :: l => a ← active_prefix_affinity x.1; rest ← affinities l; mret ((x, a) :: rest)
  end.

(** The reverse order of [(float, int)] keys. *)
Definition affinity_gt (a b : (Request F * Q) * (F * Z)) : bool :=
  lexb (feqb a.2.1 b.2.1) (fltb b.2.1 a.2.1) (b.2.2 <? a.2.2).

(** The members that moved ahead of their place. *)
Definition promoted (group preferred : list (Request F * Q)) : list string :=
  let ids := (λ x, request_id x.1) <$> group in
  (λ x, request_id x.2.1) <$>
    filter (λ x, match list_find (λ i, i = request_id x.2.1) (rev ids) with
                 | Some (j, _) => (x.1 <? length ids - 1 - j)%nat
                 | None => false
                 end = true) (imap pair preferred).

(** The bands, from the highest score down; [fuel] bounds their number. *)
Fixpoint bands (fuel : nat) (s : SchedulingController) (ordered : list (Request F * Q)) :
    list (list (Request F * Q)) :=
  match fuel, ordered with
  | S fuel', x :: l =>
      let highest := count0 (scores s) (request_id x.1) in
      let in_band y := highest - cache_affinity_score_band (settings s) <=? count0 (scores s) (request_id y.1) in
      let fix split (l : list (Request F * Q)) :=
        match l with
        | y :: l' => if in_band y then let '(a, b) := split l' in (y :: a, b) else ([], l)
        | [] => ([], [])
        end in
      let '(group, rest) := split l in
      (x :: group) :: bands fuel' s rest
  | _, _ => []
  end.

Fixpoint promote (groups : list (list (Request F * Q))) : CM (list (Request F * Q)) :=
  match groups with
  | [] => mret []
  | group :: groups' =>
      keyed ← affinities group;
      let preferred := (py_sorted affinity_gt keyed).*1 in
      modify (λ s, put_cache_preferred (list_to_set (promoted group preferred) ∪ cache_preferred s) s) ;;
      rest ← promote groups';
      mret (preferred ++ rest)%list
  end.

(** [order_candidates]; a candidate is a request with its queue. *)
Definition order_candidates (candidates : list (Request F * Q)) : CM (list (Request F * Q)) :=
  s ← get_state;
  if negb (forallb (λ x, od_mem (request_id x.1) (scores s)) candidates) then raise KeyError
  else
    let ordered := py_sorted (λ a b, order_lt s a.1 b.1) candidates in
    let capacity := zlen (blocks (block_pool (manager s))) - 1 in
    if negb (truthy (cache_affinity_score_band (settings s))) || negb (enable_caching (block_pool (manager s)))
    then mret ordered
    else
      uncommitted ← uncommitted_blocks;
      if fltb (fmul (f_of_Z capacity) (fsub (f_of_Z 1) (gpu_usage_high (settings s)))) (f_of_Z uncommitted)
      then mret ordered
      else promote (bands (length ordered) s ordered).

(** [heapq.merge] of two iterators by [Request.__lt__]; [lt] includes the
    comparison of the addresses that decides between equal requests. *)
Fixpoint heap_merge (lt : Request F → Request F → bool) (a : list (Request F * Q)) :
    list (Request F * Q) → list (Request F * Q) :=
  match a with
  | [] => λ b, b
  | x :: a' =>
      fix go (b : list (Request F * Q)) :=
        match b with
        | [] => x :: a'
        | y :: b' => if lt x.1 y.1 then x :: heap_merge lt a' b else y :: go b'
        end
  end.

Inductive SchedulingPolicy := FCFS | PRIORITY.

(** [annotated_prefix]: the requests the iterator yields, with their queue. *)
Definition annotated_prefix (lt : Request F → Request F → bool) (waiting skipped : list (Request F))
    (waiting_queue skipped_queue : Q) (policy : SchedulingPolicy) (s : SchedulingController) :
    list (Request F * Q) :=
  let skipped_items := (λ r, (r, skipped_queue)) <$> skipped in
  let waiting_items := (λ r, (r, waiting_queue)) <$> waiting in
  let merged := match policy with
                | FCFS => (skipped_items ++ waiting_items)%list
                | PRIORITY => heap_merge lt skipped_items waiting_items
                end in
  let fix prefix (l : list (Request F * Q)) :=
    match l with
    | x :: l' => if od_mem (request_id x.1) (metadata s) then x :: prefix l' else []
    | [] => []
    end in
  prefix merged.
End queues.

(** ** [victim] *)
(** The order of the cost tuples. *)
Definition cost_lt (s : SchedulingController) (released : Request F → Z) (computed : Request F → Z)
    (a b : Request F) : bool :=
  let near_finish r :=
    fleb (fmul (f_lit 9 10) (f_of_Z (max_tokens r))) (f_of_Z (num_output_tokens r)) in
  let per_block r := int_truediv (computed r) (Z.max 1 (released r)) in
  let score r := count0 (scores s) (request_id r) in
  lexb (bool_decide (near_finish a = near_finish b)) (negb (near_finish a) && near_finish b)
   (lexb (feqb (per_block a) (per_block b)) (fltb (per_block a) (per_block b))
    (lexb (computed a =? computed b) (computed a <? computed b)
     (lexb (released a =? released b) (released b <? released a)
      (lexb (score a =? score b) (score a <? score b)
       (lexb (priority a =? priority b) (priority b <? priority a)
        (lexb (feqb (arrival_time a) (arrival_time b)) (fltb (arrival_time b) (arrival_time a))
          (str_ltb (request_id a) (request_id b)))))))).

(** The candidates within the band above the lowest score. *)
Definition victim_band (s : SchedulingController) (lowest : Z) (running : list (Request F)) : list (Request F) :=
  filter (λ r, od_mem (request_id r) (scores s) = true
               ∧ count0 (scores s) (request_id r) ≤ lowest + PREEMPTION_SCORE_BAND) running.

(** Those that release enough, or else something, or else all. *)
Definition narrow (request : Request F) (released : Request F → Z) (needed : Z)
    (candidates : list (Request F)) : list (Request F) :=
  let sufficient := filter (λ r, request_id r ≠ request_id request ∧ needed ≤ released r) candidates in
  let positive := filter (λ r, 0 < released r) candidates in
  match sufficient, positive with
  | _ :: _, _ => sufficient
  | [], _ :: _ => positive
  | [], [] => candidates
  end.

Definition victim (request : Request F) (running : list (Request F)) (num_new_tokens lookahead : Z)
    (recompute_cost : option (Request F → Z)) : CM (option (Request F)) :=
  s ← get_state;
  let id := request_id request in
  (if reclaim_reservation s && negb (bool_decide (id ∈ reclaim_beneficiaries s)) then
     modify (put_reclaim_beneficiaries ({[id]} ∪ reclaim_beneficiaries s)) ;;
     count RECLAIM_BENEFICIARY 1 ;;
     update_available
   else mret tt) ;;
  if negb (od_mem id (metadata s)) then mret None
  else
    match min_by Z.ltb ((λ r, count0 (scores s) (request_id r)) <$>
                        filter (λ r, od_mem (request_id r) (scores s) = true) running) with
    | None => raise ValueError
    | Some lowest =>
        let candidates := victim_band s lowest running in
        let main_tokens := num_computed_tokens request + num_new_tokens in
        n ← kv (coord_get_num_blocks_to_allocate id
                  (Z.min (main_tokens + lookahead) (max_model_len (manager s)))
                  (empty_kv_cache_blocks (manager s)) 0 (num_computed_tokens request) main_tokens false);
        let needed := n - free_blocks s in
        needed ← (if reclaim_reservation s
                  then u ← uncommitted_blocks; mret (Z.max needed (- u)) else mret needed);
        let blk b := block_of (block_pool (manager s)) b in
        let released r :=
          Z.of_nat (size (filter (λ b, ref_cnt (blk b) = 1) (block_ids (request_id r) (manager s)))) in
        let computed r := match recompute_cost with None => num_computed_tokens r | Some f => f r end in
        mret (min_by (cost_lt s released computed) (narrow request released needed candidates))
    end.
End Controller.
Arguments SchedulingController : clear implicits.
End Controller.
