(* ===== verification/SchedulingFacts.v ===== *)
(** * Properties of the scheduling controller: capacity

    What an admission may consume and from whom, the availability kept after
    every recomputation, and the ledger of charged blocks. *)
From S2P Require Import Prelude PyFloat Metrics Protocol Config Request BlockPool KVCache Scoring Scheduling.
Import Controller.
Local Open Scope Z_scope.

Section consumption.
Context {F : Type} `{FO : FloatOps F} `{FloatLog1p F}.
Implicit Types (s : SchedulingController F) (r : Request F) (u : list (option string * Z)).

(** What an owner still has to give. *)
Definition available (o : option string) s : Z :=
  match o with None => shared_available s | Some k => count0 (reserved_available s) k end.

(** What a request may take of the reservation of [k]: its own one if its
    agent type is critical, another one unless it is protected. *)
Definition grant r (b : bool) s (k : string) : Z :=
  match agent_of r s with
  | None => 0
  | Some d =>
      if decide (k = agent_type d)
      then if decide (k ∈ critical (plan s)) then count0 (reserved_available s) k else 0
      else if protected r b s k then 0 else count0 (reserved_available s) k
  end.

(** The capacity within reach of a request. *)
Definition reach r (b : bool) s : Z :=
  shared_available s + sumZ (grant r b s <$> od_keys (reserved_available s)).

(** A consistent availability: no negative entry, no duplicate, every
    reservation known to the plan. *)
Record available_ok s : Prop := {
  av_shared : 0 ≤ shared_available s;
  av_nonneg k : 0 ≤ count0 (reserved_available s) k;
  av_wf : od_wf (reserved_available s);
  av_known : scores_known (od_keys (reserved_available s)) s = true
}.

(** An owner the plan knows. *)
Definition known_owner s (k : string) : Prop :=
  k ∈ od_keys (reserved_available s) ∨ k ∈ critical (plan s).

(** A usage list splits a demand over distinct owners, within what each has
    and what the request may take from it. *)
Record usage_ok r (b : bool) s (demand : Z) u : Prop := {
  us_total : sumZ (u.*2) = demand;
  us_owners : NoDup (u.*1);
  us_bounds o n : (o, n) ∈ u → 0 ≤ n ≤ available o s;
  us_grant k n : (Some k, n) ∈ u → n ≤ grant r b s k;
  us_known k n : (Some k, n) ∈ u → known_owner s k
}.

Definition donor_gives r b s (k : string) : Z :=
  if protected r b s k then 0 else count0 (reserved_available s) k.

Lemma sumZ_fmap_ext {A} (f g : A → Z) (l : list A) :
  (∀ x, x ∈ l → f x = g x) → sumZ (f <$> l) = sumZ (g <$> l).
Proof.
  induction l as [|x l IH]; intros Hf; [done|]. cbn [fmap list_fmap sumZ foldr].
  fold (sumZ (f <$> l)) (sumZ (g <$> l)). rewrite (Hf x) by (by left). f_equal. apply IH. intros. apply Hf. by right.
Qed.

Lemma borrow_spec r b s donors : ∀ u remaining,
  (∀ k, 0 ≤ count0 (reserved_available s) k) → 0 < remaining →
  if remaining <=? sumZ (donor_gives r b s <$> donors) then
    ∃ v, borrow r b s donors u remaining = Some (u ++ v)
      ∧ sumZ (v.*2) = remaining ∧ v.*1 `sublist_of` (Some <$> donors)
      ∧ (∀ o n, (o, n) ∈ v → ∃ k, o = Some k ∧ k ∈ donors ∧ protected r b s k = false
           ∧ 0 ≤ n ≤ count0 (reserved_available s) k)
  else borrow r b s donors u remaining = None.
Proof.
  induction donors as [|k donors IH]; intros u remaining Hnn Hrem; cbn [borrow fmap list_fmap].
  { rewrite (proj2 (Z.leb_gt remaining _)) by (simpl; lia). by rewrite (proj2 (Z.eqb_neq remaining 0)) by lia. }
  cbn [sumZ foldr]. fold (sumZ (donor_gives r b s <$> donors)).
  unfold donor_gives at 1. destruct (protected r b s k) eqn:Hp.
  - specialize (IH u remaining Hnn Hrem). rewrite Z.add_0_l. destruct (_ <=? _); [|done].
    destruct IH as (v & Hv & Hs & Hsub & Hin). exists v. split_and!; [done|done|by apply sublist_cons|].
    intros o n Hon. destruct (Hin o n Hon) as (j & ? & ? & ? & ?). exists j. split_and!; [done|by right|done|lia|lia].
  - specialize (Hnn k) as Hk. set (c := count0 (reserved_available s) k) in *.
    destruct (Z.eqb_spec (remaining - Z.min remaining c) 0) as [E|E].
    + rewrite (proj2 (Z.leb_le remaining _)).
      2:{ assert (0 ≤ sumZ (donor_gives r b s <$> donors)); [|lia].
          apply sumZ_nonneg, Forall_fmap, Forall_true. intros j. cbn. unfold donor_gives.
          destruct (protected r b s j); [done|apply Hnn]. }
      exists [(Some k, Z.min remaining c)]. split_and!; [done|simpl; lia| |].
      * cbn [fmap list_fmap fst]. constructor. apply sublist_nil_l.
      * intros o n [= -> ->]%list_elem_of_singleton. exists k. split_and!; [done|by left|done|lia|lia].
    + specialize (IH (u ++ [(Some k, Z.min remaining c)]) (remaining - Z.min remaining c) Hnn).
      specialize (IH ltac:(lia)). destruct (Z.leb_spec (remaining - Z.min remaining c) (sumZ (donor_gives r b s <$> donors)));
        [rewrite (proj2 (Z.leb_le remaining _)) by lia|rewrite (proj2 (Z.leb_gt remaining _)) by lia; done].
      destruct IH as (v & Hv & Hs & Hsub & Hin).
      exists ((Some k, Z.min remaining c) :: v). rewrite Hv. split_and!.
      * by rewrite <-app_assoc.
      * cbn [fmap list_fmap snd sumZ foldr]. fold (sumZ (v.*2)). lia.
      * cbn [fmap list_fmap fst]. by constructor.
      * intros o n [[= -> ->]|Hon]%elem_of_cons; [exists k; split_and!; [done|by left|done|lia|lia]|].
        destruct (Hin o n Hon) as (j & ? & ? & ? & ?). exists j. split_and!; [done|by right|done|lia|lia].
Qed.

(** The grants split into the own reservation and the donors. *)
Lemma grants_split r b s d (keys : list string) :
  agent_of r s = Some d → NoDup keys →
  sumZ (grant r b s <$> keys)
    = (if decide (agent_type d ∈ keys)
       then if decide (agent_type d ∈ critical (plan s)) then count0 (reserved_available s) (agent_type d) else 0
       else 0)
      + sumZ (donor_gives r b s <$> filter (λ k, k ≠ agent_type d) keys).
Proof.
  intros Hd. induction keys as [|k keys IH]; intros Hnd.
  { by rewrite decide_False by by intros ?%elem_of_nil. }
  apply NoDup_cons in Hnd as [Hk Hnd].
  cbn [fmap list_fmap sumZ foldr]. fold (sumZ (grant r b s <$> keys)). rewrite IH by done. clear IH.
  rewrite filter_cons. unfold grant at 1. rewrite Hd.
  destruct (decide (k = agent_type d)) as [E|E].
  - rewrite (decide_False (P := k ≠ agent_type d)) by tauto. subst k.
    rewrite (decide_True (P := agent_type d ∈ agent_type d :: keys)) by (by left).
    rewrite (decide_False (P := agent_type d ∈ keys)) by done. lia.
  - rewrite (decide_True (P := k ≠ agent_type d)) by done. cbn [fmap list_fmap sumZ foldr].
    fold (sumZ (donor_gives r b s <$> filter (λ k, k ≠ agent_type d) keys)).
    replace (if decide (agent_type d ∈ k :: keys) then _ else _) with
      (if decide (agent_type d ∈ keys)
       then if decide (agent_type d ∈ critical (plan s)) then count0 (reserved_available s) (agent_type d) else 0
       else 0).
    + unfold donor_gives at 2. lia.
    + destruct (decide (agent_type d ∈ keys)) as [Hin|Hin].
      * by rewrite (decide_True (P := agent_type d ∈ k :: keys)) by (by right).
      * rewrite (decide_False (P := agent_type d ∈ k :: keys)); [done|].
        intros [?|?]%elem_of_cons; congruence.
Qed.

Lemma own_absent (k : string) (d : odict string Z) : k ∉ od_keys d → count0 d k = 0.
Proof. intros Hk%od_get_None. unfold count0. by rewrite Hk. Qed.

Lemma scores_known_sub keys keys' s :
  (∀ k, k ∈ keys' → k ∈ keys) → scores_known keys s = true → scores_known keys' s = true.
Proof. unfold scores_known. rewrite !forallb_forall. setoid_rewrite <-list_elem_of_In. eauto. Qed.

Lemma donors_outcome r b s d own u remaining :
  available_ok s → agent_of r s = Some d → 0 < remaining →
  own = (if decide (agent_type d ∈ critical (plan s)) then count0 (reserved_available s) (agent_type d) else 0) →
  let donors := py_sorted (donor_lt s) (filter (λ k, k ≠ agent_type d) (od_keys (reserved_available s))) in
  if shared_available s + own + remaining <=? reach r b s then
    ∃ v, borrow r b s donors u remaining = Some (u ++ v)
      ∧ sumZ (v.*2) = remaining ∧ NoDup (v.*1)
      ∧ (∀ o n, (o, n) ∈ v → ∃ k, o = Some k ∧ k ≠ agent_type d ∧ 0 ≤ n ≤ grant r b s k
                                   ∧ grant r b s k ≤ count0 (reserved_available s) k ∧ known_owner s k)
  else borrow r b s donors u remaining = None.
Proof.
  intros Hok Hd Hrem -> donors.
  set (all := od_keys (reserved_available s)) in *.
  assert (donors ≡ₚ filter (λ k, k ≠ agent_type d) all) as Hp by apply py_sorted_Permutation.
  assert (reach r b s = shared_available s
    + (if decide (agent_type d ∈ critical (plan s)) then count0 (reserved_available s) (agent_type d) else 0)
    + sumZ (donor_gives r b s <$> donors)) as Hreach.
  { unfold reach. rewrite (grants_split r b s d) by (done || apply (av_wf _ Hok)).
    rewrite (sumZ_Permutation (donor_gives r b s <$> donors)
      (donor_gives r b s <$> filter (λ k, k ≠ agent_type d) all)) by by rewrite Hp.
    fold all. destruct (decide (agent_type d ∈ all)) as [?|Hn]; [lia|].
    rewrite (own_absent _ _ Hn). destruct (decide _); lia. }
  pose proof (borrow_spec r b s donors u remaining (av_nonneg _ Hok) Hrem) as Hb.
  replace (shared_available s + _ + remaining <=? reach r b s)
    with (remaining <=? sumZ (donor_gives r b s <$> donors)); [|apply Bool.eq_iff_eq_true; rewrite !Z.leb_le; lia].
  destruct (_ <=? _); [|done]. destruct Hb as (v & Hv & Hs & Hsub & Hin).
  exists v. split_and!; [done|done| |].
  - eapply sublist_NoDup; [|exact Hsub]. apply NoDup_fmap_2; [apply _|]. rewrite Hp.
    apply NoDup_filter, (av_wf _ Hok).
  - intros o n Hon. destruct (Hin o n Hon) as (k & -> & Hk & Hpr & Hn). exists k.
    rewrite Hp in Hk. apply list_elem_of_filter in Hk as [Hne Hk].
    unfold grant. rewrite Hd, decide_False, Hpr by done. split_and!; [done|done|lia|lia|lia|by left].
Qed.

Lemma grant_nonneg r b s k : available_ok s → 0 ≤ grant r b s k.
Proof.
  intros Hok. unfold grant. pose proof (av_nonneg _ Hok k). repeat case_match; done.
Qed.

Lemma usage_shared r b s n u :
  available_ok s → 0 ≤ n ≤ shared_available s → NoDup (u.*1) →
  (∀ o n, (o, n) ∈ u → ∃ k, o = Some k ∧ 0 ≤ n ≤ grant r b s k
     ∧ grant r b s k ≤ count0 (reserved_available s) k ∧ known_owner s k) →
  usage_ok r b s (n + sumZ (u.*2)) ((None, n) :: u).
Proof.
  intros Hok Hn Hnd Hin. split.
  - done.
  - cbn [fmap list_fmap fst]. apply NoDup_cons. split; [|done].
    intros ([o m] & E & Hom)%list_elem_of_fmap. simpl in E. subst o. by destruct (Hin _ _ Hom) as (k & ? & _).
  - intros o m [[= -> ->]|Hom]%elem_of_cons; [done|]. destruct (Hin _ _ Hom) as (k & -> & ?). simpl. lia.
  - intros k m [?|Hom]%elem_of_cons; [done|]. destruct (Hin _ _ Hom) as (j & [= <-] & ?). lia.
  - intros k m [?|Hom]%elem_of_cons; [done|]. by destruct (Hin _ _ Hom) as (j & [= <-] & ? & ? & ?).
Qed.

Lemma consumption_outcome r demand b s :
  available_ok s → 0 ≤ demand →
  if demand <=? reach r b s
  then ∃ u, consumption r demand b s = Ret (Some u) s ∧ usage_ok r b s demand u
  else consumption r demand b s = Ret None s.
Proof.
  intros Hok Hd. unfold consumption. rewrite get_bind. cbn zeta.
  assert (∀ keys, 0 ≤ sumZ (grant r b s <$> keys)) as Hg.
  { intros keys. apply sumZ_nonneg, Forall_fmap, Forall_true. intros. by apply grant_nonneg. }
  pose proof (av_shared _ Hok) as Hsh. set (n := Z.min demand (shared_available s)).
  destruct (Z.eqb_spec (demand - n) 0) as [E|E].
  { rewrite (proj2 (Z.leb_le demand _)) by (unfold reach; specialize (Hg (od_keys (reserved_available s))); lia).
    exists [(None, n)]. split; [done|]. replace demand with (n + sumZ (([] : list (option string * Z)).*2)) by (simpl; lia).
    apply usage_shared; [done|lia|apply NoDup_nil_2|]. by intros o m ?%elem_of_nil. }
  destruct (agent_of r s) as [d|] eqn:Hag.
  2:{ rewrite (proj2 (Z.leb_gt demand _)); [done|]. unfold reach.
      rewrite (sumZ_fmap_ext _ (λ _, 0)) by (intros; unfold grant; by rewrite Hag).
      assert (∀ l : list string, sumZ ((λ _, 0) <$> l) = 0) as -> by (induction l; done). lia. }
  set (own := if decide (agent_type d ∈ critical (plan s)) then count0 (reserved_available s) (agent_type d) else 0).
  assert (0 ≤ own ∧ own ≤ grant r b s (agent_type d) ∧ grant r b s (agent_type d) ≤ count0 (reserved_available s) (agent_type d)) as Hown.
  { unfold own, grant. pose proof (av_nonneg _ Hok (agent_type d)). rewrite Hag, (decide_True (P := agent_type d = agent_type d)) by done. case_decide; lia. }
  pose proof (av_known _ Hok) as Hkn.
  set (donors := filter (λ k, k ≠ agent_type d) (od_keys (reserved_available s))) in *.
  assert (scores_known donors s = true) as Hkd.
  { eapply scores_known_sub; [|exact Hkn]. by intros k [_ ?]%list_elem_of_filter. }
  set (ow := if bool_decide (agent_type d ∈ critical (plan s)) then _ else None).
  assert (∃ v0, match ow with Some m => [(Some (agent_type d), m)] | None => [] end = v0
    ∧ default 0 ow = Z.min (demand - n) own ∧ sumZ (v0.*2) = Z.min (demand - n) own ∧ NoDup (v0.*1)
    ∧ (∀ o m, (o, m) ∈ v0 → o = Some (agent_type d) ∧ 0 ≤ m ≤ own ∧ known_owner s (agent_type d))) as (v0 & Hv0 & How & Hs0 & Hnd0 & Hin0).
  { unfold ow, own. case_bool_decide as Hc.
    - rewrite decide_True by done. eexists. split_and!; [done|done|simpl; lia|apply NoDup_singleton|].
      intros o m [= -> ->]%list_elem_of_singleton. unfold own in Hown. rewrite decide_True in Hown by done. split_and!; [done|lia|lia|by right].
    - rewrite decide_False by done. exists []. split_and!; [done|simpl; lia|simpl; lia|apply NoDup_nil_2|].
      by intros o m ?%elem_of_nil. }
  rewrite Hv0, How. set (rest := demand - n - Z.min (demand - n) own).
  assert (n + sumZ (v0.*2) + rest = demand) as Htot by lia.
  destruct (bool_decide (is_Some ow) && (rest =? 0)) eqn:Hdone.
  { apply andb_true_iff in Hdone as [Hs%bool_decide_eq_true E0%Z.eqb_eq].
    rewrite (proj2 (Z.leb_le demand _)).
    2:{ unfold reach. rewrite (grants_split r b s d) by (done || apply (av_wf _ Hok)).
        fold own. assert (0 ≤ sumZ (donor_gives r b s <$> filter (λ k, k ≠ agent_type d) (od_keys (reserved_available s)))).
        { apply sumZ_nonneg, Forall_fmap, Forall_true. intros k. cbn. unfold donor_gives.
          pose proof (av_nonneg _ Hok k). by destruct (protected _ _ _ _). }
        destruct (decide (agent_type d ∈ od_keys (reserved_available s))) as [?|Hn]; [lia|].
        assert (own = 0) by (unfold own; rewrite (own_absent _ _ Hn); by destruct (decide _)). lia. }
    eexists. split; [reflexivity|]. replace demand with (n + sumZ (v0.*2)) by lia.
    apply usage_shared; [done|lia|done|]. intros o m Hom. destruct (Hin0 o m Hom) as [-> ?].
    exists (agent_type d). split_and!; [done|lia|lia|lia|tauto]. }
  rewrite Hkd. cbn [negb].
  destruct (Z.eq_dec rest 0) as [E0|E0].
  { exfalso. rewrite E0, andb_true_r in Hdone. apply bool_decide_eq_false in Hdone.
    assert (own = 0) as H0; [|lia]. unfold ow in Hdone. unfold own. case_bool_decide; [by destruct Hdone|].
    by rewrite decide_False. }
  pose proof (donors_outcome r b s d own ([(None, n)] ++ v0) rest Hok Hag ltac:(lia) eq_refl) as Hb.
  cbn zeta in Hb. fold donors in Hb.
  replace (demand <=? reach r b s) with (shared_available s + own + rest <=? reach r b s);
    [|apply Bool.eq_iff_eq_true; rewrite !Z.leb_le; lia].
  destruct (_ <=? _); [|by rewrite Hb]. destruct Hb as (v & Hv & Hs & Hnd & Hin).
  eexists. split; [by rewrite Hv|]. rewrite <-app_assoc. cbn [app].
  replace demand with (n + sumZ ((v0 ++ v).*2)) by (rewrite fmap_app, sumZ_app; lia).
  apply usage_shared; [done|lia| |].
  - rewrite fmap_app. apply NoDup_app. split_and!; [done| |done].
    intros o ([o' m] & -> & Hom)%list_elem_of_fmap ([o'' m'] & E1 & Hom')%list_elem_of_fmap.
    simpl in E1. destruct (Hin0 _ _ Hom) as [-> _]. subst o''.
    destruct (Hin _ _ Hom') as (k & [= <-] & ? & _). done.
  - intros o m [Hom|Hom]%elem_of_app.
    + destruct (Hin0 _ _ Hom) as [-> ?]. exists (agent_type d). split_and!; [done|lia|lia|lia|tauto].
    + destruct (Hin _ _ Hom) as (k & -> & _ & ? & ? & ?). eauto.
Qed.

(** [_consumption] decides exactly whether a demand fits: the
    shared capacity, the request's own reservation when its agent type is
    critical, and the reservations not protected by critical work waiting.
    If the demand is within that reach it returns a list that splits it over
    distinct owners of the plan, none giving more than it has or more than the request may
    take; otherwise it returns [None].  It never raises or changes anything. *)
Theorem consumption_exact r demand b s :
  available_ok s → 0 ≤ demand →
  if demand <=? reach r b s
  then ∃ u, consumption r demand b s = Ret (Some u) s ∧ usage_ok r b s demand u
  else consumption r demand b s = Ret None s.
Proof. apply consumption_outcome. Qed.
End consumption.

(** ** [_update_available] *)
Section availability.
Context {F : Type} `{FO : FloatOps F} `{FloatLog1p F}.
Context (set_order : gset string → list string).
Implicit Types (s : SchedulingController F).

Lemma sumZ_od_alter (f : Z → Z) k (d : odict string Z) n :
  od_wf d → od_get k d = Some n → sumZ (od_values (od_alter f k d)) = sumZ (od_values d) - n + f n.
Proof.
  intros _. unfold od_values. induction d as [|[j m] d IH]; [done|].
  cbn [od_get od_alter]. case_decide; intros; simplify_eq; cbn [fmap list_fmap snd sumZ foldr].
  - fold (sumZ (d.*2)). lia.
  - fold (sumZ (d.*2)) (sumZ ((od_alter f k d).*2)). rewrite IH by done. lia.
Qed.

Lemma count0_alter (f : Z → Z) k j (d : odict string Z) :
  k ∈ od_keys d → count0 (od_alter f k d) j = if decide (k = j) then f (count0 d j) else count0 d j.
Proof.
  intros Hk. unfold count0. rewrite od_get_alter. case_decide; [|done]. subst j.
  apply od_get_is_Some in Hk as [n ->]. done.
Qed.

Lemma sumZ_values_zero (d : odict string Z) :
  od_wf d → (∀ k, k ∈ od_keys d → count0 d k = 0) → sumZ (od_values d) = 0.
Proof.
  intros Hwf Hz. assert (Forall (λ n, n = 0) (od_values d)) as Hall.
  { apply Forall_forall. intros n ([k m] & -> & Hn)%list_elem_of_fmap. pose proof (od_elem_get _ _ _ Hwf Hn) as Hg.
    specialize (Hz k). unfold count0 in Hz. rewrite Hg in Hz. apply Hz. apply od_get_is_Some. by eexists. }
  induction Hall; cbn [sumZ foldr]; [done|]. fold (sumZ l). lia.
Qed.

Lemma shave_spec keys : ∀ (d : odict string Z) e,
  od_wf d → NoDup keys → (∀ k, k ∈ keys → k ∈ od_keys d) → (∀ k, 0 ≤ count0 d k) → 0 ≤ e →
  let '(d', e') := foldl shave (d, e) keys in
  od_keys d' = od_keys d ∧ 0 ≤ e' ≤ e ∧ sumZ (od_values d') = sumZ (od_values d) - (e - e')
  ∧ (∀ k, 0 ≤ count0 d' k ≤ count0 d k) ∧ (e' = 0 ∨ ∀ k, k ∈ keys → count0 d' k = 0)
  ∧ (∀ k, k ∉ keys → count0 d' k = count0 d k).
Proof.
  induction keys as [|k keys IH]; intros d e Hwf Hnd Hin Hnn He; cbn [foldl].
  { split_and!; [done|lia|lia|lia| |right; by intros ? ?%elem_of_nil|done]. intros k. specialize (Hnn k). lia. }
  apply NoDup_cons in Hnd as [Hk Hnd]. unfold shave at 2. cbn [fst snd].
  assert (k ∈ od_keys d) as Hkd by (apply Hin; by left).
  pose proof Hkd as [n Hn]%od_get_is_Some. assert (count0 d k = n) as Hc by (unfold count0; by rewrite Hn).
  set (m := Z.min e (count0 d k)). specialize (IH (od_alter (λ n, n - m) k d) (e - m)).
  destruct (foldl shave _ keys) as [d' e'] eqn:Hf.
  pose proof (Hnn k) as Hk0.
  destruct IH as (Hkeys & He' & Hsum & Hb & Hz & Hout).
  - by apply od_wf_alter.
  - done.
  - intros j Hj. rewrite od_keys_alter. apply Hin. by right.
  - intros j. rewrite count0_alter by done. case_decide; [subst; lia|apply Hnn].
  - lia.
  - rewrite (sumZ_od_alter _ k d n) in Hsum by done. rewrite od_keys_alter in Hkeys.
    assert (∀ j, count0 (od_alter (λ n, n - m) k d) j = if decide (k = j) then count0 d j - m else count0 d j) as Ha
      by by intros; apply count0_alter.
    split_and!; [done|lia|lia|lia| | |].
    + intros j. specialize (Hb j). rewrite Ha in Hb. case_decide; subst; lia.
    + destruct Hz as [?|Hz]; [by left|]. destruct (Z.eq_dec e' 0) as [?|Hne]; [by left|right].
      intros j [->|Hj]%elem_of_cons; [|by apply Hz].
      rewrite Hout, Ha, decide_True by done. lia.
    + intros j Hj. rewrite Hout by (intros ?; apply Hj; by right). rewrite Ha, decide_False; [done|].
      intros ->. apply Hj. by left.
Qed.

Lemma od_values_count0 (d : odict string Z) : od_wf d → od_values d = count0 d <$> od_keys d.
Proof.
  intros Hwf. unfold od_values, od_keys. rewrite <-list_fmap_compose.
  assert (∀ x, x ∈ d → x.2 = (count0 d ∘ fst) x) as Hx.
  { intros [k n] Hx. unfold compose, count0. cbn [fst snd]. by rewrite (od_elem_get _ _ _ Hwf Hx). }
  revert Hx. change (snd <$> d) with (d.*2). generalize (count0 d ∘ @fst string Z). clear Hwf. induction d as [|x d IH]; intros f Hx; [done|].
  cbn [fmap list_fmap]. f_equal; [apply Hx; by left|]. apply IH. intros. apply Hx. by right.
Qed.

(** The quota of an owner: its share of the plan less what it uses. *)
Definition quota s (o : option string) : Z :=
  match o with
  | None => Z.max 0 (shared (plan s) - used_by None s)
  | Some k => Z.max 0 (count0 (reserved (plan s)) k - used_by (Some k) s)
  end.
Definition quotas s : Z := quota s None + sumZ (quota s <$> (Some <$> od_keys (reserved (plan s)))).

(** A plan whose reservations are distinct and scored and include one for
    every critical agent type. *)
Definition plan_ok s : Prop :=
  od_wf (reserved (plan s)) ∧ scores_known (od_keys (reserved (plan s))) s = true
  ∧ ∀ k, k ∈ critical (plan s) → k ∈ od_keys (reserved (plan s)).

(** The part of the state the accounting leaves alone. *)
Definition with_available (n : Z) (d : odict string Z) s : SchedulingController F :=
  put_reserved_available d (put_shared_available n s).

Definition quota_dict s : odict string Z :=
  (λ '(key, count), (key, Z.max 0 (count - used_by (Some key) s))) <$> reserved (plan s).

Lemma quota_dict_keys s : od_keys (quota_dict s) = od_keys (reserved (plan s)).
Proof. unfold quota_dict, od_keys. rewrite <-list_fmap_compose. apply list_fmap_ext. by intros ? [] _. Qed.

Lemma quota_dict_get s k :
  count0 (quota_dict s) k = if decide (k ∈ od_keys (reserved (plan s))) then quota s (Some k) else 0.
Proof.
  unfold quota_dict, quota, count0, od_keys. generalize (reserved (plan s)).
  intros l. induction l as [|[j m] l IH]; [done|].
  cbn [fmap list_fmap od_get fst]. destruct (decide (j = k)) as [->|Hne].
  - by rewrite (decide_True (P := k ∈ _)) by by left.
  - rewrite IH. destruct (decide (k ∈ l.*1)) as [Hin|Hin].
    + by rewrite (decide_True (P := k ∈ _)) by by right.
    + rewrite (decide_False (P := k ∈ _ :: _)); [done|]. by intros [->|?]%elem_of_cons.
Qed.

(** The availability before the uncommitted blocks are looked at. *)
Lemma quota_available s :
  plan_ok s → available_ok (with_available (quota s None) (quota_dict s) s).
Proof.
  intros (Hwf & Hkn & _). split.
  - cbn. lia.
  - intros k. change (0 ≤ count0 (quota_dict s) k). rewrite quota_dict_get. destruct (decide _); simpl; lia.
  - change (od_wf (quota_dict s)). unfold od_wf. by rewrite quota_dict_keys.
  - change (scores_known (od_keys (quota_dict s)) s = true). by rewrite quota_dict_keys.
Qed.

Lemma committed_with_available n d s : committed set_order (with_available n d s) = committed set_order s.
Proof. done. Qed.

Lemma update_available_outcome s c :
  plan_ok s → committed set_order s = Some c →
  ∃ n d, update_available set_order s = Ret tt (with_available n d s)
    ∧ available_ok (with_available n d s)
    ∧ od_keys d = od_keys (reserved (plan s))
    ∧ n + sumZ (od_values d) = Z.min (quotas s) (Z.max 0 (free_blocks s - c))
    ∧ n ≤ quota s None
    ∧ (∀ k, k ∈ od_keys (reserved (plan s)) → count0 d k ≤ quota s (Some k)).
Proof.
  intros (Hwf & Hkn & Hcr) Hc. unfold update_available. rewrite !modify_bind.
  set (d0 := quota_dict s). set (n0 := quota s None).
  change (Z.max 0 (shared (plan s) - used_by None s)) with n0.
  change (put_reserved_available _ (put_shared_available n0 s)) with (with_available n0 d0 s).
  rewrite bind_unfold. unfold uncommitted_blocks. rewrite get_bind, committed_with_available, Hc.
  unfold mret, M_ret. rewrite get_bind.
  change (free_blocks (with_available n0 d0 s)) with (free_blocks s).
  change (shared_available (with_available n0 d0 s)) with n0.
  change (reserved_available (with_available n0 d0 s)) with d0.
  pose proof (quota_dict_keys s : od_keys d0 = _) as Hk0.
  pose proof (quota_dict_get s : ∀ k, count0 d0 k = _) as Hd0.
  assert (sumZ (od_values d0) = sumZ (quota s <$> (Some <$> od_keys (reserved (plan s))))) as Hs0.
  { assert (od_wf d0) as Hw0 by (unfold od_wf; by rewrite Hk0).
    rewrite od_values_count0, Hk0, <-list_fmap_compose by done. apply sumZ_fmap_ext.
    intros k Hk. by rewrite Hd0, decide_True. }
  pose proof (av_nonneg _ (quota_available s (conj Hwf (conj Hkn Hcr))) : ∀ k, 0 ≤ count0 d0 k) as Hnn.
  assert (od_wf d0) as Hw0 by (unfold od_wf; by rewrite Hk0).
  assert (0 ≤ sumZ (od_values d0)) as Hsn.
  { rewrite od_values_count0 by done. apply sumZ_nonneg, Forall_fmap, Forall_true. intros. apply Hnn. }
  assert (0 ≤ n0) as Hn0 by (unfold n0, quota; lia).
  set (avail := Z.max 0 (free_blocks s - c)). set (excess := Z.max 0 (n0 + sumZ (od_values d0) - avail)).
  rewrite modify_bind. set (m := Z.min excess n0).
  assert (scores_known (od_keys d0) (with_available n0 d0 s) = true) as Hkn' by (rewrite Hk0; exact Hkn).
  rewrite Hkn'. cbn [negb].
  set (sorted := py_sorted _ (od_keys d0)).
  pose proof (shave_spec sorted d0 (excess - m) Hw0) as Hg.
  destruct (foldl shave (d0, excess - m) sorted) as [d e'].
  destruct Hg as (Hk & He & Hsum & Hb & Hz & _); [..|exact Hnn|lia|].
  { apply NoDup_py_sorted, Hw0. }
  { intros k Hk. by apply elem_of_py_sorted in Hk. }
  assert (e' = 0 ∨ sumZ (od_values d) = 0) as Hz'.
  { destruct Hz as [?|Hz]; [by left|right]. apply sumZ_values_zero.
    - unfold od_wf. by rewrite Hk.
    - intros k Hkd. apply Hz. apply elem_of_py_sorted. by rewrite <-Hk. }
  assert (0 ≤ sumZ (od_values d)) as Hdn.
  { rewrite od_values_count0 by (unfold od_wf; by rewrite Hk).
    apply sumZ_nonneg, Forall_fmap, Forall_true. intros k. apply Hb. }
  exists (n0 - m), d. split; [reflexivity|]. split_and!.
  - split.
    + change (0 ≤ n0 - m). lia.
    + intros k. apply Hb.
    + cbn. unfold od_wf. by rewrite Hk.
    + change (scores_known (od_keys d) s = true). by rewrite Hk, Hk0.
  - by rewrite Hk.
  - unfold quotas. rewrite <-Hs0. change (quota s None) with n0. fold avail. lia.
  - change (quota s None) with n0. lia.
  - intros k Hkin. specialize (Hb k). rewrite Hd0, decide_True in Hb by done. lia.
Qed.

(** Recomputing the availability leaves every owner with at most
    its quota (its share of the plan less what it already uses) and all of
    them together with exactly what can be promised: the sum of the quotas or,
    when that is less, the free blocks not committed to accepted work.  No
    entry becomes negative, and nothing else changes. *)
Theorem update_available_exact s c :
  plan_ok s → committed set_order s = Some c →
  ∃ n d, update_available set_order s = Ret tt (with_available n d s)
    ∧ available_ok (with_available n d s)
    ∧ od_keys d = od_keys (reserved (plan s))
    ∧ n + sumZ (od_values d) = Z.min (quotas s) (Z.max 0 (free_blocks s - c))
    ∧ n ≤ quota s None
    ∧ (∀ k, k ∈ od_keys (reserved (plan s)) → count0 d k ≤ quota s (Some k)).
Proof. apply update_available_outcome. Qed.
End availability.
