(* ===== verification/ControllerSteady.v ===== *)
(** * The controller's settings

    No call of the scheduler on TokenCake's controller changes its settings,
    however the call ends. *)
From S2P Require Import Prelude PyFloat Metrics Protocol Config Request BlockPool KVCache Scoring Scheduling.
Import Controller.
Local Open Scope Z_scope.

Section steady.
Context {F : Type} `{FO : FloatOps F} `{FL : FloatLog1p F}.
Notation CM := (M (SchedulingController F)).
Implicit Types (s : SchedulingController F) (r : Request F).

Definition steady {A} (m : CM A) : Prop := ∀ s, settings (out_state (m s)) = settings s.

Lemma steady_ret {A} (a : A) : steady (mret a).
Proof. by intros s. Qed.
Lemma steady_raise {A} e : steady (raise e : CM A).
Proof. by intros s. Qed.
Lemma steady_bind {A B} (m : CM A) (k : A → CM B) : steady m → (∀ a, steady (k a)) → steady (m ≫= k).
Proof.
  intros Hm Hk s. rewrite bind_unfold. specialize (Hm s). destruct (m s); cbn in *; [by rewrite Hk|done].
Qed.
Lemma steady_get {B} (k : SchedulingController F → CM B) : (∀ s, steady (k s)) → steady (get_state ≫= k).
Proof. intros Hk s. rewrite get_bind. apply Hk. Qed.
Lemma steady_gets {A} (f : SchedulingController F → A) : steady (gets f).
Proof. by intros s. Qed.
Lemma steady_modify f : (∀ s, settings (f s) = settings s) → steady (modify f).
Proof. intros Hf s. apply Hf. Qed.
Lemma steady_if {A} (b : bool) (m m' : CM A) : steady m → steady m' → steady (if b then m else m').
Proof. by destruct b. Qed.
Lemma steady_forM {A} (l : list A) body : (∀ x, steady (body x)) → steady (forM l body).
Proof. intros Hb. induction l; cbn [forM]; [apply steady_ret|]. by apply steady_bind. Qed.
Lemma steady_zoom {T A} (get : SchedulingController F → T) set (m : M T A) :
  (∀ t s, settings (set t s) = settings s) → steady (zoom get set m).
Proof. intros Hf s. unfold zoom. destruct (m (get s)); cbn; apply Hf. Qed.
Lemma steady_kv {A} (m : M KVCacheManager A) : steady (kv m).
Proof. by apply steady_zoom. Qed.
Lemma steady_count m n : steady (Controller.count m n).
Proof. by apply steady_zoom. Qed.
Lemma steady_on_metrics m : steady (on_metrics m).
Proof. by apply steady_zoom. Qed.
Lemma steady_read_time clock : steady (read_time clock).
Proof. by intros s. Qed.
End steady.

Create HintDb steady.
#[export] Hint Resolve steady_ret steady_raise steady_gets steady_kv steady_count steady_on_metrics
  steady_read_time : steady.

Ltac steady :=
  repeat (intros; cbn beta zeta;
    match goal with
    | |- steady (get_state ≫= _) => apply steady_get
    | |- steady (_ ≫= _) => apply steady_bind
    | |- steady (if _ then _ else _) => apply steady_if
    | |- steady (forM _ _) => apply steady_forM
    | |- steady (match ?x with _ => _ end) => destruct x
    | |- steady (modify _) => solve [apply steady_modify; intros; repeat case_match; done]
    | |- steady _ => solve [eauto with steady nocore]
    end).

Section operations.
Context {F : Type} `{FO : FloatOps F} `{FL : FloatLog1p F}.
Notation CM := (M (SchedulingController F)).
Context (set_order : gset string → list string).
Context (time_time time_monotonic : nat → F).
Implicit Types (s : SchedulingController F) (r : Request F).

Lemma steady_uncommitted : steady (uncommitted_blocks set_order : CM _).
Proof. unfold uncommitted_blocks. steady. Qed.
Lemma steady_remaining_growth r b : steady (remaining_growth r b : CM _).
Proof. unfold remaining_growth. steady. Qed.
Lemma steady_admission_demand r computed blocks enc : steady (admission_demand r computed blocks enc : CM _).
Proof. unfold admission_demand. steady. Qed.
Lemma steady_consumption r demand b : steady (consumption r demand b : CM _).
Proof. unfold consumption. steady. Qed.
Lemma steady_cap_prefill a b : steady (cap_prefill a b : CM _).
Proof. unfold cap_prefill. steady. Qed.
Lemma steady_alter_history f k : steady (alter_history f k : CM _).
Proof. unfold alter_history, touch_history. steady. Qed.
Lemma steady_record_growth_wait r b : steady (record_growth_wait time_monotonic r b : CM _).
Proof. unfold record_growth_wait. steady. Qed.
Lemma steady_admission_metrics r d : steady (admission_metrics time_monotonic r d : CM _).
Proof. unfold admission_metrics. steady. Qed.
Lemma steady_cache_hits r a b bs : steady (cache_hits r a b bs : CM _).
Proof. unfold cache_hits. steady. Qed.
Lemma steady_charge ids offset o n : steady (charge ids offset o n : CM _).
Proof. unfold charge. steady. Qed.
Lemma steady_charge_all ids usage : ∀ offset, steady (charge_all ids offset usage : CM _).
Proof. induction usage as [|[o n] usage IH]; intros offset; cbn [charge_all]; steady. apply steady_charge. Qed.
End operations.
#[export] Hint Resolve steady_uncommitted steady_remaining_growth steady_admission_demand steady_consumption
  steady_cap_prefill steady_alter_history steady_record_growth_wait steady_admission_metrics steady_cache_hits
  steady_charge_all : steady.

Section operations.
Context {F : Type} `{FO : FloatOps F} `{FL : FloatLog1p F}.
Notation CM := (M (SchedulingController F)).
Context (set_order : gset string → list string).
Context (time_time time_monotonic : nat → F).
Implicit Types (s : SchedulingController F) (r : Request F).

Lemma steady_update_available : steady (update_available set_order : CM _).
Proof. unfold update_available. steady. Qed.
Lemma steady_history_of r f : steady (history_of r f : CM _).
Proof. unfold history_of. steady. Qed.
Lemma steady_can_grow r n : steady (can_grow time_monotonic set_order r n : CM _).
Proof. unfold can_grow. steady. Qed.
Lemma steady_defer_cache_lookup r n bs : steady (defer_cache_lookup set_order r n bs : CM _).
Proof. unfold defer_cache_lookup. steady. Qed.
Lemma steady_active_prefix_affinity r : steady (active_prefix_affinity r : CM _).
Proof. unfold active_prefix_affinity. steady. Qed.
End operations.
#[export] Hint Resolve steady_update_available steady_history_of steady_can_grow steady_defer_cache_lookup
  steady_active_prefix_affinity : steady.

Section operations.
Context {F : Type} `{FO : FloatOps F} `{FL : FloatLog1p F}.
Notation CM := (M (SchedulingController F)).
Context (set_order : gset string → list string).
Context (time_time time_monotonic : nat → F).
Implicit Types (s : SchedulingController F) (r : Request F).

Lemma steady_release : steady (release set_order : CM _).
Proof. unfold release. steady. Qed.
Lemma steady_record_commit r running enc b : steady (record_commit time_monotonic set_order r running enc b : CM _).
Proof. unfold record_commit. steady. Qed.
Lemma steady_victim r l a b f : steady (victim set_order r l a b f : CM _).
Proof. unfold victim. steady. Qed.
Lemma steady_defer r : steady (defer r : CM _).
Proof. unfold defer. steady. Qed.
Lemma steady_affinities {Q} (l : list (Request F * Q)) : steady (affinities l : CM _).
Proof. induction l; cbn [affinities]; steady. Qed.
Lemma steady_dict_of {V} (l : list (Request F)) keep (body : Request F → M _ V) :
  (∀ r, steady (body r)) → ∀ acc, steady (dict_of l keep body acc : CM _).
Proof.
  intros Hb. induction l as [|r l IH]; intros acc; cbn [dict_of]; [apply steady_ret|].
  apply steady_if; [apply steady_bind; [apply Hb|intros; apply IH]|apply IH].
Qed.
End operations.
#[export] Hint Resolve steady_release steady_record_commit steady_victim steady_defer steady_affinities : steady.

Section operations.
Context {F : Type} `{FO : FloatOps F} `{FL : FloatLog1p F}.
Notation CM := (M (SchedulingController F)).
Context (set_order : gset string → list string).
Context (time_time time_monotonic : nat → F).
Implicit Types (s : SchedulingController F) (r : Request F).

Lemma steady_promote {Q} (ls : list (list (Request F * Q))) : steady (promote ls : CM _).
Proof. induction ls; cbn [promote]; steady. Qed.
Lemma steady_remove_skipped id n : steady (remove_skipped set_order id n : CM _).
Proof. unfold remove_skipped. steady. Qed.
Lemma steady_preempt r b : steady (preempt time_monotonic set_order r b : CM _).
Proof. unfold preempt. steady. Qed.
Lemma steady_finish r : steady (finish time_monotonic r : CM _).
Proof. unfold finish. steady. Qed.
Lemma steady_commit r running enc nb b : steady (commit time_monotonic set_order r running enc nb b : CM _).
Proof. unfold commit. steady. Qed.
Lemma steady_replan requests counts times : steady (replan set_order requests counts times : CM _).
Proof. unfold replan. steady. Qed.
End operations.
#[export] Hint Resolve steady_promote steady_remove_skipped steady_preempt steady_finish steady_commit
  steady_replan : steady.

Section operations.
Context {F : Type} `{FO : FloatOps F} `{FL : FloatLog1p F}.
Notation CM := (M (SchedulingController F)).
Context (set_order : gset string → list string).
Context (time_time time_monotonic : nat → F).
Implicit Types (s : SchedulingController F) (r : Request F).

Lemma steady_order_candidates {Q} (l : list (Request F * Q)) : steady (order_candidates set_order l : CM _).
Proof. unfold order_candidates. steady. Qed.
Lemma steady_prepare_running r : steady (prepare_running set_order r : CM _).
Proof. unfold prepare_running. steady. Qed.
Lemma steady_can_allocate r a b bs c d e f : steady (can_allocate set_order r a b bs c d e f : CM _).
Proof. unfold can_allocate. steady. Qed.
Lemma steady_begin_step waiting running : steady (begin_step time_time set_order waiting running : CM _).
Proof.
  unfold begin_step. steady; [|by apply steady_dict_of; intros; steady..].
  apply steady_modify. intros s'. revert s'. induction running as [|r l IH]; intros s'; [done|]. cbn [foldl]. rewrite IH.
  unfold adopt_running. by repeat case_match.
Qed.
End operations.
#[export] Hint Resolve steady_order_candidates steady_prepare_running steady_can_allocate steady_begin_step : steady.

Section events.
Context {F : Type} `{FO : FloatOps F} `{FL : FloatLog1p F}.
Context (time_monotonic : nat → F).
Notation CM := (M (SchedulingController F)).

Lemma steady_associate id d : steady (associate time_monotonic id d : CM _).
Proof. unfold associate. steady. Qed.
Lemma steady_executed o ids failed : steady (executed o ids failed : CM _).
Proof. unfold executed. steady. Qed.
End events.
#[export] Hint Resolve steady_associate steady_executed : steady.
