(* ===== verification/LedgerFacts.v ===== *)
(** * The ledger of the scheduling controller

    Which owner each occupied block is charged to, and the invariant that the
    usage counters, the plan and the availability stay consistent with it over
    any sequence of calls. *)
From S2P Require Import Prelude PyFloat Metrics Protocol Config Request BlockPool KVCache Scoring Scheduling SchedulingFacts.
Import Controller.
Local Open Scope Z_scope.

Section ledger.
Context {F : Type} `{FO : FloatOps F} `{FL : FloatLog1p F}.
Context (set_order : gset string → list string).
Context (set_order_elements : ∀ X, set_order X ≡ₚ elements X).
Context (time_time time_monotonic : nat → F).
Implicit Types (s : SchedulingController F) (r : Request F) (c : gmap nat (option string)).

(** The blocks charged to an owner. *)
Definition charged_to (o : option string) c : Z := Z.of_nat (size (filter (λ '(_, o'), o' = o) c)).

Definition ledger_ok s : Prop := ∀ o, used_by o s = charged_to o (charges s).

Lemma charged_insert o b o' c :
  c !! b = None → charged_to o (<[b := o']> c) = charged_to o c + (if decide (o' = o) then 1 else 0).
Proof.
  intros Hb. unfold charged_to. case_decide.
  - rewrite map_filter_insert_True by done. rewrite map_size_insert_None; [lia|].
    apply map_lookup_filter_None. by left.
  - rewrite map_filter_insert_False by done. rewrite delete_id by done. lia.
Qed.

Lemma counter_of_spec c o : default 0 (counter_of c !! o) = charged_to o c.
Proof.
  unfold counter_of. apply (map_fold_weak_ind (λ m c, default 0 (m !! o) = charged_to o c)).
  - done.
  - intros b o' c' m Hb IH. rewrite charged_insert by done. destruct (decide (o' = o)) as [->|Hne].
    + rewrite lookup_insert_eq. simpl. lia.
    + rewrite lookup_insert_ne by done. lia.
Qed.

(** Charging fresh blocks to an owner. *)
Definition charge_blocks (o : option string) (bs : list nat) c : gmap nat (option string) :=
  foldl (λ c b, <[b := o]> c) c bs.

Lemma charge_blocks_spec o o' bs : ∀ c,
  NoDup bs → (∀ b, b ∈ bs → c !! b = None) →
  charged_to o (charge_blocks o' bs c) = charged_to o c + (if decide (o' = o) then zlen bs else 0)
  ∧ (∀ b, charge_blocks o' bs c !! b = if decide (b ∈ bs) then Some o' else c !! b).
Proof.
  induction bs as [|b bs IH]; intros c Hnd Hb; cbn [charge_blocks foldl].
  { split; [unfold zlen; simpl; case_decide; lia|]. intros b. by rewrite decide_False by by intros ?%elem_of_nil. }
  apply NoDup_cons in Hnd as [Hn Hnd].
  destruct (IH (<[b := o']> c) Hnd) as [Hc Hl].
  { intros i Hi. rewrite lookup_insert_ne by (by intros ->). apply Hb. by right. }
  fold (charge_blocks o' bs (<[b := o']> c)). split.
  - rewrite Hc, charged_insert by (apply Hb; by left). unfold zlen. cbn [length]. case_decide; lia.
  - intros i. rewrite Hl. destruct (decide (i ∈ bs)) as [Hi|Hi].
    + by rewrite decide_True by by right.
    + destruct (decide (i = b)) as [->|Hne].
      * by rewrite lookup_insert_eq, decide_True by by left.
      * rewrite lookup_insert_ne, decide_False by (by intros [?|?]%elem_of_cons || done). done.
Qed.

(** *** The plan *)
Lemma mapM_keys {V W} (f : string * V → option (string * W)) l l' :
  (∀ x y, f x = Some y → y.1 = x.1) → mapM f l = Some l' → od_keys l' = od_keys l.
Proof.
  intros Hf. revert l'. induction l as [|x l IH]; intros l'; cbn [mapM].
  { by intros [= <-]. }
  destruct (f x) as [y|] eqn:Hy; [|done]. cbn [mbind option_bind]. destruct (mapM f l) as [l1|]; [|done].
  intros [= <-]. unfold od_keys in *. cbn [fmap list_fmap]. f_equal; [by apply Hf|by apply IH].
Qed.

Lemma mapM_keyed {V} (f : string → option (string * V)) l l' :
  (∀ k y, f k = Some y → y.1 = k) → mapM f l = Some l' → od_keys l' = l.
Proof.
  intros Hf. revert l'. induction l as [|x l IH]; intros l'; cbn [mapM].
  { by intros [= <-]. }
  destruct (f x) as [y|] eqn:Hy; [|done]. cbn [mbind option_bind]. destruct (mapM f l) as [l1|]; [|done].
  intros [= <-]. unfold od_keys in *. cbn [fmap list_fmap]. f_equal; [by apply Hf|by apply IH].
Qed.

Lemma add_one_keys extra : ∀ counts : odict string Z, od_keys (foldl add_one counts extra) = od_keys counts.
Proof. induction extra as [|e extra IH]; intros counts; [done|]. cbn [foldl]. rewrite IH. apply od_keys_alter. Qed.

(** Whatever the rounding, the reservations of a plan are distinct and scored. *)
Lemma partition_plan_ok scores importance used total rr cr (p : CapacityPlan F) :
  partition_capacity set_order scores importance used total rr cr = Some p →
  od_wf (reserved p) ∧ (∀ k, k ∈ od_keys (reserved p) → k ∈ od_keys (plan_scores p))
  ∧ (∀ k, k ∈ critical p → k ∈ od_keys (reserved p)).
Proof.
  unfold partition_capacity. set (ranking := py_sorted _ (od_keys scores)).
  destruct (f_trunc (fmul (f_of_Z (zlen ranking)) cr)) as [n|]; cbn [mbind option_bind]; [|done].
  set (C := list_to_set (slice_to (Z.max 1 n) ranking)).
  destruct (if bool_decide (C = ∅) then _ else _) as [R|]; cbn [mbind option_bind]; [|done].
  set (keys := py_sorted str_ltb (set_order C)).
  destruct (mapM _ keys) as [weights|] eqn:Hw; cbn [mbind option_bind]; [|done].
  destruct (mapM _ weights) as [exact|] eqn:He; cbn [mbind option_bind]; [|done].
  destruct (mapM _ exact) as [counts|] eqn:Hc; cbn [mbind option_bind]; [|done].
  intros [= <-]. cbn [reserved plan_scores critical].
  apply mapM_keyed in Hw.
  2:{ intros k y Hy. destruct (weight _ _ _ _ _); by simplify_eq/=. }
  apply mapM_keys in He.
  2:{ intros [k w] y Hy. destruct (py_div _ _); by simplify_eq/=. }
  apply mapM_keys in Hc.
  2:{ intros [k w] y Hy. destruct (f_trunc _); by simplify_eq/=. }
  assert (keys ≡ₚ elements C) as Hk by (unfold keys; by rewrite py_sorted_Permutation).
  unfold od_wf. rewrite add_one_keys, Hc, He, Hw. split_and!.
  - rewrite Hk. apply NoDup_elements.
  - intros k Hin. rewrite Hk in Hin. apply elem_of_elements in Hin. unfold C in Hin.
    apply elem_of_list_to_set in Hin. unfold slice_to in Hin.
    apply elem_of_take in Hin as (i & Hi & _). apply list_elem_of_lookup_2 in Hi.
    unfold ranking in Hi. by apply elem_of_py_sorted in Hi.
  - intros k Hin. rewrite Hk. by apply elem_of_elements.
Qed.

(** *** Computations that keep the accounting consistent *)
(** The counters agree with the ledger, the availability and the plan are
    consistent, and every critical agent type has a reservation. *)
Record accounts_ok s : Prop := {
  ac_ledger : ledger_ok s;
  ac_available : available_ok s;
  ac_plan : plan_ok s;
  ac_critical k : k ∈ critical (plan s) → k ∈ od_keys (reserved_available s)
}.

(** A state with the same ledger, plan and availability. *)
Definition same_accounts s s' : Prop :=
  charges s' = charges s ∧ used s' = used s ∧ plan s' = plan s
  ∧ shared_available s' = shared_available s ∧ reserved_available s' = reserved_available s
  ∧ accounting_active s' = accounting_active s.

(** Predicates of the accounts, and computations that preserve them however
    they end. *)
Class Accounting (P : SchedulingController F → Prop) :=
  accounting s s' : same_accounts s s' → P s → P s'.

Definition keeps (P : SchedulingController F → Prop) {A} (m : M (SchedulingController F) A) : Prop :=
  ∀ s, P s → match m s with Ret _ s' | Exc _ s' => P s' end.

#[export] Instance accounts_ok_accounting : Accounting accounts_ok.
Proof.
  intros s s' (E1 & E2 & E3 & E4 & E5 & _) [Hl [] Hp Hc]. split.
  - intros o. unfold used_by. rewrite E1, E2. apply Hl.
  - split; rewrite ?E4, ?E5; try done. unfold scores_known in *. by rewrite E3.
  - unfold plan_ok, scores_known in *. by rewrite E3.
  - by rewrite E3, E5.
Qed.

#[export] Instance plan_active_accounting : Accounting (λ s, plan_ok s ∧ accounting_active s = true).
Proof.
  intros s s' (_ & _ & E3 & _ & _ & E6) [Hp Ha]. unfold plan_ok, scores_known in *. by rewrite E3, E6.
Qed.

#[export] Instance charges_accounting (c : gmap nat (option string)) : Accounting (λ s, charges s = c).
Proof. intros s s' (E1 & _) ?. by rewrite E1. Qed.

Section rules.
Context (P : SchedulingController F → Prop) `{HP : Accounting P}.

Lemma keeps_ret {A} (a : A) : keeps P (mret a).
Proof. by intros s. Qed.
Lemma keeps_raise {A} e : keeps P (raise e : M _ A).
Proof. by intros s. Qed.
Lemma keeps_bind {A B} (m : M _ A) (k : A → M _ B) : keeps P m → (∀ a, keeps P (k a)) → keeps P (m ≫= k).
Proof.
  intros Hm Hk s Hs. rewrite bind_unfold. specialize (Hm s Hs). destruct (m s); [by apply Hk|done].
Qed.
Lemma keeps_get {B} (k : SchedulingController F → M _ B) : (∀ s, keeps P (k s)) → keeps P (get_state ≫= k).
Proof. intros Hk s Hs. rewrite get_bind. by apply Hk. Qed.
Lemma keeps_gets {A} (f : SchedulingController F → A) : keeps P (gets f).
Proof. by intros s. Qed.
Lemma keeps_modify f : (∀ s, P s → P (f s)) → keeps P (modify f).
Proof. intros Hf s Hs. by apply Hf. Qed.
Lemma keeps_if {A} (b : bool) (m m' : M _ A) : keeps P m → keeps P m' → keeps P (if b then m else m').
Proof. by destruct b. Qed.
Lemma keeps_forM {A} (l : list A) body : (∀ x, keeps P (body x)) → keeps P (forM l body).
Proof. intros Hb. induction l; cbn [forM]; [apply keeps_ret|]. by apply keeps_bind. Qed.
Lemma keeps_set f : (∀ s, same_accounts s (f s)) → keeps P (modify f).
Proof. intros Hf. apply keeps_modify. intros s. by apply accounting. Qed.
Lemma keeps_zoom {T A} (get : SchedulingController F → T) set (m : M T A) :
  (∀ t s, same_accounts s (set t s)) → keeps P (zoom get set m).
Proof. intros Hf s Hs. unfold zoom. destruct (m (get s)); by eapply accounting. Qed.
Lemma keeps_kv {A} (m : M KVCacheManager A) : keeps P (kv m).
Proof. by apply keeps_zoom. Qed.
Lemma keeps_count m n : keeps P (Controller.count m n).
Proof. by apply keeps_zoom. Qed.
Lemma keeps_on_metrics m : keeps P (on_metrics m).
Proof. by apply keeps_zoom. Qed.
Lemma keeps_read_time clock : keeps P (read_time clock).
Proof. intros s. by apply accounting. Qed.
End rules.
End ledger.

#[export] Hint Resolve keeps_ret keeps_raise keeps_gets keeps_kv keeps_count keeps_on_metrics
  keeps_read_time : keeps.
#[export] Hint Extern 1 (Accounting _) => apply _ : keeps.

(** Follow the code: a bind, a branch, an update of an unrelated attribute. *)
Ltac keeps :=
  repeat (intros; cbn beta zeta;
    match goal with
    | |- keeps _ (get_state ≫= _) => apply keeps_get
    | |- keeps _ (_ ≫= _) => apply keeps_bind
    | |- keeps _ (if _ then _ else _) => apply keeps_if
    | |- keeps _ (forM _ _) => apply keeps_forM
    | |- keeps _ (match ?x with _ => _ end) => destruct x
    | |- keeps _ (modify _) =>
        solve [apply keeps_set; [apply _|]; intros; repeat case_match; by split_and!]
    | |- keeps _ _ => solve [eauto with keeps nocore]
    end).

(** ** Every operation keeps the accounts *)
Section operations.
Context {F : Type} `{FO : FloatOps F} `{FL : FloatLog1p F}.
Context (set_order : gset string → list string).
Context (set_order_elements : ∀ X, set_order X ≡ₚ elements X).
Context (time_time time_monotonic : nat → F).
Implicit Types (s : SchedulingController F) (r : Request F) (c : gmap nat (option string)).

(** However it ends, the recomputation only replaces the availability, by a
    consistent one. *)
Lemma update_available_state s :
  plan_ok s → ∃ n d, available_ok (with_available n d s) ∧ od_keys d = od_keys (reserved (plan s))
    ∧ match update_available set_order s with Ret _ s' | Exc _ s' => s' = with_available n d s end.
Proof.
  intros Hp. destruct (committed set_order s) as [c|] eqn:Hc.
  - destruct (update_available_outcome set_order s c Hp Hc) as (n & d & Hrun & Hok & Hk & _).
    exists n, d. by rewrite Hrun.
  - exists (quota s None), (quota_dict s). split_and!; [by apply quota_available|apply quota_dict_keys|].
    unfold update_available. rewrite !modify_bind, bind_unfold. unfold uncommitted_blocks. rewrite get_bind.
    change (committed set_order _) with (committed set_order s). by rewrite Hc.
Qed.

Lemma with_available_ok n d s :
  plan_ok s → ledger_ok s → available_ok (with_available n d s) → od_keys d = od_keys (reserved (plan s)) →
  accounts_ok (with_available n d s).
Proof.
  intros Hp Hl Ha Hk. split; [exact Hl|exact Ha|exact Hp|].
  intros k Hc. change (k ∈ od_keys d). rewrite Hk. by apply Hp.
Qed.

Lemma keeps_update_available : keeps accounts_ok (update_available set_order).
Proof.
  intros s Hs. destruct (update_available_state s (ac_plan _ Hs)) as (n & d & Ha & Hk & Hrun).
  destruct (update_available set_order s) as [? s'|? s']; subst s'; apply with_available_ok; by try apply Hs.
Qed.

(** [release] restores the ledger from the charges of the referenced blocks. *)
Definition occupied s : gmap nat (option string) :=
  filter (λ '(b, _), 0 < ref_cnt (block_of (block_pool (manager s)) b)) (charges s).

Lemma release_state s :
  plan_ok s → accounting_active s = true →
  match release set_order s with
  | Ret _ s' | Exc _ s' => accounts_ok s' ∧ charges s' = occupied s
  end.
Proof.
  intros Hp Ha. unfold release. rewrite get_bind, Ha. cbn [negb]. rewrite !modify_bind.
  set (s1 := put_used _ _).
  assert (ledger_ok s1) as Hl by (intros o; apply counter_of_spec).
  destruct (update_available_state s1 Hp) as (n & d & Hav & Hk & Hrun).
  destruct (update_available set_order s1) as [? s'|? s']; subst s'; (split; [by apply with_available_ok|done]).
Qed.

Lemma keeps_release : keeps accounts_ok (release set_order).
Proof.
  intros s Hs. destruct (accounting_active s) eqn:Ha.
  - pose proof (release_state s (ac_plan _ Hs) Ha) as Hr. destruct (release set_order s); apply Hr.
  - unfold release. by rewrite get_bind, Ha.
Qed.
End operations.

#[export] Hint Resolve keeps_update_available keeps_release : keeps.

Section calls.
Context {F : Type} `{FO : FloatOps F} `{FL : FloatLog1p F}.
Context (set_order : gset string → list string).
Context (set_order_elements : ∀ X, set_order X ≡ₚ elements X).
Context (time_time time_monotonic : nat → F).
Implicit Types (s : SchedulingController F) (r : Request F) (P : SchedulingController F → Prop).

Lemma keeps_associate id d P `{!Accounting P} : keeps P (associate time_monotonic id d).
Proof. unfold associate. keeps. Qed.
Lemma keeps_uncommitted P : keeps P (uncommitted_blocks set_order).
Proof. unfold uncommitted_blocks. keeps. Qed.
Lemma keeps_remaining_growth r b P `{!Accounting P} : keeps P (remaining_growth r b).
Proof. unfold remaining_growth. keeps. Qed.
Lemma keeps_admission_demand r computed blocks enc P `{!Accounting P} :
  keeps P (admission_demand r computed blocks enc).
Proof. unfold admission_demand. keeps. Qed.
Lemma keeps_consumption r demand b P : keeps P (consumption r demand b).
Proof. unfold consumption. keeps. Qed.
End calls.
#[export] Hint Resolve keeps_associate keeps_uncommitted keeps_remaining_growth keeps_admission_demand
  keeps_consumption : keeps.

Section more_calls.
Context {F : Type} `{FO : FloatOps F} `{FL : FloatLog1p F}.
Context (set_order : gset string → list string).
Context (set_order_elements : ∀ X, set_order X ≡ₚ elements X).
Context (time_time time_monotonic : nat → F).
Implicit Types (s : SchedulingController F) (r : Request F) (P : SchedulingController F → Prop).

Lemma keeps_remove_skipped id n : keeps accounts_ok (remove_skipped set_order id n).
Proof. unfold remove_skipped. keeps. Qed.
Lemma keeps_cap_prefill a b P `{!Accounting P} : keeps P (cap_prefill a b).
Proof. unfold cap_prefill. keeps. Qed.
Lemma keeps_defer_cache_lookup r n bs P `{!Accounting P} : keeps P (defer_cache_lookup set_order r n bs).
Proof. unfold defer_cache_lookup. keeps. Qed.
Lemma keeps_alter_history f k P `{!Accounting P} : keeps P (alter_history f k).
Proof. unfold alter_history, touch_history. keeps. Qed.
Lemma keeps_record_growth_wait r b P `{!Accounting P} : keeps P (record_growth_wait time_monotonic r b).
Proof. unfold record_growth_wait. keeps. Qed.
Lemma keeps_admission_metrics r d P `{!Accounting P} : keeps P (admission_metrics time_monotonic r d).
Proof. unfold admission_metrics. keeps. Qed.
Lemma keeps_cache_hits r a b bs P `{!Accounting P} : keeps P (cache_hits r a b bs).
Proof. unfold cache_hits. keeps. Qed.
Lemma keeps_executed o x y P `{!Accounting P} : keeps P (executed o x y).
Proof. unfold executed. keeps. Qed.
End more_calls.
#[export] Hint Resolve keeps_remove_skipped keeps_cap_prefill keeps_defer_cache_lookup keeps_alter_history
  keeps_record_growth_wait keeps_admission_metrics keeps_cache_hits keeps_executed : keeps.

Section last_calls.
Context {F : Type} `{FO : FloatOps F} `{FL : FloatLog1p F}.
Context (set_order : gset string → list string).
Context (set_order_elements : ∀ X, set_order X ≡ₚ elements X).
Context (time_time time_monotonic : nat → F).
Implicit Types (s : SchedulingController F) (r : Request F) (P : SchedulingController F → Prop).

Lemma keeps_history_of r f P `{!Accounting P} : keeps P (history_of r f).
Proof. unfold history_of. keeps. Qed.
Lemma keeps_can_allocate r a b bs c d e f : keeps accounts_ok (can_allocate set_order r a b bs c d e f).
Proof. unfold can_allocate. keeps. Qed.
Lemma keeps_can_grow r n P `{!Accounting P} : keeps P (can_grow time_monotonic set_order r n).
Proof. unfold can_grow. keeps. Qed.
Lemma keeps_victim r l a b f : keeps accounts_ok (victim set_order r l a b f).
Proof. unfold victim. keeps. Qed.
Lemma keeps_finish r P `{!Accounting P} : keeps P (finish time_monotonic r).
Proof. unfold finish. keeps. Qed.
Lemma keeps_active_prefix_affinity r P `{!Accounting P} : keeps P (active_prefix_affinity r).
Proof. unfold active_prefix_affinity. keeps. Qed.
End last_calls.
#[export] Hint Resolve keeps_history_of keeps_can_allocate keeps_can_grow keeps_victim keeps_finish
  keeps_active_prefix_affinity : keeps.

Section ordering_calls.
Context {F : Type} `{FO : FloatOps F} `{FL : FloatLog1p F}.
Context (set_order : gset string → list string).
Context (set_order_elements : ∀ X, set_order X ≡ₚ elements X).
Context (time_time time_monotonic : nat → F).
Context {Q : Type}.
Implicit Types (s : SchedulingController F) (r : Request F) (P : SchedulingController F → Prop).

Lemma keeps_defer r P `{!Accounting P} : keeps P (defer r).
Proof. unfold defer. keeps. Qed.
Lemma keeps_preempt r b : keeps accounts_ok (preempt time_monotonic set_order r b).
Proof. unfold preempt. keeps. Qed.
Lemma keeps_affinities P `{!Accounting P} (l : list (Request F * Q)) : keeps P (affinities l).
Proof. induction l; cbn [affinities]; keeps. Qed.
Lemma keeps_promote P `{!Accounting P} (ls : list (list (Request F * Q))) : keeps P (promote ls).
Proof. induction ls; cbn [promote]; keeps; by apply keeps_affinities. Qed.
Lemma keeps_order_candidates P `{!Accounting P} (l : list (Request F * Q)) :
  keeps P (order_candidates set_order l).
Proof. unfold order_candidates. keeps. by apply keeps_promote. Qed.
End ordering_calls.
#[export] Hint Resolve keeps_defer keeps_preempt keeps_order_candidates : keeps.

(** ** [begin_step] *)
Section begin.
Context {F : Type} `{FO : FloatOps F} `{FL : FloatLog1p F}.
Context (set_order : gset string → list string).
Context (set_order_elements : ∀ X, set_order X ≡ₚ elements X).
Context (time_time time_monotonic : nat → F).
Implicit Types (s : SchedulingController F) (r : Request F) (P Q : SchedulingController F → Prop).

(** A normal return from [P] is in [Q]. *)
Definition ends {A} P (m : M (SchedulingController F) A) Q : Prop :=
  ∀ s, P s → match m s with Ret _ s' => Q s' | Exc _ _ => True end.

Lemma ends_bind {A B} P R Q (m : M _ A) (k : A → M _ B) :
  ends P m R → (∀ a, ends R (k a) Q) → ends P (m ≫= k) Q.
Proof.
  intros Hm Hk s Hs. rewrite bind_unfold. specialize (Hm s Hs). destruct (m s); [by apply Hk|done].
Qed.
Lemma ends_keeps {A} P (m : M _ A) : keeps P m → ends P m P.
Proof. intros Hm s Hs. specialize (Hm s Hs). by destruct (m s). Qed.
Lemma ends_get {B} P Q (k : SchedulingController F → M _ B) : (∀ s, ends P (k s) Q) → ends P (get_state ≫= k) Q.
Proof. intros Hk s Hs. rewrite get_bind. by apply Hk. Qed.

Definition plan_active s : Prop := plan_ok s ∧ accounting_active s = true.

Lemma keeps_dict_of {V} P (l : list (Request F)) keep (body : Request F → M _ V) :
  (∀ r, keeps P (body r)) → ∀ acc, keeps P (dict_of l keep body acc).
Proof.
  intros Hb. induction l as [|r l IH]; intros acc; cbn [dict_of]; [apply keeps_ret|].
  apply keeps_if; [apply keeps_bind; [apply Hb|intros; apply IH]|apply IH].
Qed.

Lemma keeps_replan requests counts times : keeps plan_active (replan set_order requests counts times).
Proof.
  unfold replan. apply keeps_get. intros s0. destruct (foldl _ _ requests) as [importances in_use].
  apply keeps_bind; [apply (keeps_set (λ s, plan_ok s ∧ accounting_active s = true)); by intros; split_and!|intros _].
  apply keeps_get. intros s1.
  destruct (partition_capacity _ _ _ _ _ _ _) as [p|] eqn:Hp; [|apply keeps_raise].
  apply partition_plan_ok in Hp as (Hwf & Hk & Hc); [|done].
  apply keeps_modify. intros s [_ Ha]. split; [|exact Ha]. split_and!; [exact Hwf| |exact Hc].
  unfold scores_known. apply forallb_forall. intros k Hin%list_elem_of_In. by apply od_mem_true, Hk.
Qed.

Lemma accounts_cleared s : accounts_ok s → accounts_ok (reset_accounting s).
Proof.
  intros [Hl Ha Hp Hc]. split; [|by destruct Ha; split|exact Hp|exact Hc].
  intros o. unfold charged_to. change (charges (reset_accounting s)) with (∅ : gmap nat (option string)).
  rewrite map_filter_empty. done.
Qed.

Lemma begin_step_accounts waiting running :
  ends accounts_ok (begin_step time_time set_order waiting running) accounts_ok.
Proof.
  unfold begin_step. eapply ends_bind; [apply ends_keeps; keeps|intros _]. apply ends_get. intros s0.
  destruct (bool_decide (metadata s0 = [])).
  { apply ends_keeps. apply keeps_bind; [apply keeps_modify; intros; by apply accounts_cleared|keeps]. }
  eapply ends_bind; [apply ends_keeps; keeps|intros now]. cbn zeta.
  eapply ends_bind.
  { apply ends_keeps, keeps_set; [apply _|]. intros s. clear. revert s.
    induction running as [|r l IH]; intros s; cbn [foldl]; [by split_and!|].
    destruct (IH (adopt_running s r)) as (? & ? & ? & ? & ? & ?). by split_and!. }
  intros _. apply ends_get. intros s1.
  eapply ends_bind; [apply ends_keeps, keeps_dict_of; keeps|intros growth].
  eapply ends_bind; [apply ends_keeps; keeps|intros _].
  eapply ends_bind.
  { apply ends_keeps. destruct (_ || _); [|keeps]. apply keeps_bind; [apply keeps_dict_of; keeps|keeps]. }
  intros _. eapply ends_bind; [apply ends_keeps, keeps_dict_of; keeps|intros own].
  eapply ends_bind; [apply ends_keeps; keeps|intros _].
  eapply ends_bind; [apply ends_keeps; keeps|intros _].
  eapply ends_bind; [apply ends_keeps; keeps|intros _].
  eapply (ends_bind _ plan_active).
  { intros s [Hl Ha Hp Hc]. unfold modify. destruct (accounting_active s) eqn:E; by split. }
  intros _. apply ends_get. intros s2.
  destruct (foldl _ _ waiting) as [[counts best] times].
  assert (Accounting plan_active) as HPA by apply plan_active_accounting.
  eapply ends_bind; [apply ends_keeps; keeps|intros _].
  eapply ends_bind; [apply ends_keeps, keeps_if; [apply keeps_replan|keeps]|intros _].
  eapply ends_bind; [apply ends_keeps; keeps|intros _].
  eapply (ends_bind _ accounts_ok); [|intros _; apply ends_keeps; keeps].
  intros s [Hp Ha]. pose proof (release_state set_order s Hp Ha) as Hr. by destruct (release set_order s); try apply Hr.
Qed.
End begin.

(** ** [commit] *)
Section commit.
Context {F : Type} `{FO : FloatOps F} `{FL : FloatLog1p F}.
Context (set_order : gset string → list string).
Context (set_order_elements : ∀ X, set_order X ≡ₚ elements X).
Context (time_monotonic : nat → F).
Implicit Types (s : SchedulingController F) (r : Request F) (u : odict (option string) Z).

(** The blocks a usage list takes from an owner. *)
Definition amount (o : option string) u : Z := default 0 (od_get o u).

(** What charging a usage list to the blocks [bs] does to the accounts. *)
Record charged (bs : list nat) u s s' : Prop := {
  cg_owner b : b ∈ bs → ∃ o, charges s' !! b = Some o ∧ o ∈ od_keys u;
  cg_other b : b ∉ bs → charges s' !! b = charges s !! b;
  cg_count o : charged_to o (charges s') = charged_to o (charges s) + amount o u;
  cg_used o : used_by o s' = used_by o s + amount o u;
  cg_shared : 0 ≤ shared_available s → shared_available s' = Z.max 0 (shared_available s - amount None u);
  cg_reserved k : count0 (reserved_available s') k = count0 (reserved_available s) k - amount (Some k) u;
  cg_keys : od_keys (reserved_available s') = od_keys (reserved_available s);
  cg_plan : plan s' = plan s;
  cg_rest : ∃ c us n d, s' = put_reserved_available d (put_shared_available n (put_used us (put_charges c s)))
}.

Lemma charge_spec ids offset o n s :
  0 ≤ n → (match o with Some k => k ∈ od_keys (reserved_available s) | None => True end) →
  let bs := take (Z.to_nat n) (drop offset ids) in
  NoDup bs → zlen bs = n → (∀ b, b ∈ bs → charges s !! b = None) →
  ∃ s', charge ids offset o n s = Ret tt s' ∧ charged bs [(o, n)] s s'.
Proof.
  intros Hn Ho bs Hnd Hlen Hb. unfold charge. rewrite !modify_bind. fold bs.
  change (foldl _ (charges s) bs) with (charge_blocks o bs (charges s)).
  set (s1 := put_used _ _).
  assert (∀ o', charged_to o' (charge_blocks o bs (charges s)) = charged_to o' (charges s) + amount o' [(o, n)]
    ∧ used_by o' s1 = used_by o' s + amount o' [(o, n)]) as Hcount.
  { intros o'. destruct (charge_blocks_spec o' o bs (charges s) Hnd Hb) as [-> _].
    unfold amount, used_by, s1. cbn [od_get]. change (used (put_used _ _)) with (<[o := used_by o s + n]> (used s)).
    destruct (decide (o = o')) as [->|Hne].
    - rewrite lookup_insert_eq. simpl. unfold used_by. split; [lia|done].
    - rewrite lookup_insert_ne by done. simpl. split; lia. }
  assert (∀ b, charges s1 !! b = if decide (b ∈ bs) then Some o else charges s !! b) as Hl.
  { intros b. by destruct (charge_blocks_spec o o bs (charges s) Hnd Hb) as [_ Hl]. }
  assert (∀ s', charges s' = charges s1 → used s' = used s1 → plan s' = plan s →
    (0 ≤ shared_available s → shared_available s' = Z.max 0 (shared_available s - amount None [(o, n)])) →
    (∀ k, count0 (reserved_available s') k = count0 (reserved_available s) k - amount (Some k) [(o, n)]) →
    od_keys (reserved_available s') = od_keys (reserved_available s) →
    (∃ c us n d, s' = put_reserved_available d (put_shared_available n (put_used us (put_charges c s)))) →
    charged bs [(o, n)] s s') as Hdone.
  { intros s' Hc Hu Hp Hsh Hr Hk Hrest. split; try done.
    - intros b Hbin. exists o. rewrite Hc, Hl, decide_True by done. split; [done|]. by left.
    - intros b Hbin. by rewrite Hc, Hl, decide_False.
    - intros o'. rewrite Hc. apply Hcount.
    - intros o'. unfold used_by. rewrite Hu. apply Hcount. }
  destruct o as [k|].
  - rewrite get_bind. assert (od_mem k (reserved_available s1) = true) as -> by by apply od_mem_true.
    eexists. split; [reflexivity|]. apply Hdone; try done.
    + change (amount None [(Some k, n)]) with 0. cbn. lia.
    + intros j. change (reserved_available (put_reserved_available _ _)) with (od_alter (λ a, a - n) k (reserved_available s)).
      rewrite count0_alter by done. unfold amount. cbn [od_get].
      destruct (decide (k = j)) as [->|Hne]; [by rewrite decide_True by done|].
      rewrite decide_False by congruence. simpl. lia.
    + apply od_keys_alter.
    + exists (charges s1), (used s1), (shared_available s), (od_alter (λ a, a - n) k (reserved_available s)). done.
  - eexists. split; [reflexivity|]. apply Hdone; try done.
    + intros j. unfold amount. simpl. lia.
    + exists (charges s1), (used s1), (Z.max 0 (shared_available s - n)), (reserved_available s). done.
Qed.

Lemma amount_cons o n o' u :
  o ∉ od_keys u → amount o' ((o, n) :: u) = amount o' [(o, n)] + amount o' u.
Proof.
  intros Ho. unfold amount. cbn [od_get]. destruct (decide (o = o')) as [->|Hne]; [|simpl; lia].
  apply od_get_None in Ho. rewrite Ho. simpl. lia.
Qed.

Lemma amount_absent o u : o ∉ od_keys u → amount o u = 0.
Proof. intros Ho%od_get_None. unfold amount. by rewrite Ho. Qed.

Lemma charged_trans bs1 bs2 o n u s s1 s2 :
  o ∉ od_keys u → (∀ b, b ∈ bs1 → b ∉ bs2) →
  charged bs1 [(o, n)] s s1 → charged bs2 u s1 s2 → charged (bs1 ++ bs2) ((o, n) :: u) s s2.
Proof.
  intros Ho Hd [] []. split.
  - intros b [Hb|Hb]%elem_of_app.
    + rewrite cg_other1 by by apply Hd. destruct (cg_owner0 b Hb) as (o' & ? & Hin). exists o'. split; [done|].
      apply list_elem_of_singleton in Hin as ->. by left.
    + destruct (cg_owner1 b Hb) as (o' & ? & ?). exists o'. split; [done|by right].
  - intros b Hb. rewrite cg_other1, cg_other0; [done|..]; intros ?; apply Hb, elem_of_app; auto.
  - intros o'. rewrite amount_cons by done. rewrite cg_count1, cg_count0. lia.
  - intros o'. rewrite amount_cons by done. rewrite cg_used1, cg_used0. lia.
  - rewrite amount_cons by done. destruct (decide (o = None)) as [->|Hne].
    + rewrite (amount_absent None u) in * by done. intros Hs. specialize (cg_shared0 Hs). lia.
    + assert (amount None [(o, n)] = 0) as H0 by (unfold amount; cbn [od_get]; by rewrite decide_False).
      rewrite H0 in *. intros Hs. specialize (cg_shared0 Hs). lia.
  - intros k. rewrite amount_cons by done. rewrite cg_reserved1, cg_reserved0. lia.
  - congruence.
  - congruence.
  - destruct cg_rest0 as (c & us & m & d & ->), cg_rest1 as (c' & us' & m' & d' & ->).
    by exists c', us', m', d'.
Qed.

Lemma charge_all_spec ids u : ∀ offset s,
  sumZ (od_values u) = zlen (drop offset ids) → NoDup (od_keys u) →
  (∀ o n, (o, n) ∈ u → 0 ≤ n ∧ match o with Some k => k ∈ od_keys (reserved_available s) | None => True end) →
  NoDup ids → (∀ b, b ∈ drop offset ids → charges s !! b = None) →
  ∃ s', charge_all ids offset u s = Ret tt s' ∧ charged (drop offset ids) u s s'.
Proof.
  induction u as [|[o n] u IH]; intros offset s Hsum Hnd Hu Hids Hb.
  { exists s. split; [done|]. assert (drop offset ids = []) as -> by (destruct (drop offset ids); [done|unfold zlen, od_values in Hsum; cbn in Hsum; lia]).
    assert (∀ o, amount o [] = 0) as H0 by done.
    split; intros; rewrite ?H0; try done; try lia; [by exfalso; eapply not_elem_of_nil|].
    exists (charges s), (used s), (shared_available s), (reserved_available s). by destruct s. }
  unfold od_values, od_keys in Hsum, Hnd. cbn [fmap list_fmap fst snd sumZ foldr] in Hsum, Hnd.
  fold (sumZ (u.*2)) in Hsum. apply NoDup_cons in Hnd as [Ho Hnd].
  assert (0 ≤ sumZ (u.*2)) as Hpos.
  { apply sumZ_nonneg, Forall_fmap, Forall_forall. intros [o' n'] Hin. apply (Hu o' n'). by right. }
  destruct (Hu o n ltac:(by left)) as [Hn Hk].
  set (bs1 := take (Z.to_nat n) (drop offset ids)).
  assert (zlen bs1 = n) as Hlen by (unfold bs1, zlen in *; rewrite length_take; lia).
  assert (drop offset ids = bs1 ++ drop (offset + Z.to_nat n) ids) as Hsplit.
  { unfold bs1. rewrite <-drop_drop. by rewrite take_drop. }
  assert (NoDup (drop offset ids)) as Hnd' by (eapply sublist_NoDup; [exact Hids|apply sublist_drop]).
  rewrite Hsplit in Hnd'. apply NoDup_app in Hnd' as (Hnd1 & Hdis & _).
  destruct (charge_spec ids offset o n s Hn Hk Hnd1 Hlen) as (s1 & Hrun & Hc).
  { intros b Hbin. apply Hb. rewrite Hsplit. apply elem_of_app. by left. }
  destruct (IH (offset + Z.to_nat n)%nat s1) as (s2 & Hrun2 & Hc2); [|done| |done| |].
  - unfold od_values. rewrite Hsplit in Hsum. unfold zlen in *. rewrite length_app in Hsum. lia.
  - intros o' n' Hin. rewrite (cg_keys _ _ _ _ Hc). apply (Hu o' n'). by right.
  - intros b Hbin. rewrite (cg_other _ _ _ _ Hc); [apply Hb; rewrite Hsplit; apply elem_of_app; by right|].
    intros ?. by eapply Hdis.
  - exists s2. cbn [charge_all]. rewrite bind_unfold, Hrun. split; [done|]. rewrite Hsplit.
    by eapply charged_trans.
Qed.

Lemma amount_in o n u : NoDup (od_keys u) → (o, n) ∈ u → amount o u = n.
Proof. intros Hnd Hin. unfold amount. by rewrite (od_elem_get _ _ _ Hnd Hin). Qed.

(** Charging a usage list within the availability keeps the accounts. *)
Lemma charged_accounts bs u s s' :
  accounts_ok s → charged bs u s s' → (∀ k, amount (Some k) u ≤ count0 (reserved_available s) k) →
  accounts_ok s'.
Proof.
  intros [Hl [] Hp Hc] [] Hu. split.
  - intros o. rewrite cg_used0, cg_count0, Hl. done.
  - split.
    + rewrite cg_shared0 by done. lia.
    + intros k. rewrite cg_reserved0. specialize (Hu k). lia.
    + unfold od_wf. by rewrite cg_keys0.
    + unfold scores_known. by rewrite cg_keys0, cg_plan0.
  - unfold plan_ok, scores_known in *. by rewrite cg_plan0.
  - by rewrite cg_plan0, cg_keys0.
Qed.

#[export] Instance both_accounting P1 P2 : Accounting P1 → Accounting P2 → Accounting (λ s : SchedulingController F, P1 s ∧ P2 s).
Proof. intros H1 H2 s s' Hs [? ?]. split; by eapply accounting. Qed.

Lemma keeps_update_ledger c : keeps (λ s : SchedulingController F, accounts_ok s ∧ charges s = c) (update_available set_order).
Proof.
  intros s [Hs Hc]. destruct (update_available_state set_order s (ac_plan _ Hs)) as (n & d & Ha & Hk & Hrun).
  destruct (update_available set_order s) as [? s'|? s']; subst s'; (split; [apply with_available_ok; by try apply Hs|done]).
Qed.

Lemma keeps_record_commit c r running enc b :
  keeps (λ s, accounts_ok s ∧ charges s = c) (record_commit time_monotonic set_order r running enc b).
Proof.
  pose proof (keeps_update_ledger c).
  assert (Accounting (λ s : SchedulingController F, accounts_ok s ∧ charges s = c)) by apply _.
  unfold record_commit. keeps.
Qed.

Lemma uncharged_fresh r running nb s :
  NoDup (uncharged r running nb s) ∧ ∀ b, b ∈ uncharged r running nb s → charges s !! b = None.
Proof.
  unfold uncharged. split; [apply NoDup_py_sorted, NoDup_elements|].
  intros b Hb%elem_of_py_sorted%elem_of_elements%elem_of_difference. destruct Hb as [_ Hb].
  by apply not_elem_of_dom in Hb.
Qed.

Lemma commit_outcome r running enc nb b s :
  accounts_ok s →
  let ids := uncharged r running nb s in
  let out := commit time_monotonic set_order r running enc nb b s in
  if (zlen ids <=? reach r b s) || running || od_mem (request_id r) (admitted s)
  then ∃ u, (if zlen ids <=? reach r b s then usage_ok r b s (zlen ids) u else u = [(None, zlen ids)])
    ∧ accounts_ok (out_state out)
    ∧ (∀ i, i ∈ ids → ∃ o, charges (out_state out) !! i = Some o ∧ o ∈ od_keys u)
    ∧ (∀ i, i ∉ ids → charges (out_state out) !! i = charges s !! i)
    ∧ (∀ o, charged_to o (charges (out_state out)) = charged_to o (charges s) + amount o u)
  else out = Exc AssertionError s.
Proof.
  intros Hs ids out. destruct (uncharged_fresh r running nb s) as [Hnd Hfresh]. fold ids in Hnd, Hfresh.
  pose proof (consumption_outcome r (zlen ids) b s (ac_available _ Hs) ltac:(unfold zlen; lia)) as Hc.
  assert (∀ u, sumZ (od_values u) = zlen ids → NoDup (od_keys u) →
    (∀ o n, (o, n) ∈ u → 0 ≤ n ∧ match o with Some k => n ≤ count0 (reserved_available s) k
       ∧ k ∈ od_keys (reserved_available s) | None => True end) →
    out = (charge_all ids 0 u ;; record_commit time_monotonic set_order r running enc b) s →
    accounts_ok (out_state out)
    ∧ (∀ i, i ∈ ids → ∃ o, charges (out_state out) !! i = Some o ∧ o ∈ od_keys u)
    ∧ (∀ i, i ∉ ids → charges (out_state out) !! i = charges s !! i)
    ∧ (∀ o, charged_to o (charges (out_state out)) = charged_to o (charges s) + amount o u)) as Hrun.
  { intros u Hsum Hndu Hu Hout. destruct (charge_all_spec ids u 0 s Hsum Hndu) as (s1 & Hch & Hcg); [|done|done|].
    { intros o n Hin. destruct (Hu o n Hin) as [? Ho]. split; [done|]. destruct o; [apply Ho|done]. }
    rewrite drop_0 in Hcg.
    assert (accounts_ok s1) as Hs1.
    { eapply charged_accounts; [exact Hs|exact Hcg|]. intros k. destruct (decide (Some k ∈ od_keys u)) as [Hk|Hk].
      - apply list_elem_of_fmap in Hk as ([o n] & E & Hin). simpl in E. subst o.
        rewrite (amount_in _ n) by done. apply (Hu _ _ Hin).
      - rewrite amount_absent by done. apply (av_nonneg _ (ac_available _ Hs)). }
    pose proof (keeps_record_commit (charges s1) r running enc b s1 (conj Hs1 eq_refl)) as Hk.
    rewrite bind_unfold, Hch in Hout. rewrite Hout.
    assert (accounts_ok (out_state (record_commit time_monotonic set_order r running enc b s1))
      ∧ charges (out_state (record_commit time_monotonic set_order r running enc b s1)) = charges s1) as [Ha Hcs].
    { by destruct (record_commit _ _ _ _ _ _ s1). }
    rewrite Hcs. destruct Hcg. by split_and!. }
  assert (∀ usage, consumption r (zlen ids) b s = Ret usage s →
    out = match (if bool_decide (usage = None) && (running || od_mem (request_id r) (admitted s))
                 then Some [(None, zlen ids)] else usage) with
          | None => raise AssertionError
          | Some u => charge_all ids 0 u ;; record_commit time_monotonic set_order r running enc b
          end s) as Hout.
  { intros usage Hcons. unfold out, commit. rewrite get_bind. fold ids. by rewrite bind_unfold, Hcons. }
  clearbody out. destruct (zlen ids <=? reach r b s) eqn:Hle; cbn [orb].
  - destruct Hc as (u & Hcons & Hu). exists u. split; [exact Hu|]. specialize (Hout _ Hcons).
    rewrite bool_decide_eq_false_2 in Hout by done. cbn [andb] in Hout.
    apply Hrun; [apply Hu|apply Hu| |exact Hout].
    intros o n Hin. destruct (us_bounds _ _ _ _ _ Hu o n Hin) as [? Hb]. split; [done|].
    destruct o as [k|]; [|done]. split; [exact Hb|].
    destruct (us_known _ _ _ _ _ Hu k n Hin) as [?|Hcr]; [done|by apply Hs].
  - specialize (Hout _ Hc). rewrite bool_decide_eq_true_2 in Hout by done. cbn [andb] in Hout.
    destruct (running || od_mem (request_id r) (admitted s)) eqn:Hadm; [|done].
    exists [(None, zlen ids)]. split; [done|]. apply Hrun; [| | |exact Hout].
    + unfold od_values. simpl. lia.
    + apply NoDup_singleton.
    + intros o n [= -> ->]%list_elem_of_singleton. split; [unfold zlen; lia|done].
Qed.
(** Committing an allocation charges exactly its uncharged blocks:
    each gets an owner, no other charge changes, and each owner is charged what
    a usage list within the reach of the request takes from it.  When the
    blocks exceed that reach, work already accepted is charged to the shared
    capacity as a debt; other work fails the assertion before anything
    changes.  The accounts stay consistent however the call ends. *)
Theorem commit_charges r running enc nb b s :
  accounts_ok s →
  let ids := uncharged r running nb s in
  let out := commit time_monotonic set_order r running enc nb b s in
  if (zlen ids <=? reach r b s) || running || od_mem (request_id r) (admitted s)
  then ∃ u, (if zlen ids <=? reach r b s then usage_ok r b s (zlen ids) u else u = [(None, zlen ids)])
    ∧ accounts_ok (out_state out)
    ∧ (∀ i, i ∈ ids → ∃ o, charges (out_state out) !! i = Some o ∧ o ∈ od_keys u)
    ∧ (∀ i, i ∉ ids → charges (out_state out) !! i = charges s !! i)
    ∧ (∀ o, charged_to o (charges (out_state out)) = charged_to o (charges s) + amount o u)
  else out = Exc AssertionError s.
Proof. by apply commit_outcome. Qed.

Lemma keeps_commit r running enc nb b : keeps accounts_ok (commit time_monotonic set_order r running enc nb b).
Proof.
  intros s Hs. pose proof (commit_outcome r running enc nb b s Hs) as Hc. cbn zeta in Hc.
  destruct (_ || od_mem (request_id r) (admitted s)).
  - destruct Hc as (u & _ & Ha & _). by destruct (commit _ _ _ _ _ _ _ s).
  - by rewrite Hc.
Qed.
End commit.
#[export] Hint Resolve keeps_commit : keeps.

(** ** Sequences of calls *)
Section sequences.
Context {F : Type} `{FO : FloatOps F} `{FL : FloatLog1p F}.
Context (set_order : gset string → list string).
Context (set_order_elements : ∀ X, set_order X ≡ₚ elements X).
Context (time_time time_monotonic : nat → F).
Implicit Types (s : SchedulingController F) (r : Request F).

(** The scheduler's calls on the controller, and its own changes to the
    KV-cache manager in between. *)
Inductive controller_call :=
| CAssociate (id : string) (d : TokenCakeMetadata F)
| CBeginStep (waiting running : list (Request F))
| CRelease
| CPrepareRunning (r : Request F)
| CDeferLookup (r : Request F) (computed : Z) (blocks : list (list nat))
| CCanAllocate (r : Request F) (num_new computed : Z) (blocks : option (list (list nat)))
    (lookahead external encoder : Z) (borrow : bool)
| CCommit (r : Request F) (running : bool) (encoder : Z) (blocks : option (list (list nat))) (borrow : bool)
| CCanGrow (r : Request F) (num_new : Z)
| CDefer (r : Request F)
| CPreempt (r : Request F) (physical : bool)
| CFinish (r : Request F)
| CCacheHits (r : Request F) (gpu cpu : Z) (blocks : option (list (list nat)))
| CExecuted (o : SchedulerOutput) (executed_ids failed : gset string)
| COrder (l : list (Request F * bool))
| CVictim (r : Request F) (running : list (Request F)) (num_new lookahead : Z) (cost : option (Request F → Z))
| CCapPrefill (tokens budget : Z)
| CManager (k : KVCacheManager).

Definition drop_result {A} (m : M (SchedulingController F) A) : M (SchedulingController F) unit := m ;; mret tt.

Definition run_call (c : controller_call) : M (SchedulingController F) unit :=
  match c with
  | CAssociate id d => associate time_monotonic id d
  | CBeginStep w l => drop_result (begin_step time_time set_order w l)
  | CRelease => release set_order
  | CPrepareRunning r => prepare_running set_order r
  | CDeferLookup r n bs => drop_result (defer_cache_lookup set_order r n bs)
  | CCanAllocate r n c bs la e enc b => drop_result (can_allocate set_order r n c bs la e enc b)
  | CCommit r running enc bs b => commit time_monotonic set_order r running enc bs b
  | CCanGrow r n => drop_result (can_grow time_monotonic set_order r n)
  | CDefer r => defer r
  | CPreempt r b => preempt time_monotonic set_order r b
  | CFinish r => finish time_monotonic r
  | CCacheHits r g c bs => cache_hits r g c bs
  | CExecuted o ids failed => executed o ids failed
  | COrder l => drop_result (order_candidates set_order l)
  | CVictim r l n la f => drop_result (victim set_order r l n la f)
  | CCapPrefill t b => drop_result (cap_prefill t b)
  | CManager k => modify (put_manager k)
  end.

(** A sequence of calls whose exceptions the caller survives, but for one out
    of [begin_step], which ends the engine ([None]). *)
Fixpoint run_calls (cs : list controller_call) s : option (SchedulingController F) :=
  match cs with
  | [] => Some s
  | c :: cs' =>
      match run_call c s, c with
      | Ret _ s', _ => run_calls cs' s'
      | Exc _ _, CBeginStep _ _ => None
      | Exc _ s', _ => run_calls cs' s'
      end
  end.

Lemma keeps_run_call c :
  match c with CBeginStep _ _ => True | _ => keeps (accounts_ok (F := F)) (run_call c) end.
Proof.
  destruct c; cbn [run_call]; unfold drop_result, prepare_running; try done; keeps.
Qed.

Lemma run_calls_accounts cs : ∀ s s', accounts_ok s → run_calls cs s = Some s' → accounts_ok s'.
Proof.
  induction cs as [|c cs IH]; intros s s' Hs; cbn [run_calls]; [by intros [= <-]|].
  pose proof (keeps_run_call c) as Hk. destruct (run_call c s) as [[] s1|e s1] eqn:Hr.
  - intros Hrun. eapply IH; [|exact Hrun]. destruct c; try (specialize (Hk s Hs); by rewrite Hr in Hk).
    pose proof (begin_step_accounts set_order set_order_elements time_time waiting running s Hs) as Hb.
    cbn [run_call] in Hr. unfold drop_result in Hr. rewrite bind_unfold in Hr.
    destruct (begin_step _ _ _ _ s); [|done]. by injection Hr as <-.
  - assert (keeps (accounts_ok (F := F)) (run_call c) → accounts_ok s1) as H1.
    { intros Hk'. specialize (Hk' s Hs). by rewrite Hr in Hk'. }
    destruct c; try done; intros Hrun; (eapply IH; [|exact Hrun]); by apply H1.
Qed.

Lemma init_accounts (cfg : SchedulingConfig F) k t full la : accounts_ok (controller_init cfg k t full la).
Proof.
  split.
  - intros o. unfold charged_to. change (charges (controller_init cfg k t full la)) with (∅ : gmap nat (option string)).
    by rewrite map_filter_empty.
  - split; try done. apply NoDup_nil_2.
  - split_and!; [apply NoDup_nil_2|done|]. intros j Hj. by apply elem_of_empty in Hj.
  - intros j Hj. by apply elem_of_empty in Hj.
Qed.

End sequences.
