(* ===== verification/RangeFacts.v ===== *)
(** * Executed ranges

    The controller's record of executed tokens is a sorted list of disjoint
    ranges; merging a new range gives the union and the count of repeated
    tokens is the size of the intersection. *)
From S2P Require Import Prelude PyFloat Metrics Protocol Request KVCache Scoring Scheduling.
Import Controller.
Local Open Scope Z_scope.

(** The token positions of a list of ranges. *)
Definition coveredb (ranges : list (Z * Z)) (t : Z) : bool :=
  existsb (λ '(a, b), (a <=? t) && (t <? b)) ranges.

(** Ranges in order, apart from each other. *)
Definition ranges_ok (ranges : list (Z * Z)) : Prop :=
  Forall (λ x, x.1 ≤ x.2) ranges ∧ StronglySorted (λ x y, x.2 < y.1) ranges.

Lemma coveredb_cons a b l t : coveredb ((a, b) :: l) t = (a <=? t) && (t <? b) || coveredb l t.
Proof. done. Qed.

Lemma coveredb_app l1 l2 t : coveredb (l1 ++ l2) t = coveredb l1 t || coveredb l2 t.
Proof. apply existsb_app. Qed.

Lemma coveredb_true l t : coveredb l t = true ↔ ∃ a b, (a, b) ∈ l ∧ a ≤ t < b.
Proof.
  unfold coveredb. rewrite existsb_exists. setoid_rewrite <-list_elem_of_In. split.
  - intros ([a b] & Hin & [?%Z.leb_le ?%Z.ltb_lt]%andb_true_iff). exists a, b. split; [done|lia].
  - intros (a & b & Hin & Hab). exists (a, b). split; [done|]. apply andb_true_iff. lia.
Qed.

Lemma coveredb_Permutation l1 l2 t : l1 ≡ₚ l2 → coveredb l1 t = coveredb l2 t.
Proof.
  intros Hp. apply Bool.eq_iff_eq_true. rewrite !coveredb_true. by setoid_rewrite Hp.
Qed.

(** ** Sorting by the first component *)
Lemma insert_sorted_by {A} (lt : A → A → bool) (R : A → A → Prop) x l :
  (∀ x y, lt x y = true → R x y) → (∀ x y, lt x y = false → R y x) → (∀ x y z, R x y → R y z → R x z) →
  StronglySorted R l → StronglySorted R (insert_sorted lt x l).
Proof.
  intros H1 H2 Ht. induction 1 as [|y l Hs IH Hy]; cbn [insert_sorted]; [repeat constructor|].
  destruct (lt x y) eqn:E.
  - constructor; [by constructor|]. constructor; [by apply H1|].
    eapply Forall_impl; [exact Hy|]. intros z Hz. eapply Ht; [by apply H1|done].
  - constructor; [done|]. rewrite insert_sorted_Permutation. constructor; [by apply H2|done].
Qed.

(** A comparison that refines an order sorts by that order, even when it is
    not itself transitive. *)
Lemma py_sorted_by {A} (lt : A → A → bool) (R : A → A → Prop) l :
  (∀ x y, lt x y = true → R x y) → (∀ x y, lt x y = false → R y x) → (∀ x y z, R x y → R y z → R x z) →
  StronglySorted R (py_sorted lt l).
Proof.
  intros H1 H2 Ht. unfold py_sorted.
  assert (∀ acc, StronglySorted R acc → StronglySorted R (foldl (λ acc x, insert_sorted lt x acc) acc l)) as H.
  { induction l; intros acc Hacc; cbn [foldl]; [done|]. by apply IHl, insert_sorted_by. }
  apply H. constructor.
Qed.

(** ** The merge loop *)
Lemma merge_loop xs : ∀ acc,
  Forall (λ x, x.1 ≤ x.2) acc → StronglySorted (λ x y, y.2 < x.1) acc →
  Forall (λ x, x.1 ≤ x.2) xs → StronglySorted (λ x y, x.1 ≤ y.1) xs →
  (∀ h, head acc = Some h → Forall (λ y, h.1 ≤ y.1) xs) →
  let res := foldl merge_step acc xs in
  Forall (λ x, x.1 ≤ x.2) res ∧ StronglySorted (λ x y, y.2 < x.1) res
  ∧ ∀ t, coveredb res t = coveredb acc t || coveredb xs t.
Proof.
  induction xs as [|[a b] xs IH]; intros acc Hle Hs Hxs Hsx Hh; cbn [foldl].
  { split_and!; [done|done|]. intros t. by rewrite orb_false_r. }
  apply Forall_cons in Hxs as [Hab Hxs]. cbn [fst snd] in Hab.
  apply StronglySorted_inv in Hsx as [Hsx Hax]. cbn [fst] in Hax.
  destruct acc as [|[c d] rest]; cbn [merge_step fst snd].
  - destruct (IH [(a, b)]) as (? & ? & Hc); [by repeat constructor|by repeat constructor|done|done| |].
    { by intros h [= <-]. }
    split_and!; [done|done|]. intros t. rewrite Hc, !coveredb_cons. cbn. by rewrite orb_false_r.
  - apply Forall_cons in Hle as [Hcd Hle]. apply StronglySorted_inv in Hs as [Hs Hcr].
    cbn [fst snd] in *. pose proof (Hh _ eq_refl) as Hca. apply Forall_cons in Hca as [Hca Hcx]. cbn [fst] in Hca, Hcx.
    destruct (Z.leb_spec a d).
    + destruct (IH ((c, Z.max d b) :: rest)) as (? & ? & Hc); [constructor; [simpl; lia|done]|by constructor|done|done| |].
      { by intros h [= <-]. }
      split_and!; [done|done|]. intros t. rewrite Hc, !coveredb_cons.
      destruct (coveredb rest t), (coveredb xs t); rewrite ?orb_true_r, ?orb_false_r; try done.
      apply Bool.eq_iff_eq_true. rewrite orb_true_iff, !andb_true_iff, !Z.leb_le, !Z.ltb_lt. lia.
    + destruct (IH ((a, b) :: (c, d) :: rest)) as (? & ? & Hc).
      * by repeat constructor.
      * constructor; [by constructor|]. constructor; [simpl; lia|].
        eapply Forall_impl; [exact Hcr|]. intros y Hy. simpl in *. lia.
      * done.
      * done.
      * by intros h [= <-].
      * split_and!; [done|done|]. intros t. rewrite Hc, !coveredb_cons.
        destruct ((a <=? t) && _), ((c <=? t) && _), (coveredb rest t), (coveredb xs t); done.
Qed.

Lemma range_lt_refines x y :
  (range_lt x y = true → x.1 ≤ y.1) ∧ (range_lt x y = false → y.1 ≤ x.1).
Proof. unfold range_lt, lexb. destruct (Z.eqb_spec x.1 y.1), (Z.ltb_spec x.1 y.1); split; lia. Qed.

Lemma StronglySorted_rev {A} (R : A → A → Prop) (l : list A) :
  StronglySorted R l → StronglySorted (λ x y, R y x) (rev l).
Proof.
  induction 1 as [|x l Hl IH Hx]; cbn [rev]; [constructor|].
  assert (∀ l1 l2, StronglySorted (λ x y, R y x) l1 → StronglySorted (λ x y, R y x) l2 →
    (∀ y z, y ∈ l1 → z ∈ l2 → R z y) → StronglySorted (λ x y, R y x) (l1 ++ l2)) as Happ.
  { clear. intros l1 l2 H1 H2 Hc. induction H1 as [|y l1 H1 IH Hy]; [done|]. cbn [app]. constructor.
    - apply IH. intros. apply Hc; [by right|done].
    - apply Forall_app. split; [done|]. apply Forall_forall. intros z Hz. apply Hc; [by left|done]. }
  apply Happ; [done|by repeat constructor|]. intros y z Hy ->%list_elem_of_singleton.
  rewrite Forall_forall in Hx. apply Hx. by apply list_elem_of_In, in_rev, list_elem_of_In in Hy.
Qed.

(** ** Counting *)
Definition countZ (P : Z → bool) (l : list Z) : Z := sumZ ((λ t, if P t then 1 else 0) <$> l).

Lemma countZ_or P Q l :
  (∀ t, P t && Q t = false) → countZ (λ t, P t || Q t) l = countZ P l + countZ Q l.
Proof.
  intros Hd. unfold countZ. induction l as [|t l IH]; cbn [fmap list_fmap sumZ foldr]; [done|].
  fold (countZ P l) (countZ Q l) in *. specialize (Hd t).
  change (foldr Z.add 0) with sumZ. rewrite IH. fold (countZ P l) (countZ Q l). unfold countZ.
  destruct (P t), (Q t); simpl in *; done || lia.
Qed.

Lemma countZ_interval a b s n :
  0 ≤ n → countZ (λ t, (a <=? t) && (t <? b)) (seqZ s n) = Z.max 0 (Z.min (s + n) b - Z.max s a) ∨ b < a.
Proof.
  intros Hn. destruct (Z.lt_ge_cases b a) as [?|Hab]; [by right|left].
  revert s. apply (natlike_ind (λ n, ∀ s, countZ (λ t, (a <=? t) && (t <? b)) (seqZ s n) = Z.max 0 (Z.min (s + n) b - Z.max s a))); [| |done].
  - intros s. unfold countZ. simpl. lia.
  - intros m Hm IH s. rewrite seqZ_cons by lia. unfold countZ in *. cbn [fmap list_fmap sumZ foldr].
    change (foldr Z.add 0) with sumZ. rewrite Z.pred_succ, IH.
    destruct (Z.leb_spec a s), (Z.ltb_spec s b); simpl; lia.
Qed.

Lemma repeated_count l start n :
  0 ≤ n → ranges_ok l → repeated_tokens l start (start + n) = countZ (coveredb l) (seqZ start n).
Proof.
  intros Hn [Hle Hs]. unfold repeated_tokens. induction Hs as [|[a b] l Hs IH Hx]; cbn [fmap list_fmap sumZ foldr].
  { unfold countZ. by induction (seqZ start n). }
  apply Forall_cons in Hle as [Hab Hle]. cbn [fst snd] in *. change (foldr Z.add 0) with sumZ.
  rewrite IH by done. destruct (countZ_interval a b start n Hn) as [<-|?]; [|lia].
  rewrite <-countZ_or; [done|]. intros t. apply not_true_iff_false.
  intros [[?%Z.leb_le ?%Z.ltb_lt]%andb_true_iff (c & d & Hcd & ?)%coveredb_true]%andb_true_iff.
  rewrite Forall_forall in Hx. specialize (Hx _ Hcd). simpl in Hx. lia.
Qed.

(** C25.  Recording the execution of the tokens [[start, start + n)] keeps
    the record a list of ordered ranges with gaps between them, whose
    positions are exactly those recorded before and the new ones; and the
    tokens counted as recomputed are exactly the new positions that had been
    executed before. *)
Theorem executed_ranges_exact (ranges : list (Z * Z)) (start n : Z) :
  ranges_ok ranges → 0 ≤ n →
  ranges_ok (merge_ranges ranges start (start + n))
  ∧ (∀ t, coveredb (merge_ranges ranges start (start + n)) t = true
          ↔ coveredb ranges t = true ∨ start ≤ t < start + n)
  ∧ repeated_tokens ranges start (start + n)
    = Z.of_nat (length (filter (λ t, coveredb ranges t = true) (seqZ start n))).
Proof.
  intros Hok Hn. unfold merge_ranges.
  set (sorted := py_sorted range_lt (ranges ++ [(start, start + n)])).
  assert (sorted ≡ₚ ranges ++ [(start, start + n)]) as Hp by apply py_sorted_Permutation.
  destruct (merge_loop sorted []) as (Hle & Hs & Hc).
  - constructor.
  - constructor.
  - rewrite Hp. apply Forall_app. split; [apply Hok|]. constructor; [simpl; lia|constructor].
  - apply py_sorted_by; [apply range_lt_refines|apply range_lt_refines|]. intros x y z ? ?. lia.
  - done.
  - split_and!.
    + split.
      * apply Forall_rev. exact Hle.
      * apply (StronglySorted_rev (λ x y, y.2 < x.1)) in Hs. exact Hs.
    + intros t. rewrite (coveredb_Permutation _ (foldl merge_step [] sorted)) by (symmetry; apply Permutation_rev).
      rewrite Hc. cbn [coveredb existsb orb]. rewrite (coveredb_Permutation _ _ t Hp), coveredb_app, orb_true_iff.
      rewrite coveredb_cons. cbn. rewrite orb_false_r, andb_true_iff, Z.leb_le, Z.ltb_lt. done.
    + rewrite repeated_count by done. unfold countZ. induction (seqZ start n) as [|t l IH]; [done|].
      rewrite filter_cons. cbn [fmap list_fmap sumZ foldr]. change (foldr Z.add 0) with sumZ. rewrite IH.
      destruct (coveredb ranges t); [rewrite decide_True by done|rewrite decide_False by done]; cbn [length]; lia.
Qed.

Lemma executed_ranges_exact_witness :
  merge_ranges [(0, 4); (6, 9)] 3 (3 + 4) = [(0, 9)]
  ∧ repeated_tokens [(0, 4); (6, 9)] 3 (3 + 4) = 2
  ∧ ranges_ok (merge_ranges [(0, 4); (6, 9)] 3 (3 + 4)).
Proof.
  split; [by vm_compute|]. split; [by vm_compute|].
  apply (executed_ranges_exact [(0, 4); (6, 9)] 3 4); [|lia].
  split; repeat constructor; simpl; lia.
Defined.
