(* ===== verification/OrderFacts.v ===== *)
(** * Ordering of candidates and choice of a victim

    Over the KV-cache manager of a full-attention engine: the order in which
    annotated candidates are offered for admission, and the running request
    preempted for one that cannot grow. *)
From S2P Require Import Prelude PyFloat Metrics Protocol Config Request FreeQueue BlockPool BlockPoolFacts KVCache.
From S2P Require Import KVCacheFacts KVCacheProps Scoring Scheduling SchedulingFacts RangeFacts.
Import Controller.
Local Open Scope Z_scope.

Section order.
Context {F : Type} `{FO : FloatOps F} `{FL : FloatLog1p F}.
Context (set_order : gset string → list string).
Context {Q : Type}.
Implicit Types (s : SchedulingController F) (r : Request F) (x : Request F * Q).

Definition score_of s x : Z := count0 (scores s) (request_id x.1).

(** A call on the manager that leaves it as it is. *)
Lemma kv_pure {A} (c : M KVCacheManager A) a s :
  c (manager s) = Ret a (manager s) → kv c s = Ret a s.
Proof. intros Hc. unfold kv, zoom. rewrite Hc. by destruct s. Qed.

Lemma kv_bind {A B} (c : M KVCacheManager A) (f : A → M _ B) a s :
  c (manager s) = Ret a (manager s) → (kv c ≫= f) s = f a s.
Proof. intros Hc. by rewrite bind_unfold, (kv_pure c a). Qed.

Lemma admission_demand_pure r computed hit enc s m l :
  kv_inv (manager s) m l → (od_mem (request_id r) (num_cached_block m) = true → hit = []) →
  ∃ n, admission_demand r computed [hit] enc s = Ret n s.
Proof.
  intros Hk Hh. unfold admission_demand. rewrite get_bind.
  assert (∀ id nt e tot main cap, id = request_id r →
    coord_get_num_blocks_to_allocate id nt [hit] e tot main cap (manager s)
      = Ret (blocks_needed (block_pool (manager s)) m id hit nt) (manager s)) as Hn.
  { intros id nt e tot main cap ->. by eapply num_blocks_single. }
  destruct (reclaim_reservation s).
  - eexists. by apply kv_pure, Hn.
  - rewrite bind_unfold. erewrite kv_pure by by apply Hn.
    destruct (progress_reservation s); cbn [negb]; [|by eexists].
    rewrite bind_unfold. erewrite kv_pure by by apply Hn. by eexists.
Qed.

Lemma affinity_pure r s m l :
  kv_inv (manager s) m l → enable_caching (block_pool (manager s)) = true →
  od_mem (request_id r) (num_cached_block m) = false →
  ∃ a, active_prefix_affinity r s = Ret a s.
Proof.
  intros Hk Hca Hnc. unfold active_prefix_affinity.
  destruct (_ || _ || _); [by eexists|].
  destruct (find_longest_pure (manager s) m l (block_hashes r) (num_tokens r - 1) Hk Hca) as [hit Hf].
  rewrite (kv_bind _ _ _ _ Hf), get_bind. cbn [fst snd]. destruct (_ =? 0); [by eexists|].
  destruct (admission_demand_pure r (zlen hit * block_size m) hit 0 s m l Hk) as [n Hd]; [congruence|].
  rewrite bind_unfold, Hd. destruct (_ <? n); by eexists.
Qed.

Lemma affinities_pure (group : list (Request F * Q)) s m l :
  kv_inv (manager s) m l → enable_caching (block_pool (manager s)) = true →
  Forall (λ x, od_mem (request_id x.1) (num_cached_block m) = false) group →
  ∃ keyed, affinities group s = Ret keyed s ∧ keyed.*1 = group.
Proof.
  intros Hk Hca. induction 1 as [|x group Hx Hg (keyed & Hrun & Hf)]; cbn [affinities]; [by exists []|].
  destruct (affinity_pure x.1 s m l Hk Hca Hx) as [a Ha]. exists ((x, a) :: keyed).
  rewrite bind_unfold, Ha, bind_unfold, Hrun. split; [done|]. cbn. by rewrite Hf.
Qed.

(** *** Bands *)
(** A band: no member scores above the first or more than the band below it. *)
Definition in_band s (band : Z) (group : list (Request F * Q)) : Prop :=
  ∀ x y, x ∈ group → y ∈ group → score_of s y ≤ score_of s x + band.

Definition falling s (l : list (Request F * Q)) : Prop :=
  StronglySorted (λ x y, score_of s y ≤ score_of s x) l.

Fixpoint split_band s (band highest : Z) (l : list (Request F * Q)) : list (Request F * Q) * list (Request F * Q) :=
  match l with
  | y :: l' => if highest - band <=? score_of s y
               then let '(a, b) := split_band s band highest l' in (y :: a, b) else ([], l)
  | [] => ([], [])
  end.

Lemma split_band_spec s band highest l :
  let '(a, b) := split_band s band highest l in
  l = a ++ b ∧ (∀ y, y ∈ a → highest - band ≤ score_of s y) ∧ (length b ≤ length l)%nat.
Proof.
  induction l as [|y l IH]; cbn [split_band]; [split_and!; [done|by intros ? ?%elem_of_nil|done]|].
  destruct (Z.leb_spec (highest - band) (score_of s y)).
  - destruct (split_band s band highest l) as [a b]. destruct IH as (-> & Ha & Hb). split_and!; [done| |simpl; lia].
    intros z [->|Hz]%elem_of_cons; [done|by apply Ha].
  - split_and!; [done|by intros ? ?%elem_of_nil|done].
Qed.

Lemma bands_cons fuel s x l :
  bands (S fuel) s (x :: l) =
    let '(group, rest) := split_band s (cache_affinity_score_band (settings s)) (score_of s x) l in
    (x :: group) :: bands fuel s rest.
Proof.
  cbn [bands]. fold (score_of s x).
  assert (∀ l', (fix split (l : list (Request F * Q)) : list (Request F * Q) * list (Request F * Q) :=
      match l with
      | [] => ([], [])
      | y :: l' => if score_of s x - cache_affinity_score_band (settings s) <=? count0 (scores s) (request_id y.1)
                   then let '(a, b) := split l' in (y :: a, b) else ([], l)
      end) l' = split_band s (cache_affinity_score_band (settings s)) (score_of s x) l') as Hs.
  { induction l' as [|y l' IH]; [done|]. cbn [split_band]. by rewrite <-IH. }
  by rewrite Hs.
Qed.

Lemma bands_spec s : 0 ≤ cache_affinity_score_band (settings s) → ∀ fuel ordered,
  (length ordered ≤ fuel)%nat → falling s ordered →
  concat (bands fuel s ordered) = ordered
  ∧ Forall (in_band s (cache_affinity_score_band (settings s))) (bands fuel s ordered).
Proof.
  intros Hband. induction fuel as [|fuel IH]; intros [|x l] Hlen Hfall; simpl in Hlen; try lia; try done.
  rewrite bands_cons. apply StronglySorted_inv in Hfall as [Hfall Hx].
  pose proof (split_band_spec s (cache_affinity_score_band (settings s)) (score_of s x) l) as Hs.
  destruct (split_band s _ _ l) as [group rest]. destruct Hs as (-> & Hg & Hrest).
  apply Forall_app in Hx as [Hxg _].
  assert (falling s rest) as Hfr.
  { clear -Hfall. induction group as [|y g IHg]; [done|]. apply StronglySorted_inv in Hfall as [? _]. auto. }
  destruct (IH rest) as [Hc Hb]; [lia|done|]. split.
  - cbn [concat]. by rewrite Hc.
  - constructor; [|done]. rewrite Forall_forall in Hxg.
    assert (∀ y, y ∈ x :: group → score_of s x - cache_affinity_score_band (settings s) ≤ score_of s y ≤ score_of s x) as Hb'.
    { intros y [->|Hy]%elem_of_cons; [lia|]. split; [by apply Hg|by apply Hxg]. }
    intros y z Hy%Hb' Hz%Hb'. lia.
Qed.

Lemma banded_concat s band (groups parts : list (list (Request F * Q))) :
  0 ≤ band → falling s (concat groups) → Forall (in_band s band) groups → Forall2 Permutation groups parts →
  StronglySorted (λ x y, score_of s y ≤ score_of s x + band) (concat parts).
Proof.
  intros Hband Hfall Hin Hp. induction Hp as [|g p groups parts Hgp Hp IH]; [constructor|].
  cbn [concat] in *. apply Forall_cons in Hin as [Hg Hin].
  assert (falling s (concat groups) ∧ ∀ x y, x ∈ g → y ∈ concat groups → score_of s y ≤ score_of s x) as [Hfr Hcross].
  { clear -Hfall. induction g as [|z g IHg]; [split; [done|by intros ? ? ?%elem_of_nil]|].
    cbn [app] in Hfall. apply StronglySorted_inv in Hfall as [Hf Hz]. destruct (IHg Hf) as [H1 H2].
    split; [done|]. intros x y [->|Hx]%elem_of_cons Hy; [|by apply H2].
    rewrite Forall_forall in Hz. apply Hz, elem_of_app. by right. }
  assert (∀ y, y ∈ concat parts → y ∈ concat groups) as Hsub.
  { intros y. rewrite !list_elem_of_In, !in_concat. intros (q & Hq & Hy). clear -Hp Hq Hy.
    induction Hp as [|g p groups parts Hgp Hp IH]; [done|]. destruct Hq as [->|Hq].
    - exists g. split; [by left|]. apply list_elem_of_In. rewrite Hgp. by apply list_elem_of_In.
    - destruct (IH Hq) as (g' & ? & ?). exists g'. split; [by right|done]. }
  assert (∀ q, (∀ x, x ∈ q → x ∈ g) → StronglySorted (λ x y, score_of s y ≤ score_of s x + band) (q ++ concat parts)) as H.
  { induction q as [|x q IHq]; intros Hq; cbn [app]; [by apply IH|]. constructor.
    - apply IHq. intros. apply Hq. by right.
    - apply Forall_forall. intros y [Hy|Hy]%elem_of_app.
      + apply Hg; apply Hq; [by left|by right].
      + pose proof (Hcross x y (Hq x ltac:(by left)) (Hsub y Hy)). lia. }
  apply H. intros x Hx. by rewrite Hgp.
Qed.

Lemma promote_pure (groups : list (list (Request F * Q))) s m l :
  kv_inv (manager s) m l → enable_caching (block_pool (manager s)) = true →
  Forall (Forall (λ x, od_mem (request_id x.1) (num_cached_block m) = false)) groups →
  ∃ parts C, promote groups s = Ret (concat parts) (put_cache_preferred C s) ∧ Forall2 Permutation groups parts.
Proof.
  intros Hk Hca Hg. revert s Hk Hca. induction Hg as [|group groups Hx Hg IH]; intros s Hk Hca; cbn [promote].
  { exists [], (cache_preferred s). split; [by destruct s|constructor]. }
  destruct (affinities_pure group s m l Hk Hca Hx) as (keyed & Hrun & Hf).
  rewrite bind_unfold, Hrun, modify_bind. set (preferred := (py_sorted affinity_gt keyed).*1).
  set (s1 := put_cache_preferred _ s).
  destruct (IH s1 Hk Hca) as (parts & C & Hrest & Hp).
  exists (preferred :: parts), C. rewrite bind_unfold, Hrest. split; [done|].
  constructor; [|done]. unfold preferred. by rewrite py_sorted_Permutation, Hf.
Qed.

Lemma order_lt_score s a b :
  (order_lt s a b = true → count0 (scores s) (request_id b) ≤ count0 (scores s) (request_id a))
  ∧ (order_lt s a b = false → count0 (scores s) (request_id a) ≤ count0 (scores s) (request_id b)).
Proof.
  unfold order_lt. set (x := count0 (scores s) (request_id a)). set (y := count0 (scores s) (request_id b)).
  unfold lexb at 1 5. destruct (Z.eqb_spec x y) as [->|Hne]; [split; lia|].
  destruct (Z.ltb_spec y x); split; intros; lia || done.
Qed.

(** [order_candidates] neither loses nor duplicates a candidate, and
    prefix-cache affinity promotes a candidate only within the score band: no
    candidate comes before one that outscores it by more than the configured
    band (with the band zero, none before one with a higher score).  Apart
    from the record of promoted candidates nothing changes. *)
Theorem order_candidates_banded (candidates : list (Request F * Q)) s m l c :
  kv_inv (manager s) m l → 0 ≤ cache_affinity_score_band (settings s) →
  committed set_order s = Some c →
  Forall (λ x, od_mem (request_id x.1) (scores s) = true
               ∧ od_mem (request_id x.1) (num_cached_block m) = false) candidates →
  ∃ result C, order_candidates set_order candidates s = Ret result (put_cache_preferred C s)
    ∧ result ≡ₚ candidates
    ∧ StronglySorted (λ x y, score_of s y ≤ score_of s x + cache_affinity_score_band (settings s)) result.
Proof.
  intros Hk Hband Hc Hcand. unfold order_candidates. rewrite get_bind.
  assert (forallb (λ x, od_mem (request_id x.1) (scores s)) candidates = true) as ->.
  { apply forallb_forall. intros x Hx%list_elem_of_In. rewrite Forall_forall in Hcand. by apply Hcand. }
  cbn [negb]. set (ordered := py_sorted _ candidates).
  assert (ordered ≡ₚ candidates) as Hp by apply py_sorted_Permutation.
  assert (falling s ordered) as Hfall.
  { apply py_sorted_by; [intros x y; apply (order_lt_score s x.1 y.1)..|]. intros x y z ? ?. lia. }
  assert (∀ n, 0 ≤ n → StronglySorted (λ x y, score_of s y ≤ score_of s x + n) ordered) as Hsort.
  { intros n Hn. eapply (StronglySorted_ind (λ l, StronglySorted _ l)); [constructor| |exact Hfall].
    intros x l' _ ? Hx. constructor; [done|]. eapply Forall_impl; [exact Hx|]. simpl. lia. }
  assert (∃ C, s = put_cache_preferred C s) as [C0 HC0] by (exists (cache_preferred s); by destruct s).
  assert (∃ C, (mret ordered : M (SchedulingController F) (list (Request F * Q))) s = Ret ordered (put_cache_preferred C s)) as [C Hret].
  { exists C0. by rewrite <-HC0. }
  destruct (_ || _) eqn:Hoff.
  { exists ordered, C. split_and!; [exact Hret|done|by apply Hsort]. }
  apply orb_false_iff in Hoff as [_ Hca%negb_false_iff].
  rewrite bind_unfold. unfold uncommitted_blocks. rewrite get_bind, Hc. unfold mret at 1, M_ret at 1.
  destruct (fltb _ _).
  { exists ordered, C. split_and!; [exact Hret|done|by apply Hsort]. }
  destruct (bands_spec s Hband (length ordered) ordered) as [Hcat Hin]; [done|done|].
  destruct (promote_pure (bands (length ordered) s ordered) s m l Hk Hca) as (parts & C' & Hrun & Hparts).
  { assert (Forall (λ x, od_mem (request_id x.1) (num_cached_block m) = false) (concat (bands (length ordered) s ordered))) as Hall.
    { rewrite Hcat, Hp. eapply Forall_impl; [exact Hcand|]. by intros x [_ ?]. }
    clear -Hall. induction (bands _ _ _) as [|g gs IH]; [constructor|]. cbn [concat] in Hall.
    apply Forall_app in Hall as [? ?]. constructor; auto. }
  exists (concat parts), C'. split_and!; [exact Hrun| |].
  - rewrite <-Hp, <-Hcat. clear -Hparts. induction Hparts as [|g p gs ps Hgp Hps IH]; [done|]. cbn [concat]. by rewrite IH, Hgp.
  - eapply banded_concat; [done| |exact Hin|exact Hparts]. by rewrite Hcat.
Qed.
End order.

(** ** The victim *)
Lemma min_by_in {A} (lt : A → A → bool) (l : list A) v : min_by lt l = Some v → v ∈ l.
Proof.
  destruct l as [|x l]; [done|]. intros [= <-]. cbn [min_by].
  assert (∀ b, foldl (λ best y, if lt y best then y else best) b l = b
    ∨ foldl (λ best y, if lt y best then y else best) b l ∈ l) as H.
  { induction l as [|y l IH]; intros b; cbn [foldl]; [by left|].
    destruct (IH (if lt y b then y else b)) as [->|?]; [|right; by right].
    destruct (lt y b); [right; by left|by left]. }
  destruct (H x) as [->|?]; [by left|by right].
Qed.

Lemma min_by_some {A} (lt : A → A → bool) (l : list A) x : x ∈ l → is_Some (min_by lt l).
Proof. destruct l; [by intros ?%elem_of_nil|by eexists]. Qed.

Lemma min_by_least (l : list Z) v : min_by Z.ltb l = Some v → ∀ x, x ∈ l → v ≤ x.
Proof.
  destruct l as [|x l]; [done|]. intros [= <-].
  assert (∀ b, foldl (λ best y, if y <? best then y else best) b l ≤ b
    ∧ ∀ y, y ∈ l → foldl (λ best y, if y <? best then y else best) b l ≤ y) as H.
  { induction l as [|y l IH]; intros b; cbn [foldl]; [split; [lia|by intros ? ?%elem_of_nil]|].
    destruct (IH (if y <? b then y else b)) as [H1 H2]. split.
    - destruct (Z.ltb_spec y b); lia.
    - intros z [->|Hz]%elem_of_cons; [|by apply H2]. destruct (Z.ltb_spec y b); lia. }
  destruct (H x) as [H1 H2]. intros y [->|Hy]%elem_of_cons; auto.
Qed.

Section victim.
Context {F : Type} `{FO : FloatOps F} `{FL : FloatLog1p F}.
Context (set_order : gset string → list string).
Implicit Types (s : SchedulingController F) (r v : Request F).

(** What preempting a request gives back: its unshared blocks. *)
Definition released_by s r : Z :=
  Z.of_nat (size (filter (λ b, ref_cnt (block_of (block_pool (manager s)) b) = 1)
                    (block_ids (request_id r) (manager s)))).

Definition running_score s r : Z := count0 (scores s) (request_id r).

(** The state after [r] is made a beneficiary of reclaimed growth. *)
Definition with_beneficiary r s : SchedulingController F :=
  put_reclaim_beneficiaries ({[request_id r]} ∪ reclaim_beneficiaries s) s.

(** The blocks lacking for the next tokens of [r]. *)
Definition lacking s m (l : list nat) r (num_new lookahead : Z) : Z :=
  blocks_needed (block_pool (manager s)) m (request_id r) []
    (Z.min (num_computed_tokens r + num_new + lookahead) (max_model_len (manager s))) - zlen l.

Definition deficit s m l r num_new lookahead c : Z :=
  if reclaim_reservation s then Z.max (lacking s m l r num_new lookahead) (- (zlen l - c))
  else lacking s m l r num_new lookahead.

(** The part of the state [victim] reads is kept by its first step. *)
Definition same_view s s' : Prop :=
  scores s' = scores s ∧ manager s' = manager s ∧ metadata s' = metadata s
  ∧ reclaim_reservation s' = reclaim_reservation s.

Lemma enroll_ok r s c :
  plan_ok s → (reclaim_reservation s = true → committed set_order (with_beneficiary r s) = Some c) →
  ∃ s', (if reclaim_reservation s && negb (bool_decide (request_id r ∈ reclaim_beneficiaries s)) then
           modify (put_reclaim_beneficiaries ({[request_id r]} ∪ reclaim_beneficiaries s)) ;;
           Controller.count RECLAIM_BENEFICIARY 1 ;;
           update_available set_order
         else mret tt) s = Ret tt s'
    ∧ same_view s s' ∧ (reclaim_reservation s = true → committed set_order s' = Some c).
Proof.
  intros Hp Hc. destruct (reclaim_reservation s) eqn:Hr; cbn [andb]; [|by exists s].
  specialize (Hc eq_refl). case_bool_decide as Hin; cbn [negb].
  { exists s. split_and!; [done..|]. intros _. rewrite <-Hc. unfold with_beneficiary.
    rewrite subseteq_union_1_L by set_solver. by destruct s. }
  rewrite modify_bind. fold (with_beneficiary r s).
  set (s1 := put_metrics (bump RECLAIM_BENEFICIARY 1 (metrics s)) (with_beneficiary r s)).
  assert (Controller.count RECLAIM_BENEFICIARY 1 (with_beneficiary r s) = Ret tt s1) as Hcount by done.
  rewrite bind_unfold. unfold with_beneficiary in Hcount |- *. rewrite Hcount.
  destruct (update_available_outcome set_order s1 c Hp Hc) as (n & d & Hrun & _).
  exists (with_available n d s1). split; [exact Hrun|]. by split_and!.
Qed.

Lemma narrow_spec r (released : Request F → Z) needed (l : list (Request F)) v :
  v ∈ narrow r released needed l →
  v ∈ l
  ∧ ((∃ x, x ∈ l ∧ request_id x ≠ request_id r ∧ needed ≤ released x) →
       request_id v ≠ request_id r ∧ needed ≤ released v)
  ∧ ((∃ x, x ∈ l ∧ 0 < released x) → 0 < needed → 0 < released v).
Proof.
  unfold narrow. set (p1 := filter _ l) at 1. set (p2 := filter (λ r, 0 < released r) l) at 1.
  assert (∀ x, x ∈ p1 ↔ (request_id x ≠ request_id r ∧ needed ≤ released x) ∧ x ∈ l) as H1.
  { intros x. unfold p1. rewrite list_elem_of_filter. done. }
  assert (∀ x, x ∈ p2 ↔ 0 < released x ∧ x ∈ l) as H2.
  { intros x. unfold p2. rewrite list_elem_of_filter. done. }
  fold p1 p2. destruct p1 as [|a p1'] eqn:E1.
  - assert (∀ x, x ∈ l → request_id x ≠ request_id r → released x < needed) as Hno.
    { intros x Hx Hne. destruct (Z.lt_ge_cases (released x) needed) as [?|Hge]; [done|].
      exfalso. apply (elem_of_nil x). by apply H1. }
    destruct p2 as [|b p2'] eqn:E2; intros Hv.
    + split_and!; [done| |].
      * intros (x & Hx & Hne & Hge). specialize (Hno x Hx Hne). lia.
      * intros (x & Hx & Hpos) _. exfalso. apply (elem_of_nil x). by apply H2.
    + apply H2 in Hv as [Hpos Hv]. split_and!; [done| |done].
      intros (x & Hx & Hne & Hge). specialize (Hno x Hx Hne). lia.
  - intros Hv. destruct p2; (apply H1 in Hv as [[Hne Hge] Hv]; split_and!; [done|done|lia]).
Qed.

Lemma narrow_some r (released : Request F → Z) needed (l : list (Request F)) x :
  x ∈ l → ∃ y, y ∈ narrow r released needed l.
Proof.
  intros Hx. unfold narrow. case_match eqn:E1.
  - case_match eqn:E2; [by exists x|]. eexists. by left.
  - eexists. by left.
Qed.

Lemma victim_band_spec s lowest (running : list (Request F)) x :
  x ∈ victim_band s lowest running ↔
  x ∈ running ∧ od_mem (request_id x) (scores s) = true ∧ running_score s x ≤ lowest + PREEMPTION_SCORE_BAND.
Proof. unfold victim_band. rewrite list_elem_of_filter. unfold running_score. tauto. Qed.

Lemma lowest_score s (running : list (Request F)) x :
  x ∈ running → od_mem (request_id x) (scores s) = true →
  ∃ lowest, min_by Z.ltb (running_score s <$> filter (λ r, od_mem (request_id r) (scores s) = true) running)
      = Some lowest
    ∧ (∃ y, y ∈ victim_band s lowest running ∧ running_score s y = lowest)
    ∧ (∀ y, y ∈ running → od_mem (request_id y) (scores s) = true → lowest ≤ running_score s y).
Proof.
  intros Hx Hs. set (l := _ <$> _).
  assert (∀ y, y ∈ running → od_mem (request_id y) (scores s) = true → running_score s y ∈ l) as Hl.
  { intros y Hy Hsy. apply list_elem_of_fmap. exists y. split; [done|]. by apply list_elem_of_filter. }
  destruct (min_by_some Z.ltb l (running_score s x)) as [lowest Hlow]; [by apply Hl|].
  exists lowest. split; [done|]. split.
  - apply min_by_in, list_elem_of_fmap in Hlow as (y & -> & Hy). apply list_elem_of_filter in Hy as [Hsy Hy].
    exists y. split; [|done]. apply victim_band_spec. split_and!; [done..|]. unfold PREEMPTION_SCORE_BAND. lia.
  - intros y Hy Hsy. eapply min_by_least; [done|]. by apply Hl.
Qed.

(** Candidates for preemption: scored, and within the band of the lowest. *)
Definition preemptible s (running : list (Request F)) x : Prop :=
  x ∈ running ∧ od_mem (request_id x) (scores s) = true
  ∧ ∀ y, y ∈ running → od_mem (request_id y) (scores s) = true →
      running_score s x ≤ running_score s y + PREEMPTION_SCORE_BAND.

Lemma preemptible_band s (running : list (Request F)) lowest x :
  (∃ y, y ∈ victim_band s lowest running ∧ running_score s y = lowest) →
  (∀ y, y ∈ running → od_mem (request_id y) (scores s) = true → lowest ≤ running_score s y) →
  x ∈ victim_band s lowest running ↔ preemptible s running x.
Proof.
  intros (y & Hy & Hlow) Hleast. rewrite victim_band_spec. unfold preemptible.
  apply victim_band_spec in Hy as (Hy & Hsy & _). split.
  - intros (Hx & Hsx & Hle). split_and!; [done..|]. intros z Hz Hsz. specialize (Hleast z Hz Hsz). lia.
  - intros (Hx & Hsx & Hle). split_and!; [done..|]. specialize (Hle y Hy Hsy). lia.
Qed.

Lemma deficit_run {B} r (num_new lookahead : Z) s m l c (k : Z → M (SchedulingController F) B) :
  kv_inv (manager s) m l →
  (reclaim_reservation s = true → committed set_order s = Some c) →
  (n ← kv (coord_get_num_blocks_to_allocate (request_id r)
              (Z.min (num_computed_tokens r + num_new + lookahead) (max_model_len (manager s)))
              (empty_kv_cache_blocks (manager s)) 0 (num_computed_tokens r) (num_computed_tokens r + num_new) false);
   needed ← (if reclaim_reservation s
             then u ← uncommitted_blocks set_order; mret (Z.max (n - free_blocks s) (- u))
             else mret (n - free_blocks s));
   k needed) s
  = k (deficit s m l r num_new lookahead c) s.
Proof.
  intros Hk Hc. unfold empty_kv_cache_blocks. rewrite (kv_single _ _ _ Hk). cbn [length replicate].
  rewrite bind_unfold. unfold kv, zoom. rewrite (num_blocks_single _ m l) by done.
  assert (put_manager (manager s) s = s) as -> by (by destruct s).
  assert (free_blocks s = zlen l) as Hfree by (by eapply inv_num_free, si_pool, kv_sm).
  unfold deficit, lacking. rewrite <-Hfree, bind_unfold.
  destruct (reclaim_reservation s); [|done].
  unfold uncommitted_blocks. rewrite bind_unfold, get_bind, Hc by done. done.
Qed.

Lemma same_view_deficit s s' m l r num_new lookahead c :
  same_view s s' → deficit s' m l r num_new lookahead c = deficit s m l r num_new lookahead c.
Proof. intros (_ & Hm & _ & Hr). unfold deficit, lacking. by rewrite Hm, Hr. Qed.

Lemma same_view_released s s' : same_view s s' → released_by s' = released_by s.
Proof. intros (_ & Hm & _). unfold released_by. by rewrite Hm. Qed.

(** What is promised of the choice: a preemptible request, one that gives back
    the deficit if some other request does, else one that gives back
    something if any does. *)
Definition good_victim s r (running : list (Request F)) (needed : Z) v : Prop :=
  preemptible s running v
  ∧ ((∃ x, preemptible s running x ∧ request_id x ≠ request_id r ∧ needed ≤ released_by s x) →
       request_id v ≠ request_id r ∧ needed ≤ released_by s v)
  ∧ ((∃ x, preemptible s running x ∧ 0 < released_by s x) → 0 < needed → 0 < released_by s v).

(** C26.  Choosing a victim for an annotated running request always
    succeeds.  The victim is running and scored, within the preemption band
    above the lowest score of the running requests; when some candidate other
    than the requester gives back the deficit by its unshared blocks the
    victim is such a candidate, and never one that gives back nothing while
    another gives back something.  A request without metadata gets no
    answer, which leaves the choice to the native policy. *)
Theorem victim_chosen r (running : list (Request F)) num_new lookahead recompute s m l c :
  kv_inv (manager s) m l → plan_ok s →
  (reclaim_reservation s = true → committed set_order (with_beneficiary r s) = Some c) →
  r ∈ running → od_mem (request_id r) (scores s) = true →
  ∃ answer s', victim set_order r running num_new lookahead recompute s = Ret answer s'
    ∧ same_view s s'
    ∧ (od_mem (request_id r) (metadata s) = false → answer = None)
    ∧ (od_mem (request_id r) (metadata s) = true →
       ∃ v, answer = Some v ∧ good_victim s r running (deficit s m l r num_new lookahead c) v).
Proof.
  intros Hk Hp Hc Hr Hs. unfold victim. rewrite get_bind.
  destruct (enroll_ok r s c Hp Hc) as (s1 & Hrun & Hv & Hc1). rewrite bind_unfold, Hrun.
  destruct (od_mem (request_id r) (metadata s)) eqn:Hmd; cbn [negb].
  2:{ by exists None, s1. }
  destruct (lowest_score s running r Hr Hs) as (lowest & Hlow & Hex & Hleast).
  unfold running_score in Hlow. rewrite Hlow.
  pose proof Hv as (Hsc & Hm & _ & Hre).
  assert (kv_inv (manager s1) m l) as Hk1 by (by rewrite Hm).
  assert (reclaim_reservation s1 = true → committed set_order s1 = Some c) as Hc1' by (by rewrite Hre).
  pose proof (λ B k, deficit_run (B := B) r num_new lookahead s1 m l c k Hk1 Hc1') as Hd.
  assert (free_blocks s1 = free_blocks s) as Hfree by (unfold free_blocks; by rewrite Hm).
  rewrite Hm, Hre, Hfree in Hd. rewrite Hd, (same_view_deficit s s1) by done.
  set (needed := deficit s m l r num_new lookahead c).
  destruct Hex as (y0 & Hy0 & Hlow0).
  destruct (narrow_some r (released_by s) needed _ y0 Hy0) as [y Hy].
  destruct (min_by_some (cost_lt s (released_by s)
    (λ r, match recompute with None => num_computed_tokens r | Some f => f r end)) _ y Hy) as [v Hvic].
  exists (Some v), s1. split_and!; [|done|done|].
  { unfold mret, M_ret. f_equal. exact Hvic. }
  intros _. exists v. split; [done|]. apply min_by_in in Hvic.
  apply (narrow_spec r (released_by s) needed) in Hvic as (Hin & Hsuf & Hpos).
  assert (∀ x, x ∈ victim_band s lowest running ↔ preemptible s running x) as Hband.
  { intros x. apply preemptible_band; [by exists y0|done]. }
  split; [by apply Hband|]. split.
  - intros (x & Hx & ?). apply Hsuf. exists x. by rewrite Hband.
  - intros (x & Hx & ?). apply Hpos. exists x. by rewrite Hband.
Qed.
End victim.
