(* ===== verification/ControllerDemo.v ===== *)
(** * A concrete controller

    The controller over the engine of [KVCacheProps] with seven blocks, its
    clocks and [log1p] fixed, run through a short session; the theorems about
    the controller are applied to its states. *)
From Stdlib Require Import QArith.
From S2P Require Import Prelude PyFloat Metrics Protocol Config Request BlockPool KVCache.
From S2P Require Import KVCacheFacts KVCacheProps Scoring ScoringFacts Scheduling SchedulingFacts LedgerFacts OrderFacts.
Import Controller.
Local Open Scope string_scope.
Local Open Scope Z_scope.

#[local] Instance demo_log1p : FloatLog1p Q := λ x, x.
Definition demo_clock (n : nat) : Q := 200%Q.

(** A and B are annotated; B's agent is the more important one. *)
Definition demo_agent (name : string) (importance : Q) : TokenCakeMetadata Q :=
  {| lifecycle_id := lifecycle_id (ScoringFacts.demo_metadata (F := Q) 0%Q); agent_type := name; agent_name := "";
     importance := importance;
     depth := 1; in_degree := 0; out_degree := 2; similarity := 0%Q;
     application_started_at_s := 100%Q; application_start_offset_s := 0%Q;
     application_elapsed_s := 0%Q; application_max_depth := 3; remaining_depth := 2;
     critical_path := false; near_completion := false; join_group := "";
     dependency_depth := 0; fanout_width := 1; memory_weight := 1%Q;
     offload_eligible := false; reusable_prefix := false |}.

(** Requests that generate one token. *)
Definition demo_short (id : string) (tokens : nat) (hashes : list BlockHash) : Request Q :=
  mkRequest id 0 0%Q RUNNING 1 (Z.of_nat tokens) [] (replicate tokens 5) [] 0 [] 0 hashes false None None None None None None.
Definition short_A := demo_short "A" 5 [[11]; [12]].
Definition short_B := demo_short "B" 4 [[21]; [22]].


(** Three tenths of the capacity is reserved. *)
Definition demo_cfg : SchedulingConfig Q :=
  mkSchedulingConfig true true mode_all 0 500 true 500 first_fit (3 # 4) (3 # 10) (3 # 10) (2 # 5) (3 # 4) (1 # 20).
Notation demo_c0 := (controller_init demo_cfg demo_k0 metrics_init true 0 : SchedulingController Q).

(** The manager once A's blocks are allocated. *)
Definition demo_k2 : KVCacheManager := run_state (KVCacheProps.run_calls [demo_start short_A []]) demo_k0.

(** Both requests wait; A is admitted and its blocks are committed; then A
    runs and B waits. *)
Definition demo_begin : list (controller_call (F := Q)) :=
  [CAssociate "A" (demo_agent "planner" 3%Q); CAssociate "B" (demo_agent "coder" 5%Q);
   CBeginStep [short_A; short_B] []].
Definition demo_admit : list (controller_call (F := Q)) :=
  (demo_begin ++ [CCanAllocate short_A 5 0 None 0 0 0 false; CManager demo_k2])%list.
Definition demo_session : list (controller_call (F := Q)) :=
  (demo_admit ++ [CCommit short_A false 0 (Some [[1;2;3]%nat]) false; CBeginStep [short_B] [short_A]])%list.

Notation demo_calls cs := (LedgerFacts.run_calls elements demo_clock demo_clock cs demo_c0).
Definition demo_run (cs : list (controller_call (F := Q))) : SchedulingController Q := default demo_c0 (demo_calls cs).

Lemma demo_run_some cs : is_Some (demo_calls cs) → demo_calls cs = Some (demo_run cs).
Proof. intros [s Hs]. unfold demo_run. by rewrite Hs. Qed.

Lemma demo_accounts cs : is_Some (demo_calls cs) → accounts_ok (demo_run cs).
Proof.
  intros Hs%demo_run_some. eapply run_calls_accounts; [done|apply init_accounts|exact Hs].
Qed.

(** [is_Some] of a concrete run. *)
Ltac demo_runs := apply (bool_decide_unpack _); by vm_compute.

Lemma demo_k2_inv : ∃ m l, kv_inv demo_k2 m l ∧ num_cached_block m = [("A", 2%nat)].
Proof.
  destruct demo_init as (m0 & _ & Hk0).
  destruct (run_calls_inv [demo_start short_A []] demo_k0 m0 _ Hk0) as (k & m & l & Hrun & Hk).
  { cbn [calls_ok]. split; [exists []; slots_of|].
    match goal with |- match ?c with Ret _ _ => _ | _ => _ end =>
      let v := eval vm_compute in c in assert (c = v) as -> by (by vm_compute) end. exact I. }
  exists m, l. assert (k = demo_k2) as -> by (unfold demo_k2, run_state; by rewrite Hrun).
  split; [exact Hk|]. pose proof (kv_single _ _ _ Hk) as Hm. vm_compute in Hm. by injection Hm as <-.
Qed.

(** ** The witnesses *)
Lemma consumption_exact_witness :
  ∃ u, consumption short_B 6 false (demo_run demo_begin) = Ret (Some u) (demo_run demo_begin)
    ∧ sumZ (u.*2) = 6 ∧ NoDup (u.*1).
Proof.
  assert (accounts_ok (demo_run demo_begin)) as Ha by (apply demo_accounts; demo_runs).
  pose proof (consumption_exact short_B 6 false _ (ac_available _ Ha) ltac:(lia)) as Hc.
  assert ((6 <=? reach short_B false (demo_run demo_begin)) = true) as E by (by vm_compute).
  rewrite E in Hc. destruct Hc as (u & Hrun & Hu). exists u.
  split; [exact Hrun|]. split; [exact (us_total _ _ _ _ _ Hu)|exact (us_owners _ _ _ _ _ Hu)].
Defined.

Lemma update_available_exact_witness :
  ∃ n d, update_available elements (demo_run demo_session) = Ret tt (with_available n d (demo_run demo_session))
    ∧ n + sumZ (od_values d) = 4.
Proof.
  assert (accounts_ok (demo_run demo_session)) as Ha by (apply demo_accounts; demo_runs).
  destruct (update_available_exact elements (demo_run demo_session) 0 (ac_plan _ Ha)) as (n & d & Hrun & _ & _ & Hsum & _).
  { by vm_compute. }
  exists n, d. split; [exact Hrun|]. rewrite Hsum. by vm_compute.
Defined.

Definition demo_commit : outcome (SchedulingController Q) unit :=
  commit demo_clock elements short_A false 0 (Some [[1;2;3]%nat]) false (demo_run demo_admit).

Lemma commit_charges_witness :
  accounts_ok (out_state demo_commit)
  ∧ ∀ i, i ∈ [1; 2; 3]%nat → is_Some (charges (out_state demo_commit) !! i).
Proof.
  assert (accounts_ok (demo_run demo_admit)) as Ha by (apply demo_accounts; demo_runs).
  assert (uncharged short_A false (Some [[1;2;3]%nat]) (demo_run demo_admit) = [1; 2; 3]%nat) as E by (by vm_compute).
  assert ((zlen [1; 2; 3]%nat <=? reach short_A false (demo_run demo_admit)) = true) as Er by (by vm_compute).
  unfold demo_commit. generalize dependent (demo_run demo_admit). intros s Ha E Er.
  pose proof (commit_charges elements demo_clock short_A false 0 (Some [[1;2;3]%nat]) false s Ha) as Hc.
  cbn zeta in Hc. rewrite E, Er in Hc. cbn [orb] in Hc. destruct Hc as (u & _ & Hok & Hch & _).
  split; [exact Hok|]. intros i Hi. destruct (Hch i Hi) as (o & Ho & _). exists o. exact Ho.
Defined.


Lemma order_candidates_banded_witness :
  ∃ result C, order_candidates elements [(short_B, true)] (demo_run demo_session)
      = Ret result (put_cache_preferred C (demo_run demo_session))
    ∧ result ≡ₚ [(short_B, true)].
Proof.
  destruct demo_k2_inv as (m & l & Hk & Hm).
  destruct (order_candidates_banded elements [(short_B, true)] (demo_run demo_session) m l 0)
    as (result & C & Hrun & Hp & _).
  - assert (manager (demo_run demo_session) = demo_k2) as -> by (by vm_compute). exact Hk.
  - by vm_compute.
  - by vm_compute.
  - apply Forall_cons. split; [|exact (Forall_nil_2 _)]. rewrite Hm. split; by vm_compute.
  - exists result, C. split; [exact Hrun|exact Hp].
Defined.

Lemma victim_chosen_witness :
  ∃ v s', victim elements short_B [short_A; short_B] 1 0 None (demo_run demo_session) = Ret (Some v) s'
    ∧ preemptible (demo_run demo_session) [short_A; short_B] v.
Proof.
  destruct demo_k2_inv as (m & l & Hk & _).
  assert (accounts_ok (demo_run demo_session)) as Ha by (apply demo_accounts; demo_runs).
  destruct (victim_chosen elements short_B [short_A; short_B] 1 0 None (demo_run demo_session) m l 0)
    as (answer & s' & Hrun & _ & _ & Hgood).
  - assert (manager (demo_run demo_session) = demo_k2) as -> by (by vm_compute). exact Hk.
  - exact (ac_plan _ Ha).
  - by vm_compute.
  - right. left.
  - by vm_compute.
  - destruct Hgood as (v & -> & Hv & _); [by vm_compute|]. exists v, s'. split; [exact Hrun|exact Hv].
Defined.
