(* ===== verification/Hashing.v ===== *)
(** * Block hashes of a request ([vllm/v1/core/kv_cache_utils.py], 375-688)

    The key under which a full block of a request enters the prefix cache: a
    chain of hashes over the tokens of the blocks and their extra keys
    (adapter, multi-modal items, cache salt, prompt embeddings).  The hash
    function, [NONE_HASH] and the digest of a slice of prompt embeddings are
    parameters. *)
From S2P Require Import Prelude PyFloat Request BlockPool.
Local Open Scope Z_scope.

(** The values that occur among extra keys: texts (adapter name, cache salt),
    pairs of item identifier and relative offset, byte strings. *)
Inductive ExtraKey :=
  | KStr (s : string)
  | KItem (identifier : string) (offset : Z)
  | KBytes (b : list Z).
#[export] Instance ExtraKey_eq_dec : EqDecision ExtraKey.
Proof. solve_decision. Defined.

(** What [hash_block_tokens] hashes: parent, tokens, extra keys. *)
Definition HashInput : Type := BlockHash * list Z * option (list ExtraKey).

(** [l[a:b]] with [0 <= a]. *)
Definition slice {A} (a b : Z) (l : list A) : list A := take (Z.to_nat (b - a)) (drop (Z.to_nat a) l).

Section hashing.
Context {F : Type} `{FloatOps F}.
Context (caching_hash_fn : HashInput → BlockHash) (NONE_HASH : BlockHash).
Context (sha256_tensor : list (list Z) → list Z).

(** [need_extra_keys] *)
Definition need_extra_keys (r : Request F) : bool :=
  negb (bool_decide (mm_features r = []))
  || match lora_request r with Some _ => true | None => false end
  || match cache_salt r with Some _ => true | None => false end.

(** The loop of [_gen_mm_extra_hash_keys] over the features from [idx] on. *)
Fixpoint mm_keys_from (start_token_idx end_token_idx : Z) (idx : Z) (features : list MMFeature) :
    list ExtraKey * Z :=
  match features with
  | [] => ([], idx)
  | f :: features' =>
      let offset := mm_offset f in
      let length := mm_length f in
      if offset <? end_token_idx then
        if offset + length <=? start_token_idx
        then mm_keys_from start_token_idx end_token_idx (idx + 1) features'
        else
          let key := KItem (identifier f) (offset - start_token_idx) in
          if offset + length <=? end_token_idx then
            let '(keys, idx') := mm_keys_from start_token_idx end_token_idx (idx + 1) features' in
            (key :: keys, idx')
          else ([key], idx)
      else ([], idx)
  end.

(** [_gen_mm_extra_hash_keys]; [None] is the failed assertion. *)
Definition gen_mm_extra_hash_keys (r : Request F) (start_token_idx end_token_idx start_mm_idx : Z) :
    option (list ExtraKey * Z) :=
  match last (mm_features r) with
  | None => Some ([], start_mm_idx)
  | Some last_feature =>
      if mm_offset last_feature + mm_length last_feature <=? start_token_idx
      then Some ([], start_mm_idx)
      else
        let n := zlen (mm_features r) in
        if (start_mm_idx <? 0) && (n <? - start_mm_idx) then None
        else
          let idx := if start_mm_idx <? 0 then n + start_mm_idx else start_mm_idx in
          Some (mm_keys_from start_token_idx end_token_idx idx (drop (Z.to_nat idx) (mm_features r)))
  end.

(** [_gen_lora_extra_hash_keys] *)
Definition gen_lora_extra_hash_keys (r : Request F) : list ExtraKey :=
  match lora_request r with Some l => [KStr (lora_name l)] | None => [] end.

(** [_gen_prompt_embeds_extra_hash_keys]; the digests cached on the request
    are those of the same slices. *)
Definition gen_prompt_embeds_extra_hash_keys (r : Request F) (start_token_idx end_token_idx : Z) : list ExtraKey :=
  match prompt_embeds r with
  | None => []
  | Some e => [KBytes (sha256_tensor (slice start_token_idx end_token_idx e))]
  end.

Definition cache_salt_keys (r : Request F) (start_token_idx : Z) : list ExtraKey :=
  match cache_salt r with
  | Some s => if (start_token_idx =? 0) && negb (bool_decide (s = ""%string)) then [KStr s] else []
  | None => []
  end.

(** [generate_block_hash_extra_keys] *)
Definition generate_block_hash_extra_keys (r : Request F) (start_token_idx end_token_idx start_mm_idx : Z) :
    option (option (list ExtraKey) * Z) :=
  mm ← gen_mm_extra_hash_keys r start_token_idx end_token_idx start_mm_idx;
  let extra_keys := gen_lora_extra_hash_keys r ++ mm.1 ++ cache_salt_keys r start_token_idx
                    ++ gen_prompt_embeds_extra_hash_keys r start_token_idx end_token_idx in
  Some (match extra_keys with [] => None | _ => Some extra_keys end, mm.2).

(** [hash_block_tokens]; a missing or empty parent counts as [NONE_HASH]. *)
Definition hash_block_tokens (parent_block_hash : option BlockHash) (curr_block_token_ids : list Z)
    (extra_keys : option (list ExtraKey)) : BlockHash :=
  let parent := match parent_block_hash with
                | None | Some [] => NONE_HASH
                | Some h => h
                end in
  caching_hash_fn (parent, curr_block_token_ids, extra_keys).

(** The [while True] loop of [request_block_hasher]. *)
Fixpoint hash_blocks (fuel : nat) (block_size : Z) (r : Request F) (start_token_idx curr_mm_idx : Z)
    (prev : option BlockHash) : option (list BlockHash) :=
  match fuel with
  | O => None
  | S fuel =>
      let end_token_idx := start_token_idx + block_size in
      if num_tokens r <? end_token_idx then Some []
      else
        extra ← generate_block_hash_extra_keys r start_token_idx end_token_idx curr_mm_idx;
        let block_tokens := slice start_token_idx end_token_idx (all_token_ids r) in
        let block_hash := hash_block_tokens prev block_tokens extra.1 in
        rest ← hash_blocks fuel block_size r (start_token_idx + block_size) extra.2 (Some block_hash);
        Some (block_hash :: rest)
  end.

(** [get_request_block_hasher(block_size, caching_hash_fn)] *)
Definition request_block_hasher (block_size : Z) (r : Request F) : option (list BlockHash) :=
  let start_token_idx := zlen (block_hashes r) * block_size in
  if num_tokens r <? start_token_idx + block_size then Some []
  else
    hash_blocks (S (Z.to_nat (num_tokens r))) block_size r start_token_idx
      (if 0 <? start_token_idx then -1 else 0) (last (block_hashes r)).
End hashing.
