(* ===== verification/HashingFacts.v ===== *)
(** * Facts about block hashing

    A reference chain over all full blocks; the hasher of [Hashing] extends it
    block by block as tokens arrive, and under a collision-free hash function
    equal hashes mean equal contents. *)
From Stdlib Require Import QArith.
From S2P Require Import Prelude PyFloat Request BlockPool Hashing.
Local Open Scope Z_scope.

(** ** Features in prompt order *)
Definition mm_end (f : MMFeature) : Z := mm_offset f + mm_length f.

(** Sorted, disjoint and not empty, as the input processor makes them. *)
Definition features_ok (l : list MMFeature) : Prop :=
  StronglySorted (λ f g, mm_end f ≤ mm_offset g) l ∧ Forall (λ f, 0 < mm_length f) l.

Definition touches (s e : Z) (f : MMFeature) : Prop := mm_offset f < e ∧ s < mm_end f.
#[export] Instance touches_dec s e f : Decision (touches s e f).
Proof. unfold touches. apply _. Defined.

Definition item_key (s : Z) (f : MMFeature) : ExtraKey := KItem (identifier f) (mm_offset f - s).
Definition items (s e : Z) (l : list MMFeature) : list ExtraKey := item_key s <$> filter (touches s e) l.

(** Every feature before [idx] (from the end when negative) ends by [s]. *)
Definition idx_ok (s idx : Z) (l : list MMFeature) : Prop :=
  -1 ≤ idx ≤ zlen l
  ∧ Forall (λ f, mm_end f ≤ s) (take (Z.to_nat (if idx <? 0 then zlen l + idx else idx)) l).

Lemma features_ok_cons f l : features_ok (f :: l) → features_ok l ∧ 0 < mm_length f ∧ ∀ g, g ∈ l → mm_end f ≤ mm_offset g.
Proof.
  intros [Hs Hl]. apply StronglySorted_inv in Hs as [Hs Hf]. apply Forall_cons in Hl as [Hp Hl].
  split_and!; [done..|]. by apply list.Forall_forall.
Qed.

Lemma items_none s e l : Forall (λ f, e ≤ mm_offset f ∨ mm_end f ≤ s) l → items s e l = [].
Proof.
  induction 1 as [|f l Hf Hl IH]; [done|]. unfold items in *.
  rewrite filter_cons_False; [done|]. unfold touches. lia.
Qed.

Lemma features_after s e f l : features_ok (f :: l) → e ≤ mm_offset f → items s e (f :: l) = [].
Proof.
  intros Hok He. apply items_none, list.Forall_forall. intros g Hg. left.
  apply features_ok_cons in Hok as (Hl & Hp & Hafter). apply elem_of_cons in Hg as [->|Hg]; [done|].
  specialize (Hafter g Hg). unfold mm_end in Hafter. lia.
Qed.

(** The loop collects the items of the block; the index it returns skips only
    features that are over. *)
Lemma mm_keys_from_spec s e l : features_ok l → ∀ idx,
  ∃ k, mm_keys_from s e idx l = (items s e l, idx + Z.of_nat k)
    ∧ (k ≤ length l)%nat ∧ (s ≤ e → Forall (λ f, mm_end f ≤ e) (take k l)).
Proof.
  induction l as [|f l IH]; intros Hok idx; cbn [mm_keys_from].
  { exists 0%nat. split_and!; [|done|done]. f_equal. lia. }
  pose proof (features_ok_cons _ _ Hok) as (Hl & Hp & Hafter). specialize (IH Hl).
  destruct (Z.ltb_spec (mm_offset f) e) as [Hoff|Hoff].
  2:{ exists 0%nat. rewrite features_after by done. split_and!; [|simpl; lia|done]. f_equal. lia. }
  destruct (Z.leb_spec (mm_offset f + mm_length f) s) as [Hpast|Hpast].
  { destruct (IH (idx + 1)) as (k & Hrun & Hk & Htake). exists (S k). rewrite Hrun. split_and!.
    - unfold items. rewrite filter_cons_False; [f_equal; lia|]. unfold touches, mm_end. lia.
    - simpl. lia.
    - intros Hse. cbn [take]. constructor; [unfold mm_end; lia|auto]. }
  assert (items s e (f :: l) = item_key s f :: items s e l) as Hcons.
  { unfold items. rewrite filter_cons_True; [done|]. unfold touches, mm_end. lia. }
  destruct (Z.leb_spec (mm_offset f + mm_length f) e) as [Hend|Hend].
  { destruct (IH (idx + 1)) as (k & Hrun & Hk & Htake). exists (S k). rewrite Hrun, Hcons. split_and!.
    - f_equal. lia.
    - simpl. lia.
    - intros Hse. cbn [take]. constructor; [unfold mm_end; lia|auto]. }
  exists 0%nat. rewrite Hcons, items_none.
  { split_and!; [|simpl; lia|done]. unfold item_key. f_equal. lia. }
  apply list.Forall_forall. intros g Hg. left. specialize (Hafter g Hg). unfold mm_end in Hafter. lia.
Qed.

Lemma idx_ok_mono s s' idx l : s ≤ s' → idx_ok s idx l → idx_ok s' idx l.
Proof. intros Hs [Hi Hf]. split; [done|]. eapply Forall_impl; [exact Hf|]. simpl. lia. Qed.

Lemma idx_ok_start s l : idx_ok s 0 l.
Proof. split; [unfold zlen; lia|]. constructor. Qed.

Lemma idx_ok_last s l : Forall (λ f, mm_end f ≤ s) (take (length l - 1) l) → idx_ok s (-1) l.
Proof. intros Hl. split; [unfold zlen; lia|]. cbn. by replace (Z.to_nat (zlen l + -1)) with (length l - 1)%nat by (unfold zlen; lia). Qed.

Lemma items_drop s e j l : Forall (λ f, mm_end f ≤ s) (take j l) → items s e (drop j l) = items s e l.
Proof.
  intros Hj. rewrite <-(take_drop j l) at 2. unfold items. rewrite filter_app, fmap_app.
  change (item_key s <$> filter (touches s e) (take j l)) with (items s e (take j l)).
  rewrite (items_none s e (take j l)); [done|]. eapply Forall_impl; [exact Hj|]. simpl. auto.
Qed.

Lemma features_ok_drop j l : features_ok l → features_ok (drop j l).
Proof.
  revert l. induction j as [|j IH]; intros [|f l] Hok; [done..|]. cbn [drop].
  by apply IH, (features_ok_cons f l).
Qed.

Lemma all_past s l g : features_ok l → last l = Some g → mm_end g ≤ s → Forall (λ f, mm_end f ≤ s) l.
Proof.
  intros [Hs Hp] (l' & ->)%last_Some Hg. apply Forall_app. split; [|by repeat constructor].
  apply list.Forall_forall. intros f Hf. apply StronglySorted_app in Hs as (Hc & _ & _).
  assert (mm_end f ≤ mm_offset g) by (by apply (Hc f g); [|left]).
  apply Forall_app in Hp as [_ Hp]. apply Forall_cons in Hp as [Hp _]. unfold mm_end in *. lia.
Qed.

Section facts.
Context {F : Type} `{FO : FloatOps F}.
Context (caching_hash_fn : HashInput → BlockHash) (NONE_HASH : BlockHash).
Context (sha256_tensor : list (list Z) → list Z).
Implicit Types (r : Request F).

Lemma gen_mm_spec r s e idx :
  features_ok (mm_features r) → idx_ok s idx (mm_features r) → s ≤ e →
  ∃ idx', gen_mm_extra_hash_keys r s e idx = Some (items s e (mm_features r), idx')
    ∧ idx_ok e idx' (mm_features r).
Proof.
  intros Hok [Hi Hpast] Hse. unfold gen_mm_extra_hash_keys. set (l := mm_features r) in *.
  destruct (last l) as [g|] eqn:Hlast.
  2:{ apply last_None in Hlast. rewrite Hlast. exists idx. split; [done|].
      eapply idx_ok_mono; [exact Hse|]. split; [by rewrite <-Hlast|]. by rewrite take_nil. }
  destruct (Z.leb_spec (mm_offset g + mm_length g) s) as [Hg|Hg].
  { exists idx. rewrite items_none.
    - split; [done|]. eapply idx_ok_mono; [exact Hse|done].
    - eapply Forall_impl; [by eapply all_past|]. simpl. auto. }
  assert (1 ≤ zlen l) as Hn.
  { apply last_Some in Hlast as (l' & ->). unfold zlen. rewrite length_app. simpl. lia. }
  replace ((idx <? 0) && (zlen l <? - idx)) with false.
  2:{ symmetry. apply andb_false_iff. right. apply Z.ltb_ge. lia. }
  set (j := if idx <? 0 then zlen l + idx else idx) in *.
  assert (0 ≤ j ≤ zlen l) as Hj by (unfold j; destruct (Z.ltb_spec idx 0); lia).
  destruct (mm_keys_from_spec s e (drop (Z.to_nat j) l) (features_ok_drop _ _ Hok) j) as (k & Hrun & Hk & Htake).
  exists (j + Z.of_nat k). rewrite Hrun, items_drop by done. split; [done|].
  rewrite length_drop in Hk. split; [unfold zlen in *; lia|].
  replace (j + Z.of_nat k <? 0) with false by (symmetry; apply Z.ltb_ge; lia).
  replace (Z.to_nat (j + Z.of_nat k)) with (Z.to_nat j + k)%nat by lia.
  rewrite <-take_take_drop. apply Forall_app. split; [|auto].
  eapply Forall_impl; [exact Hpast|]. simpl. lia.
Qed.

(** ** The reference chain *)
Context (bs : Z).

Definition block_items r (i : nat) : list ExtraKey :=
  items (Z.of_nat i * bs) (Z.of_nat i * bs + bs) (mm_features r).
(** The extra keys of block [i], whatever was hashed before it. *)
Definition block_keys r (i : nat) : option (list ExtraKey) :=
  let keys := gen_lora_extra_hash_keys r ++ block_items r i ++ cache_salt_keys r (Z.of_nat i * bs)
    ++ gen_prompt_embeds_extra_hash_keys sha256_tensor r (Z.of_nat i * bs) (Z.of_nat i * bs + bs) in
  match keys with [] => None | _ => Some keys end.
Definition block_tokens r (i : nat) : list Z :=
  slice (Z.of_nat i * bs) (Z.of_nat i * bs + bs) (all_token_ids r).

Fixpoint chain_from r (prev : option BlockHash) (i n : nat) : list BlockHash :=
  match n with
  | O => []
  | S n =>
      let h := hash_block_tokens caching_hash_fn NONE_HASH prev (block_tokens r i) (block_keys r i) in
      h :: chain_from r (Some h) (S i) n
  end.

Definition num_full r : nat := Z.to_nat (num_tokens r / bs).
(** The hashes of all full blocks of the request. *)
Definition block_chain r : list BlockHash := chain_from r None 0 (num_full r).

Definition last_or (prev : option BlockHash) (l : list BlockHash) : option BlockHash :=
  match last l with Some h => Some h | None => prev end.

Lemma last_or_cons prev h l : last_or prev (h :: l) = last_or (Some h) l.
Proof. unfold last_or. rewrite last_cons. by destruct (last l). Qed.

Lemma chain_app r n : ∀ prev i k,
  chain_from r prev i (k + n) = chain_from r prev i k ++ chain_from r (last_or prev (chain_from r prev i k)) (i + k) n.
Proof.
  intros prev i k. revert prev i. induction k as [|k IH]; intros prev i; cbn [Nat.add chain_from app].
  { by rewrite Nat.add_0_r. }
  set (h := hash_block_tokens _ _ _ _ _). rewrite IH, last_or_cons. by rewrite <-Nat.add_succ_comm.
Qed.

Lemma length_chain r n : ∀ prev i, length (chain_from r prev i n) = n.
Proof. induction n as [|n IH]; intros; cbn [chain_from length]; auto. Qed.

(** Every index is good to start from when the features before it are over. *)
Definition resumable r (k : nat) : Prop :=
  k = 0%nat ∨ Forall (λ f, mm_end f ≤ Z.of_nat k * bs) (take (length (mm_features r) - 1) (mm_features r)).

Lemma full_block r i n : 0 < bs → num_full r = (i + n)%nat →
  (num_tokens r <? Z.of_nat i * bs + bs) = (match n with O => true | _ => false end).
Proof.
  unfold num_full. intros Hbs Hn. assert (0 ≤ num_tokens r) by (unfold num_tokens, zlen; lia).
  pose proof (Z.mul_div_le (num_tokens r) bs Hbs). pose proof (Z.mul_succ_div_gt (num_tokens r) bs Hbs).
  pose proof (Z.div_pos (num_tokens r) bs ltac:(lia) Hbs).
  assert (num_tokens r / bs = Z.of_nat i + Z.of_nat n) as E by lia. rewrite E in *.
  destruct n; [apply Z.ltb_lt|apply Z.ltb_ge]; nia.
Qed.

Lemma hash_blocks_spec r : 0 < bs → features_ok (mm_features r) → ∀ n i idx prev fuel,
  idx_ok (Z.of_nat i * bs) idx (mm_features r) → num_full r = (i + n)%nat → (n < fuel)%nat →
  hash_blocks caching_hash_fn NONE_HASH sha256_tensor fuel bs r (Z.of_nat i * bs) idx prev
  = Some (chain_from r prev i n).
Proof.
  intros Hbs Hok. induction n as [|n IH]; intros i idx prev [|fuel] Hidx Hn Hfuel; [lia| |lia|];
    cbn [hash_blocks]; rewrite (full_block r i _ Hbs Hn).
  { done. }
  unfold generate_block_hash_extra_keys.
  destruct (gen_mm_spec r (Z.of_nat i * bs) (Z.of_nat i * bs + bs) idx Hok Hidx) as (idx' & Hmm & Hidx'); [lia|].
  rewrite Hmm. cbn [mbind option_bind fst snd].
  replace (Z.of_nat i * bs + bs) with (Z.of_nat (S i) * bs) in Hidx' |- * by lia.
  rewrite (IH (S i)) by (done || lia). cbn [chain_from]. unfold block_tokens, block_keys, block_items.
  replace (Z.of_nat i * bs + bs) with (Z.of_nat (S i) * bs) by lia. done.
Qed.

(** The hasher returns the hashes of the blocks not yet hashed. *)
Lemma hasher_extends r k :
  0 < bs → features_ok (mm_features r) → resumable r k → (k ≤ num_full r)%nat →
  block_hashes r = chain_from r None 0 k →
  request_block_hasher caching_hash_fn NONE_HASH sha256_tensor bs r
  = Some (chain_from r (last (block_hashes r)) k (num_full r - k)).
Proof.
  intros Hbs Hok Hres Hk Hh. unfold request_block_hasher.
  assert (zlen (block_hashes r) = Z.of_nat k) as -> by (rewrite Hh; unfold zlen; by rewrite length_chain).
  rewrite (full_block r k (num_full r - k) Hbs) by lia.
  destruct (num_full r - k)%nat as [|n] eqn:E; [done|].
  apply hash_blocks_spec; [done|done| |lia|].
  - destruct (Z.ltb_spec 0 (Z.of_nat k * bs)) as [Hpos|Hz].
    + apply idx_ok_last. destruct Hres as [->|Hres]; [lia|done].
    + apply idx_ok_start.
  - unfold num_full in *. assert (0 ≤ num_tokens r) by (unfold num_tokens, zlen; lia).
    assert (num_tokens r / bs ≤ num_tokens r) by (apply Z.div_le_upper_bound; nia).
    pose proof (Z.div_pos (num_tokens r) bs ltac:(lia) Hbs). lia.
Qed.

(** Two requests with the same keys, the second with more tokens. *)
Record extends r r' (ts : list Z) : Prop := {
  ex_tokens : all_token_ids r' = all_token_ids r ++ ts;
  ex_features : mm_features r' = mm_features r;
  ex_lora : lora_request r' = lora_request r;
  ex_salt : cache_salt r' = cache_salt r;
  ex_embeds : prompt_embeds r' = prompt_embeds r
}.

Lemma extends_keys r r' ts i : extends r r' ts → block_keys r' i = block_keys r i.
Proof.
  intros [_ Hf Hl Hs He]. unfold block_keys, block_items, gen_lora_extra_hash_keys, cache_salt_keys,
    gen_prompt_embeds_extra_hash_keys. by rewrite Hf, Hl, Hs, He.
Qed.

Lemma extends_chain r r' ts n : 0 < bs → extends r r' ts → ∀ prev i,
  (i + n ≤ num_full r)%nat → chain_from r' prev i n = chain_from r prev i n.
Proof.
  intros Hbs Hext. induction n as [|n IH]; intros prev i Hn; cbn [chain_from]; [done|].
  assert (block_tokens r' i = block_tokens r i) as ->.
  { unfold block_tokens, slice. rewrite (ex_tokens _ _ _ Hext).
    assert (Z.of_nat i * bs + bs ≤ num_tokens r) as Hle.
    { unfold num_full in Hn. pose proof (Z.mul_div_le (num_tokens r) bs Hbs). nia. }
    unfold num_tokens, zlen in Hle. rewrite drop_app_le, take_app_le by (rewrite ?length_drop; lia). done. }
  rewrite (extends_keys r r' ts) by done. rewrite IH by lia. done.
Qed.

(** ** Requests that grow *)
Definition block_hasher : option (Request F → option (list BlockHash)) :=
  Some (request_block_hasher caching_hash_fn NONE_HASH sha256_tensor bs).

Fixpoint append_all (chunks : list (list Z)) r : option (Request F) :=
  match chunks with
  | [] => Some r
  | ts :: chunks' => r' ← append_output_token_ids block_hasher ts r; append_all chunks' r'
  end.

Lemma request_init_hasher id prompt sp pp t embeds mm lora salt prio r0 :
  request_init None id prompt sp pp t embeds mm lora salt prio = Some r0 →
  request_init block_hasher id prompt sp pp t embeds mm lora salt prio = update_block_hashes block_hasher r0
  ∧ block_hashes r0 = [].
Proof.
  unfold request_init. destruct (match pp with Some _ => _ | None => _ end) as [limits|]; [|done].
  cbn [mbind option_bind].
  destruct (length_from_prompt_token_ids_or_embeds prompt embeds) as [n|]; [|done].
  cbn [mbind option_bind update_block_hashes]. by intros [= <-].
Qed.

Lemma hash_chain_split r k : (k ≤ num_full r)%nat →
  chain_from r None 0 k ++ chain_from r (last (chain_from r None 0 k)) k (num_full r - k) = block_chain r.
Proof.
  intros Hk. unfold block_chain. replace (num_full r) with (k + (num_full r - k))%nat at 2 by lia.
  rewrite chain_app. f_equal. cbn [Nat.add]. unfold last_or. by destruct (last _).
Qed.

Lemma update_chain r k :
  0 < bs → features_ok (mm_features r) → resumable r k → (k ≤ num_full r)%nat →
  block_hashes r = chain_from r None 0 k →
  update_block_hashes block_hasher r = Some (put_block_hashes (block_chain r) r).
Proof.
  intros Hbs Hok Hres Hk Hh. unfold update_block_hashes, block_hasher.
  rewrite (hasher_extends r k) by done. cbn [mbind option_bind]. rewrite Hh, hash_chain_split by done. done.
Qed.

Lemma block_chain_put v r : 0 < bs → block_chain (put_block_hashes v r) = block_chain r.
Proof.
  intros Hbs. apply (extends_chain r (put_block_hashes v r) []); [done| |done].
  split; [|done..]. symmetry. apply app_nil_r.
Qed.

(** A request that has all its hashes, and whose features stay clear of the
    blocks to come. *)
Record hashed r (full0 : nat) : Prop := {
  hs_chain : block_hashes r = block_chain r;
  hs_features : features_ok (mm_features r);
  hs_full : (full0 ≤ num_full r)%nat;
  hs_first : resumable r full0;
  hs_later f : f ∈ mm_features r → mm_end f ≤ Z.of_nat (S full0) * bs
}.

Lemma hashed_resumable r full0 k : 0 < bs → hashed r full0 → (full0 ≤ k)%nat → resumable r k.
Proof.
  intros Hbs Hh Hk. destruct (decide (k = full0)) as [->|Hne]; [apply Hh|]. right.
  apply list.Forall_forall. intros f (i & Hi & _)%elem_of_take. apply list_elem_of_lookup_2 in Hi.
  pose proof (hs_later _ _ Hh f Hi). nia.
Qed.

Lemma num_full_extends r r' ts : 0 < bs → extends r r' ts → (num_full r ≤ num_full r')%nat.
Proof.
  intros Hbs Hext. unfold num_full, num_tokens. rewrite (ex_tokens _ _ _ Hext). unfold zlen. rewrite length_app.
  apply Z2Nat.inj_le; [apply Z.div_pos; lia..|]. apply Z.div_le_mono; lia.
Qed.

Lemma append_hashed r full0 ts : 0 < bs → hashed r full0 →
  ∃ r', append_output_token_ids block_hasher ts r = Some r' ∧ hashed r' full0
    ∧ all_token_ids r' = all_token_ids r ++ ts.
Proof.
  intros Hbs Hh. unfold append_output_token_ids.
  set (r1 := put_all_token_ids _ _). assert (extends r r1 ts) as Hext by (by split).
  pose proof (num_full_extends r r1 ts Hbs Hext) as Hfull.
  exists (put_block_hashes (block_chain r1) r1). split_and!; [|split|done].
  - apply (update_chain r1 (num_full r)); [done|apply (hs_features _ _ Hh)| |done|].
    + apply (hashed_resumable r full0); [done|done|apply (hs_full _ _ Hh)].
    + change (block_hashes r = chain_from r1 None 0 (num_full r)). rewrite (hs_chain _ _ Hh).
      symmetry. by apply (extends_chain r r1 ts).
  - symmetry. by apply block_chain_put.
  - apply (hs_features _ _ Hh).
  - pose proof (hs_full _ _ Hh). change (full0 ≤ num_full r1)%nat. lia.
  - apply (hs_first _ _ Hh).
  - apply (hs_later _ _ Hh).
Qed.

Lemma append_all_hashed full0 chunks : 0 < bs → ∀ r, hashed r full0 →
  ∃ r', append_all chunks r = Some r' ∧ hashed r' full0 ∧ all_token_ids r' = all_token_ids r ++ concat chunks.
Proof.
  intros Hbs. induction chunks as [|ts chunks IH]; intros r Hh; cbn [append_all concat].
  { exists r. by rewrite app_nil_r. }
  destruct (append_hashed r full0 ts Hbs Hh) as (r1 & Hrun & Hh1 & Ht1). rewrite Hrun. cbn [mbind option_bind].
  destruct (IH r1 Hh1) as (r' & Hrest & Hh' & Ht'). exists r'. split_and!; [done..|].
  by rewrite Ht', Ht1, (assoc_L (++)).
Qed.

(** The loop of a whole request: creation, then the output in chunks. *)
Lemma hashing_collects id prompt sp pp t embeds mm lora salt prio chunks r0 :
  request_init None id prompt sp pp t embeds mm lora salt prio = Some r0 →
  0 < bs → features_ok (mm_features r0) →
  (∀ f, f ∈ mm_features r0 → mm_end f ≤ num_tokens r0) → resumable r0 (num_full r0) →
  ∃ r1 r, request_init block_hasher id prompt sp pp t embeds mm lora salt prio = Some r1
    ∧ append_all chunks r1 = Some r
    ∧ all_token_ids r = all_token_ids r0 ++ concat chunks
    ∧ block_hashes r = block_chain r ∧ zlen (block_hashes r) = num_tokens r / bs.
Proof.
  intros Hinit Hbs Hok Hin Hres. apply request_init_hasher in Hinit as [-> Hnone].
  assert (Z.of_nat (num_full r0) * bs ≤ num_tokens r0 < Z.of_nat (S (num_full r0)) * bs) as Hfull.
  { assert (0 ≤ num_tokens r0) by (unfold num_tokens, zlen; lia). unfold num_full.
    pose proof (Z.mul_div_le (num_tokens r0) bs Hbs). pose proof (Z.mul_succ_div_gt (num_tokens r0) bs Hbs).
    pose proof (Z.div_pos (num_tokens r0) bs ltac:(lia) Hbs). rewrite Nat2Z.inj_succ, Z2Nat.id by done. lia. }
  rewrite (update_chain r0 0) by (done || lia || by left).
  set (r1 := put_block_hashes _ _).
  destruct (append_all_hashed (num_full r0) chunks Hbs r1) as (r & Hrun & Hh & Ht).
  { split; [symmetry; by apply block_chain_put|done|done|done|]. intros f Hf. specialize (Hin f Hf). lia. }
  exists r1, r. split_and!; [done..|apply (hs_chain _ _ Hh)|].
  rewrite (hs_chain _ _ Hh). unfold block_chain, zlen. rewrite length_chain. unfold num_full.
  rewrite Z2Nat.id; [done|]. apply Z.div_pos; [|done]. unfold num_tokens, zlen. lia.
Qed.

(** A request the engine has built and grown, whose items are sorted, disjoint
    and inside the prompt, and of which none but the last reaches into the block
    the prompt leaves unfinished (when the prompt fills a block at all). *)
Definition collected r : Prop :=
  ∃ id prompt sp pp t embeds mm lora salt prio chunks r0 r1,
    request_init None id prompt sp pp t embeds mm lora salt prio = Some r0
    ∧ features_ok (mm_features r0) ∧ (∀ f, f ∈ mm_features r0 → mm_end f ≤ num_tokens r0) ∧ resumable r0 (num_full r0)
    ∧ request_init block_hasher id prompt sp pp t embeds mm lora salt prio = Some r1
    ∧ append_all chunks r1 = Some r.

Lemma collected_chain r : 0 < bs → collected r → block_hashes r = block_chain r.
Proof.
  intros Hbs (id & prompt & sp & pp & t & embeds & mm & lora & salt & prio & chunks & r0 & r1 & H0 & Hok & Hin & Hres & H1 & Hr).
  destruct (hashing_collects id prompt sp pp t embeds mm lora salt prio chunks r0 H0 Hbs Hok Hin Hres)
    as (r1' & r' & H1' & Hr' & _ & Hc & _). by simplify_eq.
Qed.

(** C27.  For a request whose multi-modal items are sorted, disjoint, inside
    the prompt, and of which none but the last reaches into the block the
    prompt leaves unfinished (when the prompt fills a block at all): however
    the output arrives, one token at a time or in chunks, the hashes collected
    are those of the reference chain over all full blocks, each with the extra
    keys of every item that touches the block; the hashing loop ends and no
    assertion fails.  Without the last condition an item is missed
    ([trailing_item_missed]). *)
Theorem incremental_hashing id prompt sp pp t embeds mm lora salt prio chunks r0 :
  request_init None id prompt sp pp t embeds mm lora salt prio = Some r0 →
  0 < bs → features_ok (mm_features r0) →
  (∀ f, f ∈ mm_features r0 → mm_end f ≤ num_tokens r0) → resumable r0 (num_full r0) →
  ∃ r1 r, request_init block_hasher id prompt sp pp t embeds mm lora salt prio = Some r1
    ∧ append_all chunks r1 = Some r
    ∧ all_token_ids r = all_token_ids r0 ++ concat chunks
    ∧ block_hashes r = block_chain r ∧ zlen (block_hashes r) = num_tokens r / bs.
Proof. apply hashing_collects. Qed.
End facts.

(** ** Equal hashes, equal contents *)
Section soundness.
Context {F : Type} `{FO : FloatOps F}.
Context (caching_hash_fn : HashInput → BlockHash) (NONE_HASH : BlockHash).
Context (sha256_tensor : list (list Z) → list Z).
Context (bs : Z).
(** The hash function has no collisions and never gives the seed. *)
Context (hash_inj : Inj (=) (=) caching_hash_fn).
Context (hash_fresh : ∀ x, caching_hash_fn x ≠ NONE_HASH ∧ caching_hash_fn x ≠ []).
Implicit Types (r : Request F).

Notation chain := (chain_from caching_hash_fn NONE_HASH sha256_tensor bs).
Notation keys := (block_keys sha256_tensor bs).

(** The parent a block is hashed with. *)
Definition parent_of (prev : option BlockHash) : BlockHash :=
  match prev with None | Some [] => NONE_HASH | Some h => h end.

Lemma chain_lookup r n : ∀ prev i j h, chain r prev i n !! j = Some h →
  ∃ p, h = caching_hash_fn (parent_of p, block_tokens bs r (i + j), keys r (i + j))
    ∧ match j with O => p = prev | S j' => ∃ g, p = Some g ∧ chain r prev i n !! j' = Some g end.
Proof.
  induction n as [|n IH]; intros prev i j h; cbn [chain_from]; [done|].
  destruct j as [|j]; cbn [lookup list_lookup].
  { intros [= <-]. exists prev. by rewrite Nat.add_0_r. }
  intros Hj. destruct (IH _ _ _ _ Hj) as (p & -> & Hp). exists p.
  rewrite <-Nat.add_succ_comm. split; [done|].
  destruct j as [|j]; [by eexists|done].
Qed.

Lemma chain_injective r1 r2 n1 n2 i : ∀ j h,
  chain r1 None 0 n1 !! i = Some h → chain r2 None 0 n2 !! j = Some h →
  i = j ∧ ∀ k, (k ≤ i)%nat → block_tokens bs r1 k = block_tokens bs r2 k ∧ keys r1 k = keys r2 k.
Proof.
  assert (∀ n r j g, chain r None 0 n !! j = Some g → parent_of (Some g) = g ∧ g ≠ NONE_HASH) as Hsome.
  { intros n r j g Hg. destruct (chain_lookup r n None 0 j g Hg) as (p & -> & _).
    destruct (hash_fresh (parent_of p, block_tokens bs r (0 + j), keys r (0 + j))) as [Hn He].
    split; [|done]. unfold parent_of at 1. by destruct (caching_hash_fn _). }
  induction i as [|i IH]; intros j h Hi Hj.
  all: destruct (chain_lookup r1 n1 None 0 _ h Hi) as (p1 & E1 & Hp1).
  all: destruct (chain_lookup r2 n2 None 0 _ h Hj) as (p2 & E2 & Hp2).
  all: rewrite E1 in E2; apply hash_inj in E2; injection E2 as Ep Et Ek.
  - subst p1. destruct j as [|j].
    { split; [done|]. intros k Hk. by replace k with 0%nat by lia. }
    destruct Hp2 as (g & -> & Hg). destruct (Hsome _ _ _ _ Hg) as [Hpg Hne]. rewrite Hpg in Ep. by destruct Hne.
  - destruct Hp1 as (g1 & -> & Hg1). destruct (Hsome _ _ _ _ Hg1) as [Hpg1 Hne1]. rewrite Hpg1 in Ep.
    destruct j as [|j]; [subst p2; by destruct Hne1|].
    destruct Hp2 as (g2 & -> & Hg2). destruct (Hsome _ _ _ _ Hg2) as [Hpg2 _]. rewrite Hpg2 in Ep. subst g2.
    destruct (IH j g1 Hg1 Hg2) as [-> Hall]. split; [done|].
    intros k Hk. destruct (decide (k = S j)) as [->|Hne]; [done|]. apply Hall. lia.
Qed.

Lemma blocks_prefix r1 r2 n : 0 < bs →
  (∀ k, (k < n)%nat → block_tokens bs r1 k = block_tokens bs r2 k) →
  take (Z.to_nat (Z.of_nat n * bs)) (all_token_ids r1) = take (Z.to_nat (Z.of_nat n * bs)) (all_token_ids r2).
Proof.
  intros Hbs. induction n as [|n IH]; intros Hall; [done|].
  replace (Z.to_nat (Z.of_nat (S n) * bs)) with (Z.to_nat (Z.of_nat n * bs) + Z.to_nat bs)%nat by lia.
  rewrite <-!take_take_drop, IH by auto. f_equal. specialize (Hall n ltac:(lia)).
  unfold block_tokens, slice in Hall. by replace (Z.of_nat n * bs + bs - Z.of_nat n * bs) with bs in Hall by lia.
Qed.

(** ** What the extra keys of a block tell *)
Definition is_item (k : ExtraKey) : bool := match k with KItem _ _ => true | _ => false end.
Definition is_digest (k : ExtraKey) : bool := match k with KBytes _ => true | _ => false end.
Definition is_name (k : ExtraKey) : bool := match k with KStr _ => true | _ => false end.

(** The adapter's name and, in the first block, the cache salt. *)
Definition block_names r (k : nat) : list ExtraKey :=
  gen_lora_extra_hash_keys r ++ cache_salt_keys r (Z.of_nat k * bs).
Definition block_digest r (k : nat) : list ExtraKey :=
  gen_prompt_embeds_extra_hash_keys sha256_tensor r (Z.of_nat k * bs) (Z.of_nat k * bs + bs).

Lemma keeps_all {A} (p : A → bool) l : Forall (λ x, p x = true) l → List.filter p l = l.
Proof. induction 1 as [|x l Hx _ IH]; cbn; [done|]. by rewrite Hx, IH. Qed.
Lemma keeps_none {A} (p : A → bool) l : Forall (λ x, p x = false) l → List.filter p l = [].
Proof. induction 1 as [|x l Hx _ IH]; cbn; [done|]. by rewrite Hx. Qed.

Lemma names_are r k : Forall (λ x, is_name x = true) (gen_lora_extra_hash_keys r)
  ∧ Forall (λ x, is_name x = true) (cache_salt_keys r k).
Proof.
  unfold gen_lora_extra_hash_keys, cache_salt_keys.
  split; repeat case_match; repeat constructor.
Qed.
Lemma items_are r k : Forall (λ x, is_item x = true) (block_items bs r k).
Proof. apply Forall_fmap, Forall_true. done. Qed.
Lemma digest_is r k : Forall (λ x, is_digest x = true) (block_digest r k).
Proof. unfold block_digest, gen_prompt_embeds_extra_hash_keys. repeat case_match; repeat constructor. Qed.

(** Names, items and digests can be told apart in the tuple of keys. *)
Lemma keys_parts r k :
  let l := default [] (keys r k) in
  List.filter is_name l = block_names r k ∧ List.filter is_item l = block_items bs r k
  ∧ List.filter is_digest l = block_digest r k.
Proof.
  assert (default [] (keys r k) = gen_lora_extra_hash_keys r ++ block_items bs r k
    ++ cache_salt_keys r (Z.of_nat k * bs) ++ block_digest r k) as ->.
  { unfold block_keys, block_digest. by case_match. }
  destruct (names_are r (Z.of_nat k * bs)) as [Hl Hc]. pose proof (items_are r k) as Hi. pose proof (digest_is r k) as Hd.
  cbv zeta. rewrite !List.filter_app. unfold block_names. split_and!.
  - rewrite (keeps_all is_name _ Hl), (keeps_all is_name _ Hc), (keeps_none is_name (block_items bs r k)),
      (keeps_none is_name (block_digest r k)); [by rewrite app_nil_r| |].
    + eapply Forall_impl; [exact Hd|]. by intros [].
    + eapply Forall_impl; [exact Hi|]. by intros [].
  - rewrite (keeps_all is_item _ Hi), (keeps_none is_item (gen_lora_extra_hash_keys r)),
      (keeps_none is_item (cache_salt_keys r _)), (keeps_none is_item (block_digest r k)); [by rewrite !app_nil_r|..].
    + eapply Forall_impl; [exact Hd|]. by intros [].
    + eapply Forall_impl; [exact Hc|]. by intros [].
    + eapply Forall_impl; [exact Hl|]. by intros [].
  - rewrite (keeps_all is_digest _ Hd), (keeps_none is_digest (gen_lora_extra_hash_keys r)),
      (keeps_none is_digest (block_items bs r k)), (keeps_none is_digest (cache_salt_keys r _)); [done|..].
    + eapply Forall_impl; [exact Hc|]. by intros [].
    + eapply Forall_impl; [exact Hi|]. by intros [].
    + eapply Forall_impl; [exact Hl|]. by intros [].
Qed.

(** C28.  What a hash the engine has computed says of the content, under a
    collision-free hash function that never gives the seed: when two requests,
    built and grown by the engine with items as asked for above, have the same
    hash for some block, it is the same block of both; all tokens up to its end
    are the same, and in every block up to it the same items lie at the same
    places and the prompt embeddings have the same digest.  The names of the
    adapter and of the cache salt are the same taken together; beyond the first
    block each of them is ([adapter_or_salt] shows why not before). *)
Theorem equal_hash_equal_prefix r1 r2 i j h :
  0 < bs →
  collected caching_hash_fn NONE_HASH sha256_tensor bs r1 →
  collected caching_hash_fn NONE_HASH sha256_tensor bs r2 →
  block_hashes r1 !! i = Some h → block_hashes r2 !! j = Some h →
  i = j
  ∧ (let n := Z.to_nat (Z.of_nat (S i) * bs) in take n (all_token_ids r1) = take n (all_token_ids r2))
  ∧ (∀ k, (k ≤ i)%nat → block_items bs r1 k = block_items bs r2 k ∧ block_digest r1 k = block_digest r2 k)
  ∧ gen_lora_extra_hash_keys r1 ++ cache_salt_keys r1 0 = gen_lora_extra_hash_keys r2 ++ cache_salt_keys r2 0
  ∧ ((0 < i)%nat → gen_lora_extra_hash_keys r1 = gen_lora_extra_hash_keys r2
                   ∧ cache_salt_keys r1 0 = cache_salt_keys r2 0).
Proof.
  intros Hbs H1 H2. rewrite (collected_chain _ _ _ _ r1 Hbs H1), (collected_chain _ _ _ _ r2 Hbs H2). intros Hi Hj.
  destruct (chain_injective r1 r2 _ _ i j h Hi Hj) as [-> Hall].
  assert (∀ k, (k ≤ j)%nat → block_names r1 k = block_names r2 k ∧ block_items bs r1 k = block_items bs r2 k
    ∧ block_digest r1 k = block_digest r2 k) as Hparts.
  { intros k Hk. destruct (Hall k Hk) as [_ E]. destruct (keys_parts r1 k) as (<- & <- & <-).
    destruct (keys_parts r2 k) as (<- & <- & <-). by rewrite E. }
  destruct (Hparts 0%nat ltac:(lia)) as (Hn0 & _). unfold block_names in Hn0. cbn [Z.of_nat] in Hn0. rewrite Z.mul_0_l in Hn0.
  split_and!; [done| | |done|].
  - apply blocks_prefix; [done|]. intros k Hk. apply Hall. lia.
  - intros k Hk. by apply Hparts.
  - intros Hpos. destruct (Hparts 1%nat ltac:(lia)) as (Hn1 & _).
    assert (∀ r, cache_salt_keys r (Z.of_nat 1 * bs) = []) as Hnone.
    { intros r. unfold cache_salt_keys. rewrite (proj2 (Z.eqb_neq _ 0)) by lia. by case_match. }
    unfold block_names in Hn1. rewrite !Hnone, !app_nil_r in Hn1. split; [done|]. rewrite Hn1 in Hn0. by apply app_inv_head in Hn0.
Qed.
End soundness.

(** ** Concrete requests *)
(** A collision-free hash function: the code of what is hashed. *)
#[export] Instance ExtraKey_countable : Countable ExtraKey.
Proof.
  refine (inj_countable' (λ k, match k with
    | KStr s => inl s | KItem i o => inr (inl (i, o)) | KBytes b => inr (inr b) end)
    (λ x, match x with inl s => KStr s | inr (inl (i, o)) => KItem i o | inr (inr b) => KBytes b end) _).
  by intros [].
Defined.
Definition code_hash (x : HashInput) : BlockHash := [Z.pos (encode x)].
Definition seed_hash : BlockHash := [0].
Definition tensor_digest (e : list (list Z)) : list Z := concat e.

Lemma code_hash_inj : Inj (=) (=) code_hash.
Proof. intros x y [= E]. by apply (inj encode). Qed.
Lemma code_hash_fresh x : code_hash x ≠ seed_hash ∧ code_hash x ≠ [].
Proof. by split. Qed.

Definition greedy : SamplingParams := mkSamplingParams (Some 16) 0 None None None None false.
(** A prompt of seven tokens; the items lie in the placeholder tokens 9. *)
Definition demo_request (id : string) (mm : list MMFeature) (lora : option LoRARequest) (salt : option string) :
    option (Request Q) :=
  request_init None id (Some [1; 2; 3; 4; 9; 9; 5]) (Some greedy) None 0%Q None mm lora salt 0.
Definition image (id : string) (offset : Z) : MMFeature := mkMMFeature id offset 1 None.
Definition demo_run (mm : list MMFeature) (lora : option LoRARequest) (salt : option string)
    (chunks : list (list Z)) (hash : HashInput → BlockHash) : option (list BlockHash) :=
  r0 ← demo_request "r" mm lora salt;
  r1 ← update_block_hashes (block_hasher hash seed_hash tensor_digest 4) r0;
  r ← append_all hash seed_hash tensor_digest 4 chunks r1;
  Some (block_hashes r).

(** Two items in the block the prompt leaves unfinished: the key of the block
    misses the first, whatever the hash function. *)
Example trailing_item_missed hash :
  demo_run [image "cat" 4; image "dog" 5] None None [[6]] hash
  = demo_run [image "cow" 4; image "dog" 5] None None [[6]] hash
  ∧ (∀ r r', demo_request "r" [image "cat" 4; image "dog" 5] None None = Some r →
       demo_request "r" [image "cow" 4; image "dog" 5] None None = Some r' →
       block_keys tensor_digest 4 r 1 ≠ block_keys tensor_digest 4 r' 1).
Proof. split; [reflexivity|]. intros r r' [= <-] [= <-]. by vm_compute. Qed.

(** An adapter and a cache salt of the same name give the same first block. *)
Example adapter_or_salt hash :
  head <$> demo_run [] (Some (mkLoRARequest "x" 1)) None [] hash
  = head <$> demo_run [] None (Some "x"%string) [] hash.
Proof. reflexivity. Qed.

Lemma incremental_hashing_witness :
  ∃ r1 r, request_init (block_hasher code_hash seed_hash tensor_digest 4) "r" (Some [1; 2; 3; 4; 9; 9; 5])
      (Some greedy) None 0%Q None [image "cat" 1; image "dog" 5] None None 0 = Some r1
    ∧ append_all code_hash seed_hash tensor_digest 4 [[6]; [7; 8; 9]; [10]] r1 = Some r
    ∧ zlen (block_hashes r) = 3.
Proof.
  destruct (demo_request "r" [image "cat" 1; image "dog" 5] None None) as [r0|] eqn:E; [|by vm_compute in E].
  destruct (incremental_hashing code_hash seed_hash tensor_digest 4 "r" (Some [1; 2; 3; 4; 9; 9; 5]) (Some greedy)
    None 0%Q None [image "cat" 1; image "dog" 5] None None 0 [[6]; [7; 8; 9]; [10]] r0 E)
    as (r1 & r & Hinit & Hrun & Ht & Hh & Hlen); injection E as <-.
  - done.
  - split; [repeat constructor; by vm_compute|repeat constructor].
  - intros f Hf. cbn in Hf. repeat (apply elem_of_cons in Hf as [->|Hf]; [by vm_compute|]). by apply elem_of_nil in Hf.
  - right. repeat constructor. by vm_compute.
  - exists r1, r. split; [exact Hinit|]. split; [exact Hrun|]. rewrite Hlen. unfold num_tokens. rewrite Ht. done.
Defined.

(** Two requests of the same prompt, one with its output. *)
Definition grown (chunks : list (list Z)) : option (Request Q) :=
  r1 ← request_init (block_hasher code_hash seed_hash tensor_digest 4) "r" (Some [1; 2; 3; 4; 9; 9; 5])
         (Some greedy) None 0%Q None [image "cat" 1; image "dog" 5] None (Some "salt"%string) 0;
  append_all code_hash seed_hash tensor_digest 4 chunks r1.

Lemma grown_collected chunks r : grown chunks = Some r → collected code_hash seed_hash tensor_digest 4 r.
Proof.
  unfold grown. intros Hg. apply bind_Some in Hg as (r1 & H1 & Hr).
  destruct (demo_request "r" [image "cat" 1; image "dog" 5] None (Some "salt"%string)) as [r0|] eqn:E0; [|by vm_compute in E0].
  exists "r"%string, (Some [1; 2; 3; 4; 9; 9; 5]), (Some greedy), None, 0%Q, None, [image "cat" 1; image "dog" 5], None,
    (Some "salt"%string), 0, chunks, r0, r1.
  split; [exact E0|]. injection E0 as <-. split_and!; [| | |exact H1|exact Hr].
  - split; [repeat constructor; by vm_compute|repeat constructor].
  - intros f Hf. cbn in Hf. repeat (apply elem_of_cons in Hf as [->|Hf]; [by vm_compute|]). by apply elem_of_nil in Hf.
  - right. repeat constructor. by vm_compute.
Qed.

Lemma equal_hash_equal_prefix_witness :
  ∃ r1 r2 h, grown [[6]; [7; 8; 9]] = Some r1 ∧ grown [[6; 7]] = Some r2
    ∧ block_hashes r1 !! 1%nat = Some h ∧ block_hashes r2 !! 1%nat = Some h
    ∧ take 8 (all_token_ids r1) = take 8 (all_token_ids r2).
Proof.
  destruct (grown [[6]; [7; 8; 9]]) as [r1|] eqn:E1; [|by vm_compute in E1].
  destruct (grown [[6; 7]]) as [r2|] eqn:E2; [|by vm_compute in E2].
  pose proof (grown_collected _ _ E1) as C1. pose proof (grown_collected _ _ E2) as C2.
  destruct (block_hashes r1 !! 1%nat) as [h|] eqn:H1.
  - assert (block_hashes r2 !! 1%nat = Some h) as H2.
    { vm_compute in E1, E2. injection E1 as <-. injection E2 as <-. vm_compute in H1 |- *. exact H1. }
    exists r1, r2, h. split_and!; [done..|].
    destruct (equal_hash_equal_prefix code_hash seed_hash tensor_digest 4 code_hash_inj code_hash_fresh
      r1 r2 1 1 h ltac:(done) C1 C2 H1 H2) as (_ & Ht & _). exact Ht.
  - exfalso. vm_compute in E1. injection E1 as <-. vm_compute in H1. discriminate H1.
Defined.
