(* ===== verification/EncoderCache.v ===== *)
(** * The encoder cache ([vllm/v1/core/encoder_cache_manager.py])

    Embeddings of multi-modal items, shared between requests by identifier and
    evicted oldest first once no request refers to them, with the part of the
    scheduler that asks for them ([_try_schedule_encoder_inputs],
    [_free_encoder_inputs] and the allocation that follows, in
    [vllm/v1/core/sched/scheduler.py]). *)
From S2P Require Import Prelude PyFloat Request.
Local Open Scope Z_scope.

(** ** [EncoderCacheManager] *)
Record EncoderCacheManager := mkEncoderCache {
  cache_size : Z;
  num_free_slots : Z;
  num_freeable_slots : Z;
  cached : odict string (gset string);
  freeable : odict string Z;
  freed : list string
}.

Definition encoder_eta (s : EncoderCacheManager) : EncoderCacheManager :=
  {| cache_size := cache_size s; num_free_slots := num_free_slots s;
     num_freeable_slots := num_freeable_slots s; cached := cached s; freeable := freeable s;
     freed := freed s |}.
Definition put_num_free_slots (v : Z) (s : EncoderCacheManager) : EncoderCacheManager :=
  ltac:(update_field encoder_eta (num_free_slots s) v s).
Definition put_num_freeable_slots (v : Z) (s : EncoderCacheManager) : EncoderCacheManager :=
  ltac:(update_field encoder_eta (num_freeable_slots s) v s).
Definition put_cached (v : odict string (gset string)) (s : EncoderCacheManager) : EncoderCacheManager :=
  ltac:(update_field encoder_eta (cached s) v s).
Definition put_freeable (v : odict string Z) (s : EncoderCacheManager) : EncoderCacheManager :=
  ltac:(update_field encoder_eta (freeable s) v s).
Definition put_freed (v : list string) (s : EncoderCacheManager) : EncoderCacheManager :=
  ltac:(update_field encoder_eta (freed s) v s).

Notation EM := (M EncoderCacheManager).

(** [__init__] *)
Definition encoder_init (size : Z) : EncoderCacheManager :=
  {| cache_size := size; num_free_slots := size; num_freeable_slots := size; cached := [];
     freeable := []; freed := [] |}.

(** [reset] *)
Definition encoder_reset : EM unit := modify (λ s, encoder_init (cache_size s)).

Section Encoder.
Context {F : Type} `{FloatOps F}.

(** [request.mm_features[input_id]] *)
Definition feature {S} (request : Request F) (input_id : nat) : M S MMFeature :=
  match mm_features request !! input_id with
  | Some f => mret f
  | None => raise IndexError
  end.

(** [check_and_update_cache] *)
Definition check_and_update_cache (request : Request F) (input_id : nat) : EM bool :=
  f ← feature request input_id;
  s ← get_state;
  let mm_hash := identifier f in
  match od_get mm_hash (cached s) with
  | None => mret false
  | Some users =>
      (if bool_decide (users = ∅)
       then match od_get mm_hash (freeable s) with
            | None => raise KeyError
            | Some num_encoder_embeds =>
                modify (λ s, put_num_freeable_slots (num_freeable_slots s - num_encoder_embeds)
                               (put_freeable (od_del mm_hash (freeable s)) s))
            end
       else mret tt) ;;
      modify (λ s, put_cached (od_alter (λ users, {[request_id request]} ∪ users) mm_hash (cached s)) s) ;;
      mret true
  end.

(** The eviction loop of [can_allocate]; every round pops from [freeable], so
    its entries bound the rounds. *)
Fixpoint evict_until (num_embeds : Z) (entries : odict string Z) : EM unit :=
  s ← get_state;
  if num_embeds <=? num_free_slots s then mret tt
  else
    match entries with
    | [] => raise KeyError
    | (mm_hash, num_free_embeds) :: entries' =>
        modify (put_freeable entries') ;;
        s ← get_state;
        if od_mem mm_hash (cached s) then
          modify (λ s, put_num_free_slots (num_free_slots s + num_free_embeds)
                         (put_freed (freed s ++ [mm_hash]) (put_cached (od_del mm_hash (cached s)) s))) ;;
          evict_until num_embeds entries'
        else raise KeyError
    end.

(** [can_allocate] *)
Definition can_allocate (request : Request F) (input_id : nat)
    (encoder_compute_budget num_embeds_to_schedule : Z) : EM bool :=
  match get_num_encoder_embeds request input_id with
  | None => raise AssertionError
  | Some num_embeds =>
      s ← get_state;
      if encoder_compute_budget <? num_embeds then mret false
      else
        let num_embeds := num_embeds + num_embeds_to_schedule in
        if num_embeds <=? num_free_slots s then mret true
        else if num_freeable_slots s <? num_embeds then mret false
        else evict_until num_embeds (freeable s) ;; mret true
  end.

(** [allocate] *)
Definition allocate (request : Request F) (input_id : nat) : EM unit :=
  f ← feature request input_id;
  let mm_hash := identifier f in
  modify (λ s, put_cached (od_setdefault mm_hash ∅ (cached s)) s) ;;
  let num_encoder_embeds := get_num_embeds f in
  s ← get_state;
  assertM (num_encoder_embeds <=? num_free_slots s) ;;
  assertM (num_encoder_embeds <=? num_freeable_slots s) ;;
  modify (λ s, put_num_freeable_slots (num_freeable_slots s - num_encoder_embeds)
                 (put_num_free_slots (num_free_slots s - num_encoder_embeds)
                   (put_cached (od_alter (λ users, {[request_id request]} ∪ users) mm_hash (cached s)) s))).

(** [get_cached_input_ids], in the order the set of small ints iterates. *)
Definition get_cached_input_ids (request : Request F) (s : EncoderCacheManager) : list nat :=
  filter (λ i, match mm_features request !! i with
               | Some f => od_mem (identifier f) (cached s)
               | None => false
               end = true) (seq 0 (length (mm_features request))).

(** [free_encoder_input] *)
Definition free_encoder_input (request : Request F) (input_id : nat) : EM unit :=
  f ← feature request input_id;
  s ← get_state;
  let mm_hash := identifier f in
  match od_get mm_hash (cached s) with
  | None => mret tt
  | Some users =>
      if bool_decide (users = ∅) then mret tt
      else
        let users := users ∖ {[request_id request]} in
        modify (λ s, put_cached (od_alter (λ _, users) mm_hash (cached s)) s) ;;
        if bool_decide (users = ∅) then
          modify (λ s, put_num_freeable_slots (num_freeable_slots s + get_num_embeds f)
                         (put_freeable (od_set mm_hash (get_num_embeds f) (freeable s)) s))
        else mret tt
  end.

(** [free] *)
Definition free (request : Request F) : EM unit :=
  s ← get_state;
  forM (get_cached_input_ids request s) (free_encoder_input request).

(** [get_freed_mm_hashes] *)
Definition get_freed_mm_hashes : EM (list string) :=
  s ← get_state;
  modify (put_freed []) ;; mret (freed s).

(** ** [compute_mm_encoder_budget]; [None] is the [ValueError] *)
Definition compute_mm_encoder_budget (disable_chunked : bool)
    (max_num_batched_tokens max_num_encoder_input_tokens encoder_cache_size : Z)
    (mm_max_toks_per_item : odict string Z) : option (Z * Z) :=
  match od_values mm_max_toks_per_item with
  | [] => Some (0, 0)
  | n :: l =>
      let max_tokens_per_mm_item := foldl Z.max n l in
      if disable_chunked && (max_num_batched_tokens <? max_tokens_per_mm_item) then None
      else Some (Z.max max_num_encoder_input_tokens max_tokens_per_mm_item,
                 Z.max encoder_cache_size max_tokens_per_mm_item)
  end.
End Encoder.

(** ** [EncoderDecoderCacheManager] *)
Module EncoderDecoder.
Record EncoderDecoderCacheManager := mkEncoderDecoder {
  cache_size : Z;
  num_free_slots : Z;
  allocated : list string;
  to_free : list string
}.
Section EncoderDecoder.
Context {F : Type} `{FloatOps F}.
Notation DM := (M EncoderDecoderCacheManager).

Definition init (size : Z) : EncoderDecoderCacheManager := mkEncoderDecoder size size [] [].
Definition reset : DM unit := modify (λ s, init (cache_size s)).

Definition can_allocate (request : Request F) (input_id : nat)
    (encoder_compute_budget num_embeds_to_schedule : Z) : DM bool :=
  match get_num_encoder_embeds request input_id with
  | None => raise AssertionError
  | Some n =>
      s ← get_state;
      mret (negb (encoder_compute_budget <? n) && (n + num_embeds_to_schedule <=? num_free_slots s))
  end.

Definition allocate (request : Request F) (input_id : nat) : DM unit :=
  match mm_features request !! input_id with
  | None => raise AssertionError
  | Some f => modify (λ s, mkEncoderDecoder (cache_size s) (num_free_slots s - get_num_embeds f)
                             (allocated s ++ [identifier f]) (to_free s))
  end.

Definition free_encoder_input (request : Request F) (input_id : nat) : DM unit :=
  match get_num_encoder_embeds request input_id with
  | None => raise AssertionError
  | Some n => modify (λ s, mkEncoderDecoder (cache_size s) (num_free_slots s + n) (allocated s) (to_free s))
  end.

Definition free (request : Request F) : DM unit :=
  forM (seq 0 (length (mm_features request))) (free_encoder_input request).

Definition get_freed_mm_hashes : DM (list string) :=
  s ← get_state;
  modify (λ s, mkEncoderDecoder (cache_size s) (num_free_slots s) [] (allocated s)) ;;
  mret (to_free s).
End EncoderDecoder.
End EncoderDecoder.

(** ** The scheduler's side

    It works with either manager, through the calls both have. *)
Class EncoderManager (F S : Type) := {
  em_check : Request F → nat → M S bool;
  em_can_allocate : Request F → nat → Z → Z → M S bool;
  em_allocate : Request F → nat → M S unit;
  em_free_input : Request F → nat → M S unit;
  em_cached_ids : Request F → S → list nat
}.

#[export] Instance encoder_cache_manager {F} `{FloatOps F} : EncoderManager F EncoderCacheManager := {
  em_check := check_and_update_cache;
  em_can_allocate := can_allocate;
  em_allocate := allocate;
  em_free_input := free_encoder_input;
  em_cached_ids := get_cached_input_ids
}.

#[export] Instance encoder_decoder_manager {F} `{FloatOps F} :
    EncoderManager F EncoderDecoder.EncoderDecoderCacheManager := {
  em_check _ _ := mret false;
  em_can_allocate := EncoderDecoder.can_allocate;
  em_allocate := EncoderDecoder.allocate;
  em_free_input := EncoderDecoder.free_encoder_input;
  em_cached_ids request _ := seq 0 (length (mm_features request))
}.

(** ** What the scheduler asks for

    The settings it reads: [is_encoder_decoder], [disable_chunked_mm_input]
    and the external encoder cache ([None] without one). *)
Record EncoderSettings := mkEncoderSettings {
  is_encoder_decoder : bool;
  disable_chunked_mm_input : bool;
  has_cache_item : option (string → bool)
}.

(** The local variables of [_try_schedule_encoder_inputs]. *)
Record Plan := mkPlan {
  inputs_to_schedule : list nat;
  external_inputs : list nat;
  hashes_to_schedule : gset string;
  embeds_to_schedule : Z;
  new_tokens : Z;
  compute_budget : Z
}.

Section Scheduling.
Context {F T : Type} `{FloatOps F} `{EncoderManager F T}.
Context (settings : EncoderSettings) (request : Request F) (computed shift : Z).

(** What becomes of an input that is not in the cache: skipped (no embedding
    in range), loaded from outside, or scheduled. *)
Definition settle (i : nat) (f : MMFeature) (p : Plan) : M T Plan :=
  let start_idx_rel := Z.max 0 (computed - mm_offset f) in
  let end_idx_rel := Z.min (mm_length f) (computed + new_tokens p - mm_offset f) in
  match get_embeds_indices_in_range f start_idx_rel end_idx_rel with
  | None => raise IndexError
  | Some (curr_embeds_start, curr_embeds_end) =>
      if curr_embeds_end - curr_embeds_start =? 0 then mret p
      else if match has_cache_item settings with Some has => has (identifier f) | None => false end
      then mret (mkPlan (inputs_to_schedule p) (external_inputs p ++ [i])
                   ({[identifier f]} ∪ hashes_to_schedule p)
                   (embeds_to_schedule p + get_num_embeds f) (new_tokens p) (compute_budget p))
      else mret (mkPlan (inputs_to_schedule p ++ [i]) (external_inputs p)
                   ({[identifier f]} ∪ hashes_to_schedule p)
                   (embeds_to_schedule p + get_num_embeds f) (new_tokens p)
                   (compute_budget p - get_num_embeds f))
  end.

Definition with_tokens (n : Z) (p : Plan) : Plan :=
  mkPlan (inputs_to_schedule p) (external_inputs p) (hashes_to_schedule p) (embeds_to_schedule p) n
    (compute_budget p).

(** The loop over the features from the [i]-th on. *)
Fixpoint plan_inputs (i : nat) (features : list MMFeature) (p : Plan) : M T Plan :=
  match features with
  | [] => mret p
  | f :: features' =>
      let start_pos := mm_offset f in
      let num_encoder_tokens := mm_length f in
      let next := plan_inputs (S i) features' in
      if computed + new_tokens p + shift <=? start_pos then mret p
      else if is_encoder_decoder settings && (0 <? computed)
      then assertM (start_pos =? 0) ;; next p
      else if start_pos + num_encoder_tokens <=? computed then next p
      else
        seen ← (if is_encoder_decoder settings then mret false
                else if bool_decide (identifier f ∈ hashes_to_schedule p) then mret true
                else em_check request i);
        if seen : bool then next p
        else if disable_chunked_mm_input settings && (computed <? start_pos)
                && (computed + new_tokens p <? start_pos + num_encoder_tokens)
        then mret (with_tokens (Z.max 0 (start_pos - (computed + shift))) p)
        else
          ok ← em_can_allocate request i (compute_budget p) (embeds_to_schedule p);
          if ok : bool then p' ← settle i f p; next p'
          else if computed + shift <? start_pos
          then mret (with_tokens (start_pos - (computed + shift)) p)
          else mret (with_tokens 0 p)
  end.

(** [_try_schedule_encoder_inputs] *)
Definition try_schedule_encoder_inputs (num_new_tokens encoder_compute_budget : Z) : M T Plan :=
  let p := mkPlan [] [] ∅ 0 num_new_tokens encoder_compute_budget in
  if (num_new_tokens =? 0) || negb (has_encoder_inputs request) then mret p
  else plan_inputs 0 (mm_features request) p.

(** The allocations that follow when the request is scheduled. *)
Definition allocate_inputs (p : Plan) : M T unit :=
  forM (inputs_to_schedule p) (em_allocate request) ;;
  forM (external_inputs p) (em_allocate request).

(** [_free_encoder_inputs] *)
Definition free_encoder_inputs : M T unit :=
  s ← get_state;
  forM (em_cached_ids request s) (λ input_id,
    f ← feature request input_id;
    if (is_encoder_decoder settings && (0 <? num_computed_tokens request))
       || (mm_offset f + mm_length f <=? num_computed_tokens request)
    then em_free_input request input_id else mret tt).
End Scheduling.
