(* ===== verification/EncoderFacts.v ===== *)
(** * Facts about the encoder cache

    The space accounting of the encoder cache, its eviction order, and the
    scheduler's use of it. *)
From Stdlib Require Import QArith.
From S2P Require Import Prelude PyFloat Request EncoderCache.
Local Open Scope Z_scope.

(** Projections of updated states. *)
Ltac ec_simpl := cbn [cached freeable freed num_free_slots num_freeable_slots cache_size
  put_cached put_freeable put_freed put_num_free_slots put_num_freeable_slots] in *.

Section accounting.
(** The number of embeddings of an item depends on its identifier, the hash of
    its content, only. *)
Context (size : string → Z) (size_nonneg : ∀ h, 0 ≤ size h).
Implicit Types (s : EncoderCacheManager) (h : string).

Definition occupied s : Z := sumZ (size <$> od_keys (cached s)).
Definition spare s : Z := sumZ (od_values (freeable s)).

Record enc_inv s : Prop := {
  ei_cached : od_wf (cached s);
  ei_freeable : od_wf (freeable s);
  ei_entry h : od_get h (freeable s)
    = match od_get h (cached s) with
      | Some users => if decide (users = ∅) then Some (size h) else None
      | None => None
      end;
  ei_total : num_free_slots s + occupied s = cache_size s;
  ei_spare : num_freeable_slots s = num_free_slots s + spare s;
  ei_free : 0 ≤ num_free_slots s
}.

Lemma init_inv n : 0 ≤ n → enc_inv (encoder_init n).
Proof. intros Hn. split; try done; cbn; lia || apply od_wf_nil. Qed.

Lemma spare_nonneg s : enc_inv s → 0 ≤ spare s.
Proof.
  intros Hi. apply sumZ_nonneg, list.Forall_forall. intros n ([h m] & -> & Hin)%list_elem_of_fmap.
  apply (od_elem_get _ _ _ (ei_freeable _ Hi)) in Hin. rewrite (ei_entry _ Hi) in Hin.
  repeat case_match; simplify_eq. apply size_nonneg.
Qed.

Lemma sum_del (f : string → Z) {V} k (d : odict string V) v :
  od_wf d → od_get k d = Some v → sumZ (f <$> od_keys d) = f k + sumZ (f <$> od_keys (od_del k d)).
Proof.
  intros Hwf Hk. rewrite (sumZ_Permutation _ (f <$> od_keys ((k, v) :: od_del k d))); [done|].
  apply fmap_Permutation, fmap_Permutation. by apply od_del_Permutation.
Qed.

Lemma values_del k (d : odict string Z) v :
  od_wf d → od_get k d = Some v → sumZ (od_values d) = v + sumZ (od_values (od_del k d)).
Proof.
  intros Hwf Hk. rewrite (sumZ_Permutation _ (od_values ((k, v) :: od_del k d))); [done|].
  apply fmap_Permutation. by apply od_del_Permutation.
Qed.

(** ** Eviction *)
(** [gone], the oldest entries of [freeable], just suffice for [need]. *)
Record evicts (need : Z) s s' (gone : odict string Z) : Prop := {
  ev_order : freeable s = gone ++ freeable s';
  ev_freed : freed s' = freed s ++ gone.*1;
  ev_cached h : od_get h (cached s') = if decide (h ∈ gone.*1) then None else od_get h (cached s);
  ev_space : num_free_slots s' = num_free_slots s + sumZ gone.*2;
  ev_enough : need ≤ num_free_slots s';
  ev_least g e : gone = g ++ [e] → num_free_slots s + sumZ g.*2 < need;
  ev_size : cache_size s' = cache_size s;
  ev_capacity : num_freeable_slots s' = num_freeable_slots s
}.

Lemma evict_one s h n rest : enc_inv s → freeable s = (h, n) :: rest →
  n = size h ∧ od_mem h (cached s) = true
  ∧ enc_inv (put_num_free_slots (num_free_slots s + n)
      (put_freed (freed s ++ [h]) (put_cached (od_del h (cached s)) (put_freeable rest s)))).
Proof.
  intros Hi Hf. pose proof (ei_entry _ Hi h) as Hh. rewrite Hf in Hh. cbn [od_get] in Hh.
  rewrite decide_True in Hh by done.
  destruct (od_get h (cached s)) as [users|] eqn:Hc; [|done]. case_decide as Hu; [|done].
  injection Hh as ->. split; [done|]. split; [by apply od_mem_true, od_get_is_Some; eexists|].
  pose proof (ei_freeable _ Hi) as Hwf. rewrite Hf in Hwf. apply od_wf_cons in Hwf as [Hnone Hwf].
  pose proof (sum_del size _ _ _ (ei_cached _ Hi) Hc) as Hsum.
  pose proof (ei_total _ Hi). pose proof (ei_spare _ Hi) as Hsp. pose proof (ei_free _ Hi). pose proof (size_nonneg h).
  unfold occupied, spare in *. rewrite Hf in Hsp. cbn [od_values fmap list_fmap sumZ foldr snd] in Hsp.
  change (foldr Z.add 0) with sumZ in Hsp.
  split; unfold occupied, spare, od_values in *; ec_simpl.
  - by apply od_wf_del, Hi.
  - done.
  - intros k. rewrite od_get_del. case_decide as E; [by subst|].
    rewrite <-(ei_entry _ Hi k), Hf. cbn [od_get]. by rewrite decide_False.
  - lia.
  - lia.
  - lia.
Qed.

Lemma evict_until_spec need : ∀ entries s, freeable s = entries → enc_inv s → need ≤ num_freeable_slots s →
  ∃ s' gone, evict_until need entries s = Ret tt s' ∧ enc_inv s' ∧ evicts need s s' gone.
Proof.
  induction entries as [|[h n] rest IH]; intros s Hf Hi Hneed; cbn [evict_until]; rewrite get_bind.
  all: destruct (Z.leb_spec need (num_free_slots s)) as [Hle|Hgt].
  1,3: exists s, []; split; [done|]; split; [done|]; split; try done; [by rewrite app_nil_r|simpl; lia|by intros [|? ?] ?].
  { pose proof (ei_spare _ Hi) as Hs. unfold spare in Hs. rewrite Hf in Hs. cbn in Hs. lia. }
  destruct (evict_one s h n rest Hi Hf) as (-> & Hmem & Hi1).
  rewrite modify_bind, get_bind. change (cached (put_freeable rest s)) with (cached s). rewrite Hmem, modify_bind.
  match goal with |- context [evict_until _ _ ?s1] => destruct (IH s1 eq_refl Hi1 Hneed) as (s' & gone & Hrun & Hi' & Hev) end.
  exists s', ((h, size h) :: gone). split; [exact Hrun|]. split; [done|]. destruct Hev as [E1 E2 E3 E4 E5 E6 E7 E8].
  split; try done.
  - rewrite Hf. cbn [app]. f_equal. exact E1.
  - rewrite E2. cbn. by rewrite <-(assoc_L (++)).
  - intros k. rewrite E3. cbn [fmap list_fmap fst]. ec_simpl.
    rewrite od_get_del. destruct (decide (k ∈ gone.*1)) as [Hk|Hk].
    + by rewrite decide_True by by right.
    + destruct (decide (h = k)) as [->|Hne]; [by rewrite decide_True by by left|].
      rewrite decide_False; [done|]. by intros [?|?]%elem_of_cons.
  - rewrite E4. cbn. change (foldr Z.add 0) with sumZ. lia.
  - intros [|x g] e Heq; [simpl; lia|]. injection Heq as <- Heq. specialize (E6 g e Heq). cbn in E6 |- *.
    change (foldr Z.add 0) with sumZ. lia.
Qed.

Section requests.
Context {F : Type} `{FO : FloatOps F}.
Implicit Types (r : Request F).

(** The features of a request agree with [size], their masks with their
    lengths. *)
Definition features_sized r : Prop :=
  Forall (λ f, get_num_embeds f = size (identifier f)
    ∧ match is_embed f with Some m => zlen m = mm_length f | None => True end) (mm_features r).

Lemma feature_at r i f : features_sized r → mm_features r !! i = Some f → get_num_embeds f = size (identifier f).
Proof. intros Hr Hf. eapply Forall_lookup_1 in Hr; [|exact Hf]. by destruct Hr. Qed.

Lemma can_allocate_outcome r i f budget promised s :
  enc_inv s → features_sized r → mm_features r !! i = Some f →
  let need := size (identifier f) + promised in
  if (size (identifier f) <=? budget) && (need <=? num_freeable_slots s)
  then ∃ s' gone, can_allocate r i budget promised s = Ret true s' ∧ enc_inv s' ∧ evicts need s s' gone
  else can_allocate r i budget promised s = Ret false s.
Proof.
  intros Hi Hr Hf need. unfold can_allocate, get_num_encoder_embeds. rewrite Hf. cbn [fmap option_fmap option_map].
  rewrite (feature_at r i f) by done. rewrite get_bind, Z.leb_antisym.
  destruct (Z.ltb_spec budget (size (identifier f))); cbn [negb andb]; [done|]. fold need.
  destruct (Z.leb_spec need (num_free_slots s)) as [Hle|Hgt].
  { pose proof (ei_spare _ Hi). pose proof (spare_nonneg s Hi).
    rewrite (proj2 (Z.leb_le _ _)) by lia. exists s, []. split; [done|]. split; [done|].
    split; try done; [by rewrite app_nil_r|simpl; lia|by intros [|? ?] ?]. }
  rewrite Z.leb_antisym. destruct (Z.ltb_spec (num_freeable_slots s) need); cbn [negb]; [done|].
  destruct (evict_until_spec need (freeable s) s eq_refl Hi) as (s' & gone & Hrun & Hi' & Hev); [done|].
  exists s', gone. by rewrite bind_unfold, Hrun.
Qed.

Lemma get_feature r i f s : mm_features r !! i = Some f → feature r i s = Ret f s.
Proof. intros Hf. unfold feature. by rewrite Hf. Qed.

(** Adding a user to an entry keeps the keys. *)
Lemma occupied_alter (g : gset string → gset string) h s v :
  sumZ (size <$> od_keys (od_alter g h (cached (put_cached v s)))) = sumZ (size <$> od_keys v).
Proof. by rewrite od_keys_alter. Qed.

Lemma check_outcome r i f s :
  enc_inv s → features_sized r → mm_features r !! i = Some f →
  if od_mem (identifier f) (cached s)
  then ∃ s', check_and_update_cache r i s = Ret true s' ∧ enc_inv s'
    ∧ num_free_slots s' = num_free_slots s ∧ od_keys (cached s') = od_keys (cached s)
  else check_and_update_cache r i s = Ret false s.
Proof.
  intros Hi Hr Hf. unfold check_and_update_cache. rewrite bind_unfold, (get_feature r i f), get_bind by done.
  set (h := identifier f). unfold od_mem. destruct (od_get h (cached s)) as [users|] eqn:Hc; [|done].
  pose proof (ei_entry _ Hi h) as He. rewrite Hc in He.
  case_bool_decide as Hu.
  - rewrite decide_True in He by done. rewrite He, !modify_bind.
    eexists. split; [reflexivity|]. split; [|split; [done|]]; ec_simpl; [|by rewrite od_keys_alter].
    pose proof (values_del _ _ _ (ei_freeable _ Hi) He) as Hv. pose proof (ei_spare _ Hi). pose proof (ei_total _ Hi).
    split; unfold occupied, spare in *; ec_simpl.
    + by apply od_wf_alter, Hi.
    + by apply od_wf_del, Hi.
    + intros k. rewrite od_get_del, od_get_alter, (ei_entry _ Hi k).
      destruct (decide (h = k)) as [->|]; [|done]. rewrite Hc. cbn. rewrite decide_False; [done|]. set_solver.
    + by rewrite od_keys_alter.
    + lia.
    + apply Hi.
  - rewrite mret_bind, modify_bind. eexists. split; [reflexivity|]. split; [|split; [done|]]; ec_simpl;
      [|by rewrite od_keys_alter].
    split; unfold occupied, spare in *; ec_simpl; try apply Hi.
    + by apply od_wf_alter, Hi.
    + intros k. rewrite od_get_alter, (ei_entry _ Hi k). destruct (decide (h = k)) as [->|]; [|done].
      rewrite Hc. cbn. rewrite !decide_False; [done|set_solver|done].
    + rewrite od_keys_alter. apply Hi.
Qed.

Lemma allocate_outcome r i f s :
  enc_inv s → features_sized r → mm_features r !! i = Some f →
  od_mem (identifier f) (cached s) = false → size (identifier f) ≤ num_free_slots s →
  ∃ s', allocate r i s = Ret tt s' ∧ enc_inv s'
    ∧ num_free_slots s' = num_free_slots s - size (identifier f)
    ∧ od_keys (cached s') = od_keys (cached s) ++ [identifier f].
Proof.
  intros Hi Hr Hf Hc Hle. unfold allocate. rewrite bind_unfold, (get_feature r i f), modify_bind, get_bind by done.
  rewrite (feature_at r i f) by done. set (h := identifier f) in *. ec_simpl.
  pose proof (spare_nonneg s Hi). pose proof (ei_spare _ Hi). pose proof (ei_total _ Hi).
  rewrite !assert_bind by (apply Z.leb_le; lia).
  unfold od_setdefault. rewrite Hc. apply od_mem_false in Hc as Hnone.
  eexists. split; [reflexivity|]. split; [|split; [done|]]; ec_simpl.
  - split; unfold occupied, spare in *; ec_simpl.
    + by apply od_wf_alter, od_wf_snoc; [apply Hi|].
    + apply Hi.
    + intros k. rewrite od_get_alter, od_get_app. cbn [od_get]. rewrite (ei_entry _ Hi k).
      destruct (decide (h = k)) as [->|Hne].
      * rewrite Hnone. cbn. rewrite decide_False; [done|]. set_solver.
      * by destruct (od_get k (cached s)).
    + rewrite od_keys_alter. unfold od_keys. rewrite fmap_app, fmap_app, sumZ_app. cbn.
      unfold od_keys in *. lia.
    + lia.
    + lia.
  - rewrite od_keys_alter. unfold od_keys. by rewrite fmap_app.
Qed.

Lemma free_input_outcome r i f s :
  enc_inv s → features_sized r → mm_features r !! i = Some f →
  ∃ s', free_encoder_input r i s = Ret tt s' ∧ enc_inv s'.
Proof.
  intros Hi Hr Hf. unfold free_encoder_input. rewrite bind_unfold, (get_feature r i f), get_bind by done.
  rewrite (feature_at r i f) by done.
  set (h := identifier f). destruct (od_get h (cached s)) as [users|] eqn:Hc; [|by exists s].
  pose proof (ei_entry _ Hi h) as He. rewrite Hc in He.
  case_bool_decide as Hu; [by exists s|]. rewrite decide_False in He by done.
  rewrite modify_bind. pose proof (ei_total _ Hi). pose proof (ei_spare _ Hi).
  case_bool_decide as Hu'; (eexists; split; [reflexivity|]); split; unfold occupied, spare in *; ec_simpl;
    try apply Hi; try (by apply od_wf_alter, Hi); try (rewrite od_keys_alter; lia).
  - by apply od_wf_set, Hi.
  - intros k. rewrite od_get_set, od_get_alter, (ei_entry _ Hi k). destruct (decide (h = k)) as [->|]; [|done].
    rewrite Hc. cbn. by rewrite decide_True.
  - rewrite od_set_new by done. unfold od_values. rewrite fmap_app, sumZ_app. cbn.
    unfold od_values in *. lia.
  - intros k. rewrite od_get_alter, (ei_entry _ Hi k). destruct (decide (h = k)) as [->|]; [|done].
    rewrite Hc. cbn. by rewrite !decide_False.
Qed.

(** ** Planning the inputs of a request *)
Definition ids_of r (l : list nat) : list string := omap (λ i, identifier <$> mm_features r !! i) l.

Record plan_inv r (p : Plan) s : Prop := {
  pi_known i : i ∈ inputs_to_schedule p ++ external_inputs p → is_Some (mm_features r !! i);
  pi_distinct : NoDup (ids_of r (inputs_to_schedule p ++ external_inputs p));
  pi_hashes h : h ∈ hashes_to_schedule p ↔ h ∈ ids_of r (inputs_to_schedule p ++ external_inputs p);
  pi_new h : h ∈ hashes_to_schedule p → od_mem h (cached s) = false;
  pi_sum : embeds_to_schedule p = sumZ (size <$> ids_of r (inputs_to_schedule p ++ external_inputs p));
  pi_room : embeds_to_schedule p ≤ num_free_slots s
}.

Lemma plan_inv_tokens r n p s : plan_inv r p s → plan_inv r (with_tokens n p) s.
Proof. by intros []. Qed.

(** The plan survives when entries leave the cache or slots become free. *)
Lemma plan_inv_mono r p s s' :
  plan_inv r p s → (∀ h, od_mem h (cached s) = false → od_mem h (cached s') = false) →
  num_free_slots s ≤ num_free_slots s' → plan_inv r p s'.
Proof. intros [] Hc Hn. split; auto. lia. Qed.

Lemma plan_inv_add r p s i f inputs external budget :
  plan_inv r p s → mm_features r !! i = Some f →
  inputs ++ external ≡ₚ i :: inputs_to_schedule p ++ external_inputs p →
  identifier f ∉ hashes_to_schedule p → od_mem (identifier f) (cached s) = false →
  size (identifier f) + embeds_to_schedule p ≤ num_free_slots s →
  plan_inv r (mkPlan inputs external ({[identifier f]} ∪ hashes_to_schedule p)
    (embeds_to_schedule p + size (identifier f)) (new_tokens p) budget) s.
Proof.
  intros [H1 H2 H3 H4 H5 H6] Hf Hp Hh Hc Hroom.
  assert (ids_of r (inputs ++ external) ≡ₚ identifier f :: ids_of r (inputs_to_schedule p ++ external_inputs p)) as Hids.
  { unfold ids_of. rewrite Hp. cbn [omap list_omap]. by rewrite Hf. }
  split; cbn [inputs_to_schedule external_inputs hashes_to_schedule embeds_to_schedule].
  - intros j Hj. rewrite Hp in Hj. apply elem_of_cons in Hj as [->|Hj]; [by eexists|auto].
  - rewrite Hids. apply NoDup_cons. by rewrite <-H3.
  - intros h. rewrite Hids, elem_of_union, elem_of_singleton, elem_of_cons, H3. done.
  - intros h [->%elem_of_singleton|?]%elem_of_union; auto.
  - rewrite (sumZ_Permutation _ _ (fmap_Permutation size _ _ Hids)). cbn. change (foldr Z.add 0) with sumZ. lia.
  - lia.
Qed.

Lemma length_cumsum n mask : length (cumsum n mask) = length mask.
Proof. revert n. induction mask as [|b mask IH]; intros n; cbn; [done|]. by rewrite IH. Qed.

Lemma indices_in_range f a b :
  match is_embed f with Some m => zlen m = mm_length f | None => True end →
  a ≤ mm_length f → b ≤ mm_length f → is_Some (get_embeds_indices_in_range f a b).
Proof.
  unfold get_embeds_indices_in_range, embeds_cumsum. destruct (is_embed f) as [m|]; cbn; [|by eexists].
  intros Hm Ha Hb.
  assert (∀ c, c ≤ mm_length f → is_Some (if 0 <? c then cumsum 0 m !! Z.to_nat (c - 1) else Some 0)) as Hc.
  { intros c Hc. destruct (Z.ltb_spec 0 c); [|by eexists]. apply lookup_lt_is_Some_2.
    rewrite length_cumsum. unfold zlen in Hm. lia. }
  destruct (Hc a Ha) as [x ->], (Hc b Hb) as [y ->]. by eexists.
Qed.

Lemma admit_outcome settings r computed i f p s :
  features_sized r → mm_features r !! i = Some f → plan_inv r p s → computed < mm_offset f + mm_length f → 0 ≤ mm_length f →
  identifier f ∉ hashes_to_schedule p → od_mem (identifier f) (cached s) = false →
  size (identifier f) + embeds_to_schedule p ≤ num_free_slots s →
  ∃ p', settle settings computed i f p s = Ret p' s ∧ plan_inv r p' s.
Proof.
  intros Hr Hf Hp Hcomp Hlen Hh Hc Hroom. unfold settle.
  pose proof (feature_at r i f Hr Hf) as Hsize. eapply Forall_lookup_1 in Hr as [_ Hmask]; [|exact Hf].
  destruct (indices_in_range f (Z.max 0 (computed - mm_offset f))
    (Z.min (mm_length f) (computed + new_tokens p - mm_offset f)) Hmask) as [[a b] ->]; [lia..|].
  destruct (_ =? 0); [by exists p|]. rewrite Hsize.
  destruct (match has_cache_item settings with Some has => has (identifier f) | None => false end);
    (eexists; split; [reflexivity|]); apply plan_inv_add with (i := i); try done.
  - by rewrite (assoc_L (++)), (comm (++) _ [i]).
  - by rewrite <-(assoc_L (++)), Permutation_middle.
Qed.

Lemma can_allocate_room r i f p s :
  enc_inv s → features_sized r → mm_features r !! i = Some f → plan_inv r p s →
  od_mem (identifier f) (cached s) = false →
  ∃ b s', can_allocate r i (compute_budget p) (embeds_to_schedule p) s = Ret b s' ∧ enc_inv s' ∧ plan_inv r p s'
    ∧ (b = true → size (identifier f) + embeds_to_schedule p ≤ num_free_slots s'
                  ∧ od_mem (identifier f) (cached s') = false).
Proof.
  intros Hi Hr Hf Hp Hc.
  pose proof (can_allocate_outcome r i f (compute_budget p) (embeds_to_schedule p) s Hi Hr Hf) as Hout.
  cbn zeta in Hout. destruct (_ && _).
  - destruct Hout as (s' & gone & Hrun & Hi' & Hev). exists true, s'.
    assert (∀ h, od_mem h (cached s) = false → od_mem h (cached s') = false) as Hmono.
    { intros h Hh. apply od_mem_false. rewrite (ev_cached _ _ _ _ Hev).
      case_decide; [done|]. by apply od_mem_false. }
    split_and!; [done..| |intros _; split; [apply Hev|auto]].
    apply (plan_inv_mono r p s s'); [done|done|]. rewrite (ev_space _ _ _ _ Hev).
    assert (0 ≤ sumZ gone.*2); [|lia]. apply sumZ_nonneg, list.Forall_forall.
    intros n ([h m] & -> & Hin)%list_elem_of_fmap.
    assert ((h, m) ∈ freeable s) as Hfr by (rewrite (ev_order _ _ _ _ Hev); apply elem_of_app; by left).
    apply (od_elem_get _ _ _ (ei_freeable _ Hi)) in Hfr. rewrite (ei_entry _ Hi) in Hfr.
    repeat case_match; simplify_eq. apply size_nonneg.
  - exists false, s. by split_and!.
Qed.

Lemma plan_inputs_outcome settings r computed shift : is_encoder_decoder settings = false →
  features_sized r → Forall (λ f, 0 ≤ mm_length f) (mm_features r) →
  ∀ features i p s, drop i (mm_features r) = features → enc_inv s → plan_inv r p s →
  ∃ p' s', plan_inputs settings r computed shift i features p s = Ret p' s' ∧ enc_inv s' ∧ plan_inv r p' s'.
Proof.
  intros Hdec Hr Hlen. induction features as [|f features IH]; intros i p s Hdrop Hi Hp; cbn [plan_inputs].
  { by exists p, s. }
  assert (mm_features r !! i = Some f) as Hf by (by rewrite <-(Nat.add_0_r i), <-lookup_drop, Hdrop).
  assert (drop (S i) (mm_features r) = features) as Hdrop'.
  { rewrite <-Nat.add_1_r, <-drop_drop, Hdrop. done. }
  specialize (IH (S i)). rewrite Hdec. cbn [andb].
  destruct (Z.leb_spec (computed + new_tokens p + shift) (mm_offset f)); [by exists p, s|].
  destruct (Z.leb_spec (mm_offset f + mm_length f) computed); [by apply IH|].
  case_bool_decide as Hseen; [rewrite mret_bind; by apply IH|].
  pose proof (check_outcome r i f s Hi Hr Hf) as Hcheck.
  cbn [em_check em_can_allocate encoder_cache_manager].
  destruct (od_mem (identifier f) (cached s)) eqn:Hc.
  { destruct Hcheck as (s1 & Hrun & Hi1 & Hn & Hk). rewrite bind_unfold, Hrun. apply IH; [done|done|].
    apply (plan_inv_mono r p s s1); [done| |lia]. intros h. unfold od_mem.
    rewrite <-!not_true_iff_false. intros Hh Hh'. apply Hh. apply od_mem_true. rewrite <-Hk. by apply od_mem_true. }
  rewrite bind_unfold, Hcheck.
  destruct (_ && _ && _); [eexists _, s; split; [reflexivity|]; split; [done|by apply plan_inv_tokens]|].
  destruct (can_allocate_room r i f p s Hi Hr Hf Hp Hc) as (b & s1 & Hrun & Hi1 & Hp1 & Hroom).
  rewrite bind_unfold, Hrun. destruct b.
  - destruct (Hroom eq_refl) as [Hle Hc1].
    destruct (admit_outcome settings r computed i f p s1) as (p' & Hadm & Hp'); try done.
    { by eapply Forall_lookup_1 in Hlen. }
    rewrite bind_unfold, Hadm. by apply IH.
  - destruct (computed + shift <? mm_offset f); eexists _, s1; (split; [reflexivity|]);
      split; try done; by apply plan_inv_tokens.
Qed.

Lemma allocate_list r l : features_sized r → ∀ s, enc_inv s →
  (∀ i, i ∈ l → is_Some (mm_features r !! i)) → NoDup (ids_of r l) →
  (∀ h, h ∈ ids_of r l → od_mem h (cached s) = false) → sumZ (size <$> ids_of r l) ≤ num_free_slots s →
  ∃ s', forM l (allocate r) s = Ret tt s' ∧ enc_inv s'
    ∧ num_free_slots s' = num_free_slots s - sumZ (size <$> ids_of r l)
    ∧ ∀ h, od_mem h (cached s') = od_mem h (cached s) || bool_decide (h ∈ ids_of r l).
Proof.
  intros Hr. induction l as [|i l IH]; intros s Hi Hl Hnd Hnew Hsum; cbn [forM].
  { exists s. split_and!; [done|done|cbn; lia|]. intros h. by rewrite orb_false_r. }
  destruct (Hl i) as [f Hf]; [by left|]. unfold ids_of in *. cbn [omap list_omap] in *. rewrite Hf in *.
  cbn [fmap option_fmap option_map list_fmap sumZ foldr] in *. fold (ids_of r l) in *.
  change (foldr Z.add 0) with sumZ in *. apply NoDup_cons in Hnd as [Hh Hnd].
  assert (0 ≤ sumZ (size <$> ids_of r l)) as Hpos.
  { apply sumZ_nonneg, Forall_fmap, Forall_true. intros. apply size_nonneg. }
  destruct (allocate_outcome r i f s Hi Hr Hf) as (s1 & Hrun & Hi1 & Hn1 & Hk1).
  { apply Hnew. by left. }
  { lia. }
  assert (∀ h, od_mem h (cached s1) = od_mem h (cached s) || bool_decide (h = identifier f)) as Hm1.
  { intros h. apply eq_bool_prop_intro. rewrite !Is_true_true, orb_true_iff, !od_mem_true, Hk1, bool_decide_eq_true.
    rewrite elem_of_app, list_elem_of_singleton. done. }
  destruct (IH s1 Hi1) as (s' & Hrest & Hi' & Hn' & Hm').
  - intros j Hj. apply Hl. by right.
  - done.
  - intros h Hin. rewrite Hm1, Hnew by (by right). apply bool_decide_eq_false. by intros ->.
  - lia.
  - exists s'. rewrite bind_unfold, Hrun. split_and!; [done|done|lia|].
    intros h. rewrite Hm', Hm1, <-orb_assoc. f_equal. apply eq_bool_prop_intro.
    rewrite !Is_true_true, orb_true_iff, !bool_decide_eq_true, elem_of_cons. done.
Qed.

Lemma allocate_inputs_outcome r p s : features_sized r → enc_inv s → plan_inv r p s →
  ∃ s', allocate_inputs r p s = Ret tt s' ∧ enc_inv s'.
Proof.
  intros Hr Hi [H1 H2 H3 H4 H5 H6]. unfold allocate_inputs, ids_of in *.
  rewrite omap_app in *. fold (ids_of r (inputs_to_schedule p)) (ids_of r (external_inputs p)) in *.
  apply NoDup_app in H2 as (Hn1 & Hdis & Hn2). rewrite fmap_app, sumZ_app in H5.
  assert (∀ l, 0 ≤ sumZ (size <$> ids_of r l)) as Hpos.
  { intros l. apply sumZ_nonneg, Forall_fmap, Forall_true. intros. apply size_nonneg. }
  pose proof (Hpos (inputs_to_schedule p)). pose proof (Hpos (external_inputs p)).
  destruct (allocate_list r (inputs_to_schedule p) Hr s Hi) as (s1 & Hrun & Hi1 & Hs1 & Hm1); [..|lia|].
  { intros i Hin. apply H1, elem_of_app. by left. }
  { done. }
  { intros h Hh. apply H4, H3, elem_of_app. by left. }
  destruct (allocate_list r (external_inputs p) Hr s1 Hi1) as (s2 & Hrun2 & Hi2 & _); [..|lia|].
  { intros i Hin. apply H1, elem_of_app. by right. }
  { done. }
  { intros h Hh. rewrite Hm1, H4 by (apply H3, elem_of_app; by right).
    apply bool_decide_eq_false. intros Hh'. by apply (Hdis h). }
  exists s2. cbn [em_allocate encoder_cache_manager]. by rewrite bind_unfold, Hrun.
Qed.

Lemma cached_id_known r s i : i ∈ get_cached_input_ids r s → is_Some (mm_features r !! i).
Proof. intros [Hi _]%list_elem_of_filter. destruct (mm_features r !! i); [by eexists|done]. Qed.

Lemma free_outcome r s : features_sized r → enc_inv s → ∃ s', free r s = Ret tt s' ∧ enc_inv s'.
Proof.
  intros Hr Hi. unfold free. rewrite get_bind. apply forM_total; [|done].
  intros i t Hin Ht. apply cached_id_known in Hin as [f Hf]. by apply (free_input_outcome r i f).
Qed.

Lemma free_inputs_outcome settings r s : features_sized r → enc_inv s →
  ∃ s', free_encoder_inputs settings r s = Ret tt s' ∧ enc_inv s'.
Proof.
  intros Hr Hi. unfold free_encoder_inputs. rewrite get_bind. apply forM_total; [|done].
  intros i t Hin Ht. apply cached_id_known in Hin as [f Hf].
  rewrite bind_unfold, (get_feature r i f) by done. destruct (_ || _); [|by exists t].
  by apply (free_input_outcome r i f).
Qed.

(** C29.  [can_allocate] answers for an item by its embeddings together
    with those already promised: no when they exceed the compute budget (the
    item alone) or the free and reclaimable slots; otherwise yes, after it has
    evicted the shortest run of unreferenced entries, oldest first, that makes
    room.  The search for room always ends and entries in use stay. *)
Theorem can_allocate_exact r i f budget promised s :
  enc_inv s → features_sized r → mm_features r !! i = Some f →
  let need := size (identifier f) + promised in
  if (size (identifier f) <=? budget) && (need <=? num_freeable_slots s)
  then ∃ s' gone, can_allocate r i budget promised s = Ret true s' ∧ enc_inv s' ∧ evicts need s s' gone
  else can_allocate r i budget promised s = Ret false s.
Proof. apply can_allocate_outcome. Qed.
(** ** Sequences of calls *)
Inductive encoder_call :=
  | ESchedule (settings : EncoderSettings) (r : Request F) (computed shift new budget : Z)
  | EPlan (settings : EncoderSettings) (r : Request F) (computed shift new budget : Z)
  | EFree (r : Request F)
  | EFreeInputs (settings : EncoderSettings) (r : Request F)
  | ETakeFreed
  | EReset.

Definition run_call (c : encoder_call) : M EncoderCacheManager unit :=
  match c with
  | ESchedule settings r computed shift new budget =>
      p ← try_schedule_encoder_inputs settings r computed shift new budget; allocate_inputs r p
  | EPlan settings r computed shift new budget =>
      try_schedule_encoder_inputs settings r computed shift new budget ;; mret tt
  | EFree r => free r
  | EFreeInputs settings r => free_encoder_inputs settings r
  | ETakeFreed => get_freed_mm_hashes ;; mret tt
  | EReset => encoder_reset
  end.

Definition request_ok r : Prop := features_sized r ∧ Forall (λ f, 0 ≤ mm_length f) (mm_features r).
Definition call_ok (c : encoder_call) : Prop :=
  match c with
  | ESchedule settings r _ _ _ _ | EPlan settings r _ _ _ _ => is_encoder_decoder settings = false ∧ request_ok r
  | EFree r | EFreeInputs _ r => request_ok r
  | _ => True
  end.

Lemma try_schedule_outcome settings r computed shift new budget s :
  is_encoder_decoder settings = false → request_ok r → enc_inv s →
  ∃ p s', try_schedule_encoder_inputs settings r computed shift new budget s = Ret p s' ∧ enc_inv s' ∧ plan_inv r p s'.
Proof.
  intros Hdec [Hr Hlen] Hi. unfold try_schedule_encoder_inputs.
  assert (plan_inv r (mkPlan [] [] ∅ 0 new budget) s) as Hp.
  { split; cbn; [by intros ? ?%elem_of_nil|apply NoDup_nil_2|set_solver|set_solver|done|apply Hi]. }
  destruct (_ || _); [by eexists _, s|]. by apply plan_inputs_outcome.
Qed.

Lemma reset_inv s : enc_inv s → enc_inv (encoder_init (cache_size s)).
Proof.
  intros Hi. apply init_inv. pose proof (ei_total _ Hi). pose proof (ei_free _ Hi).
  assert (0 ≤ occupied s); [|lia]. apply sumZ_nonneg, Forall_fmap, Forall_true. intros. apply size_nonneg.
Qed.

Lemma run_call_outcome c s : call_ok c → enc_inv s →
  ∃ s', run_call c s = Ret tt s' ∧ enc_inv s'.
Proof.
  intros Hc Hi. destruct c as [settings r computed shift new budget|settings r computed shift new budget|r|settings r| |];
    cbn [run_call call_ok] in *.
  - destruct Hc as [Hdec Hr]. destruct (try_schedule_outcome settings r computed shift new budget s Hdec Hr Hi)
      as (p & s1 & Hrun & Hi1 & Hp). rewrite bind_unfold, Hrun. apply allocate_inputs_outcome; [apply Hr|done|done].
  - destruct Hc as [Hdec Hr]. destruct (try_schedule_outcome settings r computed shift new budget s Hdec Hr Hi)
      as (p & s1 & Hrun & Hi1 & Hp). exists s1. by rewrite bind_unfold, Hrun.
  - apply free_outcome; [apply Hc|done].
  - apply free_inputs_outcome; [apply Hc|done].
  - eexists. split; [reflexivity|]. by destruct Hi.
  - eexists. split; [reflexivity|]. by apply reset_inv.
Qed.

(** C30.  Whatever the requests of the engine do, no call on the encoder
    cache fails and the space is accounted exactly: the free slots and the
    sizes of the entries make up the cache, the reclaimable slots are the free
    ones and the sizes of the entries without users, just these are queued for
    eviction, and what a request was promised is there when it is allocated. *)
Theorem encoder_cache_accounts n calls :
  0 ≤ n → Forall call_ok calls →
  ∃ s, forM calls run_call (encoder_init n) = Ret tt s
    ∧ 0 ≤ num_free_slots s
    ∧ num_freeable_slots s = num_free_slots s + sumZ (od_values (freeable s))
    ∧ NoDup (od_keys (cached s)) ∧ NoDup (od_keys (freeable s))
    ∧ num_free_slots s + sumZ (size <$> od_keys (cached s)) = cache_size s
    ∧ (∀ h, od_get h (freeable s) = Some (size h) ↔ od_get h (cached s) = Some ∅).
Proof.
  intros Hn Hcalls. rewrite list.Forall_forall in Hcalls.
  destruct (forM_total enc_inv run_call calls) with (s := encoder_init n) as (s & Hrun & Hi).
  - intros c t Hc. by apply run_call_outcome, Hcalls.
  - by apply init_inv.
  - exists s. split_and!; [exact Hrun|apply Hi..|]. intros h. rewrite (ei_entry _ Hi h).
    destruct (od_get h (cached s)) as [users|]; [|done]. case_decide; [by subst|]. split; [done|congruence].
Qed.
End requests.
End accounting.

(** ** A concrete cache of eight slots *)
Definition demo_image (id : string) (offset length : Z) : MMFeature :=
  mkMMFeature id offset length None.
Definition demo_video : MMFeature := mkMMFeature "video" 4 6 (Some [true; false; true; false; true; false]).
Definition demo_viewer (id : string) (mm : list MMFeature) : Request Q :=
  mkRequest id 0 0%Q RUNNING 16 16 [] (replicate 16 9) [] 0 mm 0 [] false None None None None None None.
Definition demo_size (h : string) : Z :=
  if bool_decide (h = "cat"%string) then 4 else if bool_decide (h = "dog"%string) then 5
  else if bool_decide (h = "video"%string) then 3 else 0.
Definition demo_settings : EncoderSettings := mkEncoderSettings false false None.
Definition viewer_1 := demo_viewer "1" [demo_image "cat" 0 4; demo_video].
Definition viewer_2 := demo_viewer "2" [demo_image "cat" 2 4; demo_image "dog" 8 5].

(** The first request fills the cache, the second shares an image; when both
    are gone an image of five needs the oldest entries evicted. *)
Definition demo_calls : list (encoder_call (F := Q)) :=
  [ESchedule demo_settings viewer_1 0 0 16 32; ESchedule demo_settings viewer_2 0 0 16 32;
   EFree viewer_1; EFree viewer_2; EPlan demo_settings viewer_2 6 0 10 32;
   ESchedule demo_settings viewer_2 6 0 10 32; ETakeFreed].

Lemma demo_size_nonneg h : 0 ≤ demo_size h.
Proof. unfold demo_size. repeat case_bool_decide; lia. Qed.

Lemma demo_encoder_calls_ok : Forall (call_ok demo_size) demo_calls.
Proof. repeat constructor; by vm_compute. Qed.

Lemma encoder_cache_accounts_witness :
  ∃ s, forM demo_calls run_call (encoder_init 8) = Ret tt s ∧ num_free_slots s = 3
    ∧ od_keys (cached s) = ["dog"%string]
    ∧ num_free_slots s + sumZ (demo_size <$> od_keys (cached s)) = 8.
Proof.
  assert (∃ s', forM demo_calls run_call (encoder_init 8) = Ret tt s' ∧ num_free_slots s' = 3
    ∧ od_keys (cached s') = ["dog"%string] ∧ cache_size s' = 8) as (s' & Hrun' & Hn & Hk & Hc).
  { eexists. split; [by vm_compute|]. by split. }
  destruct (encoder_cache_accounts demo_size demo_size_nonneg 8 demo_calls ltac:(lia) demo_encoder_calls_ok)
    as (s & Hrun & _ & _ & _ & _ & Htot & _).
  rewrite Hrun in Hrun'. injection Hrun' as <-. exists s. rewrite Htot. by split_and!.
Defined.

Lemma can_allocate_exact_witness :
  ∃ s' gone, can_allocate viewer_1 0 32 2 (encoder_init 8) = Ret true s' ∧ evicts 6 (encoder_init 8) s' gone.
Proof.
  destruct (can_allocate_exact demo_size demo_size_nonneg viewer_1 0 (demo_image "cat" 0 4) 32 2 (encoder_init 8))
    as (s' & gone & Hrun & _ & Hev).
  - by apply init_inv.
  - repeat constructor.
  - done.
  - exists s', gone. split; [exact Hrun|exact Hev].
Defined.
