(* ===== verification/RequestQueue.v ===== *)
(** * Request queues ([vllm/v1/core/sched/request_queue.py])

    The waiting queues of the scheduler: first come first served over a deque,
    and by priority over a binary heap kept by Python's [heapq]. *)
From S2P Require Import Prelude.

(** ** [heapq]

    The algorithms of the standard library's [heapq] over a comparison [lt];
    a heap is a list whose element at [(i - 1) >> 1] is the parent of that at
    [i].  A loop carries its fuel, the number of rounds it can make at most. *)
Section Heapq.
Context {A : Type} (lt : A → A → bool).
Implicit Types (heap : list A).

Definition parentpos (pos : nat) : nat := (pos - 1) / 2.

(** The loop of [_siftdown]: parents greater than [newitem] move down; it ends
    with the position left for [newitem]. *)
Fixpoint siftdown_loop (fuel : nat) heap (startpos pos : nat) (newitem : A) : list A * nat :=
  match fuel with
  | O => (heap, pos)
  | S fuel =>
      if startpos <? pos then
        match heap !! parentpos pos with
        | Some parent =>
            if lt newitem parent
            then siftdown_loop fuel (<[pos := parent]> heap) startpos (parentpos pos) newitem
            else (heap, pos)
        | None => (heap, pos)
        end
      else (heap, pos)
  end.

(** [_siftdown(heap, startpos, pos)] *)
Definition siftdown heap (startpos pos : nat) : list A :=
  match heap !! pos with
  | Some newitem =>
      let '(heap', pos') := siftdown_loop pos heap startpos pos newitem in <[pos' := newitem]> heap'
  | None => heap
  end.

(** The smaller child of [pos], and what it holds. *)
Definition smaller_child heap (pos : nat) : option (nat * A) :=
  let childpos := 2 * pos + 1 in
  let rightpos := childpos + 1 in
  match heap !! childpos, heap !! rightpos with
  | None, _ => None
  | Some l, None => Some (childpos, l)
  | Some l, Some r => if lt l r then Some (childpos, l) else Some (rightpos, r)
  end.

(** The loop of [_siftup]: the smaller child moves up until a leaf is hit. *)
Fixpoint siftup_loop (fuel : nat) heap (pos : nat) : list A * nat :=
  match fuel with
  | O => (heap, pos)
  | S fuel =>
      match smaller_child heap pos with
      | Some (childpos, child) => siftup_loop fuel (<[pos := child]> heap) childpos
      | None => (heap, pos)
      end
  end.

(** [_siftup(heap, pos)] *)
Definition siftup heap (pos : nat) : list A :=
  match heap !! pos with
  | Some newitem =>
      let '(heap', pos') := siftup_loop (length heap) heap pos in
      siftdown (<[pos' := newitem]> heap') pos pos'
  | None => heap
  end.

Definition heappush heap (item : A) : list A := siftdown (heap ++ [item]) 0 (length heap).

(** [heappop]; [None] is the [IndexError]. *)
Definition heappop heap : option (A * list A) :=
  match last heap with
  | None => None
  | Some lastelt =>
      match removelast heap with
      | [] => Some (lastelt, [])
      | returnitem :: rest => Some (returnitem, siftup (lastelt :: rest) 0)
      end
  end.

Definition heapify heap : list A :=
  foldl siftup heap (reverse (seq 0 (length heap / 2))).

(** [heappop] until the heap is empty. *)
Fixpoint drain (fuel : nat) heap : list A :=
  match fuel with
  | O => []
  | S fuel =>
      match heappop heap with
      | Some (x, heap') => x :: drain fuel heap'
      | None => []
      end
  end.
End Heapq.

(** ** The queues

    Requests are compared with [==] by identity, here by [EqDecision]. *)
Class RequestQueue (A Q : Type) := {
  add_request : A → M Q unit;
  pop_request : M Q A;
  peek_request : M Q A;
  prepend_request : A → M Q unit;
  prepend_requests : list A → M Q unit;
  remove_request : A → M Q unit;
  remove_requests : list A → M Q unit;
  queue_bool : Q → bool;
  queue_len : Q → Z;
  queue_iter : Q → list A
}.

(** [list.remove(x)] and [deque.remove(x)] *)
Fixpoint list_remove {A} `{EqDecision A} (x : A) (l : list A) : option (list A) :=
  match l with
  | [] => None
  | y :: l' => if decide (y = x) then Some l' else cons y <$> list_remove x l'
  end.

(** [FCFSRequestQueue]: a deque. *)
Record FCFSRequestQueue (A : Type) := mkFCFS { deque : list A }.
Arguments mkFCFS {A} _.
Arguments deque {A} _.

#[export] Instance fcfs_queue {A} `{EqDecision A} : RequestQueue A (FCFSRequestQueue A) := {
  add_request x := modify (λ q, mkFCFS (deque q ++ [x]));
  pop_request :=
    q ← get_state;
    match deque q with
    | [] => raise IndexError
    | x :: l => modify (λ _, mkFCFS l) ;; mret x
    end;
  peek_request := q ← get_state; match deque q with [] => raise IndexError | x :: _ => mret x end;
  prepend_request x := modify (λ q, mkFCFS (x :: deque q));
  prepend_requests l := modify (λ q, mkFCFS (reverse l ++ deque q));
  remove_request x :=
    q ← get_state;
    match list_remove x (deque q) with
    | None => raise ValueError
    | Some l => modify (λ _, mkFCFS l)
    end;
  remove_requests l := modify (λ q, mkFCFS (filter (.∉ l) (deque q)));
  queue_bool q := (0 <? zlen (deque q))%Z;
  queue_len q := zlen (deque q);
  queue_iter := deque
}.

(** [PriorityRequestQueue]: a heap of requests. *)
Record PriorityRequestQueue (A : Type) := mkPriority { heap : list A }.
Arguments mkPriority {A} _.
Arguments heap {A} _.

Section Priority.
Context {A : Type} `{EqDecision A} (lt : A → A → bool).

Definition priority_add (x : A) : M (PriorityRequestQueue A) unit :=
  modify (λ q, mkPriority (heappush lt (heap q) x)).

Definition priority_queue : RequestQueue A (PriorityRequestQueue A) := {|
  add_request := priority_add;
  pop_request :=
    q ← get_state;
    match heappop lt (heap q) with
    | None => raise IndexError
    | Some (x, h) => modify (λ _, mkPriority h) ;; mret x
    end;
  peek_request := q ← get_state; match heap q with [] => raise IndexError | x :: _ => mret x end;
  prepend_request := priority_add;
  prepend_requests l := forM l priority_add;
  remove_request x :=
    q ← get_state;
    match list_remove x (heap q) with
    | None => raise ValueError
    | Some h => modify (λ _, mkPriority (heapify lt h))
    end;
  remove_requests l := modify (λ q, mkPriority (heapify lt (filter (.∉ l) (heap q))));
  queue_bool q := negb (bool_decide (heap q = []));
  queue_len q := zlen (heap q);
  queue_iter q := drain lt (length (heap q)) (heap q)
|}.
End Priority.

(** [create_request_queue] gives one or the other by the policy. *)
Definition create_request_queue {A} (priority : bool) : PriorityRequestQueue A + FCFSRequestQueue A :=
  if priority then inl (mkPriority []) else inr (mkFCFS []).

(** A call on the queue it made, dispatched on its kind. *)
Definition dispatch {S T A} (c : M S A) (d : M T A) : M (S + T) A := λ q,
  match q with
  | inl s => match c s with Ret a s' => Ret a (inl s') | Exc e s' => Exc e (inl s') end
  | inr t => match d t with Ret a t' => Ret a (inr t') | Exc e t' => Exc e (inr t') end
  end.

Definition waiting_queue {A} `{EqDecision A} (lt : A → A → bool) :
    RequestQueue A (PriorityRequestQueue A + FCFSRequestQueue A) :=
  let p := priority_queue lt in
  {|
    add_request x := dispatch (add_request (RequestQueue := p) x) (add_request x);
    pop_request := dispatch (pop_request (RequestQueue := p)) pop_request;
    peek_request := dispatch (peek_request (RequestQueue := p)) peek_request;
    prepend_request x := dispatch (prepend_request (RequestQueue := p) x) (prepend_request x);
    prepend_requests l := dispatch (prepend_requests (RequestQueue := p) l) (prepend_requests l);
    remove_request x := dispatch (remove_request (RequestQueue := p) x) (remove_request x);
    remove_requests l := dispatch (remove_requests (RequestQueue := p) l) (remove_requests l);
    queue_bool q := match q with inl p' => queue_bool (RequestQueue := p) p' | inr d => queue_bool d end;
    queue_len q := match q with inl p' => queue_len (RequestQueue := p) p' | inr d => queue_len d end;
    queue_iter q := match q with inl p' => queue_iter (RequestQueue := p) p' | inr d => queue_iter d end
  |}.
