(* ===== verification/QueueFacts.v ===== *)
(** * Facts about the request queues

    The heap operations keep the elements and the heap order, so the priority
    queue always hands out a least request and iterates in order. *)
From Stdlib Require Import ZifyNat QArith Lqa OrderedTypeEx.
From S2P Require Import Prelude PyFloat Request RequestQueue.
Local Open Scope nat_scope.

Section heap.
Context {A : Type} (lt : A → A → bool).
(** [lt] is a strict weak order. *)
Context (lt_asym : ∀ x y, lt x y = true → lt y x = false).
Context (lt_trans : ∀ x y z, lt y x = false → lt z y = false → lt z x = false).
Implicit Types (h : list A).

Definition le (x y : A) : Prop := lt y x = false.

Lemma le_refl x : le x x.
Proof. unfold le. destruct (lt x x) eqn:E; [|done]. apply lt_asym in E as E'. congruence. Qed.
Lemma le_total x y : le x y ∨ le y x.
Proof. unfold le. destruct (lt y x) eqn:E; [|by left]. right. by apply lt_asym. Qed.
Lemma lt_le x y : lt x y = true → le x y.
Proof. apply lt_asym. Qed.

(** [c] is a child of [p]. *)
Definition child (p c : nat) : Prop := c = 2 * p + 1 ∨ c = 2 * p + 2.

Lemma child_parent c : 0 < c → child (parentpos c) c.
Proof. unfold child, parentpos. intros. lia. Qed.
Lemma child_unique p q c : child p c → child q c → p = q.
Proof. unfold child. lia. Qed.
Lemma child_lt p c : child p c → p < c.
Proof. unfold child. lia. Qed.
Lemma parent_child p c : child p c → parentpos c = p.
Proof. unfold child, parentpos. intros. lia. Qed.

(** Below [s] in the tree. *)
Inductive below (s : nat) : nat → Prop :=
  | below_here : below s s
  | below_child p c : below s p → child p c → below s c.

Lemma below_le s p : below s p → s ≤ p.
Proof. induction 1 as [|p c _ IH Hc]; [done|]. apply child_lt in Hc. lia. Qed.

Lemma below_parent s p : below s p → s ≠ p → s ≤ parentpos p ∧ below s (parentpos p).
Proof.
  intros Hb Hne. destruct Hb as [|q c Hb Hc]; [done|]. rewrite (parent_child q c Hc).
  split; [by apply below_le|done].
Qed.

Lemma below_root p : below 0 p.
Proof.
  induction (lt_wf p) as [p _ IH]. destruct p as [|p]; [constructor|].
  eapply below_child; [apply IH|apply child_parent; lia]. unfold parentpos. lia.
Qed.

(** Every element from [s] on is at most its children. *)
Definition ordered (s : nat) h : Prop :=
  ∀ p c x y, s ≤ p → child p c → h !! p = Some x → h !! c = Some y → le x y.

(** The same but for a hole at [p], whose parent is at most its children. *)
Record holed (s p : nat) h : Prop := {
  ho_edges q c x y : s ≤ q → q ≠ p → c ≠ p → child q c → h !! q = Some x → h !! c = Some y → le x y;
  ho_skip q c x y : s ≤ q → child q p → child p c → h !! q = Some x → h !! c = Some y → le x y
}.

Lemma holed_up s p c v h :
  s ≤ p → holed s p h → child p c → h !! c = Some v → p < length h →
  (∀ d w, child p d → h !! d = Some w → le v w) → holed s c (<[p := v]> h).
Proof.
  intros Hs [He Hk] Hc Hv Hp Hmin. pose proof (child_lt p c Hc) as Hlt. split.
  - intros q d x y Hq Hqc Hdc Hqd Hx Hy.
    destruct (decide (q = p)) as [->|Hqp].
    + rewrite list_lookup_insert_eq in Hx by done. injection Hx as <-.
      pose proof (child_lt p d Hqd). rewrite list_lookup_insert_ne in Hy by lia. by apply (Hmin d).
    + rewrite list_lookup_insert_ne in Hx by done.
      destruct (decide (d = p)) as [->|Hdp].
      * rewrite list_lookup_insert_eq in Hy by done. injection Hy as <-. by apply (Hk q c x v).
      * rewrite list_lookup_insert_ne in Hy by done. by apply (He q d x y).
  - intros q d x y Hq Hqc Hcd Hx Hy. rewrite (child_unique q p c Hqc Hc) in Hx.
    rewrite list_lookup_insert_eq in Hx by done. injection Hx as <-.
    pose proof (child_lt c d Hcd). rewrite list_lookup_insert_ne in Hy by lia.
    apply (He c d v y); [lia|lia|lia|done..].
Qed.

Lemma smaller_child_spec h p :
  match smaller_child lt h p with
  | Some (c, v) => child p c ∧ h !! c = Some v ∧ ∀ d w, child p d → h !! d = Some w → le v w
  | None => ∀ d, child p d → h !! d = None
  end.
Proof.
  unfold smaller_child. replace (2 * p + 1 + 1) with (2 * p + 2) by lia.
  destruct (h !! (2 * p + 1)) as [l|] eqn:El.
  2:{ intros d [->| ->]; [done|]. apply lookup_ge_None. apply lookup_ge_None in El. lia. }
  destruct (h !! (2 * p + 2)) as [r|] eqn:Er.
  2:{ split; [by left|]. split; [done|]. intros d w [->| ->] Hd; [|congruence].
      assert (w = l) as -> by congruence. apply le_refl. }
  destruct (lt l r) eqn:E.
  - split; [by left|]. split; [done|]. intros d w [->| ->] Hd; simplify_eq; [apply le_refl|by apply lt_le].
  - split; [by right|]. split; [done|]. intros d w [->| ->] Hd; simplify_eq; [done|apply le_refl].
Qed.

Lemma insert_same_Permutation h p c v x : p ≠ c → p < length h → h !! c = Some v →
  <[c := x]> (<[p := v]> h) ≡ₚ <[p := x]> h.
Proof.
  intros Hne Hp Hv. rewrite <-(list_insert_insert_eq h p v x).
  apply Permutation_insert_swap; [by apply list_lookup_insert_eq|].
  by rewrite list_lookup_insert_ne.
Qed.

(** The hole sinks to a leaf. *)
Lemma siftup_loop_spec s x fuel : ∀ h p, below s p → p < length h → length h ≤ p + fuel → holed s p h →
  let '(h', p') := siftup_loop lt fuel h p in
  below s p' ∧ p' < length h' ∧ holed s p' h' ∧ (∀ c, child p' c → h' !! c = None)
  ∧ length h' = length h ∧ <[p' := x]> h' ≡ₚ <[p := x]> h.
Proof.
  induction fuel as [|fuel IH]; intros h p Hb Hp Hfuel Hh; cbn [siftup_loop]; [lia|].
  pose proof (smaller_child_spec h p) as Hc. destruct (smaller_child lt h p) as [[c v]|].
  2:{ by split_and!. }
  destruct Hc as (Hc & Hv & Hmin). pose proof (child_lt p c Hc).
  specialize (IH (<[p := v]> h) c). rewrite length_insert in IH. apply lookup_lt_Some in Hv as Hcl.
  specialize (IH (below_child _ _ _ Hb Hc) Hcl ltac:(lia)).
  specialize (IH (holed_up s p c v h (below_le _ _ Hb) Hh Hc Hv Hp Hmin)).
  destruct (siftup_loop lt fuel (<[p := v]> h) c) as [h' p'].
  destruct IH as (H1 & H2 & H3 & H4 & H5 & H6). split_and!; [done..|].
  rewrite H6. apply insert_same_Permutation; [lia|done|done].
Qed.

(** A hole filled with an item between its parent and its children. *)
Lemma holed_fill s p x h : p < length h → holed s p h →
  (∀ c y, child p c → h !! c = Some y → le x y) →
  (s < p → ∃ g, h !! parentpos p = Some g ∧ le g x) → ordered s (<[p := x]> h).
Proof.
  intros Hp [He _] Hx Hg q c a b Hq Hqc Ha Hb. pose proof (child_lt q c Hqc).
  destruct (decide (q = p)) as [->|Hqp].
  { rewrite list_lookup_insert_eq in Ha by done. injection Ha as <-.
    rewrite list_lookup_insert_ne in Hb by lia. by apply (Hx c). }
  rewrite list_lookup_insert_ne in Ha by done.
  destruct (decide (c = p)) as [->|Hcp].
  - rewrite list_lookup_insert_eq in Hb by done. injection Hb as <-.
    destruct Hg as (g & Hpg & Hle); [lia|]. rewrite (parent_child q p Hqc) in Hpg. congruence.
  - rewrite list_lookup_insert_ne in Hb by done. by apply (He q c).
Qed.

(** The parent moves down into the hole. *)
Lemma holed_down s p g v h :
  s ≤ g → child g p → p < length h → h !! g = Some v → holed s p h → holed s g (<[p := v]> h).
Proof.
  intros Hg Hgp Hp Hv [He Hk]. pose proof (child_lt g p Hgp). split.
  - intros q c a b Hq Hqg Hcg Hqc Ha Hb. pose proof (child_lt q c Hqc).
    destruct (decide (c = p)) as [->|Hcp]; [by destruct Hqg; apply (child_unique q g p)|].
    rewrite list_lookup_insert_ne in Hb by done.
    destruct (decide (q = p)) as [->|Hqp].
    + rewrite list_lookup_insert_eq in Ha by done. injection Ha as <-. by apply (Hk g c v b).
    + rewrite list_lookup_insert_ne in Ha by done. by apply (He q c).
  - intros q c a b Hq Hqg Hgc Ha Hb. pose proof (child_lt q g Hqg).
    rewrite list_lookup_insert_ne in Ha by lia. assert (le a v) as Hav by (apply (He q g); (done || lia)).
    destruct (decide (c = p)) as [->|Hcp].
    + rewrite list_lookup_insert_eq in Hb by done. by injection Hb as <-.
    + rewrite list_lookup_insert_ne in Hb by done.
      assert (le v b) as Hvb by (apply (He g c); (done || lia)). by apply (lt_trans a v b).
Qed.

(** An item smaller than that parent is below the parent's children. *)
Lemma holed_bound s p g x v h :
  holed s p h → s ≤ g → child g p → p < length h → h !! g = Some v → lt x v = true →
  ∀ c y, child g c → <[p := v]> h !! c = Some y → le x y.
Proof.
  intros [He _] Hg Hgp Hp Hv Hlt c y Hgc Hy. pose proof (child_lt g p Hgp).
  destruct (decide (c = p)) as [->|Hcp].
  - rewrite list_lookup_insert_eq in Hy by done. injection Hy as <-. by apply lt_le.
  - rewrite list_lookup_insert_ne in Hy by done. pose proof (child_lt g c Hgc).
    assert (le v y) as Hvy by (apply (He g c); (done || lia)). apply (lt_trans x v y); [by apply lt_le|done].
Qed.

(** The new item rises from the hole. *)
Lemma siftdown_loop_spec s x fuel : ∀ h p, below s p → p < length h → p ≤ s + fuel → holed s p h →
  (∀ c y, child p c → h !! c = Some y → le x y) →
  let '(h', p') := siftdown_loop lt fuel h s p x in
  ordered s (<[p' := x]> h') ∧ <[p' := x]> h' ≡ₚ <[p := x]> h.
Proof.
  induction fuel as [|fuel IH]; intros h p Hb Hp Hfuel Hh Hx.
  all: cbn [siftdown_loop].
  { split; [|done]. apply holed_fill; [done..|lia]. }
  destruct (Nat.ltb_spec s p) as [Hsp|Hsp].
  2:{ split; [|done]. apply holed_fill; [done..|lia]. }
  destruct (below_parent s p Hb ltac:(lia)) as [Hsg Hbg]. set (g := parentpos p) in *.
  assert (child g p) as Hgp by (apply child_parent; lia). pose proof (child_lt g p Hgp).
  destruct (h !! g) as [v|] eqn:Hv; [|apply lookup_ge_None in Hv; lia].
  destruct (lt x v) eqn:Hlt.
  2:{ split; [|done]. apply holed_fill; [done..|]. intros _. by exists v. }
  specialize (IH (<[p := v]> h) g Hbg). rewrite length_insert in IH. specialize (IH ltac:(lia) ltac:(lia)).
  destruct (siftdown_loop lt fuel (<[p := v]> h) s g x) as [h' p'].
  destruct IH as [Hord Hperm]; [by apply holed_down|by apply (holed_bound s p g x v)|split; [done|]].
  rewrite Hperm. apply insert_same_Permutation; [lia|done|done].
Qed.

(** ** The operations of [heapq] *)
Lemma siftup_spec s h : s < length h → ordered (S s) h →
  ordered s (siftup lt h s) ∧ siftup lt h s ≡ₚ h.
Proof.
  intros Hs Hord. unfold siftup. destruct (h !! s) as [x|] eqn:Hx; [|apply lookup_ge_None in Hx; lia].
  assert (holed s s h) as Hh.
  { split; [|intros q c ? ? Hq Hqs%child_lt; lia].
    intros q c a b Hq Hqs _ Hqc. apply Hord; [lia|done]. }
  pose proof (siftup_loop_spec s x (length h) h s (below_here s) Hs ltac:(lia) Hh) as Hup.
  destruct (siftup_loop lt (length h) h s) as [h' p']. destruct Hup as (Hb & Hp & Hh' & Hleaf & Hlen & Hperm).
  unfold siftdown. rewrite list_lookup_insert_eq by done.
  pose proof (siftdown_loop_spec s x p' (<[p' := x]> h') p' Hb) as Hdown.
  rewrite length_insert in Hdown. specialize (Hdown Hp ltac:(lia)).
  destruct (siftdown_loop lt p' (<[p' := x]> h') s p' x) as [h'' p''].
  destruct Hdown as [Hord' Hperm'].
  - destruct Hh' as [He Hk]. split.
    + intros q c a b Hq Hqp Hcp Hqc Ha Hb'. rewrite list_lookup_insert_ne in Ha, Hb' by done. by apply (He q c).
    + intros q c a b Hq Hqp Hpc _ Hb'. pose proof (child_lt p' c Hpc).
      rewrite list_lookup_insert_ne, Hleaf in Hb' by (done || lia). done.
  - intros c y Hc Hy. pose proof (child_lt p' c Hc).
    rewrite list_lookup_insert_ne, Hleaf in Hy by (done || lia). done.
  - split; [done|]. rewrite Hperm', list_insert_insert_eq, Hperm. by rewrite list_insert_id.
Qed.

Lemma heappush_spec h x : ordered 0 h → ordered 0 (heappush lt h x) ∧ heappush lt h x ≡ₚ x :: h.
Proof.
  intros Hord. unfold heappush, siftdown. rewrite lookup_app_r, Nat.sub_diag by done. cbn [lookup list_lookup].
  assert (∀ i, i < length h → (h ++ [x]) !! i = h !! i) as Hl by (intros; by apply lookup_app_l).
  pose proof (siftdown_loop_spec 0 x (length h) (h ++ [x]) (length h) (below_root _)) as Hdown.
  rewrite length_app in Hdown. specialize (Hdown ltac:(simpl; lia) ltac:(lia)).
  destruct (siftdown_loop lt (length h) (h ++ [x]) 0 (length h) x) as [h' p'].
  destruct Hdown as [Hord' Hperm].
  - split.
    + intros q c a b _ Hq Hc Hqc Ha Hb. pose proof (child_lt q c Hqc).
      apply lookup_lt_Some in Hb as Hb'. rewrite length_app in Hb'. simpl in Hb'.
      rewrite Hl in Ha, Hb by lia. apply (Hord q c); (done || lia).
    + intros q c a b _ _ Hc _ Hb. apply lookup_lt_Some in Hb. rewrite length_app in Hb.
      apply child_lt in Hc. simpl in Hb. lia.
  - intros c y Hc Hy. apply lookup_lt_Some in Hy. rewrite length_app in Hy.
    apply child_lt in Hc. simpl in Hy. lia.
  - split; [done|]. rewrite Hperm, list_insert_id.
    + by rewrite (comm (++)).
    + rewrite lookup_app_r, Nat.sub_diag by done. done.
Qed.

Lemma root_least h x : ordered 0 h → h !! 0 = Some x → ∀ y, y ∈ h → le x y.
Proof.
  intros Hord Hx y (i & Hi)%list_elem_of_lookup. revert y Hi.
  induction (lt_wf i) as [i _ IH]. intros y Hi. destruct (decide (i = 0)) as [->|Hi0].
  { assert (y = x) as -> by congruence. apply le_refl. }
  pose proof (child_parent i ltac:(lia)) as Hc. pose proof (child_lt _ _ Hc).
  destruct (lookup_lt_is_Some_2 h (parentpos i)) as [g Hg]; [apply lookup_lt_Some in Hi; lia|].
  assert (le x g) as Hxg by by apply (IH (parentpos i)).
  assert (le g y) as Hgy by (by apply (Hord (parentpos i) i); [lia|..]). by apply (lt_trans x g y).
Qed.

Lemma heappop_spec h : ordered 0 h →
  match heappop lt h with
  | Some (x, h') => h ≡ₚ x :: h' ∧ ordered 0 h' ∧ (∀ y, y ∈ h → le x y) ∧ head h = Some x
  | None => h = []
  end.
Proof.
  intros Hord. unfold heappop. destruct (last h) as [z|] eqn:Hlast; [|by apply last_None].
  apply last_Some in Hlast as (l & ->). rewrite removelast_last.
  destruct l as [|x rest].
  { cbn. split_and!; [done|by intros ? ? ? ? _ _ ?|by intros y ->%list_elem_of_singleton; apply le_refl|done]. }
  destruct (siftup_spec 0 (z :: rest)) as [Hord' Hperm].
  { simpl. lia. }
  { intros q c a b Hq Hqc Ha Hb. pose proof (child_lt q c Hqc).
    assert (∀ i y, 0 < i → (z :: rest) !! i = Some y → ((x :: rest) ++ [z]) !! i = Some y) as Hl.
    { intros [|i] y Hi Hy; [lia|]. cbn in Hy |- *. apply lookup_app_l_Some. done. }
    apply (Hord q c); [lia|done|apply Hl; [lia|done]..]. }
  split_and!; [|done| |done].
  - rewrite Hperm. cbn. by rewrite (comm (++)).
  - by apply root_least.
Qed.

Lemma heapify_spec h : ordered 0 (heapify lt h) ∧ heapify lt h ≡ₚ h.
Proof.
  unfold heapify.
  assert (∀ n h', ordered n h' → n ≤ length h' → h' ≡ₚ h →
    ordered 0 (foldl (siftup lt) h' (reverse (seq 0 n))) ∧ foldl (siftup lt) h' (reverse (seq 0 n)) ≡ₚ h) as Hloop.
  { induction n as [|n IH]; intros h' Hord Hn Hp; [done|].
    rewrite seq_S, reverse_snoc. cbn [foldl Nat.add].
    destruct (siftup_spec n h') as [Hord' Hp']; [lia|done|].
    apply IH; [done| |by rewrite Hp']. rewrite Hp'. lia. }
  apply Hloop; [|lia|done].
  intros p c x y Hp Hc _ Hy%lookup_lt_Some. unfold child in Hc. lia.
Qed.

Lemma drain_spec fuel : ∀ h, ordered 0 h → length h ≤ fuel →
  drain lt fuel h ≡ₚ h ∧ StronglySorted le (drain lt fuel h).
Proof.
  induction fuel as [|fuel IH]; intros h Hord Hlen; cbn [drain].
  { destruct h; [|simpl in Hlen; lia]. split; [done|constructor]. }
  pose proof (heappop_spec h Hord) as Hpop. destruct (heappop lt h) as [[x h']|].
  2:{ subst h. split; [done|constructor]. }
  destruct Hpop as (Hp & Hord' & Hmin & _).
  destruct (IH h' Hord') as [Hp' Hs]. { rewrite Hp in Hlen. simpl in Hlen. lia. }
  split; [by rewrite Hp, Hp'|]. constructor; [done|]. apply list.Forall_forall.
  intros y Hy. rewrite Hp' in Hy. apply Hmin. rewrite Hp. by right.
Qed.
End heap.

(** ** The priority queue *)
Section queue.
Context {A : Type} `{EqDecision A} (lt : A → A → bool).
Context (lt_asym : ∀ x y, lt x y = true → lt y x = false).
Context (lt_trans : ∀ x y z, lt y x = false → lt z y = false → lt z x = false).
#[local] Instance the_queue : RequestQueue A (PriorityRequestQueue A) := priority_queue lt.
Notation Queue := (PriorityRequestQueue A).

Inductive queue_op :=
  | QAdd (x : A) | QPrepend (x : A) | QPrependAll (l : list A)
  | QPop | QPeek | QRemove (x : A) | QRemoveAll (l : list A).

Definition run_op (op : queue_op) : M Queue (option A) :=
  match op with
  | QAdd x => add_request x ;; mret None
  | QPrepend x => prepend_request x ;; mret None
  | QPrependAll l => prepend_requests l ;; mret None
  | QPop => x ← pop_request; mret (Some x)
  | QPeek => x ← peek_request; mret (Some x)
  | QRemove x => remove_request x ;; mret None
  | QRemoveAll l => remove_requests l ;; mret None
  end.

(** A sequence of calls whose exceptions the caller survives. *)
Fixpoint run_ops (ops : list queue_op) (q : Queue) : Queue :=
  match ops with [] => q | op :: ops' => run_ops ops' (out_state (run_op op q)) end.

(** What a priority queue promises, over the collection [l] it holds. *)
Definition op_spec (op : queue_op) (q : Queue) (l : list A) (o : outcome Queue (option A)) : Prop :=
  let becomes l' := ∃ q', o = Ret None q' ∧ heap q' ≡ₚ l' in
  match op with
  | QAdd x | QPrepend x => becomes (x :: l)
  | QPrependAll xs => becomes (xs ++ l)
  | QPop =>
      if decide (l = []) then o = Exc IndexError q
      else ∃ x q', o = Ret (Some x) q' ∧ l ≡ₚ x :: heap q' ∧ ∀ y, y ∈ l → le lt x y
  | QPeek =>
      if decide (l = []) then o = Exc IndexError q
      else ∃ x, o = Ret (Some x) q ∧ x ∈ l ∧ ∀ y, y ∈ l → le lt x y
  | QRemove x =>
      if decide (x ∈ l) then ∃ q', o = Ret None q' ∧ l ≡ₚ x :: heap q' else o = Exc ValueError q
  | QRemoveAll xs => becomes (filter (.∉ xs) l)
  end.

Lemma list_remove_spec (x : A) l :
  match list_remove x l with
  | Some l' => l ≡ₚ x :: l'
  | None => x ∉ l
  end.
Proof.
  induction l as [|y l IH]; cbn [list_remove]; [apply not_elem_of_nil|].
  case_decide as E; [by subst|]. destruct (list_remove x l) as [l'|]; cbn.
  - by rewrite IH, Permutation_swap.
  - by intros [->|?]%elem_of_cons.
Qed.

Lemma add_all l : ∀ q : Queue, ordered lt 0 (heap q) →
  ∃ q', forM l (priority_add lt) q = Ret tt q' ∧ ordered lt 0 (heap q') ∧ heap q' ≡ₚ l ++ heap q.
Proof.
  induction l as [|x l IH]; intros q Hq; cbn [forM]; [by exists q|].
  destruct (heappush_spec lt lt_asym lt_trans (heap q) x Hq) as [Hq1 Hp1].
  destruct (IH (mkPriority (heappush lt (heap q) x)) Hq1) as (q' & Hrun & Hq' & Hp'). exists q'.
  split_and!; [exact Hrun|done|]. rewrite Hp'. cbn [heap app]. rewrite Hp1. by rewrite Permutation_middle.
Qed.

Lemma queue_op_spec op (q : Queue) : ordered lt 0 (heap q) →
  op_spec op q (heap q) (run_op op q) ∧ ordered lt 0 (heap (out_state (run_op op q))).
Proof.
  intros Hq. destruct op as [x|x|l| | |x|l]; cbn [run_op add_request prepend_request prepend_requests
    pop_request peek_request remove_request remove_requests the_queue priority_queue op_spec].
  1,2: destruct (heappush_spec lt lt_asym lt_trans (heap q) x Hq) as [Hq' Hp']; split; [by eexists|done].
  - destruct (add_all l q Hq) as (q' & Hrun & Hq' & Hp'). rewrite bind_unfold, Hrun. split; [by eexists|done].
  - pose proof (heappop_spec lt lt_asym lt_trans (heap q) Hq) as Hpop. rewrite !bind_unfold. cbn [get_state].
    destruct (heappop lt (heap q)) as [[x h']|].
    + destruct Hpop as (Hp & Hh' & Hmin & _). rewrite decide_False; [|intros E; rewrite E in Hp; by apply Permutation_nil_cons in Hp].
      split; [by exists x, (mkPriority h')|done].
    + rewrite decide_True by done. done.
  - rewrite !bind_unfold. cbn [get_state]. destruct (heap q) as [|x h] eqn:E.
    { rewrite decide_True by done. split; [done|]. cbn. by rewrite E. }
    rewrite decide_False by done. split; [|cbn; by rewrite E]. exists x. split_and!; [done|by left|].
    apply (root_least lt lt_asym lt_trans (x :: h) x); done.
  - pose proof (list_remove_spec x (heap q)) as Hr. rewrite !bind_unfold. cbn [get_state].
    destruct (list_remove x (heap q)) as [h'|].
    + rewrite decide_True by (rewrite Hr; by left). destruct (heapify_spec lt lt_asym lt_trans h') as [Ho Hp].
      split; [|done]. eexists. split; [done|]. cbn. by rewrite Hp.
    + rewrite decide_False by done. done.
  - destruct (heapify_spec lt lt_asym lt_trans (filter (.∉ l) (heap q))) as [Ho Hp].
    split; [by eexists|done].
Qed.

(** C31.  The priority queue is one: after any calls, adding and
    prepending put the requests in, removing takes exactly the named ones out
    (and raises only when asked for one it does not hold), popping and peeking
    give a request no other precedes (and raise only on an empty queue), and
    iteration yields every request once, in order, leaving the queue alone.
    All loops of the heap end. *)
Theorem priority_queue_refines ops op (q := run_ops ops (mkPriority [])) :
  op_spec op q (heap q) (run_op op q)
  ∧ queue_iter q ≡ₚ heap q ∧ StronglySorted (le lt) (queue_iter q)
  ∧ queue_len q = zlen (heap q) ∧ (queue_bool q = true ↔ heap q ≠ []).
Proof.
  assert (∀ q0 : Queue, ordered lt 0 (heap q0) → ordered lt 0 (heap (run_ops ops q0))) as Hrun.
  { induction ops as [|op' ops IH]; intros q0 Hq0; cbn [run_ops]; [done|]. by apply IH, queue_op_spec. }
  assert (ordered lt 0 (heap q)) as Hq by (apply Hrun; by intros ? ? ? ? _ _ ?).
  split; [by apply queue_op_spec|].
  destruct (drain_spec lt lt_asym lt_trans (length (heap q)) (heap q) Hq) as [Hp Hs]; [done|].
  split_and!; [exact Hp|exact Hs|done|]. cbn. rewrite negb_true_iff, bool_decide_eq_false. done.
Qed.
End queue.

(** ** Requests in a queue *)
Lemma str_trichotomy a b :
  (String.compare a b = Lt ∧ String_as_OT.lt a b) ∨ (String.compare a b = Eq ∧ a = b)
  ∨ (String.compare a b = Gt ∧ String_as_OT.lt b a).
Proof.
  destruct (String.compare a b) eqn:E.
  - right. left. split; [done|]. by apply String_as_OT.cmp_eq.
  - left. split; [done|]. by apply String_as_OT.cmp_lt.
  - right. right. split; [done|]. apply String_as_OT.cmp_lt. unfold String_as_OT.cmp.
    pose proof (String_as_OT.cmp_antisym b a) as H. unfold String_as_OT.cmp in H. by rewrite H, E.
Qed.

(** The order of [Request.__lt__] as a proposition. *)
Definition precedes (a b : Request Q) : Prop :=
  (priority a < priority b)%Z
  ∨ priority a = priority b ∧ ((arrival_time a < arrival_time b)%Q
    ∨ (arrival_time a == arrival_time b)%Q ∧ String_as_OT.lt (request_id a) (request_id b)).
Definition same_rank (a b : Request Q) : Prop :=
  priority a = priority b ∧ (arrival_time a == arrival_time b)%Q ∧ request_id a = request_id b.

Lemma request_lt_precedes a b : request_lt false a b = true ↔ precedes a b.
Proof.
  unfold request_lt, precedes, feqb. cbn [fleb fltb Q_ops].
  destruct (Z.eqb_spec (priority a) (priority b)) as [Ep|Np]; cbn [negb].
  2:{ rewrite Z.ltb_lt. split; [by left|]. intros [?|[? _]]; done. }
  destruct (Qle_bool _ _ && _) eqn:Et; cbn [negb].
  - apply andb_true_iff in Et as [E1%Qle_bool_iff E2%Qle_bool_iff].
    assert (String.compare (request_id a) (request_id b) = Lt ↔ String_as_OT.lt (request_id a) (request_id b)) as Hs
      by apply String_as_OT.cmp_lt.
    case_bool_decide as Ei.
    + split; [done|]. intros [?|[_ [?|[_ Hlt]]]]; [lia|lra|]. rewrite Ei in Hlt.
      by apply String_as_OT.lt_not_eq in Hlt.
    + rewrite bool_decide_eq_true, Hs. split; [intros; right; split; [done|right; split; [lra|done]]|].
      intros [?|[_ [?|[_ ?]]]]; [lia|lra|done].
  - apply andb_false_iff in Et. rewrite Qltb_lt. split; [intros; right; split; [done|by left]|].
    intros [?|[_ [?|[E _]]]]; [lia|done|].
    destruct Et as [Et|Et]; apply not_true_iff_false in Et; rewrite Qle_bool_iff in Et; lra.
Qed.

Lemma precedes_total a b : precedes a b ∨ same_rank a b ∨ precedes b a.
Proof.
  unfold precedes, same_rank. destruct (Z.lt_trichotomy (priority a) (priority b)) as [|[|]]; [tauto| |tauto].
  destruct (Q_dec (arrival_time a) (arrival_time b)) as [[?|?]|?]; [tauto|right; right; right; split; [done|by left]|].
  assert (arrival_time b == arrival_time a)%Q by (by symmetry).
  assert (priority b = priority a) by done.
  destruct (str_trichotomy (request_id a) (request_id b)) as [[_ ?]|[[_ ?]|[_ ?]]]; tauto.
Qed.

Lemma precedes_irrefl a b : precedes a b → ¬ (same_rank a b ∨ precedes b a).
Proof.
  unfold precedes, same_rank. intros Hab Hba.
  destruct Hab as [?|[? [?|[? Hs]]]], Hba as [(?&?&Hi)|[?|[? [?|[? Hs']]]]]; try lia; try lra.
  - rewrite Hi in Hs. by apply String_as_OT.lt_not_eq in Hs.
  - apply (String_as_OT.lt_trans _ _ _ Hs) in Hs'. by apply String_as_OT.lt_not_eq in Hs'.
Qed.

Lemma precedes_trans a b c :
  precedes a b ∨ same_rank a b → precedes b c ∨ same_rank b c → precedes a c ∨ same_rank a c.
Proof.
  unfold precedes, same_rank.
  intros [[?|[? [?|[? Hs]]]]|(?&?&Hi)] [[?|[? [?|[? Hs']]]]|(?&?&Hi')]; try (left; left; lia);
    try (left; right; split; [lia|left; lra]).
  - left. right. split; [lia|]. right. split; [lra|]. by eapply String_as_OT.lt_trans.
  - left. right. split; [lia|]. right. split; [lra|]. by rewrite <-Hi'.
  - left. right. split; [lia|]. right. split; [lra|]. by rewrite Hi.
  - right. split; [lia|]. split; [lra|]. congruence.
Qed.

Lemma not_precedes a b : request_lt false b a = false ↔ precedes a b ∨ same_rank a b.
Proof.
  rewrite <-not_true_iff_false, request_lt_precedes. split.
  - intros Hn. destruct (precedes_total a b) as [|[|]]; tauto.
  - intros [Hab|(?&?&?)] Hba; [apply (precedes_irrefl a b Hab); by right|].
    apply (precedes_irrefl b a Hba). left. by split_and!.
Qed.

Lemma request_lt_asym (a b : Request Q) : request_lt false a b = true → request_lt false b a = false.
Proof. rewrite request_lt_precedes, not_precedes. by left. Qed.
Lemma request_lt_trans (a b c : Request Q) :
  request_lt false b a = false → request_lt false c b = false → request_lt false c a = false.
Proof. rewrite !not_precedes. apply precedes_trans. Qed.

#[local] Instance Q_eq_decision : EqDecision Q.
Proof. solve_decision. Defined.

Definition demo_waiting (id : string) (prio : Z) (t : Q) : Request Q :=
  mkRequest id prio t WAITING 16 1 [] [5]%Z [] 0 [] 0 [] false None None None None None None.
Definition wait_a := demo_waiting "a" 0 3%Q.
Definition wait_b := demo_waiting "b" 0 2%Q.
Definition wait_c := demo_waiting "c" (-1) 9%Q.

Lemma priority_queue_refines_witness :
  queue_iter (RequestQueue := priority_queue (request_lt false))
    (run_ops (request_lt false) [QAdd wait_a; QPrependAll [wait_b; wait_c]] (mkPriority [])) = [wait_c; wait_b; wait_a]
  ∧ ∃ q, run_op (request_lt false) QPop
      (run_ops (request_lt false) [QAdd wait_a; QPrependAll [wait_b; wait_c]] (mkPriority []))
    = Ret (Some wait_c) q.
Proof.
  destruct (priority_queue_refines (request_lt false) request_lt_asym request_lt_trans
    [QAdd wait_a; QPrependAll [wait_b; wait_c]] QPop) as (Hop & _).
  split; [by vm_compute|]. cbn [op_spec] in Hop. rewrite decide_False in Hop by (by vm_compute).
  destruct Hop as (x & q & Hrun & _). exists q. rewrite Hrun. f_equal.
  assert (out_value (run_op (request_lt false) QPop
    (run_ops (request_lt false) [QAdd wait_a; QPrependAll [wait_b; wait_c]] (mkPriority []))) = Some (Some wait_c)) as E
    by (by vm_compute).
  rewrite Hrun in E. exact (f_equal (default None) E).
Defined.
