(* ===== verification/QueueLaws.v ===== *)
(** * What a waiting queue promises

    The scheduler holds its waiting requests in two queues of the kind its
    policy names and works with either kind through the same calls.  [items]
    are the requests a queue holds; [QueueLaws] says what every call does to
    them, whatever the order the queue keeps.  Both kinds satisfy it, and so
    does the queue [create_request_queue] makes, one or the other. *)
From S2P Require Import Prelude RequestQueue QueueFacts.

Class QueueLaws (A Q : Type) `{EqDecision A} `{RequestQueue A Q} (items : Q → list A) : Prop := {
  add_law x q : ∃ q', add_request x q = Ret tt q' ∧ items q' ≡ₚ x :: items q;
  prepend_law x q : ∃ q', prepend_request x q = Ret tt q' ∧ items q' ≡ₚ x :: items q;
  prepend_all_law l q : ∃ q', prepend_requests l q = Ret tt q' ∧ items q' ≡ₚ l ++ items q;
  peek_law q : items q ≠ [] → ∃ x, peek_request q = Ret x q ∧ x ∈ items q;
  pop_law q x : peek_request q = Ret x q →
    ∃ q', pop_request q = Ret x q' ∧ items q ≡ₚ x :: items q';
  remove_law x q : x ∈ items q → ∃ q', remove_request x q = Ret tt q' ∧ items q ≡ₚ x :: items q';
  peek_empty_law q : items q = [] → ∃ e, peek_request q = Exc e q;
  remove_absent_law x q : x ∉ items q → ∃ e, remove_request x q = Exc e q;
  remove_all_law l q : ∃ q', remove_requests l q = Ret tt q' ∧ items q' ≡ₚ filter (.∉ l) (items q);
  bool_law q : queue_bool q = negb (bool_decide (items q = []));
  len_law q : queue_len q = zlen (items q);
  iter_law q : queue_iter q ≡ₚ items q
}.

Lemma list_remove_in {A} `{EqDecision A} (x : A) l l' : list_remove x l = Some l' → x ∈ l.
Proof.
  revert l'. induction l as [|y l IH]; intros l'; cbn; [done|]. case_decide as E; [intros _; subst; by left|].
  destruct (list_remove x l); [|done]. intros _. right. by eapply IH.
Qed.

(** ** First come first served *)
#[export] Instance fcfs_laws {A} `{EqDecision A} : QueueLaws A (FCFSRequestQueue A) deque.
Proof.
  constructor; intros; cbn -[filter].
  - eexists. split; [done|]. cbn. by rewrite Permutation_app_comm.
  - by eexists.
  - eexists. split; [done|]. cbn. by rewrite reverse_Permutation.
  - rewrite bind_unfold. cbn. destruct (deque q) as [|y l]; [done|]. exists y. by split; [|left].
  - cbn in *. rewrite !bind_unfold in *. cbn in *. destruct (deque q) as [|y l]; [done|]. injection H as ->.
    by eexists.
  - rewrite bind_unfold. cbn. pose proof (list_remove_spec x (deque q)) as Hr.
    destruct (list_remove x (deque q)) as [l|]; [|done]. by eexists.
  - rewrite bind_unfold. cbn. rewrite H. by eexists.
  - rewrite bind_unfold. cbn. destruct (list_remove x (deque q)) as [l|] eqn:Hl; [|by eexists].
    destruct H. by eapply list_remove_in.
  - by eexists.
  - destruct (deque q); [done|]. rewrite bool_decide_eq_false_2 by done. cbn. apply Z.ltb_lt. unfold zlen. cbn. lia.
  - done.
  - done.
Qed.

(** ** By priority

    The heap algorithms permute, for any comparison. *)
Section permutes.
Context {A : Type} (lt : A → A → bool).
Implicit Types (h : list A).

Lemma siftdown_loop_permutes s x fuel : ∀ h p, p < length h →
  let '(h', p') := siftdown_loop lt fuel h s p x in
  p' < length h' ∧ length h' = length h ∧ <[p' := x]> h' ≡ₚ <[p := x]> h.
Proof.
  induction fuel as [|fuel IH]; intros h p Hp; cbn [siftdown_loop]; [done|].
  destruct (Nat.ltb_spec s p) as [Hs|Hs]; [|done].
  destruct (h !! parentpos p) as [g|] eqn:Hg; [|done]. destruct (lt x g); [|done].
  pose proof (child_lt _ _ (child_parent p ltac:(lia))) as Hlt.
  specialize (IH (<[p := g]> h) (parentpos p)). rewrite length_insert in IH.
  specialize (IH ltac:(lia)). destruct (siftdown_loop _ _ _ _ _ _) as [h' p'].
  destruct IH as (H1 & H2 & H3). split_and!; [done..|]. rewrite H3. by apply insert_same_Permutation; [lia|..].
Qed.

Lemma siftdown_permutes h s p : siftdown lt h s p ≡ₚ h ∧ length (siftdown lt h s p) = length h.
Proof.
  unfold siftdown. destruct (h !! p) as [x|] eqn:Hx; [|done].
  pose proof (siftdown_loop_permutes s x p h p (lookup_lt_Some _ _ _ Hx)) as Hl.
  destruct (siftdown_loop _ _ _ _ _ _) as [h' p']. destruct Hl as (_ & H2 & H3).
  rewrite length_insert, H3, list_insert_id by done. done.
Qed.

Lemma smaller_child_at h p :
  match smaller_child lt h p with
  | Some (c, v) => child p c ∧ h !! c = Some v
  | None => True
  end.
Proof.
  unfold smaller_child. replace (2 * p + 1 + 1) with (2 * p + 2) by lia.
  destruct (h !! (2 * p + 1)) as [l|] eqn:El; [|done].
  destruct (h !! (2 * p + 2)) as [r|] eqn:Er; [destruct (lt l r)|]; (split; [|done]); [by left|by right|by left].
Qed.

Lemma siftup_loop_permutes x fuel : ∀ h p, p < length h →
  let '(h', p') := siftup_loop lt fuel h p in
  length h' = length h ∧ <[p' := x]> h' ≡ₚ <[p := x]> h.
Proof.
  induction fuel as [|fuel IH]; intros h p Hp; cbn [siftup_loop]; [done|].
  pose proof (smaller_child_at h p) as Hc. destruct (smaller_child lt h p) as [[c v]|]; [|done].
  destruct Hc as (Hc & Hv). pose proof (child_lt p c Hc).
  specialize (IH (<[p := v]> h) c). rewrite length_insert in IH. apply lookup_lt_Some in Hv as Hcl.
  specialize (IH Hcl). destruct (siftup_loop lt fuel (<[p := v]> h) c) as [h' p'].
  destruct IH as (H1 & H2). split; [done|]. rewrite H2. apply insert_same_Permutation; [lia|done|done].
Qed.

Lemma siftup_permutes h p : siftup lt h p ≡ₚ h.
Proof.
  unfold siftup. destruct (h !! p) as [x|] eqn:Hx; [|done].
  pose proof (siftup_loop_permutes x (length h) h p (lookup_lt_Some _ _ _ Hx)) as Hl.
  destruct (siftup_loop _ _ _ _) as [h' p']. destruct Hl as (_ & H3).
  by rewrite (proj1 (siftdown_permutes _ _ _)), H3, list_insert_id.
Qed.

Lemma heappush_permutes h x : heappush lt h x ≡ₚ x :: h.
Proof. unfold heappush. by rewrite (proj1 (siftdown_permutes _ _ _)), Permutation_app_comm. Qed.

Lemma heapify_permutes h : heapify lt h ≡ₚ h.
Proof.
  unfold heapify. generalize (reverse (seq 0 (length h / 2))). intros ps. revert h.
  induction ps as [|p ps IH]; intros h; cbn [foldl]; [done|]. by rewrite IH, siftup_permutes.
Qed.

Lemma heappop_permutes x h : ∃ h', heappop lt (x :: h) = Some (x, h') ∧ x :: h ≡ₚ x :: h'.
Proof.
  unfold heappop. destruct h as [|y h] using rev_ind; [by exists []|]. clear IHh.
  rewrite app_comm_cons, last_snoc, removelast_last. eexists. split; [done|].
  rewrite siftup_permutes. cbn. apply Permutation_skip. by rewrite Permutation_app_comm.
Qed.

Lemma drain_permutes n : ∀ h, length h ≤ n → drain lt n h ≡ₚ h.
Proof.
  induction n as [|n IH]; intros h Hn; cbn [drain]; [by destruct h; [|cbn in Hn; lia]|].
  destruct h as [|x h]; [done|]. destruct (heappop_permutes x h) as (h' & -> & Hp). rewrite IH; [by rewrite Hp|].
  apply Permutation_length in Hp. cbn in *. lia.
Qed.
End permutes.

(** The comparison may differ from call to call. *)
Lemma priority_laws {A} `{EqDecision A} (lt : A → A → bool) :
  QueueLaws A (H := priority_queue lt) (PriorityRequestQueue A) heap.
Proof.
  assert (∀ l (q : PriorityRequestQueue A), ∃ q', forM l (priority_add lt) q = Ret tt q' ∧ heap q' ≡ₚ l ++ heap q) as Hall.
  { induction l as [|x l IH]; intros q; cbn [forM]; [by eexists|].
    destruct (IH (mkPriority (heappush lt (heap q) x))) as (q' & Hq & Hp). exists q'. split; [done|].
    cbn in *. by rewrite Hp, heappush_permutes, Permutation_middle. }
  constructor; intros; cbn -[filter heappush heappop heapify drain priority_add].
  - eexists. split; [done|]. apply heappush_permutes.
  - eexists. split; [done|]. apply heappush_permutes.
  - apply Hall.
  - rewrite bind_unfold. cbn. destruct (heap q) as [|x l]; [done|]. exists x. split; [done|by left].
  - cbn in H. rewrite !bind_unfold in *. cbn in *. destruct (heap q) as [|y l]; [done|]. injection H as ->.
    destruct (heappop_permutes lt x l) as (h' & -> & Hp). by eexists.
  - rewrite bind_unfold. cbn. pose proof (list_remove_spec x (heap q)) as Hr.
    destruct (list_remove x (heap q)) as [l|]; [|done]. eexists. split; [done|]. cbn. by rewrite (heapify_permutes lt l).
  - rewrite bind_unfold. cbn. rewrite H. by eexists.
  - rewrite bind_unfold. cbn. destruct (list_remove x (heap q)) as [l|] eqn:Hl; [|by eexists].
    destruct H. by eapply list_remove_in.
  - eexists. split; [done|]. apply heapify_permutes.
  - done.
  - done.
  - by apply drain_permutes.
Qed.

(** ** Either kind *)
Section either.
Context {A : Type} `{EqDecision A}.
Notation Q := (PriorityRequestQueue A + FCFSRequestQueue A)%type.

Definition waiting_items (q : Q) : list A :=
  match q with inl p => heap p | inr d => deque d end.

Lemma lift_l {B} (c : M _ B) (d : M _ B) q a (P : list A → Prop) :
  (∃ q', c q = Ret a q' ∧ P (heap q')) → ∃ q' : Q, dispatch c d (inl q) = Ret a q' ∧ P (waiting_items q').
Proof. intros (q' & Hq & HP). exists (inl q'). split; [|done]. cbn. by rewrite Hq. Qed.

Lemma lift_r {B} (c : M _ B) (d : M _ B) q a (P : list A → Prop) :
  (∃ q', d q = Ret a q' ∧ P (deque q')) → ∃ q' : Q, dispatch c d (inr q) = Ret a q' ∧ P (waiting_items q').
Proof. intros (q' & Hq & HP). exists (inr q'). split; [|done]. cbn. by rewrite Hq. Qed.

Lemma dispatched_l {B} (c : M _ B) (d : M _ B) q a q' : dispatch (T := FCFSRequestQueue A) c d (inl q) = Ret a (inl q') → c q = Ret (S := PriorityRequestQueue A) a q'.
Proof. cbn. destruct (c q); congruence. Qed.

Lemma dispatched_r {B} (c : M _ B) (d : M _ B) q a q' : dispatch (S := PriorityRequestQueue A) c d (inr q) = Ret a (inr q') → d q = Ret (S := FCFSRequestQueue A) a q'.
Proof. cbn. destruct (d q); congruence. Qed.

Lemma waiting_laws (lt : A → A → bool) : QueueLaws A (H := waiting_queue lt) Q waiting_items.
Proof.
  pose proof (priority_laws lt) as P. pose proof (fcfs_laws (A := A)) as D. constructor.
  - intros x [q|q]; [apply (lift_l _ _ _ _ (λ l, l ≡ₚ _)), (add_law x q)|apply (lift_r _ _ _ _ (λ l, l ≡ₚ _)), (add_law x q)].
  - intros x [q|q]; [apply (lift_l _ _ _ _ (λ l, l ≡ₚ _)), (prepend_law x q)|apply (lift_r _ _ _ _ (λ l, l ≡ₚ _)), (prepend_law x q)].
  - intros l [q|q]; [apply (lift_l _ _ _ _ (λ l, l ≡ₚ _)), (prepend_all_law l q)|apply (lift_r _ _ _ _ (λ l, l ≡ₚ _)), (prepend_all_law l q)].
  - intros [q|q] Hq; destruct (peek_law q Hq) as (x & Hx & Hin); exists x; (split; [|done]); cbn in *; by rewrite Hx.
  - intros [q|q] x Hx.
    + apply (lift_l _ _ _ _ (λ l, _ ≡ₚ _ :: l)), (pop_law q x), (dispatched_l _ _ _ _ _ Hx).
    + apply (lift_r _ _ _ _ (λ l, _ ≡ₚ _ :: l)), (pop_law q x), (dispatched_r _ _ _ _ _ Hx).
  - intros x [q|q] Hx; [apply (lift_l _ _ _ _ (λ l, _ ≡ₚ _ :: l)), (remove_law x q Hx)|apply (lift_r _ _ _ _ (λ l, _ ≡ₚ _ :: l)), (remove_law x q Hx)].
  - intros [q|q] Hq; destruct (peek_empty_law q Hq) as [e He]; exists e; cbn in *; by rewrite He.
  - intros x [q|q] Hx; destruct (remove_absent_law x q Hx) as [e He]; exists e; cbn in *; by rewrite He.
  - intros l [q|q]; [apply (lift_l _ _ _ _ (λ l', l' ≡ₚ _)), (remove_all_law l q)|apply (lift_r _ _ _ _ (λ l', l' ≡ₚ _)), (remove_all_law l q)].
  - intros [q|q]; apply (bool_law q).
  - intros [q|q]; apply (len_law q).
  - intros [q|q]; apply (iter_law q).
Qed.
End either.
