(* ===== verification/SchedUtils.v ===== *)
(** * When a request stops ([vllm/v1/core/sched/utils.py])

    The stop conditions checked after every new token, the detection of
    repetitions in the output, and [remove_all]. *)
From Stdlib Require Import QArith.
From S2P Require Import Prelude PyFloat Request.
Local Open Scope Z_scope.

(** [l[-k]] for [1 <= k]; [None] is the [IndexError]. *)
Definition from_end {A} (l : list A) (k : Z) : option A :=
  if (1 <=? k) && (k <=? zlen l) then l !! Z.to_nat (zlen l - k) else None.

(** [range(a, b)] *)
Definition range (a b : Z) : list Z := seqZ a (b - a).

(** A loop that returns [false] at the first failed test and [true] at its
    end; a test may raise ([None]). *)
Fixpoint all_pass {A} (test : A → option bool) (l : list A) : option bool :=
  match l with
  | [] => Some true
  | x :: l' => b ← test x; if b : bool then all_pass test l' else Some false
  end.

(** [_has_repeating_pattern] *)
Definition has_repeating_pattern (token_ids : list Z) (pattern_len repetition_min_count : Z) : option bool :=
  all_pass (λ n,
    target_token ← from_end token_ids n;
    all_pass (λ m, t ← from_end token_ids (pattern_len * m + n); Some (t =? target_token))
      (range 1 repetition_min_count))
    (range 1 (pattern_len + 1)).

(** The loop of [check_sequence_repetition] over the pattern lengths. *)
Fixpoint find_pattern (token_ids : list Z) (min_count : Z) (lens : list Z) : option bool :=
  match lens with
  | [] => Some false
  | pattern_len :: lens' =>
      if zlen token_ids <? pattern_len * min_count then Some false
      else
        b ← has_repeating_pattern token_ids pattern_len min_count;
        if b : bool then Some true else find_pattern token_ids min_count lens'
  end.

(** [check_sequence_repetition] *)
Definition check_sequence_repetition (token_ids : list Z) (params : RepetitionDetectionParams) : option bool :=
  let min_pattern := if min_pattern_size params <=? 0 then 1 else min_pattern_size params in
  let max_pattern := max_pattern_size params in
  let count := min_count params in
  if (max_pattern <=? 0) || (count <? 2) || (max_pattern <? min_pattern) then Some false
  else find_pattern token_ids count (range min_pattern (max_pattern + 1)).

(** [remove_all]; a single item is removed once, several everywhere. *)
Definition remove_all {A} `{Countable A} (lst : list A) (items_to_remove : gset A) : list A :=
  match elements items_to_remove with
  | [] => lst
  | [item] =>
      match list_find (item =.) lst with
      | Some (i, _) => delete i lst
      | None => lst
      end
  | _ => filter (.∉ items_to_remove) lst
  end.

Section check_stop.
Context {F : Type} `{FloatOps F}.
Implicit Types (request : Request F).

(** [check_stop]; [None] is a failed assertion or an [IndexError]. *)
Definition check_stop request (max_model_len : Z) : option (bool * Request F) :=
  match pooling_params request, sampling_params request with
  | None, Some sp =>
      if num_output_tokens request <? min_tokens sp then Some (false, request)
      else
        last_token_id ← from_end (output_token_ids request) 1;
        if bool_decide (eos_token_id sp = Some last_token_id)
        then Some (true, put_status FINISHED_STOPPED request)
        else if bool_decide (last_token_id ∈ default [] (stop_token_ids sp))
        then Some (true, put_stop_reason (Some (StopToken last_token_id)) (put_status FINISHED_STOPPED request))
        else if (max_model_len <=? num_tokens request) || (max_tokens request <=? num_output_tokens request)
        then Some (true, put_status FINISHED_LENGTH_CAPPED request)
        else
          match repetition_detection sp with
          | None => Some (false, request)
          | Some params =>
              repeats ← check_sequence_repetition (output_token_ids request) params;
              if repeats : bool
              then Some (true, put_stop_reason (Some (StopText "repetition_detected"))
                                 (put_status FINISHED_REPETITION request))
              else Some (false, request)
          end
  | _, _ => None
  end.
End check_stop.

(** ** Repetitions *)
(** The last [p * c] elements are [c] copies of the last [p]. *)
Definition ends_in_copies (l : list Z) (p c : Z) : Prop :=
  ∃ front pattern, l = front ++ concat (replicate (Z.to_nat c) pattern) ∧ zlen pattern = p.

(** What [params] asks for. *)
Definition repeats (params : RepetitionDetectionParams) (l : list Z) : Prop :=
  ∃ p, Z.max 1 (min_pattern_size params) ≤ p ≤ max_pattern_size params
    ∧ 2 ≤ min_count params ∧ ends_in_copies l p (min_count params).

Lemma all_pass_spec {A} (test : A → option bool) (P : A → Prop) l :
  (∀ x, x ∈ l → ∃ b, test x = Some b ∧ (b = true ↔ P x)) →
  ∃ b, all_pass test l = Some b ∧ (b = true ↔ Forall P l).
Proof.
  induction l as [|x l IH]; intros Ht; cbn [all_pass]; [by exists true|].
  destruct (Ht x) as (b & -> & Hb); [by left|]. destruct IH as (b' & Hrun & Hb'); [intros y Hy; apply Ht; by right|].
  cbn [mbind option_bind]. rewrite Hrun.
  exists (b && b'). split; [by destruct b|]. rewrite list.Forall_cons, <-Hb, <-Hb'. apply andb_true_iff.
Qed.

Lemma elem_of_range a b x : x ∈ range a b ↔ a ≤ x < b.
Proof. unfold range. rewrite elem_of_seqZ. lia. Qed.

Lemma from_end_lookup {A} (l : list A) k : 1 ≤ k ≤ zlen l → from_end l k = l !! Z.to_nat (zlen l - k).
Proof. intros Hk. unfold from_end. by rewrite (proj2 (Z.leb_le 1 k)), (proj2 (Z.leb_le k (zlen l))) by lia. Qed.

Lemma from_end_some {A} (l : list A) k : 1 ≤ k ≤ zlen l → is_Some (from_end l k).
Proof. intros Hk. rewrite from_end_lookup by done. apply lookup_lt_is_Some. unfold zlen in *. lia. Qed.

(** Every element of the last copy occurs at its place in the others. *)
Definition periodic (l : list Z) (p c : Z) : Prop :=
  ∀ n m, 1 ≤ n ≤ p → 1 ≤ m < c → from_end l (p * m + n) = from_end l n.

Lemma has_repeating_pattern_spec l p c : 1 ≤ p → 2 ≤ c → p * c ≤ zlen l →
  ∃ b, has_repeating_pattern l p c = Some b ∧ (b = true ↔ periodic l p c).
Proof.
  intros Hp Hc Hl. unfold has_repeating_pattern.
  destruct (all_pass_spec (λ n, t ← from_end l n;
    all_pass (λ m, t' ← from_end l (p * m + n); Some (t' =? t)) (range 1 c))
    (λ n, ∀ m, 1 ≤ m < c → from_end l (p * m + n) = from_end l n) (range 1 (p + 1))) as (b & Hb & Hbb).
  { intros n Hn%elem_of_range. destruct (from_end_some l n) as [t Ht]; [nia|]. rewrite Ht. cbn [mbind option_bind].
    destruct (all_pass_spec (λ m, t' ← from_end l (p * m + n); Some (t' =? t))
      (λ m, from_end l (p * m + n) = Some t) (range 1 c)) as (b & -> & Hb).
    { intros m Hm%elem_of_range. destruct (from_end_some l (p * m + n)) as [t' Ht']; [nia|]. rewrite Ht'.
      eexists. split; [done|]. rewrite Z.eqb_eq. split; [by intros ->|congruence]. }
    exists b. split; [done|]. rewrite Hb, Forall_forall. split.
    - intros Hall m Hm. by apply Hall, elem_of_range.
    - intros Hall m Hm%elem_of_range. by apply Hall. }
  exists b. split; [done|]. rewrite Hbb, Forall_forall. split.
  - intros Hall n m Hn Hm. apply Hall; [apply elem_of_range; lia|done].
  - intros Hper n Hn%elem_of_range m Hm. apply Hper; lia.
Qed.

Lemma from_end_app_r {A} (a b : list A) k : 1 ≤ k ≤ zlen b → from_end (a ++ b) k = from_end b k.
Proof.
  intros Hk. assert (zlen (a ++ b) = zlen a + zlen b) as Hl by (unfold zlen; rewrite length_app; lia).
  assert (0 ≤ zlen a) by (unfold zlen; lia). rewrite !from_end_lookup by lia.
  rewrite lookup_app_r by (unfold zlen in *; lia). f_equal. unfold zlen in *. lia.
Qed.

Lemma from_end_app_l {A} (a b : list A) k :
  zlen b < k ≤ zlen a + zlen b → from_end (a ++ b) k = from_end a (k - zlen b).
Proof.
  intros Hk. assert (zlen (a ++ b) = zlen a + zlen b) as Hl by (unfold zlen; rewrite length_app; lia).
  assert (0 ≤ zlen b) by (unfold zlen; lia). rewrite !from_end_lookup by lia.
  rewrite lookup_app_l by (unfold zlen in *; lia). f_equal. lia.
Qed.

Lemma zlen_copies (pattern : list Z) c : zlen (concat (replicate c pattern)) = zlen pattern * Z.of_nat c.
Proof. induction c as [|c IH]; cbn; [unfold zlen; simpl; lia|]. unfold zlen in *. rewrite length_app. lia. Qed.

Lemma copies_from_end (front pattern : list Z) c m n : (m < c)%nat → 1 ≤ n ≤ zlen pattern →
  from_end (front ++ concat (replicate c pattern)) (zlen pattern * Z.of_nat m + n) = from_end pattern n.
Proof.
  revert front. induction c as [|c IH]; intros front Hm Hn; [lia|]. cbn [replicate concat].
  rewrite (assoc_L (++)). pose proof (zlen_copies pattern c) as Hc. destruct (decide (m = c)) as [->|Hne].
  - rewrite from_end_app_l.
    + rewrite Hc. replace (zlen pattern * Z.of_nat c + n - zlen pattern * Z.of_nat c) with n by lia.
      by apply from_end_app_r.
    + rewrite Hc. unfold zlen in *. rewrite length_app. nia.
  - apply IH; [lia|done].
Qed.

Lemma periodic_copies l p c : 1 ≤ p → (1 ≤ c)%nat → p * Z.of_nat c ≤ zlen l → periodic l p (Z.of_nat c) →
  ∃ front, l = front ++ concat (replicate c (drop (Z.to_nat (zlen l - p)) l)).
Proof.
  intros Hp. set (pattern := drop (Z.to_nat (zlen l - p)) l). induction c as [|c IH]; intros Hc Hl Hper; [lia|].
  assert (p ≤ zlen l) as Hpl by nia.
  assert (zlen pattern = p) as Hpat by (unfold pattern, zlen in *; rewrite length_drop; lia).
  destruct (decide (c = 0%nat)) as [->|Hc0].
  { exists (take (Z.to_nat (zlen l - p)) l). cbn. rewrite app_nil_r. unfold pattern. by rewrite take_drop. }
  destruct IH as [front Hfront]; [lia|lia|intros n m Hn Hm; apply Hper; lia|].
  pose proof (zlen_copies pattern c) as Hlen. set (tail := concat (replicate c pattern)) in *.
  assert (zlen l = zlen front + zlen tail) as Hsplit by (rewrite Hfront at 1; unfold zlen; rewrite length_app; lia).
  exists (take (Z.to_nat (zlen front - p)) front). cbn [replicate concat]. fold tail.
  rewrite (assoc_L (++)). rewrite Hfront at 1. f_equal.
  rewrite <-(take_drop (Z.to_nat (zlen front - p)) front) at 1. f_equal.
  apply list_eq_same_length with (n := Z.to_nat p).
  { unfold zlen in *. lia. }
  { unfold zlen in *. rewrite length_drop. nia. }
  intros i x y Hi Hx Hy.
  assert (from_end l (p * Z.of_nat c + (p - Z.of_nat i)) = Some x) as Hfx.
  { rewrite Hfront, from_end_app_l by (rewrite Hlen, Hpat; nia). rewrite Hlen, Hpat.
    replace (p * Z.of_nat c + (p - Z.of_nat i) - p * Z.of_nat c) with (p - Z.of_nat i) by lia.
    rewrite from_end_lookup by nia. rewrite lookup_drop in Hx. rewrite <-Hx. f_equal. nia. }
  assert (from_end l (p - Z.of_nat i) = Some y) as Hfy.
  { rewrite from_end_lookup by lia. unfold pattern in Hy. rewrite lookup_drop in Hy. rewrite <-Hy. f_equal. lia. }
  rewrite Hper in Hfx by lia. congruence.
Qed.

Lemma ends_in_copies_iff l p c : 1 ≤ p → 2 ≤ c →
  ends_in_copies l p c ↔ p * c ≤ zlen l ∧ periodic l p c.
Proof.
  intros Hp Hc. split.
  - intros (front & pattern & -> & <-). split.
    + unfold zlen at 2. rewrite length_app. pose proof (zlen_copies pattern (Z.to_nat c)) as H. unfold zlen in *. nia.
    + intros n m Hn Hm.
      pose proof (copies_from_end front pattern (Z.to_nat c) (Z.to_nat m) n ltac:(lia) Hn) as H1.
      pose proof (copies_from_end front pattern (Z.to_nat c) 0 n ltac:(lia) Hn) as H2.
      rewrite Z2Nat.id in H1 by lia. rewrite H1, <-H2. f_equal. lia.
  - intros [Hl Hper]. destruct (periodic_copies l p (Z.to_nat c)) as [front Hf]; [done|lia|nia| |].
    + by rewrite Z2Nat.id by lia.
    + exists front, (drop (Z.to_nat (zlen l - p)) l). split; [done|]. unfold zlen in *. rewrite length_drop. nia.
Qed.

Lemma find_pattern_spec l c lens : 2 ≤ c → StronglySorted Z.lt lens → Forall (λ p, 1 ≤ p) lens →
  ∃ b, find_pattern l c lens = Some b ∧ (b = true ↔ ∃ p, p ∈ lens ∧ ends_in_copies l p c).
Proof.
  intros Hc. induction lens as [|p lens IH]; intros Hs Hp; cbn [find_pattern].
  { exists false. split; [done|]. split; [done|]. by intros (p & ?%elem_of_nil & _). }
  apply StronglySorted_inv in Hs as [Hs Hlt]. apply Forall_cons in Hp as [Hp Hps].
  rewrite list.Forall_forall in Hlt. pose proof (proj1 (list.Forall_forall _ _) Hps) as Hps'.
  destruct (Z.ltb_spec (zlen l) (p * c)) as [Hlong|Hfit].
  { exists false. split; [done|]. split; [done|]. intros (q & Hq & Hcop).
    apply ends_in_copies_iff in Hcop as [Hl _]; [|apply elem_of_cons in Hq as [->|Hq]; [done|by apply Hps']|done].
    apply elem_of_cons in Hq as [->|Hq]; [lia|]. specialize (Hlt q Hq). nia. }
  destruct (has_repeating_pattern_spec l p c Hp Hc Hfit) as (b & -> & Hb). cbn [mbind option_bind].
  destruct b.
  - exists true. split; [done|]. split; [|done]. intros _. exists p. split; [by left|].
    apply ends_in_copies_iff; [done..|]. split; [done|by apply Hb].
  - destruct IH as (b & Hrun & Hbb); [done|done|]. exists b. split; [done|]. rewrite Hbb. split.
    + intros (q & Hq & Hcop). exists q. split; [by right|done].
    + intros (q & [->|Hq]%elem_of_cons & Hcop); [|by exists q].
      apply ends_in_copies_iff in Hcop as [_ Hper]; [|done..]. by apply Hb in Hper.
Qed.

Lemma StronglySorted_seqZ a n : StronglySorted Z.lt (seqZ a n).
Proof.
  destruct (Z.le_gt_cases 0 n) as [Hn|Hn]; [|by rewrite seqZ_nil by lia; constructor].
  revert a. apply natlike_ind with (x := n); [intros a; rewrite seqZ_nil by lia; constructor| |done].
  intros m Hm IH a. rewrite seqZ_cons by lia. constructor; [by rewrite Z.pred_succ|].
  apply list.Forall_forall. intros x Hx%elem_of_seqZ. lia.
Qed.

(** The search finds a repetition exactly when there is one, and never reads
    outside the list. *)
Lemma check_sequence_repetition_spec l params :
  ∃ b, check_sequence_repetition l params = Some b ∧ (b = true ↔ repeats params l).
Proof.
  unfold check_sequence_repetition, repeats.
  set (lo := if min_pattern_size params <=? 0 then 1 else min_pattern_size params).
  assert (lo = Z.max 1 (min_pattern_size params)) as -> by (unfold lo; destruct (Z.leb_spec (min_pattern_size params) 0); lia).
  destruct (_ || _) eqn:Hoff.
  { exists false. split; [done|]. split; [done|]. intros (p & Hp & Hc & _).
    rewrite !orb_true_iff, Z.leb_le, !Z.ltb_lt in Hoff. lia. }
  rewrite !orb_false_iff, Z.leb_gt, !Z.ltb_ge in Hoff.
  destruct (find_pattern_spec l (min_count params) (range (Z.max 1 (min_pattern_size params)) (max_pattern_size params + 1)))
    as (b & -> & Hb); [lia|apply StronglySorted_seqZ| |].
  { apply list.Forall_forall. intros x Hx%elem_of_range. lia. }
  exists b. split; [done|]. rewrite Hb. split.
  - intros (p & Hp%elem_of_range & Hcop). exists p. split; [lia|]. split; [lia|done].
  - intros (p & Hp & _ & Hcop). exists p. split; [apply elem_of_range; lia|done].
Qed.

(** ** Stopping *)
Section stop.
Context {F : Type} `{FloatOps F}.
Implicit Types (request : Request F) (sp : SamplingParams).

(** A reason to stop: its condition, the final status, and the stop reason
    recorded with it. *)
Definition StopCause : Type := Prop * RequestStatus * option StopReason.

(** The reasons to stop after the output token [t], the first one first. *)
Definition stop_causes sp request (max_model_len t : Z) : list StopCause :=
  [ (eos_token_id sp = Some t, FINISHED_STOPPED, None);
    (t ∈ default [] (stop_token_ids sp), FINISHED_STOPPED, Some (StopToken t));
    (max_model_len ≤ num_tokens request ∨ max_tokens request ≤ num_output_tokens request,
     FINISHED_LENGTH_CAPPED, None);
    (∃ params, repetition_detection sp = Some params ∧ repeats params (output_token_ids request),
     FINISHED_REPETITION, Some (StopText "repetition_detected")) ].

(** The request stopped for a cause; a stop reason already there stays when
    the cause records none. *)
Definition stopped_for (c : StopCause) request : Request F :=
  let r := put_status c.1.2 request in
  match c.2 with Some reason => put_stop_reason (Some reason) r | None => r end.

(** [c] is the first cause of [cs] that holds. *)
Definition first_cause (cs : list StopCause) (c : StopCause) : Prop :=
  ∃ before after, cs = before ++ c :: after ∧ Forall (λ d, ¬ d.1.1) before ∧ c.1.1.

(** [check_stop] answers according to [cs]. *)
Definition answers (cs : list StopCause) request (b : bool) request' : Prop :=
  (b = false ∧ request' = request ∧ Forall (λ d, ¬ d.1.1) cs)
  ∨ (b = true ∧ ∃ c, first_cause cs c ∧ request' = stopped_for c request).

Lemma answers_first c cs request : c.1.1 → answers (c :: cs) request true (stopped_for c request).
Proof. intros Hc. right. split; [done|]. exists c. split; [|done]. exists [], cs. by repeat split. Qed.

Lemma answers_skip c cs request b request' :
  ¬ c.1.1 → answers cs request b request' → answers (c :: cs) request b request'.
Proof.
  intros Hc [(-> & -> & Hall)|(-> & d & (before & after & -> & Hbefore & Hd) & ->)].
  - left. split; [done|]. split; [done|]. by constructor.
  - right. split; [done|]. exists d. split; [|done]. exists (c :: before), after.
    split; [done|]. split; [by constructor|done].
Qed.

Lemma answers_none request : answers [] request false request.
Proof. left. repeat split. constructor. Qed.

Lemma from_end_last {A} (l : list A) : from_end l 1 = last l.
Proof.
  destruct l as [|x l _] using rev_ind; [done|]. rewrite from_end_app_r by done. by rewrite last_snoc.
Qed.

Lemma repetition_answer sp request :
  let c : StopCause := (∃ params, repetition_detection sp = Some params ∧ repeats params (output_token_ids request),
     FINISHED_REPETITION, Some (StopText "repetition_detected")) in
  ∃ b request', match repetition_detection sp with
    | None => Some (false, request)
    | Some params =>
        repeats ← check_sequence_repetition (output_token_ids request) params;
        if repeats : bool then Some (true, stopped_for c request) else Some (false, request)
    end = Some (b, request') ∧ answers [c] request b request'.
Proof.
  intros c. destruct (repetition_detection sp) as [params|] eqn:Hp.
  - destruct (check_sequence_repetition_spec (output_token_ids request) params) as (b & -> & Hb).
    cbn [mbind option_bind]. destruct b; eexists _, _; (split; [done|]).
    + apply answers_first. exists params. split; [done|by apply Hb].
    + apply answers_skip, answers_none. intros (p & [= <-] & Hr). by apply Hb in Hr.
  - exists false, request. split; [done|]. apply answers_skip, answers_none. by intros (p & Hq & _).
Qed.

Lemma check_stop_outcome request max_model_len sp t :
  pooling_params request = None → sampling_params request = Some sp →
  last (output_token_ids request) = Some t →
  ∃ b request', check_stop request max_model_len = Some (b, request')
    ∧ (num_output_tokens request < min_tokens sp → b = false ∧ request' = request)
    ∧ (min_tokens sp ≤ num_output_tokens request →
         answers (stop_causes sp request max_model_len t) request b request').
Proof.
  intros Hpool Hsp Ht. unfold check_stop. rewrite Hpool, Hsp.
  destruct (Z.ltb_spec (num_output_tokens request) (min_tokens sp)) as [Hmin|Hmin].
  { exists false, request. split; [done|]. split; [done|lia]. }
  rewrite from_end_last, Ht. cbn [mbind option_bind]. unfold stop_causes.
  assert (∀ P b request', P = Some (b, request') → answers (stop_causes sp request max_model_len t) request b request' →
    ∃ b request', P = Some (b, request')
      ∧ (num_output_tokens request < min_tokens sp → b = false ∧ request' = request)
      ∧ (min_tokens sp ≤ num_output_tokens request →
           answers (stop_causes sp request max_model_len t) request b request')) as Hdone.
  { intros P b r' -> Ha. exists b, r'. split; [done|]. split; [lia|done]. }
  case_bool_decide as Heos; [eapply Hdone; [done|by apply (answers_first (_, _, None))]|].
  case_bool_decide as Hstop; [eapply Hdone; [done|]; apply answers_skip; [done|];
    by apply (answers_first (_, _, Some (StopToken t)))|].
  destruct (_ || _) eqn:Hcap; rewrite ?orb_true_iff, ?orb_false_iff, ?Z.leb_le, ?Z.leb_gt in Hcap.
  - eapply Hdone; [done|]. do 2 (apply answers_skip; [done|]). by apply (answers_first (_, _, None)).
  - destruct (repetition_answer sp request) as (b & r' & Hrun & Ha). eapply Hdone; [exact Hrun|].
    do 2 (apply answers_skip; [done|]). apply answers_skip; [cbn; lia|done].
Qed.

(** C32. [check_stop] on a generating request with at least one output
    token never raises. Below [min_tokens] it answers [False] and changes
    nothing; from there on it answers [True] exactly when one of the stop
    causes holds, and then sets the status and stop reason of the first one in
    the order end of sequence, stop token, length cap, repetition, where the
    repetition is declarative: the output ends in [min_count] copies of a
    pattern of an allowed size. No other field of the request changes. *)
Theorem check_stop_exact request max_model_len sp t :
  pooling_params request = None → sampling_params request = Some sp →
  last (output_token_ids request) = Some t →
  ∃ b request', check_stop request max_model_len = Some (b, request')
    ∧ (num_output_tokens request < min_tokens sp → b = false ∧ request' = request)
    ∧ (min_tokens sp ≤ num_output_tokens request →
         answers (stop_causes sp request max_model_len t) request b request').
Proof. apply check_stop_outcome. Qed.
End stop.

Local Open Scope string_scope.
Definition looping : SamplingParams := mkSamplingParams (Some 100) 2 (Some 0) None (Some (mkRepetition 3 1 2)) None false.

Definition looping_request : option (Request Q) :=
  put_output_token_ids [4; 7; 8; 7; 8] <$>
    request_init None "r" (Some [1; 2]) (Some looping) None 0%Q None [] None None 0.

(** The output [4 7 8 7 8] ends in two copies of a pattern. *)
Lemma check_stop_exact_witness :
  ∃ request request', looping_request = Some request
    ∧ check_stop request 50 = Some (true, request')
    ∧ answers (stop_causes looping request 50 8) request true request'.
Proof.
  destruct looping_request as [r|] eqn:E; [|by vm_compute in E].
  assert (pooling_params r = None ∧ sampling_params r = Some looping ∧ last (output_token_ids r) = Some 8
    ∧ num_output_tokens r = 5 ∧ fst <$> check_stop r 50 = Some true) as (Hp & Hs & Ht & Hn & Hb)
    by (by injection E as <-).
  destruct (check_stop_exact r 50 looping 8 Hp Hs Ht) as (b & r' & Hrun & _ & Ha).
  rewrite Hrun in Hb. injection Hb as ->. exists r, r'. split; [done|]. split; [done|].
  apply Ha. by rewrite Hn.
Defined.
