(* ===== verification/OffloadPolicy.v ===== *)
(** * The preservation policy ([vllm/tokencake/offload_policy.py])

    The gates and the score that decide whether the snapshot of a stalled
    request is worth a place in CPU memory. *)
From Stdlib Require Import QArith Qminmax Lqa.
From S2P Require Import Prelude PyFloat Metrics Protocol Config.
Local Open Scope Z_scope.

Section policy.
Context {F : Type} `{FloatOps F}.

Record Pressure := mkPressure {
  usage : F;
  free : Z;
  waiting_count : Z;
  waiting_demand : Z;
  critical_demand : Z;
  shared_available : Z;
  fit_demand : Z
}.

(** [Pressure.signature] *)
Definition signature (p : Pressure) : list Z :=
  [free p; waiting_count p; waiting_demand p; critical_demand p; shared_available p; fit_demand p].

Record Benefit := mkBenefit { reason : Metric; benefit_score : F }.

(** [evaluate_benefit] *)
Definition evaluate_benefit (settings : OffloadConfig F) (metadata : TokenCakeMetadata F)
    (pressure : Pressure) (blocks cpu_available cpu_needed : Z)
    (duration transfer_time agent_score churn_penalty : F) : Benefit :=
  (let importance := py_min (f_of_Z 10)
     (py_max (importance metadata) (py_min (f_of_Z 10) (agent_score / f_of_Z 2))) in
   let near_completion :=
     near_completion metadata || ((0 <? application_max_depth metadata)%Z && (remaining_depth metadata <=? 1)%Z) in
   let margin := duration - transfer_time in
   let pressure_score :=
     py_max (f_of_Z 0) ((usage pressure - min_gpu_usage settings) * f_of_Z 6)
     + py_min (f_of_Z 2) (int_truediv (waiting_demand pressure) (Z.max 1 (blocks + 1))) in
   let fit_score := py_min (f_of_Z 2) (int_truediv (fit_demand pressure) (Z.max 1 blocks)) in
   let stall_score := py_min (f_of_Z 6) (margin / py_max (f_lit 25 100) transfer_time) in
   let upload_safety := if f_of_Z 2 * transfer_time <=? duration then f_of_Z 1 else f_of_Z (-1) in
   let cpu_score := if (cpu_needed <=? cpu_available)%Z then f_of_Z 1 else f_of_Z (-4) in
   let score :=
     stall_score + pressure_score + fit_score + upload_safety + cpu_score
     - f_lit 35 100 * importance
     - (if near_completion then f_of_Z 2 else f_of_Z 0)
     - churn_penalty in
   let emergency :=
     (high_pressure_gpu_usage settings <=? usage pressure)
     && (py_max (f_of_Z 4 * transfer_time) (f_of_Z 5) <=? margin)
     && (0 <? waiting_count pressure)%Z in
   let low_pressure := usage pressure <? min_gpu_usage settings in
   let no_queue_pressure :=
     (waiting_demand pressure <=? free pressure)%Z
     && (critical_demand pressure <=? shared_available pressure)%Z in
   let reason :=
     if negb (offload_eligible metadata) || negb (reusable_prefix metadata) then NOT_ELIGIBLE
     else if (blocks <=? 0)%Z then EMPTY
     else if (fit_demand pressure <=? 0)%Z then NO_WAITING_DEMAND
     else if (cpu_available <? cpu_needed)%Z then CPU_CAPACITY
     else if (duration <=? transfer_time)
             || ((margin <? py_max (f_lit 5 100) (f_of_Z 2 * transfer_time)) && negb emergency)
     then UNPROFITABLE
     else if low_pressure
             && (no_queue_pressure || (fit_demand pressure <? blocks)%Z
                 || (waiting_count pressure =? 0)%Z)
     then LOW_PRESSURE
     else if ((f_of_Z 8 <=? importance) && negb emergency
              && (near_completion
                  || (margin <? py_max (f_lit 1 2) (f_of_Z 8 * transfer_time))
                  || (upload_safety <? f_of_Z 0)))
             || ((score <? score_threshold settings) && negb emergency)
     then UNPROFITABLE
     else SELECTED in
   mkBenefit reason score)%F.
End policy.
Arguments Pressure : clear implicits.
Arguments Benefit : clear implicits.

(** ** The decision in exact arithmetic *)
Section decision.
Local Open Scope Q_scope.
Context (settings : OffloadConfig Q) (metadata : TokenCakeMetadata Q) (p : Pressure Q).
Context (blocks cpu_available cpu_needed : Z) (duration transfer agent churn : Q).

(** The importance of the request, from the metadata or the score of its
    agent, at most 10. *)
Definition weight : Q := Qmin 10 (Qmax (importance metadata) (Qmin 10 (agent / 2))).

Definition closing : Prop :=
  near_completion metadata = true ∨ (0 < application_max_depth metadata ∧ remaining_depth metadata ≤ 1)%Z.

#[local] Instance closing_dec : Decision closing.
Proof. unfold closing. apply _. Defined.

(** What a preservation is worth once it fits into the CPU memory and the
    stall. *)
Definition utility : Q :=
  Qmin 6 ((duration - transfer) / Qmax (1#4) transfer)
  + Qmax 0 ((usage p - min_gpu_usage settings) * 6)
  + Qmin 2 (inject_Z (waiting_demand p) / inject_Z (Z.max 1 (blocks + 1)))
  + Qmin 2 (inject_Z (fit_demand p) / inject_Z (Z.max 1 blocks))
  + 2 - (35#100) * weight - (if bool_decide closing then 2 else 0) - churn.

(** The stall outlasts the transfers by [k] times their duration and by [slack]. *)
Definition outlasts (slack k : Q) : Prop := Qmax slack (k * transfer) <= duration - transfer.

Definition urgent : Prop :=
  high_pressure_gpu_usage settings <= usage p ∧ outlasts 5 4 ∧ (0 < waiting_count p)%Z.

(** The GPU is busy, or requests wait for more than it has free and the
    snapshot makes no more room than they can use. *)
Definition wanted : Prop :=
  min_gpu_usage settings <= usage p
  ∨ ((free p < waiting_demand p ∨ shared_available p < critical_demand p)
     ∧ blocks ≤ fit_demand p ∧ waiting_count p ≠ 0)%Z.

Notation benefit := (evaluate_benefit settings metadata p blocks cpu_available cpu_needed
  duration transfer agent churn).

Lemma Qleb_le (a b : Q) : fleb a b = true ↔ a <= b.
Proof. apply Qle_bool_iff. Qed.

Lemma Qltb_ge (a b : Q) : fltb a b = false ↔ b <= a.
Proof. cbn [fltb Q_ops]. rewrite negb_false_iff. apply Qle_bool_iff. Qed.

Lemma lit_25 : f_lit 25 100 == 1#4. Proof. done. Qed.

Lemma outlasts_false (a b : Q) slack k : a == slack → b == k →
  fltb (fsub duration transfer) (py_max a (fmul b transfer)) = false ↔ outlasts slack k.
Proof.
  intros Ha Hb. rewrite Qltb_ge. unfold outlasts. rewrite py_max_Qmax. cbn [fmul fsub Q_ops].
  by rewrite Ha, Hb.
Qed.

Lemma closing_bool :
  near_completion metadata || ((0 <? application_max_depth metadata)%Z && (remaining_depth metadata <=? 1)%Z)
  = bool_decide closing.
Proof.
  apply eq_true_iff_eq. rewrite bool_decide_eq_true. unfold closing.
  by rewrite orb_true_iff, andb_true_iff, Z.ltb_lt, Z.leb_le.
Qed.

Lemma evaluate_score : benefit_score benefit == 
  utility - (if (cpu_needed <=? cpu_available)%Z then 0 else 5)
    - (if fleb (fmul (f_of_Z 2) transfer) duration then 0 else 2).
Proof.
  cbn [benefit_score evaluate_benefit]. unfold utility, weight. rewrite closing_bool.
  cbn [fadd fsub fmul fdiv f_of_Z int_truediv Q_ops]. rewrite !py_min_Q, !py_max_Qmax, !py_min_Q, lit_25.
  change (inject_Z 0) with 0. change (inject_Z 6) with 6. change (inject_Z 2) with 2. change (inject_Z 10) with 10.
  assert (f_lit 35 100 == 35#100) as -> by done.
  destruct (cpu_needed <=? cpu_available)%Z, (fleb _ duration), (bool_decide closing);
    change (inject_Z 1) with 1; change (inject_Z (-1)) with (-1#1); change (inject_Z (-4)) with (-4#1); ring.
Qed.

Lemma urgent_bool :
  fleb (high_pressure_gpu_usage settings) (usage p)
  && fleb (py_max (fmul (f_of_Z 4) transfer) (f_of_Z 5)) (fsub duration transfer)
  && (0 <? waiting_count p)%Z = true ↔ urgent.
Proof.
  rewrite !andb_true_iff, !Qleb_le, Z.ltb_lt, py_max_Qmax. unfold urgent, outlasts.
  cbn [fmul fsub f_of_Z Q_ops]. rewrite Q.max_comm. tauto.
Qed.

(** The exemptions of urgent stores from the first duration test and of the
    transfer test of important ones decide nothing: both follow. *)
Lemma outlasts_mono slack slack' k k' : 0 <= transfer → slack' <= slack → k' <= k →
  outlasts slack k → outlasts slack' k'.
Proof.
  intros Ht Hs Hk. unfold outlasts. intros H.
  pose proof (Q.le_max_l slack (k * transfer)). pose proof (Q.le_max_r slack (k * transfer)).
  apply Q.max_lub; [lra|]. assert (k' * transfer <= k * transfer) by nra. lra.
Qed.

Lemma outlasts_positive slack k : 0 < slack → outlasts slack k → fleb duration transfer = false.
Proof.
  intros Hs. unfold outlasts. intros H. pose proof (Q.le_max_l slack (k * transfer)).
  apply not_true_iff_false. rewrite Qleb_le. lra.
Qed.

Lemma pass_gate (b : bool) (m r : Metric) : m ≠ SELECTED → (if b then m else r) = SELECTED ↔ b = false ∧ r = SELECTED.
Proof. destruct b; naive_solver. Qed.

(** The two duration tests of the code together. *)
Lemma duration_gate : 0 <= transfer →
  fleb duration transfer
  || (fltb (fsub duration transfer) (py_max (f_lit 5 100) (fmul (f_of_Z 2) transfer))
      && negb (fleb (high_pressure_gpu_usage settings) (usage p)
        && fleb (py_max (fmul (f_of_Z 4) transfer) (f_of_Z 5)) (fsub duration transfer)
        && (0 <? waiting_count p)%Z)) = false ↔ outlasts (1#20) 2.
Proof.
  intros Ht. rewrite orb_false_iff, andb_false_iff, negb_false_iff, urgent_bool.
  rewrite (outlasts_false (f_lit 5 100) (f_of_Z 2) (1#20) 2) by done. split.
  - intros [_ [Hd|(_ & Hu & _)]]; [done|]. by apply (outlasts_mono 5 _ 4).
  - intros Hd. split; [by apply (outlasts_positive (1#20) 2)|by left].
Qed.

Lemma pressure_gate :
  fltb (usage p) (min_gpu_usage settings)
  && ((waiting_demand p <=? free p)%Z && (critical_demand p <=? shared_available p)%Z
      || (fit_demand p <? blocks)%Z || (waiting_count p =? 0)%Z) = false ↔ wanted.
Proof.
  unfold wanted. rewrite andb_false_iff, Qltb_ge, !orb_false_iff, andb_false_iff, !Z.leb_gt, Z.ltb_ge, Z.eqb_neq. tauto.
Qed.

Lemma value_gate (near : bool) (w s upload : Q) (emergency : bool) : near = bool_decide closing →
  w == weight → s == utility → upload = 1 →
  (fleb (f_of_Z 8) w && negb emergency
   && (near || fltb (fsub duration transfer) (py_max (f_lit 1 2) (fmul (f_of_Z 8) transfer)) || fltb upload (f_of_Z 0)))
  || (fltb s (score_threshold settings) && negb emergency) = false
  ↔ emergency = true ∨ (score_threshold settings <= utility ∧ (8 <= weight → ¬ closing ∧ outlasts (1#2) 8)).
Proof.
  intros -> Hw Hs ->. rewrite orb_false_iff, !andb_false_iff, !orb_false_iff, negb_false_iff.
  rewrite (outlasts_false (f_lit 1 2) (f_of_Z 8) (1#2) 8) by done.
  rewrite (Qltb_ge s), Hs, bool_decide_eq_false, <-not_true_iff_false, Qleb_le, Hw.
  change (f_of_Z 8) with 8. change (fltb 1 (f_of_Z 0)) with false.
  destruct (Qlt_le_dec weight 8); [|destruct emergency; tauto].
  assert (¬ 8 <= weight) by lra. destruct emergency; tauto.
Qed.

Lemma enough_upload : 0 <= transfer → outlasts (1#20) 2 → fleb (fmul (f_of_Z 2) transfer) duration = true.
Proof.
  intros Ht Hd. apply Qleb_le. unfold outlasts in Hd. pose proof (Q.le_max_r (1#20) (2 * transfer)).
  cbn [fmul f_of_Z Q_ops]. change (inject_Z 2) with 2. lra.
Qed.

Lemma weight_code :
  py_min (f_of_Z 10) (py_max (importance metadata) (py_min (f_of_Z 10) (fdiv agent (f_of_Z 2)))) == weight.
Proof. unfold weight. rewrite py_min_Q, py_max_Qmax, py_min_Q. done. Qed.

Lemma selected_outcome : 0 <= transfer →
  reason benefit = SELECTED ↔
  offload_eligible metadata = true ∧ reusable_prefix metadata = true
  ∧ (0 < blocks)%Z ∧ (0 < fit_demand p)%Z ∧ (cpu_needed ≤ cpu_available)%Z
  ∧ outlasts (1#20) 2 ∧ wanted
  ∧ (urgent ∨ (score_threshold settings <= utility ∧ (8 <= weight → ¬ closing ∧ outlasts (1#2) 8))).
Proof.
  intros Ht. pose proof evaluate_score as Hscore. unfold evaluate_benefit in *. cbn [reason benefit_score] in *.
  rewrite !pass_gate by done. rewrite duration_gate, pressure_gate by done.
  rewrite orb_false_iff, !negb_false_iff, !Z.leb_gt, Z.ltb_ge.
  split.
  - intros ((He & Hr) & Hb & Hf & Hc & Hd & Hw & Hv & _). repeat (split; [done|]).
    rewrite (proj2 (Z.leb_le _ _) Hc), enough_upload in Hv, Hscore by done.
    apply (value_gate _ _ _ _ _ closing_bool weight_code) in Hv; [|rewrite Hscore; ring|done].
    by rewrite urgent_bool in Hv.
  - intros (He & Hr & Hb & Hf & Hc & Hd & Hw & Hv). repeat (split; [done|]). split; [|done].
    rewrite (proj2 (Z.leb_le _ _) Hc), enough_upload in Hscore |- * by done.
    apply (value_gate _ _ _ _ _ closing_bool weight_code); [rewrite Hscore; ring|done|].
    by rewrite urgent_bool.
Qed.

(** A snapshot is selected for preservation exactly when the
    request allows it, it holds blocks the waiting requests can use, the CPU
    has room, the stall outlasts the transfers by twice their duration and by
    50 ms, the GPU is under pressure, and the preservation is urgent or worth
    its threshold, an important request being taken only when it is not closing
    and the stall outlasts the transfers eightfold.  So no urgency ever excuses
    a stall too short for the transfers. *)
Theorem benefit_selected_iff : 0 <= transfer →
  reason benefit = SELECTED ↔
  offload_eligible metadata = true ∧ reusable_prefix metadata = true
  ∧ (0 < blocks)%Z ∧ (0 < fit_demand p)%Z ∧ (cpu_needed ≤ cpu_available)%Z
  ∧ outlasts (1#20) 2 ∧ wanted
  ∧ (urgent ∨ (score_threshold settings <= utility ∧ (8 <= weight → ¬ closing ∧ outlasts (1#2) 8))).
Proof. apply selected_outcome. Qed.
End decision.

(** A busy GPU, a queue, a three-second stall and a 0.1 s transfer. *)
Definition demo_pressure : Pressure Q := mkPressure (9#10) 4 3 40 0 4 16.
Definition demo_stalled : TokenCakeMetadata Q :=
  mkMetadata "tc" "coder" "coder-1" 4%Q 2 1 1 0%Q 0%Q 0%Q 0%Q 5 3 false false "" 0 1 1%Q true true.

Lemma benefit_selected_iff_witness :
  reason (evaluate_benefit default_offload demo_stalled demo_pressure 8 100 8 3%Q (1#10)%Q 0%Q 0%Q) = SELECTED
  ∧ outlasts 3 (1#10) (1#20) 2.
Proof.
  assert (reason (evaluate_benefit default_offload demo_stalled demo_pressure 8 100 8 3%Q (1#10)%Q 0%Q 0%Q) = SELECTED)
    as Hs by (by vm_compute).
  split; [exact Hs|]. apply benefit_selected_iff in Hs; [|by vm_compute]. apply Hs.
Defined.
