(* ===== verification/NativeOffload.v ===== *)
(** * The offloading connector, scheduler side
    ([vllm/distributed/kv_transfer/kv_connector/v1/offloading/scheduler.py])

    Looking up how much of a request is in CPU memory, loading it, storing the
    blocks a step completes, and the bookkeeping of the transfer jobs the
    workers report on.  The [Request] objects are shared with the scheduler,
    which mutates them between calls: every operation that reads them takes
    the store of live requests as an argument. *)
From S2P Require Import Prelude PyFloat CachePolicy CPUManager BlockPool Request KVCache.
Local Open Scope Z_scope.

Module Offloading.
(** ** Configuration *)
Record GroupOffloadConfig := mkGroup {
  group_idx : Z;
  gpu_block_size : Z;
  offloaded_block_size : Z;
  hash_block_size_factor : Z;
  sliding_window_size_in_blocks : option Z;
  alignment_block_count : option Z
}.

(** The attention kinds the connector tells apart; any other fails its
    assertion. *)
Inductive KVCacheSpec := FullAttentionSpec | SlidingWindowSpec (sliding_window : Z) | MambaSpec | OtherSpec.

(** [get_sliding_window_size_in_blocks]; the outer [None] is the assertion. *)
Definition get_sliding_window_size_in_blocks (kv_cache_spec : KVCacheSpec) (offloaded_block_size : Z) :
    option (option Z) :=
  match kv_cache_spec with
  | SlidingWindowSpec w => if 0 <? w then Some (Some (cdiv w offloaded_block_size)) else None
  | MambaSpec => Some (Some 1)
  | FullAttentionSpec => Some None
  | OtherSpec => None
  end.

Record SchedulerOffloadConfig := mkConfig {
  kv_group_configs : list GroupOffloadConfig;
  block_size_factor : Z;
  num_workers : Z
}.

(** [_alignment_block_count] of [from_spec] *)
Definition alignment_count (alignment_tokens : option Z) (offloaded_block_size : Z) (window : option Z) :
    option Z :=
  match alignment_tokens, window with
  | Some alignment_tokens, Some w =>
      if alignment_tokens <=? offloaded_block_size then None
      else
        let per_segment := alignment_tokens / offloaded_block_size in
        if per_segment <=? w then None else Some per_segment
  | _, _ => None
  end.

(** [SchedulerOffloadConfig.from_spec]: the groups with their GPU block sizes. *)
Definition from_spec (groups : list (KVCacheSpec * Z)) (block_size_factor hash_block_size world_size : Z) :
    option SchedulerOffloadConfig :=
  windows ← mapM (λ '(spec, size), get_sliding_window_size_in_blocks spec (size * block_size_factor)) groups;
  let full_attn_offloaded_block_sizes : gset Z :=
    list_to_set ((λ '(_, size, _), size * block_size_factor)
                 <$> filter (λ '(_, _, sw), sw = None) (zip groups windows)) in
  let alignment_tokens :=
    match elements full_attn_offloaded_block_sizes with [n] => Some n | _ => None end in
  Some {|
    kv_group_configs :=
      imap (λ idx '(_, size, sw),
        {| group_idx := Z.of_nat idx; gpu_block_size := size;
           offloaded_block_size := size * block_size_factor;
           hash_block_size_factor := (size * block_size_factor) / hash_block_size;
           sliding_window_size_in_blocks := sw;
           alignment_block_count := alignment_count alignment_tokens (size * block_size_factor) sw |})
        (zip groups windows);
    block_size_factor := block_size_factor;
    num_workers := world_size |}.

(** ** Transfer jobs *)
Record TransferJobStatus := mkJob {
  req_id : string;
  pending_count : Z;
  keys : gset OffloadKey;
  is_store : bool;
  non_sliding_window_block_ids : option (list nat);
  sliding_window_block_ids : option (list nat)
}.

Definition put_pending_count (n : Z) (j : TransferJobStatus) : TransferJobStatus :=
  mkJob (req_id j) n (keys j) (is_store j) (non_sliding_window_block_ids j) (sliding_window_block_ids j).

(** [GPULoadStoreSpec] and [TransferJob]; the CPU side is the list of slots. *)
Record GPULoadStoreSpec := mkGPUSpec {
  spec_block_ids : list nat;
  group_sizes : list Z;
  block_indices : list Z
}.
Record TransferJob := mkTransferJob { tj_req_id : string; gpu_spec : GPULoadStoreSpec; cpu_blocks : list Z }.

(** ** Per-request state *)
Record RequestGroupState := mkGroupState {
  offload_keys : list OffloadKey;
  block_ids : list nat;
  next_stored_block_idx : Z;
  num_hit_blocks : Z
}.
Definition put_keys (v : list OffloadKey) (g : RequestGroupState) : RequestGroupState :=
  mkGroupState v (block_ids g) (next_stored_block_idx g) (num_hit_blocks g).
Definition put_block_ids (v : list nat) (g : RequestGroupState) : RequestGroupState :=
  mkGroupState (offload_keys g) v (next_stored_block_idx g) (num_hit_blocks g).
Definition put_next_stored (v : Z) (g : RequestGroupState) : RequestGroupState :=
  mkGroupState (offload_keys g) (block_ids g) v (num_hit_blocks g).
Definition put_num_hit (v : Z) (g : RequestGroupState) : RequestGroupState :=
  mkGroupState (offload_keys g) (block_ids g) (next_stored_block_idx g) v.

(** [req] and [req_context] are found through the request id. *)
Record RequestOffloadState := mkRequestState {
  group_states : list RequestGroupState;
  num_locally_computed_tokens : Z;
  transfer_jobs : gset Z
}.
Definition put_groups (v : list RequestGroupState) (r : RequestOffloadState) : RequestOffloadState :=
  mkRequestState v (num_locally_computed_tokens r) (transfer_jobs r).
Definition put_local (v : Z) (r : RequestOffloadState) : RequestOffloadState :=
  mkRequestState (group_states r) v (transfer_jobs r).
Definition put_transfer_jobs (v : gset Z) (r : RequestOffloadState) : RequestOffloadState :=
  mkRequestState (group_states r) (num_locally_computed_tokens r) v.

(** [RequestOffloadState(config, req)] *)
Definition new_request_state (config : SchedulerOffloadConfig) : RequestOffloadState :=
  mkRequestState ((λ _, mkGroupState [] [] 0 0) <$> kv_group_configs config) 0 ∅.

(** [islice(l, start, None, step)]; a start beyond the end gives nothing. *)
Fixpoint stride {A} (fuel : nat) (step : Z) (l : list A) : list A :=
  match fuel, l with
  | S fuel, x :: _ => x :: stride fuel step (drop (Z.to_nat step) l)
  | _, _ => []
  end.
Definition islice {A} (start step : Z) (l : list A) : list A :=
  let l := drop (Z.to_nat start) l in stride (length l) step l.

(** [update_offload_keys]; [None] is the [OverflowError] of a group index, or
    the [ValueError] of a step below one. *)
Definition new_offload_keys (block_hashes : list (list Z)) (c : GroupOffloadConfig) (g : RequestGroupState) :
    option RequestGroupState :=
  let f := hash_block_size_factor c in
  if f <? 1 then None
  else
    new ← mapM (λ h, make_offload_key h (group_idx c)) (islice (f * zlen (offload_keys g) + f - 1) f block_hashes);
    Some (put_keys (offload_keys g ++ new) g).
Definition update_offload_keys (config : SchedulerOffloadConfig) (block_hashes : list (list Z))
    (r : RequestOffloadState) : option RequestOffloadState :=
  (λ gs, put_groups gs r) <$>
    mapM (λ '(c, g), new_offload_keys block_hashes c g) (zip (kv_group_configs config) (group_states r)).

(** [update_block_id_groups]; [None] is the assertion. *)
Definition update_block_id_groups (new_block_id_groups : option (list (list nat))) (r : RequestOffloadState) :
    option RequestOffloadState :=
  match new_block_id_groups with
  | None => Some r
  | Some groups =>
      if (length groups =? length (group_states r))%nat
      then Some (put_groups (zip_with (λ g new, put_block_ids (block_ids g ++ new) g) (group_states r) groups) r)
      else None
  end.

(** [advance_stored_idx] *)
Definition advance_stored_idx (config : SchedulerOffloadConfig) (num_offloadable_tokens : Z)
    (r : RequestOffloadState) : RequestOffloadState :=
  put_groups (zip_with (λ c g, put_next_stored (num_offloadable_tokens / offloaded_block_size c) g)
                (kv_group_configs config) (group_states r)) r.

(** [update_num_hit_blocks] *)
Definition update_num_hit_blocks (config : SchedulerOffloadConfig) (num_cached_tokens : Z)
    (r : RequestOffloadState) : RequestOffloadState :=
  put_groups (zip_with (λ c g, put_num_hit (num_cached_tokens / offloaded_block_size c) g)
                (kv_group_configs config) (group_states r)) r.

(** [l[a:b]] with non-negative bounds, and [l[-n:]]. *)
Definition slice {A} (a b : Z) (l : list A) : list A := take (Z.to_nat (b - a)) (drop (Z.to_nat a) l).
Definition last_n {A} (n : Z) (l : list A) : list A :=
  if n =? 0 then l else drop (Z.to_nat (zlen l - n)) l.

(** ** Looking up offloaded blocks

    [query] is the [lookup] argument: the manager's own [lookup], or a probe
    without side effects. *)
Section Lookup.
Context {T : Type} (query : OffloadKey → M T (option bool)).

(** [_maximal_prefix_lookup] *)
Fixpoint prefix_loop (keys : list OffloadKey) (hit_count : Z) (defer_lookup : bool) : M T (option Z) :=
  let done := mret (if defer_lookup then None else Some hit_count) in
  match keys with
  | [] => done
  | key :: keys' =>
      result ← query key;
      match result with
      | None => prefix_loop keys' (hit_count + 1) true
      | Some true => prefix_loop keys' (hit_count + 1) defer_lookup
      | Some false => done
      end
  end.
Definition maximal_prefix_lookup (keys : list OffloadKey) : M T (option Z) := prefix_loop keys 0 false.

(** [_sliding_window_lookup]; the loop takes the keys from the last one, and
    [length keys'] is its index. *)
Fixpoint window_loop (sliding_window_size : Z) (rev_keys : list OffloadKey) (consecutive_hits : Z)
    (defer_lookup : bool) : M T (option Z) :=
  match rev_keys with
  | [] => mret (if defer_lookup then None else Some consecutive_hits)
  | key :: keys' =>
      result ← query key;
      let defer_lookup := defer_lookup || bool_decide (result = None) in
      if default false result then
        let consecutive_hits := consecutive_hits + 1 in
        if consecutive_hits =? sliding_window_size
        then mret (if defer_lookup then None else Some (zlen keys' + sliding_window_size))
        else window_loop sliding_window_size keys' consecutive_hits defer_lookup
      else window_loop sliding_window_size keys' 0 defer_lookup
  end.
Definition sliding_window_lookup (keys : list OffloadKey) (sliding_window_size : Z) : M T (option Z) :=
  window_loop sliding_window_size (reverse keys) 0 false.

(** The local variables of [_lookup]; [again] is [lookup_groups]. *)
Record Search := mkSearch {
  max_hit_size_tokens : Z;
  num_hit_tokens : Z;
  deferred : bool;
  again : list nat
}.

Context (config : SchedulerOffloadConfig) (lookup_groups sliding_window_groups : list nat).
Context (num_tokens num_computed_tokens : Z) (states : list RequestGroupState).

(** The lookup of one group within the bound [max_hit]. *)
Definition lookup_group (c : GroupOffloadConfig) (g : RequestGroupState) (max_hit : Z) : M T (option Z) :=
  let size := offloaded_block_size c in
  let num_blocks := Z.min (cdiv max_hit size) (zlen (offload_keys g)) in
  let start_block_idx := num_computed_tokens / size in
  let keys := slice start_block_idx num_blocks (offload_keys g) in
  match sliding_window_size_in_blocks c with
  | None => maximal_prefix_lookup keys
  | Some w => sliding_window_lookup keys w
  end.

(** The end of an iteration of the [for] loop: when the bound has shrunk the
    groups already looked up may have to be looked up again. *)
Definition after_group (looked_up_sliding_window : bool) (max_hit : Z) (defer : bool) (s : Search) : Search :=
  let new_num_hit := max_hit - num_computed_tokens in
  if new_num_hit <? num_hit_tokens s then
    if defer then mkSearch max_hit new_num_hit false lookup_groups
    else if looked_up_sliding_window && bool_decide (again s = [])
    then mkSearch max_hit new_num_hit defer sliding_window_groups
    else mkSearch max_hit new_num_hit defer (again s)
  else mkSearch max_hit new_num_hit defer (again s).

(** One run of the [for] loop; [None] is [return 0]. *)
Fixpoint lookup_pass (groups : list nat) (looked_up_sliding_window : bool) (s : Search) :
    M T (option Search) :=
  match groups with
  | [] => mret (Some s)
  | i :: groups' =>
      match kv_group_configs config !! i, states !! i with
      | Some c, Some g =>
          let size := offloaded_block_size c in
          assertM (num_tokens / size <=? zlen (offload_keys g)) ;;
          let max_hit := Z.min (max_hit_size_tokens s) (zlen (offload_keys g) * size) in
          if max_hit - num_computed_tokens <? size then mret None
          else
            hits ← lookup_group c g max_hit;
            if bool_decide (hits = Some 0) then mret None
            else
              let defer := match hits with None => true | Some _ => deferred s end in
              let max_hit := match hits with
                             | None => max_hit
                             | Some n => Z.min max_hit (size * (num_computed_tokens / size + n))
                             end in
              if max_hit - num_computed_tokens <? size then mret None
              else
                let is_window := negb (bool_decide (sliding_window_size_in_blocks c = None)) in
                let s' := after_group looked_up_sliding_window max_hit defer s in
                lookup_pass groups' (looked_up_sliding_window || is_window) s'
      | _, _ => raise IndexError
      end
  end.

(** The [while] loop.  Another run follows only when the bound has shrunk, so
    the number of tokens bounds the runs. *)
Fixpoint lookup_loop (fuel : nat) (s : Search) : M T (option Search) :=
  match again s, fuel with
  | [], _ => mret (Some s)
  | _, O => raise RuntimeError
  | groups, S fuel =>
      o ← lookup_pass groups false (mkSearch (max_hit_size_tokens s) (num_hit_tokens s) (deferred s) []);
      match o with None => mret None | Some s => lookup_loop fuel s end
  end.

(** Whether one of the hit blocks is being loaded for another request. *)
Definition loading_hits (blocks_being_loaded : gset OffloadKey) (num_hit_tokens : Z) : bool :=
  existsb (λ '(c, g),
    let size := offloaded_block_size c in
    let num_blocks := cdiv (num_computed_tokens + num_hit_tokens) size in
    let start_block_idx := num_computed_tokens / size in
    let keys := slice start_block_idx num_blocks (offload_keys g) in
    let keys := match sliding_window_size_in_blocks c with Some w => last_n w keys | None => keys end in
    existsb (λ key, bool_decide (key ∈ blocks_being_loaded)) keys)
    (zip (kv_group_configs config) states).

(** [_lookup] *)
Definition lookup (blocks_being_loaded : option (gset OffloadKey)) : M T (option Z) :=
  let max_hit := if bool_decide (sliding_window_groups = []) then num_tokens else num_tokens - 1 in
  o ← lookup_loop (S (Z.to_nat num_tokens)) (mkSearch max_hit 0 false lookup_groups);
  match o with
  | None => mret (Some 0)
  | Some s =>
      if deferred s then mret None
      else
        match blocks_being_loaded with
        | Some loading =>
            if negb (bool_decide (loading = ∅)) && loading_hits loading (num_hit_tokens s)
            then mret None else mret (Some (num_hit_tokens s))
        | None => mret (Some (num_hit_tokens s))
        end
  end.
End Lookup.

(** Loops that carry a value: [foldM] an accumulator, [mapS] the list of
    results. *)
Fixpoint foldM {S A B} (body : B → A → M S B) (acc : B) (l : list A) : M S B :=
  match l with
  | [] => mret acc
  | x :: l' => acc ← body acc x; foldM body acc l'
  end.
Fixpoint mapS {S A B} (body : A → M S B) (l : list A) : M S (list B) :=
  match l with
  | [] => mret []
  | x :: l' => y ← body x; ys ← mapS body l'; mret (y :: ys)
  end.

(** ** The connector *)
Section Scheduler.
Context {F P : Type} `{FloatOps F} `{CachePolicy P}.

Record OffloadingConnectorScheduler := mkScheduler {
  config : SchedulerOffloadConfig;
  manager : CPUOffloadingManager P;
  sliding_window_groups : list nat;
  lookup_groups : list nat;
  req_status : odict string RequestOffloadState;
  current_batch_load_jobs : odict Z TransferJob;
  current_batch_jobs_to_flush : gset Z;
  blocks_being_loaded : option (gset OffloadKey);
  job_counter : Z;
  stale_job_threshold : Z;
  jobs : odict Z TransferJobStatus;
  block_id_to_pending_jobs : gmap nat (gset Z)
}.

Definition scheduler_eta (s : OffloadingConnectorScheduler) : OffloadingConnectorScheduler :=
  {| config := config s; manager := manager s; sliding_window_groups := sliding_window_groups s;
     lookup_groups := lookup_groups s; req_status := req_status s;
     current_batch_load_jobs := current_batch_load_jobs s;
     current_batch_jobs_to_flush := current_batch_jobs_to_flush s;
     blocks_being_loaded := blocks_being_loaded s; job_counter := job_counter s;
     stale_job_threshold := stale_job_threshold s; jobs := jobs s;
     block_id_to_pending_jobs := block_id_to_pending_jobs s |}.

Definition put_manager (v : CPUOffloadingManager P) (s : OffloadingConnectorScheduler) : OffloadingConnectorScheduler :=
  ltac:(update_field scheduler_eta (manager s) v s).
Definition put_req_status (v : odict string RequestOffloadState) (s : OffloadingConnectorScheduler) : OffloadingConnectorScheduler :=
  ltac:(update_field scheduler_eta (req_status s) v s).
Definition put_load_jobs (v : odict Z TransferJob) (s : OffloadingConnectorScheduler) : OffloadingConnectorScheduler :=
  ltac:(update_field scheduler_eta (current_batch_load_jobs s) v s).
Definition put_to_flush (v : gset Z) (s : OffloadingConnectorScheduler) : OffloadingConnectorScheduler :=
  ltac:(update_field scheduler_eta (current_batch_jobs_to_flush s) v s).
Definition put_loading (v : option (gset OffloadKey)) (s : OffloadingConnectorScheduler) : OffloadingConnectorScheduler :=
  ltac:(update_field scheduler_eta (blocks_being_loaded s) v s).
Definition put_job_counter (v : Z) (s : OffloadingConnectorScheduler) : OffloadingConnectorScheduler :=
  ltac:(update_field scheduler_eta (job_counter s) v s).
Definition put_stale (v : Z) (s : OffloadingConnectorScheduler) : OffloadingConnectorScheduler :=
  ltac:(update_field scheduler_eta (stale_job_threshold s) v s).
Definition put_jobs (v : odict Z TransferJobStatus) (s : OffloadingConnectorScheduler) : OffloadingConnectorScheduler :=
  ltac:(update_field scheduler_eta (jobs s) v s).
Definition put_pending (v : gmap nat (gset Z)) (s : OffloadingConnectorScheduler) : OffloadingConnectorScheduler :=
  ltac:(update_field scheduler_eta (block_id_to_pending_jobs s) v s).

Notation OM := (M OffloadingConnectorScheduler).

Definition mgr {A} (c : M (CPUOffloadingManager P) A) : OM A := zoom manager put_manager c.

(** [self.manager.lookup] *)
Definition manager_lookup (key : OffloadKey) : M (CPUOffloadingManager P) (option bool) := λ m,
  let '(r, m) := lookup_key key m in Ret r m.

(** [OffloadingConnectorScheduler.__init__] *)
Definition connector_init (config : SchedulerOffloadConfig) (m : CPUOffloadingManager P)
    (enable_prefix_caching : bool) : OffloadingConnectorScheduler :=
  let indexed := imap (λ i c, (i, sliding_window_size_in_blocks c)) (kv_group_configs config) in
  let full := fst <$> filter (λ p, p.2 = None) indexed in
  let windows := fst <$> py_sorted (λ a b, default 0 b.2 <? default 0 a.2) (filter (λ p, p.2 ≠ None) indexed) in
  {| config := config; manager := m; sliding_window_groups := windows; lookup_groups := full ++ windows;
     req_status := []; current_batch_load_jobs := []; current_batch_jobs_to_flush := ∅;
     blocks_being_loaded := if enable_prefix_caching then Some ∅ else None;
     job_counter := 0; stale_job_threshold := 0; jobs := []; block_id_to_pending_jobs := ∅ |}.

(** [self._req_status[req_id]] and the mutation of the object there. *)
Definition get_req (id : string) : OM RequestOffloadState :=
  s ← get_state;
  match od_get id (req_status s) with Some r => mret r | None => raise KeyError end.
Definition set_req (id : string) (r : RequestOffloadState) : OM unit :=
  modify (λ s, put_req_status (od_set id r (req_status s)) s).

Definition alter_group (id : string) (i : nat) (f : RequestGroupState → RequestGroupState) : OM unit :=
  modify (λ s, put_req_status (od_alter (λ r, put_groups (alter f i (group_states r)) r) id (req_status s)) s).

(** [self._jobs[job_id]] *)
Definition get_job (job_id : Z) : OM TransferJobStatus :=
  s ← get_state;
  match od_get job_id (jobs s) with Some j => mret j | None => raise KeyError end.

(** [_generate_job_id] *)
Definition generate_job_id : OM Z :=
  s ← get_state; put_state (put_job_counter (job_counter s + 1) s) ;; mret (job_counter s).

(** [self._block_id_to_pending_jobs.setdefault(bid, set()).add(job_id)] *)
Definition watch (job_id : Z) (bid : nat) : OM unit :=
  modify (λ s, put_pending
    (<[bid := {[job_id]} ∪ default ∅ (block_id_to_pending_jobs s !! bid)]> (block_id_to_pending_jobs s)) s).

(** [_remove_pending_job] *)
Definition remove_pending_job (job_id : Z) (block_ids : option (list nat)) : OM unit :=
  forM (default [] block_ids) (λ bid,
    s ← get_state;
    match block_id_to_pending_jobs s !! bid with
    | None => raise KeyError
    | Some pending =>
        if bool_decide (job_id ∈ pending) then
          let pending := pending ∖ {[job_id]} in
          modify (put_pending
            (if bool_decide (pending = ∅) then delete bid (block_id_to_pending_jobs s)
             else <[bid := pending]> (block_id_to_pending_jobs s)))
        else raise KeyError
    end).

(** The jobs that still read one of the blocks are flushed before it is
    written. *)
Definition fence (block_ids : list nat) : OM unit :=
  modify (λ s, put_to_flush
    (current_batch_jobs_to_flush s
     ∪ ⋃ ((λ bid, default ∅ (block_id_to_pending_jobs s !! bid)) <$> block_ids)) s).

(** [_touch] *)
Definition touched_keys (config : SchedulerOffloadConfig) (r : RequestOffloadState) : list (list OffloadKey) :=
  zip_with (λ c g,
    match sliding_window_size_in_blocks c with
    | None => offload_keys g
    | Some w => drop (Z.to_nat (Z.max 0 (num_hit_blocks g - w))) (offload_keys g)
    end) (kv_group_configs config) (group_states r).
Definition touch (r : RequestOffloadState) : OM unit :=
  modify (λ s, put_manager (foldl (λ m ks, touch_keys ks m) (manager s) (touched_keys (config s) r)) s).

(** [req_status.update_offload_keys()] *)
Definition refresh_keys (id : string) (request : Request F) : OM unit :=
  r ← get_req id;
  s ← get_state;
  match update_offload_keys (config s) (block_hashes request) r with
  | None => raise OverflowError
  | Some r => set_req id r
  end.

(** ** Matching and loading *)
(** [get_num_new_matched_tokens] *)
Definition get_num_new_matched_tokens (request : Request F) (num_computed_tokens : Z) : OM (option Z * bool) :=
  s ← get_state;
  let id := request_id request in
  let is_new_request := negb (od_mem id (req_status s)) in
  (match od_get id (req_status s) with
   | Some r => set_req id (put_groups (put_block_ids [] <$> group_states r) r)
   | None => set_req id (new_request_state (config s))
   end) ;;
  refresh_keys id request ;;
  r ← get_req id;
  set_req id (put_local num_computed_tokens r) ;;
  num_hit_tokens ← mgr (lookup manager_lookup (config s) (lookup_groups s) (sliding_window_groups s)
                          (num_tokens request) num_computed_tokens (group_states r) (blocks_being_loaded s));
  (if is_new_request then
     r ← get_req id;
     set_req id (update_num_hit_blocks (config s) (num_computed_tokens + default 0 num_hit_tokens) r)
   else mret tt) ;;
  r ← get_req id;
  touch r ;;
  mret (num_hit_tokens, match num_hit_tokens with Some n => negb (n =? 0) | None => false end).

(** What [update_state_after_alloc] works out for one group: the keys to load,
    the destination blocks and the index of the first one; [None] is a failed
    assertion. *)
Definition load_group (pool : BlockPool) (config : SchedulerOffloadConfig) (local_tokens cached_tokens : Z)
    (c : GroupOffloadConfig) (g : RequestGroupState) (group_blocks : list nat) :
    option (list OffloadKey * list nat * Z) :=
  let num_gpu_blocks := cdiv cached_tokens (gpu_block_size c) in
  if zlen group_blocks <? num_gpu_blocks then None
  else
    let candidates := take (Z.to_nat num_gpu_blocks) group_blocks in
    let local_gpu_blocks :=
      match list_find (λ b, is_null (block_of pool b) = false ∧ block_hash (block_of pool b) = None) candidates with
      | Some (i, _) => Z.of_nat i
      | None => num_gpu_blocks
      end in
    if local_gpu_blocks * gpu_block_size c <? local_tokens then None
    else
      let num_pending := num_gpu_blocks - local_gpu_blocks in
      if match sliding_window_size_in_blocks c with
         | Some w => w * block_size_factor config <? num_pending
         | None => false
         end then None
      else
        let num_blocks := cdiv cached_tokens (offloaded_block_size c) in
        if zlen (offload_keys g) <? num_blocks then None
        else
          Some (if num_pending =? 0 then []
                else slice (local_gpu_blocks / block_size_factor config) num_blocks (offload_keys g),
                slice local_gpu_blocks num_gpu_blocks group_blocks, local_gpu_blocks).

(** [update_state_after_alloc].  The attributes of the allocated blocks are
    those of [pool]; [do_remote_decode] is read from the transfer parameters of
    the request. *)
Definition update_state_after_alloc (pool : BlockPool) (do_remote_decode : bool) (request : Request F)
    (blocks : list (list nat)) (num_external_tokens : Z) : OM unit :=
  if num_external_tokens =? 0 then mret tt
  else
    let id := request_id request in
    r ← get_req id;
    s ← get_state;
    let num_cached_tokens := num_locally_computed_tokens r + num_external_tokens in
    loads ← mapS (λ '(i, (c, (g, bs))),
      match load_group pool (config s) (num_locally_computed_tokens r) num_cached_tokens c g bs with
      | None => raise AssertionError
      | Some l =>
          (if do_remote_decode then mret tt
           else alter_group id i (put_next_stored (cdiv num_cached_tokens (offloaded_block_size c)))) ;;
          mret l
      end) (imap pair (zip (kv_group_configs (config s)) (zip (group_states r) blocks)));
    let keys_to_load := concat ((λ l, l.1.1) <$> loads) in
    let dst_block_ids := concat ((λ l, l.1.2) <$> loads) in
    fence dst_block_ids ;;
    src ← mgr (prepare_load keys_to_load);
    job_id ← generate_job_id;
    modify (λ s, put_load_jobs
      (od_set job_id
         (mkTransferJob id (mkGPUSpec dst_block_ids ((λ l, zlen l.1.2) <$> loads) ((λ l, l.2) <$> loads)) src)
         (current_batch_load_jobs s)) s) ;;
    r ← get_req id;
    assertM (bool_decide (transfer_jobs r = ∅)) ;;
    set_req id (put_transfer_jobs ({[job_id]} ∪ transfer_jobs r) r) ;;
    modify (λ s, put_jobs (od_set job_id
      (mkJob id (num_workers (config s)) (list_to_set keys_to_load) false None None) (jobs s)) s) ;;
    modify (λ s, put_loading ((λ l, list_to_set keys_to_load ∪ l) <$> blocks_being_loaded s) s).

(** ** Storing

    The part of [SchedulerOutput] the connector reads: the new and the cached
    requests with their new blocks, which of the latter were resumed, the
    scheduled tokens, and the preempted requests. *)
Record SchedulerOutput := mkOutput {
  scheduled_new_reqs : list (string * list (list nat));
  scheduled_cached_reqs : list (string * option (list (list nat)));
  resumed_req_ids : gset string;
  num_scheduled_tokens : odict string Z;
  preempted_req_ids : list string
}.

(** [yield_req_data] *)
Definition yield_req_data (o : SchedulerOutput) : list (string * option (list (list nat)) * bool) :=
  ((λ '(id, blocks), (id, Some blocks, false)) <$> scheduled_new_reqs o)
  ++ ((λ '(id, blocks), (id, blocks, bool_decide (id ∈ resumed_req_ids o))) <$> scheduled_cached_reqs o).

(** Whether a block of a sliding-window group lies in the reachable tail of
    its alignment segment; [None] is the assertion on the window. *)
Definition reachable (c : GroupOffloadConfig) (abs_block_idx : Z) : option bool :=
  match alignment_block_count c with
  | None => Some true
  | Some count =>
      tail ← sliding_window_size_in_blocks c;
      Some (negb (abs_block_idx mod count <? count - tail))
  end.

(** The keys of one group a step completed and may store. *)
Definition group_store_keys (config : SchedulerOffloadConfig) (num_offloadable_tokens : Z)
    (c : GroupOffloadConfig) (g : RequestGroupState) : option (list OffloadKey) :=
  let factor := block_size_factor config in
  let num_blocks := num_offloadable_tokens / offloaded_block_size c in
  let start_block_idx := next_stored_block_idx g in
  if num_blocks <=? start_block_idx then Some []
  else
    let keys := slice start_block_idx num_blocks (offload_keys g) in
    let ids :=
      islice (start_block_idx * factor + factor - 1) factor (take (Z.to_nat (num_blocks * factor)) (block_ids g)) in
    if negb (length keys =? length ids)%nat then None
    else
      selected ← mapM (λ '(idx, (key, block_id)),
        if (block_id =? 0)%nat then Some []
        else ok ← reachable c (start_block_idx + Z.of_nat idx); Some (if ok : bool then [key] else []))
        (imap pair (zip keys ids));
      Some (concat selected).

(** The GPU blocks of one offloaded block: appended to the sources, with the
    index of the first one of the group. *)
Definition source_block {T} (block_ids : list nat) (acc : list nat * option Z) (gpu_idx : Z) :
    M T (list nat * option Z) :=
  match block_ids !! Z.to_nat gpu_idx with
  | None => raise IndexError
  | Some block_id =>
      if (block_id =? 0)%nat then assertM (bool_decide (acc.2 = None)) ;; mret acc
      else mret (acc.1 ++ [block_id], Some (default gpu_idx acc.2))
  end.

(** The sources of one group. *)
Definition group_sources {T} (config : SchedulerOffloadConfig) (num_offloadable_tokens : Z)
    (keys_to_store : gset OffloadKey) (c : GroupOffloadConfig) (g : RequestGroupState) :
    M T (list nat * option Z) :=
  let factor := block_size_factor config in
  let num_blocks := num_offloadable_tokens / offloaded_block_size c in
  let start_block_idx := next_stored_block_idx g in
  foldM (λ acc '(idx, key),
    if bool_decide (key ∈ keys_to_store) then
      let gpu_block_idx := (start_block_idx + Z.of_nat idx) * factor in
      foldM (source_block (block_ids g)) acc (seqZ gpu_block_idx factor)
    else mret acc)
    ([], None) (imap pair (slice start_block_idx num_blocks (offload_keys g))).

(** The rest of the loop body of [_build_store_jobs]: the job for the keys the
    manager accepted. *)
Definition store_job (id : string) (num_offloadable_tokens : Z) (out : PrepareStoreOutput) :
    OM (Z * TransferJob) :=
  r ← get_req id;
  touch r ;;
  s ← get_state;
  let keys_to_store : gset OffloadKey := list_to_set (CPUManager.keys_to_store out) in
  sources ← mapS (λ '(i, (c, g)),
    group ← group_sources (config s) num_offloadable_tokens keys_to_store c g;
    alter_group id i (put_next_stored (num_offloadable_tokens / offloaded_block_size c)) ;;
    mret group) (imap pair (zip (kv_group_configs (config s)) (group_states r)));
  let src_block_ids := concat (fst <$> sources) in
  let of_windows (windows : bool) :=
    concat ((λ p, p.2.1) <$> filter (λ p,
      negb (bool_decide (sliding_window_size_in_blocks p.1 = None)) = windows)
      (zip (kv_group_configs (config s)) sources)) in
  job_id ← generate_job_id;
  r ← get_req id;
  (match elements (transfer_jobs r) with
   | any_jid :: _ => j ← get_job any_jid; assertM (is_store j)
   | [] => mret tt
   end) ;;
  set_req id (put_transfer_jobs ({[job_id]} ∪ transfer_jobs r) r) ;;
  forM (of_windows true) (watch job_id) ;;
  modify (λ s, put_jobs (od_set job_id
    (mkJob id (num_workers (config s)) keys_to_store true (Some (of_windows false))
       (match of_windows true with [] => None | l => Some l end)) (jobs s)) s) ;;
  mret (job_id, mkTransferJob id
    (mkGPUSpec src_block_ids ((λ g, zlen g.1) <$> sources) ((λ g, default 0 g.2) <$> sources))
    (store_spec out)).

(** The live request, and whether its stores are left to someone else
    ([_defer_store], [False] here and overridden by TokenCake). *)
Context (live : string → Request F) (defer_store : Request F → bool).

(** One iteration of [_build_store_jobs]; [None] is [continue]. *)
Definition store_request (o : SchedulerOutput) (id : string) (new_block_id_groups : option (list (list nat)))
    (preempted : bool) : OM (option (Z * TransferJob)) :=
  refresh_keys id (live id) ;;
  (if preempted then
     r ← get_req id; set_req id (put_groups (put_block_ids [] <$> group_states r) r)
   else mret tt) ;;
  (match new_block_id_groups with
   | None | Some [] => mret tt
   | Some groups =>
       r ← get_req id;
       match update_block_id_groups (Some groups) r with
       | None => raise AssertionError
       | Some r => set_req id r ;; fence (concat groups)
       end
   end) ;;
  if defer_store (live id) then mret None
  else
    match od_get id (num_scheduled_tokens o) with
    | None => raise KeyError
    | Some n =>
        let num_offloadable_tokens := Z.min (num_computed_tokens (live id) + n) (num_tokens (live id)) in
        r ← get_req id;
        s ← get_state;
        match mapM (λ '(c, g), group_store_keys (config s) num_offloadable_tokens c g)
                (zip (kv_group_configs (config s)) (group_states r)) with
        | None => raise AssertionError
        | Some groups =>
            match concat groups with
            | [] => set_req id (advance_stored_idx (config s) num_offloadable_tokens r) ;; mret None
            | new_offload_keys =>
                store_output ← mgr (prepare_store new_offload_keys);
                match store_output with
                | None => mret None
                | Some out =>
                    if bool_decide (CPUManager.keys_to_store out = []) then
                      set_req id (advance_stored_idx (config s) num_offloadable_tokens r) ;; mret None
                    else job ← store_job id num_offloadable_tokens out; mret (Some job)
                end
            end
        end
    end.

(** [_build_store_jobs] *)
Definition build_store_jobs (o : SchedulerOutput) : OM (odict Z TransferJob) :=
  found ← mapS (λ '(id, groups, preempted), store_request o id groups preempted) (yield_req_data o);
  mret (omap id found).

Record OffloadingConnectorMetadata := mkMeta {
  load_jobs : odict Z TransferJob;
  store_jobs : odict Z TransferJob;
  jobs_to_flush : gset Z
}.

(** The stores of a preempted request are flushed. *)
Definition flush_preempted (id : string) : OM unit :=
  s ← get_state;
  match od_get id (req_status s) with
  | None => mret tt
  | Some r =>
      match elements (transfer_jobs r) with
      | [] => mret tt
      | any_jid :: _ =>
          j ← get_job any_jid;
          assertM (is_store j) ;;
          modify (λ s, put_to_flush (current_batch_jobs_to_flush s ∪ transfer_jobs r) s)
      end
  end.

(** [build_connector_meta] *)
Definition build_connector_meta (o : SchedulerOutput) : OM OffloadingConnectorMetadata :=
  forM (preempted_req_ids o) flush_preempted ;;
  modify (λ s,
    if negb (bool_decide (req_status s = [])) && forallb (λ id, is_finished (live id)) (od_keys (req_status s))
    then put_to_flush (current_batch_jobs_to_flush s ∪ list_to_set (od_keys (jobs s))) s else s) ;;
  s ← get_state;
  let loads := current_batch_load_jobs s in
  stores ← build_store_jobs o;
  s ← get_state;
  let flush := current_batch_jobs_to_flush s in
  put_state (put_to_flush ∅ (put_load_jobs [] s)) ;;
  mret (mkMeta loads stores flush).

(** ** Completions *)
(** One iteration of [update_connector_output]. *)
Definition job_completed (job_id count : Z) : OM unit :=
  assertM (0 <? count) ;;
  s ← get_state;
  if job_id <? stale_job_threshold s then mret tt
  else
    j ← get_job job_id;
    let pending := pending_count j - count in
    modify (λ s, put_jobs (od_set job_id (put_pending_count pending j) (jobs s)) s) ;;
    if 0 <? pending then mret tt
    else
      assertM (pending =? 0) ;;
      r ← get_req (req_id j);
      (if is_store j then mgr (complete_store (elements (keys j)) true)
       else
         mgr (complete_load (elements (keys j))) ;;
         modify (λ s, put_loading ((λ l, l ∖ keys j) <$> blocks_being_loaded s) s)) ;;
      s ← get_state;
      (if bool_decide (block_id_to_pending_jobs s = ∅) then mret tt
       else
         remove_pending_job job_id (sliding_window_block_ids j) ;;
         if is_finished (live (req_id j)) then remove_pending_job job_id (non_sliding_window_block_ids j)
         else mret tt) ;;
      modify (λ s, put_jobs (od_del job_id (jobs s)) s) ;;
      r ← get_req (req_id j);
      if bool_decide (job_id ∈ transfer_jobs r) then
        let left := transfer_jobs r ∖ {[job_id]} in
        set_req (req_id j) (put_transfer_jobs left r) ;;
        if bool_decide (left = ∅) && is_finished (live (req_id j))
        then modify (λ s, put_req_status (od_del (req_id j) (req_status s)) s) else mret tt
      else raise KeyError.

(** [update_connector_output], of the completions the workers report. *)
Definition update_connector_output (completed_jobs : odict Z Z) : OM unit :=
  forM completed_jobs (λ '(job_id, count), job_completed job_id count).

(** [request_finished]; it always returns [(False, None)]. *)
Definition request_finished (id : string) : OM unit :=
  s ← get_state;
  match od_get id (req_status s) with
  | None => mret tt
  | Some r =>
      if bool_decide (transfer_jobs r = ∅) then modify (λ s, put_req_status (od_del id (req_status s)) s)
      else forM (elements (transfer_jobs r)) (λ job_id,
        j ← get_job job_id;
        forM (default [] (non_sliding_window_block_ids j)) (watch job_id))
  end.

(** [take_events]: the hashes of the removed and of the stored blocks. *)
Definition take_events : OM (list (bool * list (list Z))) :=
  s ← get_state;
  let '(events, m) := CPUManager.take_events (manager s) in
  put_state (put_manager m s) ;;
  mret ((λ e, (ev_removed e, get_offload_block_hash <$> ev_keys e)) <$> events).

(** [reset_cache] *)
Definition reset_cache : OM unit :=
  s ← get_state;
  assertM (bool_decide (current_batch_load_jobs s = [])) ;;
  assertM (bool_decide (current_batch_jobs_to_flush s = ∅)) ;;
  modify (λ s, put_to_flush (current_batch_jobs_to_flush s ∪ list_to_set (od_keys (jobs s))) s) ;;
  modify (λ s, put_manager (CPUManager.reset_cache (manager s)) s) ;;
  modify (λ s, put_req_status
    ((λ '(id, r), (id, put_groups (put_next_stored 0 <$> group_states r) r)) <$> req_status s) s) ;;
  modify (λ s, put_pending ∅ (put_jobs [] (put_stale (job_counter s) s))) ;;
  modify (λ s, put_loading ((λ _, ∅) <$> blocks_being_loaded s) s).
End Scheduler.
Arguments OffloadingConnectorScheduler P : clear implicits.
End Offloading.
