(* ===== verification/LookupFacts.v ===== *)
(** * Facts about the lookup of offloaded blocks

    The search over the KV-cache groups of a request always ends, and the
    number of tokens it reports is backed, in every group, by blocks that are
    ready in CPU memory. *)
From S2P Require Import Prelude PyFloat CachePolicy KVCache KVCacheFacts CPUManager NativeOffload.
Import Offloading.
Local Open Scope Z_scope.

(** A lookup without effect on the answers to other lookups: [ready k] is what
    it answers for [k] in any state satisfying [inv]. *)
Section lookups.
Context {T : Type} (query : OffloadKey → M T (option bool)).
Context (ready : OffloadKey → option bool) (inv : T → Prop).
Hypothesis query_ok : ∀ k t, inv t → ∃ t', query k t = Ret (ready k) t' ∧ inv t'.

(** The keys at the positions [a ≤ i < b] are ready. *)
Definition ready_between (keys : list OffloadKey) (a b : Z) : Prop :=
  ∀ i k, a ≤ Z.of_nat i < b → keys !! i = Some k → ready k = Some true.

Lemma ready_between_snoc keys a b k :
  ready_between keys a b → keys !! Z.to_nat b = Some k → ready k = Some true → ready_between keys a (b + 1).
Proof.
  intros Hr Hk Hrk i j Hi Hj. destruct (decide (Z.of_nat i = b)) as [<-|Hne].
  - rewrite Nat2Z.id in Hk. congruence.
  - apply (Hr i); [lia|done].
Qed.

(** The first block of a prefix that is not there ends it; one still being
    written defers the answer. *)
Lemma prefix_loop_spec all keys h d t :
  inv t → 0 ≤ h → keys = drop (Z.to_nat h) all → ready_between all 0 h ∨ d = true →
  ∃ res t', prefix_loop query keys h d t = Ret res t' ∧ inv t'
    ∧ match res with
      | Some n => d = false ∧ h ≤ n ≤ h + zlen keys ∧ ready_between all 0 n
          ∧ (n = h + zlen keys ∨ ∃ k, all !! Z.to_nat n = Some k ∧ ready k = Some false)
      | None => d = true ∨ ∃ k, k ∈ keys ∧ ready k = None
      end.
Proof.
  revert h d t. induction keys as [|k keys IH]; intros h d t Ht Hh Hall Hr; cbn [prefix_loop].
  { exists (if d then None else Some h), t. split; [done|]. split; [done|].
    destruct d; [by left|]. destruct Hr as [Hr|]; [|done]. unfold zlen. cbn. split_and!; [done|lia|lia|done|left; lia]. }
  destruct (query_ok k t Ht) as (t1 & Hq & Ht1). rewrite bind_unfold, Hq.
  assert (all !! Z.to_nat h = Some k) as Hk by (rewrite <-(Nat.add_0_r (Z.to_nat h)), <-lookup_drop, <-Hall; done).
  assert (keys = drop (Z.to_nat (h + 1)) all) as Htl.
  { replace (Z.to_nat (h + 1)) with (Z.to_nat h + 1)%nat by lia. by rewrite <-drop_drop, <-Hall. }
  destruct (ready k) as [[]|] eqn:Hrk.
  - destruct (IH (h + 1) d t1) as (res & t' & Hrun & Ht' & Hres); [done|lia|done| |].
    { destruct Hr as [Hr|]; [left|by right]. by apply (ready_between_snoc all 0 h k). }
    exists res, t'. split; [exact Hrun|]. split; [done|]. destruct res as [n|].
    + destruct Hres as (? & ? & ? & Hend). split_and!; [done| | |done|].
      * lia.
      * unfold zlen in *. cbn. lia.
      * destruct Hend as [->|?]; [left; unfold zlen; cbn; lia|by right].
    + destruct Hres as [|(k' & ? & ?)]; [by left|]. right. exists k'. split; [by right|done].
  - exists (if d then None else Some h), t1. split; [done|]. split; [done|].
    destruct d; [by left|]. destruct Hr as [Hr|]; [|done].
    split_and!; [done|lia|unfold zlen; cbn; lia|done|]. right. by exists k.
  - destruct (IH (h + 1) true t1) as (res & t' & Hrun & Ht' & Hres); [done|lia|done|by right|].
    exists res, t'. split; [exact Hrun|]. split; [done|]. destruct res as [n|]; [by destruct Hres|].
    right. destruct Hres as [_|(k' & ? & ?)]; [exists k; split; [by left|done]|exists k'; split; [by right|done]].
Qed.

(** Scanning back from the end, the last full window of ready blocks, or else
    the ready blocks at the start. *)
Lemma window_loop_spec all w rk c d t :
  inv t → 0 ≤ c < w → (∃ suf, all = reverse rk ++ suf) → ready_between all (zlen rk) (zlen rk + c) ∨ d = true →
  zlen rk + c ≤ zlen all →
  ∃ res t', window_loop query w rk c d t = Ret res t' ∧ inv t'
    ∧ match res with
      | Some n => d = false ∧ 0 ≤ n ≤ zlen all ∧ ready_between all (n - w) n
      | None => d = true ∨ ∃ k, k ∈ all ∧ ready k = None
      end.
Proof.
  revert c d t. induction rk as [|k rk IH]; intros c d t Ht Hc [suf Hall] Hr Hlen; cbn [window_loop].
  { exists (if d then None else Some c), t. split; [done|]. split; [done|].
    destruct d; [by left|]. destruct Hr as [Hr|]; [|done]. unfold zlen in Hr, Hlen at 1. cbn in Hr, Hlen.
    split_and!; [done|lia|lia|]. intros i k' Hi. apply Hr. lia. }
  destruct (query_ok k t Ht) as (t1 & Hq & Ht1). rewrite bind_unfold, Hq.
  rewrite reverse_cons, <-(assoc_L (++)) in Hall.
  assert (all !! length rk = Some k) as Hk.
  { rewrite Hall, lookup_app_r by (rewrite length_reverse; lia). by rewrite length_reverse, Nat.sub_diag. }
  assert (zlen (k :: rk) = zlen rk + 1) as Hz by (unfold zlen; cbn; lia). rewrite Hz in *.
  destruct (ready k) as [[]|] eqn:Hrk; cbn [default from_option id].
  - rewrite bool_decide_eq_false_2, orb_false_r by done.
    assert (ready_between all (zlen rk) (zlen rk + 1 + c) ∨ d = true) as Hr'.
    { destruct Hr as [Hr|]; [left|by right]. intros i k' Hi Hk'.
      destruct (decide (i = length rk)) as [->|Hne]; [congruence|]. apply (Hr i); [unfold zlen in *; lia|done]. }
    destruct (Z.eqb_spec (c + 1) w) as [Hw|Hw].
    + eexists _, t1. split; [done|]. split; [done|]. destruct d; [by left|]. destruct Hr' as [Hr'|]; [|done].
      split_and!; [done|unfold zlen; lia|unfold zlen in *; lia|]. intros i k' Hi. apply Hr'. lia.
    + destruct (IH (c + 1) d t1) as (res & t' & Hrun & Ht' & Hres); [done|lia|by eexists| |lia|].
      { destruct Hr' as [Hr'|]; [left|by right]. by replace (zlen rk + (c + 1)) with (zlen rk + 1 + c) by lia. }
      by exists res, t'.
  - rewrite bool_decide_eq_false_2, orb_false_r by done.
    destruct (IH 0 d t1) as (res & t' & Hrun & Ht' & Hres); [done|lia|by eexists| |unfold zlen in *; lia|].
    { left. intros i k' Hi. lia. }
    by exists res, t'.
  - rewrite bool_decide_eq_true_2, orb_true_r by done.
    destruct (IH 0 true t1) as (res & t' & Hrun & Ht' & Hres); [done|lia|by eexists|by right|unfold zlen in *; lia|].
    exists res, t'. split; [exact Hrun|]. split; [done|]. destruct res as [n|]; [by destruct Hres|].
    right. exists k. split; [|done]. by apply list_elem_of_lookup_2 with (length rk).
Qed.

(** ** One group *)
Context (config : SchedulerOffloadConfig) (lookup_groups sliding_window_groups : list nat).
Context (num_tokens num_computed : Z) (states : list RequestGroupState).
Hypothesis computed_nonneg : 0 ≤ num_computed.

(** In group [c], everything that a load up to token [B] needs is ready: all
    blocks after the computed tokens, or the last window of them. *)
Definition backed (c : GroupOffloadConfig) (g : RequestGroupState) (B : Z) : Prop :=
  let size := offloaded_block_size c in
  let last := cdiv B size in
  let first := num_computed / size in
  ready_between (offload_keys g)
    (match sliding_window_size_in_blocks c with None => first | Some w => Z.max first (last - w) end) last.

Record group_ok (c : GroupOffloadConfig) (g : RequestGroupState) : Prop := {
  go_size : 0 < offloaded_block_size c;
  go_keys : num_tokens / offloaded_block_size c ≤ zlen (offload_keys g);
  go_window : ∀ w, sliding_window_size_in_blocks c = Some w → 1 ≤ w
}.

Lemma backed_full_mono c g B B' : 0 < offloaded_block_size c →
  sliding_window_size_in_blocks c = None → B' ≤ B → backed c g B → backed c g B'.
Proof.
  unfold backed. intros Hs -> HB Hr i k Hi. apply Hr. pose proof (cdiv_mono B' B _ Hs HB). lia.
Qed.

(** The bound a hit count leaves. *)
Definition bound_after (c : GroupOffloadConfig) (max_hit : Z) (hits : option Z) : Z :=
  match hits with
  | None => max_hit
  | Some n => Z.min max_hit (offloaded_block_size c * (num_computed / offloaded_block_size c + n))
  end.

Lemma slice_lookup {A} (l : list A) a b i : 0 ≤ a → (Z.of_nat i < b - a) → slice a b l !! i = l !! (Z.to_nat a + i)%nat.
Proof. intros Ha Hi. unfold slice. rewrite lookup_take_lt, lookup_drop by lia. done. Qed.

Lemma zlen_slice {A} (l : list A) a b : 0 ≤ a ≤ b → b ≤ zlen l → zlen (slice a b l) = b - a.
Proof. intros Ha Hb. unfold slice, zlen in *. rewrite length_take, length_drop. lia. Qed.

Lemma slice_sub {A} (l : list A) a b x : x ∈ slice a b l → x ∈ l.
Proof. intros Hx%elem_of_take. destruct Hx as (i & Hi & _). rewrite lookup_drop in Hi. by eapply list_elem_of_lookup_2. Qed.

Lemma ready_between_slice keys start nb a n : 0 ≤ start → n ≤ nb - start →
  ready_between (slice start nb keys) a n → ready_between keys (start + Z.max 0 a) (start + n).
Proof.
  intros Hs Hn Hr i k Hi Hk. apply (Hr (i - Z.to_nat start)%nat); [lia|].
  rewrite slice_lookup by lia. rewrite <-Hk. f_equal. lia.
Qed.

(** How far the hits of a group reach. *)
Lemma bound_blocks c g max_hit n : 0 < offloaded_block_size c →
  num_computed < max_hit ≤ zlen (offload_keys g) * offloaded_block_size c →
  let start := num_computed / offloaded_block_size c in
  let nb := Z.min (cdiv max_hit (offloaded_block_size c)) (zlen (offload_keys g)) in
  0 ≤ start ≤ nb ∧ nb ≤ zlen (offload_keys g)
  ∧ (0 ≤ n ≤ nb - start → cdiv (bound_after c max_hit (Some n)) (offloaded_block_size c) = start + n).
Proof.
  intros Hs Hm. cbn [bound_after]. set (size := offloaded_block_size c) in *.
  pose proof (cdiv_spec max_hit size Hs) as Hc.
  pose proof (Z.div_pos num_computed size computed_nonneg Hs).
  pose proof (Z.mul_div_le num_computed size Hs).
  rewrite Z.min_l by nia. split; [nia|]. split; [nia|]. intros Hn.
  destruct (decide (n = cdiv max_hit size - num_computed / size)) as [->|Hne].
  - rewrite Z.min_l by nia. lia.
  - rewrite Z.min_r by nia. rewrite Z.mul_comm, cdiv_mul by done. done.
Qed.

Lemma lookup_group_spec c g max_hit t :
  inv t → group_ok c g → num_computed < max_hit ≤ zlen (offload_keys g) * offloaded_block_size c →
  ∃ hits t', lookup_group query num_computed c g max_hit t = Ret hits t' ∧ inv t'
    ∧ match hits with
      | Some n => 0 ≤ n ∧ backed c g (bound_after c max_hit hits)
      | None => ∃ k, k ∈ offload_keys g ∧ ready k = None
      end.
Proof.
  intros Ht [Hs _ Hw] Hm. unfold lookup_group, backed.
  destruct (bound_blocks c g max_hit 0 Hs Hm) as (Hst & Hnb & _).
  set (start := num_computed / offloaded_block_size c) in *.
  set (nb := Z.min (cdiv max_hit (offloaded_block_size c)) (zlen (offload_keys g))) in *.
  pose proof (zlen_slice (offload_keys g) start nb Hst Hnb) as Hlen.
  destruct (sliding_window_size_in_blocks c) as [w|].
  - specialize (Hw w eq_refl). destruct (window_loop_spec (slice start nb (offload_keys g)) w
      (reverse (slice start nb (offload_keys g))) 0 false t) as (hits & t' & Hrun & Ht' & Hres);
      [done|lia|exists []; by rewrite reverse_involutive, app_nil_r|left; intros i k Hi; lia
      |unfold zlen; rewrite length_reverse; lia|].
    exists hits, t'. split; [exact Hrun|]. split; [done|]. destruct hits as [n|].
    + destruct Hres as (_ & Hn & Hr). split; [lia|].
      destruct (bound_blocks c g max_hit n Hs Hm) as (_ & _ & ->); [|fold start nb; lia].
      fold start. replace (Z.max start (start + n - w)) with (start + Z.max 0 (n - w)) by lia.
      apply (ready_between_slice _ _ nb); [lia|lia|done].
    + destruct Hres as [|(k & Hk & Hrk)]; [done|]. exists k. split; [by eapply slice_sub|done].
  - destruct (prefix_loop_spec (slice start nb (offload_keys g)) (slice start nb (offload_keys g)) 0 false t)
      as (hits & t' & Hrun & Ht' & Hres); [done|lia|done|left; intros i k Hi; lia|].
    exists hits, t'. split; [exact Hrun|]. split; [done|]. destruct hits as [n|].
    + destruct Hres as (_ & Hn & Hr & _). split; [lia|].
      destruct (bound_blocks c g max_hit n Hs Hm) as (_ & _ & ->); [|fold start nb; lia].
      fold start. replace start with (start + Z.max 0 0) at 1 by lia.
      apply (ready_between_slice _ _ nb); [lia|lia|done].
    + destruct Hres as [|(k & Hk & Hrk)]; [done|]. exists k. split; [by eapply slice_sub|done].
Qed.

(** ** The search over the groups *)
Definition group_at (i : nat) (c : GroupOffloadConfig) (g : RequestGroupState) : Prop :=
  kv_group_configs config !! i = Some c ∧ states !! i = Some g.
Hypothesis groups_ok : ∀ i, i ∈ lookup_groups → ∃ c g, group_at i c g ∧ group_ok c g.
Hypothesis windows_in : ∀ i, i ∈ sliding_window_groups → i ∈ lookup_groups.
Hypothesis windows_are : ∀ i c g, i ∈ lookup_groups → group_at i c g →
  i ∈ sliding_window_groups ↔ sliding_window_size_in_blocks c ≠ None.

Definition backed_at (B : Z) (i : nat) : Prop := ∀ c g, group_at i c g → backed c g B.

(** Some block of the request is still being written. *)
Definition pending : Prop := ∃ g k, g ∈ states ∧ k ∈ offload_keys g ∧ ready k = None.

Lemma backed_at_mono B B' i : i ∈ lookup_groups → i ∉ sliding_window_groups → B' ≤ B →
  backed_at B i → backed_at B' i.
Proof.
  intros Hi Hw HB Hb c g Hcg. destruct (groups_ok i Hi) as (c' & g' & Hcg' & Hok).
  assert (c' = c ∧ g' = g) as [-> ->] by (destruct Hcg, Hcg'; naive_solver).
  apply (backed_full_mono c g B); [apply Hok| |done|by apply Hb].
  destruct (sliding_window_size_in_blocks c) eqn:Hs; [|done]. exfalso. apply Hw, (windows_are i c g Hi Hcg). congruence.
Qed.

(** In a run over the groups, after those of [done], started at the bound [B0]
    when the full-attention groups of [base] were backed. *)
Record pass_inv (B0 : Z) (base : nat → Prop) (done : list nat) (looked : bool) (s : Search) : Prop := {
  pi_bound : max_hit_size_tokens s ≤ B0;
  pi_hits : num_hit_tokens s = 0 ∨ num_hit_tokens s = max_hit_size_tokens s - num_computed;
  pi_done : done ≠ [] → num_hit_tokens s = max_hit_size_tokens s - num_computed ∧ 0 < num_hit_tokens s;
  pi_looked : looked = true ↔ ∃ i, i ∈ done ∧ i ∈ sliding_window_groups;
  pi_shrunk : again s ≠ [] → max_hit_size_tokens s < B0;
  pi_pending : deferred s = true → pending;
  pi_backed : again s = lookup_groups
    ∨ (again s = [] ∨ again s = sliding_window_groups)
      ∧ (deferred s = false →
           (∀ i, i ∈ lookup_groups → i ∉ sliding_window_groups → base i ∨ i ∈ done → backed_at (max_hit_size_tokens s) i)
           ∧ (again s = [] → ∀ i, i ∈ done → backed_at (max_hit_size_tokens s) i))
}.

Lemma after_group_eq looked B defer s :
  max_hit_size_tokens (after_group lookup_groups sliding_window_groups num_computed looked B defer s) = B
  ∧ num_hit_tokens (after_group lookup_groups sliding_window_groups num_computed looked B defer s) = B - num_computed.
Proof. unfold after_group. by repeat case_match. Qed.

(** The groups backed before are still backed at the new bound, or will be
    looked up again. *)
Lemma after_group_backed B0 base done looked s i B defer :
  pass_inv B0 base done looked s → i ∈ lookup_groups → (∀ j, j ∈ done → j ∈ lookup_groups) →
  B ≤ max_hit_size_tokens s → (defer = false → deferred s = false ∧ backed_at B i) →
  let s' := after_group lookup_groups sliding_window_groups num_computed looked B defer s in
  again s' = lookup_groups
  ∨ (again s' = [] ∨ again s' = sliding_window_groups)
    ∧ (deferred s' = false →
         (∀ j, j ∈ lookup_groups → j ∉ sliding_window_groups → base j ∨ j ∈ done ++ [i] → backed_at B j)
         ∧ (again s' = [] → ∀ j, j ∈ done ++ [i] → backed_at B j)).
Proof.
  intros Hinv Hi Hsub HB Hback. cbn zeta. destruct Hinv as [_ _ Hdone Hlooked _ _ Hbacked]. unfold after_group.
  assert (deferred s = false → defer = false → again s ≠ lookup_groups → ∀ j,
    j ∈ lookup_groups → j ∉ sliding_window_groups → base j ∨ j ∈ done ++ [i] → backed_at B j) as Hfull.
  { intros Hd Hdf Hag j Hj Hw Hin. destruct (Hback Hdf) as [_ Hbi].
    assert (j = i ∨ base j ∨ j ∈ done) as [->|Hin']; [|done|].
    { destruct Hin as [Hbase|[Hdn| ->%list_elem_of_singleton]%elem_of_app]; auto. }
    apply (backed_at_mono (max_hit_size_tokens s)); [done..|].
    destruct Hbacked as [|[_ Hb]]; [done|]. destruct (Hb Hd) as [Hb' _]. by apply Hb'. }
  destruct (Z.ltb_spec (B - num_computed) (num_hit_tokens s)) as [Hless|Hsame].
  - destruct defer; [by left|]. destruct (Hback eq_refl) as [Hd Hbi].
    destruct (looked && bool_decide (again s = [])) eqn:Hre; cbn [again deferred].
    + apply andb_true_iff in Hre as [Hl Hag%bool_decide_eq_true]. destruct (decide (again s = lookup_groups)).
      { exfalso. rewrite Hag in *. destruct lookup_groups; [by apply elem_of_nil in Hi|done]. }
      right. split; [by right|]. intros _. split; [by apply Hfull|].
      intros Hnil. apply Hlooked in Hl as (j & _ & Hj). rewrite Hnil in Hj. by apply elem_of_nil in Hj.
    + destruct (decide (again s = lookup_groups)); [by left|].
      destruct Hbacked as [|[Hag Hb]]; [done|]. right. split; [done|]. intros _. split; [by apply Hfull|].
      intros Hnil j [Hj| ->%list_elem_of_singleton]%elem_of_app; [|done].
      rewrite Hnil, bool_decide_eq_true_2, andb_true_r in Hre by done.
      apply Hfull; [done..|by apply Hsub| |right; apply elem_of_app; by left].
      intros Hw. assert (looked = true) as Ht by (apply Hlooked; by exists j). congruence.
  - cbn [again deferred]. destruct (decide (again s = lookup_groups)); [by left|].
    destruct Hbacked as [|[Hag Hb]]; [done|]. right. split; [done|]. intros ->.
    destruct (Hback eq_refl) as [Hd Hbi]. split; [by apply Hfull|].
    intros Hnil j [Hj| ->%list_elem_of_singleton]%elem_of_app; [|done].
    destruct done as [|j0 done']; [by apply elem_of_nil in Hj|].
    destruct Hdone as [Hhits _]; [done|]. assert (B = max_hit_size_tokens s) as -> by lia.
    destruct (Hb Hd) as [_ Hb']. by apply Hb'.
Qed.

Lemma after_group_inv B0 base done looked s i B defer :
  pass_inv B0 base done looked s → i ∈ lookup_groups → (∀ j, j ∈ done → j ∈ lookup_groups) →
  B ≤ max_hit_size_tokens s → num_computed < B → (defer = true → pending) →
  (defer = false → deferred s = false ∧ backed_at B i) →
  pass_inv B0 base (done ++ [i]) (looked || bool_decide (i ∈ sliding_window_groups))
    (after_group lookup_groups sliding_window_groups num_computed looked B defer s).
Proof.
  intros Hinv Hi Hsub HB Hpos Hpend Hback. pose proof (after_group_eq looked B defer s) as [HeqB Heqh].
  pose proof (after_group_backed B0 base done looked s i B defer Hinv Hi Hsub HB Hback) as Hb. cbn zeta in Hb.
  destruct Hinv as [Hb0 Hh Hd Hl Hs Hp _]. split.
  - lia.
  - right. lia.
  - intros _. lia.
  - rewrite orb_true_iff, bool_decide_eq_true, Hl. split.
    + intros [(j & Hj & Hw)|Hw]; [exists j|exists i]; (split; [|done]); apply elem_of_app; [by left|right; by left].
    + intros (j & [Hj| ->%list_elem_of_singleton]%elem_of_app & Hw); [left; by exists j|by right].
  - unfold after_group. intros Hag. destruct (Z.ltb_spec (B - num_computed) (num_hit_tokens s)) as [Hless|Hsame].
    + assert (B < max_hit_size_tokens s) by lia. repeat case_match; cbn [max_hit_size_tokens]; lia.
    + cbn [again max_hit_size_tokens] in *. specialize (Hs Hag). lia.
  - unfold after_group. repeat case_match; cbn [deferred]; done || (intros; by apply Hpend).
  - by rewrite HeqB.
Qed.

Lemma window_bool i c g : i ∈ lookup_groups → group_at i c g →
  negb (bool_decide (sliding_window_size_in_blocks c = None)) = bool_decide (i ∈ sliding_window_groups).
Proof.
  intros Hi Hcg. pose proof (windows_are i c g Hi Hcg) as Hw. apply eq_true_iff_eq.
  rewrite negb_true_iff, bool_decide_eq_false, bool_decide_eq_true. tauto.
Qed.

Lemma group_at_fun i c g c' g' : group_at i c g → group_at i c' g' → c = c' ∧ g = g'.
Proof. unfold group_at. intros [] []. naive_solver. Qed.

Notation pass := (lookup_pass query config lookup_groups sliding_window_groups num_tokens num_computed states).

Lemma lookup_pass_spec B0 base groups done looked s t :
  inv t → pass_inv B0 base done looked s →
  (∀ j, j ∈ done → j ∈ lookup_groups) → (∀ j, j ∈ groups → j ∈ lookup_groups) →
  ∃ o t', pass groups looked s t = Ret o t' ∧ inv t'
    ∧ match o with Some s' => ∃ looked', pass_inv B0 base (done ++ groups) looked' s' | None => True end.
Proof.
  revert done looked s t. induction groups as [|i groups IH]; intros done looked s t Ht Hinv Hdone Hgroups; cbn [lookup_pass].
  { exists (Some s), t. split; [done|]. split; [done|]. exists looked. by rewrite app_nil_r. }
  assert (i ∈ lookup_groups) as Hi by (apply Hgroups; by left).
  destruct (groups_ok i Hi) as (c & g & [Hc Hg] & Hok). rewrite Hc, Hg.
  rewrite assert_bind by (by apply Z.leb_le, Hok).
  destruct (Z.ltb_spec (Z.min (max_hit_size_tokens s) (zlen (offload_keys g) * offloaded_block_size c) - num_computed)
    (offloaded_block_size c)) as [|Hroom]; [by exists None, t|].
  set (mh := Z.min _ _) in *. pose proof (go_size c g Hok) as Hsize.
  destruct (lookup_group_spec c g mh t Ht Hok) as (hits & t1 & Hrun & Ht1 & Hhits); [lia|].
  rewrite bind_unfold, Hrun. case_bool_decide as Hz; [by exists None, t1|].
  fold (bound_after c mh hits). set (B := bound_after c mh hits) in *.
  assert (B ≤ mh) by (unfold B, bound_after; destruct hits; lia).
  destruct (Z.ltb_spec (B - num_computed) (offloaded_block_size c)) as [|Hroom']; [by exists None, t1|].
  rewrite (window_bool i c g) by done.
  destruct (IH (done ++ [i]) (looked || bool_decide (i ∈ sliding_window_groups))
    (after_group lookup_groups sliding_window_groups num_computed looked B
       (match hits with None => true | Some _ => deferred s end) s) t1) as (o & t' & Hrest & Ht' & Ho).
  - done.
  - apply after_group_inv; [done..|lia|lia| |].
    + intros Hd. destruct hits; [by apply Hinv|]. destruct Hhits as (k & Hk & Hr).
      exists g, k. split; [by eapply list_elem_of_lookup_2|done].
    + intros Hd. destruct hits as [n|]; [|done]. split; [done|]. intros c' g' Hcg.
      destruct (group_at_fun i c g c' g') as [<- <-]; [done|done|]. apply Hhits.
  - intros j [Hj| ->%list_elem_of_singleton]%elem_of_app; [by apply Hdone|done].
  - intros j Hj. apply Hgroups. by right.
  - exists o, t'. split; [exact Hrest|]. split; [done|]. destruct o; [|done]. by rewrite <-(assoc_L (++)) in Ho.
Qed.

(** At the head of the [while] loop. *)
Record head_inv (s : Search) : Prop := {
  hi_hits : num_hit_tokens s = 0 ∨ num_hit_tokens s = max_hit_size_tokens s - num_computed;
  hi_pending : deferred s = true → pending;
  hi_done : again s = [] → lookup_groups ≠ [] →
    num_hit_tokens s = max_hit_size_tokens s - num_computed ∧ 0 < num_hit_tokens s;
  hi_again : again s = lookup_groups ∨ again s = sliding_window_groups ∨ again s = [];
  hi_full : again s ≠ lookup_groups → deferred s = false →
    ∀ i, i ∈ lookup_groups → i ∉ sliding_window_groups → backed_at (max_hit_size_tokens s) i;
  hi_all : again s = [] → deferred s = false → ∀ i, i ∈ lookup_groups → backed_at (max_hit_size_tokens s) i
}.

(** A run over the groups leads from one head of the loop to the next. *)
Lemma pass_head s s' looked : head_inv s → again s ≠ [] →
  pass_inv (max_hit_size_tokens s) (λ _, again s ≠ lookup_groups) (again s) looked s' → head_inv s'.
Proof.
  intros [_ _ _ Hag Hfull _] Hne [_ Hh Hd _ _ Hp Hb].
  assert (lookup_groups ≠ []) as Hlg.
  { destruct Hag as [<-|[Hw|]]; [done| |done]. intros Hnil. destruct (again s) as [|i l] eqn:Ha; [done|].
    assert (i ∈ lookup_groups) as Hi by (apply windows_in; rewrite <-Hw; by left).
    rewrite Hnil in Hi. by apply elem_of_nil in Hi. }
  assert (∀ i, i ∈ lookup_groups → again s ≠ lookup_groups ∨ i ∈ again s) as Hbase.
  { intros i Hi. destruct (decide (again s = lookup_groups)) as [->|]; [by right|by left]. }
  split; try done.
  - intros _ _. apply Hd. done.
  - destruct Hb as [|[[|] _]]; auto.
  - intros Hn Hdf i Hi Hw. destruct Hb as [|[_ Hb]]; [done|]. destruct (Hb Hdf) as [Hb1 _]. by apply Hb1; auto.
  - intros Hn Hdf i Hi. destruct Hb as [Heq|[_ Hb]]; [congruence|]. destruct (Hb Hdf) as [Hb1 Hb2].
    destruct (decide (i ∈ sliding_window_groups)) as [Hw|Hw]; [|by apply Hb1; auto].
    apply (Hb2 Hn). by destruct Hag as [->|[->|?]].
Qed.

Lemma lookup_loop_spec fuel s t :
  inv t → head_inv s → (again s ≠ [] → (0 < fuel)%nat ∧ max_hit_size_tokens s - num_computed ≤ Z.of_nat fuel) →
  ∃ o t', lookup_loop query config lookup_groups sliding_window_groups num_tokens num_computed states fuel s t = Ret o t'
    ∧ inv t'
    ∧ match o with
      | Some s' => again s' = [] ∧ head_inv s' ∧ max_hit_size_tokens s' ≤ max_hit_size_tokens s
      | None => True
      end.
Proof.
  revert s t. induction fuel as [|fuel IH]; intros s t Ht Hs Hf; cbn [lookup_loop];
    destruct (again s) as [|i groups] eqn:Ha.
  - exists (Some s), t. repeat (split; [done|]). lia.
  - destruct Hf; [done|lia].
  - exists (Some s), t. repeat (split; [done|]). lia.
  - destruct Hf as [_ Hf]; [done|]. rewrite <-Ha in *.
    assert (again s ≠ []) as Hne by (by rewrite Ha).
    destruct (lookup_pass_spec (max_hit_size_tokens s) (λ _, again s ≠ lookup_groups) (again s) [] false
      (mkSearch (max_hit_size_tokens s) (num_hit_tokens s) (deferred s) []) t) as (o & t1 & Hrun & Ht1 & Ho).
    + done.
    + destruct Hs as [Hh Hp _ _ Hfull _]. split; cbn; try done; try lia.
      * split; [done|]. by intros (j & Hj%elem_of_nil & _).
      * right. split; [by left|]. intros Hdf. split; [|by intros _ j Hj%elem_of_nil].
        intros j Hj Hw [Hb|Hj'%elem_of_nil]; [by apply Hfull|done].
    + intros j Hj. by apply elem_of_nil in Hj.
    + intros j Hj. destruct (hi_again s Hs) as [<-|[Hw|]]; [done| |done]. apply windows_in. by rewrite <-Hw.
    + rewrite bind_unfold, Hrun. destruct o as [s1|]; [|by exists None, t1].
      destruct Ho as [looked Hinv]. cbn [app] in Hinv. pose proof (pass_head s s1 looked Hs Hne Hinv) as Hs1.
      destruct (IH s1 t1 Ht1 Hs1) as (o & t' & Hrest & Ht' & Ho).
      { intros Hag. destruct Hinv as [Hb _ Hd _ Hsh _ _]. specialize (Hsh Hag). specialize (Hd Hne). lia. }
      exists o, t'. split; [exact Hrest|]. split; [done|]. destruct o as [s'|]; [|done].
      destruct Ho as (? & ? & ?). repeat (split; [done|]). destruct Hinv. lia.
Qed.

Lemma lookup_outcome loading t : inv t → 0 ≤ num_tokens →
  ∃ res t', lookup query config lookup_groups sliding_window_groups num_tokens num_computed states loading t = Ret res t'
    ∧ inv t'
    ∧ match res with
      | Some n => n = 0 ∨ (0 < n ∧ num_computed + n ≤ num_tokens
                           ∧ ∀ i, i ∈ lookup_groups → backed_at (num_computed + n) i)
      | None => pending ∨ ∃ keys, loading = Some keys ∧ keys ≠ ∅
      end.
Proof.
  intros Ht Hn. unfold lookup. set (mh := if bool_decide _ then _ else _).
  assert (mh ≤ num_tokens) by (unfold mh; case_bool_decide; lia).
  destruct (lookup_loop_spec (S (Z.to_nat num_tokens)) (mkSearch mh 0 false lookup_groups) t)
    as (o & t' & Hrun & Ht' & Ho); [done| |cbn; lia|].
  { split; cbn; try done; try (by left). intros -> _ i Hi. by apply elem_of_nil in Hi. }
  rewrite bind_unfold, Hrun. destruct o as [s|]; [|exists (Some 0), t'; split; [done|]; split; [done|by left]].
  destruct Ho as (Hag & [Hh Hp Hd _ _ Hall] & Hle). cbn in Hle. destruct (deferred s) eqn:Hdf.
  { exists None, t'. split; [done|]. split; [done|]. left. by apply Hp. }
  assert (num_hit_tokens s = 0 ∨ (0 < num_hit_tokens s ∧ num_computed + num_hit_tokens s ≤ num_tokens
    ∧ ∀ i, i ∈ lookup_groups → backed_at (num_computed + num_hit_tokens s) i)) as Hres.
  { destruct Hh as [|Hh]; [by left|]. destruct (Z.leb_spec (num_hit_tokens s) 0).
    - destruct (decide (lookup_groups = [])) as [Hnil|Hne]; [|destruct (Hd Hag Hne); lia].
      destruct (Z.eqb_spec (num_hit_tokens s) 0); [by left|].
      exfalso. revert Hrun. unfold lookup_loop. cbn [again]. rewrite Hnil. intros [= <- _]. done.
    - right. split; [done|]. split; [lia|]. intros i Hi.
      replace (num_computed + num_hit_tokens s) with (max_hit_size_tokens s) by lia. by apply Hall. }
  destruct loading as [keys|]; [|by eexists _, t'].
  destruct (negb (bool_decide (keys = ∅)) && _) eqn:Hl; [|by eexists _, t'].
  exists None, t'. split; [done|]. split; [done|]. right. exists keys. split; [done|].
  apply andb_true_iff in Hl as [Hl%negb_true_iff _]. by apply bool_decide_eq_false in Hl.
Qed.
End lookups.

(** ** The connector's groups *)
Section connector.
Context {F P : Type} `{FloatOps F} `{CachePolicyLaws P}.
Implicit Types (m : CPUOffloadingManager P) (config : SchedulerOffloadConfig).

Lemma elem_of_indexed config i w :
  (i, w) ∈ imap (λ i c, (i, sliding_window_size_in_blocks c)) (kv_group_configs config) ↔
  ∃ c, kv_group_configs config !! i = Some c ∧ sliding_window_size_in_blocks c = w.
Proof.
  rewrite list_elem_of_lookup. setoid_rewrite list_lookup_imap. split.
  - intros [j Hj]. destruct (kv_group_configs config !! j) as [c|] eqn:Hc; cbn in Hj; [|done].
    injection Hj as <- <-. by exists c.
  - intros (c & Hc & Hw). exists i. rewrite Hc. cbn. by rewrite Hw.
Qed.

Lemma elem_of_windows config m caching i :
  i ∈ sliding_window_groups (connector_init config m caching) ↔
  ∃ c, kv_group_configs config !! i = Some c ∧ sliding_window_size_in_blocks c ≠ None.
Proof.
  cbn [sliding_window_groups connector_init]. rewrite list_elem_of_fmap. split.
  - intros ([j w] & -> & Hj%elem_of_py_sorted). apply list_elem_of_filter in Hj as [Hw Hj].
    apply elem_of_indexed in Hj as (c & Hc & <-). by exists c.
  - intros (c & Hc & Hw). exists (i, sliding_window_size_in_blocks c). split; [done|].
    apply elem_of_py_sorted, list_elem_of_filter. split; [done|]. apply elem_of_indexed. by exists c.
Qed.

Lemma elem_of_groups config m caching i :
  i ∈ lookup_groups (connector_init config m caching) ↔ is_Some (kv_group_configs config !! i).
Proof.
  cbn [lookup_groups connector_init]. rewrite elem_of_app.
  change (fst <$> py_sorted _ _) with (sliding_window_groups (connector_init config m caching)).
  rewrite elem_of_windows, list_elem_of_fmap. split.
  - intros [([j w] & -> & Hj)|(c & Hc & _)]; [|by exists c].
    apply list_elem_of_filter in Hj as [_ Hj]. apply elem_of_indexed in Hj as (c & Hc & _). by exists c.
  - intros [c Hc]. destruct (sliding_window_size_in_blocks c) as [w|] eqn:Hw.
    + right. exists c. by rewrite Hw.
    + left. exists (i, None). split; [done|]. apply list_elem_of_filter. split; [done|].
      apply elem_of_indexed. by exists c.
Qed.

(** What the manager answers about a key. *)
Definition ready_in m (k : OffloadKey) : option bool :=
  match block_of k m with
  | None => Some false
  | Some b => if is_ready b then Some true else None
  end.

Definition same_blocks m m' : Prop := ∀ k, block_of k m' = block_of k m.

Lemma track_blocks k j m : block_of j (track k m) = block_of j m.
Proof. unfold track. by destruct (counts m). Qed.

Lemma manager_lookup_ok m k m' : same_blocks m m' →
  ∃ m'', manager_lookup k m' = Ret (ready_in m k) m'' ∧ same_blocks m m''.
Proof.
  intros Hs. exists (track k m'). unfold manager_lookup, lookup_key, ready_in. rewrite track_blocks, Hs.
  split; [done|]. intros j. by rewrite track_blocks.
Qed.

(** Any query whose answers do not depend on the queries before it. *)
Lemma connector_lookup {T} (query : OffloadKey → M T (option bool)) ready (inv : T → Prop)
    config m caching num_tokens num_computed states loading t :
  (∀ k t, inv t → ∃ t', query k t = Ret (ready k) t' ∧ inv t') → inv t →
  let s := connector_init config m caching in
  0 ≤ num_computed → 0 ≤ num_tokens → Forall2 (group_ok num_tokens) (kv_group_configs config) states →
  ∃ res t', lookup query config (lookup_groups s) (sliding_window_groups s)
              num_tokens num_computed states loading t = Ret res t'
    ∧ inv t'
    ∧ match res with
      | Some n => n = 0 ∨ (0 < n ∧ num_computed + n ≤ num_tokens
          ∧ Forall2 (λ c g, backed ready num_computed c g (num_computed + n)) (kv_group_configs config) states)
      | None => pending ready states ∨ ∃ keys, loading = Some keys ∧ keys ≠ ∅
      end.
Proof.
  intros Hq Ht s Hc Hn Hok. destruct (lookup_outcome query ready inv Hq
    config (lookup_groups s) (sliding_window_groups s) num_tokens num_computed states Hc) with (loading := loading) (t := t)
    as (res & t' & Hrun & Hs & Hres).
  - intros i [c Hi]%elem_of_groups. destruct (Forall2_lookup_l _ _ _ _ _ Hok Hi) as (g & Hg & Hcg). by exists c, g.
  - intros i (c & Hi & _)%elem_of_windows. apply elem_of_groups. by exists c.
  - intros i c g Hi [Hci _]. unfold s. rewrite elem_of_windows. split; [intros (c' & Hc' & Hw); congruence|by exists c].
  - done.
  - done.
  - exists res, t'. split; [exact Hrun|]. split; [done|]. destruct res as [n|]; [|done].
    destruct Hres as [|(? & ? & Hall)]; [by left|]. right. split; [done|]. split; [done|].
    apply Forall2_same_length_lookup. split; [by eapply Forall2_length|].
    intros i c g Hci Hgi. apply (Hall i); [apply elem_of_groups; by exists c|done].
Qed.

(** C34.  Looking up what can be loaded for a request always ends and
    changes no block.  It never promises a token that is not there: when it
    answers with a positive number of tokens, every full-attention group has
    all its blocks up to the last of them ready in CPU memory, and every
    sliding-window group the last window before it.  It asks to be called
    again only when a block of the request is still being written, or while
    blocks are being loaded. *)
Theorem lookup_backed config m caching num_tokens num_computed states loading :
  let s := connector_init config m caching in
  0 ≤ num_computed → 0 ≤ num_tokens → Forall2 (group_ok num_tokens) (kv_group_configs config) states →
  ∃ res m', lookup manager_lookup config (lookup_groups s) (sliding_window_groups s)
              num_tokens num_computed states loading m = Ret res m'
    ∧ same_blocks m m'
    ∧ match res with
      | Some n => n = 0 ∨ (0 < n ∧ num_computed + n ≤ num_tokens
          ∧ Forall2 (λ c g, backed (ready_in m) num_computed c g (num_computed + n)) (kv_group_configs config) states)
      | None => pending (ready_in m) states ∨ ∃ keys, loading = Some keys ∧ keys ≠ ∅
      end.
Proof. apply (connector_lookup manager_lookup (ready_in m) (same_blocks m)); [apply manager_lookup_ok|by intros k]. Qed.
End connector.

(** ** A concrete lookup

    A full-attention group of three ready blocks and a group with a window of
    two blocks, the first of its three never stored. *)
Definition demo_groups : SchedulerOffloadConfig :=
  mkConfig [mkGroup 0 4 4 1 None None; mkGroup 1 4 4 1 (Some 2) None] 1 1.
Definition demo_states : list RequestGroupState :=
  [mkGroupState [[1]; [2]; [3]] [] 0 0; mkGroupState [[11]; [12]; [13]] [] 0 0].
Definition demo_stored : CPUOffloadingManager LRU.t :=
  let keys := [[1]; [2]; [3]; [12]; [13]] in
  out_state ((out ← prepare_store keys; complete_store keys true) (manager_init 8 false 0 0)).

Notation demo_lookup := (lookup manager_lookup demo_groups [0%nat; 1%nat] [1%nat] 13 0 demo_states None demo_stored).

Lemma lookup_backed_witness :
  ∃ m', demo_lookup = Ret (Some 12) m' ∧ same_blocks demo_stored m'
    ∧ Forall2 (λ c g, backed (ready_in demo_stored) 0 c g 12) (kv_group_configs demo_groups) demo_states.
Proof.
  destruct (lookup_backed demo_groups demo_stored true 13 0 demo_states None) as (res & m' & Hrun & Hs & Hres).
  - done.
  - done.
  - constructor; [|constructor; [|constructor]]; (split; [done|by vm_compute|by intros w [= <-]]) || (split; by vm_compute).
  - exists m'. assert (res = Some 12) as -> by (by vm_compute in Hrun; injection Hrun). split; [exact Hrun|].
    split; [exact Hs|]. destruct Hres as [|(_ & _ & Hb)]; [done|exact Hb].
Defined.
