(* ===== verification/Hoare.v ===== *)
(** * Hoare logic for the state-and-exception monad

    [wp c Q E s]: run from [s], the computation [c] either returns a value and
    a state satisfying [Q], or raises in a state satisfying [E]. *)
From S2P Require Import Prelude.

Section wp.
Context {S : Type}.
Implicit Types (s : S) (E : S → Prop).

Definition wp {A} (c : M S A) (Q : A → S → Prop) E s : Prop :=
  match c s with Ret a s' => Q a s' | Exc _ s' => E s' end.

Lemma wp_mono {A} (c : M S A) (Q Q' : A → S → Prop) E E' s :
  wp c Q E s → (∀ a s', Q a s' → Q' a s') → (∀ s', E s' → E' s') → wp c Q' E' s.
Proof. unfold wp. destruct (c s); auto. Qed.

Lemma wp_ret {A} (a : A) (Q : A → S → Prop) E s : Q a s → wp (mret a) Q E s.
Proof. done. Qed.

Lemma wp_raise {A} e (Q : A → S → Prop) E s : E s → wp (raise e) Q E s.
Proof. done. Qed.

Lemma wp_bind {A B} (c : M S A) (k : A → M S B) (Q : B → S → Prop) E s :
  wp c (λ a, wp (k a) Q E) E s → wp (c ≫= k) Q E s.
Proof. unfold wp. rewrite bind_unfold. by destruct (c s). Qed.

Lemma wp_get {B} (k : S → M S B) (Q : B → S → Prop) E s : wp (k s) Q E s → wp (get_state ≫= k) Q E s.
Proof. done. Qed.

Lemma wp_get_ret (Q : S → S → Prop) E s : Q s s → wp get_state Q E s.
Proof. done. Qed.

Lemma wp_modify f (Q : unit → S → Prop) E s : Q tt (f s) → wp (modify f) Q E s.
Proof. done. Qed.

Lemma wp_put s' (Q : unit → S → Prop) E s : Q tt s' → wp (put_state s') Q E s.
Proof. done. Qed.

Lemma wp_assert (b : bool) (Q : unit → S → Prop) E s : (b = true → Q tt s) → (b = false → E s) → wp (assertM b) Q E s.
Proof. intros H1 H2. destruct b; [by apply H1|by apply H2]. Qed.

Lemma wp_if {A} (b : bool) (c c' : M S A) (Q : A → S → Prop) E s :
  (b = true → wp c Q E s) → (b = false → wp c' Q E s) → wp (if b then c else c') Q E s.
Proof. destruct b; auto. Qed.

(** A loop keeps a property its body keeps, exceptions included. *)
Lemma wp_forM {A} (I : S → Prop) (body : A → M S unit) l s :
  I s → (∀ x s, x ∈ l → I s → wp (body x) (λ _, I) I s) → wp (forM l body) (λ _, I) I s.
Proof.
  revert s. induction l as [|x l IH]; intros s Hs Hb; cbn [forM]; [done|].
  apply wp_bind. eapply wp_mono; [apply Hb; [by left|done]| |done].
  intros [] s' Hs'. apply IH; [done|]. intros y s'' Hy. apply Hb. by right.
Qed.

(** The same when the body may raise in any state of [E]. *)
Lemma wp_forM_or {A} (I : S → Prop) (body : A → M S unit) E l s :
  I s → (∀ x s, x ∈ l → I s → wp (body x) (λ _, I) E s) → wp (forM l body) (λ _, I) E s.
Proof.
  revert s. induction l as [|x l IH]; intros s Hs Hb; cbn [forM]; [done|].
  apply wp_bind. eapply wp_mono; [apply Hb; [by left|done]| |done].
  intros [] s' Hs'. apply IH; [done|]. intros y s'' Hy. apply Hb. by right.
Qed.

(** A computation that returns, and what follows it. *)
Lemma wp_total {A} (c : M S A) (Q : A → S → Prop) s : wp c Q (λ _, False) s → ∃ a s', c s = Ret a s' ∧ Q a s'.
Proof. unfold wp. destruct (c s) as [a s'|]; [by exists a, s'|done]. Qed.

Lemma wp_Ret {A} (c : M S A) (Q : A → S → Prop) E s a s' : c s = Ret a s' → Q a s' → wp c Q E s.
Proof. unfold wp. by intros ->. Qed.

Lemma wp_out {A} (c : M S A) (I : S → Prop) s : wp c (λ _, I) I s → I (out_state (c s)).
Proof. unfold wp, out_state. by destruct (c s). Qed.
End wp.

Lemma wp_zoom {S T A} (get : S → T) (set : T → S → S) (c : M T A) (Q : A → S → Prop) E s :
  wp c (λ a t, Q a (set t s)) (λ t, E (set t s)) (get s) → wp (zoom get set c) Q E s.
Proof. unfold wp, zoom. by destruct (c (get s)). Qed.
