(* ===== verification/OffloadKeys.v ===== *)
(** * The keys a request is offloaded under

    Each group of the KV cache names its offloaded blocks by every [f]-th block
    hash of the request, tagged with the group index.  The keys are collected
    incrementally, as the request grows; they are those of the whole list of
    hashes, and no two of them are equal. *)
From S2P Require Import Prelude CachePolicy NativeOffload.
Import Offloading.
Local Open Scope Z_scope.

(** ** Every [f]-th element *)
Lemma lookup_stride {A} fuel step (l : list A) i :
  1 ≤ step → (length l ≤ fuel)%nat → stride fuel step l !! i = l !! (i * Z.to_nat step)%nat.
Proof.
  intros Hs. revert l i. induction fuel as [|fuel IH]; intros l i Hl.
  { destruct l; [by rewrite lookup_nil|cbn in Hl; lia]. }
  destruct l as [|x l]; [by rewrite lookup_nil|]. destruct i as [|i]; [done|].
  transitivity (stride fuel step (drop (Z.to_nat step) (x :: l)) !! i); [done|].
  rewrite IH, lookup_drop by (rewrite length_drop; cbn in *; lia). done.
Qed.

Lemma lookup_islice {A} start step (l : list A) i :
  0 ≤ start → 1 ≤ step → islice start step l !! i = l !! Z.to_nat (start + Z.of_nat i * step).
Proof. intros. unfold islice. rewrite lookup_stride, lookup_drop by done. f_equal. lia. Qed.

Lemma islice_drop {A} start step n (l : list A) :
  0 ≤ start → 1 ≤ step → drop n (islice start step l) = islice (step * Z.of_nat n + start) step l.
Proof.
  intros. apply list_eq. intros i. rewrite lookup_drop, !lookup_islice by lia. f_equal. lia.
Qed.

Lemma islice_NoDup {A} start step (l : list A) : 0 ≤ start → 1 ≤ step → NoDup l → NoDup (islice start step l).
Proof.
  intros ? ? Hl. apply NoDup_alt. intros i j x. rewrite !lookup_islice by done. intros Hi Hj.
  pose proof (proj1 (NoDup_alt l) Hl _ _ _ Hi Hj). nia.
Qed.

Lemma islice_prefix {A} start step (l l' : list A) i x :
  0 ≤ start → 1 ≤ step → l `prefix_of` l' → islice start step l !! i = Some x → islice start step l' !! i = Some x.
Proof. intros ? ? Hp. rewrite !lookup_islice by done. intros. by eapply prefix_lookup_Some. Qed.

(** ** Keys *)
Lemma offload_key_fields h g k :
  make_offload_key h g = Some k → get_offload_block_hash k = h ∧ get_offload_group_idx k = g.
Proof.
  unfold make_offload_key. intros (bs & (_ & Hlen & Hval)%to_bytes4_spec & ->)%fmap_Some.
  unfold get_offload_block_hash, get_offload_group_idx. rewrite length_app, Hlen, Nat.add_sub.
  by rewrite take_app_length, drop_app_length.
Qed.

(** The offload keys of a whole list of hashes, in one go. *)
Definition all_keys (c : GroupOffloadConfig) (hashes : list (list Z)) : option (list OffloadKey) :=
  let f := hash_block_size_factor c in
  mapM (λ h, make_offload_key h (group_idx c)) (islice (f - 1) f hashes).

(** The keys of the first blocks. *)
Definition keys_of (c : GroupOffloadConfig) (hashes : list (list Z)) (ks : list OffloadKey) : Prop :=
  let f := hash_block_size_factor c in
  ks = [] ∨ 1 ≤ f ∧ mapM (λ h, make_offload_key h (group_idx c)) (take (length ks) (islice (f - 1) f hashes)) = Some ks.

Lemma keys_of_lookup c hashes ks i k :
  keys_of c hashes ks → ks !! i = Some k →
  1 ≤ hash_block_size_factor c
  ∧ ∃ h, islice (hash_block_size_factor c - 1) (hash_block_size_factor c) hashes !! i = Some h
         ∧ make_offload_key h (group_idx c) = Some k.
Proof.
  intros [->|[Hf Hm]] Hk; [done|]. split; [done|]. apply mapM_Some in Hm.
  destruct (Forall2_lookup_r _ _ _ i k Hm Hk) as (h & Hh & Hmk). exists h. split; [|done].
  by apply lookup_take_Some in Hh as [Hh _].
Qed.

Lemma keys_of_intro c hashes ks :
  1 ≤ hash_block_size_factor c →
  (∀ i k, ks !! i = Some k → ∃ h, islice (hash_block_size_factor c - 1) (hash_block_size_factor c) hashes !! i = Some h
         ∧ make_offload_key h (group_idx c) = Some k) → keys_of c hashes ks.
Proof.
  intros Hf Hall. right. split; [done|]. apply mapM_Some, Forall2_same_length_lookup.
  set (l := islice _ _ hashes) in *. assert (length ks ≤ length l)%nat as Hlen.
  { destruct (decide (length ks = 0%nat)); [lia|]. destruct (lookup_lt_is_Some_2 ks (length ks - 1)) as [k Hk]; [lia|].
    destruct (Hall _ _ Hk) as (h & Hh & _). apply lookup_lt_Some in Hh. lia. }
  split; [rewrite length_take; lia|]. intros i h k Hh Hk. apply lookup_take_Some in Hh as [Hh _].
  destruct (Hall i k Hk) as (h' & Hh' & Hmk). congruence.
Qed.

Lemma keys_of_prefix c hashes hashes' ks : hashes `prefix_of` hashes' → keys_of c hashes ks → keys_of c hashes' ks.
Proof.
  intros Hp Hk. destruct (decide (ks = [])) as [->|Hne]; [by left|]. destruct Hk as [|[Hf Hm]]; [done|].
  apply keys_of_intro; [done|]. intros i k Hi. destruct (keys_of_lookup c hashes ks i k) as (_ & h & Hh & Hmk); [by right|done|].
  exists h. split; [|done]. eapply islice_prefix; [| |done..]; lia.
Qed.

Lemma keys_of_NoDup c hashes ks : NoDup hashes → keys_of c hashes ks → NoDup ks.
Proof.
  intros Hnd Hk. apply NoDup_alt. intros i j k Hi Hj.
  destruct (keys_of_lookup _ _ _ _ _ Hk Hi) as (Hf & h & Hh & Hmk).
  destruct (keys_of_lookup _ _ _ _ _ Hk Hj) as (_ & h' & Hh' & Hmk').
  apply offload_key_fields in Hmk as [<- _], Hmk' as [<- _].
  apply (proj1 (NoDup_alt _) (islice_NoDup (hash_block_size_factor c - 1) (hash_block_size_factor c) hashes ltac:(lia) Hf Hnd) _ _ _ Hh Hh').
Qed.

Lemma keys_of_group c hashes ks k : keys_of c hashes ks → k ∈ ks → get_offload_group_idx k = group_idx c.
Proof.
  intros Hk [i Hi]%list_elem_of_lookup. destruct (keys_of_lookup _ _ _ _ _ Hk Hi) as (_ & h & _ & Hmk).
  by apply offload_key_fields in Hmk as [_ ?].
Qed.

(** [update_offload_keys] on one group *)
Lemma new_offload_keys_spec c hashes g g' :
  keys_of c hashes (offload_keys g) → new_offload_keys hashes c g = Some g' →
  all_keys c hashes = Some (offload_keys g') ∧ keys_of c hashes (offload_keys g')
  ∧ block_ids g' = block_ids g ∧ next_stored_block_idx g' = next_stored_block_idx g.
Proof.
  intros Hk. unfold new_offload_keys. set (f := hash_block_size_factor c). destruct (Z.ltb_spec f 1); [done|].
  intros (new & Hnew & [= <-])%bind_Some. cbn.
  set (l := islice (f - 1) f hashes). set (n := length (offload_keys g)).
  assert (islice (f * zlen (offload_keys g) + f - 1) f hashes = drop n l) as Hdrop.
  { unfold l, n. rewrite islice_drop by lia. unfold zlen. f_equal. lia. }
  rewrite Hdrop in Hnew. assert (mapM (λ h, make_offload_key h (group_idx c)) (take n l) = Some (offload_keys g)) as Hold.
  { destruct Hk as [Hk|[_ Hk]]; [|done]. unfold n. by rewrite Hk. }
  assert (all_keys c hashes = Some (offload_keys g ++ new)) as Hall.
  { unfold all_keys. fold f l. apply mapM_Some. rewrite <- (take_drop n l). apply Forall2_app; by apply mapM_Some. }
  split; [done|]. split; [|done]. right. split; [lia|]. fold f l. rewrite take_ge; [done|].
  apply length_mapM in Hall. fold f l in Hall. lia.
Qed.

(** ** A request's groups

    Its keys are those of its block hashes, group by group, and apart from the
    null block no GPU block appears twice in its tables. *)
Definition nonzero (l : list nat) : list nat := filter (λ b, b ≠ 0%nat) l.
Definition group_keys (r : RequestOffloadState) : list (list OffloadKey) := offload_keys <$> group_states r.
Definition group_blocks (r : RequestOffloadState) : list (list nat) := block_ids <$> group_states r.

(** Progress counters never go below zero. *)
Record counts_ok (r : RequestOffloadState) : Prop := {
  cn_next : Forall (λ g, 0 ≤ next_stored_block_idx g) (group_states r);
  cn_local : 0 ≤ num_locally_computed_tokens r
}.

Record req_ok (c : SchedulerOffloadConfig) (hashes : list (list Z)) (r : RequestOffloadState) : Prop := {
  ro_keys : Forall2 (λ cg ks, keys_of cg hashes ks) (kv_group_configs c) (group_keys r);
  ro_blocks : NoDup (nonzero (concat (group_blocks r)));
  ro_counts : counts_ok r
}.

(** Changes that leave the keys and the blocks as they are. *)
Record same_shape (r r' : RequestOffloadState) : Prop := {
  sh_keys : group_keys r' = group_keys r;
  sh_blocks : group_blocks r' = group_blocks r;
  sh_counts : counts_ok r → counts_ok r'
}.

Lemma req_ok_shape c hs r r' : req_ok c hs r → same_shape r r' → req_ok c hs r'.
Proof. intros [] []. split; [congruence..|auto]. Qed.

Lemma same_shape_refl r : same_shape r r.
Proof. by split. Qed.

Lemma same_shape_jobs r v : same_shape r (put_transfer_jobs v r).
Proof. split; [done..|]. by intros []. Qed.

Lemma same_shape_local r n : 0 ≤ n → same_shape r (put_local n r).
Proof. split; [done..|]. by intros []. Qed.

Record config_ok (c : SchedulerOffloadConfig) : Prop := {
  cf_workers : 0 < num_workers c;
  cf_factor : 0 ≤ block_size_factor c;
  cf_sizes : Forall (λ g, 0 < offloaded_block_size g) (kv_group_configs c);
  cf_groups : NoDup (group_idx <$> kv_group_configs c)
}.

Lemma req_ok_prefix c hs hs' r : hs `prefix_of` hs' → req_ok c hs r → req_ok c hs' r.
Proof. intros Hp [Hk Hb Hc]. split; [|done..]. eapply Forall2_impl; [exact Hk|]. intros. by eapply keys_of_prefix. Qed.

Lemma req_ok_length c hs r : req_ok c hs r → length (kv_group_configs c) = length (group_states r).
Proof. intros [Hk _ _]. apply Forall2_length in Hk. unfold group_keys in Hk. by rewrite length_fmap in Hk. Qed.

Lemma fmap_zip_with_same {A B C} (f : A → B) (put : C → A → A) (cs : list C) (gs : list A) :
  (∀ c g, f (put c g) = f g) → length cs = length gs → f <$> zip_with put cs gs = f <$> gs.
Proof.
  intros Hf. revert gs. induction cs as [|c cs IH]; intros [|g gs] Hl; cbn in *; try done. rewrite Hf. f_equal. apply IH. lia.
Qed.

Lemma fmap_alter_same {A B} (f : A → B) (put : A → A) i (gs : list A) :
  (∀ g, f (put g) = f g) → f <$> alter put i gs = f <$> gs.
Proof. intros Hf. revert i. induction gs as [|g gs IH]; intros [|i]; cbn; try done; f_equal; auto. Qed.

Lemma new_state_ok c hs : req_ok c hs (new_request_state c).
Proof.
  split; unfold group_keys, group_blocks, new_request_state; cbn; rewrite <- ?list_fmap_compose; cbn.
  - induction (kv_group_configs c); cbn; [done|]. constructor; [by left|done].
  - induction (kv_group_configs c); cbn; [apply NoDup_nil_2|done].
  - split; cbn; [|done]. by apply Forall_fmap, Forall_true.
Qed.

Lemma cleared_ok c hs r : req_ok c hs r → req_ok c hs (put_groups (put_block_ids [] <$> group_states r) r).
Proof.
  intros [Hk Hb [Hn Hl]]. split; unfold group_keys, group_blocks in *; cbn; rewrite <- ?list_fmap_compose; [done|..].
  - clear. induction (group_states r); cbn; [apply NoDup_nil_2|done].
  - split; [|done]. by apply Forall_fmap.
Qed.

Lemma cleared_blocks r : concat (group_blocks (put_groups (put_block_ids [] <$> group_states r) r)) = [].
Proof. unfold group_blocks. cbn. by induction (group_states r). Qed.

Lemma Forall_zip_with {A B C} (f : A → B → C) (Q : A → Prop) (P : B → Prop) (R : C → Prop) l k :
  (∀ x y, Q x → P y → R (f x y)) → Forall Q l → Forall P k → Forall R (zip_with f l k).
Proof.
  intros Hf Hl. revert k. induction Hl as [|x l Hx _ IH]; intros k Hk; [constructor|].
  destruct Hk; cbn; [constructor|]. constructor; auto.
Qed.

Lemma advance_ok c hs n r : config_ok c → 0 ≤ n → req_ok c hs r → req_ok c hs (advance_stored_idx c n r).
Proof.
  intros Hc Hn Hr. pose proof (req_ok_length _ _ _ Hr). eapply req_ok_shape; [exact Hr|].
  split; [by apply fmap_zip_with_same..|]. intros [Hx Hl]. split; [|done]. cbn.
  eapply Forall_zip_with; [|apply Hc|exact Hx]. cbn. intros. by apply Z.div_pos.
Qed.

Lemma num_hit_ok c hs n r : req_ok c hs r → req_ok c hs (update_num_hit_blocks c n r).
Proof.
  intros Hr. pose proof (req_ok_length _ _ _ Hr). eapply req_ok_shape; [exact Hr|].
  split; [by apply fmap_zip_with_same..|]. intros [Hx Hl]. split; [|done]. cbn.
  eapply (Forall_zip_with _ (λ _, True)); [|by apply Forall_true|exact Hx]. done.
Qed.

Lemma alter_next_shape i n r : 0 ≤ n → same_shape r (put_groups (alter (put_next_stored n) i (group_states r)) r).
Proof.
  intros Hn. split; [by apply fmap_alter_same..|]. intros [Hx Hl]. split; [|done]. by apply Forall_alter.
Qed.

(** The blocks a step adds to the tables of a request. *)
Lemma appended_blocks gs new :
  length new = length gs →
  concat (block_ids <$> zip_with (λ g n, put_block_ids (block_ids g ++ n) g) gs new)
    ≡ₚ concat (block_ids <$> gs) ++ concat new.
Proof.
  revert new. induction gs as [|g gs IH]; intros [|n new] Hl; cbn in *; try done.
  rewrite IH by lia. solve_Permutation.
Qed.

Lemma update_blocks_ok c hs new r r' :
  req_ok c hs r → update_block_id_groups (Some new) r = Some r' →
  NoDup (nonzero (concat (group_blocks r) ++ concat new)) →
  req_ok c hs r' ∧ transfer_jobs r' = transfer_jobs r.
Proof.
  intros [Hk Hb [Hn Hlo]]. cbn. destruct (Nat.eqb_spec (length new) (length (group_states r))) as [Hl|]; [|done].
  intros [= <-] Hnd. split; [|done]. split; unfold group_keys, group_blocks in *; cbn.
  - enough (offload_keys <$> zip_with (λ g n, put_block_ids (block_ids g ++ n) g) (group_states r) new
            = offload_keys <$> group_states r) as -> by done.
    clear -Hl. revert new Hl. induction (group_states r) as [|g gs IH]; intros [|n new] Hl; cbn in *; try done.
    f_equal. apply IH. lia.
  - unfold nonzero in *. by rewrite appended_blocks.
  - split; [|done]. cbn. eapply (Forall_zip_with _ _ (λ _, True)); [|exact Hn|by apply Forall_true]. done.
Qed.

(** [update_offload_keys]: the keys are then those of all the hashes. *)
Lemma update_keys_spec c hs r r' :
  req_ok c hs r → update_offload_keys c hs r = Some r' →
  req_ok c hs r' ∧ transfer_jobs r' = transfer_jobs r ∧ group_blocks r' = group_blocks r
  ∧ mapM (λ cg, all_keys cg hs) (kv_group_configs c) = Some (group_keys r').
Proof.
  intros [Hk Hb [Hn Hlo]]. unfold update_offload_keys. intros (gs & Hgs & ->)%fmap_Some. cbn [transfer_jobs put_groups].
  unfold group_keys, group_blocks in *. cbn [group_states put_groups].
  enough (Forall2 (λ cg ks, keys_of cg hs ks) (kv_group_configs c) (offload_keys <$> gs)
    ∧ block_ids <$> gs = block_ids <$> group_states r
    ∧ next_stored_block_idx <$> gs = next_stored_block_idx <$> group_states r
    ∧ mapM (λ cg, all_keys cg hs) (kv_group_configs c) = Some (offload_keys <$> gs)) as (H1 & H2 & Hnx & H3).
  { split; [split; unfold group_keys, group_blocks; cbn; [done|by rewrite H2|]|done]. split; [|done]. cbn.
    change (Forall ((λ n, 0 ≤ n) ∘ next_stored_block_idx) gs). apply Forall_fmap. rewrite Hnx. by apply Forall_fmap. }
  clear Hb Hn Hlo. revert gs Hk Hgs. generalize (group_states r) as old. induction (kv_group_configs c) as [|cg cgs IH].
  - intros old gs Hk. destruct old; [|by inversion Hk]. cbn. intros [= <-]. split; [constructor|done].
  - intros old gs Hk. destruct old as [|g old]; [by inversion Hk|]. cbn in Hk. apply Forall2_cons in Hk as [Hg Hk]. cbn.
    intros (g' & Hg' & (gs' & Hgs' & [= <-])%bind_Some)%bind_Some.
    destruct (new_offload_keys_spec _ _ _ _ Hg Hg') as (Ha & Hk' & Hbl & Hnx).
    destruct (IH old gs' Hk Hgs') as (H1 & H2 & H3 & H4). cbn. split; [by constructor|]. split; [congruence|]. split; [congruence|].
    by rewrite Ha; cbn; rewrite H4.
Qed.

Lemma elem_of_concat {A} (x : A) ls : x ∈ concat ls ↔ ∃ l, l ∈ ls ∧ x ∈ l.
Proof. rewrite list_elem_of_In, in_concat. by setoid_rewrite list_elem_of_In. Qed.

(** No two keys of a request are equal. *)
(** Keys of different groups, and of different blocks of a group, differ. *)
Lemma groups_keys_NoDup cgs hs kss :
  NoDup (group_idx <$> cgs) → NoDup hs → Forall2 (λ cg ks, keys_of cg hs ks) cgs kss → NoDup (concat kss).
Proof.
  intros Hg Hnd Hk. revert kss Hg Hk.
  induction cgs as [|cg cgs IH]; intros kss Hg Hk; inversion Hk as [|? ks ? kss' Hks Hkss]; subst; cbn.
  { apply NoDup_nil_2. }
  cbn in Hg. apply NoDup_cons in Hg as [Hng Hg]. apply NoDup_app. split; [by eapply keys_of_NoDup|]. split; [|by apply IH].
  intros k Hin (ks' & Hks' & Hin')%elem_of_concat. apply Hng. apply list_elem_of_lookup in Hks' as [i Hi].
  destruct (Forall2_lookup_r _ _ _ _ _ Hkss Hi) as (cg' & Hcg & Hkeys).
  apply list_elem_of_fmap. exists cg'. split; [|by apply list_elem_of_lookup_2 in Hcg].
  rewrite <- (keys_of_group _ _ _ _ Hks Hin). by rewrite (keys_of_group _ _ _ _ Hkeys Hin').
Qed.

Lemma req_keys_NoDup c hs r :
  NoDup (group_idx <$> kv_group_configs c) → NoDup hs → req_ok c hs r → NoDup (concat (group_keys r)).
Proof. intros Hg Hnd [Hk _ _]. by eapply groups_keys_NoDup. Qed.
