(* ===== verification/OffloadRefs.v ===== *)
(** * References of CPU blocks under the manager's calls

    What loads and stores do to the reference counts, on every outcome, as
    rules of the Hoare logic: the part of the CPU offloading manager the
    connector's bookkeeping of transfer jobs rests on. *)
From S2P Require Import Prelude Hoare PyFloat CachePolicy CPUManager.
Local Open Scope Z_scope.

(** ** What the manager's calls do to the blocks *)
Section manager.
Context {P : Type} `{CachePolicyLaws P}.
Implicit Types m : CPUOffloadingManager P.

(** No reference count is about to wrap. *)
Definition room m : Prop := ∀ k b, block_of k m = Some b → CachePolicy.ref_cnt b < int32_max.

Lemma ref_of_incr k j m : mgr_wf m →
  ref_of j (alter_block incr_ref k m) = if decide (k = j) then (λ z, wrap32 (z + 1)) <$> ref_of j m else ref_of j m.
Proof.
  intros Hw. unfold ref_of. rewrite alter_block_of by apply Hw. repeat case_decide; try done. by destruct (block_of j m).
Qed.

Lemma ref_of_decr k j m : mgr_wf m →
  ref_of j (alter_block decr_ref k m) = if decide (k = j) then (λ z, wrap32 (z - 1)) <$> ref_of j m else ref_of j m.
Proof.
  intros Hw. unfold ref_of. rewrite alter_block_of by apply Hw. repeat case_decide; try done. by destruct (block_of j m).
Qed.

(** [prepare_load]: one more reference for each key as far as it gets, and for
    all of them when it returns. *)
Lemma prepare_load_wp ks m : mgr_wf m → room m → NoDup ks →
  wp (prepare_load ks)
    (λ _ m', mgr_wf m' ∧ (∀ k, k ∈ ks → ∃ z, ref_of k m = Some z ∧ 0 ≤ z ∧ ref_of k m' = Some (z + 1))
             ∧ ∀ k, k ∉ ks → ref_of k m' = ref_of k m)
    (λ m', mgr_wf m' ∧ ∀ k, ref_of k m' = ref_of k m
             ∨ k ∈ ks ∧ ∃ z, ref_of k m = Some z ∧ 0 ≤ z ∧ ref_of k m' = Some (z + 1)) m.
Proof.
  intros Hw Hroom Hnd. assert (∀ k, k ∈ ks → ∀ z, ref_of k m = Some z → z < int32_max) as Hr.
  { intros k _ z Hz. unfold ref_of in Hz. destruct (block_of k m) as [b|] eqn:Hb; [|done].
    injection Hz as <-. by apply (Hroom k). }
  clear Hroom. revert m Hw Hr. induction ks as [|k ks IH]; intros m Hw Hr; cbn [prepare_load].
  { apply wp_ret. split; [done|]. split; [|done]. intros j Hj. by apply elem_of_nil in Hj. }
  apply NoDup_cons in Hnd as [Hk Hnd]. apply wp_get.
  destruct (block_of k m) as [b|] eqn:Hb; [|apply wp_raise; split; [done|by left]].
  assert (ref_of k m = Some (CachePolicy.ref_cnt b)) as Hrk by (unfold ref_of; by rewrite Hb).
  apply wp_bind, wp_assert; [intros Hready|intros _; split; [done|by left]]. apply wp_bind, wp_modify.
  unfold is_ready in Hready. apply Z.leb_le in Hready. pose proof (Hr k ltac:(by left) _ Hrk) as Hlt.
  assert (∀ j, ref_of j (alter_block incr_ref k m) = if decide (k = j) then Some (CachePolicy.ref_cnt b + 1) else ref_of j m) as Hinc.
  { intros j. rewrite ref_of_incr by done. case_decide as Hkj; [|done]. subst. rewrite Hrk. cbn. f_equal.
    apply wrap32_id. unfold is_int32, int32_max in *. lia. }
  apply wp_bind. eapply wp_mono; [apply IH| |].
  - done.
  - by apply incr_wf.
  - intros j Hj z. rewrite Hinc, decide_False by (by intros ->). apply Hr. by right.
  - intros ids m' (Hw' & Hin & Hout). apply wp_ret. split; [done|]. split.
    + intros j [->|Hj]%elem_of_cons.
      * exists (CachePolicy.ref_cnt b). split; [done|]. split; [done|]. by rewrite Hout, Hinc, decide_True.
      * specialize (Hin j Hj). by rewrite Hinc, decide_False in Hin by (by intros ->).
    + intros j Hj. rewrite Hout, Hinc, decide_False; [done| |]; intros ?; apply Hj; [subst; by left|by right].
  - intros m' [Hw' Hout]. split; [done|]. intros j. destruct (decide (k = j)) as [<-|Hne].
    + right. split; [by left|]. destruct (Hout k) as [He|[Hin _]]; [|done].
      rewrite Hinc, decide_True in He by done. by exists (CachePolicy.ref_cnt b).
    + destruct (Hout j) as [He|[Hin He]]; rewrite Hinc, decide_False in He by done; [by left|].
      right. split; [by right|done].
Qed.

(** [complete_load] gives the references back. *)
Lemma complete_load_wp ks m : mgr_wf m → NoDup ks → (∀ k, k ∈ ks → ∃ z, ref_of k m = Some z ∧ 0 < z) →
  wp (complete_load ks)
    (λ _ m', mgr_wf m' ∧ ∀ k, ref_of k m' = if decide (k ∈ ks) then Z.pred <$> ref_of k m else ref_of k m)
    (λ _, False) m.
Proof.
  revert m. induction ks as [|k ks IH]; intros m Hw Hnd Hks; cbn [complete_load].
  { apply wp_ret. split; [done|]. intros k. rewrite decide_False; [done|]. apply not_elem_of_nil. }
  apply NoDup_cons in Hnd as [Hk Hnd]. destruct (Hks k ltac:(by left)) as (z & Hz & Hpos). apply wp_get.
  assert (releasable m k = true) as Hrel.
  { unfold releasable. unfold ref_of in Hz. destruct (block_of k m); [|done]. injection Hz as ->. by apply Z.ltb_lt. }
  assert (is_int32 z) as Hint.
  { unfold ref_of in Hz. destruct (block_of k m) as [b|] eqn:Hb; [|done]. injection Hz as <-.
    rewrite block_of_resident in Hb. apply od_get_elem in Hb. pose proof (wf_refs m Hw) as Hr.
    rewrite Forall_forall in Hr. apply (Hr _ Hb). }
  apply wp_bind, wp_assert; [intros _|by rewrite Hrel]. apply wp_bind, wp_modify.
  assert (∀ j, ref_of j (alter_block decr_ref k m) = if decide (k = j) then Some (z - 1) else ref_of j m) as Hdec.
  { intros j. rewrite ref_of_decr by done. case_decide as Hkj; [|done]. subst. rewrite Hz. cbn. f_equal.
    apply wrap32_id. unfold is_int32, int32_max in *. lia. }
  eapply wp_mono; [apply IH|..].
  - by apply decr_wf.
  - done.
  - intros j Hj. rewrite Hdec, decide_False by (by intros ->). apply Hks. by right.
  - cbn beta. intros _ m' [Hw' Hm']. split; [done|]. intros j. rewrite Hm'. rewrite Hdec.
    destruct (decide (k = j)) as [<-|Hne].
    + rewrite decide_False, decide_True by (done || by left). by rewrite Hz.
    + destruct (decide (j ∈ ks)); [rewrite decide_True by (by right)|rewrite decide_False; [done|]]; [done|].
      intros [|]%elem_of_cons; [by subst|done].
  - done.
Qed.

(** [complete_store] publishes the keys that were being written. *)
Lemma complete_store_wp ks m : mgr_wf m →
  wp (complete_store ks true)
    (λ _ m', mgr_wf m' ∧ ∀ k, ref_of k m' = (λ z, if bool_decide (k ∈ ks) && (z <? 0) then 0 else z) <$> ref_of k m)
    (λ _, False) m.
Proof.
  intros Hw. unfold complete_store. apply wp_get. destruct (complete_ok_spec ks [] m Hw) as [Hw' Hb].
  destruct (complete_ok ks [] m) as [stored m'] eqn:Hrun. cbn [snd] in *. apply wp_put.
  set (m'' := match stored with [] => m' | _ => append_event (mkEvent stored false) m' end).
  assert (mgr_wf m'' ∧ ∀ k, block_of k m'' = block_of k m') as [Hw'' Hm''].
  { unfold m''. destruct stored; [done|]. unfold append_event. destruct (events m'); [|done].
    split; [by apply mgr_wf_set_events|done]. }
  split; [done|]. intros k. unfold ref_of. rewrite Hm'', Hb. destruct (block_of k m) as [b|]; cbn; [|done]. f_equal.
  unfold is_ready. destruct (Z.leb_spec 0 (CachePolicy.ref_cnt b)).
  - rewrite decide_False by (by intros [_ ?]). rewrite (proj2 (Z.ltb_ge _ _)), andb_false_r by done. done.
  - rewrite (proj2 (Z.ltb_lt _ _)), andb_true_r by done. case_bool_decide as Hk.
    + by rewrite decide_True.
    + rewrite decide_False; [done|]. by intros [? _].
Qed.

(** [prepare_store]: what it writes was absent, what it evicts unreferenced. *)
Lemma prepare_store_wp ks m : mgr_wf m → NoDup ks →
  wp (prepare_store ks)
    (λ o m', mgr_wf m' ∧ ∀ k, 
       match o with
       | Some out => if decide (k ∈ keys_to_store out) then ref_of k m = None ∧ ref_of k m' = Some (-1)
                     else ref_of k m' = ref_of k m ∨ ref_of k m = Some 0 ∧ ref_of k m' = None
       | None => ref_of k m' = ref_of k m
       end)
    (λ _, False) m.
Proof.
  intros Hw Hnd. destruct (prepare_store_spec ks m Hw Hnd) as [(Hrun & _)|(out & m' & Hrun & Hst)].
  - eapply wp_Ret; [exact Hrun|]. by split.
  - eapply wp_Ret; [exact Hrun|]. split; [by apply Hst|]. intros k.
    pose proof (stored_block_of ks m out m' k Hw Hnd Hst) as Hb. unfold ref_of. rewrite Hb.
    destruct (decide (k ∈ keys_to_store out)) as [Hk|Hk]; rewrite (stored_keys _ _ _ _ Hst) in Hk.
    + pose proof Hk as [_ Hnone]%store_todo_missing. rewrite Hnone. split; [done|].
      match goal with |- context [new_block <$> ?o] => destruct o eqn:Hz end; [done|].
      apply od_get_None in Hz. rewrite od_keys_zip in Hz; [done|]. symmetry. apply Hst.
    + destruct (block_of k m) as [b|] eqn:Hkb.
      * destruct (decide (k ∈ evicted_keys out)) as [He|He]; [|by left].
        right. destruct (evicted_evictable ks m out m' k Hw Hst He) as (_ & b' & Hb' & Hz). split; [cbn; congruence|done].
      * left. match goal with |- context [new_block <$> ?o] => destruct o eqn:Hz end; [|done].
        apply od_get_elem, elem_of_zip_l in Hz. done.
Qed.
End manager.

(** ** Changes that keep what is in use

    No reference in use is dropped and no block being written changes. *)
Section kept.
Context {P : Type} `{CachePolicyLaws P}.
Implicit Types m : CPUOffloadingManager P.

Definition refs_kept (m m' : CPUOffloadingManager P) : Prop :=
  ∀ k z, ref_of k m = Some z →
    (z < 0 → ref_of k m' = Some z) ∧ (0 < z → ∃ z', ref_of k m' = Some z' ∧ z ≤ z').

Lemma refs_kept_eq m m' : (∀ k, ref_of k m' = ref_of k m) → refs_kept m m'.
Proof. intros He k z Hz. rewrite He. split; [done|]. intros _. by exists z. Qed.

Lemma refs_kept_trans m1 m2 m3 : refs_kept m1 m2 → refs_kept m2 m3 → refs_kept m1 m3.
Proof.
  intros H12 H23 k z Hz. destruct (H12 k z Hz) as [Hneg Hpos]. split.
  - intros Hlt. by apply (H23 k z (Hneg Hlt)).
  - intros Hlt. destruct (Hpos Hlt) as (z' & Hz' & Hle). destruct (H23 k z' Hz') as [_ Hp].
    destruct Hp as (z'' & Hz'' & Hle'); [lia|]. exists z''. split; [done|lia].
Qed.

(** No block enters, and no count rises above what it was. *)
Record refs_capped (m m' : CPUOffloadingManager P) : Prop := {
  rc_capped k z' : ref_of k m' = Some z' → ∃ z, ref_of k m = Some z ∧ z' ≤ Z.max 0 z;
  rc_ready k z : ref_of k m = Some z → 0 ≤ z → ∃ z', ref_of k m' = Some z' ∧ 0 ≤ z'
}.

Lemma refs_capped_refl m : refs_capped m m.
Proof. split; intros k z Hz; exists z; (split; [done|lia]). Qed.

Lemma refs_capped_trans m1 m2 m3 : refs_capped m1 m2 → refs_capped m2 m3 → refs_capped m1 m3.
Proof.
  intros [H12 R12] [H23 R23]. split.
  - intros k z3 Hz3. destruct (H23 k z3 Hz3) as (z2 & Hz2 & ?). destruct (H12 k z2 Hz2) as (z1 & Hz1 & ?).
    exists z1. split; [done|lia].
  - intros k z Hz Hle. destruct (R12 k z Hz Hle) as (z2 & Hz2 & Hle2). by apply (R23 k z2).
Qed.

(** The blocks of [ks] can be read. *)
Definition readable (ks : gset OffloadKey) m : Prop := ∀ k, k ∈ ks → ∃ z, ref_of k m = Some z ∧ 0 ≤ z.

Lemma readable_capped ks m m' : refs_capped m m' → readable ks m → readable ks m'.
Proof. intros Hc Hs k (z & Hz & Hle)%Hs. by apply (rc_ready _ _ Hc k z). Qed.

Lemma refs_kept_touch ks m : mgr_wf m → mgr_wf (touch_keys ks m) ∧ ∀ k, ref_of k (touch_keys ks m) = ref_of k m.
Proof.
  intros Hw. split; [by apply touch_wf|]. intros k. unfold ref_of. rewrite !block_of_resident.
  destruct (p_touch_blocks ks (policy m)) as [Hp Hperm]; [apply Hw|]. f_equal.
  unfold resident. cbn. apply od_get_Permutation; [|done]. by apply p_wf_blocks.
Qed.

Lemma touch_all_kept ks m : mgr_wf m →
  mgr_wf (foldl (λ m ks, touch_keys ks m) m ks) ∧ ∀ k, ref_of k (foldl (λ m ks, touch_keys ks m) m ks) = ref_of k m.
Proof.
  revert m. induction ks as [|k ks IH]; intros m Hw; cbn [foldl]; [done|].
  destruct (refs_kept_touch k m Hw) as [Hw' Hk]. destruct (IH _ Hw') as [? Hk']. split; [done|].
  intros j. by rewrite Hk', Hk.
Qed.
End kept.
