(* ===== verification/OffloadJobs.v ===== *)
(** * Transfer jobs of the offloading connector

    The bookkeeping of the jobs in flight: which request each belongs to,
    which CPU blocks it holds or is writing, and which GPU blocks must not be
    reused before it is done; the steps that leave it alone, and those that add
    or remove a job. *)
From S2P Require Import Prelude Hoare PyFloat CachePolicy Request BlockPool KVCache CPUManager OffloadRefs NativeOffload.
Import Offloading.
Local Open Scope Z_scope.

(** ** Guests

    Another component may hold references on the CPU blocks ([owned]) and run
    stores of its own through the connector's tables ([guests], each reading
    the GPU blocks [guest_reads] tells); the connector alone has none. *)
Class Guests := {
  owned : OffloadKey → Z;
  owned_nonneg k : 0 ≤ owned k;
  guest_reads : gmap Z (gset nat)
}.
Definition no_guests : Guests := {| owned _ := 0; owned_nonneg _ := Z.le_refl 0; guest_reads := ∅ |}.
Definition guests {HG : Guests} : gset Z := dom guest_reads.
Lemma elem_of_guests {HG : Guests} t : t ∈ guests ↔ is_Some (guest_reads !! t).
Proof. apply elem_of_dom. Qed.

(** ** The invariant *)
Section jobs.
Context {F P : Type} `{FloatOps F} `{CachePolicyLaws P} {HG : Guests}.
Implicit Types (s : OffloadingConnectorScheduler P) (closed : gset string) (request : Request F).

Definition tj_of (id : string) s : gset Z :=
  match od_get id (req_status s) with Some r => transfer_jobs r | None => ∅ end.
Definition pending_on (b : nat) s : gset Z := default ∅ (block_id_to_pending_jobs s !! b).

(** The references load jobs hold on a key. *)
Definition load1 (k : OffloadKey) (j : TransferJobStatus) : Z :=
  if negb (is_store j) && bool_decide (k ∈ keys j) then 1 else 0.
Definition loads (js : odict Z TransferJobStatus) (k : OffloadKey) : Z := sumZ (map (λ p, load1 k p.2) js).

(** The GPU blocks a job reads that may be reused now, and once its request
    is done. *)
Definition sliding (j : TransferJobStatus) : list nat := default [] (sliding_window_block_ids j).
Definition non_sliding (j : TransferJobStatus) : list nat := default [] (non_sliding_window_block_ids j).

(** A job in flight: known to its request, unless it is a guest's, which has no
    other job when it is a load; the CPU blocks of a store are being written; and its GPU blocks are
    distinct and watched as soon as they may be reused.  [closed] are the
    requests [request_finished] was called for. *)
Record job_ok closed s (id : Z) (j : TransferJobStatus) : Prop := {
  jb_id : stale_job_threshold s ≤ id < job_counter s;
  jb_pending : 0 < pending_count j;
  jb_req : id ∉ guests → id ∈ tj_of (req_id j) s;
  jb_load : is_store j = false → tj_of (req_id j) s = {[id]};
  jb_store : is_store j = true → ∀ k, k ∈ keys j → ref_of k (manager s) = Some (-1);
  jb_blocks : NoDup (sliding j ++ non_sliding j);
  jb_sliding : ∀ b, b ∈ sliding j → id ∈ pending_on b s;
  jb_closed : req_id j ∈ closed → ∀ b, b ∈ non_sliding j → id ∈ pending_on b s
}.

Record jobs_ok closed s : Prop := {
  jo_mgr : mgr_wf (manager s);
  jo_reqs : od_wf (req_status s);
  jo_wf : od_wf (jobs s);
  jo_stale : stale_job_threshold s ≤ job_counter s;
  jo_jobs : ∀ id j, od_get id (jobs s) = Some j → job_ok closed s id j;
  jo_known : ∀ rid t, t ∈ tj_of rid s → t ∉ guests ∧ ∃ j, od_get t (jobs s) = Some j ∧ req_id j = rid;
  jo_guests : ∀ t reads, guest_reads !! t = Some reads →
    (∃ j, od_get t (jobs s) = Some j ∧ is_store j = true
       ∧ sliding_window_block_ids j = None ∧ non_sliding_window_block_ids j = None)
    ∧ ∀ b, t ∈ pending_on b s ↔ b ∈ reads;
  jo_loads : ∀ k, 0 < loads (jobs s) k + owned k →
    ∃ z, ref_of k (manager s) = Some z ∧ loads (jobs s) k + owned k ≤ z;
  jo_disjoint : ∀ i j ji jj k, od_get i (jobs s) = Some ji → od_get j (jobs s) = Some jj → i ≠ j →
    is_store ji = true → is_store jj = true → k ∈ keys ji → k ∉ keys jj;
  jo_watched : ∀ b t, t ∈ pending_on b s → ∃ j, od_get t (jobs s) = Some j
    ∧ (t ∈ guests ∨ b ∈ sliding j ∨ req_id j ∈ closed ∧ b ∈ non_sliding j)
}.

(** ** Steps that leave the jobs alone

    Only the state of one request may change, and not its jobs. *)
Record confined (rid : string) s s' : Prop := {
  fr_jobs : jobs s' = jobs s;
  fr_config : config s' = config s;
  fr_stale : stale_job_threshold s' = stale_job_threshold s;
  fr_pending : block_id_to_pending_jobs s' = block_id_to_pending_jobs s;
  fr_flush : current_batch_jobs_to_flush s ⊆ current_batch_jobs_to_flush s';
  fr_counter : job_counter s ≤ job_counter s';
  fr_mgr : mgr_wf (manager s) → mgr_wf (manager s');
  fr_refs : refs_kept (manager s) (manager s');
  fr_reqs : od_wf (req_status s) → od_wf (req_status s');
  fr_others : ∀ id, id ≠ rid → od_get id (req_status s') = od_get id (req_status s);
  fr_tj : tj_of rid s' = tj_of rid s
}.

(** The part of a step that reads no request. *)
Record quiet s s' : Prop := {
  qu_jobs : jobs s' = jobs s;
  qu_config : config s' = config s;
  qu_stale : stale_job_threshold s' = stale_job_threshold s;
  qu_pending : block_id_to_pending_jobs s' = block_id_to_pending_jobs s;
  qu_flush : current_batch_jobs_to_flush s ⊆ current_batch_jobs_to_flush s';
  qu_counter : job_counter s ≤ job_counter s';
  qu_mgr : mgr_wf (manager s) → mgr_wf (manager s');
  qu_refs : refs_kept (manager s) (manager s');
  qu_reqs : req_status s' = req_status s
}.

Lemma refs_kept_refl (m : CPUOffloadingManager P) : refs_kept m m.
Proof. by apply refs_kept_eq. Qed.

Lemma quiet_confined rid s s' : quiet s s' → confined rid s s'.
Proof. intros [? ? ? ? ? ? ? ? Er]. split; try done; unfold tj_of; by rewrite Er. Qed.

Lemma confined_refl rid s : confined rid s s.
Proof. split; try done. apply refs_kept_refl. Qed.

Lemma confined_trans rid s1 s2 s3 : confined rid s1 s2 → confined rid s2 s3 → confined rid s1 s3.
Proof.
  intros [] []. split; try congruence; try lia; eauto using refs_kept_trans; try (by etrans).
  intros id Hid. rewrite fr_others1 by done. by apply fr_others0.
Qed.

Lemma confined_tj rid s s' id : confined rid s s' → tj_of id s' = tj_of id s.
Proof.
  intros []. destruct (decide (id = rid)) as [->|Hne]; [done|]. unfold tj_of. by rewrite fr_others0.
Qed.

Lemma jobs_ok_confined rid closed s s' : jobs_ok closed s → confined rid s s' → jobs_ok closed s'.
Proof.
  intros [Hm Hr Hw Hst Hj Hk Hg Hl Hd Hp] Hf. pose proof (λ id, confined_tj rid s s' id Hf) as Et.
  destruct Hf as [Ej _ Es Ep _ Ec Em Ek Er _ _]. unfold pending_on in *. split.
  - by apply Em.
  - by apply Er.
  - by rewrite Ej.
  - rewrite Es. lia.
  - intros id j Hid. rewrite Ej in Hid. destruct (Hj id j Hid) as [Hi Hc Hq Hld Hsto Hb Hsl Hcl].
    split; unfold pending_on; rewrite ?Es, ?Ep, ?Et; try done; [lia|].
    intros Hs k Hin. apply (Ek k (-1)); [by apply Hsto|done].
  - intros id t. rewrite Et, Ej. apply Hk.
  - intros t reads. unfold pending_on. rewrite Ej, Ep. apply Hg.
  - intros k Hpos. rewrite Ej in *. destruct (Hl k Hpos) as (z & Hz & Hle).
    destruct (Ek k z Hz) as [_ Hz']. destruct Hz' as (z' & Hz' & Hle'); [lia|]. exists z'. split; [done|lia].
  - by rewrite Ej.
  - intros b t. unfold pending_on. rewrite Ep, Ej. apply Hp.
Qed.

(** ** A new job *)
Lemma loads_set_new id j js k : od_get id js = None → loads (od_set id j js) k = loads js k + load1 k j.
Proof. intros Hn. unfold loads. rewrite od_set_new by done. rewrite map_app, sumZ_app. cbn. lia. Qed.

Record adds s (id : Z) (j : TransferJobStatus) s' : Prop := {
  ad_jobs : jobs s' = od_set id j (jobs s);
  ad_stale : stale_job_threshold s' = stale_job_threshold s;
  ad_counter : job_counter s' = job_counter s;
  ad_mgr : manager s' = manager s;
  ad_reqs : od_wf (req_status s) → od_wf (req_status s');
  ad_tj : ∀ rid, tj_of rid s' = if decide (rid = req_id j) then {[id]} ∪ tj_of rid s else tj_of rid s;
  ad_pending : ∀ b, pending_on b s' = if decide (b ∈ sliding j) then {[id]} ∪ pending_on b s else pending_on b s
}.

(** The reference counts cover the load jobs and one more load of [ks]. *)
Definition loadable (ks : gset OffloadKey) s : Prop :=
  ∀ k, let n := loads (jobs s) k + owned k + (if decide (k ∈ ks) then 1 else 0) in
       0 < n → ∃ z, ref_of k (manager s) = Some z ∧ n ≤ z.

(** [ks] are being written, and by no job in flight. *)
Definition storable (ks : gset OffloadKey) s : Prop :=
  ∀ k, k ∈ ks → ref_of k (manager s) = Some (-1)
    ∧ ∀ i j, od_get i (jobs s) = Some j → is_store j = true → k ∉ keys j.

(** What makes the new job fit its kind. *)
Definition fits s (j : TransferJobStatus) : Prop :=
  if is_store j
  then storable (keys j) s ∧ ∀ t jt, t ∈ tj_of (req_id j) s → od_get t (jobs s) = Some jt → is_store jt = true
  else loadable (keys j) s ∧ tj_of (req_id j) s = ∅.

Lemma jobs_ok_add closed s id j s' :
  jobs_ok closed s → adds s id j s' →
  stale_job_threshold s ≤ id < job_counter s → od_get id (jobs s) = None →
  0 < pending_count j → req_id j ∉ closed → NoDup (sliding j ++ non_sliding j) → fits s j →
  jobs_ok closed s'.
Proof.
  intros [Hm Hr Hw Hstl Hj Hk Hg Hl Hd Hp] [Ej Es Ec Em Er Et Ep] Hid Hnew Hpos Hcl Hnd Hfit.
  assert (∀ i ji, od_get i (jobs s) = Some ji → i ≠ id) as Hne by (intros i ji Hi ->; congruence).
  assert (∀ i, od_get i (jobs s') = if decide (id = i) then Some j else od_get i (jobs s)) as Hget.
  { intros i. rewrite Ej, od_get_set. by repeat case_decide. }
  assert (∀ b t, t ∈ pending_on b s' ↔ t ∈ pending_on b s ∨ t = id ∧ b ∈ sliding j) as Hpend.
  { intros b t. rewrite Ep. case_decide; rewrite ?elem_of_union, ?elem_of_singleton; tauto. }
  assert (∀ rid t, t ∈ tj_of rid s' ↔ t ∈ tj_of rid s ∨ t = id ∧ rid = req_id j) as Htj.
  { intros rid t. rewrite Et. case_decide; rewrite ?elem_of_union, ?elem_of_singleton; tauto. }
  split.
  - by rewrite Em.
  - by apply Er.
  - rewrite Ej. by apply od_wf_set.
  - rewrite Es, Ec. lia.
  - intros i ji Hi. rewrite Hget in Hi. case_decide as Hii.
    + injection Hi as <-. subst i. split; rewrite ?Es, ?Ec, ?Em; try done.
      * intros _. apply Htj. by right.
      * unfold fits in Hfit. intros Hs. rewrite Hs in Hfit. destruct Hfit as [_ He].
        by rewrite Et, decide_True, He, union_empty_r_L.
      * unfold fits in Hfit. intros Hs. rewrite Hs in Hfit. intros k Hin. by apply Hfit.
      * intros b Hb. apply Hpend. by right.
    + destruct (Hj i ji Hi) as [Hi1 Hi2 Hi3 Hi4 Hi5 Hi6 Hi7 Hi8]. split; rewrite ?Es, ?Ec, ?Em; try done.
      * intros Hgi. apply Htj. left. by apply Hi3.
      * intros Hs. specialize (Hi4 Hs). rewrite Et. case_decide as Hrid; [|done]. exfalso. unfold fits in Hfit.
        rewrite Hrid in *. assert (i ∈ tj_of (req_id j) s) as Hin by (rewrite Hi4; by apply elem_of_singleton).
        destruct (is_store j); destruct Hfit as [_ Hall]; [rewrite (Hall i ji Hin Hi) in Hs; done|].
        rewrite Hall in Hin. by apply elem_of_empty in Hin.
      * intros b Hb. apply Hpend. left. by apply Hi7.
      * intros Hc b Hb. apply Hpend. left. by apply Hi8.
  - intros rid t [Ht|[-> ->]]%Htj.
    + destruct (Hk rid t Ht) as (Hgt & jt & Hjt & Hrid). split; [done|]. exists jt. split; [|done].
      rewrite Hget, decide_False; [done|]. intros <-. congruence.
    + split; [|exists j; by rewrite Hget, decide_True]. intros (reads & Hr')%elem_of_guests.
      destruct (Hg id reads Hr') as [(jt & Hjt & _) _]. congruence.
  - intros t reads Ht. destruct (Hg t reads Ht) as [(jt & Hjt & Hs) Hb]. assert (t ≠ id) as Hti by (intros ->; congruence). split.
    + exists jt. split; [|done]. by rewrite Hget, decide_False.
    + intros b. rewrite Hpend, Hb. naive_solver.
  - intros k. rewrite Ej, loads_set_new, Em by done. unfold fits in Hfit. unfold load1.
    destruct (is_store j); cbn [negb andb]; [rewrite Z.add_0_r; apply Hl|].
    destruct Hfit as [Hf _]. specialize (Hf k). cbn zeta in Hf.
    rewrite <-Z.add_assoc, (Z.add_comm _ (owned k)), Z.add_assoc. by repeat (case_decide || case_bool_decide).
  - intros a b ja jb k. rewrite !Hget. intros Ha Hb Hab Hsa Hsb Hka.
    unfold fits in Hfit. destruct (decide (id = a)) as [Hia|Hia], (decide (id = b)) as [Hib|Hib].
    + exfalso. apply Hab. by rewrite <-Hia.
    + injection Ha as <-. rewrite Hsa in Hfit. destruct Hfit as [Hf _]. destruct (Hf k Hka) as [_ Hf']. by apply (Hf' b jb).
    + injection Hb as <-. rewrite Hsb in Hfit. destruct Hfit as [Hf _]. intros Hkb. destruct (Hf k Hkb) as [_ Hf']. by apply (Hf' a ja).
    + by apply (Hd a b ja jb).
  - intros b t [Ht|[-> Hb]]%Hpend.
    + destruct (Hp b t Ht) as (jt & Hjt & Hb). exists jt. split; [|done]. rewrite Hget, decide_False; [done|].
      intros <-. congruence.
    + exists j. rewrite Hget, decide_True by done. split; [done|by right; left].
Qed.


(** ** A job's completions *)
Lemma od_del_set {K V} `{EqDecision K} (k : K) (v : V) d : od_del k (od_set k v d) = od_del k d.
Proof. induction d as [|[j w] d IH]; cbn; repeat case_decide; cbn; repeat case_decide; congruence. Qed.

Lemma loads_del id j js k : od_wf js → od_get id js = Some j → loads (od_del id js) k = loads js k - load1 k j.
Proof.
  intros Hw Hj. unfold loads.
  rewrite (sumZ_Permutation (map _ js) (map (λ p, load1 k p.2) ((id, j) :: od_del id js))).
  - cbn [map]. unfold sumZ. cbn. lia.
  - apply Permutation_map. by apply od_del_Permutation.
Qed.

Lemma loads_set id j j' js k : od_wf js → od_get id js = Some j → loads (od_set id j' js) k = loads js k - load1 k j + load1 k j'.
Proof.
  intros Hw Hj. pose proof (loads_del id j' (od_set id j' js) k (od_wf_set _ _ _ Hw)) as Hd.
  rewrite od_get_set, decide_True in Hd by done. specialize (Hd eq_refl).
  rewrite od_del_set, (loads_del id j) in Hd by done. lia.
Qed.

Lemma load1_nonneg k j : 0 ≤ load1 k j.
Proof. unfold load1. by case_match. Qed.

Lemma loads_nonneg js k : 0 ≤ loads js k.
Proof. apply sumZ_nonneg, Forall_map, Forall_true. intros. apply load1_nonneg. Qed.

(** Some of the workers are done. *)
Lemma jobs_ok_pending closed s id j n :
  jobs_ok closed s → od_get id (jobs s) = Some j → 0 < n →
  jobs_ok closed (put_jobs (od_set id (put_pending_count n j) (jobs s)) s).
Proof.
  intros Hok Hj Hn. destruct Hok as [Hm Hr Hw Hst Hjs Hk Hg Hl Hd Hp].
  set (s' := put_jobs _ s).
  assert (∀ i, od_get i (jobs s') = if decide (id = i) then Some (put_pending_count n j) else od_get i (jobs s)) as Hget
    by (intros i; cbn; by rewrite od_get_set).
  assert (∀ i ji, od_get i (jobs s) = Some ji → ∃ m, od_get i (jobs s') = Some (put_pending_count m ji)) as Hfw.
  { intros i ji Hi. rewrite Hget. case_decide; [exists n|exists (pending_count ji)]; [congruence|by destruct ji]. }
  assert (∀ i ji, od_get i (jobs s') = Some ji →
    ∃ jo m, od_get i (jobs s) = Some jo ∧ ji = put_pending_count m jo ∧ 0 < m) as Hbw.
  { intros i ji. rewrite Hget. case_decide as Hi; [intros [= <-]; subst; by exists j, n|]. intros Hji.
    exists ji, (pending_count ji). split; [done|]. split; [by destruct ji|]. by apply (jb_pending _ _ _ _ (Hjs i ji Hji)). }
  split; try done.
  - by apply od_wf_set.
  - intros i ji (jo & m & Hjo & -> & Hm')%Hbw. by destruct (Hjs i jo Hjo).
  - intros rid t Ht. destruct (Hk rid t Ht) as (Hgt & jt & Hjt & <-). destruct (Hfw t jt Hjt) as (m & Hm').
    split; [done|]. by exists (put_pending_count m jt).
  - intros t reads Ht. destruct (Hg t reads Ht) as [(jt & Hjt & Hs) Hb]. split; [|exact Hb].
    destruct (Hfw t jt Hjt) as (m & Hm'). by exists (put_pending_count m jt).
  - intros k. cbn [jobs s' put_jobs]. rewrite (loads_set id j) by done. unfold load1. cbn. rewrite Z.sub_add. apply Hl.
  - intros a b ja jb k (jo & ? & Ha & -> & _)%Hbw (jo' & ? & Hb & -> & _)%Hbw. by apply (Hd a b jo jo').
  - intros b t Ht. destruct (Hp b t Ht) as (jt & Hjt & Hb). destruct (Hfw t jt Hjt) as (m & Hm').
    by exists (put_pending_count m jt).
Qed.

(** A job leaves: its references and its watches with it. *)
Record removes s (id : Z) (j : TransferJobStatus) s' : Prop := {
  rm_jobs : jobs s' = od_del id (jobs s);
  rm_stale : stale_job_threshold s' = stale_job_threshold s;
  rm_counter : job_counter s' = job_counter s;
  rm_mgr : mgr_wf (manager s');
  rm_refs : ∀ k z, ref_of k (manager s) = Some z →
    ref_of k (manager s') = Some (if bool_decide (k ∈ keys j) then if is_store j then Z.max 0 z else z - 1
                                  else z);
  rm_reqs : od_wf (req_status s) → od_wf (req_status s');
  rm_tj : ∀ rid, tj_of rid s' = tj_of rid s ∖ {[id]};
  rm_pending : ∀ b, pending_on b s' = pending_on b s ∖ {[id]}
}.

Lemma jobs_ok_remove closed s id j s' :
  jobs_ok closed s → od_get id (jobs s) = Some j → id ∉ guests → removes s id j s' → jobs_ok closed s'.
Proof.
  intros [Hm Hr Hw Hst Hj Hk Hg Hl Hd Hp] Hid Hgid [Ej Es Ec Em Ek Er Et Ep].
  assert (∀ i ji, od_get i (jobs s') = Some ji ↔ i ≠ id ∧ od_get i (jobs s) = Some ji) as Hget.
  { intros i ji. rewrite Ej, od_get_del. case_decide; [|naive_solver]. subst. split; [done|]. by intros [? _]. }
  split.
  - done.
  - by apply Er.
  - rewrite Ej. by apply od_wf_del.
  - rewrite Es, Ec. done.
  - intros i ji [Hne Hi]%Hget. destruct (Hj i ji Hi) as [Hi1 Hi2 Hi3 Hi4 Hi5 Hi6 Hi7 Hi8].
    split; rewrite ?Es, ?Ec; try done.
    + rewrite Et. set_solver.
    + intros Hs. rewrite Et, Hi4 by done. set_solver.
    + intros Hs k Hin. specialize (Hi5 Hs k Hin). rewrite (Ek k _ Hi5). f_equal. case_bool_decide as Hkj; [|done].
      destruct (is_store j) eqn:Hsj; [exfalso; by apply (Hd i id ji j k)|]. exfalso.
      pose proof (loads_del id j (jobs s) k Hw Hid) as Hh. pose proof (loads_nonneg (od_del id (jobs s)) k).
      unfold load1 in Hh. rewrite Hsj, bool_decide_true in Hh by done. cbn in Hh. pose proof (owned_nonneg k).
      destruct (Hl k) as (z & Hz & Hle); [lia|]. assert (z = -1) by congruence. lia.
    + intros b Hb. rewrite Ep. specialize (Hi7 b Hb). set_solver.
    + intros Hc b Hb. rewrite Ep. specialize (Hi8 Hc b Hb). set_solver.
  - intros rid t. rewrite Et. intros [Ht Hne]%elem_of_difference. destruct (Hk rid t Ht) as (Hgt & jt & Hjt & Hrid).
    split; [done|]. exists jt. split; [|done]. apply Hget. split; [|done]. intros ->. by apply Hne, elem_of_singleton.
  - intros t reads Ht. destruct (Hg t reads Ht) as [(jt & Hjt & Hs) Hb].
    assert (t ≠ id) as Hti by (intros ->; by apply Hgid, elem_of_guests). split.
    + exists jt. split; [|done]. by apply Hget.
    + intros b. rewrite Ep, elem_of_difference, Hb, elem_of_singleton. naive_solver.
  - intros k. rewrite Ej, (loads_del id j) by done. intros Hpos.
    assert (0 < loads (jobs s) k + owned k) as Hpos' by (pose proof (load1_nonneg k j); lia). unfold load1 in *.
    destruct (Hl k Hpos') as (z & Hz & Hle). eexists. split; [by apply Ek|].
    destruct (is_store j); cbn [negb andb] in *; repeat case_bool_decide; cbn [andb] in *; lia.
  - intros a b ja jb k [_ Ha]%Hget [_ Hb]%Hget. by apply (Hd a b ja jb).
  - intros b t. rewrite Ep. intros [Ht Hne]%elem_of_difference. destruct (Hp b t Ht) as (jt & Hjt & Hb).
    exists jt. split; [|done]. apply Hget. split; [|done]. intros ->. by apply Hne, elem_of_singleton.
Qed.
End jobs.
