(* ===== verification/OffloadSteps.v ===== *)
(** * The connector's calls and its transfer jobs

    Each call of the connector, on every outcome, keeps the bookkeeping of the
    transfer jobs; matching, loading and storing are for one request at a time,
    whose groups keep their keys and blocks in order. *)
From S2P Require Import Prelude Hoare PyFloat CachePolicy Request BlockPool KVCache CPUManager LookupFacts OffloadKeys OffloadRefs NativeOffload OffloadJobs.
Import Offloading.
Local Open Scope Z_scope.

(** A search only asks the manager. *)
Section query.
Context {T : Type} (query : OffloadKey → M T (option bool)) (I : T → Prop).
Hypothesis query_keeps : ∀ k t, I t → wp (query k) (λ _, I) I t.
Notation keeps c := (∀ t, I t → wp c (λ _, I) I t).

Lemma lookup_keeps_bind {A B} (c : M T A) (k : A → M T B) : keeps c → (∀ a, keeps (k a)) → keeps (c ≫= k).
Proof. intros Hc Hk t Ht. apply wp_bind. eapply wp_mono; [by apply Hc| |done]. intros a t' Ht'. by apply Hk. Qed.

Lemma prefix_keeps ks h d : keeps (prefix_loop query ks h d).
Proof.
  revert h d. induction ks as [|k ks IH]; intros h d; cbn [prefix_loop]; [by intros t Ht|].
  apply lookup_keeps_bind; [intros; by apply query_keeps|]. intros [[]|]; [apply IH|by intros t Ht|apply IH].
Qed.

Lemma window_keeps w ks c d : keeps (window_loop query w ks c d).
Proof.
  revert c d. induction ks as [|k ks IH]; intros c d; cbn [window_loop]; [by intros t Ht|].
  apply lookup_keeps_bind; [intros; by apply query_keeps|]. intros r. destruct (default false r); [|apply IH].
  destruct (_ =? w); [by intros t Ht|apply IH].
Qed.

Lemma pass_keeps config lg sw n c gs groups looked x : keeps (lookup_pass query config lg sw n c gs groups looked x).
Proof.
  revert looked x. induction groups as [|i groups IH]; intros looked x; cbn [lookup_pass]; [by intros t Ht|].
  destruct (kv_group_configs config !! i) as [g|]; [|by intros t Ht].
  destruct (gs !! i) as [st|]; [|by intros t Ht].
  apply lookup_keeps_bind; [intros t Ht; by apply wp_assert|]. intros _.
  destruct (_ <? _); [by intros t Ht|]. apply lookup_keeps_bind.
  { unfold lookup_group. destruct (sliding_window_size_in_blocks g); [apply window_keeps|apply prefix_keeps]. }
  intros hits. case_bool_decide; [by intros t Ht|]. destruct (_ <? _); [by intros t Ht|]. apply IH.
Qed.

Lemma loop_keeps config lg sw n c gs fuel x : keeps (lookup_loop query config lg sw n c gs fuel x).
Proof.
  revert x. induction fuel as [|fuel IH]; intros x; cbn [lookup_loop]; destruct (again x); try by intros t Ht.
  apply lookup_keeps_bind; [apply pass_keeps|]. intros [x'|]; [apply IH|by intros t Ht].
Qed.

Lemma lookup_keeps config lg sw n c gs loading : keeps (lookup query config lg sw n c gs loading).
Proof.
  unfold lookup. apply lookup_keeps_bind; [apply loop_keeps|]. intros [x|]; [|by intros t Ht].
  destruct (deferred x); [by intros t Ht|]. destruct loading; [|by intros t Ht]. by case_match; intros t Ht.
Qed.
End query.

Section steps.
Context {F P : Type} `{FloatOps F} `{CachePolicyLaws P} {HG : Guests}.
Implicit Types (s : OffloadingConnectorScheduler P) (closed : gset string) (request : Request F)
  (hashes : string → list (list Z)) (r : RequestOffloadState) (id : string).

(** The invariant of the connector: [hashes] are the block hashes of the
    requests it follows, [closed] those that were reported finished. *)
Record conn_ok closed hashes s : Prop := {
  co_jobs : jobs_ok closed s;
  co_config : config_ok (config s);
  co_reqs : ∀ id r, od_get id (req_status s) = Some r → req_ok (config s) (hashes id) r
}.

(** [s] is reached from [s0] with the work on request [id], whose state is now [r]. *)
Record at_req hs id s0 r s : Prop := {
  at_conf : confined id s0 s;
  at_get : od_get id (req_status s) = Some r;
  at_ok : req_ok (config s0) hs r
}.
Definition left_at hs id s0 s : Prop := confined id s0 s ∧ ∀ r, od_get id (req_status s) = Some r → req_ok (config s0) hs r.

Lemma at_left hs id s0 r s : at_req hs id s0 r s → left_at hs id s0 s.
Proof. intros [Hc Hg Hr]. split; [done|]. intros r' Hr'. congruence. Qed.

Lemma conn_ok_left closed hashes hs id s0 s :
  conn_ok closed hashes s0 → left_at hs id s0 s → hashes id = hs → conn_ok closed hashes s.
Proof.
  intros [Hj Hg Hr] [Hc Hid] <-. split; [by eapply jobs_ok_confined|..]; rewrite (fr_config _ _ _ Hc); [done..|].
  intros id' r' Hr'. destruct (decide (id' = id)) as [->|Hne]; [by apply Hid|]. apply Hr.
  by rewrite (fr_others _ _ _ Hc) in Hr'.
Qed.

Lemma conn_ok_hashes closed hashes hashes' s :
  conn_ok closed hashes s → (∀ id r, od_get id (req_status s) = Some r → hashes id `prefix_of` hashes' id) →
  conn_ok closed hashes' s.
Proof. intros [Hj Hg Hr] Hp. split; [done..|]. intros id r Hid. eapply req_ok_prefix; [by eapply Hp|by apply Hr]. Qed.

(** A step that keeps the groups of every request. *)
Lemma conn_ok_step closed closed' hashes s s' :
  conn_ok closed hashes s → jobs_ok closed' s' → config s' = config s →
  (∀ id r', od_get id (req_status s') = Some r' →
     ∃ r, od_get id (req_status s) = Some r ∧ same_shape r r') →
  conn_ok closed' hashes s'.
Proof.
  intros [Hj Hg Hr] Hj' Hc Hreq. split; rewrite ?Hc; [done..|].
  intros id r' (r & Hget & Hsh)%Hreq. eapply req_ok_shape; eauto.
Qed.

Lemma conn_ok_start closed hashes s id r :
  conn_ok closed hashes s → od_get id (req_status s) = Some r → at_req (hashes id) id s r s.
Proof. intros Hok Hr. split; [apply confined_refl|done|by apply (co_reqs _ _ _ Hok)]. Qed.

Lemma at_quiet hs id s0 r s s' : at_req hs id s0 r s → quiet s s' → at_req hs id s0 r s'.
Proof.
  intros [Hc Hg Hr] Hq. split; [by eapply confined_trans, quiet_confined| |done]. by rewrite (qu_reqs _ _ Hq).
Qed.

Lemma at_trans hs id s0 r s r' s' : at_req hs id s0 r s → at_req hs id s r' s' → at_req hs id s0 r' s'.
Proof.
  intros [Hc Hg Hr] [Hc' Hg' Hr']. split; [by eapply confined_trans|done|]. by rewrite <- (fr_config _ _ _ Hc).
Qed.

Lemma at_config hs id s0 r s : at_req hs id s0 r s → config s = config s0.
Proof. intros [Hc _ _]. by apply fr_config in Hc. Qed.

Lemma at_tj hs id s0 r s : at_req hs id s0 r s → tj_of id s0 = transfer_jobs r.
Proof. intros [Hc Hg _]. rewrite <- (fr_tj _ _ _ Hc). unfold tj_of. by rewrite Hg. Qed.

Lemma at_mgr closed hashes hs id s0 r s : conn_ok closed hashes s0 → at_req hs id s0 r s → mgr_wf (manager s).
Proof. intros [Hj _ _] [Hc _ _]. by apply (fr_mgr _ _ _ Hc), (jo_mgr _ _ Hj). Qed.

Lemma confined_set id r s :
  transfer_jobs r = tj_of id s → confined id s (put_req_status (od_set id r (req_status s)) s).
Proof.
  intros Hr. split; cbn; try done; [apply refs_kept_refl|by apply od_wf_set| |].
  - intros id' Hne. rewrite od_get_set, decide_False by congruence. done.
  - unfold tj_of. cbn. by rewrite od_get_set, decide_True.
Qed.

Lemma at_set hs id s0 r s r' :
  at_req hs id s0 r s → transfer_jobs r' = transfer_jobs r → req_ok (config s0) hs r' →
  at_req hs id s0 r' (put_req_status (od_set id r' (req_status s)) s).
Proof.
  intros Hat Ht Hr. split; [|cbn; by rewrite od_get_set, decide_True|done].
  eapply confined_trans; [apply Hat|]. apply confined_set. unfold tj_of. by rewrite (at_get _ _ _ _ _ Hat).
Qed.

(** ** Rules for the pieces *)
Section rules.
Context {A : Type} (Q : A → OffloadingConnectorScheduler P → Prop) (E : OffloadingConnectorScheduler P → Prop).

Lemma wp_get_req hs id s0 r s (k : RequestOffloadState → M _ A) :
  at_req hs id s0 r s → wp (k r) Q E s → wp (get_req id ≫= k) Q E s.
Proof. intros [_ Hg _] Hk. apply wp_bind, wp_get. rewrite Hg. by apply wp_ret. Qed.

Lemma wp_set_req hs id s0 r s r' (k : unit → M _ A) :
  at_req hs id s0 r s → transfer_jobs r' = transfer_jobs r → req_ok (config s0) hs r' →
  (∀ s', at_req hs id s0 r' s' → wp (k tt) Q E s') → wp (set_req id r' ≫= k) Q E s.
Proof. intros Hat Ht Hr Hk. apply wp_bind, wp_modify, Hk. by eapply at_set. Qed.
End rules.

Lemma quiet_touch r s : mgr_wf (manager s) → quiet s (out_state (touch r s)).
Proof.
  intros Hw. destruct (touch_all_kept (touched_keys (config s) r) (manager s) Hw) as [Hw' Hk].
  split; cbn; try done. by apply refs_kept_eq.
Qed.

Lemma quiet_fence bs s : quiet s (out_state (fence bs s)).
Proof. split; cbn; try done; [|apply refs_kept_refl]. apply union_subseteq_l. Qed.

Lemma quiet_generate s : quiet s (put_job_counter (job_counter s + 1) s).
Proof. split; cbn; try done; [lia|apply refs_kept_refl]. Qed.

Lemma quiet_manager s m : (mgr_wf (manager s) → mgr_wf m) → refs_kept (manager s) m → quiet s (put_manager m s).
Proof. intros. by split. Qed.

Lemma quiet_refl s : quiet s s.
Proof. split; try done. apply refs_kept_refl. Qed.

(** [refresh_keys]: the keys of all block hashes. *)
Lemma wp_refresh hs id s0 r s request :
  at_req hs id s0 r s → block_hashes request = hs →
  wp (refresh_keys id request)
    (λ _ s', ∃ r', at_req hs id s0 r' s' ∧ group_blocks r' = group_blocks r
             ∧ update_offload_keys (config s0) hs r = Some r') (left_at hs id s0) s.
Proof.
  intros Hat <-. eapply wp_get_req; [done|]. apply wp_get. rewrite (at_config _ _ _ _ _ Hat).
  destruct (update_offload_keys _ _ r) as [r'|] eqn:Hr; [|by eapply wp_raise, at_left].
  destruct (update_keys_spec _ _ _ _ (at_ok _ _ _ _ _ Hat) Hr) as (Hok & Ht & Hb & _).
  apply wp_modify. exists r'. split; [by eapply at_set|done].
Qed.

(** A lookup changes no reference. *)
Lemma quiet_lookup config lg sw n c gs loading (Q : option Z → OffloadingConnectorScheduler P → Prop) E s :
  (∀ a s', quiet s s' → Q a s') → (∀ s', quiet s s' → E s') → mgr_wf (manager s) →
  wp (mgr (lookup manager_lookup config lg sw n c gs loading)) Q E s.
Proof.
  intros HQ HE Hw. apply wp_zoom.
  eapply wp_mono; [apply (lookup_keeps _ (λ m', mgr_wf m' ∧ refs_kept (manager s) m'))| |].
  - intros k m' [Hw' Hk]. unfold manager_lookup, wp, lookup_key. split.
    + unfold track. destruct (counts m'); [by apply mgr_wf_set_counts|done].
    + eapply refs_kept_trans; [done|]. apply refs_kept_eq. intros j. unfold ref_of. by rewrite track_blocks.
  - split; [done|]. apply refs_kept_refl.
  - intros a m' [Hw' Hk]. apply HQ. by apply quiet_manager.
  - intros m' [Hw' Hk]. apply HE. by apply quiet_manager.
Qed.

(** Matching touches the state of its request only. *)
Lemma wp_match closed hashes s request computed :
  conn_ok closed hashes s → block_hashes request = hashes (request_id request) → 0 ≤ computed →
  let here := left_at (hashes (request_id request)) (request_id request) s in
  wp (get_num_new_matched_tokens request computed) (λ _, here) here s.
Proof.
  intros Hok Hh Hcomp. cbn zeta. set (id := request_id request) in *. set (hs := hashes id) in *.
  unfold get_num_new_matched_tokens. apply wp_get. fold id.
  assert (∀ Q E r1, transfer_jobs r1 = tj_of id s → req_ok (config s) hs r1 →
    (∀ s1, at_req hs id s r1 s1 → Q tt s1) → wp (set_req id r1) Q E s) as Hset.
  { intros Q E r1 Ht Hr HQ. apply wp_modify, HQ. split; [by apply confined_set| |done]. cbn. by rewrite od_get_set, decide_True. }
  apply wp_bind. eapply wp_mono with (Q := λ _ s1, ∃ r1, at_req hs id s r1 s1); [|cbn beta|intros ? HE; exact HE].
  { unfold tj_of in Hset. destruct (od_get id (req_status s)) as [r|] eqn:Hr; eapply Hset; try done.
    - apply cleared_ok. by apply (co_reqs _ _ _ Hok).
    - intros s1 Hs1. by eexists.
    - apply new_state_ok.
    - intros s1 Hs1. by eexists. }
  intros _ s1 [r1 Hr1]. apply wp_bind. eapply wp_mono; [by apply (wp_refresh _ _ _ _ _ _ Hr1)|cbn beta|intros ? HE; exact HE].
  intros _ s2 (r2 & Hr2 & _). eapply wp_get_req; [done|]. eapply wp_set_req; [done|done|by eapply req_ok_shape, same_shape_local; [apply Hr2|]|]. intros s3 Hr3.
  apply wp_bind. apply quiet_lookup.
  - intros n s4 Hr4. pose proof (at_quiet _ _ _ _ _ _ Hr3 Hr4) as Hr4'. clear Hr4. apply wp_bind.
    eapply wp_mono with (Q := λ _ s5, ∃ r5, at_req hs id s r5 s5); [|cbn beta|intros ? HE; exact HE].
    + apply wp_if; intros _; [|by eexists]. eapply wp_get_req; [done|]. apply wp_modify. eexists.
      eapply at_set; [done..|]. apply num_hit_ok, Hr4'.
    + intros _ s5 [r5 Hr5]. eapply wp_get_req; [done|]. apply wp_bind, wp_modify, wp_ret. eapply at_left.
      eapply at_quiet; [done|]. apply quiet_touch. by eapply at_mgr.
  - intros s4 Hr4. eapply at_left, at_quiet; done.
  - by eapply at_mgr.
Qed.
End steps.
