(* ===== verification/OffloadLoads.v ===== *)
(** * Loads of the connector

    [update_state_after_alloc] keeps the bookkeeping of the transfer jobs on
    every outcome: what it loads is referenced, for as long as its job lives. *)
From S2P Require Import Prelude Hoare PyFloat CachePolicy Request BlockPool KVCache CPUManager LookupFacts OffloadKeys OffloadRefs NativeOffload OffloadJobs OffloadSteps.
Import Offloading.
Local Open Scope Z_scope.

Lemma wp_mapS {S A B} (I : S → Prop) (R : A → B → Prop) (E : S → Prop) (body : A → M S B) l s :
  I s → (∀ x s, x ∈ l → I s → wp (body x) (λ y s', I s' ∧ R x y) E s) →
  wp (mapS body l) (λ ys s', I s' ∧ Forall2 R l ys) E s.
Proof.
  revert s. induction l as [|x l IH]; intros s Hs Hb; cbn [mapS]; [by apply wp_ret|].
  apply wp_bind. eapply wp_mono; [apply Hb; [by left|done]| |done]. intros y s' [Hs' Hy].
  apply wp_bind. eapply wp_mono; [apply IH; [done|]| |done].
  - intros z s'' Hz. apply Hb. by right.
  - intros ys s'' [Hs'' Hys]. apply wp_ret. split; [done|by constructor].
Qed.

Lemma wp_foldM {S A B} (I : B → S → Prop) (E : S → Prop) (body : B → A → M S B) acc l s :
  I acc s → (∀ b x s, x ∈ l → I b s → wp (body b x) I E s) → wp (foldM body acc l) I E s.
Proof.
  revert acc s. induction l as [|x l IH]; intros acc s Hs Hb; cbn [foldM]; [by apply wp_ret|].
  apply wp_bind. eapply wp_mono; [apply Hb; [by left|done]| |done]. intros y s' Hy.
  apply IH; [done|]. intros b z s'' Hz. apply Hb. by right.
Qed.

(** ** Sublists *)
Lemma sublist_concat {A} (ls ls' : list (list A)) : sublist ls ls' → sublist (concat ls) (concat ls').
Proof.
  induction 1 as [|l ls ls' _ IH|l ls ls' _ IH]; cbn; [done|by apply sublist_app|by apply sublist_inserts_l].
Qed.

Lemma Forall2_sublist_concat {A B} (f : A → list B) (xs : list A) (ys : list (list B)) :
  Forall2 (λ x y, sublist y (f x)) xs ys → sublist (concat ys) (concat (f <$> xs)).
Proof. induction 1; cbn; [done|]. by apply sublist_app. Qed.

Lemma slice_sublist {A} a b (l : list A) : sublist (slice a b l) l.
Proof. unfold slice. etrans; [apply sublist_take|apply sublist_drop]. Qed.

Lemma imap_pair_snd {A} (l : list A) : (imap pair l).*2 = l.
Proof. rewrite fmap_imap. apply list_eq. intros i. rewrite list_lookup_imap. by destruct (l !! i). Qed.

Lemma zip_snd_sublist {A B} (xs : list A) (ys : list B) : sublist (zip xs ys).*2 ys.
Proof.
  revert ys. induction xs as [|x xs IH]; intros [|y ys]; cbn; try done; [apply sublist_nil_l|]. by constructor.
Qed.
Lemma zip_fst_sublist {A B} (xs : list A) (ys : list B) : sublist (zip xs ys).*1 xs.
Proof.
  revert ys. induction xs as [|x xs IH]; intros [|y ys]; cbn; try done; [apply sublist_nil_l|]. by constructor.
Qed.
Lemma sublist_fmap' {A B} (f : A → B) l l' : sublist l l' → sublist (f <$> l) (f <$> l').
Proof. induction 1; cbn; by constructor. Qed.

Lemma elem_of_config {A B} i (c : A) (x : B) cs xs : (i, (c, x)) ∈ imap pair (zip cs xs) → c ∈ cs.
Proof. rewrite elem_of_lookup_imap. intros (j & y & [= _ <-] & Hj). apply list_elem_of_lookup_2 in Hj. by apply elem_of_zip_l in Hj. Qed.

Lemma cdiv_nonneg a b : 0 ≤ a → 0 < b → 0 ≤ cdiv a b.
Proof. intros Ha Hb. unfold cdiv. pose proof (Z.div_mod a (- b) ltac:(lia)). pose proof (Z.mod_neg_bound a (- b) ltac:(lia)). nia. Qed.

Section moves.
Context {F P : Type} `{HF : FloatOps F} `{HP : CachePolicyLaws P} {HG : Guests}.
Implicit Types (s : OffloadingConnectorScheduler P) (closed : gset string) (request : Request F)
  (hashes : string → list (list Z)) (r : RequestOffloadState) (id : string).

Lemma at_alter hs id s0 r s i n :
  0 ≤ n → at_req hs id s0 r s →
  at_req hs id s0 (put_groups (alter (put_next_stored n) i (group_states r)) r)
    (out_state (alter_group id i (put_next_stored n) s)).
Proof.
  intros Hn [Hc Hg Hr]. split; [|cbn; by rewrite od_get_alter, decide_True, Hg|by eapply req_ok_shape, alter_next_shape].
  eapply confined_trans; [done|]. split; cbn; try done; [apply refs_kept_refl|by apply od_wf_alter|..].
  - intros id' Hne. by rewrite od_get_alter, decide_False by congruence.
  - unfold tj_of. cbn. by rewrite od_get_alter, decide_True, Hg.
Qed.

(** ** Loads *)
Lemma load_group_keys pool cfg local cached c g bs l :
  load_group pool cfg local cached c g bs = Some l → sublist l.1.1 (offload_keys g).
Proof.
  unfold load_group. intros Hl. repeat (case_match; try done; []). injection Hl as <-. cbn.
  destruct (_ =? 0); [apply sublist_nil_l|apply slice_sublist].
Qed.

(** The keys to load are distinct keys of the request. *)
Lemma loads_sublist cfg r (blocks : list (list nat)) (loads : list (list OffloadKey * list nat * Z)) pool local cached :
  Forall2 (λ '(i, (c, (g, bs))) l, load_group pool cfg local cached c g bs = Some l)
    (imap pair (zip (kv_group_configs cfg) (zip (group_states r) blocks))) loads →
  sublist (concat ((λ l, l.1.1) <$> loads)) (concat (group_keys r)).
Proof.
  intros HR. transitivity (concat ((λ x, offload_keys x.2.2.1)
    <$> imap (pair (A := nat)) (zip (kv_group_configs cfg) (zip (group_states r) blocks)))).
  - apply Forall2_sublist_concat, Forall2_fmap_r. eapply Forall2_impl; [exact HR|].
    intros (i & c & g & bs) l. by apply load_group_keys.
  - apply sublist_concat. unfold group_keys.
    change (λ x : nat * (GroupOffloadConfig * (RequestGroupState * list nat)), offload_keys x.2.2.1)
      with (offload_keys ∘ fst ∘ snd ∘ snd (A := nat) (B := GroupOffloadConfig * (RequestGroupState * list nat))).
    rewrite !list_fmap_compose, imap_pair_snd. apply sublist_fmap'.
    etrans; [apply sublist_fmap', zip_snd_sublist|]. apply zip_fst_sublist.
Qed.

(** References for the keys [ks], one more each, on top of those of the jobs. *)
Lemma loadable_after closed s m' ks :
  jobs_ok closed s →
  (∀ k, k ∈ ks → ∃ z, ref_of k (manager s) = Some z ∧ 0 ≤ z ∧ ref_of k m' = Some (z + 1)) →
  (∀ k, k ∉ ks → ref_of k m' = ref_of k (manager s)) →
  loadable (list_to_set ks) (put_manager m' s).
Proof.
  intros Hok Hin Hout k. cbn [put_manager jobs manager]. cbv zeta. pose proof (loads_nonneg (jobs s) k) as Hn. case_decide as Hk.
  - apply elem_of_list_to_set in Hk. destruct (Hin k Hk) as (z & Hz & Hpos & Hz'). intros _.
    exists (z + 1). split; [done|]. destruct (Z.le_gt_cases (loads (jobs s) k + owned k) 0); [lia|].
    destruct (jo_loads _ _ Hok k) as (z' & Hz2 & Hle); [lia|]. assert (z' = z) by congruence. lia.
  - rewrite elem_of_list_to_set in Hk. rewrite Z.add_0_r, Hout by done. apply (jo_loads _ _ Hok).
Qed.

Lemma refs_kept_load m m' (ks : list OffloadKey) :
  (∀ k, ref_of k m' = ref_of k m ∨ k ∈ ks ∧ ∃ z, ref_of k m = Some z ∧ 0 ≤ z ∧ ref_of k m' = Some (z + 1)) →
  refs_kept m (m' : CPUOffloadingManager P).
Proof.
  intros Hk k z Hz. destruct (Hk k) as [He|(_ & z' & Hz' & Hpos & He)].
  - rewrite He. split; [done|]. intros. by exists z.
  - assert (z' = z) as -> by congruence. split; [lia|]. intros. exists (z + 1). split; [done|lia].
Qed.

Lemma jobs_ok_fresh closed s : jobs_ok closed s → od_get (job_counter s) (jobs s) = None.
Proof.
  intros Hok. destruct (od_get (job_counter s) (jobs s)) as [j|] eqn:Hj; [|done].
  destruct (jb_id _ _ _ _ (jo_jobs _ _ Hok _ j Hj)). lia.
Qed.

(** The end of a step that adds a job for the request [id]. *)
Lemma conn_ok_add closed hashes id jid j s s' r :
  conn_ok closed hashes s → od_get id (req_status s) = Some r → adds s jid j s' →
  config s' = config s → req_id j = id →
  (∀ id', od_get id' (req_status s') =
     if decide (id = id') then Some (put_transfer_jobs ({[jid]} ∪ transfer_jobs r) r) else od_get id' (req_status s)) →
  stale_job_threshold s ≤ jid < job_counter s → od_get jid (jobs s) = None →
  0 < pending_count j → req_id j ∉ closed → NoDup (sliding j ++ non_sliding j) → fits s j →
  conn_ok closed hashes s'.
Proof.
  intros Hok Hr Hadd Hcfg Hrid Hreq Hjid Hnew Hpos Hcl Hnd Hfit.
  apply (conn_ok_step closed closed hashes s s'); [done| |done|].
  - by apply (jobs_ok_add closed s jid j s' (co_jobs _ _ _ Hok)).
  - intros id' r'. rewrite Hreq. case_decide as Hid; [|exists r'; by split; [|apply same_shape_refl]]. intros [= <-]. subst. exists r. split; [done|apply same_shape_jobs].
Qed.

(** What precedes the transfer: the groups move on, the manager is as it was. *)
Lemma wp_plan_loads hs id s r pool drd local cached blocks :
  config_ok (config s) → 0 ≤ cached → od_get id (req_status s) = Some r → req_ok (config s) hs r →
  wp (mapS (λ '(i, (c, (g, bs))),
        match load_group pool (config s) local cached c g bs with
        | None => raise AssertionError
        | Some l =>
            (if drd : bool then mret tt
             else alter_group id i (put_next_stored (cdiv cached (offloaded_block_size c)))) ;;
            mret l
        end) (imap pair (zip (kv_group_configs (config s)) (zip (group_states r) blocks))))
     (λ loads s', (∃ r', at_req hs id s r' s' ∧ manager s' = manager s)
        ∧ Forall2 (λ '(i, (c, (g, bs))) l, load_group pool (config s) local cached c g bs = Some l)
            (imap pair (zip (kv_group_configs (config s)) (zip (group_states r) blocks))) loads)
     (left_at hs id s) s.
Proof.
  intros Hcfg Hcached Hr Hok. apply wp_mapS.
  { exists r. split; [|done]. by split; [apply confined_refl|..]. }
  intros (i & c & g & bs) s1 Hin (r1 & Hat & Hm). apply elem_of_config in Hin. destruct (load_group _ _ _ _ c g bs) as [l|]; [|by eapply wp_raise, at_left].
  apply wp_bind, wp_if; intros _.
  - apply wp_ret, wp_ret. split; [by exists r1|done].
  - apply wp_modify, wp_ret. split; [|done]. eexists. split; [|done].
    apply at_alter; [|done]. apply cdiv_nonneg; [done|]. by apply (proj1 (list.Forall_forall _ _) (cf_sizes _ Hcfg)).
Qed.

(** The job of a load, from the state its references are taken in. *)
Lemma wp_load_job closed hashes id s0 r s (keys : list OffloadKey) (job : TransferJob) :
  conn_ok closed hashes s → at_req (hashes id) id s0 r s → id ∉ closed → loadable (list_to_set keys) s →
  wp (job_id ← generate_job_id;
      modify (λ s, put_load_jobs (od_set job_id job (current_batch_load_jobs s)) s) ;;
      r ← get_req id;
      assertM (bool_decide (transfer_jobs r = ∅)) ;;
      set_req id (put_transfer_jobs ({[job_id]} ∪ transfer_jobs r) r) ;;
      modify (λ s, put_jobs (od_set job_id
        (mkJob id (num_workers (config s)) (list_to_set keys) false None None) (jobs s)) s) ;;
      modify (λ s, put_loading ((λ l, list_to_set keys ∪ l) <$> blocks_being_loaded s) s))
    (λ _, conn_ok closed hashes) (conn_ok closed hashes) s.
Proof.
  intros Hok Hat Hcl Hl. apply wp_bind, wp_get, wp_bind, wp_put, wp_ret, wp_bind, wp_modify.
  set (s1 := put_load_jobs _ _). assert (quiet s s1) as Hq by (split; cbn; try done; [lia|apply refs_kept_refl]).
  pose proof (at_quiet _ _ _ _ _ _ Hat Hq) as Hat1.
  assert (conn_ok closed hashes s1) as Hok1.
  { eapply (conn_ok_left _ _ _ id s); [done|eapply at_left|done].
    eapply at_quiet; [by apply (conn_ok_start closed); [|apply Hat]|done]. }
  eapply wp_get_req; [done|]. apply wp_bind, wp_assert; [intros Hnone%bool_decide_eq_true|done].
  apply wp_bind, wp_modify, wp_bind, wp_modify, wp_modify.
  apply (conn_ok_add closed hashes id (job_counter s)
    (mkJob id (num_workers (config s)) (list_to_set keys) false None None) s1 _ r); try done.
  - apply Hat1.
  - split; cbn; try done; [by apply od_wf_set|]. intros rid. unfold tj_of. cbn. rewrite od_get_set.
    repeat case_decide; try done; try congruence. subst rid. by rewrite (at_get _ _ _ _ _ Hat).
  - intros id'. cbn. by rewrite od_get_set.
  - cbn. pose proof (jo_stale _ _ (co_jobs _ _ _ Hok)). lia.
  - exact (jobs_ok_fresh closed s (co_jobs _ _ _ Hok)).
  - cbn. apply Hok.
  - constructor.
  - split; [exact Hl|]. cbn. unfold tj_of. by rewrite (at_get _ _ _ _ _ Hat1).
Qed.

(** Loading keeps the bookkeeping, whatever is found on the way. *)
Lemma wp_alloc closed hashes s pool drd request blocks num_external :
  conn_ok closed hashes s → room (manager s) → request_id request ∉ closed →
  NoDup (hashes (request_id request)) → 0 ≤ num_external →
  wp (update_state_after_alloc pool drd request blocks num_external)
    (λ _, conn_ok closed hashes) (conn_ok closed hashes) s.
Proof.
  intros Hok Hroom Hcl Hnd Hext. unfold update_state_after_alloc. apply wp_if; intros _; [done|].
  set (id := request_id request) in *. apply wp_bind, wp_get.
  destruct (od_get id (req_status s)) as [r|] eqn:Hr; [|by apply wp_raise]. apply wp_ret, wp_get.
  pose proof (co_reqs _ _ _ Hok id r Hr) as Hrok. apply wp_bind.
  pose proof (cn_local _ (ro_counts _ _ _ Hrok)) as Hlocal.
  eapply wp_mono; [apply (wp_plan_loads (hashes id)); [apply Hok|lia|done..]|cbn beta|intros s' Hs'; by eapply conn_ok_left].
  intros loads s1 [(r1 & Hat1 & Hm1) HR]. apply wp_bind, wp_modify. set (s2 := put_to_flush _ s1).
  assert (at_req (hashes id) id s r1 s2) as Hat2 by (eapply at_quiet; [done|apply quiet_fence]).
  set (ks := concat ((λ l, l.1.1) <$> loads)).
  assert (NoDup ks) as Hks.
  { eapply sublist_NoDup; [|eapply loads_sublist, HR]. by eapply req_keys_NoDup; [apply cf_groups, Hok|..]. }
  pose proof (at_mgr _ _ _ _ _ _ _ Hok Hat2) as Hw. apply wp_bind, wp_zoom.
  assert (room (manager s2)) as Hroom2 by (change (manager s2) with (manager s1); by rewrite Hm1).
  eapply wp_mono; [by apply prepare_load_wp|cbn beta|].
  - intros src m' (Hw' & Hin & Hout).
    assert (conn_ok closed hashes s2) as Hok2 by (eapply conn_ok_left; [done|by eapply at_left|done]).
    assert (quiet s2 (put_manager m' s2)) as Hq.
    { apply quiet_manager; [done|]. apply (refs_kept_load _ _ ks). intros k.
      destruct (decide (k ∈ ks)) as [Hk|Hk]; [right|left]; auto. }
    eapply wp_load_job.
    + eapply conn_ok_left; [exact Hok2| |done]. eapply at_left, at_quiet; [|done]. eapply conn_ok_start; [done|apply Hat2].
    + by eapply at_quiet.
    + done.
    + apply (loadable_after closed); [apply Hok2|done..].
  - intros m' [Hw' Hk]. eapply conn_ok_left; [exact Hok| |done]. eapply at_left, at_quiet; [done|].
    apply quiet_manager; [done|]. by apply (refs_kept_load _ _ ks).
Qed.
End moves.
