(* ===== verification/OffloadStores.v ===== *)
(** * Stores of the connector

    [build_connector_meta] keeps the bookkeeping of the transfer jobs on every
    outcome: what it stores is being written by no other job, and the GPU
    blocks it reads are watched as soon as they may be reused. *)
From S2P Require Import Prelude Hoare PyFloat CachePolicy Request BlockPool KVCache CPUManager LookupFacts OffloadKeys OffloadRefs NativeOffload OffloadJobs OffloadSteps OffloadLoads.
Import Offloading.
Local Open Scope Z_scope.

Lemma nonzero_sublist l l' : sublist l l' → sublist (nonzero l) (nonzero l').
Proof.
  unfold nonzero. induction 1 as [|x l l' _ IH|x l l' _ IH]; [done|..]; rewrite !filter_cons; case_decide; try done.
  - by constructor.
  - by constructor.
Qed.

(** ** The blocks a store reads *)
Section sources.
Context {T : Type}.
Implicit Types (bl : list nat) (acc : list nat * option Z) (t : T).

(** Collected so far: distinct positions below [p], the null block skipped. *)
Definition below (bl : list nat) (p : Z) (acc : list nat * option Z) : Prop :=
  sublist acc.1 (nonzero (take (Z.to_nat p) bl)).

Lemma below_mono bl p q acc : p ≤ q → below bl p acc → below bl q acc.
Proof.
  intros Hpq Hb. unfold below in *. etrans; [exact Hb|]. unfold nonzero.
  replace (Z.to_nat q) with (Z.to_nat p + (Z.to_nat q - Z.to_nat p))%nat by lia.
  rewrite <- take_take_drop, filter_app. apply sublist_inserts_r. done.
Qed.

Lemma source_block_wp bl acc p t : 0 ≤ p → below bl p acc →
  wp (source_block bl acc p) (λ acc' t', t' = t ∧ below bl (p + 1) acc') (λ t', t' = t) t.
Proof.
  intros Hp Hb. unfold source_block. destruct (bl !! Z.to_nat p) as [b|] eqn:Hbl; [|by apply wp_raise].
  apply wp_if; intros Hz.
  - apply wp_bind, wp_assert; [|done]. intros _. apply wp_ret. split; [done|]. eapply below_mono; [|exact Hb]. lia.
  - apply wp_ret. split; [done|]. unfold below, nonzero in *. cbn [fst].
    replace (Z.to_nat (p + 1)) with (S (Z.to_nat p)) by lia. erewrite take_S_r by exact Hbl.
    rewrite filter_app, filter_cons_True, filter_nil by (by apply Nat.eqb_neq). by apply sublist_app.
Qed.

Lemma sources_of_key_wp bl acc p n t : 0 ≤ p → 0 ≤ n → below bl p acc →
  wp (foldM (source_block bl) acc (seqZ p n)) (λ acc' t', t' = t ∧ below bl (p + n) acc') (λ t', t' = t) t.
Proof.
  intros Hp Hn. rewrite <- (Z2Nat.id n) by done. generalize (Z.to_nat n) as m. clear n Hn.
  intros m. revert p acc Hp. induction m as [|m IH]; intros p acc Hp Hb.
  - cbn. apply wp_ret. split; [done|]. by rewrite Z.add_0_r.
  - rewrite seqZ_cons by lia. cbn [foldM]. apply wp_bind. eapply wp_mono; [by apply source_block_wp|cbn beta|done].
    intros acc' t' [-> Hb']. replace (Z.pred (Z.of_nat (S m))) with (Z.of_nat m) by lia.
    replace (Z.succ p) with (p + 1) by lia. eapply wp_mono; [apply IH; [lia|done]|cbn beta|done].
    intros acc'' t' [-> Hb'']. split; [done|]. eapply below_mono; [|exact Hb'']. lia.
Qed.

Lemma group_sources_wp config n keys c g t : 0 ≤ block_size_factor config → 0 ≤ next_stored_block_idx g →
  wp (group_sources config n keys c g) (λ acc t', t' = t ∧ sublist acc.1 (nonzero (block_ids g))) (λ t', t' = t) t.
Proof.
  intros Hf Hs. unfold group_sources. set (f := block_size_factor config) in *. set (a := next_stored_block_idx g) in *.
  generalize (slice a (n / offloaded_block_size c) (offload_keys g)) as l. intros l.
  enough (∀ k acc, below (block_ids g) ((a + Z.of_nat k) * f) acc →
    wp (foldM (λ acc '(idx, key),
      if bool_decide (key ∈ keys) then foldM (source_block (block_ids g)) acc (seqZ ((a + Z.of_nat idx) * f) f)
      else mret acc) acc (imap (λ i, pair (k + i)%nat) l))
      (λ acc' t', t' = t ∧ sublist acc'.1 (nonzero (block_ids g))) (λ t', t' = t) t) as Hall.
  { apply (Hall 0%nat). unfold below. apply sublist_nil_l. }
  induction l as [|key l IH]; intros k acc Hb.
  - apply wp_ret. split; [done|]. etrans; [exact Hb|]. apply nonzero_sublist, sublist_take.
  - rewrite imap_cons. cbn [foldM]. apply wp_bind.
    eapply wp_mono with (Q := λ acc' t', t' = t ∧ below (block_ids g) ((a + Z.of_nat (S k)) * f) acc'); [|cbn beta|done].
    + rewrite Nat.add_0_r. apply wp_if; intros _.
      * eapply wp_mono; [apply sources_of_key_wp; [nia|done|done]|cbn beta|done]. intros acc' t' [-> Hb']. split; [done|].
        eapply below_mono; [|exact Hb']. lia.
      * apply wp_ret. split; [done|]. eapply below_mono; [|exact Hb]. nia.
    + intros acc' t' [-> Hb']. erewrite (imap_ext _ (λ i, pair (S k + i)%nat)); [by apply IH|].
      intros i x _. cbn. f_equal. lia.
Qed.
End sources.

(** The two kinds of groups share the blocks out between them. *)
Lemma partition_concat {A B} (w : A → bool) (f : A → list B) l :
  concat (f <$> filter (λ x, w x = true) l) ++ concat (f <$> filter (λ x, w x = false) l) ≡ₚ concat (f <$> l).
Proof.
  induction l as [|x l IH]; [done|]. rewrite !filter_cons. destruct (w x) eqn:Hx.
  - rewrite decide_True, decide_False by done. cbn. rewrite <- IH. by rewrite app_assoc.
  - rewrite decide_False, decide_True by done. cbn. rewrite <- IH. solve_Permutation.
Qed.

(** Watching a list of blocks for a job. *)
Lemma watch_all {P} (jid : Z) l (s : OffloadingConnectorScheduler P) :
  ∃ p, forM l (watch jid) s = Ret tt (put_pending p s)
    ∧ ∀ b, default ∅ (p !! b) = if decide (b ∈ l) then {[jid]} ∪ pending_on b s else pending_on b s.
Proof.
  revert s. induction l as [|x l IH]; intros s; cbn [forM].
  { exists (block_id_to_pending_jobs s). split; [by destruct s|done]. }
  set (s1 := put_pending (<[x := {[jid]} ∪ pending_on x s]> (block_id_to_pending_jobs s)) s).
  destruct (IH s1) as (p & Hrun & Hp). exists p. split; [exact Hrun|]. intros b. rewrite Hp.
  unfold pending_on. cbn [s1 put_pending block_id_to_pending_jobs].
  destruct (decide (b = x)) as [->|Hne].
  - rewrite lookup_insert_eq. cbn. rewrite (decide_True (P := x ∈ x :: l)) by (by left).
    case_decide; [|done]. fold (pending_on x s). set_solver.
  - rewrite lookup_insert_ne by done. destruct (decide (b ∈ l)) as [Hl|Hl].
    + by rewrite decide_True by (by right).
    + rewrite decide_False; [done|]. intros [?|?]%elem_of_cons; done.
Qed.

Section stores.
Context {F P : Type} `{HF : FloatOps F} `{HP : CachePolicyLaws P} {HG : Guests}.
Implicit Types (s : OffloadingConnectorScheduler P) (closed : gset string)
  (hashes : string → list (list Z)) (r : RequestOffloadState) (id : string).

Lemma storable_quiet ks s s' : storable ks s → quiet s s' → storable ks s'.
Proof.
  intros Hst [Ej _ _ _ _ _ _ Ek _] k Hk. destruct (Hst k Hk) as [Hz Hj]. rewrite Ej. split; [|done].
  by apply (Ek k (-1)).
Qed.

Lemma storable_confined ks id s s' : storable ks s → confined id s s' → storable ks s'.
Proof.
  intros Hst [Ej _ _ _ _ _ _ Ek _ _ _] k Hk. destruct (Hst k Hk) as [Hz Hj]. rewrite Ej. split; [|done].
  by apply (Ek k (-1)).
Qed.

Lemma elem_of_groups2 {A B} i (c : A) (x : B) cs xs : (i, (c, x)) ∈ imap pair (zip cs xs) → c ∈ cs ∧ x ∈ xs.
Proof.
  rewrite elem_of_lookup_imap. intros (j & y & [= _ <-] & Hj). apply list_elem_of_lookup_2 in Hj.
  split; [by apply elem_of_zip_l in Hj|by apply elem_of_zip_r in Hj].
Qed.

(** The sources of all groups; the groups move on. *)
Lemma wp_sources hs id s r n keys :
  config_ok (config s) → 0 ≤ n → od_get id (req_status s) = Some r → req_ok (config s) hs r →
  wp (mapS (λ '(i, (c, g)),
        group ← group_sources (config s) n keys c g;
        alter_group id i (put_next_stored (n / offloaded_block_size c)) ;;
        mret group) (imap pair (zip (kv_group_configs (config s)) (group_states r))))
     (λ sources s', (∃ r', at_req hs id s r' s')
        ∧ Forall2 (λ x acc, sublist acc.1 (nonzero (block_ids x.2.2)))
            (imap pair (zip (kv_group_configs (config s)) (group_states r))) sources)
     (left_at hs id s) s.
Proof.
  intros Hcfg Hn Hr Hok. apply wp_mapS.
  { exists r. by split; [apply confined_refl|..]. }
  intros (i & c & g) s1 [Hc Hg]%elem_of_groups2 (r1 & Hat). apply wp_bind.
  eapply wp_mono; [apply group_sources_wp; [apply Hcfg|]|cbn beta|].
  - by apply (proj1 (list.Forall_forall _ _) (cn_next _ (ro_counts _ _ _ Hok))).
  - intros acc s' [-> Hacc]. apply wp_bind, wp_modify, wp_ret. split; [|done]. eexists. apply at_alter; [|done].
    apply Z.div_pos; [done|]. by apply (proj1 (list.Forall_forall _ _) (cf_sizes _ Hcfg)).
  - intros s' ->. by eapply at_left.
Qed.

(** They are distinct blocks. *)
Lemma sources_NoDup {T} cfg r (sources : list (list nat * T)) hs (w : GroupOffloadConfig → bool) :
  req_ok cfg hs r →
  Forall2 (λ x acc, sublist acc.1 (nonzero (block_ids x.2.2)))
    (imap (pair (A := nat)) (zip (kv_group_configs cfg) (group_states r))) sources →
  NoDup (concat ((λ p, p.2.1) <$> filter (λ p, w p.1 = true) (zip (kv_group_configs cfg) sources))
         ++ concat ((λ p, p.2.1) <$> filter (λ p, w p.1 = false) (zip (kv_group_configs cfg) sources))).
Proof.
  intros Hok HR. rewrite (partition_concat (λ p : GroupOffloadConfig * (list nat * T), w p.1)).
  eapply sublist_NoDup; [apply (ro_blocks _ _ _ Hok)|].
  assert ((λ p, p.2.1) <$> zip (kv_group_configs cfg) sources = fst <$> sources) as ->.
  { change (λ p : GroupOffloadConfig * (list nat * T), p.2.1) with (fst ∘ snd (A := GroupOffloadConfig) (B := list nat * T)).
    rewrite list_fmap_compose. f_equal. apply snd_zip. apply Forall2_length in HR. rewrite length_imap, length_zip in HR.
    rewrite (req_ok_length _ _ _ Hok) in *. lia. }
  transitivity (concat ((λ x, nonzero (block_ids x.2.2))
    <$> imap (pair (A := nat)) (zip (kv_group_configs cfg) (group_states r)))).
  - apply Forall2_sublist_concat, Forall2_fmap_r. exact HR.
  - change (λ x : nat * (GroupOffloadConfig * RequestGroupState), nonzero (block_ids x.2.2))
      with (nonzero ∘ block_ids ∘ snd (A := GroupOffloadConfig) (B := RequestGroupState) ∘ snd (A := nat)).
    rewrite list_fmap_compose, imap_pair_snd, !list_fmap_compose, snd_zip by (rewrite (req_ok_length _ _ _ Hok); lia).
    unfold group_blocks. generalize (block_ids <$> group_states r) as bs. intros bs.
    induction bs as [|b bs IH]; cbn; [done|]. unfold nonzero in *. rewrite filter_app. by apply sublist_app.
Qed.

(** The other requests are as they were, and no job to flush and no watch is
    forgotten. *)
Record elsewhere id s s' : Prop := {
  el_config : config s' = config s;
  el_others : ∀ id', id' ≠ id → od_get id' (req_status s') = od_get id' (req_status s);
  el_flush : current_batch_jobs_to_flush s ⊆ current_batch_jobs_to_flush s';
  el_pending : ∀ b, pending_on b s ⊆ pending_on b s'
}.

Lemma elsewhere_trans id s1 s2 s3 : elsewhere id s1 s2 → elsewhere id s2 s3 → elsewhere id s1 s3.
Proof.
  intros [Hc Ho Hf Hp] [Hc' Ho' Hf' Hp']. split; [congruence| |by etrans|intros b; etrans; [apply Hp|apply Hp']].
  intros id' Hne. rewrite Ho' by done. by apply Ho.
Qed.

Lemma elsewhere_confined id s s' : confined id s s' → elsewhere id s s'.
Proof. intros [_ Hc _ Hp Hf _ _ _ _ Ho _]. split; try done. intros b. unfold pending_on. by rewrite Hp. Qed.

(** The jobs that read one of the blocks [bs] are going to be flushed. *)
Definition fenced (bs : list nat) s (flush : gset Z) : Prop := ∀ b, b ∈ bs → pending_on b s ⊆ flush.

Lemma fence_all bs s : fenced bs s (current_batch_jobs_to_flush (out_state (fence bs s))).
Proof.
  intros b Hb t Ht. cbn. apply elem_of_union. right. apply elem_of_union_list.
  exists (pending_on b s). split; [|done]. apply list_elem_of_fmap. by exists b.
Qed.

Lemma fenced_mono bs s s' flush flush' :
  fenced bs s' flush → (∀ b, pending_on b s ⊆ pending_on b s') → flush ⊆ flush' → fenced bs s flush'.
Proof. intros Hf Hp Hs b Hb. etrans; [apply Hp|]. etrans; [by apply Hf|done]. Qed.

(** A request has store jobs only as soon as one of them is. *)
Lemma all_stores closed s id any_jid j :
  jobs_ok closed s → any_jid ∈ tj_of id s → od_get any_jid (jobs s) = Some j → is_store j = true →
  ∀ t jt, t ∈ tj_of id s → od_get t (jobs s) = Some jt → is_store jt = true.
Proof.
  intros Hok Hany Hj Hs t jt Ht Hjt. destruct (is_store jt) eqn:Hst; [done|]. exfalso.
  destruct (jo_known _ _ Hok id t Ht) as (_ & jt' & Hjt' & Hrid). assert (jt' = jt) as -> by congruence. subst id.
  pose proof (jb_load _ _ _ _ (jo_jobs _ _ Hok t jt Hjt) Hst) as Htj. rewrite Htj in Hany.
  apply elem_of_singleton in Hany. subst. congruence.
Qed.

(** The job of a store. *)
Lemma wp_store_job_end closed hashes id s r (keys : gset OffloadKey) wl nl (out : Z → Z * TransferJob) :
  conn_ok closed hashes s → od_get id (req_status s) = Some r → id ∉ closed → storable keys s → NoDup (wl ++ nl) →
  wp (job_id ← generate_job_id;
      r ← get_req id;
      (match elements (transfer_jobs r) with
       | any_jid :: _ => j ← get_job any_jid; assertM (is_store j)
       | [] => mret tt
       end) ;;
      set_req id (put_transfer_jobs ({[job_id]} ∪ transfer_jobs r) r) ;;
      forM wl (watch job_id) ;;
      modify (λ s, put_jobs (od_set job_id
        (mkJob id (num_workers (config s)) keys true (Some nl)
           (match wl with [] => None | b :: l => Some (b :: l) end)) (jobs s)) s) ;;
      mret (out job_id))
    (λ _ s', conn_ok closed hashes s' ∧ elsewhere id s s') (conn_ok closed hashes) s.
Proof.
  intros Hok Hr Hcl Hst Hnd. apply wp_bind, wp_get, wp_bind, wp_put, wp_ret.
  set (s1 := put_job_counter _ _). pose proof (conn_ok_start _ _ _ _ _ Hok Hr) as Hat.
  pose proof (at_quiet _ _ _ _ _ _ Hat (quiet_generate s)) as Hat1. fold s1 in Hat1.
  assert (conn_ok closed hashes s1) as Hok1 by (eapply conn_ok_left; [exact Hok|by eapply at_left|done]).
  pose proof (storable_quiet _ _ _ Hst (quiet_generate s)) as Hst1. fold s1 in Hst1.
  assert (tj_of id s1 = transfer_jobs r) as Htj by (unfold tj_of; by rewrite (at_get _ _ _ _ _ Hat1)).
  eapply wp_get_req; [done|]. apply wp_bind.
  eapply wp_mono with (Q := λ _ s', s' = s1 ∧ ∀ t jt, t ∈ transfer_jobs r → od_get t (jobs s1) = Some jt → is_store jt = true)
    (E := λ s', s' = s1); [|cbn beta|by intros s' ->].
  { destruct (elements (transfer_jobs r)) as [|any_jid l] eqn:Hel.
    - apply wp_ret. split; [done|]. intros t jt Ht. apply elements_empty_inv, leibniz_equiv in Hel. set_solver.
    - assert (any_jid ∈ transfer_jobs r) as Hany by (apply elem_of_elements; rewrite Hel; by left).
      apply wp_bind, wp_get. destruct (od_get any_jid (jobs s1)) as [j|] eqn:Hj; [|by apply wp_raise].
      apply wp_ret, wp_assert; [|done]. intros Hs. split; [done|]. rewrite <- Htj in *.
      by apply (all_stores closed s1 id any_jid j); [apply Hok1|..]. }
  intros _ s' [-> Hstores]. apply wp_bind, wp_modify. set (s2 := put_req_status _ s1).
  destruct (watch_all (job_counter s) wl s2) as (p & Hrun & Hp). apply wp_bind. eapply wp_Ret; [exact Hrun|].
  apply wp_bind, wp_modify, wp_ret. split.
  2:{ split; [done| |done|].
      - intros id' Hne. cbn. by rewrite od_get_set, decide_False by congruence.
      - intros b. unfold pending_on at 2. cbn [put_jobs put_pending block_id_to_pending_jobs]. rewrite Hp.
        change (pending_on b s2) with (pending_on b s). case_decide; [apply union_subseteq_r|done]. }
  set (j := mkJob _ _ _ _ _ _). assert (sliding j = wl) as Hsl by (cbn; by destruct wl).
  apply (conn_ok_add closed hashes id (job_counter s) j s1 _ r); try done.
  - split; cbn [jobs stale_job_threshold job_counter manager req_status put_jobs put_pending s2 put_req_status]; try done.
    + by apply od_wf_set.
    + intros rid. unfold tj_of. cbn. rewrite od_get_set. repeat case_decide; try done; try congruence. subst rid.
      by rewrite (at_get _ _ _ _ _ Hat).
    + intros b. unfold pending_on at 1. cbn [put_jobs put_pending block_id_to_pending_jobs]. rewrite Hp, Hsl. done.
  - intros id'. cbn. by rewrite od_get_set.
  - cbn. pose proof (jo_stale _ _ (co_jobs _ _ _ Hok)). lia.
  - exact (jobs_ok_fresh closed s (co_jobs _ _ _ Hok)).
  - apply cf_workers, Hok.
  - by rewrite Hsl.
  - split; [exact Hst1|]. intros t jt. change (req_id j) with id. rewrite Htj. apply Hstores.
Qed.

Lemma conn_ok_at closed hashes id s0 r s : conn_ok closed hashes s0 → at_req (hashes id) id s0 r s → conn_ok closed hashes s.
Proof. intros Hok Hat. eapply conn_ok_left; [done|by eapply at_left|done]. Qed.

Lemma wp_store_job closed hashes id s r n (out : PrepareStoreOutput) :
  conn_ok closed hashes s → od_get id (req_status s) = Some r → id ∉ closed → 0 ≤ n →
  storable (list_to_set (CPUManager.keys_to_store out)) s →
  wp (store_job id n out) (λ _ s', conn_ok closed hashes s' ∧ elsewhere id s s') (conn_ok closed hashes) s.
Proof.
  intros Hok Hr Hcl Hn Hst. pose proof (conn_ok_start _ _ _ _ _ Hok Hr) as Hat. unfold store_job.
  eapply wp_get_req; [done|]. apply wp_bind, wp_modify, wp_get. set (s1 := put_manager _ s).
  assert (quiet s s1) as Hq by (apply quiet_touch, Hok). pose proof (at_quiet _ _ _ _ _ _ Hat Hq) as Hat1.
  pose proof (conn_ok_at _ _ _ _ _ _ Hok Hat1) as Hok1. apply wp_bind.
  eapply wp_mono; [apply (wp_sources (hashes id)); [apply Hok1|done|apply Hat1|apply Hok1, Hat1]|cbn beta|].
  - intros sources s2 [(r2 & Hat2) HR]. eapply wp_mono; [apply (wp_store_job_end closed hashes id s2 r2)|cbn beta|done].
    + by eapply conn_ok_at.
    + apply Hat2.
    + done.
    + eapply storable_confined; [by eapply storable_quiet|apply Hat2].
    + eapply (sources_NoDup _ _ _ (hashes id) (λ c, negb (@bool_decide (sliding_window_size_in_blocks c = None) (option_eq_None_dec _)))); [|exact HR].
      by apply Hok1, Hat1.
    + intros _ s' [Hok' He]. split; [done|]. eapply elsewhere_trans; [|exact He].
      eapply elsewhere_trans; apply elsewhere_confined; [by apply quiet_confined|apply Hat2].
  - intros s' Hs'. by eapply conn_ok_left.
Qed.

(** What [prepare_store] returns can be stored by one job. *)
Lemma wp_prepare_store closed hashes s (ks : list OffloadKey) :
  conn_ok closed hashes s → NoDup ks →
  wp (mgr (prepare_store ks))
    (λ o s', quiet s s'
       ∧ match o with
         | Some out => storable (list_to_set (CPUManager.keys_to_store out)) s'
             ∧ ∀ k, k ∈ CPUManager.keys_to_store out → ref_of k (manager s) = None
         | None => True
         end
       ∧ (∃ m, s' = put_manager m s)
       ∧ ∀ k z, ref_of k (manager s') = Some z → z < 0 ∨ ref_of k (manager s) = Some z)
    (λ _, False) s.
Proof.
  intros Hok Hnd. apply wp_zoom. eapply wp_mono; [apply prepare_store_wp; [apply Hok|done]|cbn beta|done].
  intros o m' [Hw Hrefs]. split.
  - apply quiet_manager; [done|]. intros k z Hz. specialize (Hrefs k). destruct o as [out|].
    + case_decide; [destruct Hrefs; congruence|]. destruct Hrefs as [He|[He _]].
      * rewrite He. split; [done|]. intros. by exists z.
      * assert (z = 0) as -> by congruence. split; lia.
    + rewrite Hrefs. split; [done|]. intros. by exists z.
  - split; [|split; [by eexists|]].
    + destruct o as [out|]; [|done]. split.
      * intros k Hk%elem_of_list_to_set. specialize (Hrefs k). rewrite decide_True in Hrefs by done.
        destruct Hrefs as [Hnone Hz]. split; [done|]. intros i j Hj Hs Hkj.
        rewrite (jb_store _ _ _ _ (jo_jobs _ _ (co_jobs _ _ _ Hok) i j Hj) Hs k Hkj) in Hnone. done.
      * intros k Hk. specialize (Hrefs k). rewrite decide_True in Hrefs by done. by destruct Hrefs.
    + cbn. intros k z Hz. specialize (Hrefs k). destruct o as [out|]; [|right; congruence].
      case_decide; [destruct Hrefs; left; simplify_eq; lia|]. destruct Hrefs as [He|[_ He]]; [right|]; congruence.
Qed.

(** The keys of the store are keys of the request. *)
Lemma store_keys_sublist cfg n c g ks : group_store_keys cfg n c g = Some ks → sublist ks (offload_keys g).
Proof.
  unfold group_store_keys. case_match; [intros [= <-]; apply sublist_nil_l|]. case_match; [done|].
  set (ids := islice _ _ _). intros (sel & Hsel & [= <-])%bind_Some.
  etrans; [|apply slice_sublist]. set (l := slice _ _ (offload_keys g)) in *.
  transitivity (concat ((λ x : nat * (OffloadKey * nat), [x.2.1]) <$> imap pair (zip l ids))).
  - apply Forall2_sublist_concat. apply mapM_Some in Hsel. eapply Forall2_impl; [exact Hsel|].
    intros (i & k & b) sel1. cbn. case_match; [intros [= <-]; apply sublist_nil_l|].
    intros (ok & _ & [= <-])%bind_Some. destruct ok; [done|apply sublist_nil_l].
  - assert (∀ l' : list (nat * (OffloadKey * nat)), concat ((λ x, [x.2.1]) <$> l') = l'.*2.*1) as ->.
    { intros l'. induction l' as [|x l' IH]; cbn; [done|]. by rewrite IH. }
    rewrite imap_pair_snd. apply zip_fst_sublist.
Qed.

Lemma store_groups_sublist cfg n r groups :
  mapM (λ '(c, g), group_store_keys cfg n c g) (zip (kv_group_configs cfg) (group_states r)) = Some groups →
  sublist (concat groups) (concat (group_keys r)).
Proof.
  intros Hm%mapM_Some. transitivity (concat ((λ x, offload_keys x.2) <$> zip (kv_group_configs cfg) (group_states r))).
  - apply Forall2_sublist_concat. eapply Forall2_impl; [exact Hm|]. intros [c g] ks. apply store_keys_sublist.
  - apply sublist_concat. change (λ x : GroupOffloadConfig * RequestGroupState, offload_keys x.2)
      with (offload_keys ∘ snd (A := GroupOffloadConfig) (B := RequestGroupState)).
    rewrite list_fmap_compose. apply sublist_fmap', zip_snd_sublist.
Qed.

(** *** One request of a step *)
Context (live : string → Request F) (defer_store : Request F → bool).

(** The new blocks are the request's own, and the progress is not negative. *)
Record store_ok closed s (o : SchedulerOutput) id (groups : option (list (list nat))) (preempted : bool) : Prop := {
  so_open : id ∉ closed;
  so_hashes : NoDup (block_hashes (live id));
  so_blocks : ∀ r, od_get id (req_status s) = Some r →
    NoDup (nonzero ((if preempted then [] else concat (group_blocks r)) ++ concat (default [] groups)));
  so_tokens : ∀ n, od_get id (num_scheduled_tokens o) = Some n → 0 ≤ num_computed_tokens (live id) + n
}.

(** The part up to the blocks: the state of the request is up to date. *)
Lemma wp_refresh_blocks closed s o id groups preempted (k : M _ (option (Z * TransferJob))) Q E :
  let hs := block_hashes (live id) in
  conn_ok closed (λ id, block_hashes (live id)) s → store_ok closed s o id groups preempted →
  (∀ s', left_at hs id s s' → E s') →
  (∀ r s', at_req hs id s r s' → fenced (concat (default [] groups)) s (current_batch_jobs_to_flush s') → wp k Q E s') →
  wp (refresh_keys id (live id) ;;
      (if preempted then
         r ← get_req id; set_req id (put_groups (put_block_ids [] <$> group_states r) r)
       else mret tt) ;;
      (match groups with
       | None | Some [] => mret tt
       | Some groups =>
           r ← get_req id;
           match update_block_id_groups (Some groups) r with
           | None => raise AssertionError
           | Some r => set_req id r ;; fence (concat groups)
           end
       end) ;; k) Q E s.
Proof.
  cbn zeta. intros Hok Hst HE Hk. set (hs := block_hashes (live id)) in *. apply wp_bind.
  destruct (od_get id (req_status s)) as [r|] eqn:Hr.
  2:{ apply wp_bind, wp_get. rewrite Hr. apply wp_raise, HE.
      split; [apply confined_refl|]. intros r. by rewrite Hr. }
  pose proof (conn_ok_start _ _ _ _ _ Hok Hr : at_req hs id s r s) as Hat.
  eapply wp_mono; [by apply (wp_refresh _ _ _ _ _ _ Hat)|cbn beta|by apply HE].
  intros _ s1 (r1 & Hat1 & Hbl & _). apply wp_bind.
  eapply wp_mono with (Q := λ _ s', ∃ r', at_req hs id s r' s'
    ∧ concat (group_blocks r') = if preempted then [] else concat (group_blocks r)); [|cbn beta|by apply HE].
  { apply wp_if; intros Hpre; subst.
    - eapply wp_get_req; [done|]. apply wp_modify. eexists. split; [eapply at_set; [done|done|apply cleared_ok, Hat1]|].
      apply cleared_blocks.
    - apply wp_ret. exists r1. by rewrite Hbl. }
  intros _ s2 (r2 & Hat2 & Hbl2). apply wp_bind.
  destruct groups as [[|new groups]|].
  1,3: apply wp_ret; apply (Hk r2); [done|intros b Hb; by apply elem_of_nil in Hb].
  eapply wp_get_req; [done|]. set (news := new :: groups) in *.
  destruct (update_block_id_groups (Some news) r2) as [r3|] eqn:Hup; [|by eapply wp_raise, HE, at_left].
  destruct (update_blocks_ok _ _ _ _ _ (at_ok _ _ _ _ _ Hat2) Hup) as [Hok3 Ht3].
  { rewrite Hbl2. by apply (so_blocks _ _ _ _ _ _ Hst). }
  eapply wp_set_req; [done|done|done|]. intros s3 Hat3. apply wp_modify. apply (Hk r3).
  - eapply at_quiet; [done|apply quiet_fence].
  - eapply fenced_mono; [apply (fence_all _ s3)| |reflexivity]. intros b. apply (el_pending id), elsewhere_confined, Hat3.
Qed.

(** The part that stores. *)
Lemma wp_store_body closed s o id r :
  let hashes := λ id, block_hashes (live id) in
  conn_ok closed hashes s → od_get id (req_status s) = Some r → id ∉ closed → NoDup (block_hashes (live id)) →
  (∀ n, od_get id (num_scheduled_tokens o) = Some n → 0 ≤ num_computed_tokens (live id) + n) →
  wp (if defer_store (live id) then mret None
      else
        match od_get id (num_scheduled_tokens o) with
        | None => raise KeyError
        | Some n =>
            let num_offloadable_tokens := Z.min (num_computed_tokens (live id) + n) (num_tokens (live id)) in
            r ← get_req id;
            s ← get_state;
            match mapM (λ '(c, g), group_store_keys (config s) num_offloadable_tokens c g)
                    (zip (kv_group_configs (config s)) (group_states r)) with
            | None => raise AssertionError
            | Some groups =>
                match concat groups with
                | [] => set_req id (advance_stored_idx (config s) num_offloadable_tokens r) ;; mret None
                | new_offload_keys =>
                    store_output ← mgr (prepare_store new_offload_keys);
                    match store_output with
                    | None => mret None
                    | Some out =>
                        if bool_decide (CPUManager.keys_to_store out = []) then
                          set_req id (advance_stored_idx (config s) num_offloadable_tokens r) ;; mret None
                        else job ← store_job id num_offloadable_tokens out; mret (Some job)
                    end
                end
            end
        end)
    (λ _ s', conn_ok closed hashes s' ∧ elsewhere id s s') (conn_ok closed hashes) s.
Proof.
  cbn zeta. intros Hok Hr Hcl Hnd Htok. set (hs := block_hashes (live id)).
  pose proof (conn_ok_start _ _ _ _ _ Hok Hr : at_req hs id s r s) as Hat.
  assert (∀ s', elsewhere id s' s') as Hrefl by (intros; apply elsewhere_confined, confined_refl).
  apply wp_if; intros _; [by apply wp_ret|].
  destruct (od_get id (num_scheduled_tokens o)) as [n|]; [|by apply wp_raise].
  set (m := Z.min _ _). assert (0 ≤ m) as Hm.
  { pose proof (Htok n eq_refl). unfold m, num_tokens, zlen. lia. }
  eapply wp_get_req; [done|]. apply wp_get.
  assert (∀ A (a : A) s', at_req hs id s r s' → wp (set_req id (advance_stored_idx (config s) m r) ;; mret a)
    (λ _ s', conn_ok closed (λ id, block_hashes (live id)) s' ∧ elsewhere id s s')
    (conn_ok closed (λ id, block_hashes (live id))) s') as Hadvance.
  { intros A a s' Hat'. eapply (wp_set_req _ _ hs); [done|done| |].
    - apply advance_ok; [apply Hok|done|]. apply Hat'.
    - intros s2 Hat2. apply wp_ret. split; [exact (conn_ok_at _ _ _ _ _ _ Hok Hat2)|]. apply elsewhere_confined, Hat2. }
  destruct (mapM _ _) as [groups'|] eqn:Hgroups; [|by apply wp_raise].
  assert (NoDup (concat groups')) as Hnd'.
  { eapply sublist_NoDup; [|by eapply store_groups_sublist]. eapply req_keys_NoDup; [apply cf_groups, Hok|exact Hnd|apply Hat]. }
  destruct (concat groups') as [|key keys]; [by apply Hadvance|]. apply wp_bind.
  eapply wp_mono; [by apply (wp_prepare_store closed (λ id, block_hashes (live id)))|cbn beta|done].
  intros [out|] s2 (Hq & Hstorable & _); pose proof (at_quiet _ _ _ _ _ _ Hat Hq) as Hat2;
    pose proof (conn_ok_at _ _ _ _ _ _ Hok Hat2) as Hok2; pose proof (elsewhere_confined _ _ _ (at_conf _ _ _ _ _ Hat2)) as He2.
  - destruct Hstorable as [Hstorable _]. apply wp_if; intros _; [by apply Hadvance|]. apply wp_bind.
    eapply wp_mono; [apply (wp_store_job closed (λ id, block_hashes (live id)) id s2 r)|cbn beta|done]; try done.
    + apply Hat2.
    + intros job s3 [Hok3 He]. apply wp_ret. split; [done|]. by eapply elsewhere_trans.
  - by apply wp_ret.
Qed.

Lemma wp_store_request closed s o id groups preempted :
  let hashes := λ id, block_hashes (live id) in
  conn_ok closed hashes s → store_ok closed s o id groups preempted →
  wp (store_request live defer_store o id groups preempted)
    (λ _ s', conn_ok closed hashes s' ∧ elsewhere id s s'
             ∧ fenced (concat (default [] groups)) s (current_batch_jobs_to_flush s')) (conn_ok closed hashes) s.
Proof.
  cbn zeta. intros Hok Hso. unfold store_request.
  apply (wp_refresh_blocks closed s o); [done|done|intros s' Hs'; by eapply conn_ok_left|].
  intros r s1 Hat Hfence. pose proof (conn_ok_at _ _ _ _ _ _ Hok Hat) as Hok1.
  pose proof (elsewhere_confined _ _ _ (at_conf _ _ _ _ _ Hat)) as He1.
  eapply wp_mono; [apply (wp_store_body closed s1 o id r); [done|apply Hat|apply Hso..]|cbn beta|done].
  intros _ s' [Hok' He]. split; [done|]. split; [by eapply elsewhere_trans|].
  eapply fenced_mono; [exact Hfence|done|apply He].
Qed.

(** *** The whole step *)
Lemma store_ok_elsewhere closed s s' o id id' groups preempted :
  store_ok closed s o id groups preempted → elsewhere id' s s' → id ≠ id' → store_ok closed s' o id groups preempted.
Proof. intros [] [_ He _ _] Hne. split; [done..| |done]. intros r. rewrite He by done. auto. Qed.

(** All blocks a step hands out. *)
Definition all_fenced (l : list (string * option (list (list nat)) * bool)) s (flush : gset Z) : Prop :=
  ∀ id groups preempted, (id, groups, preempted) ∈ l → fenced (concat (default [] groups)) s flush.

Lemma wp_build_store_jobs closed s o :
  let hashes := λ id, block_hashes (live id) in
  conn_ok closed hashes s → NoDup ((λ x, x.1.1) <$> yield_req_data o) →
  (∀ id groups preempted, (id, groups, preempted) ∈ yield_req_data o → store_ok closed s o id groups preempted) →
  wp (build_store_jobs live defer_store o)
    (λ _ s', conn_ok closed hashes s' ∧ current_batch_jobs_to_flush s ⊆ current_batch_jobs_to_flush s'
             ∧ all_fenced (yield_req_data o) s (current_batch_jobs_to_flush s'))
    (conn_ok closed hashes) s.
Proof.
  cbn zeta. unfold build_store_jobs. intros Hok Hnd Hall. apply wp_bind.
  eapply wp_mono with (Q := λ _ s', conn_ok closed (λ id, block_hashes (live id)) s'
    ∧ current_batch_jobs_to_flush s ⊆ current_batch_jobs_to_flush s'
    ∧ all_fenced (yield_req_data o) s (current_batch_jobs_to_flush s')); [|intros; by apply wp_ret|done].
  revert s Hok Hnd Hall. generalize (yield_req_data o) as l. intros l.
  induction l as [|[[id groups] preempted] l IH]; intros s Hok Hnd Hall; cbn [mapS].
  { apply wp_ret. split; [done|]. split; [done|]. intros id groups preempted Hin. by apply elem_of_nil in Hin. }
  cbn in Hnd. apply NoDup_cons in Hnd as [Hid Hnd]. apply wp_bind.
  eapply wp_mono; [apply (wp_store_request closed); [done|apply Hall; by left]|cbn beta|done].
  intros job s1 (Hok1 & He & Hf1). apply wp_bind. eapply wp_mono; [apply IH; [done|done|]| |done].
  - intros id' groups' preempted' Hin. eapply store_ok_elsewhere; [apply Hall; by right|done|].
    intros ->. apply Hid. apply list_elem_of_fmap. by exists (id, groups', preempted').
  - cbn beta. intros jobs' s2 (Hok2 & Hmono & Hf2). apply wp_ret. split; [done|]. split; [etrans; [apply He|done]|].
    intros id' groups' preempted' [[= -> -> ->]|Hin]%elem_of_cons.
    + by eapply fenced_mono; [exact Hf1|..].
    + eapply fenced_mono; [by eapply Hf2|apply He|done].
Qed.

Lemma quiet_flush v s : quiet s (put_to_flush (current_batch_jobs_to_flush s ∪ v) s).
Proof. split; cbn; try done; [apply union_subseteq_l|apply refs_kept_refl]. Qed.

Lemma conn_ok_quiet closed hashes s s' : conn_ok closed hashes s → quiet s s' → conn_ok closed hashes s'.
Proof.
  intros Hok Hq. apply (conn_ok_left closed hashes (hashes EmptyString) EmptyString s); [done| |done].
  split; [by apply quiet_confined|]. intros r. rewrite (qu_reqs _ _ Hq). apply Hok.
Qed.

Lemma wp_flush_preempted closed hashes id s :
  conn_ok closed hashes s →
  wp (flush_preempted id) (λ _ s', conn_ok closed hashes s' ∧ quiet s s') (conn_ok closed hashes) s.
Proof.
  intros Hok. unfold flush_preempted. apply wp_get. pose proof (quiet_refl s).
  destruct (od_get id (req_status s)) as [r|]; [|by apply wp_ret]. destruct (elements (transfer_jobs r)); [by apply wp_ret|].
  apply wp_bind, wp_get. destruct (od_get _ (jobs s)); [|by apply wp_raise].
  apply wp_ret, wp_bind, wp_assert; [|done]. intros _. apply wp_modify. split; [|apply quiet_flush].
  eapply conn_ok_quiet; [done|apply quiet_flush].
Qed.

Lemma quiet_trans s1 s2 s3 : quiet s1 s2 → quiet s2 s3 → quiet s1 s3.
Proof.
  intros [] []. split; try congruence; try lia; eauto using refs_kept_trans; try (by etrans).
Qed.

Lemma store_ok_quiet closed s s' o id groups preempted :
  store_ok closed s o id groups preempted → quiet s s' → store_ok closed s' o id groups preempted.
Proof. intros [] Hq. split; try done. by rewrite (qu_reqs _ _ Hq). Qed.

(** What a step asks of its output: each request is scheduled once, is not
    finished, and gets blocks of its own. *)
Record output_ok closed s (o : SchedulerOutput) : Prop := {
  out_once : NoDup ((λ x, x.1.1) <$> yield_req_data o);
  out_store : ∀ id groups preempted,
    (id, groups, preempted) ∈ yield_req_data o → store_ok closed s o id groups preempted
}.

(** The jobs to flush before a step stores anything. *)
Lemma wp_flushes closed hashes ids s :
  conn_ok closed hashes s →
  wp (forM ids flush_preempted) (λ _ s', conn_ok closed hashes s' ∧ quiet s s') (conn_ok closed hashes) s.
Proof.
  revert s. induction ids as [|id ids IH]; intros s Hok; cbn [forM]; [apply wp_ret; split; [done|apply quiet_refl]|].
  apply wp_bind. eapply wp_mono; [by apply wp_flush_preempted|cbn beta|done]. intros _ s1 [Hok1 Hq1].
  eapply wp_mono; [by apply IH|cbn beta|done]. intros _ s2 [Hok2 Hq2]. split; [done|by eapply quiet_trans].
Qed.

Lemma conn_ok_batch closed hashes s v w : conn_ok closed hashes s → conn_ok closed hashes (put_to_flush v (put_load_jobs w s)).
Proof.
  intros [[] Hcfg Hreqs]. split; [|done..]. split; try done. intros i ji Hi. destruct (jo_jobs i ji Hi). by split.
Qed.

Lemma wp_connector_meta closed s o :
  let hashes := λ id, block_hashes (live id) in
  conn_ok closed hashes s → output_ok closed s o →
  wp (build_connector_meta live defer_store o)
    (λ meta s', conn_ok closed hashes s' ∧ all_fenced (yield_req_data o) s (jobs_to_flush meta))
    (conn_ok closed hashes) s.
Proof.
  cbn zeta. intros Hok [Hnd Hall]. unfold build_connector_meta. apply wp_bind.
  eapply wp_mono; [by apply wp_flushes|cbn beta|done]. intros _ s1 [Hok1 Hq1]. apply wp_bind, wp_modify, wp_get.
  match goal with |- wp _ _ _ ?x => set (s2 := x) end. assert (quiet s1 s2) as Hq2.
  { unfold s2. destruct (_ && _); [apply quiet_flush|apply quiet_refl]. }
  pose proof (quiet_trans _ _ _ Hq1 Hq2) as Hq.
  apply wp_bind. eapply wp_mono; [apply (wp_build_store_jobs closed)|cbn beta|done].
  - by eapply conn_ok_quiet.
  - done.
  - intros. eapply store_ok_quiet; [|done]. by apply Hall.
  - intros stores s3 (Hok3 & _ & Hf). apply wp_get, wp_bind, wp_put, wp_ret. split; [by apply conn_ok_batch|].
    intros id groups preempted Hin. eapply fenced_mono; [by eapply Hf| |done].
    intros b. unfold pending_on. by rewrite (qu_pending _ _ Hq).
Qed.
End stores.
