(* ===== verification/OffloadDone.v ===== *)
(** * Completions of the connector's transfer jobs

    When all workers have reported a job, its references are given back or its
    keys published, its GPU blocks are released, and it is forgotten; none of
    this can fail on a report of a job in flight, and neither can the end of a
    request. *)
From S2P Require Import Prelude Hoare PyFloat CachePolicy Request BlockPool KVCache CPUManager LookupFacts OffloadKeys OffloadRefs NativeOffload OffloadJobs OffloadSteps OffloadLoads OffloadStores.
Import Offloading.
Local Open Scope Z_scope.

(** Releasing the watches of a job. *)
Lemma remove_all {P} (jid : Z) l (s : OffloadingConnectorScheduler P) :
  NoDup l → (∀ b, b ∈ l → jid ∈ pending_on b s) →
  ∃ p, remove_pending_job jid (Some l) s = Ret tt (put_pending p s)
    ∧ ∀ b, default ∅ (p !! b) = if decide (b ∈ l) then pending_on b s ∖ {[jid]} else pending_on b s.
Proof.
  unfold remove_pending_job. change (default [] (Some l)) with l. revert s. induction l as [|x l IH]; intros s Hnd Hl; cbn [forM].
  { exists (block_id_to_pending_jobs s). split; [by destruct s|done]. }
  apply NoDup_cons in Hnd as [Hx Hnd]. pose proof (Hl x ltac:(by left)) as Hin. unfold pending_on in Hin.
  destruct (block_id_to_pending_jobs s !! x) as [pend|] eqn:Hpend; [|by apply elem_of_empty in Hin]. cbn [default] in Hin.
  set (s1 := put_pending (if bool_decide (pend ∖ {[jid]} = ∅) then delete x (block_id_to_pending_jobs s)
             else <[x := pend ∖ {[jid]}]> (block_id_to_pending_jobs s)) s).
  assert (∀ b, pending_on b s1 = if decide (b = x) then pending_on x s ∖ {[jid]} else pending_on b s) as Hs1.
  { intros b. unfold s1, pending_on. cbn [put_pending block_id_to_pending_jobs]. rewrite Hpend. cbn [default].
    case_bool_decide as He; destruct (decide (b = x)) as [->|Hne].
    - rewrite lookup_delete_eq. cbn. by rewrite He.
    - by rewrite lookup_delete_ne.
    - by rewrite lookup_insert_eq.
    - by rewrite lookup_insert_ne. }
  destruct (IH s1 Hnd) as (p & Hrun & Hp).
  { intros b Hb. rewrite Hs1, decide_False by (by intros ->). apply Hl. by right. }
  exists p. split; [rewrite bind_unfold, get_bind, Hpend, bool_decide_true by done; exact Hrun|].
  intros b. rewrite Hp, Hs1. destruct (decide (b = x)) as [->|Hne].
  - rewrite decide_False, decide_True by (done || by left). done.
  - destruct (decide (b ∈ l)) as [Hb|Hb]; [by rewrite decide_True by (by right)|].
    rewrite decide_False; [done|]. intros [?|?]%elem_of_cons; done.
Qed.

Section completions.
Context {F P : Type} `{HF : FloatOps F} `{HP : CachePolicyLaws P} {HG : Guests}.
Implicit Types (s : OffloadingConnectorScheduler P) (closed : gset string)
  (hashes : string → list (list Z)) (r : RequestOffloadState) (id : string).
Context (live : string → Request F).

(** The end of a job for the manager. *)
Record settled s (j : TransferJobStatus) s' : Prop := {
  st_mgr : mgr_wf (manager s');
  st_refs : ∀ k, ref_of k (manager s')
    = (λ z, if bool_decide (k ∈ keys j) then if is_store j then Z.max 0 z else z - 1 else z) <$> ref_of k (manager s);
  st_jobs : jobs s' = jobs s;
  st_pending : block_id_to_pending_jobs s' = block_id_to_pending_jobs s;
  st_reqs : req_status s' = req_status s;
  st_stale : stale_job_threshold s' = stale_job_threshold s;
  st_counter : job_counter s' = job_counter s;
  st_config : config s' = config s
}.

Lemma wp_settle s (j : TransferJobStatus) :
  mgr_wf (manager s) →
  (is_store j = false → ∀ k, k ∈ keys j → ∃ z, ref_of k (manager s) = Some z ∧ 0 < z) →
  wp (if is_store j then mgr (complete_store (elements (keys j)) true)
      else
        mgr (complete_load (elements (keys j))) ;;
        modify (λ s, put_loading ((λ l, l ∖ keys j) <$> blocks_being_loaded s) s))
    (λ _ s', settled s j s') (λ _, False) s.
Proof.
  intros Hw Hload. destruct (is_store j) eqn:Hst.
  - apply wp_zoom. eapply wp_mono; [by apply complete_store_wp|cbn beta|done]. intros _ m' [Hw' Hrefs].
    split; try done. intros k. cbn. rewrite Hrefs, Hst. destruct (ref_of k (manager s)) as [z|]; [|done]. cbn. f_equal.
    rewrite (bool_decide_ext (k ∈ elements (keys j)) (k ∈ keys j)) by apply elem_of_elements.
    case_bool_decide; cbn; [|done]. destruct (Z.ltb_spec z 0); lia.
  - apply wp_bind, wp_zoom. eapply wp_mono; [apply complete_load_wp; [done|apply NoDup_elements|]|cbn beta|done].
    { intros k Hk%elem_of_elements. by apply Hload. }
    intros _ m' [Hw' Hrefs]. apply wp_modify. split; try done. intros k. cbn. rewrite Hrefs, Hst.
    rewrite (bool_decide_ext (k ∈ keys j) (k ∈ elements (keys j))) by (symmetry; apply elem_of_elements).
    case_bool_decide; [by rewrite decide_True|rewrite decide_False by done]. by destruct (ref_of k (manager s)).
Qed.

(** Both kinds of watches released, as far as they were set up. *)
Lemma wp_unwatch closed s jid j (finished : bool) :
  jobs_ok closed s → od_get jid (jobs s) = Some j → jid ∉ guests → finished = bool_decide (req_id j ∈ closed) →
  ∀ s1, block_id_to_pending_jobs s1 = block_id_to_pending_jobs s →
  ∃ p, (if bool_decide (block_id_to_pending_jobs s1 = ∅) then mret tt
        else
          remove_pending_job jid (sliding_window_block_ids j) ;;
          if finished then remove_pending_job jid (non_sliding_window_block_ids j) else mret tt) s1
       = Ret tt (put_pending p s1)
    ∧ ∀ b, default ∅ (p !! b) = pending_on b s ∖ {[jid]}.
Proof.
  intros Hok Hj Hgt -> s1 Hs1. pose proof (jo_jobs _ _ Hok jid j Hj) as Hjob.
  assert (∀ b, pending_on b s1 = pending_on b s) as Hp1 by (intros b; unfold pending_on; by rewrite Hs1).
  assert (∀ b, jid ∈ pending_on b s → b ∈ sliding j ∨ req_id j ∈ closed ∧ b ∈ non_sliding j) as Honly.
  { intros b Hb. destruct (jo_watched _ _ Hok b jid Hb) as (j' & Hj' & [|Hb']); [done|]. by assert (j' = j) as -> by congruence. }
  assert (∀ ids, remove_pending_job (P := P) jid ids = remove_pending_job jid (Some (default [] ids))) as Hsome by (by intros []).
  case_bool_decide as He.
  { exists (block_id_to_pending_jobs s1). split; [by destruct s1|]. intros b. rewrite He.
    unfold pending_on. rewrite <- Hs1, He, lookup_empty. cbn. set_solver. }
  rewrite (Hsome (sliding_window_block_ids j)), (Hsome (non_sliding_window_block_ids j)). pose proof (jb_blocks _ _ _ _ Hjob) as Hnd. apply NoDup_app in Hnd as (Hnd1 & Hdisj & Hnd2).
  destruct (remove_all jid (sliding j) s1 Hnd1) as (p & Hrun & Hp).
  { intros b Hb. rewrite Hp1. by apply (jb_sliding _ _ _ _ Hjob). }
  fold (sliding j) (non_sliding j). rewrite bind_unfold, Hrun. case_bool_decide as Hcl.
  - assert (∀ b, pending_on b (put_pending p s1) = default ∅ (p !! b)) as Hpp by done.
    destruct (remove_all jid (non_sliding j) (put_pending p s1) Hnd2) as (p' & Hrun' & Hp').
    { intros b Hb. rewrite Hpp, Hp, decide_False, Hp1; [by apply (jb_closed _ _ _ _ Hjob)|]. intros Hs. by apply (Hdisj b Hs). }
    exists p'. split; [exact Hrun'|]. intros b. rewrite Hp', Hpp, Hp, Hp1. specialize (Honly b).
    clear -Honly. repeat case_decide; set_solver.
  - exists p. split; [done|]. intros b. rewrite Hp, Hp1. specialize (Honly b). clear -Honly Hcl. case_decide; set_solver.
Qed.

Lemma load_refs closed s jid j k :
  jobs_ok closed s → od_get jid (jobs s) = Some j → is_store j = false → k ∈ keys j →
  ∃ z, ref_of k (manager s) = Some z ∧ 0 < z.
Proof.
  intros Hok Hj Hs Hk. pose proof (loads_del jid j (jobs s) k (jo_wf _ _ Hok) Hj) as Hd.
  pose proof (loads_nonneg (od_del jid (jobs s)) k) as Hn.
  unfold load1 in Hd. rewrite Hs, bool_decide_true in Hd by done. cbn in Hd.
  pose proof (owned_nonneg k). destruct (jo_loads _ _ Hok k) as (z & Hz & Hle); [lia|]. exists z. split; [done|lia].
Qed.

(** Only the job [jid] and its request change, and requests only leave. *)
Record done_with jid s s' : Prop := {
  dw_jobs : ∀ i, i ≠ jid → od_get i (jobs s') = od_get i (jobs s);
  dw_stale : stale_job_threshold s' = stale_job_threshold s;
  dw_refs : refs_capped (manager s) (manager s');
  dw_reqs : ∀ id, is_Some (od_get id (req_status s')) → is_Some (od_get id (req_status s))
}.

Lemma done_with_refl jid s : done_with jid s s.
Proof. split; try done. apply refs_capped_refl. Qed.

(** The rest of the completion, once the manager knows. *)
Lemma wp_forget closed hashes s jid j s1 :
  conn_ok closed hashes s → od_get jid (jobs s) = Some j → jid ∉ guests →
  is_finished (live (req_id j)) = bool_decide (req_id j ∈ closed) →
  settled (put_jobs (od_set jid (put_pending_count 0 j) (jobs s)) s) j s1 →
  wp (s ← get_state;
      (if bool_decide (block_id_to_pending_jobs s = ∅) then mret tt
       else
         remove_pending_job jid (sliding_window_block_ids j) ;;
         if is_finished (live (req_id j)) then remove_pending_job jid (non_sliding_window_block_ids j)
         else mret tt) ;;
      modify (λ s, put_jobs (od_del jid (jobs s)) s) ;;
      r ← get_req (req_id j);
      if bool_decide (jid ∈ transfer_jobs r) then
        let left := transfer_jobs r ∖ {[jid]} in
        set_req (req_id j) (put_transfer_jobs left r) ;;
        if bool_decide (left = ∅) && is_finished (live (req_id j))
        then modify (λ s, put_req_status (od_del (req_id j) (req_status s)) s) else mret tt
      else raise KeyError)
    (λ _ s', conn_ok closed hashes s' ∧ done_with jid s s' ∧ od_get jid (jobs s') = None
       ∧ (is_store j = true → readable (keys j) (manager s'))) (λ _, False) s1.
Proof.
  intros Hok Hj Hgt Hfin [Em Ek Ej Ep Er Es Ec Ecfg]. cbn [put_jobs manager jobs req_status stale_job_threshold job_counter config] in *.
  pose proof (jo_jobs _ _ (co_jobs _ _ _ Hok) jid j Hj) as Hjob.
  destruct (wp_unwatch closed s jid j _ (co_jobs _ _ _ Hok) Hj Hgt Hfin s1 Ep) as (p & Hrun & Hp).
  apply wp_get, wp_bind. eapply wp_Ret; [exact Hrun|]. apply wp_bind, wp_modify. set (s2 := put_jobs _ _).
  destruct (od_get (req_id j) (req_status s)) as [r|] eqn:Hr.
  2:{ pose proof (jb_req _ _ _ _ Hjob Hgt) as Hin. unfold tj_of in Hin. rewrite Hr in Hin. by apply elem_of_empty in Hin. }
  apply wp_bind, wp_get. assert (req_status s2 = req_status s) as Er2 by exact Er. rewrite Er2, Hr. apply wp_ret.
  pose proof (jb_req _ _ _ _ Hjob Hgt) as Hin. unfold tj_of in Hin. rewrite Hr in Hin. rewrite bool_decide_true by done.
  set (gone := transfer_jobs r ∖ {[jid]}). cbv zeta. apply wp_bind, wp_modify. rewrite Er2.
  set (reqs := od_set (req_id j) (put_transfer_jobs gone r) (req_status s)).
  eapply wp_mono with (E := λ _, False) (Q := λ _ s', ∃ reqs', s' = put_req_status reqs' s2
    ∧ (od_wf (req_status s) → od_wf reqs')
    ∧ (∀ rid, od_get rid reqs' = if decide (req_id j = rid)
         then if bool_decide (gone = ∅) && is_finished (live (req_id j)) then None else Some (put_transfer_jobs gone r)
         else od_get rid (req_status s))); [|cbn beta|done].
  { apply wp_if; intros Hlast.
    - apply wp_modify. exists (od_del (req_id j) reqs). split; [done|]. split; [intros; by apply od_wf_del, od_wf_set|].
      intros rid. rewrite od_get_del, Hlast. unfold reqs. rewrite od_get_set. by repeat case_decide.
    - apply wp_ret. exists reqs. split; [done|]. split; [apply od_wf_set|].
      intros rid. rewrite Hlast. unfold reqs. by rewrite od_get_set. }
  intros _ s' (reqs' & -> & Hwf & Hget). split; [|split; [|split]].
  - apply (conn_ok_step closed closed hashes s); [done| |exact Ecfg|].
    + apply (jobs_ok_remove closed s jid j); [apply Hok|done|done|]. split.
      * cbn. rewrite Ej. apply od_del_set.
      * exact Es.
      * exact Ec.
      * exact Em.
      * intros k z Hz. cbn. by rewrite Ek, Hz.
      * exact Hwf.
      * intros rid. unfold tj_of. cbn [put_req_status req_status]. rewrite Hget. destruct (decide (req_id j = rid)) as [<-|Hrid].
        -- rewrite Hr. destruct (_ && _) eqn:Hlast; [|done].
           apply andb_true_iff in Hlast as [He%bool_decide_eq_true _]. by symmetry.
        -- assert (jid ∉ tj_of rid s) as Hnot; [|unfold tj_of in Hnot; set_solver].
           intros Hj'. destruct (jo_known _ _ (co_jobs _ _ _ Hok) rid jid Hj') as (_ & j' & Hj2 & Hrid'). congruence.
      * intros b. rewrite <- Hp. done.
    + intros id r'. cbn [put_req_status req_status]. rewrite Hget.
      destruct (decide (req_id j = id)) as [<-|Hrid]; [|exists r'; split; [done|apply same_shape_refl]].
      destruct (_ && _); [done|]. intros [= <-]. exists r. split; [done|apply same_shape_jobs].
  - split.
    + intros i Hi. cbn. by rewrite Ej, od_get_del, od_get_set, !decide_False.
    + exact Es.
    + split; intros k z; cbn [put_req_status manager s2 put_jobs]; rewrite Ek.
      * intros (z0 & Hz & ->)%fmap_Some. exists z0. split; [done|]. repeat case_match; lia.
      * intros Hz Hle. rewrite Hz. cbn. eexists. split; [done|]. destruct (bool_decide_reflect (k ∈ keys j)) as [Hk|]; [|exact Hle].
        destruct (is_store j) eqn:Hst; [lia|]. destruct (load_refs closed s jid j k) as (z' & Hz' & ?); [apply Hok|done..|].
        assert (z' = z) by congruence. lia.
    + intros id. cbn [put_req_status req_status]. rewrite Hget. destruct (decide (req_id j = id)) as [<-|]; [|done]. rewrite Hr. by eauto.
  - cbn [put_req_status jobs s2 put_jobs]. rewrite od_get_del. by rewrite decide_True.
  - intros Hst k Hk. cbn [put_req_status manager s2 put_jobs]. rewrite Ek, (jb_store _ _ _ _ Hjob Hst k Hk). cbn.
    rewrite bool_decide_true, Hst by done. by eexists.
Qed.

(** What a report of completions says: the job is from before a reset, or in
    flight, no guest's, and waiting for that many workers. *)
Definition report_ok s (jid count : Z) : Prop :=
  0 < count ∧ (jid < stale_job_threshold s ∨ jid ∉ guests ∧ ∃ j, od_get jid (jobs s) = Some j ∧ count ≤ pending_count j).

Definition finished_ok closed s : Prop :=
  ∀ id, is_Some (od_get id (req_status s)) → is_finished (live id) = bool_decide (id ∈ closed).

Lemma wp_job_completed closed hashes s jid count :
  conn_ok closed hashes s → finished_ok closed s → report_ok s jid count →
  wp (job_completed live jid count)
    (λ _ s', conn_ok closed hashes s' ∧ done_with jid s s'
       ∧ ∀ j, od_get jid (jobs s) = Some j → pending_count j ≤ count →
           od_get jid (jobs s') = None ∧ (is_store j = true → readable (keys j) (manager s')))
    (λ _, False) s.
Proof.
  intros Hok Hfin [Hpos Hrep]. unfold job_completed. apply wp_bind, wp_assert; [intros _|by intros ?%Z.ltb_ge; lia].
  apply wp_get, wp_if; [intros Hlt%Z.ltb_lt|intros Hst%Z.ltb_ge].
  { apply wp_ret. split; [done|]. split; [apply done_with_refl|]. intros j Hj.
    destruct (jb_id _ _ _ _ (jo_jobs _ _ (co_jobs _ _ _ Hok) jid j Hj)). lia. }
  destruct Hrep as [?|(Hgt & j & Hj & Hle)]; [lia|]. apply wp_bind, wp_get. rewrite Hj. apply wp_ret, wp_bind, wp_modify.
  pose proof (jo_jobs _ _ (co_jobs _ _ _ Hok) jid j Hj) as Hjob.
  apply wp_if; intros Hleft.
  - apply Z.ltb_lt in Hleft. apply wp_ret. split; [|split; [|intros j' Hj' Hle'; assert (j' = j) as -> by congruence; lia]].
    + apply (conn_ok_step closed closed hashes s); [done|by apply jobs_ok_pending; [apply Hok|..]|done|].
      intros id r' Hr'. exists r'. split; [done|apply same_shape_refl].
    + split; [|done|apply refs_capped_refl|done]. intros i Hi. cbn. by rewrite od_get_set, decide_False.
  - apply Z.ltb_ge in Hleft. assert (pending_count j - count = 0) as Hzero by lia. rewrite Hzero.
    apply wp_bind, wp_assert; [intros _|done]. set (s0 := put_jobs _ s).
    apply wp_bind, wp_get. change (req_status s0) with (req_status s).
    pose proof (jb_req _ _ _ _ Hjob Hgt) as Hin. unfold tj_of in Hin.
    destruct (od_get (req_id j) (req_status s)) as [r|] eqn:Hr; [|by apply elem_of_empty in Hin].
    apply wp_ret, wp_bind. eapply wp_mono; [apply (wp_settle s0 j)|cbn beta|done].
    + apply Hok.
    + intros Hs k Hk. by apply (load_refs closed s jid j); [apply Hok|..].
    + intros _ s1 Hset. eapply wp_mono; [eapply wp_forget; [done|done|done| |done]; apply Hfin; by rewrite Hr|cbn beta|done].
      intros _ s2 (? & ? & ? & ?). split_and!; [done..|]. intros j' Hj' _. by assert (j' = j) as -> by congruence.
Qed.

Lemma wp_connector_output closed hashes s completed :
  conn_ok closed hashes s → finished_ok closed s → od_wf completed →
  (∀ jid count, (jid, count) ∈ completed → report_ok s jid count) →
  wp (update_connector_output live completed)
    (λ _ s', conn_ok closed hashes s' ∧ refs_capped (manager s) (manager s') ∧ ∀ i,
       match od_get i completed with
       | None => od_get i (jobs s') = od_get i (jobs s)
       | Some n => ∀ j, od_get i (jobs s) = Some j → pending_count j ≤ n →
           od_get i (jobs s') = None ∧ (is_store j = true → readable (keys j) (manager s'))
       end) (λ _, False) s.
Proof.
  unfold update_connector_output. revert s. induction completed as [|[jid count] rest IH]; intros s Hok Hfin Hwf Hall; cbn [forM].
  { apply wp_ret. split_and!; [done|apply refs_capped_refl|done]. }
  apply od_wf_cons in Hwf as [Hnew Hwf]. apply wp_bind.
  eapply wp_mono; [apply (wp_job_completed closed hashes s jid count); [done|done|apply Hall; by left]|cbn beta|done].
  intros _ s1 (Hok1 & [Hjobs Hstale Hrefs Hreqs] & Hgone).
  eapply wp_mono; [apply IH; [done|intros id Hid; by apply Hfin, Hreqs|done|]|cbn beta|done].
  - intros i n Hin. destruct (Hall i n ltac:(by right)) as [Hpos Hrep]. split; [done|]. rewrite Hstale, Hjobs; [done|].
    intros ->. apply (od_elem_get jid n rest Hwf) in Hin. congruence.
  - intros _ s2 (Hok2 & Hrefs2 & Hrest). split; [done|]. split; [by eapply refs_capped_trans|]. intros i. specialize (Hrest i). cbn [od_get].
    destruct (decide (jid = i)) as [<-|Hne].
    + rewrite Hnew in Hrest. intros j Hj Hle. rewrite Hrest. destruct (Hgone j Hj Hle) as [? Hst]. split; [done|].
      intros ?. by eapply readable_capped, Hst.
    + rewrite Hjobs in Hrest by congruence. done.
Qed.
End completions.
