(* ===== verification/OffloadTraces.v ===== *)
(** * Sequences of calls of the offloading connector

    From its creation on, whatever the connector is called for, the
    bookkeeping of its transfer jobs is kept; no report of the workers about a
    job in flight and no end of a request can fail.  A reset is the exception:
    requests keep the identifiers of the jobs it forgets. *)
From S2P Require Import Prelude Hoare PyFloat CachePolicy Request BlockPool KVCache CPUManager LookupFacts OffloadKeys OffloadRefs NativeOffload OffloadJobs OffloadSteps OffloadLoads OffloadStores OffloadDone.
Import Offloading.
Local Open Scope Z_scope.

Section endings.
Context {F P : Type} `{HF : FloatOps F} `{HP : CachePolicyLaws P} {HG : Guests}.
Implicit Types (s : OffloadingConnectorScheduler P) (closed : gset string)
  (hashes : string → list (list Z)) (r : RequestOffloadState) (id : string).

(** ** The end of a request *)
Definition newly_watched (ts : list Z) s (b : nat) (t : Z) : Prop :=
  t ∈ ts ∧ ∃ j, od_get t (jobs s) = Some j ∧ b ∈ non_sliding j.

(** All GPU blocks the jobs [ts] read are watched. *)
Lemma watch_jobs ts s :
  (∀ t, t ∈ ts → is_Some (od_get t (jobs s))) →
  ∃ p, forM ts (λ job_id, j ← get_job job_id; forM (default [] (non_sliding_window_block_ids j)) (watch job_id)) s
       = Ret tt (put_pending p s)
    ∧ ∀ b t, t ∈ (default ∅ (p !! b) : gset Z) ↔ t ∈ pending_on b s ∨ newly_watched ts s b t.
Proof.
  revert s. induction ts as [|x ts IH]; intros s Hts; cbn [forM].
  { exists (block_id_to_pending_jobs s). split; [by destruct s|]. intros b t. unfold pending_on, newly_watched.
    rewrite elem_of_nil. tauto. }
  destruct (Hts x ltac:(by left)) as [j Hj]. destruct (watch_all x (non_sliding j) s) as (p1 & Hrun1 & Hp1).
  destruct (IH (put_pending p1 s)) as (p & Hrun & Hp).
  { intros t Ht. apply Hts. by right. }
  exists p. split.
  { assert ((j ← get_job x; forM (default [] (non_sliding_window_block_ids j)) (watch x)) s = Ret tt (put_pending p1 s)) as Hx.
    { unfold get_job. rewrite !bind_unfold. cbn [get_state]. rewrite Hj. exact Hrun1. }
    rewrite bind_unfold, Hx. exact Hrun. }
  intros b t. rewrite Hp. unfold pending_on at 1. cbn [put_pending block_id_to_pending_jobs]. rewrite Hp1.
  unfold newly_watched. cbn [put_pending jobs]. rewrite elem_of_cons. split.
  - intros [Ht|[Ht He]]; [|by eauto]. destruct (decide (b ∈ non_sliding j)) as [Hb|Hb]; [|by left].
    apply elem_of_union in Ht as [->%elem_of_singleton|Ht]; [|by left]. right. split; [by left|by exists j].
  - intros [Ht|[[->|Ht] (j' & Hj' & Hb)]].
    + left. case_decide; [apply elem_of_union; by right|done].
    + left. assert (j' = j) as -> by congruence. rewrite decide_True by done. apply elem_of_union. left. by apply elem_of_singleton.
    + right. eauto.
Qed.

Record closes id s s' : Prop := {
  cl_jobs : jobs s' = jobs s;
  cl_stale : stale_job_threshold s' = stale_job_threshold s;
  cl_counter : job_counter s' = job_counter s;
  cl_mgr : manager s' = manager s;
  cl_reqs : od_wf (req_status s) → od_wf (req_status s');
  cl_tj : ∀ rid, tj_of rid s' = tj_of rid s;
  cl_pending : ∀ b t, t ∈ pending_on b s' ↔ t ∈ pending_on b s ∨ newly_watched (elements (tj_of id s)) s b t
}.

Lemma jobs_ok_close closed id s s' : jobs_ok closed s → closes id s s' → jobs_ok ({[id]} ∪ closed) s'.
Proof.
  intros [Hm Hr Hw Hst Hj Hk Hg Hl Hd Hp] [Ej Es Ec Em Er Et Ep].
  split; rewrite ?Ej, ?Es, ?Ec, ?Em; try done; [by apply Er|..].
  - intros i ji Hi. destruct (Hj i ji Hi) as [Hi1 Hi2 Hi3 Hi4 Hi5 Hi6 Hi7 Hi8].
    split; rewrite ?Es, ?Ec, ?Em, ?Et; try done.
    + intros b Hb. apply Ep. left. by apply Hi7.
    + intros [Hrid%elem_of_singleton|Hc]%elem_of_union b Hb; apply Ep; [|left; by apply Hi8].
      right. split; [apply elem_of_elements; rewrite <- Hrid|by exists ji].
      apply Hi3. intros (reads & Hreads)%elem_of_guests. destruct (Hg i reads Hreads) as [(j & Hj' & _ & _ & Hn) _]. assert (j = ji) as -> by congruence.
      unfold non_sliding in Hb. rewrite Hn in Hb. by apply not_elem_of_nil in Hb.
  - intros rid t. rewrite Et. apply Hk.
  - intros t reads Ht. destruct (Hg t reads Ht) as [Hjt Hb]. split; [exact Hjt|]. intros b. rewrite Ep, Hb.
    split; [|by left]. intros [?|[Hin _]]; [done|]. apply elem_of_elements in Hin. destruct (Hk id t Hin) as [Hn _].
    by destruct Hn; apply elem_of_guests.
  - intros b t [Ht|(Ht & j & Hjt & Hb)]%Ep.
    + destruct (Hp b t Ht) as (j & Hjt & Hb). exists j. split; [done|]. set_solver.
    + exists j. split; [done|]. right; right. split; [|done]. apply elem_of_elements in Ht. destruct (Hk id t Ht) as (_ & j' & Hj' & <-).
      assert (j' = j) as -> by congruence. apply elem_of_union. left. by apply elem_of_singleton.
Qed.

Lemma conn_ok_closes closed hashes id s s' :
  conn_ok closed hashes s → closes id s s' → config s' = config s →
  (∀ id' r, od_get id' (req_status s') = Some r → od_get id' (req_status s) = Some r) →
  conn_ok ({[id]} ∪ closed) hashes s'.
Proof.
  intros Hok Hc Hcfg Hreq. apply (conn_ok_step closed _ hashes s); [done|by eapply jobs_ok_close; [apply Hok|]|done|].
  intros id' r Hr. exists r. split; [by apply Hreq|apply same_shape_refl].
Qed.

(** Nothing is missing when a request ends. *)
Lemma wp_request_finished closed hashes id s :
  conn_ok closed hashes s →
  wp (request_finished id) (λ _, conn_ok ({[id]} ∪ closed) hashes) (λ _, False) s.
Proof.
  intros Hok. unfold request_finished. apply wp_get.
  assert (tj_of id s = ∅ → ∀ s', (jobs s' = jobs s ∧ stale_job_threshold s' = stale_job_threshold s
      ∧ job_counter s' = job_counter s ∧ manager s' = manager s ∧ config s' = config s
      ∧ block_id_to_pending_jobs s' = block_id_to_pending_jobs s) →
    (od_wf (req_status s) → od_wf (req_status s')) → (∀ rid, tj_of rid s' = tj_of rid s) →
    (∀ id' r, od_get id' (req_status s') = Some r → od_get id' (req_status s) = Some r) →
    conn_ok ({[id]} ∪ closed) hashes s') as Hidle.
  { intros He s' (? & ? & ? & ? & ? & Ep) Hw Ht Hreq. apply (conn_ok_closes closed hashes id s); try done.
    split; try done. intros b t. unfold pending_on, newly_watched. rewrite Ep, He. rewrite elements_empty, elem_of_nil. tauto. }
  destruct (od_get id (req_status s)) as [r|] eqn:Hr.
  2:{ apply wp_ret, Hidle; [|by repeat split|done..]. unfold tj_of. by rewrite Hr. }
  assert (tj_of id s = transfer_jobs r) as Htj by (unfold tj_of; by rewrite Hr).
  case_bool_decide as He.
  - apply wp_modify, Hidle; [by rewrite Htj|by repeat split|intros; by apply od_wf_del| |].
    + intros rid. unfold tj_of. cbn [put_req_status req_status]. rewrite od_get_del.
      destruct (decide (id = rid)) as [<-|]; [by rewrite Hr|done].
    + intros id' r'. cbn [put_req_status req_status]. rewrite od_get_del. by destruct (decide (id = id')).
  - destruct (watch_jobs (elements (transfer_jobs r)) s) as (p & Hrun & Hp).
    { intros t Ht%elem_of_elements. rewrite <- Htj in Ht.
      destruct (jo_known _ _ (co_jobs _ _ _ Hok) id t Ht) as (_ & j & Hj & _). by eauto. }
    eapply wp_Ret; [exact Hrun|]. apply (conn_ok_closes closed hashes id s); try done.
    split; try done. rewrite Htj. exact Hp.
Qed.

Lemma wp_take_events closed hashes s :
  conn_ok closed hashes s → wp take_events (λ _, conn_ok closed hashes) (λ _, False) s.
Proof.
  intros Hok. unfold take_events. apply wp_get. destruct (CPUManager.take_events (manager s)) as [evs m] eqn:He.
  apply wp_bind, wp_put, wp_ret. eapply conn_ok_quiet; [done|]. unfold CPUManager.take_events in He.
  destruct (events (manager s)) as [l|]; injection He as <- <-; apply quiet_manager;
    [apply mgr_wf_set_events|by apply refs_kept_eq|done|by apply refs_kept_eq].
Qed.

(** ** Resets *)
Lemma od_get_map_values {V} (f : V → V) k (d : odict string V) :
  od_get k ((λ '(i, v), (i, f v)) <$> d) = f <$> od_get k d.
Proof. induction d as [|[i v] d IH]; cbn; [done|]. by case_decide. Qed.

Definition restarted r : RequestOffloadState := put_groups (put_next_stored 0 <$> group_states r) r.

Lemma restarted_shape r : same_shape r (restarted r).
Proof.
  split; unfold group_keys, group_blocks, restarted; cbn; rewrite <- ?list_fmap_compose; [done..|].
  intros [Hn Hl]. split; [|done]. cbn. by apply Forall_fmap, Forall_true.
Qed.

(** What a reset leaves: no jobs, but the requests as they were, apart from
    their progress. *)
Lemma reset_outcome s :
  current_batch_load_jobs s = [] → current_batch_jobs_to_flush s = ∅ →
  ∃ s', reset_cache s = Ret tt s' ∧ jobs s' = [] ∧ block_id_to_pending_jobs s' = ∅
    ∧ stale_job_threshold s' = job_counter s ∧ job_counter s' = job_counter s ∧ config s' = config s
    ∧ manager s' = CPUManager.reset_cache (manager s)
    ∧ req_status s' = (λ '(id, r), (id, restarted r)) <$> req_status s
    ∧ current_batch_jobs_to_flush s' = list_to_set (od_keys (jobs s)).
Proof.
  intros Hl Hf. unfold reset_cache. rewrite get_bind, !assert_bind by (by apply bool_decide_eq_true). eexists. split; [reflexivity|].
  split_and!; try done. cbn. rewrite Hf. apply union_empty_l_L.
Qed.

(** The same, when the guests change. *)
Lemma conn_ok_shapes {HG' : Guests} closed hashes s s' :
  conn_ok (HG := HG) closed hashes s → jobs_ok (HG := HG') closed s' → config s' = config s →
  (∀ id r', od_get id (req_status s') = Some r' →
     ∃ r, od_get id (req_status s) = Some r ∧ same_shape r r') →
  conn_ok (HG := HG') closed hashes s'.
Proof.
  intros [_ Hg Hr] Hj' Hc Hreq. split; rewrite ?Hc; [done..|].
  intros id r' (r & Hget & Hsh)%Hreq. eapply req_ok_shape; eauto.
Qed.

(** With no job in flight but those of guests, a reset is harmless; the guests
    are gone with it. *)
Lemma wp_reset_cache closed hashes s :
  conn_ok closed hashes s → (∀ i j, od_get i (jobs s) = Some j → i ∈ guests) →
  wp reset_cache (λ _ s', conn_ok (HG := no_guests) closed hashes s'
      ∧ current_batch_jobs_to_flush s' = list_to_set (od_keys (jobs s)))
    (λ s', s' = s) s.
Proof.
  intros Hok Hj. destruct (decide (current_batch_load_jobs s = [] ∧ current_batch_jobs_to_flush s = ∅)) as [[Hl Hf]|Hne].
  - destruct (reset_outcome s Hl Hf) as (s' & Hrun & Ej & Ep & Es & Ec & Ecfg & Em & Er & Ef). eapply wp_Ret; [exact Hrun|].
    pose proof (co_jobs _ _ _ Hok) as [Hm Hr Hw Hst Hjs Hk Hg Hlo Hd Hp].
    assert (∀ id, od_get id (req_status s') = restarted <$> od_get id (req_status s)) as Hget
      by (intros id; rewrite Er; apply od_get_map_values).
    assert (∀ rid t, t ∉ tj_of rid s') as Hnone.
    { intros rid t Ht. assert (t ∈ tj_of rid s) as Ht'.
      { unfold tj_of in *. rewrite Hget in Ht. by destruct (od_get rid (req_status s)). }
      destruct (Hk rid t Ht') as (Hgt & j & Hj' & _). by apply Hgt, (Hj t j). }
    split; [|exact Ef].
    apply (conn_ok_shapes closed hashes s); [done| |done|].
    + split; rewrite ?Ej, ?Es, ?Ec, ?Em; try done.
      * by apply reset_wf.
      * rewrite Er. unfold od_wf, od_keys in *. rewrite <- list_fmap_compose.
        rewrite (list_fmap_ext _ fst); [done|]. by intros i [].
      * apply od_wf_nil.
      * intros rid t Ht. by apply Hnone in Ht.
      * intros b t Ht. unfold pending_on in Ht. rewrite Ep, lookup_empty in Ht. by apply elem_of_empty in Ht.
    + intros id r'. rewrite Hget. intros (r & Hr' & ->)%fmap_Some. exists r. split; [done|apply restarted_shape].
  - unfold reset_cache. apply wp_get. apply wp_bind, wp_assert; [intros Hl%bool_decide_eq_true|done].
    apply wp_bind, wp_assert; [intros Hf%bool_decide_eq_true|done]. by destruct Hne.
Qed.

End endings.

(** ** The connector on its own *)
#[local] Existing Instance no_guests.

Section traces.
Context {F P : Type} `{HF : FloatOps F} `{HP : CachePolicyLaws P}.
Implicit Types (s : OffloadingConnectorScheduler P) (closed : gset string)
  (hashes : string → list (list Z)) (r : RequestOffloadState) (id : string).

(** ** Calls *)
Inductive ConnectorCall :=
  | CMatch (request : Request F) (num_computed_tokens : Z)
  | CAlloc (pool : BlockPool) (do_remote_decode : bool) (request : Request F) (blocks : list (list nat)) (num_external_tokens : Z)
  | CMeta (o : SchedulerOutput)
  | COutput (completed_jobs : odict Z Z)
  | CFinish (id : string)
  | CEvents
  | CReset.

(** A call, while the requests are as [live] says. *)
Definition run_call (live : string → Request F) (defer_store : Request F → bool) (c : ConnectorCall) :
    M (OffloadingConnectorScheduler P) unit :=
  match c with
  | CMatch request n => get_num_new_matched_tokens request n ;; mret tt
  | CAlloc pool drd request blocks n => update_state_after_alloc pool drd request blocks n
  | CMeta o => build_connector_meta live defer_store o ;; mret tt
  | COutput completed => update_connector_output live completed
  | CFinish id => request_finished id
  | CEvents => take_events ;; mret tt
  | CReset => reset_cache
  end.

(** What the scheduler and the workers see to. *)
Definition call_ok closed (live : string → Request F) s (c : ConnectorCall) : Prop :=
  match c with
  | CMatch request n => live (request_id request) = request ∧ 0 ≤ n
  | CAlloc _ _ request _ n =>
      live (request_id request) = request ∧ request_id request ∉ closed ∧ NoDup (block_hashes request)
      ∧ 0 ≤ n ∧ room (manager s)
  | CMeta o => output_ok live closed s o
  | COutput completed =>
      finished_ok live closed s ∧ od_wf completed
      ∧ ∀ jid count, (jid, count) ∈ completed → report_ok s jid count
  | CFinish _ | CEvents => True
  | CReset => jobs s = []
  end.

Definition closed_by (c : ConnectorCall) closed : gset string :=
  match c with CFinish id => {[id]} ∪ closed | _ => closed end.

Definition hashes_of (live : string → Request F) : string → list (list Z) := λ id, block_hashes (live id).

(** The states the connector goes through: requests only gain block hashes
    between calls. *)
Inductive reached : gset string → (string → list (list Z)) → OffloadingConnectorScheduler P → Prop :=
  | reach_init cfg m prefix : config_ok cfg → mgr_wf m → reached ∅ (λ _, []) (connector_init cfg m prefix)
  | reach_call closed hashes s live defer_store c :
      reached closed hashes s →
      (∀ id, is_Some (od_get id (req_status s)) → hashes id `prefix_of` hashes_of live id) →
      call_ok closed live s c →
      reached (closed_by c closed) (hashes_of live) (out_state (run_call live defer_store c s)).

Definition infallible (c : ConnectorCall) : bool :=
  match c with COutput _ | CFinish _ | CEvents => true | _ => false end.

Lemma wp_run_call closed live defer_store c s :
  conn_ok closed (hashes_of live) s → call_ok closed live s c →
  wp (run_call live defer_store c) (λ _, conn_ok (closed_by c closed) (hashes_of live))
    (λ s', infallible c = false ∧ conn_ok (closed_by c closed) (hashes_of live) s') s.
Proof.
  intros Hok Hc. destruct c as [request n|pool drd request blocks n|o|completed|id| |]; cbn [run_call closed_by infallible call_ok] in *.
  - destruct Hc as [Hl Hn]. apply wp_bind.
    eapply wp_mono; [apply (wp_match closed (hashes_of live)); [done|unfold hashes_of; by rewrite Hl|done]|..]; cbn beta.
    + intros _ s' Hs'. apply wp_ret. by eapply conn_ok_left.
    + intros s' Hs'. split; [done|]. by eapply conn_ok_left.
  - destruct Hc as (Hl & Hcl & Hnd & Hn & Hroom).
    eapply wp_mono; [apply (wp_alloc closed (hashes_of live)); [done..| |done]|done|done]. unfold hashes_of. by rewrite Hl.
  - apply wp_bind. eapply wp_mono; [by apply (wp_connector_meta live defer_store closed)|intros meta s' []; by apply wp_ret|done].
  - destruct Hc as (Hfin & Hwf & Hall).
    eapply wp_mono; [by apply (wp_connector_output live closed (hashes_of live))|by intros _ s' []|done].
  - eapply wp_mono; [by apply (wp_request_finished closed (hashes_of live))|done|done].
  - apply wp_bind. eapply wp_mono; [by apply (wp_take_events closed (hashes_of live))|intros; by apply wp_ret|done].
  - eapply wp_mono; [apply (wp_reset_cache closed (hashes_of live)); [done|by rewrite Hc]|by intros _ s' [? _]|by intros ? ->].
Qed.

Lemma init_conn_ok cfg m prefix : config_ok cfg → mgr_wf m → conn_ok ∅ (λ _, []) (connector_init cfg m prefix).
Proof.
  intros Hcfg Hm. split; [|done|by intros]. split; try done; cbn.
  - apply od_wf_nil.
  - apply od_wf_nil.
Qed.

Lemma reached_ok closed hashes s : reached closed hashes s → conn_ok closed hashes s.
Proof.
  induction 1 as [cfg m prefix Hcfg Hm|closed hashes s live defer_store c _ IH Hgrow Hc]; [by apply init_conn_ok|].
  apply wp_out. eapply wp_mono; [apply (wp_run_call closed live defer_store c)|done|by intros s' []]; [|done].
  eapply conn_ok_hashes; [exact IH|]. intros id r Hr. apply Hgrow. by eauto.
Qed.

(** ** Properties *)
(** Whatever sequence of calls the connector has gone through, raising
    calls included, its bookkeeping is sound: every job in flight is known to
    its request (which has no other job when it is a load), its CPU blocks are
    referenced as often as loads need them or are being written by that one
    store, the GPU blocks it reads are watched exactly as soon as they may be
    reused, and every request's keys are those of its block hashes. *)
Theorem connector_jobs_accounted closed hashes s : reached closed hashes s → conn_ok closed hashes s.
Proof. apply reached_ok. Qed.

(** C35.  As long as every call meets [call_ok] (blocks stored for a request are
    new to it, a step brings none for an ended request, the CPU references have
    room, and the cache is reset only with no job in flight), the reports of the
    workers (on jobs in flight, or from before a reset), the end of any request
    and the reading of events return.  Without the last condition the end of a
    request raises ([reset_strands_requests]); with it none of the dictionary
    lookups and assertions on the way can fail, and the bookkeeping is sound
    afterwards. *)
Theorem reports_never_fail closed hashes s live defer_store c :
  reached closed hashes s →
  (∀ id, is_Some (od_get id (req_status s)) → hashes id `prefix_of` hashes_of live id) →
  call_ok closed live s c → infallible c = true →
  ∃ s', run_call live defer_store c s = Ret tt s' ∧ conn_ok (closed_by c closed) (hashes_of live) s'.
Proof.
  intros Hs Hgrow Hc Hinf. apply reached_ok in Hs.
  assert (conn_ok closed (hashes_of live) s) as Hok.
  { eapply conn_ok_hashes; [exact Hs|]. intros id r Hr. apply Hgrow. by eauto. }
  pose proof (wp_run_call closed live defer_store c s Hok Hc) as Hwp. rewrite Hinf in Hwp.
  destruct (wp_total (run_call live defer_store c) (λ _, conn_ok (closed_by c closed) (hashes_of live)) s) as ([] & s' & Hrun & Hok').
  - eapply wp_mono; [exact Hwp|done|by intros s' []].
  - by exists s'.
Qed.

(** A GPU block handed out again while a transfer still reads it is
    safe: if a step gives a block to a request, every store in flight that
    reads this block and no longer holds it (a block of a sliding-window group,
    or of a request that has finished) is among the jobs the step tells the
    workers to flush first. *)
Theorem reuse_flushed closed hashes s live defer_store o meta s' id groups preempted b jid j :
  reached closed hashes s →
  (∀ id, is_Some (od_get id (req_status s)) → hashes id `prefix_of` hashes_of live id) →
  output_ok live closed s o →
  build_connector_meta live defer_store o s = Ret meta s' →
  (id, Some groups, preempted) ∈ yield_req_data o → b ∈ concat groups →
  od_get jid (jobs s) = Some j → b ∈ sliding j ∨ req_id j ∈ closed ∧ b ∈ non_sliding j →
  jid ∈ jobs_to_flush meta.
Proof.
  intros Hs Hgrow Ho Hrun Hin Hb Hj Hreads. apply reached_ok in Hs.
  assert (conn_ok closed (hashes_of live) s) as Hok.
  { eapply conn_ok_hashes; [exact Hs|]. intros id' r Hr. apply Hgrow. by eauto. }
  pose proof (wp_connector_meta live defer_store closed s o Hok Ho) as Hwp. unfold wp in Hwp. rewrite Hrun in Hwp.
  destruct Hwp as [_ Hf]. apply (Hf _ _ _ Hin b Hb).
  pose proof (jo_jobs _ _ (co_jobs _ _ _ Hok) jid j Hj) as Hjob.
  destruct Hreads as [Hsl|[Hcl Hns]]; [by apply (jb_sliding _ _ _ _ Hjob)|by apply (jb_closed _ _ _ _ Hjob)].
Qed.

(** Once the workers have reported every job in flight, nothing is
    left of them: no job, no watched block, no request waiting for a job; a
    reset is then harmless. *)
Theorem connector_drains closed hashes s live :
  reached closed hashes s →
  (∀ id, is_Some (od_get id (req_status s)) → hashes id `prefix_of` hashes_of live id) →
  finished_ok live closed s →
  ∃ s', update_connector_output live ((λ '(i, j), (i, pending_count j)) <$> jobs s) s = Ret tt s'
    ∧ jobs s' = [] ∧ (∀ b, pending_on b s' = ∅) ∧ (∀ id, tj_of id s' = ∅).
Proof.
  intros Hs Hgrow Hfin. apply reached_ok in Hs.
  assert (conn_ok closed (hashes_of live) s) as Hok.
  { eapply conn_ok_hashes; [exact Hs|]. intros id r Hr. apply Hgrow. by eauto. }
  pose proof (co_jobs _ _ _ Hok) as Hjobs. set (all := _ <$> jobs s).
  assert (∀ i, od_get i all = pending_count <$> od_get i (jobs s)) as Hall.
  { intros i. unfold all. clear. induction (jobs s) as [|[k j] js IH]; cbn; [done|]. by case_decide. }
  destruct (wp_total (update_connector_output live all) _ s (wp_connector_output live closed (hashes_of live) s all Hok Hfin
    ltac:(unfold od_wf, od_keys, all; rewrite <- list_fmap_compose, (list_fmap_ext _ fst) by (by intros i [? ?]); apply Hjobs)
    ltac:(intros jid count ([i j] & [= -> ->] & Hin)%list_elem_of_fmap;
          apply (od_elem_get i j _ (jo_wf _ _ Hjobs)) in Hin; split; [by apply (jb_pending _ _ _ _ (jo_jobs _ _ Hjobs i j Hin))|];
          right; split; [by apply not_elem_of_empty|by exists j]))) as ([] & s' & Hrun & Hok' & _ & Hgone).
  assert (∀ i, od_get i (jobs s') = None) as Hnone.
  { intros i. specialize (Hgone i). rewrite Hall in Hgone. destruct (od_get i (jobs s)) as [j|]; cbn in Hgone; [by destruct (Hgone j)|done]. }
  exists s'. split; [exact Hrun|]. split; [|split].
  - destruct (jobs s') as [|[i j] js]; [done|]. specialize (Hnone i). cbn in Hnone. by rewrite decide_True in Hnone.
  - intros b. apply set_eq. intros t. split; [|by intros ?%elem_of_empty]. intros Ht.
    destruct (jo_watched _ _ (co_jobs _ _ _ Hok') b t Ht) as (j & Hj & _). by rewrite Hnone in Hj.
  - intros id. apply set_eq. intros t. split; [|by intros ?%elem_of_empty]. intros Ht.
    destruct (jo_known _ _ (co_jobs _ _ _ Hok') id t Ht) as (_ & j & Hj & _). by rewrite Hnone in Hj.
Qed.

(** C36.  A reset while a job is in flight strands its request: the reset
    forgets the job but not the request's reference to it, so the end of that
    request, or its preemption, then raises [KeyError]. *)
Theorem reset_strands_requests closed hashes s jid j :
  reached closed hashes s → od_get jid (jobs s) = Some j →
  current_batch_load_jobs s = [] → current_batch_jobs_to_flush s = ∅ →
  ∃ s', reset_cache s = Ret tt s'
    ∧ request_finished (req_id j) s' = Exc KeyError s' ∧ flush_preempted (req_id j) s' = Exc KeyError s'.
Proof.
  intros Hs%reached_ok Hj Hl Hf. destruct (reset_outcome s Hl Hf) as (s' & Hrun & Ej & _ & _ & _ & _ & _ & Er & _).
  exists s'. split; [exact Hrun|]. pose proof (jb_req _ _ _ _ (jo_jobs _ _ (co_jobs _ _ _ Hs) jid j Hj) (not_elem_of_empty jid)) as Hin.
  unfold tj_of in Hin. destruct (od_get (req_id j) (req_status s)) as [r|] eqn:Hr; [|by apply elem_of_empty in Hin].
  assert (od_get (req_id j) (req_status s') = Some (restarted r)) as Hr' by (rewrite Er, od_get_map_values; by rewrite Hr).
  assert (transfer_jobs (restarted r) ≠ ∅) as Hne by (intros He; change (transfer_jobs (restarted r)) with (transfer_jobs r) in He; set_solver).
  assert (∃ x l, elements (transfer_jobs (restarted r)) = x :: l) as (x & l & Hel).
  { destruct (elements (transfer_jobs (restarted r))) as [|x l] eqn:He; [|by eauto]. apply elements_empty_inv, leibniz_equiv in He. done. }
  assert (get_job x s' = Exc KeyError s') as Hget by (unfold get_job; by rewrite get_bind, Ej).
  split.
  - unfold request_finished. rewrite get_bind, Hr', bool_decide_false by done. rewrite Hel. cbn [forM].
    by rewrite !bind_unfold, Hget.
  - unfold flush_preempted. rewrite get_bind, Hr', Hel. by rewrite bind_unfold, Hget.
Qed.
End traces.
