(* ===== verification/OffloadGuests.v ===== *)
(** * Guests of the offloading connector

    The invariant of the connector when its guests act: they take and give
    back references, register stores of their own, and finish them. *)
From S2P Require Import Prelude Hoare PyFloat CachePolicy Request BlockPool KVCache CPUManager LookupFacts OffloadKeys OffloadRefs NativeOffload OffloadJobs OffloadSteps OffloadLoads OffloadStores OffloadDone OffloadTraces.
Import Offloading.
Local Open Scope Z_scope.

Section guests.
Context {P : Type} `{CachePolicyLaws P} {HG HG' : Guests}.
Implicit Types (s : OffloadingConnectorScheduler P) (closed : gset string) (hashes : string → list (list Z)).
Notation owned1 := (owned (Guests := HG)).
Notation owned2 := (owned (Guests := HG')).
Notation reads1 := (guest_reads (Guests := HG)).
Notation reads2 := (guest_reads (Guests := HG')).

Lemma guests_eq : reads2 = reads1 → ∀ t, t ∈ guests (HG := HG') ↔ t ∈ guests (HG := HG).
Proof. intros He t. by rewrite !elem_of_guests, He. Qed.

(** Keys that are being written by some job in flight. *)
Definition in_writing s (k : OffloadKey) : Prop :=
  ∃ i j, od_get i (jobs s) = Some j ∧ is_store j = true ∧ k ∈ keys j.

Lemma in_writing_ref closed s k :
  jobs_ok (HG := HG) closed s → in_writing s k → ref_of k (manager s) = Some (-1).
Proof. intros Hjobs (i & j & Hj & Hs & Hk). exact (jb_store _ _ _ _ (jo_jobs _ _ Hjobs i j Hj) Hs k Hk). Qed.

(** The counts and the references held change. *)
Lemma jobs_ok_owners closed s m :
  jobs_ok (HG := HG) closed s → reads2 = reads1 → mgr_wf m →
  (∀ k, in_writing s k → ref_of k m = Some (-1)) →
  (∀ k, 0 < loads (jobs s) k + owned2 k → ∃ z, ref_of k m = Some z ∧ loads (jobs s) k + owned2 k ≤ z) →
  jobs_ok (HG := HG') closed (put_manager m s).
Proof.
  intros [Hm Hr Hw Hst Hj Hk Hg Hl Hd Hp] He Hwf Hwr Hown. pose proof (guests_eq He) as Hgs.
  split; try done.
  - intros i j Hij. destruct (Hj i j Hij) as [? ? Hq ? Hsto ? ? ?]. split; try done.
    + intros Hn. apply Hq. by rewrite <- Hgs.
    + intros Hs k Hin. apply Hwr. by exists i, j.
  - intros rid t Ht. rewrite Hgs. by apply Hk.
  - intros t reads Ht. rewrite He in Ht. by apply Hg.
  - intros b t Ht. setoid_rewrite Hgs. by apply Hp.
Qed.

(** A guest registers a store. *)
Record invites s (id : Z) (j : TransferJobStatus) (reads : gset nat) s' : Prop := {
  iv_jobs : jobs s' = od_set id j (jobs s);
  iv_stale : stale_job_threshold s' = stale_job_threshold s;
  iv_counter : job_counter s' = job_counter s;
  iv_mgr : manager s' = manager s;
  iv_reqs : req_status s' = req_status s;
  iv_config : config s' = config s;
  iv_pending : ∀ b t, t ∈ pending_on b s' ↔ t ∈ pending_on b s ∨ t = id ∧ b ∈ reads
}.

Lemma jobs_ok_invite closed s id ks n rid reads s' :
  let j := mkJob rid n ks true None None in
  jobs_ok (HG := HG) closed s → invites s id j reads s' →
  stale_job_threshold s ≤ id < job_counter s → od_get id (jobs s) = None → 0 < n → storable ks s →
  reads2 = <[id := reads]> reads1 → (∀ k, owned2 k = owned1 k) →
  jobs_ok (HG := HG') closed s'.
Proof.
  intros j [Hm Hr Hw Hst Hj Hk Hg Hl Hd Hp] [Ej Es Ec Em Er _ Ep] Hid Hnew Hn Hsto He Ho.
  assert (∀ t, t ∈ guests (HG := HG') ↔ t = id ∨ t ∈ guests (HG := HG)) as Hgs.
  { intros t. rewrite !elem_of_guests, He. destruct (decide (t = id)) as [->|Hne].
    - rewrite lookup_insert_eq. naive_solver.
    - rewrite lookup_insert_ne by done. naive_solver. }
  assert (∀ i, od_get i (jobs s') = if decide (id = i) then Some j else od_get i (jobs s)) as Hget
    by (intros i; by rewrite Ej, od_get_set).
  assert (∀ i ji, od_get i (jobs s) = Some ji → i ≠ id) as Hne by (intros i ji Hi ->; congruence).
  assert (∀ rid, tj_of rid s' = tj_of rid s) as Et by (intros ?; unfold tj_of; by rewrite Er).
  split; rewrite ?Em, ?Er, ?Es, ?Ec; try done.
  - rewrite Ej. by apply od_wf_set.
  - intros i ji. rewrite Hget. case_decide as Hi.
    + intros [= <-]. subst i. split; rewrite ?Es, ?Ec, ?Em; try done.
      * intros Hng. destruct Hng. apply Hgs. by left.
      * intros _ k Hin. by apply Hsto.
      * constructor.
      * intros b Hb. by apply not_elem_of_nil in Hb.
      * intros _ b Hb. by apply not_elem_of_nil in Hb.
    + intros Hji. destruct (Hj i ji Hji) as [? ? Hq ? ? ? Hsl Hcl]. split; rewrite ?Es, ?Ec, ?Em, ?Et; try done.
      * intros Hng. apply Hq. intros Hin. apply Hng, Hgs. by right.
      * intros b Hb. apply Ep. left. by apply Hsl.
      * intros Hc b Hb. apply Ep. left. by apply Hcl.
  - intros r t. rewrite Et. intros Ht. destruct (Hk r t Ht) as (Hng & jt & Hjt & Hrid). split.
    + intros [->|Hin]%Hgs; [by apply (Hne id jt)|done].
    + exists jt. rewrite Hget, decide_False; [done|]. intros <-. by apply (Hne id jt).
  - intros t rs. rewrite He. destruct (decide (t = id)) as [->|Hti].
    + rewrite lookup_insert_eq. intros [= <-]. split.
      * exists j. by rewrite Hget, decide_True.
      * intros b. rewrite Ep. split; [|by right]. intros [Ht|[_ ?]]; [|done].
        destruct (Hp b id Ht) as (jt & Hjt & _). congruence.
    + rewrite lookup_insert_ne by done. intros Ht. destruct (Hg t rs Ht) as [(jt & Hjt & Hs) Hb]. split.
      * exists jt. by rewrite Hget, decide_False.
      * intros b. rewrite Ep, Hb. naive_solver.
  - intros k. rewrite Ej, loads_set_new by done. unfold load1. cbn. rewrite Z.add_0_r, Ho. apply Hl.
  - intros a b ja jb k. rewrite !Hget. case_decide as Hia; case_decide as Hib; intros Ha Hb Hab Hsa Hsb Hka.
    + congruence.
    + injection Ha as <-. destruct (Hsto k Hka) as [_ Hn']. by apply (Hn' b).
    + injection Hb as <-. intros Hkb. destruct (Hsto k Hkb) as [_ Hn']. by apply (Hn' a ja).
    + by apply (Hd a b ja jb).
  - intros b t [Ht|[-> Hb]]%Ep.
    + destruct (Hp b t Ht) as (jt & Hjt & Hw'). exists jt. split; [rewrite Hget, decide_False; [done|]|].
      * intros <-. by apply (Hne id jt).
      * rewrite Hgs. naive_solver.
    + exists j. rewrite Hget, decide_True by done. split; [done|]. left. apply Hgs. by left.
Qed.

(** A guest's store is complete. *)
Record leaves s (id : Z) (j : TransferJobStatus) s' : Prop := {
  lv_jobs : jobs s' = od_del id (jobs s);
  lv_stale : stale_job_threshold s' = stale_job_threshold s;
  lv_counter : job_counter s' = job_counter s;
  lv_mgr : mgr_wf (manager s');
  lv_refs : ∀ k, ref_of k (manager s')
    = (λ z, if bool_decide (k ∈ keys j) then Z.max 0 z else z) <$> ref_of k (manager s);
  lv_reqs : req_status s' = req_status s;
  lv_config : config s' = config s;
  lv_pending : ∀ b, pending_on b s' = pending_on b s ∖ {[id]}
}.

Lemma jobs_ok_leave closed s id j reads s' :
  jobs_ok (HG := HG) closed s → reads1 !! id = Some reads → od_get id (jobs s) = Some j → leaves s id j s' →
  reads2 = delete id reads1 → (∀ k, owned2 k = owned1 k) → jobs_ok (HG := HG') closed s'.
Proof.
  intros [Hm Hr Hw Hst Hj Hk Hg Hl Hd Hp] Hid Hjid [Ej Es Ec Em Ek Er _ Ep] He Ho.
  destruct (Hg id reads Hid) as [(j0 & Hj0 & Hsj & _) _]. assert (j0 = j) as -> by congruence.
  assert (∀ t, t ∈ guests (HG := HG') ↔ t ≠ id ∧ t ∈ guests (HG := HG)) as Hgs.
  { intros t. rewrite !elem_of_guests, He. destruct (decide (t = id)) as [->|Hne].
    - rewrite lookup_delete_eq. split; [by intros []|naive_solver].
    - rewrite lookup_delete_ne by done. naive_solver. }
  assert (∀ i ji, od_get i (jobs s') = Some ji ↔ i ≠ id ∧ od_get i (jobs s) = Some ji) as Hget.
  { intros i ji. rewrite Ej, od_get_del. case_decide; [|naive_solver]. subst. split; [done|]. by intros [? _]. }
  assert (∀ rid, tj_of rid s' = tj_of rid s) as Et by (intros ?; unfold tj_of; by rewrite Er).
  split; rewrite ?Er, ?Es, ?Ec; try done.
  - rewrite Ej. by apply od_wf_del.
  - intros i ji [Hne Hi]%Hget. destruct (Hj i ji Hi) as [Hi1 Hi2 Hi3 Hi4 Hi5 Hi6 Hi7 Hi8].
    split; rewrite ?Es, ?Ec, ?Et; try done.
    + intros Hng. apply Hi3. intros Hin. apply Hng, Hgs. done.
    + intros Hs k Hin. rewrite Ek, (Hi5 Hs k Hin). cbn. case_bool_decide as Hkj; [|done].
      exfalso. by apply (Hd i id ji j k).
    + intros b Hb. rewrite Ep. specialize (Hi7 b Hb). set_solver.
    + intros Hc b Hb. rewrite Ep. specialize (Hi8 Hc b Hb). set_solver.
  - intros rid t. rewrite Et. intros Ht. destruct (Hk rid t Ht) as (Hng & jt & Hjt & Hrid). split.
    + by intros [_ ?]%Hgs.
    + exists jt. split; [|done]. apply Hget. split; [|done]. intros ->. apply Hng, elem_of_guests. by exists reads.
  - intros t rs. rewrite He. intros [Hne Ht]%lookup_delete_Some. destruct (Hg t rs Ht) as [(jt & Hjt & Hs) Hb]. split.
    + exists jt. split; [|done]. by apply Hget.
    + intros b. rewrite Ep, elem_of_difference, Hb, elem_of_singleton. naive_solver.
  - intros k. rewrite Ej, (loads_del id j) by done. unfold load1. rewrite Hsj. cbn. rewrite Z.sub_0_r, Ho. intros Hpos.
    destruct (Hl k Hpos) as (z & Hz & Hle). rewrite Ek, Hz. cbn. eexists. split; [done|]. case_bool_decide; lia.
  - intros a b ja jb k [_ Ha]%Hget [_ Hb]%Hget. by apply (Hd a b ja jb).
  - intros b t. rewrite Ep. intros [Ht Hne]%elem_of_difference. destruct (Hp b t Ht) as (jt & Hjt & Hb).
    assert (t ≠ id) as Hti by (intros ->; by apply Hne, elem_of_singleton). exists jt. split; [by apply Hget|].
    rewrite Hgs. naive_solver.
Qed.
End guests.
