(* ===== verification/OffloadDemo.v ===== *)
(** * A run of the offloading connector

    A request is stored, finishes, and one of its blocks goes to another
    request: the theorems about sequences of calls at these concrete states. *)
From Stdlib Require Import QArith.
From S2P Require Import Prelude Hoare PyFloat CachePolicy Request BlockPool KVCache CPUManager OffloadKeys OffloadRefs NativeOffload OffloadJobs OffloadSteps OffloadStores OffloadDone OffloadTraces.
Import Offloading.
Local Open Scope Z_scope.
#[local] Existing Instance no_guests.

Definition demo_config : SchedulerOffloadConfig := mkConfig [mkGroup 0 4 4 1 None None] 1 1.
Definition demo_request (id : string) (st : RequestStatus) (n : nat) (hashes : list (list Z)) : Request Q :=
  mkRequest id 0 0%Q st 16 (Z.of_nat n) [] (repeat 7 n) [] 0 [] 0 hashes false None None None None None None.
Definition demo_live (finished : bool) (id : string) : Request Q :=
  if decide (id = "a"%string) then demo_request "a" (if finished then FINISHED_STOPPED else RUNNING) 9 [[1]; [2]]
  else demo_request id RUNNING 3 [].
Definition demo_out (id : string) (blocks : list nat) (n : Z) : SchedulerOutput :=
  mkOutput [(id, [blocks])] [] ∅ [(id, n)] [].
Definition no_defer (_ : Request Q) : bool := false.

Definition demo_s0 : OffloadingConnectorScheduler LRU.t := connector_init demo_config (manager_init 8 false 0 0) true.
Definition demo_s1 := out_state (run_call (demo_live false) no_defer (CMatch (demo_live false "a") 0) demo_s0).
Definition demo_s2 := out_state (run_call (demo_live false) no_defer (CMeta (demo_out "a" [1%nat; 2%nat; 3%nat] 9)) demo_s1).
Definition demo_s3 := out_state (run_call (demo_live true) no_defer (CFinish (F := Q) "a") demo_s2).
Definition demo_s4 := out_state (run_call (demo_live true) no_defer (CMatch (demo_live true "b") 0) demo_s3).


(** Side conditions at concrete states, evaluated. *)
Lemma on_tracked (l : list string) (s : OffloadingConnectorScheduler LRU.t) (Q : string → Prop) :
  od_keys (req_status s) = l → Forall Q l → ∀ id, is_Some (od_get id (req_status s)) → Q id.
Proof. intros <- Hl id Hid%od_get_is_Some. by apply (proj1 (list.Forall_forall _ _) Hl). Qed.

Lemma output_one live closed (s : OffloadingConnectorScheduler LRU.t) id blocks n (held : list (list nat)) :
  id ∉ closed → NoDup (block_hashes (live id)) → 0 ≤ num_computed_tokens (live id : Request Q) + n →
  group_blocks <$> od_get id (req_status s) = Some held → NoDup (nonzero (concat held ++ blocks)) →
  output_ok live closed s (demo_out id blocks n).
Proof.
  intros Hcl Hh Hn Hheld Hnd. split; [apply NoDup_singleton|].
  intros id' groups preempted [= -> -> ->]%list_elem_of_singleton. split; [done|done|..].
  - intros r Hr. rewrite Hr in Hheld. injection Hheld as ->. cbn. by rewrite app_nil_r.
  - intros m. cbn. rewrite decide_True by done. by intros [= <-].
Qed.

Lemma demo_config_ok : config_ok demo_config.
Proof. split; [done|done|by repeat constructor|apply NoDup_singleton]. Qed.

Lemma demo_reach1 : reached (F := Q) ∅ (hashes_of (demo_live false)) demo_s1.
Proof.
  apply (reach_call ∅ (λ _, []) demo_s0 (demo_live false) no_defer (CMatch (demo_live false "a") 0)).
  - apply reach_init; [apply demo_config_ok|by apply init_wf].
  - by apply (on_tracked []); [|constructor].
  - by split.
Qed.

Lemma demo_reach2 : reached (F := Q) ∅ (hashes_of (demo_live false)) demo_s2.
Proof.
  apply (reach_call ∅ (hashes_of (demo_live false)) demo_s1 (demo_live false) no_defer (CMeta (demo_out "a" [1; 2; 3]%nat 9))).
  - apply demo_reach1.
  - apply (on_tracked ["a"%string]); [by vm_compute|by repeat constructor].
  - apply (output_one _ _ _ _ _ _ [[]]); [apply not_elem_of_empty| |done|by vm_compute|];
      apply (bool_decide_unpack _); by vm_compute.
Qed.

Lemma demo_reach3 : reached (F := Q) {["a"%string]} (hashes_of (demo_live true)) demo_s3.
Proof.
  pose proof (reach_call ∅ (hashes_of (demo_live false)) demo_s2 (demo_live true) no_defer (CFinish "a") demo_reach2) as Hr.
  rewrite <- (union_empty_r_L {["a"%string]} : _ = {["a"%string]}). apply Hr; [|done].
  apply (on_tracked ["a"%string]); [by vm_compute|by repeat constructor].
Qed.

Lemma demo_reach4 : reached (F := Q) {["a"%string]} (hashes_of (demo_live true)) demo_s4.
Proof.
  pose proof (reach_call {["a"%string]} (hashes_of (demo_live true)) demo_s3 (demo_live true) no_defer
    (CMatch (demo_live true "b") 0) demo_reach3) as Hr.
  apply Hr; [done|by split].
Qed.

(** The store of the finished request is in flight, and its blocks watched. *)
Lemma demo_flight :
  ∃ j, od_get 0 (jobs demo_s4) = Some j ∧ req_id j = "a"%string ∧ non_sliding j = [1; 2]%nat ∧ pending_count j = 1.
Proof.
  assert ((λ j, (req_id j, non_sliding j, pending_count j)) <$> od_get 0 (jobs demo_s4) = Some ("a"%string, [1; 2]%nat, 1)) as He
    by (vm_compute; reflexivity).
  destruct (od_get 0 (jobs demo_s4)) as [j|]; [|discriminate He]. exists j. split; [done|]. by injection He.
Qed.

Lemma connector_jobs_accounted_witness : 
  conn_ok {["a"%string]} (hashes_of (demo_live true)) demo_s4 ∧ od_keys (jobs demo_s4) = [0].
Proof. split; [apply (connector_jobs_accounted _ _ _ demo_reach4)|by vm_compute]. Defined.

Lemma demo_finished : finished_ok (demo_live true) {["a"%string]} demo_s4.
Proof.
  unfold finished_ok. apply (on_tracked ["a"; "b"]%string demo_s4
    (λ id, is_finished (demo_live true id) = bool_decide (id ∈ ({["a"%string]} : gset string)))); [by vm_compute|].
  constructor; [by vm_compute|]. constructor; [by vm_compute|]. constructor.
Qed.

Lemma reports_never_fail_witness :
  ∃ s', run_call (demo_live true) no_defer (COutput [(0, 1)]) demo_s4 = Ret tt s'
    ∧ conn_ok {["a"%string]} (hashes_of (demo_live true)) s'.
Proof.
  apply (reports_never_fail {["a"%string]} (hashes_of (demo_live true)) demo_s4 (demo_live true) no_defer (COutput [(0, 1)])
    demo_reach4); [done| |done].
  split; [exact demo_finished|]. split; [apply NoDup_singleton|]. intros jid count [= -> ->]%list_elem_of_singleton.
  split; [done|]. right. split; [apply not_elem_of_empty|]. destruct demo_flight as (j & Hj & _ & _ & Hp). exists j. rewrite Hp.
  split; [exact Hj|lia].
Defined.

(** The second block goes to [b] while it is still being read. *)
Definition demo_step : SchedulerOutput := demo_out "b" [2%nat] 3.

Lemma reuse_flushed_witness :
  ∃ meta s', build_connector_meta (demo_live true) no_defer demo_step demo_s4 = Ret meta s' ∧ 0 ∈ jobs_to_flush meta.
Proof.
  destruct (build_connector_meta (demo_live true) no_defer demo_step demo_s4) as [meta s'|e s'] eqn:Hrun.
  - exists meta, s'. split; [done|]. destruct demo_flight as (j & Hj & Hid & Hb & _).
    apply (reuse_flushed {["a"%string]} (hashes_of (demo_live true)) demo_s4 (demo_live true) no_defer demo_step meta s'
      "b" [[2%nat]] false 2%nat 0 j demo_reach4).
    + done.
    + apply (output_one _ _ _ _ _ _ [[]]); [apply not_elem_of_singleton_2; done| |done|vm_compute; reflexivity|];
        apply (bool_decide_unpack _); vm_compute; reflexivity.
    + exact Hrun.
    + by left.
    + by left.
    + exact Hj.
    + right. rewrite Hid, Hb. split; [by apply elem_of_singleton|]. right. by left.
  - assert (returns (build_connector_meta (demo_live true) no_defer demo_step demo_s4) = true) as Hret by (vm_compute; reflexivity).
    rewrite Hrun in Hret. discriminate Hret.
Defined.

Lemma connector_drains_witness :
  ∃ s', update_connector_output (demo_live true) ((λ '(i, j), (i, pending_count j)) <$> jobs demo_s4) demo_s4 = Ret tt s'
    ∧ jobs s' = [] ∧ (∀ b, pending_on b s' = ∅) ∧ (∀ id, tj_of id s' = ∅).
Proof. apply (connector_drains {["a"%string]} (hashes_of (demo_live true)) demo_s4 (demo_live true) demo_reach4); [done|exact demo_finished]. Defined.

Lemma reset_strands_requests_witness :
  ∃ s', reset_cache demo_s4 = Ret tt s' ∧ request_finished "a" s' = Exc KeyError s'.
Proof.
  destruct demo_flight as (j & Hj & Hid & _).
  destruct (reset_strands_requests {["a"%string]} (hashes_of (demo_live true)) demo_s4 0 j demo_reach4 Hj) as (s' & Hr & Hf & _).
  - vm_compute; reflexivity.
  - vm_compute; reflexivity.
  - exists s'. split; [exact Hr|]. by rewrite <- Hid.
Defined.
