(* ===== verification/Pressure.v ===== *)
(** * The waiting demand ([waiting_pressure] of [vllm/tokencake/offload_policy.py])

    A forecast of the next admissions: how many GPU blocks the waiting requests
    ask for, and how many of those blocks the requests that could be admitted
    right now would use.  It reads the scheduler, its queues, the KV-cache
    manager, the encoder cache and TokenCake's controller, and must change none
    of them. *)
From S2P Require Import Prelude PyFloat Metrics Protocol Config Request BlockPool KVCache EncoderCache.
From S2P Require Import Scoring Scheduling OffloadPolicy.
Local Open Scope Z_scope.

(** [PauseState] of [vllm/v1/core/sched/interface.py] *)
Inductive PauseState := UNPAUSED | PAUSED_NEW | PAUSED_ALL.
#[export] Instance PauseState_eq_dec : EqDecision PauseState.
Proof. solve_decision. Defined.

Section pressure.
Context {F : Type} `{FloatOps F} `{FloatLog1p F}.

(** What the forecast reads of the [Scheduler].  The controller, when there is
    one, works on the scheduler's own KV-cache manager, so [allocator] holds
    either the manager or the controller around it.  The queues are given by
    their iteration. *)
Record Scheduler := mkSchedulerView {
  allocator : KVCacheManager + Controller.SchedulingController F;
  encoder_cache_manager : EncoderCacheManager;
  policy : Controller.SchedulingPolicy;
  waiting : list (Request F);
  skipped_waiting : list (Request F);
  running : list (Request F);
  max_num_running_reqs : Z;
  max_num_scheduled_tokens : Z;
  max_num_encoder_input_tokens : Z;
  max_model_len : Z;
  num_lookahead_tokens : Z;
  enable_chunked_prefill : bool;
  long_prefill_token_threshold : Z;
  disable_chunked_mm_input : bool;
  need_mamba_block_aligned_split : bool;
  scheduler_reserve_full_isl : bool;
  is_encoder_decoder : bool;
  max_loras : option Z;
  pause_state : PauseState
}.

Definition scheduler_view_eta (s : Scheduler) : Scheduler :=
  {| allocator := allocator s; encoder_cache_manager := encoder_cache_manager s; policy := policy s;
     waiting := waiting s; skipped_waiting := skipped_waiting s; running := running s;
     max_num_running_reqs := max_num_running_reqs s;
     max_num_scheduled_tokens := max_num_scheduled_tokens s;
     max_num_encoder_input_tokens := max_num_encoder_input_tokens s;
     max_model_len := max_model_len s; num_lookahead_tokens := num_lookahead_tokens s;
     enable_chunked_prefill := enable_chunked_prefill s;
     long_prefill_token_threshold := long_prefill_token_threshold s;
     disable_chunked_mm_input := disable_chunked_mm_input s;
     need_mamba_block_aligned_split := need_mamba_block_aligned_split s;
     scheduler_reserve_full_isl := scheduler_reserve_full_isl s;
     is_encoder_decoder := is_encoder_decoder s; max_loras := max_loras s;
     pause_state := pause_state s |}.
Definition put_allocator (v : KVCacheManager + Controller.SchedulingController F) (s : Scheduler) : Scheduler :=
  ltac:(update_field scheduler_view_eta (allocator s) v s).

Notation SCM := (M Scheduler).

Definition kv_cache_manager (s : Scheduler) : KVCacheManager :=
  match allocator s with inl k => k | inr c => Controller.manager c end.
Definition put_kv (k : KVCacheManager) (s : Scheduler) : Scheduler :=
  put_allocator (match allocator s with inl _ => inl k | inr c => inr (Controller.put_manager k c) end) s.
Definition on_kv {A} (c : M KVCacheManager A) : SCM A := zoom kv_cache_manager put_kv c.

(** [controller], which counts only while it knows annotated requests. *)
Definition controller (s : Scheduler) : option (Controller.SchedulingController F) :=
  match allocator s with
  | inl _ => None
  | inr c => if bool_decide (Controller.metadata c = []) then None else Some c
  end.

(** [c if controller is not None else absent] *)
Definition by_controller {A} (absent : A) (c : M (Controller.SchedulingController F) A) : SCM A := λ s,
  match controller s with
  | None => Ret absent s
  | Some k => zoom (λ _, k) (λ k, put_allocator (inr k)) c s
  end.

Context (set_order : gset string → list string).
(** The comparison of object addresses, for requests equal otherwise. *)
Context (lt_id : bool).

(** [list(chain(...))] and [list(heapq.merge(...))] *)
Definition waiting_list (s : Scheduler) : list (Request F) :=
  match policy s with
  | Controller.FCFS => skipped_waiting s ++ waiting s
  | Controller.PRIORITY =>
      fst <$> Controller.heap_merge (request_lt lt_id) ((λ r, (r, tt)) <$> skipped_waiting s)
                ((λ r, (r, tt)) <$> waiting s)
  end.

(** The blocks a request needs for the tokens not computed yet. *)
Definition total_demand (s : Scheduler) (request : Request F) : Z :=
  let remaining := Z.max 0 (num_tokens request - num_computed_tokens request) in
  sumZ ((λ m, (remaining + block_size m - 1) / block_size m) <$> single_type_managers (kv_cache_manager s)).

Definition in_critical (s : Scheduler) (request : Request F) : bool :=
  match controller s with
  | None => false
  | Some c =>
      match od_get (request_id request) (Controller.metadata c) with
      | None => false
      | Some d => bool_decide (agent_type d ∈ critical (Controller.plan c))
      end
  end.

(** The LoRA adapters in use, and whether one more fits. *)
Definition loras (s : Scheduler) : gset Z :=
  list_to_set (omap (λ r, lora_int_id <$> lora_request r) (running s)).
Definition lora_blocked (s : Scheduler) (request : Request F) : bool :=
  match max_loras s, lora_request request with
  | Some n, Some l => (Z.of_nat (size (loras s)) =? n) && negb (bool_decide (lora_int_id l ∈ loras s))
  | _, _ => false
  end.

(** The encoder inputs that overlap the tokens to be computed, by identifier. *)
Definition required_inputs (request : Request F) (computed tokens : Z) : odict string Z :=
  foldl (λ d f, od_set (identifier f) (get_num_embeds f) d) []
    (filter (λ f, mm_offset f < computed + tokens ∧ computed < mm_offset f + mm_length f) (mm_features request)).

(** The tests on the encoder cache; [true] is [continue]. *)
Definition encoder_blocked (s : Scheduler) (request : Request F) (computed tokens : Z) : bool :=
  let cache := encoder_cache_manager s in
  let required := required_inputs request computed tokens in
  let missing := sumZ (od_values (filter (λ kn, od_mem kn.1 (cached cache) = false) required)) in
  let protected := sumZ ((λ key, default 0 (od_get key (freeable cache))) <$> od_keys required) in
  (max_num_encoder_input_tokens s <? missing)
  || (num_freeable_slots cache <? missing + protected)
  || (disable_chunked_mm_input s
      && existsb (λ f, (computed <? mm_offset f) && (mm_offset f <? computed + tokens)
                       && (computed + tokens <? mm_offset f + mm_length f)) (mm_features request)).

(** A waiting request that could be admitted. *)
Record Candidate := mkCandidate {
  c_request : Request F;
  c_demand : Z;
  c_tokens : Z;
  c_score : Z;
  c_admission : Z;
  c_borrow_reserved : bool;
  c_limited_prefill : bool
}.

(** The prefix in the GPU cache: its blocks and its length. *)
Definition cached_prefix (request : Request F) : SCM (list (list nat) * Z) :=
  s ← get_state;
  let manager := kv_cache_manager s in
  if (num_computed_tokens request =? 0) && enable_caching (block_pool manager)
     && negb (skip_reading_prefix_cache request)
  then on_kv (coord_find_longest_cache_hit (block_hashes request) (num_tokens request - 1))
  else mret (empty_kv_cache_blocks manager, num_computed_tokens request).

(** [limited_prefill] *)
Definition limited (s : Scheduler) (request : Request F) : bool :=
  match controller s with
  | None => false
  | Some c => od_mem (request_id request) (Controller.metadata c) && negb (has_encoder_inputs request)
  end.

(** The tokens the request would be scheduled for; [None] is [continue]. *)
Definition tokens_of (s : Scheduler) (token_budget : Z) (request : Request F) (computed : Z) : option Z :=
  let tokens := Z.max 0 (num_tokens request - computed) in
  let threshold := long_prefill_token_threshold s in
  let tokens := if 0 <? threshold then Z.min tokens threshold else tokens in
  let budget := if limited s request then token_budget else max_num_scheduled_tokens s in
  if negb (enable_chunked_prefill s) && (budget <? tokens) then None
  else
    let tokens := Z.min (Z.min tokens budget) (max_model_len s - computed) in
    if tokens <=? 0 then None else Some tokens.

(** The larger of the demand of this step and what admission reserves. *)
Definition admission_of (request : Request F) (computed : Z) (blocks : list (list nat))
    (encoder_tokens demand : Z) : SCM Z :=
  s ← get_state;
  if scheduler_reserve_full_isl s || bool_decide (is_Some (controller s)) then
    let full_tokens := Z.min (num_tokens request) (max_model_len s) in
    let full_lookahead := from_option Controller.num_lookahead_tokens 0 (controller s) in
    full_demand ← on_kv (coord_get_num_blocks_to_allocate (request_id request)
      (Z.min (full_tokens + full_lookahead) (max_model_len s)) blocks encoder_tokens computed full_tokens true);
    let admission := Z.max demand full_demand in
    by_controller admission
      (own ← Controller.admission_demand request computed blocks encoder_tokens; mret (Z.max admission own))
  else mret demand.

(** Whether the capacity has to be borrowed; [None] when even that fails. *)
Definition needs_borrowing (request : Request F) (admission : Z) : SCM (option bool) :=
  by_controller (Some false)
    (usage ← Controller.consumption request admission false;
     match usage with
     | Some _ => mret (Some false)
     | None =>
         usage ← Controller.consumption request admission true;
         mret (match usage with Some _ => Some true | None => None end)
     end).

Definition score_of (s : Scheduler) (request : Request F) : Z :=
  match controller s with
  | Some c => count0 (Controller.scores c) (request_id request)
  | None => - priority request
  end.

(** The body of the loop over the waiting requests; [None] is [continue]. *)
Definition candidate_of (free uncommitted token_budget : Z) (request : Request F) : SCM (option Candidate) :=
  s ← get_state;
  if negb (bool_decide (status request = WAITING ∨ status request = PREEMPTED)) then mret None
  else if lora_blocked s request then mret None
  else
    hit ← cached_prefix request;
    let '(blocks, computed) := hit in
    match tokens_of s token_budget request computed with
    | None => mret None
    | Some tokens =>
        if has_encoder_inputs request && encoder_blocked s request computed tokens then mret None
        else
          let encoder_tokens :=
            if has_encoder_inputs request && is_encoder_decoder s
            then sumZ (od_values (required_inputs request computed tokens)) else 0 in
          let lookahead := if num_computed_tokens request =? 0 then 0 else num_lookahead_tokens s in
          demand ← on_kv (coord_get_num_blocks_to_allocate (request_id request)
            (Z.min (computed + tokens + lookahead) (max_model_len s)) blocks encoder_tokens computed
            (computed + tokens) false);
          admission ← admission_of request computed blocks encoder_tokens demand;
          if (demand <=? 0) || (free <? demand) || (uncommitted <? admission) then mret None
          else
            borrow_reserved ← needs_borrowing request admission;
            mret (match borrow_reserved with
                  | None => None
                  | Some b =>
                      Some (mkCandidate request demand tokens (score_of s request) admission b (limited s request))
                  end)
    end.

Fixpoint collect_candidates (free uncommitted token_budget : Z) (l : list (Request F)) : SCM (list Candidate) :=
  match l with
  | [] => mret []
  | request :: l' =>
      c ← candidate_of free uncommitted token_budget request;
      rest ← collect_candidates free uncommitted token_budget l';
      mret (match c with Some c => c :: rest | None => rest end)
  end.

(** ** The order of the forecast *)
(** The comparisons of the sort keys; [-a < -b] on floats is [b < a]. *)
Definition later (a b : Candidate) : bool := fltb (arrival_time (c_request b)) (arrival_time (c_request a)).
Definition priority_key_lt (a b : Candidate) : bool :=
  lexb (c_score a =? c_score b) (c_score a <? c_score b)
    (lexb (c_demand a =? c_demand b) (c_demand a <? c_demand b) (later a b)).
Definition fit_key_lt (window : Z) (a b : Candidate) : bool :=
  let fit c := - Z.abs (window - c_demand c) in
  lexb (fit a =? fit b) (fit a <? fit b)
    (lexb (c_score a =? c_score b) (c_score a <? c_score b) (later a b)).
Definition forecast_order (window : Z) (temporal_selection : TemporalSelection) (candidates : list Candidate) :
    list Candidate :=
  let candidates :=
    match temporal_selection with
    | priority_first => py_sorted (λ a b, priority_key_lt b a) candidates
    | best_fit => py_sorted (λ a b, fit_key_lt window b a) candidates
    | first_fit => candidates
    end in
  py_sorted (λ a b, negb (c_borrow_reserved a) && c_borrow_reserved b) candidates.

(** ** The forecast *)
(** What is left for the next admissions. *)
Record Budget := mkBudget {
  slots : Z;
  remaining_blocks : Z;
  remaining_commitment : Z;
  remaining_tokens : Z;
  remaining_prefill : Z
}.
Definition prefills (c : Candidate) : bool := c_limited_prefill c && (1 <? c_tokens c).
Definition admissible (b : Budget) (c : Candidate) : bool :=
  negb ((remaining_blocks b <? c_demand c) || (remaining_commitment b <? c_admission c)
        || (remaining_tokens b <? c_tokens c) || (prefills c && (remaining_prefill b <? c_tokens c))).
Definition spend (b : Budget) (c : Candidate) : Budget :=
  mkBudget (slots b - 1) (remaining_blocks b - c_demand c) (remaining_commitment b - c_admission c)
    (remaining_tokens b - c_tokens c)
    (if prefills c then remaining_prefill b - c_tokens c else remaining_prefill b).
Fixpoint forecast (b : Budget) (candidates : list Candidate) (fit : Z) : Z :=
  match candidates with
  | [] => fit
  | c :: candidates' =>
      if slots b <=? 0 then fit
      else if admissible b c then forecast (spend b c) candidates' (fit + c_demand c)
      else forecast b candidates' fit
  end.

(** [token_budget] *)
Definition token_budget_of (s : Scheduler) : Z :=
  match controller s with
  | Some c =>
      if enable_chunked_prefill s && negb (need_mamba_block_aligned_split s)
      then Controller.prefill_budget (running s) (max_num_scheduled_tokens s) c
      else max_num_scheduled_tokens s
  | None => max_num_scheduled_tokens s
  end.

(** [waiting_pressure] *)
Definition waiting_pressure (window : Z) (temporal_selection : TemporalSelection) : SCM (Pressure F) :=
  s ← get_state;
  let manager := kv_cache_manager s in
  let free := get_num_free_blocks (block_pool manager) in
  uncommitted ← by_controller free (Controller.uncommitted_blocks set_order);
  let shared := from_option Controller.shared_available free (controller s) in
  let waiting := waiting_list s in
  let token_budget := token_budget_of s in
  candidates ← collect_candidates free uncommitted token_budget waiting;
  let candidates := forecast_order window temporal_selection candidates in
  let budget := mkBudget (max_num_running_reqs s - zlen (running s)) free uncommitted
                  (max_num_scheduled_tokens s) token_budget in
  let fit := if bool_decide (pause_state s = UNPAUSED) then forecast budget candidates 0 else 0 in
  mret (mkPressure (KVCache.usage manager) free (zlen waiting) (sumZ (total_demand s <$> waiting))
    (sumZ (total_demand s <$> filter (λ r, in_critical s r = true) waiting)) shared (Z.min window fit)).
End pressure.
Arguments Scheduler F : clear implicits.
Arguments Candidate F : clear implicits.
