(* ===== verification/Scheduler.v ===== *)
(** * The scheduler ([vllm/v1/core/sched/scheduler.py]): state and running phase

    [Scheduler] keeps the requests of an engine, by identifier, in two waiting
    queues and a running list, and spends the token budget of every step on
    them.  This file has its state, the movements of a request between the
    queues, preemption, and the loop of [schedule()] over the running requests.
    A request is mutated through its identifier: [requests] is the store of the
    request objects, and the queues and lists hold identifiers.

    The connector and the annotations live in states of their own, [C], which
    the scheduler reaches through the calls of [KVConnector] only.  Streaming
    sessions, events, statistics and routed experts are left out. *)
From S2P Require Import Prelude PyFloat Metrics Protocol Config Request BlockPool KVCache.
From S2P Require Import Scoring Scheduling EncoderCache RequestQueue OffloadPolicy Pressure.
Local Open Scope Z_scope.

(** [l[i]], negative indices counted from the end; [None] is [IndexError]. *)
Definition py_index {A} (l : list A) (i : Z) : option A :=
  if 0 <=? i then l !! Z.to_nat i
  else if 0 <=? zlen l + i then l !! Z.to_nat (zlen l + i) else None.

(** [max(l, key=...)]: the first element none is above. *)
Definition max_by {A} (lt : A → A → bool) (l : list A) : option A :=
  match l with
  | [] => None
  | x :: l' => Some (foldl (λ best y, if lt best y then y else best) x l')
  end.

(** The value of an [option], or the exception its absence stands for. *)
Definition some_or {S A} (e : exn) (o : option A) : M S A :=
  match o with Some a => mret a | None => raise e end.

Module Sched.

(** What the scheduler reads of its configuration. *)
Record SchedulerConfig := mkSchedConfig {
  policy : Controller.SchedulingPolicy;
  max_num_running_reqs : Z;
  max_num_scheduled_tokens : Z;
  max_num_encoder_input_tokens : Z;
  long_prefill_token_threshold : Z;
  enable_chunked_prefill : bool;
  sched_max_model_len : Z;
  num_lookahead_tokens : Z;
  num_spec_tokens : Z;
  use_eagle : bool;
  need_mamba_block_aligned_split : bool;
  cache_block_size : Z;
  scheduler_reserve_full_isl : bool;
  max_loras : option Z;
  encoder_settings : EncoderSettings;
  use_pp : bool;
  async_scheduling : bool;
  use_v2_model_runner : bool;
  needs_kv_cache_zeroing : bool;
  recompute_kv_load_failures : bool
}.

(** The waiting queues hold identifiers. *)
Definition WaitQueue : Type := PriorityRequestQueue string + FCFSRequestQueue string.

(** The two waiting queues. *)
Inductive QueueName := Waiting | Skipped.
#[export] Instance QueueName_eq_dec : EqDecision QueueName.
Proof. solve_decision. Defined.

Section Scheduler.
Context {F : Type} `{FloatOps F} `{FloatLog1p F}.

(** A request with the attributes only the scheduler uses; [grammar_ready]
    tells whether the grammar of a structured request has been compiled. *)
Record SchedRequest := mkSchedRequest {
  req : Request F;
  num_output_placeholders : Z;
  async_tokens_to_discard : Z;
  is_prefill_chunk : bool;
  grammar_ready : bool
}.

(** [CachedRequestData] and [NewRequestData] *)
Record CachedRequestData := mkCached {
  req_ids : list string;
  resumed_req_ids : gset string;
  new_token_ids : list (list Z);
  cached_all_token_ids : odict string (list Z);
  new_block_ids : list (option (list (list nat)));
  cached_num_computed_tokens : list Z;
  cached_num_output_tokens : list Z
}.
Record NewRequestData := mkNew {
  new_request : Request F;
  new_request_block_ids : list (list nat);
  new_request_num_computed_tokens : Z;
  prefill_token_ids : option (list Z)
}.

Record SchedulerOutput := mkSchedOutput {
  scheduled_new_reqs : list NewRequestData;
  scheduled_cached_reqs : CachedRequestData;
  out_num_scheduled_tokens : odict string Z;
  total_num_scheduled_tokens : Z;
  out_scheduled_spec_decode_tokens : odict string (list Z);
  out_scheduled_encoder_inputs : odict string (list nat);
  num_common_prefix_blocks : list Z;
  preempted_req_ids : gset string;
  out_finished_req_ids : gset string;
  free_encoder_mm_hashes : list string;
  new_block_ids_to_zero : option (list nat)
}.
End Scheduler.
Arguments SchedRequest F : clear implicits.
Arguments NewRequestData F : clear implicits.
Arguments SchedulerOutput F : clear implicits.

(** ** The connector

    What the scheduler calls on the KV connector and, for a
    [TokenCakeConnector], on its offload part, whose forecasts read a view of
    the scheduler, and on the lifecycles it keeps.  [recompute_cost] is [None]
    for another connector; [worker_report] is what the workers send to the
    connector alone; [has_pending] tells whether the offload part or the
    lifecycles have work to do. *)
Class KVConnector (F C : Type) := {
  expire_lifecycles : M C unit;
  associate_lifecycle : string → TokenCakeMetadata F → M C unit;
  on_new_request : Request F → M C unit;
  evaluate_pending : Pressure.Scheduler F → M C unit;
  has_unpublished : C → bool;
  recompute_cost : option (C → Request F → Z);
  get_num_new_matched_tokens : Request F → Z → M C (option Z * bool);
  update_state_after_alloc : Request F → list (list nat) → Z → M C unit;
  build_connector_meta : SchedulerOutput F → M C unit;
  request_finished_all_groups : Request F → list (list nat) → M C bool;
  worker_report : Type;
  update_connector_output : worker_report → M C unit;
  take_connector_events : M C unit;
  invalidate_snapshots : M C unit;
  reset_cache : M C bool;
  has_pending : C → bool
}.

Section Scheduler.
Context {F : Type} `{FloatOps F} `{FloatLog1p F}.
Context {C : Type} `{KVConnector F C}.
Notation SchedRequest := (SchedRequest F).

(** ** State *)
Record SchedulerState := mkSched {
  config : SchedulerConfig;
  allocator : KVCacheManager + Controller.SchedulingController F;
  encoder_cache_manager : EncoderCacheManager;
  connector : option C;
  requests : odict string SchedRequest;
  waiting : WaitQueue;
  skipped_waiting : WaitQueue;
  running : list string;
  finished_req_ids : gset string;
  prev_step_scheduled_req_ids : gset string;
  finished_recving_kv_req_ids : gset string;
  failed_recving_kv_req_ids : gset string;
  pause_state : PauseState
}.

Definition sched_eta (s : SchedulerState) : SchedulerState :=
  {| config := config s; allocator := allocator s; encoder_cache_manager := encoder_cache_manager s;
     connector := connector s; requests := requests s; waiting := waiting s;
     skipped_waiting := skipped_waiting s; running := running s;
     finished_req_ids := finished_req_ids s;
     prev_step_scheduled_req_ids := prev_step_scheduled_req_ids s;
     finished_recving_kv_req_ids := finished_recving_kv_req_ids s;
     failed_recving_kv_req_ids := failed_recving_kv_req_ids s; pause_state := pause_state s |}.
Definition put_allocator (v : KVCacheManager + Controller.SchedulingController F) (s : SchedulerState) : SchedulerState :=
  ltac:(update_field sched_eta (allocator s) v s).
Definition put_encoder (v : EncoderCacheManager) (s : SchedulerState) : SchedulerState :=
  ltac:(update_field sched_eta (encoder_cache_manager s) v s).
Definition put_connector (v : option C) (s : SchedulerState) : SchedulerState :=
  ltac:(update_field sched_eta (connector s) v s).
Definition put_requests (v : odict string SchedRequest) (s : SchedulerState) : SchedulerState :=
  ltac:(update_field sched_eta (requests s) v s).
Definition put_waiting (v : WaitQueue) (s : SchedulerState) : SchedulerState :=
  ltac:(update_field sched_eta (waiting s) v s).
Definition put_skipped_waiting (v : WaitQueue) (s : SchedulerState) : SchedulerState :=
  ltac:(update_field sched_eta (skipped_waiting s) v s).
Definition put_running (v : list string) (s : SchedulerState) : SchedulerState :=
  ltac:(update_field sched_eta (running s) v s).
Definition put_finished_req_ids (v : gset string) (s : SchedulerState) : SchedulerState :=
  ltac:(update_field sched_eta (finished_req_ids s) v s).
Definition put_prev_step (v : gset string) (s : SchedulerState) : SchedulerState :=
  ltac:(update_field sched_eta (prev_step_scheduled_req_ids s) v s).
Definition put_finished_recving (v : gset string) (s : SchedulerState) : SchedulerState :=
  ltac:(update_field sched_eta (finished_recving_kv_req_ids s) v s).
Definition put_failed_recving (v : gset string) (s : SchedulerState) : SchedulerState :=
  ltac:(update_field sched_eta (failed_recving_kv_req_ids s) v s).
Definition put_pause_state (v : PauseState) (s : SchedulerState) : SchedulerState :=
  ltac:(update_field sched_eta (pause_state s) v s).

Notation SM := (M SchedulerState).

(** The comparison of object addresses, for requests equal otherwise, and the
    readings the controller's clocks give. *)
Context (lt_id : bool).
Context (time_time time_monotonic : nat → F).
Context (set_order : gset string → list string).

(** ** Requests *)
Definition put_req (v : Request F) (r : SchedRequest) : SchedRequest :=
  mkSchedRequest v (num_output_placeholders r) (async_tokens_to_discard r) (is_prefill_chunk r) (grammar_ready r).
Definition put_placeholders (v : Z) (r : SchedRequest) : SchedRequest :=
  mkSchedRequest (req r) v (async_tokens_to_discard r) (is_prefill_chunk r) (grammar_ready r).
Definition put_discard (v : Z) (r : SchedRequest) : SchedRequest :=
  mkSchedRequest (req r) (num_output_placeholders r) v (is_prefill_chunk r) (grammar_ready r).
Definition put_prefill_chunk (v : bool) (r : SchedRequest) : SchedRequest :=
  mkSchedRequest (req r) (num_output_placeholders r) (async_tokens_to_discard r) v (grammar_ready r).
Definition on_req (f : Request F → Request F) (r : SchedRequest) : SchedRequest := put_req (f (req r)) r.

Definition get_request (id : string) : SM SchedRequest :=
  s ← get_state; some_or KeyError (od_get id (requests s)).
Definition alter_request (f : SchedRequest → SchedRequest) (id : string) : SM unit :=
  modify (λ s, put_requests (od_alter f id (requests s)) s).

(** The requests of a list of identifiers. *)
Definition requests_of (ids : list string) (s : SchedulerState) : list (Request F) :=
  omap (λ id, req <$> od_get id (requests s)) ids.

(** ** Calls on the parts *)
Definition kv_cache_manager (s : SchedulerState) : KVCacheManager :=
  match allocator s with inl k => k | inr c => Controller.manager c end.
Definition put_kv (k : KVCacheManager) (s : SchedulerState) : SchedulerState :=
  put_allocator (match allocator s with inl _ => inl k | inr c => inr (Controller.put_manager k c) end) s.
Definition on_kv {A} (c : M KVCacheManager A) : SM A := zoom kv_cache_manager put_kv c.
Definition on_encoder {A} (c : M EncoderCacheManager A) : SM A := zoom encoder_cache_manager put_encoder c.

(** [c if self._tokencake_scheduling is not None else absent] *)
Definition on_controller {A} (absent : A) (c : M (Controller.SchedulingController F) A) : SM A := λ s,
  match allocator s with
  | inl _ => Ret absent s
  | inr k => zoom (λ _, k) (λ k, put_allocator (inr k)) c s
  end.
Definition on_connector {A} (absent : A) (c : M C A) : SM A := λ s,
  match connector s with
  | None => Ret absent s
  | Some k => zoom (λ _, k) (λ k, put_connector (Some k)) c s
  end.

(** ** The waiting queues *)
(** [a < b] of two requests *)
Definition queue_lt (s : SchedulerState) (a b : string) : bool :=
  match od_get a (requests s), od_get b (requests s) with
  | Some x, Some y => request_lt lt_id (req x) (req y)
  | _, _ => false
  end.

Definition queue_of (q : QueueName) (s : SchedulerState) : WaitQueue :=
  match q with Waiting => waiting s | Skipped => skipped_waiting s end.
Definition put_queue (q : QueueName) (v : WaitQueue) : SchedulerState → SchedulerState :=
  match q with Waiting => put_waiting v | Skipped => put_skipped_waiting v end.
Definition on_queue {A} (q : QueueName) (c : RequestQueue string WaitQueue → M WaitQueue A) : SM A := λ s,
  zoom (queue_of q) (put_queue q) (c (waiting_queue (queue_lt s))) s.

(** [bool(queue)] and [list(queue)] *)
Definition nonempty (v : WaitQueue) : bool := queue_bool (RequestQueue := waiting_queue (λ _ _, false)) v.
Definition queue_list (s : SchedulerState) (v : WaitQueue) : list string :=
  queue_iter (RequestQueue := waiting_queue (queue_lt s)) v.

(** [create_request_queue(self.policy)] *)
Definition new_queue (cfg : SchedulerConfig) : WaitQueue :=
  create_request_queue (match policy cfg with Controller.PRIORITY => true | Controller.FCFS => false end).

(** [_is_blocked_waiting_status] *)
Definition is_blocked_waiting_status (st : RequestStatus) : bool :=
  match st with
  | WAITING_FOR_STRUCTURED_OUTPUT_GRAMMAR | WAITING_FOR_REMOTE_KVS | WAITING_FOR_STREAMING_REQ => true
  | _ => false
  end.

(** [_enqueue_waiting_request] *)
Definition enqueue_waiting_request (id : string) (st : RequestStatus) : SM unit :=
  if is_blocked_waiting_status st
  then on_queue Skipped (λ _, add_request id)
  else on_queue Waiting (λ _, add_request id).

(** [_select_waiting_queue_for_scheduling] *)
Definition select_waiting_queue_for_scheduling : SM (option QueueName) :=
  s ← get_state;
  match policy (config s) with
  | Controller.FCFS =>
      mret (if nonempty (skipped_waiting s) then Some Skipped
            else if nonempty (waiting s) then Some Waiting else None)
  | Controller.PRIORITY =>
      if nonempty (waiting s) && nonempty (skipped_waiting s) then
        waiting_req ← on_queue Waiting (λ _, peek_request);
        skipped_req ← on_queue Skipped (λ _, peek_request);
        mret (Some (if queue_lt s waiting_req skipped_req then Waiting else Skipped))
      else
        mret (if nonempty (waiting s) then Some Waiting
              else if nonempty (skipped_waiting s) then Some Skipped else None)
  end.

(** ** Preemption *)
(** [_preempt_request], of a request already out of the running list. *)
Definition preempt_request (id : string) (physical : bool) : SM unit :=
  r ← get_request id;
  assertM (bool_decide (status (req r) = RUNNING)) ;;
  on_kv (kv_free (req r)) ;;
  on_controller tt (Controller.preempt time_monotonic set_order (req r) physical) ;;
  on_encoder (EncoderCache.free (req r)) ;;
  alter_request (on_req (λ r, put_num_preemptions (num_preemptions r + 1)
    (put_spec_token_ids [] (put_num_computed_tokens 0 (put_status PREEMPTED r))))) id ;;
  on_queue Waiting (λ _, prepend_request id).

(** ** What a step has scheduled so far

    The local variables of [schedule()]; [tokencake] tells whether the
    variable of that name is set. *)
Record Step := mkStep {
  scheduled_new : list string;
  scheduled_resumed : list string;
  scheduled_running_reqs : list string;
  preempted_reqs : list string;
  req_to_new_blocks : odict string (list (list nat));
  num_scheduled_tokens : odict string Z;
  token_budget : Z;
  scheduled_encoder_inputs : odict string (list nat);
  encoder_compute_budget : Z;
  scheduled_spec_decode_tokens : odict string (list Z);
  prefill_budget : Z;
  scheduled_prefill_tokens : odict string Z;
  req_index : Z;
  tokencake : bool
}.

Definition step_eta (p : Step) : Step :=
  {| scheduled_new := scheduled_new p; scheduled_resumed := scheduled_resumed p;
     scheduled_running_reqs := scheduled_running_reqs p; preempted_reqs := preempted_reqs p;
     req_to_new_blocks := req_to_new_blocks p; num_scheduled_tokens := num_scheduled_tokens p;
     token_budget := token_budget p; scheduled_encoder_inputs := scheduled_encoder_inputs p;
     encoder_compute_budget := encoder_compute_budget p;
     scheduled_spec_decode_tokens := scheduled_spec_decode_tokens p;
     prefill_budget := prefill_budget p; scheduled_prefill_tokens := scheduled_prefill_tokens p;
     req_index := req_index p; tokencake := tokencake p |}.
Definition put_preempted_reqs (v : list string) (p : Step) : Step :=
  ltac:(update_field step_eta (preempted_reqs p) v p).
Definition put_req_index (v : Z) (p : Step) : Step := ltac:(update_field step_eta (req_index p) v p).

Definition if_tokencake {A} (p : Step) (absent : A) (c : M (Controller.SchedulingController F) A) : SM A :=
  if tokencake p then on_controller absent c else mret absent.

(** The sum of the encoder embeddings of some inputs of a request. *)
Definition embeds_of (r : Request F) (inputs : list nat) : SM Z :=
  l ← some_or AssertionError (mapM (get_num_encoder_embeds r) inputs); mret (sumZ l).

(** What was scheduled for a request preempted in the same step is given back;
    [restored] is the compute budget of its encoder inputs. *)
Definition unschedule (id : string) (p : Step) : SM (Step * Z) :=
  r ← get_request id;
  running' ← some_or ValueError (list_remove id (scheduled_running_reqs p));
  n ← some_or KeyError (od_get id (num_scheduled_tokens p));
  blocks ← some_or KeyError (od_get id (req_to_new_blocks p));
  let inputs := default [] (od_get id (scheduled_encoder_inputs p)) in
  restored ← embeds_of (req r) inputs;
  mret
    ({| scheduled_new := scheduled_new p; scheduled_resumed := scheduled_resumed p;
        scheduled_running_reqs := running'; preempted_reqs := preempted_reqs p;
        req_to_new_blocks := od_del id (req_to_new_blocks p);
        num_scheduled_tokens := od_del id (num_scheduled_tokens p);
        token_budget := token_budget p + n;
        scheduled_encoder_inputs := od_del id (scheduled_encoder_inputs p);
        encoder_compute_budget := encoder_compute_budget p + restored;
        scheduled_spec_decode_tokens := od_del id (scheduled_spec_decode_tokens p);
        prefill_budget := prefill_budget p + count0 (scheduled_prefill_tokens p) id;
        scheduled_prefill_tokens := od_del id (scheduled_prefill_tokens p);
        req_index := req_index p - 1; tokencake := tokencake p |}, restored).

(** [l.index(x)] *)
Definition index_of (id : string) (l : list string) : option Z :=
  match list_find (id =.) l with Some (i, _) => Some (Z.of_nat i) | None => None end.

(** [(r.priority, r.arrival_time)] as the key of [max] *)
Definition priority_key_lt (a b : Request F) : bool :=
  lexb (priority a =? priority b) (priority a <? priority b) (fltb (arrival_time a) (arrival_time b)).

(** The victim TokenCake names when a running request finds no room. *)
Definition agent_victim (p : Step) (r : Request F) (num_new_tokens : Z) : SM (option string) :=
  s ← get_state;
  let cost :=
    match connector s, recompute_cost with Some c, Some f => Some (f c) | _, _ => None end in
  v ← if_tokencake p None (Controller.victim set_order r (requests_of (running s) s) num_new_tokens
        (num_lookahead_tokens (config s)) cost);
  mret (request_id <$> v).

(** The request to preempt leaves the running list, and what the step had
    scheduled for it; the last component is the compute budget to give back to
    the request being scheduled. *)
Definition take_victim (p : Step) (agent : option string) : SM (string * Step * Z) :=
  s ← get_state;
  match agent, policy (config s) with
  | None, Controller.FCFS =>
      id ← some_or IndexError (last (running s));
      modify (put_running (removelast (running s))) ;;
      mret (id, p, 0)
  | _, _ =>
      id ← match agent with
           | Some id => mret id
           | None => r ← some_or ValueError (max_by priority_key_lt (requests_of (running s) s));
                     mret (request_id r)
           end;
      victim_index ← (if bool_decide (is_Some agent) then some_or ValueError (index_of id (running s))
                      else mret (-1));
      running' ← some_or ValueError (list_remove id (running s));
      modify (put_running running') ;;
      if bool_decide (id ∈ scheduled_running_reqs p) then
        x ← unschedule id p;
        mret (id, x.1, if bool_decide (is_Some agent) then x.2 else 0)
      else if bool_decide (is_Some agent) && (victim_index <? req_index p)
      then mret (id, put_req_index (req_index p - 1) p, 0)
      else mret (id, p, 0)
  end.

(** The loop around [allocate_slots]: the new blocks, or [None] when the
    request itself had to be preempted, with what is left of the step and of
    the encoder budget.  Every round takes one request out of the running
    list; [fuel] bounds the rounds. *)
Fixpoint allocate_running (fuel : nat) (id : string) (num_new_tokens : Z) (p : Step) (encoder_budget : Z) :
    SM (option (list (list nat)) * Step * Z) :=
  match fuel with
  | O => raise RuntimeError
  | S fuel =>
      r ← get_request id;
      s ← get_state;
      new_blocks ← on_kv (allocate_slots (req r) num_new_tokens 0 None (num_lookahead_tokens (config s))
                            0 false 0 false);
      match new_blocks with
      | Some blocks =>
          if_tokencake p tt (Controller.commit time_monotonic set_order (req r) true 0 (Some blocks) false) ;;
          mret (Some blocks, p, encoder_budget)
      | None =>
          agent ← agent_victim p (req r) num_new_tokens;
          victim ← take_victim p agent;
          let '(preempted, p, restored) := victim in
          preempt_request preempted true ;;
          let p := put_preempted_reqs (preempted_reqs p ++ [preempted]) p in
          let encoder_budget := encoder_budget + restored in
          if bool_decide (preempted = id) then mret (None, p, encoder_budget)
          else allocate_running fuel id num_new_tokens p encoder_budget
      end
  end.

(** [_mamba_block_aligned_split] *)
Definition mamba_block_aligned_split (r : Request F) (num_new_tokens num_new_local_computed_tokens
    num_external_computed_tokens : Z) : SM Z :=
  assertM (num_external_computed_tokens =? 0) ;;
  s ← get_state;
  let computed := num_computed_tokens r + num_new_local_computed_tokens + num_external_computed_tokens in
  if computed <? Z.max (num_prompt_tokens r) (num_tokens r - 1) then
    let block_size := cache_block_size (config s) in
    let last_cache_position := num_tokens r - num_tokens r mod block_size in
    let last_cache_position :=
      if use_eagle (config s) then Z.max (last_cache_position - block_size) 0 else last_cache_position in
    let after := computed + num_new_tokens in
    if after <? last_cache_position then mret (num_new_tokens / block_size * block_size)
    else if (computed <? last_cache_position) && (last_cache_position <? after)
    then mret (last_cache_position - computed)
    else mret num_new_tokens
  else mret num_new_tokens.

(** A request already at its last step is not scheduled once more. *)
Definition reached_max_tokens (r : SchedRequest) : bool :=
  (0 <? num_output_placeholders r)
  && (num_prompt_tokens (req r) + max_tokens (req r)
        <=? num_computed_tokens (req r) + 2 - num_output_placeholders r).

Definition threshold_cap (cfg : SchedulerConfig) (n : Z) : Z :=
  if (0 <? long_prefill_token_threshold cfg) && (long_prefill_token_threshold cfg <? n)
  then long_prefill_token_threshold cfg else n.

(** [limited_prefill]; [prefilling] is the test only the running phase makes. *)
Definition limited_prefill (p : Step) (r : Request F) (prefilling : bool) (num_new_tokens : Z)
    (s : SchedulerState) : bool :=
  tokencake p
  && match allocator s with inl _ => false | inr k => od_mem (request_id r) (Controller.metadata k) end
  && prefilling && (1 <? num_new_tokens) && enable_chunked_prefill (config s)
  && negb (has_encoder_inputs r) && negb (need_mamba_block_aligned_split (config s)).

(** The encoder inputs needed by the next tokens; [mkPlan] without any. *)
Definition encoder_plan (r : Request F) (computed num_new_tokens budget : Z) : SM EncoderCache.Plan :=
  if has_encoder_inputs r then
    s ← get_state;
    on_encoder (try_schedule_encoder_inputs (encoder_settings (config s)) r computed
                  (if use_eagle (config s) then 1 else 0) num_new_tokens budget)
  else mret (mkPlan [] [] ∅ 0 num_new_tokens budget).

(** The draft tokens scheduled with a running request. *)
Definition scheduled_spec_tokens (r : SchedRequest) (num_new_tokens : Z) : option (list Z) :=
  let n := num_new_tokens + num_computed_tokens (req r) - num_tokens (req r) - num_output_placeholders r in
  if bool_decide (spec_token_ids (req r) = []) then None
  else if 0 <? n then Some (take (Z.to_nat n) (spec_token_ids (req r))) else None.

(** The request is scheduled: the record of the step. *)
Definition schedule_running (r : SchedRequest) (limited : bool) (num_new_tokens : Z)
    (blocks : list (list nat)) (inputs : list nat) (encoder_budget : Z) (p : Step) : Step :=
  let id := request_id (req r) in
  {| scheduled_new := scheduled_new p; scheduled_resumed := scheduled_resumed p;
     scheduled_running_reqs := scheduled_running_reqs p ++ [id]; preempted_reqs := preempted_reqs p;
     req_to_new_blocks := od_set id blocks (req_to_new_blocks p);
     num_scheduled_tokens := od_set id num_new_tokens (num_scheduled_tokens p);
     token_budget := token_budget p - num_new_tokens;
     scheduled_encoder_inputs :=
       if bool_decide (inputs = []) then scheduled_encoder_inputs p
       else od_set id inputs (scheduled_encoder_inputs p);
     encoder_compute_budget :=
       if bool_decide (inputs = []) then encoder_compute_budget p else encoder_budget;
     scheduled_spec_decode_tokens :=
       match scheduled_spec_tokens r num_new_tokens with
       | Some l => od_set id l (scheduled_spec_decode_tokens p)
       | None => scheduled_spec_decode_tokens p
       end;
     prefill_budget := if limited then prefill_budget p - num_new_tokens else prefill_budget p;
     scheduled_prefill_tokens :=
       if limited then od_set id num_new_tokens (scheduled_prefill_tokens p) else scheduled_prefill_tokens p;
     req_index := req_index p + 1; tokencake := tokencake p |}.

(** The number of tokens to schedule for the running request [r], with its
    encoder inputs and whether it counts against the prefill budget. *)
Definition running_tokens (r : SchedRequest) (p : Step) : SM (Z * bool * EncoderCache.Plan) :=
  s ← get_state;
  let wanted := num_tokens_with_spec (req r) + num_output_placeholders r - num_computed_tokens (req r) in
  let n := Z.min (threshold_cap (config s) wanted) (token_budget p) in
  let limited := limited_prefill p (req r) (num_computed_tokens (req r) <? num_prompt_tokens (req r)) n s in
  n ← (if limited then if_tokencake p n (Controller.cap_prefill n (prefill_budget p)) else mret n);
  let n := Z.min n (sched_max_model_len (config s) - 1 - num_computed_tokens (req r)) in
  plan ← encoder_plan (req r) (num_computed_tokens (req r)) n (encoder_compute_budget p);
  n ← (if need_mamba_block_aligned_split (config s)
       then mamba_block_aligned_split (req r) (new_tokens plan) 0 0 else mret (new_tokens plan));
  mret (n, limited, plan).

(** One round of the loop over the running requests; [false] is [break]. *)
Definition schedule_running_request (p : Step) : SM (Step * bool) :=
  s ← get_state;
  id ← some_or IndexError (py_index (running s) (req_index p));
  r ← get_request id;
  let skip := mret (put_req_index (req_index p + 1) p, true) in
  if reached_max_tokens r then skip
  else
    x ← running_tokens r p;
    let '(num_new_tokens, limited, plan) := x in
    if num_new_tokens =? 0 then skip
    else
      grows ← (if tokencake p then
                 on_controller tt (Controller.prepare_running set_order (req r)) ;;
                 on_controller true (Controller.can_grow time_monotonic set_order (req r) num_new_tokens)
               else mret true);
      if negb grows then skip
      else
        s ← get_state;
        a ← allocate_running (length (running s)) id num_new_tokens p (compute_budget plan);
        match a with
        | (None, p, _) => mret (p, false)
        | (Some blocks, p, encoder_budget) =>
            alter_request (on_req (put_spec_token_ids [])) id ;;
            on_encoder (allocate_inputs (req r) plan) ;;
            mret (schedule_running r limited num_new_tokens blocks (inputs_to_schedule plan) encoder_budget p, true)
        end.

(** The loop over the running requests; [fuel] bounds its rounds. *)
Fixpoint running_phase (fuel : nat) (p : Step) : SM Step :=
  s ← get_state;
  if (req_index p <? zlen (running s)) && (0 <? token_budget p) then
    match fuel with
    | O => raise RuntimeError
    | S fuel =>
        x ← schedule_running_request p;
        if x.2 : bool then running_phase fuel x.1 else mret x.1
    end
  else mret p.
End Scheduler.
End Sched.
