(* ===== verification/SchedulerFacts.v ===== *)
(** * The scheduler and its parts

    The scheduler's own state (queues, running list, requests) and that of the
    parts it works on (KV-cache manager or controller, encoder cache,
    connector) are disjoint: a call on a part leaves the former as it is.
    [RunningParts] is the interface between the two, what the scheduler needs
    of its parts; its theorems are proved against the interface.

    Then how an update of one request, and its move between the queues, keeps
    the invariant of the scheduler; preemption. *)
From S2P Require Import Prelude PyFloat Metrics BlockPool Request KVCache Scoring Scheduling EncoderCache.
From S2P Require Import RequestQueue QueueLaws Hoare Pressure Scheduler.
Import Sched.
Local Open Scope Z_scope.

Section facts.
Context {F : Type} `{FloatOps F} `{FloatLog1p F}.
Context {C : Type} `{KVConnector F C}.
Context (lt_id : bool) (time_time time_monotonic : nat → F) (set_order : gset string → list string).
Notation State := (SchedulerState (F := F) (C := C)).
Notation SM := (M State).
Implicit Types (s : State) (r : SchedRequest F) (p : Step).

(** ** The scheduler's side and the parts' side *)
Definition rest s :=
  (config s, requests s, waiting s, skipped_waiting s, running s, finished_req_ids s,
   prev_step_scheduled_req_ids s, finished_recving_kv_req_ids s, failed_recving_kv_req_ids s, pause_state s).
Definition parts s := (config s, allocator s, encoder_cache_manager s, connector s).
Definition frame s s' : Prop := rest s' = rest s.

Lemma frame_same_rest s : frame s s.
Proof. done. Qed.
Lemma frame_then s1 s2 s3 : frame s1 s2 → frame s2 s3 → frame s1 s3.
Proof. unfold frame. congruence. Qed.

Lemma wp_on_kv {A} (c : M KVCacheManager A) s (Q : A → State → Prop) E :
  (∀ a k, c (kv_cache_manager s) = Ret a k → Q a (put_kv k s)) →
  (∀ e k, c (kv_cache_manager s) = Exc e k → E (put_kv k s)) → wp (on_kv c) Q E s.
Proof. intros HQ HE. unfold wp, on_kv, zoom. destruct (c _) eqn:Hc; [by apply HQ|by eapply HE]. Qed.

Lemma frame_kv k s : frame s (put_kv k s).
Proof. done. Qed.

Lemma kv_frame {A} (c : M KVCacheManager A) s : wp (on_kv c) (λ _, frame s) (frame s) s.
Proof. by apply wp_on_kv. Qed.
Lemma encoder_frame {A} (c : M EncoderCacheManager A) s : wp (on_encoder c) (λ _, frame s) (frame s) s.
Proof. unfold on_encoder. apply wp_zoom. unfold wp. by destruct (c _). Qed.
Lemma controller_frame {A} (a : A) c s : wp (on_controller a c) (λ _, frame s) (frame s) s.
Proof. unfold wp, on_controller. destruct (allocator s); [done|]. unfold zoom. by destruct (c _). Qed.
Lemma connector_frame {A} (a : A) c s : wp (on_connector a c) (λ _, frame s) (frame s) s.
Proof. unfold wp, on_connector. destruct (connector s); [|done]. unfold zoom. by destruct (c _). Qed.

(** ** The queues *)
Lemma wp_on_queue {A} q (c : RequestQueue string WaitQueue → M WaitQueue A) s (Q : A → State → Prop) E a v :
  c (waiting_queue (queue_lt lt_id s)) (queue_of q s) = Ret a v → Q a (put_queue q v s) →
  wp (on_queue lt_id q c) Q E s.
Proof. intros Hc HQ. unfold wp, on_queue, zoom. by rewrite Hc. Qed.

Lemma nonempty_items v : nonempty v = negb (bool_decide (waiting_items v = [])).
Proof. apply (@bool_law _ _ _ _ _ (waiting_laws (λ _ _ : string, false))). Qed.

Lemma queue_list_items s v : queue_list lt_id s v ≡ₚ waiting_items v.
Proof. apply (@iter_law _ _ _ _ _ (waiting_laws (queue_lt lt_id s))). Qed.

(** ** The invariant of the queues

    Every unfinished request is in exactly one place, the running list for the
    running ones, a waiting queue for the others. *)
Definition placed s : list string :=
  running s ++ waiting_items (waiting s) ++ waiting_items (skipped_waiting s).

(** The computed tokens of a request are some of its tokens, those of its
    outputs on their way included (but no draft token), and leave room for one
    more; its multi-modal items have a length. *)
Definition tokens_ok (cfg : SchedulerConfig) r : Prop :=
  num_computed_tokens (req r) ≤ num_tokens (req r) + num_output_placeholders r
  ∧ num_computed_tokens (req r) ≤ sched_max_model_len cfg - 1
  ∧ num_tokens (req r) ≤ sched_max_model_len cfg - 1
  ∧ 0 ≤ num_output_placeholders r
  ∧ Forall (λ f, 0 ≤ mm_length f) (mm_features (req r)).

Definition config_ok (cfg : SchedulerConfig) : Prop :=
  0 ≤ max_num_scheduled_tokens cfg ∧ 0 ≤ max_num_running_reqs cfg ∧ 0 ≤ num_lookahead_tokens cfg
  ∧ 0 < cache_block_size cfg.

Definition unfinished r : Prop := is_finished (req r) = false.

Record sched_inv s : Prop := {
  iv_config : config_ok (config s);
  iv_wf : od_wf (requests s);
  iv_id id r : od_get id (requests s) = Some r → request_id (req r) = id;
  iv_nodup : NoDup (placed s);
  iv_placed id : id ∈ placed s ↔ ∃ r, od_get id (requests s) = Some r ∧ unfinished r;
  iv_running id r : od_get id (requests s) = Some r → id ∈ running s ↔ status (req r) = RUNNING;
  iv_tokens id r : od_get id (requests s) = Some r → unfinished r → tokens_ok (config s) r
}.

Lemma sched_inv_frame s s' : frame s s' → sched_inv s → sched_inv s'.
Proof.
  intros Hf. injection Hf as E1 E2 E3 E4 E5 _ _ _ _ _. intros [].
  split; unfold placed in *; rewrite ?E1, ?E2, ?E3, ?E4, ?E5; done.
Qed.

(** ** The interface of the parts

    [may_raise] tells whether the calls may raise at all; [parts_ok own s] is
    the invariant of the parts when the requests [own] hold blocks; [fits r]
    is what they expect of a request. *)
Definition raises (P : Prop) (_ : State) : Prop := P.

(** A request of an engine without a connector: nothing is computed of it
    while it waits. *)
Definition settled r : Prop :=
  0 ≤ num_computed_tokens (req r)
  ∧ (unfinished r → status (req r) ≠ RUNNING →
     num_computed_tokens (req r) = 0 ∧ status (req r) ≠ WAITING_FOR_REMOTE_KVS).

(** An encoder plan for the next [n] tokens with a compute budget. *)
Definition plan_good (r : Request F) (n budget : Z) (plan : EncoderCache.Plan) : Prop :=
  0 ≤ new_tokens plan ≤ n
  ∧ (∃ l, mapM (get_num_encoder_embeds r) (inputs_to_schedule plan) = Some l
        ∧ compute_budget plan + sumZ l = budget)
  ∧ (has_encoder_inputs r = false → inputs_to_schedule plan = [] ∧ external_inputs plan = []).

Class RunningParts (may_raise : Prop) (parts_ok : list string → State → Prop) (fits : SchedRequest F → Prop) : Prop := {
  pt_parts own s s' : parts s' = parts s → parts_ok own s → parts_ok own s';
  pt_perm own own' s : own ≡ₚ own' → parts_ok own s → parts_ok own' s;
  pt_allocate own s r n :
    parts_ok own s → config_ok (config s) → request_id (req r) ∈ own → fits r → tokens_ok (config s) r → 1 ≤ n →
    wp (on_kv (allocate_slots (req r) n 0 None (num_lookahead_tokens (config s)) 0 false 0 false))
      (λ _ s', frame s s' ∧ parts_ok own s') (raises may_raise) s;
  pt_commit own s p r bs :
    parts_ok own s →
    wp (if_tokencake p tt (Controller.commit time_monotonic set_order (req r) true 0 (Some bs) false))
      (λ _ s', frame s s' ∧ parts_ok own s') (raises may_raise) s;
  pt_victim own s p r n :
    parts_ok own s → own = running s →
    wp (agent_victim set_order p (req r) n)
      (λ v s', frame s s' ∧ parts_ok own s' ∧ ∀ id, v = Some id → id ∈ running s ∨ may_raise) (raises may_raise) s;
  pt_free own s r :
    parts_ok own s →
    wp (on_kv (kv_free (req r)))
      (λ _ s', frame s s' ∧ parts_ok (filter (λ i, i ≠ request_id (req r)) own) s') (raises may_raise) s;
  pt_preempt own s r b :
    parts_ok own s →
    wp (on_controller tt (Controller.preempt time_monotonic set_order (req r) b))
      (λ _ s', frame s s' ∧ parts_ok own s') (raises may_raise) s;
  pt_encoder_free own s r :
    parts_ok own s → fits r →
    wp (on_encoder (EncoderCache.free (req r))) (λ _ s', frame s s' ∧ parts_ok own s') (raises may_raise) s;
  pt_cap own s p n b :
    parts_ok own s →
    wp (if_tokencake p n (Controller.cap_prefill n b))
      (λ n' s', frame s s' ∧ parts_ok own s' ∧ n' = if tokencake p then match allocator s with inl _ => n | inr _ => Z.min n b end else n)
      (raises may_raise) s;
  pt_plan own s r n budget :
    parts_ok own s → fits r → 0 ≤ n →
    wp (encoder_plan (req r) (num_computed_tokens (req r)) n budget)
      (λ plan s', frame s s' ∧ parts_ok own s' ∧ plan_good (req r) n budget plan) (raises may_raise) s;
  pt_inputs own s r n budget plan :
    parts_ok own s → fits r → plan_good (req r) n budget plan →
    wp (on_encoder (allocate_inputs (req r) plan)) (λ _ s', frame s s' ∧ parts_ok own s') (raises may_raise) s;
  pt_grow own s r n :
    parts_ok own s →
    wp (on_controller tt (Controller.prepare_running set_order (req r)) ;;
        on_controller true (Controller.can_grow time_monotonic set_order (req r) n))
      (λ _ s', frame s s' ∧ parts_ok own s') (raises may_raise) s;
  pt_moved r r' :
    fits r → request_id (req r') = request_id (req r) → all_token_ids (req r') = all_token_ids (req r) →
    block_hashes (req r') = block_hashes (req r) → mm_features (req r') = mm_features (req r) →
    (settled r → settled r') → fits r';
  pt_settled r : fits r → settled r ∨ may_raise
}.
End facts.
Arguments pt_parts {_ _ _ _ _ _ _ _ _ _}.
Arguments pt_perm {_ _ _ _ _ _ _ _ _ _}.
Arguments pt_allocate {_ _ _ _ _ _ _ _ _ _}.
Arguments pt_commit {_ _ _ _ _ _ _ _ _ _}.
Arguments pt_victim {_ _ _ _ _ _ _ _ _ _}.
Arguments pt_free {_ _ _ _ _ _ _ _ _ _}.
Arguments pt_preempt {_ _ _ _ _ _ _ _ _ _}.
Arguments pt_encoder_free {_ _ _ _ _ _ _ _ _ _}.
Arguments pt_cap {_ _ _ _ _ _ _ _ _ _}.
Arguments pt_plan {_ _ _ _ _ _ _ _ _ _}.
Arguments pt_inputs {_ _ _ _ _ _ _ _ _ _}.
Arguments pt_grow {_ _ _ _ _ _ _ _ _ _}.
Arguments pt_moved {_ _ _ _ _ _ _ _ _ _}.
Arguments pt_settled {_ _ _ _ _ _ _ _ _ _}.

(** ** Moving a request *)
Section moves.
Context {F : Type} `{FloatOps F} `{FloatLog1p F}.
Context {C : Type} `{KVConnector F C}.
Context (lt_id : bool) (time_monotonic : nat → F) (set_order : gset string → list string).
Notation State := (SchedulerState (F := F) (C := C)).
Implicit Types (s : State) (r : SchedRequest F) (p : Step).

(** One request is updated and may change place. *)
Record update_ok s s' (id : string) (f : SchedRequest F → SchedRequest F) r : Prop := {
  uo_id : request_id (req (f r)) = request_id (req r);
  uo_unfinished : unfinished (f r) ↔ unfinished r;
  uo_tokens : unfinished r → tokens_ok (config s) r → tokens_ok (config s) (f r);
  uo_running : id ∈ running s' ↔ status (req (f r)) = RUNNING
}.

Lemma sched_inv_update s s' id f :
  sched_inv s → config s' = config s → requests s' = od_alter f id (requests s) → placed s' ≡ₚ placed s →
  (∀ r, od_get id (requests s) = Some r → update_ok s s' id f r) →
  (∀ j, j ≠ id → j ∈ running s' ↔ j ∈ running s) → sched_inv s'.
Proof.
  intros [Hc Hwf Hid Hnd Hpl Hru Htok] Ec Er Hp Hf Hj.
  assert (∀ j r, od_get j (requests s') = Some r →
    (j ≠ id ∧ od_get j (requests s) = Some r) ∨ (j = id ∧ ∃ r0, od_get id (requests s) = Some r0 ∧ r = f r0)) as Hget.
  { intros j r. rewrite Er, od_get_alter. destruct (decide (id = j)) as [<-|]; [|by left].
    destruct (od_get id (requests s)) as [r0|] eqn:E; [|done]. intros [= <-]. right. split; [done|]. by exists r0. }
  split; rewrite ?Ec; try done.
  - rewrite Er. by apply od_wf_alter.
  - intros j r [[? Hr]|(-> & r0 & Hr & ->)]%Hget; [by apply Hid|].
    rewrite (uo_id _ _ _ _ _ (Hf _ Hr)). by apply Hid.
  - by rewrite Hp.
  - intros j. rewrite Hp, Hpl, Er, od_get_alter. destruct (decide (id = j)) as [<-|]; [|done]. split.
    + intros (r & Hr & Hu). exists (f r). rewrite Hr. split; [done|]. by apply (uo_unfinished _ _ _ _ _ (Hf _ Hr)).
    + destruct (od_get id (requests s)) as [r|] eqn:Hr; [|by intros (? & ? & _)]. intros (? & [= <-] & Hu). exists r.
      split; [done|]. by apply (uo_unfinished _ _ _ _ _ (Hf _ eq_refl)).
  - intros j r [[? Hr]|(-> & r0 & Hr & ->)]%Hget; [rewrite Hj by done; by apply Hru|apply (uo_running _ _ _ _ _ (Hf _ Hr))].
  - intros j r [[? Hr]|(-> & r0 & Hr & ->)]%Hget Hu; [by eapply Htok|].
    apply (uo_unfinished _ _ _ _ _ (Hf _ Hr)) in Hu.
    apply (uo_tokens _ _ _ _ _ (Hf _ Hr)); [done|]. by eapply Htok.
Qed.

(** Reading a request that is there. *)
Lemma wp_get_request id s r (Q : SchedRequest F → State → Prop) E :
  od_get id (requests s) = Some r → Q r s → wp (get_request id) Q E s.
Proof. intros Hr HQ. unfold get_request. apply wp_get. by rewrite Hr. Qed.

Lemma wp_alter_request f id s (Q : unit → State → Prop) E :
  Q tt (put_requests (od_alter f id (requests s)) s) → wp (alter_request f id) Q E s.
Proof. done. Qed.

Lemma wp_some_or {A} e (o : option A) s (Q : A → State → Prop) (E : State → Prop) :
  (∀ a, o = Some a → Q a s) → (o = None → E s) → wp (some_or e o) Q E s.
Proof. intros HQ HE. destruct o; [by apply HQ|by apply HE]. Qed.

(** A call on a part, and what follows it. *)
Lemma wp_step {A B} (c : M State A) (k : A → M State B) s (Q1 : A → State → Prop) Q E :
  wp c Q1 E s → (∀ a s', Q1 a s' → wp (k a) Q E s') → wp (c ≫= k) Q E s.
Proof. intros Hc Hk. apply wp_bind. eapply wp_mono; [exact Hc|exact Hk|done]. Qed.

(** ** Preemption *)
Definition preempted_of : SchedRequest F → SchedRequest F :=
  on_req (λ x, put_num_preemptions (num_preemptions x + 1)
    (put_spec_token_ids [] (put_num_computed_tokens 0 (put_status PREEMPTED x)))).

Record preempted_to s (id : string) (R : list string) s' : Prop := {
  pr_config : config s' = config s;
  pr_requests : requests s' = od_alter preempted_of id (requests s);
  pr_running : running s' = R;
  pr_waiting : waiting_items (waiting s') ≡ₚ id :: waiting_items (waiting s);
  pr_skipped : skipped_waiting s' = skipped_waiting s;
  pr_others : (finished_req_ids s', prev_step_scheduled_req_ids s', finished_recving_kv_req_ids s',
               failed_recving_kv_req_ids s', pause_state s')
              = (finished_req_ids s, prev_step_scheduled_req_ids s, finished_recving_kv_req_ids s,
                 failed_recving_kv_req_ids s, pause_state s)
}.

Lemma preempted_inv s id R s' :
  sched_inv s → running s ≡ₚ id :: R → preempted_to s id R s' → sched_inv s'.
Proof.
  intros Hs HR Hp. assert (id ∉ R) as Hnot.
  { intros Hin. pose proof (iv_nodup _ Hs) as Hnd. unfold placed in Hnd. rewrite HR in Hnd.
    apply NoDup_app in Hnd as [Hnd _]. by apply NoDup_cons in Hnd as [? _]. }
  eapply (sched_inv_update s s' id preempted_of); [done|apply Hp|apply Hp| | |].
  - unfold placed. rewrite (pr_running _ _ _ _ Hp), (pr_waiting _ _ _ _ Hp), (pr_skipped _ _ _ _ Hp), HR.
    cbn. by rewrite <-Permutation_middle.
  - intros r Hr. assert (status (req r) = RUNNING) as Hst.
    { apply (iv_running _ Hs _ _ Hr). rewrite HR. by left. }
    split; [done| | |].
    + unfold unfinished, is_finished. cbn. rewrite Hst. done.
    + intros _ (H1' & H2' & H3' & H4' & H5'). unfold tokens_ok, num_tokens. cbn. split_and!; [..|done]; unfold zlen in *;
      unfold num_tokens, zlen in *; lia.
    + rewrite (pr_running _ _ _ _ Hp). cbn. split; [done|discriminate].
  - intros j Hj. rewrite (pr_running _ _ _ _ Hp), HR, elem_of_cons. naive_solver.
Qed.

Context (may_raise : Prop) (parts_ok : list string → State → Prop) (fits : SchedRequest F → Prop).
Context `{!RunningParts time_monotonic set_order may_raise parts_ok fits}.
Notation E := (raises may_raise).

Definition all_fit s : Prop := ∀ id r, od_get id (requests s) = Some r → fits r.

Lemma preempted_fits s id R s' : all_fit s → preempted_to s id R s' → all_fit s'.
Proof.
  intros Hf Hp j r. rewrite (pr_requests _ _ _ _ Hp), od_get_alter. case_decide as Hj; [|apply Hf]. subst j.
  destruct (od_get id (requests s)) as [r0|] eqn:Hr; [|done]. intros [= <-]. eapply (pt_moved r0); [by eapply Hf|done..].
Qed.

Lemma filter_ne_Permutation (l R : list string) id : NoDup l → l ≡ₚ id :: R → filter (λ i, i ≠ id) l ≡ₚ R.
Proof.
  intros Hnd Hl. rewrite Hl in Hnd |- *. apply NoDup_cons in Hnd as [Hid _]. rewrite filter_cons_False by naive_solver.
  rewrite filter_all; [done|]. intros x Hx ->. done.
Qed.

Lemma wp_preempt_request s id R phys :
  sched_inv s → parts_ok (running s) s → all_fit s → running s ≡ₚ id :: R →
  wp (preempt_request lt_id time_monotonic set_order id phys)
    (λ _ s', preempted_to s id R s' ∧ sched_inv s' ∧ parts_ok R s' ∧ all_fit s') E (put_running R s).
Proof.
  intros Hs Hparts Hfit HR.
  destruct (proj1 (iv_placed _ Hs id)) as (r & Hr & Hu). { unfold placed. rewrite HR. by left. }
  assert (status (req r) = RUNNING) as Hst. { apply (iv_running _ Hs _ _ Hr). rewrite HR. by left. }
  assert (NoDup (running s)) as Hnd.
  { pose proof (iv_nodup _ Hs) as Hnd. by apply NoDup_app in Hnd as [? _]. }
  assert (parts_ok (running s) (put_running R s)) as Hp0 by by eapply (pt_parts _ s).
  unfold preempt_request. apply wp_bind, (wp_get_request _ _ r); [done|].
  apply wp_bind, wp_assert; [intros _|intros Hb; by rewrite bool_decide_eq_true_2 in Hb].
  eapply wp_step; [by apply pt_free|]. intros [] s1 [F1 P1].
  assert (parts_ok R s1) as P1'.
  { eapply pt_perm; [|exact P1]. rewrite (iv_id _ Hs _ _ Hr). by apply filter_ne_Permutation. }
  eapply wp_step; [by apply pt_preempt|]. intros [] s2 [F2 P2].
  eapply wp_step; [apply pt_encoder_free; [done|by eapply Hfit]|]. intros [] s3 [F3 P3].
  pose proof (frame_then _ _ _ (frame_then _ _ _ F1 F2) F3) as F4. clear F1 F2 F3 P1 P1' P2.
  apply wp_bind, wp_alter_request.
  injection F4 as E1 E2 E3 E4 E5 E6 E7 E8 E9 E10. cbn in E1, E2, E3, E4, E5, E6, E7, E8, E9, E10.
  set (s4 := put_requests _ s3).
  destruct (@prepend_law _ _ _ _ _ (waiting_laws (queue_lt lt_id s4)) id (waiting s4)) as (q & Hq & Hi).
  eapply wp_on_queue; [exact Hq|].
  assert (preempted_to s id R (put_queue Waiting q s4)) as Hto.
  { split; cbn; [done|by rewrite E2|done|by rewrite Hi, <-E3|done|congruence]. }
  split; [done|]. split; [by eapply preempted_inv|]. split; [|by eapply preempted_fits]. by eapply (pt_parts _ s3).
Qed.
End moves.
