(* ===== verification/SchedulerRunning.v ===== *)
(** * The running phase

    What [schedule()] does to the running requests: which it schedules, which
    it preempts, and how the budgets of the step account for both. *)
From S2P Require Import Prelude Hoare PyFloat Metrics Request BlockPool KVCache Scoring Scheduling.
From S2P Require Import EncoderCache EncoderFacts RequestQueue QueueLaws QueueFacts Pressure Scheduler.
From S2P Require Import SchedulerFacts.
Import Sched.
Local Open Scope Z_scope.

(** ** Removal from a list without duplicates *)
Section lists.
Context {A : Type} `{EqDecision A}.
Implicit Types (l R : list A).

Lemma list_remove_split (x : A) l l' : list_remove x l = Some l' → ∃ l1 l2, l = l1 ++ x :: l2 ∧ l' = l1 ++ l2.
Proof.
  revert l'. induction l as [|y l IH]; intros l'; cbn [list_remove]; [done|]. case_decide as E.
  - intros [= <-]. subst y. by exists [], l.
  - destruct (list_remove x l) as [l0|]; [|done]. intros [= <-].
    destruct (IH l0 eq_refl) as (l1 & l2 & -> & ->). by exists (y :: l1), l2.
Qed.

Lemma list_remove_filter (x : A) l l' : NoDup l → list_remove x l = Some l' → filter (λ y, y ≠ x) l = l'.
Proof.
  intros Hnd Hl. destruct (list_remove_split x l l' Hl) as (l1 & l2 & -> & ->).
  apply NoDup_app in Hnd as (_ & Hx & Hnd). apply NoDup_cons in Hnd as [Hx2 _].
  rewrite filter_app, filter_cons_False by naive_solver. rewrite !filter_all; [done| |].
  - intros y Hy ->. done.
  - intros y Hy ->. by apply (Hx _ Hy); left.
Qed.

Lemma list_remove_is_Some (x : A) l : x ∈ l → is_Some (list_remove x l).
Proof. intros Hx. pose proof (list_remove_spec x l) as Hs. destruct (list_remove x l); [by eexists|done]. Qed.

(** Where the elements before a position go when one of the list leaves. *)
Lemma take_without (l1 l2 : list A) v k k' x :
  x ∈ take k (l1 ++ v :: l2) → x ≠ v →
  ((length l1 < k)%nat → (k - 1 ≤ k')%nat) → ((k ≤ length l1)%nat → (k ≤ k')%nat) → x ∈ take k' (l1 ++ l2).
Proof.
  rewrite !elem_of_take. intros (i & Hi & Hk) Hne Hlt Hge.
  destruct (decide (i < length l1)%nat) as [Hl|Hl].
  - rewrite lookup_app_l in Hi by done. exists i. rewrite lookup_app_l by done. split; [done|].
    destruct (decide (length l1 < k)%nat); lia.
  - rewrite lookup_app_r in Hi by lia. destruct (i - length l1)%nat as [|j] eqn:Hj; [by injection Hi|]. cbn in Hi.
    exists (i - 1)%nat. rewrite lookup_app_r by lia. replace (i - 1 - length l1)%nat with j by lia. split; [done|lia].
Qed.
End lists.

Section running.
Context {F : Type} `{FloatOps F} `{FloatLog1p F}.
Context {C : Type} `{KVConnector F C}.
Context (lt_id : bool) (time_monotonic : nat → F) (set_order : gset string → list string).
Notation State := (SchedulerState (F := F) (C := C)).
Implicit Types (s : State) (r : SchedRequest F) (p : Step).

(** The state, and the budgets, at the start of the phase. *)
Context (s0 : State) (tokens prefill encoders : Z) (tk : bool).

(** The tokens that may be scheduled for a request. *)
Definition room r : Z :=
  Z.min (num_tokens_with_spec (req r) + num_output_placeholders r) (sched_max_model_len (config s0) - 1)
  - num_computed_tokens (req r).

(** The compute budget of some encoder inputs. *)
Definition embeds (id : string) (inputs : list nat) : Z :=
  match od_get id (requests s0) with
  | Some r => sumZ (default [] (mapM (get_num_encoder_embeds (req r)) inputs))
  | None => 0
  end.
Definition embeds_spent (d : odict string (list nat)) : Z := sumZ ((λ x, embeds x.1 x.2) <$> d).

(** The compute budget is accounted for exactly when requests are served in
    their order; by priority some of it may be lost when it is given back. *)
Definition within (a b : Z) : Prop := a ≤ b ∧ (policy (config s0) = Controller.FCFS → a = b).
Ltac within :=
  unfold within in *; destruct_and?; split; [lia|let Hpol := fresh in intros Hpol;
    repeat match goal with H : policy _ = _ → _ |- _ => specialize (H Hpol) end; lia].

(** What the step has scheduled so far, when the running list is [R]. *)
Record step_ok (R : list string) p : Prop := {
  st_index : 0 ≤ req_index p;
  st_prefix id : id ∈ scheduled_running_reqs p → id ∈ take (Z.to_nat (req_index p)) R;
  st_nodup : NoDup (scheduled_running_reqs p);
  st_keys : od_keys (num_scheduled_tokens p) = scheduled_running_reqs p;
  st_blocks : od_keys (req_to_new_blocks p) = scheduled_running_reqs p;
  st_budget : token_budget p + sumZ (od_values (num_scheduled_tokens p)) = tokens;
  st_left : 0 ≤ token_budget p;
  st_tokens id n : od_get id (num_scheduled_tokens p) = Some n →
    1 ≤ n ∧ ∃ r, od_get id (requests s0) = Some r ∧ n ≤ room r
      ∧ num_computed_tokens (req r) + n ≤ num_tokens (req r) + num_output_placeholders r
          + zlen (default [] (od_get id (scheduled_spec_decode_tokens p)));
  st_dwf : od_wf (scheduled_spec_decode_tokens p);
  st_drafts id l : od_get id (scheduled_spec_decode_tokens p) = Some l →
    id ∈ scheduled_running_reqs p ∧ ∃ r, od_get id (requests s0) = Some r ∧ l `prefix_of` spec_token_ids (req r);
  st_pwf : od_wf (scheduled_prefill_tokens p);
  st_prefill id n : od_get id (scheduled_prefill_tokens p) = Some n → od_get id (num_scheduled_tokens p) = Some n;
  st_pbudget : prefill_budget p + sumZ (od_values (scheduled_prefill_tokens p)) = prefill;
  st_pleft : 0 ≤ prefill_budget p;
  st_ewf : od_wf (scheduled_encoder_inputs p);
  st_inputs id inputs : od_get id (scheduled_encoder_inputs p) = Some inputs →
    id ∈ scheduled_running_reqs p ∧ ∃ r, od_get id (requests s0) = Some r ∧
      is_Some (mapM (get_num_encoder_embeds (req r)) inputs) ∧ Forall (λ f, 0 ≤ mm_length f) (mm_features (req r));
  st_ebudget : within (encoder_compute_budget p + embeds_spent (scheduled_encoder_inputs p)) encoders;
  st_others : scheduled_new p = [] ∧ scheduled_resumed p = [] ∧ tokencake p = tk
}.

(** ** Taking back what was scheduled for a request *)
Lemma step_wf R p : step_ok R p → od_wf (num_scheduled_tokens p) ∧ od_wf (req_to_new_blocks p).
Proof. intros Hp. unfold od_wf. rewrite (st_keys _ _ Hp), (st_blocks _ _ Hp). split; apply (st_nodup _ _ Hp). Qed.

Lemma values_del_default k (d : odict string Z) :
  od_wf d → sumZ (od_values d) = default 0 (od_get k d) + sumZ (od_values (od_del k d)).
Proof.
  intros Hwf. destruct (od_get k d) as [v|] eqn:Hk; [by apply values_del|]. by rewrite od_del_notin.
Qed.

Lemma spent_del k (d : odict string (list nat)) :
  od_wf d → embeds_spent d = embeds k (default [] (od_get k d)) + embeds_spent (od_del k d).
Proof.
  intros Hwf. destruct (od_get k d) as [v|] eqn:Hk; cbn.
  - unfold embeds_spent at 1. rewrite (sumZ_Permutation _ _ (fmap_Permutation _ _ _ (od_del_Permutation k v d Hwf Hk))).
    done.
  - rewrite (od_del_notin _ _ Hk). unfold embeds. by destruct (od_get k (requests s0)).
Qed.

Lemma embeds_nonneg f : 0 ≤ mm_length f → 0 ≤ get_num_embeds f.
Proof.
  intros Hl. unfold get_num_embeds, embeds_cumsum. destruct (is_embed f) as [m|]; cbn; [|done].
  assert (∀ n, 0 ≤ n → Forall (λ x, 0 ≤ x) (cumsum n m)) as Hc.
  { induction m as [|b m IH]; intros n Hn; cbn; constructor; [destruct b; lia|]. apply IH. destruct b; lia. }
  destruct (last (cumsum 0 m)) as [z|] eqn:Hz; cbn; [|done].
  apply last_Some_elem_of in Hz. by eapply (proj1 (list.Forall_forall _ _) (Hc 0 ltac:(lia))).
Qed.

Lemma embeds_list_nonneg (x : Request F) inputs l : Forall (λ f, 0 ≤ mm_length f) (mm_features x) →
  mapM (get_num_encoder_embeds x) inputs = Some l → 0 ≤ sumZ l.
Proof.
  intros Hf Hl. apply sumZ_nonneg. apply mapM_Some_1 in Hl. induction Hl as [|i n inputs l Hi _ IH]; constructor; [|done].
  unfold get_num_encoder_embeds in Hi. destruct (mm_features x !! i) as [f|] eqn:E; [|done]. injection Hi as <-.
  apply embeds_nonneg. by eapply Forall_lookup_1 in Hf.
Qed.

(** The requests during the phase: as at the start but for the draft tokens,
    which scheduling clears, and for the preempted ones. *)
Definition kept r0 r : Prop := r = r0 ∨ r = on_req (put_spec_token_ids []) r0.

Record evolved (pre : list string) s : Prop := {
  ev_get id :
    match od_get id (requests s0) with
    | None => od_get id (requests s) = None
    | Some r0 => ∃ r, od_get id (requests s) = Some r ∧ if decide (id ∈ pre) then r = preempted_of r0 else kept r0 r
    end;
  ev_config : config s = config s0;
  ev_skipped : skipped_waiting s = skipped_waiting s0;
  ev_waiting : waiting_items (waiting s) ≡ₚ pre ++ waiting_items (waiting s0);
  ev_running : running s ++ pre ≡ₚ running s0;
  ev_others : (finished_req_ids s, prev_step_scheduled_req_ids s, finished_recving_kv_req_ids s,
               failed_recving_kv_req_ids s, pause_state s)
              = (finished_req_ids s0, prev_step_scheduled_req_ids s0, finished_recving_kv_req_ids s0,
                 failed_recving_kv_req_ids s0, pause_state s0)
}.

Lemma evolved_features pre s id r0 r : evolved pre s → od_get id (requests s0) = Some r0 → od_get id (requests s) = Some r →
  mm_features (req r) = mm_features (req r0).
Proof.
  intros Hev H0' Hr. pose proof (ev_get _ _ Hev id) as Hg. rewrite H0' in Hg. destruct Hg as (r' & Hr' & Hk).
  rewrite Hr in Hr'. injection Hr' as <-. case_decide; [by subst|]. by destruct Hk as [E|E]; rewrite E.
Qed.

Lemma embeds_same (x y : Request F) inputs : mm_features x = mm_features y →
  mapM (get_num_encoder_embeds x) inputs = mapM (get_num_encoder_embeds y) inputs.
Proof.
  intros Hxy. assert (∀ i, get_num_encoder_embeds x i = get_num_encoder_embeds y i) as E.
  { intros i. unfold get_num_encoder_embeds. by rewrite Hxy. }
  induction inputs as [|i inputs IH]; [done|]. cbn [mapM]. by rewrite E, IH.
Qed.

(** What is given back: the step without [v], the running list without it. *)
Record given_back p (v : string) p' (restored : Z) : Prop := {
  gb_encoder : encoder_compute_budget p' = encoder_compute_budget p + restored;
  gb_restored : 0 ≤ restored;
  gb_tokens : token_budget p ≤ token_budget p';
  gb_prefill : prefill_budget p ≤ prefill_budget p';
  gb_preempted : preempted_reqs p' = preempted_reqs p;
  gb_index : req_index p' = req_index p - 1;
  gb_scheduled id : id ∈ scheduled_running_reqs p' → id ∈ scheduled_running_reqs p
}.

Lemma in_prefix_position (R1 R2 : list string) v k :
  NoDup (R1 ++ v :: R2) → v ∈ take k (R1 ++ v :: R2) → (length R1 < k)%nat.
Proof.
  intros Hnd (i & Hi & Hk)%elem_of_take. assert (i = length R1) as ->; [|done].
  eapply NoDup_lookup; [exact Hnd|exact Hi|]. by rewrite list_lookup_middle.
Qed.

Lemma keys_del {V} (d : odict string V) l l' v : NoDup l → od_keys d = l → list_remove v l = Some l' →
  od_keys (od_del v d) = l'.
Proof. intros Hnd Hd Hl. rewrite od_keys_del, Hd. by apply list_remove_filter. Qed.

Lemma get_del_Some {V} (d : odict string V) v id x : od_get id (od_del v d) = Some x → od_wf d → id ≠ v ∧ od_get id d = Some x.
Proof.
  intros Hg Hwf. rewrite od_get_del in Hg. case_decide; [done|]. done.
Qed.

Lemma wp_unschedule pre s s1 R1 R2 v p (Q : Step * Z → State → Prop) E :
  step_ok (R1 ++ v :: R2) p → NoDup (R1 ++ v :: R2) → evolved pre s → requests s1 = requests s →
  v ∈ scheduled_running_reqs p →
  (∀ p' restored, step_ok (R1 ++ R2) p' → given_back p v p' restored → Q (p', restored) s1) →
  wp (unschedule v p) Q E s1.
Proof.
  intros Hp Hnd Hev Hreq Hv HQ. destruct (step_wf _ _ Hp) as [Hwn Hwb].
  pose proof (in_prefix_position _ _ _ _ Hnd (st_prefix _ _ Hp _ Hv)) as Hpos.
  destruct (list_remove_is_Some _ _ Hv) as [l' Hl']. destruct (list_remove_split _ _ _ Hl') as (l1 & l2 & Hl & ->).
  pose proof (list_remove_filter _ _ _ (st_nodup _ _ Hp) Hl') as Hfil.
  assert (∀ id, id ∈ l1 ++ l2 ↔ id ≠ v ∧ id ∈ scheduled_running_reqs p) as Hin.
  { intros id. rewrite <-Hfil, list_elem_of_filter. done. }
  destruct (od_get v (num_scheduled_tokens p)) as [n|] eqn:Hn.
  2:{ apply od_get_None in Hn. by rewrite (st_keys _ _ Hp) in Hn. }
  destruct (od_get v (req_to_new_blocks p)) as [bs|] eqn:Hbs.
  2:{ apply od_get_None in Hbs. by rewrite (st_blocks _ _ Hp) in Hbs. }
  destruct (st_tokens _ _ Hp _ _ Hn) as (Hn1 & r0 & Hr0 & _).
  pose proof (ev_get _ _ Hev v) as Hget. rewrite Hr0 in Hget. destruct Hget as (r & Hr & _).
  pose proof (evolved_features _ _ _ _ _ Hev Hr0 Hr) as Hfeat.
  assert (∃ l, mapM (get_num_encoder_embeds (req r)) (default [] (od_get v (scheduled_encoder_inputs p))) = Some l
             ∧ 0 ≤ sumZ l ∧ embeds v (default [] (od_get v (scheduled_encoder_inputs p))) = sumZ l) as (l & Hl3 & Hl0 & Hle).
  { rewrite (embeds_same _ _ _ Hfeat). unfold embeds. rewrite Hr0.
    destruct (od_get v (scheduled_encoder_inputs p)) as [inputs|] eqn:Hi; cbn [default from_option id]; [|by exists []].
    destruct (st_inputs _ _ Hp _ _ Hi) as (_ & r' & Hr' & [l Hl0] & Hlen). assert (r' = r0) as -> by congruence.
    exists l. rewrite Hl0. split; [done|]. split; [by eapply embeds_list_nonneg|done]. }
  unfold unschedule. apply wp_bind, (wp_get_request _ _ r); [by rewrite Hreq|].
  rewrite Hl', Hn, Hbs. cbn [some_or]. do 3 (apply wp_bind, wp_ret). unfold embeds_of. rewrite Hl3. cbn [some_or].
  apply wp_bind, wp_bind, wp_ret, wp_ret, wp_ret, HQ.
  - split; cbn [req_index scheduled_running_reqs num_scheduled_tokens req_to_new_blocks token_budget
      scheduled_prefill_tokens prefill_budget scheduled_encoder_inputs encoder_compute_budget scheduled_new
      scheduled_resumed tokencake scheduled_spec_decode_tokens].
    + lia.
    + intros id [Hne Hid]%Hin. eapply take_without; [by apply (st_prefix _ _ Hp)|done|lia|lia].
    + rewrite <-Hfil. apply NoDup_filter, Hp.
    + apply (keys_del _ _ _ _ (st_nodup _ _ Hp)); [apply Hp|done].
    + apply (keys_del _ _ _ _ (st_nodup _ _ Hp)); [apply Hp|done].
    + pose proof (st_budget _ _ Hp). rewrite (values_del _ _ _ Hwn Hn) in H2. lia.
    + pose proof (st_left _ _ Hp). lia.
    + intros id m [Hne Hm]%get_del_Some; [|done]. rewrite od_get_del, decide_False by done. by apply Hp.
    + apply od_wf_del, Hp.
    + intros id l' [Hne Hi]%get_del_Some; [|apply Hp]. destruct (st_drafts _ _ Hp _ _ Hi) as [Hs Hr']. split; [|done].
      by apply Hin.
    + apply od_wf_del, Hp.
    + intros id m [Hne Hm]%get_del_Some; [|apply Hp]. rewrite od_get_del, decide_False by done. by apply Hp.
    + pose proof (st_pbudget _ _ Hp) as Hpb. rewrite (values_del_default v _ (st_pwf _ _ Hp)) in Hpb. unfold count0. lia.
    + pose proof (st_pleft _ _ Hp). unfold count0. destruct (od_get v (scheduled_prefill_tokens p)) as [m|] eqn:Hm; cbn; [|lia].
      apply (st_prefill _ _ Hp), (st_tokens _ _ Hp) in Hm as [? _]. lia.
    + apply od_wf_del, Hp.
    + intros id inputs [Hne Hi]%get_del_Some; [|apply Hp]. destruct (st_inputs _ _ Hp _ _ Hi) as [Hs Hr']. split; [|done].
      by apply Hin.
    + pose proof (st_ebudget _ _ Hp) as Heb. rewrite (spent_del v _ (st_ewf _ _ Hp)), Hle in Heb. within.
    + apply Hp.
  - split; cbn; try done; [lia| |intros id Hid; by apply Hin in Hid as [_ ?]].
    unfold count0. destruct (od_get v (scheduled_prefill_tokens p)) as [m|] eqn:Hm; cbn; [|lia].
    apply (st_prefill _ _ Hp), (st_tokens _ _ Hp) in Hm as [? _]. lia.
Qed.

(** ** The victim of a preemption *)
(** What the removal of [v], preceded by [R1], does to a step: how far the
    index may move, and the compute budget to give back. *)
Record victim_gone (R1 : list string) p (v : string) p' (restored : Z) : Prop := {
  vg_preempted : preempted_reqs p' = preempted_reqs p;
  vg_scheduled id : id ∈ scheduled_running_reqs p' → id ∈ scheduled_running_reqs p;
  vg_encoder : within (encoder_compute_budget p + restored) (encoder_compute_budget p');
  vg_restored : 0 ≤ restored;
  vg_tokens : token_budget p ≤ token_budget p';
  vg_prefill : prefill_budget p ≤ prefill_budget p';
  vg_before : zlen R1 < req_index p → req_index p - 1 ≤ req_index p' ≤ req_index p;
  vg_after : req_index p ≤ zlen R1 → req_index p' = req_index p;
  vg_exact : policy (config s0) = Controller.FCFS → zlen R1 < req_index p → req_index p' = req_index p - 1
}.

(** The request being scheduled: not scheduled yet, and at the index (not
    after it, when the policy is by priority). *)
Record current (R : list string) p (id : string) : Prop := {
  cu_prefix : id ∈ take (S (Z.to_nat (req_index p))) R;
  cu_new : id ∉ scheduled_running_reqs p;
  cu_exact : policy (config s0) = Controller.FCFS → R !! Z.to_nat (req_index p) = Some id
}.

Lemma current_after R1 R2 p v p' restored id :
  0 ≤ req_index p' → victim_gone R1 p v p' restored → v ≠ id → current (R1 ++ v :: R2) p id →
  current (R1 ++ R2) p' id.
Proof.
  intros Hidx Hg Hne Hc. pose proof (vg_before _ _ _ _ _ Hg) as Hb. pose proof (vg_after _ _ _ _ _ Hg) as Ha.
  unfold zlen in *. split.
  - eapply take_without; [apply Hc|done|lia|lia].
  - intros Hid%(vg_scheduled _ _ _ _ _ Hg). by apply (cu_new _ _ _ Hc).
  - intros Hpol. pose proof (cu_exact _ _ _ Hc Hpol) as Hx. pose proof (vg_exact _ _ _ _ _ Hg Hpol) as He. unfold zlen in He.
    destruct (decide (length R1 < Z.to_nat (req_index p))%nat) as [Hlt|Hge].
    + rewrite lookup_app_r in Hx by lia. destruct (Z.to_nat (req_index p) - length R1)%nat as [|j] eqn:Hj; [lia|].
      cbn in Hx. rewrite lookup_app_r by lia. rewrite <-Hx. f_equal. lia.
    + destruct (decide (Z.to_nat (req_index p) = length R1)) as [Heq|].
      * rewrite Heq, list_lookup_middle in Hx by done. by injection Hx.
      * rewrite lookup_app_l in Hx by lia. rewrite lookup_app_l by lia. rewrite <-Hx. f_equal. lia.
Qed.

(** A victim that was not scheduled in the step. *)
Lemma step_unscheduled R1 R2 p v i :
  step_ok (R1 ++ v :: R2) p → v ∉ scheduled_running_reqs p →
  0 ≤ i → (zlen R1 < req_index p → req_index p - 1 ≤ i) → (req_index p ≤ zlen R1 → req_index p ≤ i) →
  step_ok (R1 ++ R2) (put_req_index i p).
Proof.
  intros [] Hv Hi Hlt Hge. unfold zlen in *. split; try done. cbn. intros id Hid.
  eapply take_without; [by apply st_prefix0|by intros ->|lia|lia].
Qed.

Lemma put_req_index_eta p : put_req_index (req_index p) p = p.
Proof. by destruct p. Qed.

Lemma step_stays R1 R2 p v :
  step_ok (R1 ++ v :: R2) p → v ∉ scheduled_running_reqs p → step_ok (R1 ++ R2) p.
Proof.
  intros Hp Hv. rewrite <-(put_req_index_eta p).
  apply (step_unscheduled _ _ _ v); try done; [apply Hp|unfold zlen in *; lia..].
Qed.

Lemma last_split (R : list string) v : last R = Some v → R = removelast R ++ [v].
Proof. intros Hl. apply last_Some in Hl as [l ->]. by rewrite removelast_last. Qed.

Lemma requests_of_ids s ids : sched_inv s → (∀ id, id ∈ ids → id ∈ placed s) → request_id <$> requests_of ids s = ids.
Proof.
  intros Hs Hids. unfold requests_of. induction ids as [|id ids IH]; [done|]. cbn [omap list_omap].
  destruct (proj1 (iv_placed _ Hs id)) as (r & Hr & _); [apply Hids; by left|]. rewrite Hr. cbn.
  rewrite (iv_id _ Hs _ _ Hr), IH; [done|]. intros j Hj. apply Hids. by right.
Qed.

Lemma max_by_in {A} (lt : A → A → bool) l x : max_by lt l = Some x → x ∈ l.
Proof.
  destruct l as [|y l]; [done|]. cbn. intros [= <-]. revert y. induction l as [|z l IH]; intros y; cbn; [by left|].
  destruct (lt y z); [right; apply IH|]. destruct (proj1 (elem_of_cons _ _ _) (IH y)) as [E|E]; [rewrite E; by left|right; by right].
Qed.

Lemma index_of_middle (R1 R2 : list string) v : NoDup (R1 ++ v :: R2) → index_of v (R1 ++ v :: R2) = Some (zlen R1).
Proof.
  intros Hnd. unfold index_of. destruct (list_find (v =.) (R1 ++ v :: R2)) as [[i y]|] eqn:Hf.
  - apply list_find_Some in Hf as (Hi & <- & _). do 2 f_equal. apply (f_equal Z.of_nat).
    eapply NoDup_lookup; [exact Hnd|exact Hi|]. by rewrite list_lookup_middle.
  - exfalso. apply list_find_None in Hf. rewrite list.Forall_forall in Hf. apply (Hf v); [|done].
    apply elem_of_app. right. by left.
Qed.

Context (may_raise : Prop).
Notation E := (raises may_raise).

(** [v] has left the running list of [s]. *)
Definition taken s p (x : string * Step * Z) s' : Prop :=
  ∃ R1 R2, running s = R1 ++ x.1.1 :: R2 ∧ s' = put_running (R1 ++ R2) s
    ∧ victim_gone R1 p x.1.1 x.1.2 x.2 ∧ step_ok (R1 ++ R2) x.1.2.

(** A victim named by the controller or by the priorities. *)
Lemma wp_named_victim pre s p v (agent : bool) :
  NoDup (running s) → step_ok (running s) p → evolved pre s →
  config s = config s0 → (policy (config s) = Controller.FCFS → agent = true) → v ∈ running s ∨ may_raise →
  wp (victim_index ← (if agent then some_or ValueError (index_of v (running s)) else mret (-1));
      running' ← some_or ValueError (list_remove v (running s));
      modify (put_running running') ;;
      if bool_decide (v ∈ scheduled_running_reqs p) then
        x ← unschedule v p; mret (v, x.1, if agent : bool then x.2 else 0)
      else if agent && (victim_index <? req_index p)
      then mret (v, put_req_index (req_index p - 1) p, 0)
      else mret (v, p, 0)) (taken s p) E s.
Proof.
  intros Hnd Hp Hev Hcfg Hpol Hv.
  destruct (decide (v ∈ running s)) as [Hin|Hout].
  2:{ assert may_raise as Hr by by destruct Hv.
      assert (list_remove v (running s) = None) as ->.
      { pose proof (list_remove_spec v (running s)) as Hs. destruct (list_remove v (running s)) as [l|]; [|done].
        destruct Hout. rewrite Hs. by left. }
      apply wp_bind. eapply (wp_mono _ (λ _ _, True)); [|intros; by apply wp_raise|by intros].
      destruct agent; [|by apply wp_ret]. apply wp_some_or; by intros. }
  destruct (list_remove_is_Some _ _ Hin) as [R' HR']. destruct (list_remove_split _ _ _ HR') as (R1 & R2 & HR & ->).
  rewrite HR in Hnd, Hp.
  apply wp_bind. eapply (wp_mono _ (λ vi s', s' = s ∧ vi = if agent then zlen R1 else -1) _ E); [| |done].
  { destruct agent; [|by apply wp_ret]. rewrite HR, index_of_middle by done. by apply wp_ret. }
  intros vi ? [-> ->]. rewrite HR'. cbn [some_or]. apply wp_bind, wp_ret, wp_bind, wp_modify.
  set (s1 := put_running (R1 ++ R2) s). rewrite Hcfg in Hpol.
  case_bool_decide as Hsch.
  - apply wp_bind. pose proof (in_prefix_position _ _ _ _ Hnd (st_prefix _ _ Hp _ Hsch)) as Hpos.
    apply (wp_unschedule pre s s1 R1 R2 v p); [done..|]. intros p' restored Hp' Hg. apply wp_ret.
    exists R1, R2. cbn. split_and!; [done..| |done].
    destruct Hg as [G1 G2 G3 G4 G5 G6 G7]. unfold zlen in *. split; rewrite ?G4; try done; try lia;
      try (split; [destruct agent; lia|intros Hf; rewrite (Hpol Hf); lia]); unfold zlen in *; destruct agent; lia.
  - destruct agent; cbn [andb].
    + destruct (Z.ltb_spec (zlen R1) (req_index p)) as [Hlt|Hge].
      * apply wp_ret. exists R1, R2. cbn. split_and!; [done..| |apply (step_unscheduled _ _ _ v); try done; unfold zlen in *; lia].
        split; cbn; try done; try lia; within.
      * apply wp_ret. exists R1, R2. cbn. split_and!; [done..| |by apply (step_stays _ _ _ v)].
        split; cbn; try done; try lia; within.
    + apply wp_ret. exists R1, R2. cbn. split_and!; [done..| |by apply (step_stays _ _ _ v)].
      split; cbn; try done; try lia; within.
Qed.

Lemma running_nodup s : sched_inv s → NoDup (running s).
Proof. intros Hs. pose proof (iv_nodup _ Hs) as Hnd. by apply NoDup_app in Hnd as [? _]. Qed.

Lemma wp_take_victim pre s p id agent :
  sched_inv s → step_ok (running s) p → evolved pre s → current (running s) p id →
  (∀ a, agent = Some a → a ∈ running s ∨ may_raise) →
  wp (take_victim p agent) (taken s p) E s.
Proof.
  intros Hs Hp Hev Hc Ha. pose proof (running_nodup _ Hs) as Hnd. pose proof (ev_config _ _ Hev) as Hcfg.
  assert (id ∈ running s) as Hid.
  { pose proof (cu_prefix _ _ _ Hc) as (i & Hi & _)%elem_of_take. by eapply list_elem_of_lookup_2. }
  unfold take_victim. apply wp_get. destruct agent as [a|]; [|destruct (policy (config s)) eqn:Hpol].
  - rewrite (bool_decide_eq_true_2 (is_Some (Some a))) by done.
    apply wp_bind, wp_ret. by apply (wp_named_victim pre s p a true); try done; apply Ha.
  - destruct (last (running s)) as [v|] eqn:Hl.
    2:{ apply last_None in Hl. rewrite Hl in Hid. by apply elem_of_nil in Hid. }
    pose proof (last_split _ _ Hl) as HR. apply wp_bind, wp_ret, wp_bind, wp_modify, wp_ret.
    exists (removelast (running s)), []. rewrite app_nil_r. cbn.
    rewrite HR in Hp, Hc, Hnd. pose proof (cu_exact _ _ _ Hc ltac:(congruence)) as Hx.
    pose proof (st_index _ _ Hp) as Hidx. apply lookup_lt_Some in Hx as Hlt. rewrite length_app in Hlt. cbn in Hlt.
    split_and!; [done..| |].
    + split; cbn; try done; unfold zlen; try lia; within.
    + rewrite <-(app_nil_r (removelast _)). apply (step_stays _ _ _ v); [done|].
      intros Hsch%(st_prefix _ _ Hp). apply in_prefix_position in Hsch; [lia|done].
  - rewrite (bool_decide_eq_false_2 (is_Some None)) by (by intros []).
    pose proof (requests_of_ids s (running s) Hs) as Hids.
    assert (request_id <$> requests_of (running s) s = running s) as Hids'.
    { apply Hids. intros j Hj. unfold placed. apply elem_of_app. by left. }
    destruct (max_by priority_key_lt (requests_of (running s) s)) as [x|] eqn:Hx.
    2:{ destruct (requests_of (running s) s); [|done]. rewrite <-Hids' in Hid. by apply elem_of_nil in Hid. }
    apply wp_bind. cbn [some_or]. apply wp_bind, wp_ret, wp_ret.
    apply (wp_named_victim pre s p (request_id x) false); try done; [congruence|]. left. rewrite <-Hids'.
    apply list_elem_of_fmap_2. by eapply max_by_in.
Qed.

Context (parts_ok : list string → State → Prop) (fits : SchedRequest F → Prop).
Context `{!RunningParts time_monotonic set_order may_raise parts_ok fits}.
Context (s0_inv : sched_inv s0).

Record running_inv p s : Prop := {
  ru_sched : sched_inv s;
  ru_parts : parts_ok (running s) s;
  ru_fits : all_fit fits s;
  ru_evolved : evolved (preempted_reqs p) s;
  ru_step : step_ok (running s) p
}.

(** What a call on a part leaves. *)
Lemma running_frame p s s' :
  running_inv p s → frame s s' → parts_ok (running s) s' → running_inv p s'.
Proof.
  intros [Hs Hp Hf Hev Hst] Hfr Hp'. pose proof (sched_inv_frame _ _ Hfr Hs) as Hs'.
  injection Hfr as E1 E2 E3 E4 E5 E6 E7 E8 E9 E10.
  split; [done|by rewrite E5|unfold all_fit in *; by rewrite E2| |by rewrite E5].
  destruct Hev. split; rewrite ?E1, ?E2, ?E3, ?E4, ?E5, ?E6, ?E7, ?E8, ?E9, ?E10; done.
Qed.

Lemma evolved_nodup pre s : evolved pre s → NoDup (running s ++ pre).
Proof. intros Hev. rewrite (ev_running _ _ Hev). by apply running_nodup. Qed.

Lemma evolved_preempt pre s v R s' :
  sched_inv s → evolved pre s → running s ≡ₚ v :: R → preempted_to s v R s' → evolved (pre ++ [v]) s'.
Proof.
  intros Hs Hev HR Hto. pose proof (evolved_nodup _ _ Hev) as Hnd. rewrite HR in Hnd. cbn in Hnd.
  apply NoDup_cons in Hnd as [Hv _]. rewrite not_elem_of_app in Hv. destruct Hv as [_ Hv].
  split.
  - intros id. pose proof (ev_get _ _ Hev id) as Hg. rewrite (pr_requests _ _ _ _ Hto), od_get_alter.
    destruct (od_get id (requests s0)) as [r0|].
    2:{ destruct (decide (v = id)) as [->|]; [|done]. by rewrite Hg. }
    destruct Hg as (r & Hr & Hk). destruct (decide (v = id)) as [->|Hne].
    + rewrite Hr. exists (preempted_of r). split; [done|]. rewrite decide_False in Hk by done.
      rewrite decide_True by (apply elem_of_app; right; by left). by destruct Hk as [->| ->].
    + exists r. split; [done|]. rewrite (decide_ext _ (id ∈ pre)); [done|].
      rewrite elem_of_app, list_elem_of_singleton. naive_solver.
  - rewrite (pr_config _ _ _ _ Hto). apply Hev.
  - rewrite (pr_skipped _ _ _ _ Hto). apply Hev.
  - rewrite (pr_waiting _ _ _ _ Hto), (ev_waiting _ _ Hev), <-(assoc_L (++)). cbn. by rewrite Permutation_middle.
  - rewrite (pr_running _ _ _ _ Hto), <-(ev_running _ _ Hev), HR, (assoc_L (++)), (comm (++) _ [v]). done.
  - rewrite (pr_others _ _ _ _ Hto). apply Hev.
Qed.

(** One preemption, from the choice of the victim on. *)
Lemma wp_preempt_victim p s id agent (Q : string * Step * Z → State → Prop) :
  running_inv p s → current (running s) p id → (∀ a, agent = Some a → a ∈ running s ∨ may_raise) →
  (∀ v p1 restored R1 R2 s', running s = R1 ++ v :: R2 → victim_gone R1 p v p1 restored → 0 ≤ req_index p1 →
     preempted_to s v (R1 ++ R2) s' →
     running_inv (put_preempted_reqs (preempted_reqs p1 ++ [v]) p1) s' → Q (v, p1, restored) s') →
  wp (take_victim p agent)
    (λ x, wp (preempt_request lt_id time_monotonic set_order x.1.1 true) (λ _, Q x) E) E s.
Proof.
  intros [Hs Hparts Hf Hev Hst] Hc Ha HQ.
  eapply wp_mono; [by eapply wp_take_victim| |done]. intros [[v p1] restored] s1 (R1 & R2 & HR & -> & Hg & Hst1).
  cbn in HR, Hg, Hst1. assert (running s ≡ₚ v :: R1 ++ R2) as HRp by (rewrite HR; by rewrite Permutation_middle).
  eapply wp_mono; [by eapply wp_preempt_request| |done]. intros [] s2 (Hto & Hs2 & Hp2 & Hf2).
  pose proof (pr_running _ _ _ _ Hto) as Hr2.
  apply (HQ v p1 restored R1 R2); try done; [apply Hst1|]. split; cbn; try done.
  - by rewrite Hr2.
  - rewrite (vg_preempted _ _ _ _ _ Hg). by apply (evolved_preempt _ s _ (R1 ++ R2)).
  - rewrite Hr2. destruct Hst1. by split.
Qed.

Lemma current_put p R id l : current R p id → current R (put_preempted_reqs l p) id.
Proof. intros []. by split. Qed.

(** The outcome of the allocation loop: the request has its blocks and is
    still the current one, or was preempted itself. *)
Record allocated p s (id : string) r (b l : Z) (x : option (list (list nat)) * Step * Z) s' : Prop := {
  al_inv : running_inv x.1.2 s';
  al_measure : zlen (running s') - req_index x.1.2 ≤ zlen (running s) - req_index p;
  al_tokens : token_budget p ≤ token_budget x.1.2;
  al_prefill : prefill_budget p ≤ prefill_budget x.1.2;
  al_got : is_Some x.1.1 →
    current (running s') x.1.2 id ∧ od_get id (requests s') = Some r ∧ within (x.2 + l) (encoder_compute_budget x.1.2)
}.

Lemma allocated_trans p s id r b l p1 s1 b1 x s' :
  zlen (running s1) - req_index p1 ≤ zlen (running s) - req_index p →
  token_budget p ≤ token_budget p1 → prefill_budget p ≤ prefill_budget p1 →
  allocated p1 s1 id r b1 l x s' → allocated p s id r b l x s'.
Proof. intros H1' H2' H3' []. split; try done; lia. Qed.

Lemma wp_allocate_running fuel : ∀ p s id r n b l,
  running_inv p s → current (running s) p id → od_get id (requests s) = Some r → 1 ≤ n →
  within (b + l) (encoder_compute_budget p) → (length (running s) ≤ fuel)%nat →
  wp (allocate_running lt_id time_monotonic set_order fuel id n p b) (allocated p s id r b l) E s.
Proof.
  induction fuel as [|fuel IH]; intros p s id r n b l Hru Hc Hr Hn Hb Hfuel; cbn [allocate_running].
  { pose proof (cu_prefix _ _ _ Hc) as (i & Hi & _)%elem_of_take. apply lookup_lt_Some in Hi. lia. }
  assert (id ∈ running s) as Hid.
  { pose proof (cu_prefix _ _ _ Hc) as (i & Hi & _)%elem_of_take. by eapply list_elem_of_lookup_2. }
  pose proof (ru_sched _ _ Hru) as Hs.
  assert (unfinished r) as Hu.
  { destruct (proj1 (iv_placed _ Hs id)) as (r' & Hr' & Hu); [unfold placed; apply elem_of_app; by left|]. congruence. }
  apply wp_bind, (wp_get_request _ _ r); [done|]. apply wp_get.
  eapply wp_step.
  { apply (pt_allocate (running s)); [apply Hru|apply Hs| |by eapply (ru_fits _ _ Hru)|by eapply (iv_tokens _ Hs)|done].
    by rewrite (iv_id _ Hs _ _ Hr). }
  intros blocks s1 [F1 P1]. pose proof (running_frame _ _ _ Hru F1 P1) as Hru1. injection F1 as _ E2 _ _ E5 _ _ _ _ _.
  rewrite <-E2 in Hr. rewrite <-E5 in Hc, Hfuel, P1.
  destruct blocks as [blocks|].
  - eapply wp_step; [by apply (pt_commit (running s1))|]. intros [] s2 [F2 P2]. apply wp_ret.
    pose proof (running_frame _ _ _ Hru1 F2 P2) as Hru2. injection F2 as _ E2' _ _ E5' _ _ _ _ _.
    split; cbn; try done; try lia; [by rewrite E5', E5|]. intros _. by rewrite E5', E2'.
  - eapply wp_step; [by apply (pt_victim (running s1))|]. intros agent s2 (F2 & P2 & Ha).
    pose proof (running_frame _ _ _ Hru1 F2 P2) as Hru2. injection F2 as _ E2' _ _ E5' _ _ _ _ _.
    rewrite <-E5' in Hc, Hfuel, Ha. rewrite <-E2' in Hr. assert (running s2 = running s) as ER by congruence.
    clear Hru Hru1 P1 P2 E2 E5 E2' E5' Hid.
    apply wp_bind. eapply wp_mono; [eapply wp_preempt_victim with (Q := λ x, wp
      (let p' := put_preempted_reqs (preempted_reqs x.1.2 ++ [x.1.1]) x.1.2 in
       if bool_decide (x.1.1 = id) then mret (None, p', b + x.2)
       else allocate_running lt_id time_monotonic set_order fuel id n p' (b + x.2))
      (allocated p s id r b l) E)|intros [[v p1] restored] s' HQ; apply wp_bind, HQ|done]; [done..|].
    intros v p1 restored R1 R2 s3 HR Hg Hidx Hto Hru3. cbn [fst snd]. cbv zeta.
    assert (running s2 ≡ₚ v :: R1 ++ R2) as HRp by (rewrite HR; by rewrite Permutation_middle).
    assert (zlen (R1 ++ R2) - req_index p1 ≤ zlen (running s) - req_index p) as Hm.
    { rewrite <-ER, HR. pose proof (vg_before _ _ _ _ _ Hg). pose proof (vg_after _ _ _ _ _ Hg).
      unfold zlen in *. rewrite !length_app. cbn. lia. }
    pose proof (pr_running _ _ _ _ Hto) as Hr3. case_bool_decide as Hv.
    + apply wp_ret. split; cbn; try done; [by rewrite Hr3|apply Hg|apply Hg].
    + eapply wp_mono; [apply (IH _ s3 id r n (b + restored) l)| |done].
      * done.
      * rewrite Hr3. apply (current_put p1). apply (current_after _ _ p v p1 restored); [done..|]. by rewrite <-HR.
      * rewrite (pr_requests _ _ _ _ Hto), od_get_alter, decide_False by done. done.
      * done.
      * pose proof (vg_encoder _ _ _ _ _ Hg). cbn. within.
      * rewrite Hr3. rewrite HRp in Hfuel. cbn in Hfuel. lia.
      * intros x s4. apply allocated_trans; [by rewrite Hr3|apply Hg|apply Hg].
Qed.

(** ** The tokens of a running request *)
Lemma threshold_cap_le cfg n : 0 ≤ n → 0 ≤ threshold_cap cfg n ≤ n.
Proof.
  intros Hn. unfold threshold_cap. destruct (_ && _) eqn:Hb; [|lia].
  apply andb_true_iff in Hb as [H1'%Z.ltb_lt H2'%Z.ltb_lt]. lia.
Qed.

Lemma wp_mamba_split s (x : Request F) n : config_ok (config s) → 0 ≤ n →
  wp (mamba_block_aligned_split x n 0 0) (λ n' s', s' = s ∧ 0 ≤ n' ≤ n) E s.
Proof.
  intros (_ & _ & _ & Hbs) Hn. unfold mamba_block_aligned_split. apply wp_bind, wp_assert; [intros _|done]. apply wp_get.
  destruct (_ <? _); [|by apply wp_ret]. cbv zeta.
  set (last_pos := if use_eagle (config s) then _ else _). destruct (Z.ltb_spec (num_computed_tokens x + 0 + 0 + n) last_pos).
  - apply wp_ret. split; [done|]. pose proof (Z.div_mod n (cache_block_size (config s)) ltac:(lia)).
    pose proof (Z.mod_pos_bound n (cache_block_size (config s)) Hbs). pose proof (Z.div_pos n _ Hn Hbs). nia.
  - destruct (_ && _) eqn:Hb; apply wp_ret; (split; [done|]); [|lia].
    apply andb_true_iff in Hb as [H1'%Z.ltb_lt H2'%Z.ltb_lt]. lia.
Qed.

Lemma limited_inr p s (x : Request F) prefilling n : limited_prefill p x prefilling n s = true →
  tokencake p = true ∧ ∃ k, allocator s = inr k.
Proof.
  unfold limited_prefill. destruct (tokencake p); [|done]. destruct (allocator s) as [|k]; [done|]. by eauto.
Qed.

(** What [running_tokens] settles for the request [r]. *)
Record tokens_for p r (n : Z) (limited : bool) (plan : EncoderCache.Plan) : Prop := {
  tf_range : 0 ≤ n ≤ token_budget p;
  tf_wanted : n ≤ num_tokens_with_spec (req r) + num_output_placeholders r - num_computed_tokens (req r);
  tf_length : n ≤ sched_max_model_len (config s0) - 1 - num_computed_tokens (req r);
  tf_limited : limited = true → n ≤ prefill_budget p;
  tf_plan : ∃ m, plan_good (req r) m (encoder_compute_budget p) plan
}.

Lemma wp_running_tokens p s r :
  running_inv p s → tokens_ok (config s) r → fits r →
  wp (running_tokens r p)
    (λ x s', running_inv p s' ∧ frame s s' ∧ tokens_for p r x.1.1 x.1.2 x.2) E s.
Proof.
  intros Hru (T2 & T3 & _ & T4 & _) Hfit. pose proof (ru_step _ _ Hru) as Hst.
  pose proof (ev_config _ _ (ru_evolved _ _ Hru)) as Hcfg. unfold running_tokens. apply wp_get. cbv zeta.
  set (wanted := num_tokens_with_spec (req r) + num_output_placeholders r - num_computed_tokens (req r)).
  set (n0 := Z.min (threshold_cap (config s) wanted) (token_budget p)).
  pose proof (threshold_cap_le (config s) wanted ltac:(unfold wanted, num_tokens_with_spec, num_tokens, zlen in *; lia)) as Hcap.
  pose proof (st_left _ _ Hst) as Hleft. pose proof (st_pleft _ _ Hst) as Hpleft.
  set (limited := limited_prefill p _ _ n0 s).
  apply wp_bind. eapply (wp_mono _ (λ n s', running_inv p s' ∧ frame s s' ∧ 0 ≤ n ≤ n0 ∧ (limited = true → n ≤ prefill_budget p)));
    [| |done].
  { destruct limited eqn:Hlim; [|apply wp_ret; split_and!; try done; lia].
    apply limited_inr in Hlim as [Htk [k Hk]].
    eapply wp_mono; [by apply (pt_cap (running s)), Hru| |done]. intros n s1 (F1 & P1 & ->). rewrite Htk, Hk.
    split_and!; [by eapply running_frame|done|lia|lia|intros; lia]. }
  intros n1 s1 (Hru1 & F1 & Hn1 & Hlim1). pose proof F1 as F1'. injection F1' as C1 _ _ _ R1 _ _ _ _ _.
  set (n2 := Z.min n1 _). assert (0 ≤ n2 ≤ n1) as Hn2 by (unfold n2; lia).
  eapply wp_step; [apply (pt_plan (running s1)); [apply Hru1|done|lia]|]. intros plan s2 (F2 & P2 & Hplan).
  pose proof (running_frame _ _ _ Hru1 F2 P2) as Hru2. pose proof Hplan as ((Hp1 & Hp2) & _).
  pose proof (frame_then _ _ _ F1 F2) as F12. apply wp_bind.
  eapply (wp_mono _ (λ n s', s' = s2 ∧ 0 ≤ n ≤ new_tokens plan)); [| |done].
  { destruct (need_mamba_block_aligned_split (config s)); [|by apply wp_ret]. apply wp_mamba_split; [apply Hru2|done]. }
  intros n3 ? [-> Hn3]. apply wp_ret. cbn [fst snd]. split_and!; [done..|].
  split; [lia|unfold n0, wanted in *; lia|rewrite <-Hcfg; unfold n2 in *; lia|intros Hl; specialize (Hlim1 Hl); lia|by eexists].
Qed.

(** ** One round of the loop *)
Lemma spent_set id inputs (d : odict string (list nat)) : od_get id d = None →
  embeds_spent (od_set id inputs d) = embeds_spent d + embeds id inputs.
Proof.
  intros Hd. rewrite od_set_new by done. unfold embeds_spent. rewrite fmap_app, sumZ_app. cbn. lia.
Qed.

Lemma values_set_new id n (d : odict string Z) : od_get id d = None →
  sumZ (od_values (od_set id n d)) = sumZ (od_values d) + n.
Proof. intros Hd. rewrite od_set_new by done. unfold od_values. rewrite fmap_app, sumZ_app. cbn. lia. Qed.

Lemma keys_set_new {V} id (v : V) (d : odict string V) l : od_keys d = l → id ∉ l → od_keys (od_set id v d) = l ++ [id].
Proof.
  intros Hd Hid. rewrite od_set_new by (by apply od_get_None; rewrite Hd). unfold od_keys in *. rewrite fmap_app. by rewrite Hd.
Qed.

Lemma kept_same r0 r : kept r0 r →
  mm_features (req r) = mm_features (req r0) ∧ num_output_placeholders r = num_output_placeholders r0
  ∧ num_computed_tokens (req r) = num_computed_tokens (req r0) ∧ num_tokens_with_spec (req r) ≤ num_tokens_with_spec (req r0)
  ∧ num_tokens (req r) = num_tokens (req r0) ∧ spec_token_ids (req r) `prefix_of` spec_token_ids (req r0).
Proof.
  intros [->| ->]; [done|]. split_and!; try done; [|apply prefix_nil]. unfold num_tokens_with_spec, zlen. cbn. lia.
Qed.

(** The tokens scheduled beyond those of the request are its drafts. *)
Lemma drafts_bound r n (d : odict string (list Z)) id : od_get id d = None →
  n ≤ num_tokens_with_spec (req r) + num_output_placeholders r - num_computed_tokens (req r) →
  num_computed_tokens (req r) + n ≤ num_tokens (req r) + num_output_placeholders r
    + zlen (default [] (od_get id (match scheduled_spec_tokens r n with Some l => od_set id l d | None => d end))).
Proof.
  intros Hd Hn. unfold scheduled_spec_tokens. cbv zeta.
  set (k := n + num_computed_tokens (req r) - num_tokens (req r) - num_output_placeholders r).
  unfold num_tokens_with_spec in Hn. change (zlen (all_token_ids (req r))) with (num_tokens (req r)) in Hn.
  case_bool_decide as Hs; [rewrite Hs in Hn; rewrite Hd; unfold zlen in *; cbn in *; lia|].
  destruct (Z.ltb_spec 0 k); [|rewrite Hd; unfold zlen; cbn; lia].
  rewrite od_get_set, decide_True by done. cbn. unfold zlen in *. rewrite length_take. lia.
Qed.

Lemma drafts_prefix r n l : scheduled_spec_tokens r n = Some l → l `prefix_of` spec_token_ids (req r).
Proof.
  unfold scheduled_spec_tokens. cbv zeta. case_bool_decide; [done|]. destruct (_ <? _); [|done]. intros [= <-].
  eexists. symmetry. apply take_drop.
Qed.

Lemma schedule_running_ok R p r r0 limited n blocks plan b l id :
  step_ok R p → current R p id → request_id (req r) = id → od_get id (requests s0) = Some r0 →
  kept r0 r → Forall (λ f, 0 ≤ mm_length f) (mm_features (req r0)) →
  1 ≤ n ≤ token_budget p → n ≤ room r0 →
  n ≤ num_tokens_with_spec (req r) + num_output_placeholders r - num_computed_tokens (req r) → (limited = true → n ≤ prefill_budget p) →
  mapM (get_num_encoder_embeds (req r)) (inputs_to_schedule plan) = Some l → within (b + sumZ l) (encoder_compute_budget p) →
  step_ok R (schedule_running r limited n blocks (inputs_to_schedule plan) b p).
Proof.
  intros Hst [Hpre Hnew _] Hid Hr0 Hk Hlen Hn Hroom Hw Hlim Hl Hb.
  pose proof (kept_same _ _ Hk) as (Hfeat & Hph & Hcomp & _ & Htok & Hspec).
  assert (od_get id (num_scheduled_tokens p) = None) as Hn0 by (apply od_get_None; by rewrite (st_keys _ _ Hst)).
  assert (od_get id (scheduled_prefill_tokens p) = None) as Hp0.
  { destruct (od_get id (scheduled_prefill_tokens p)) as [m|] eqn:Hm; [|done]. apply (st_prefill _ _ Hst) in Hm. congruence. }
  assert (od_get id (scheduled_encoder_inputs p) = None) as He0.
  { destruct (od_get id (scheduled_encoder_inputs p)) as [m|] eqn:Hm; [|done]. by apply (st_inputs _ _ Hst) in Hm as [? _]. }
  assert (od_get id (scheduled_spec_decode_tokens p) = None) as Hd0.
  { destruct (od_get id (scheduled_spec_decode_tokens p)) as [m|] eqn:Hm; [|done]. by apply (st_drafts _ _ Hst) in Hm as [? _]. }
  pose proof (st_index _ _ Hst) as Hidx. pose proof (drafts_bound r n _ id Hd0 Hw) as Hdr.
  unfold schedule_running. rewrite Hid. split; cbn [req_index scheduled_running_reqs num_scheduled_tokens req_to_new_blocks token_budget
      scheduled_prefill_tokens prefill_budget scheduled_encoder_inputs encoder_compute_budget scheduled_new
      scheduled_resumed tokencake scheduled_spec_decode_tokens].
  - lia.
  - rewrite Z2Nat.inj_add, Nat.add_1_r by lia. intros j [Hj| ->%list_elem_of_singleton]%elem_of_app; [|done].
    apply (st_prefix _ _ Hst), elem_of_take in Hj as (i & Hi & Hlt). apply elem_of_take. exists i. split; [done|lia].
  - apply NoDup_app. split; [apply Hst|]. split; [|apply NoDup_singleton].
    intros j Hj ->%list_elem_of_singleton. done.
  - by apply keys_set_new; [apply Hst|].
  - by apply keys_set_new; [apply Hst|].
  - rewrite values_set_new by done. pose proof (st_budget _ _ Hst). lia.
  - lia.
  - intros j m. rewrite od_get_set. case_decide as Hj; [subst j; intros [= <-]|].
    + split; [lia|]. exists r0. rewrite Hcomp, Htok, Hph in Hdr. by split_and!.
    + intros Hm. destruct (st_tokens _ _ Hst _ _ Hm) as (? & r' & ? & ? & Hb'). split; [done|]. exists r'. split_and!; try done.
      destruct (scheduled_spec_tokens r n); [|done]. by rewrite od_get_set, decide_False.
  - destruct (scheduled_spec_tokens r n); [apply od_wf_set|]; apply Hst.
  - intros j l'. destruct (scheduled_spec_tokens r n) as [l''|] eqn:Hsp; [rewrite od_get_set; case_decide as Hj; [subst j; intros [= <-]|]|].
    + split; [apply elem_of_app; right; by left|]. exists r0. split; [done|]. etrans; [by eapply drafts_prefix|done].
    + intros Hj'. destruct (st_drafts _ _ Hst _ _ Hj') as [Hs ?]. split; [|done]. apply elem_of_app. by left.
    + intros Hj'. destruct (st_drafts _ _ Hst _ _ Hj') as [Hs ?]. split; [|done]. apply elem_of_app. by left.
  - destruct limited; [apply od_wf_set|]; apply Hst.
  - intros j m. rewrite od_get_set. destruct limited; [rewrite od_get_set|].
    + case_decide; [done|apply Hst].
    + case_decide as Hj; [subst j; congruence|apply Hst].
  - pose proof (st_pbudget _ _ Hst). destruct limited; [rewrite values_set_new by done; lia|done].
  - pose proof (st_pleft _ _ Hst). destruct limited; [specialize (Hlim eq_refl); lia|done].
  - case_bool_decide; [|apply od_wf_set]; apply Hst.
  - intros j inputs. case_bool_decide as Hi; [|rewrite od_get_set; case_decide as Hj; [subst j; intros [= <-]|]].
    + intros Hj. destruct (st_inputs _ _ Hst _ _ Hj) as [Hs ?]. split; [|done]. apply elem_of_app. by left.
    + split; [apply elem_of_app; right; by left|]. exists r0. rewrite <-(embeds_same _ _ _ Hfeat), Hl. by split_and!.
    + intros Hj'. destruct (st_inputs _ _ Hst _ _ Hj') as [Hs ?]. split; [|done]. apply elem_of_app. by left.
  - pose proof (st_ebudget _ _ Hst). case_bool_decide; [done|]. rewrite spent_set by done. unfold embeds. rewrite Hr0.
    rewrite <-(embeds_same _ _ _ Hfeat), Hl. cbn. change (foldr Z.add 0 l) with (sumZ l). within.
  - apply Hst.
Qed.

(** ** The loop *)
Lemma step_advance R p : step_ok R p → step_ok R (put_req_index (req_index p + 1) p).
Proof.
  intros Hst. pose proof (st_index _ _ Hst) as Hi. destruct Hst. split; cbn; try done; [lia|]. intros id Hid.
  apply st_prefix0, elem_of_take in Hid as (i & Hlook & Hlt). apply elem_of_take. exists i. split; [done|lia].
Qed.

Lemma running_advance p s : running_inv p s → running_inv (put_req_index (req_index p + 1) p) s.
Proof. intros []. split; try done. by apply step_advance. Qed.

Lemma py_index_current p s : running_inv p s → req_index p < zlen (running s) →
  ∃ id r r0, py_index (running s) (req_index p) = Some id ∧ current (running s) p id
    ∧ od_get id (requests s) = Some r ∧ od_get id (requests s0) = Some r0 ∧ kept r0 r ∧ unfinished r.
Proof.
  intros [Hs _ _ Hev Hst] Hlt. pose proof (st_index _ _ Hst) as Hi. unfold py_index, zlen in *.
  destruct (lookup_lt_is_Some_2 (running s) (Z.to_nat (req_index p)) ltac:(lia)) as [id Hid].
  assert (id ∈ running s) as Hin by by eapply list_elem_of_lookup_2.
  destruct (proj1 (iv_placed _ Hs id)) as (r & Hr & Hu); [unfold placed; apply elem_of_app; by left|].
  pose proof (ev_get _ _ Hev id) as Hg. destruct (od_get id (requests s0)) as [r0|] eqn:Hr0; [|congruence].
  destruct Hg as (r' & Hr' & Hk). assert (r' = r) as -> by congruence. rewrite decide_False in Hk.
  2:{ pose proof (evolved_nodup _ _ Hev) as Hnd. apply NoDup_app in Hnd as (_ & Hd & _). by apply Hd. }
  exists id, r, r0. rewrite (proj2 (Z.leb_le 0 _)) by lia. split_and!; try done. split; [|intros Hsch|done].
  - apply elem_of_take. exists (Z.to_nat (req_index p)). split; [done|lia].
  - apply (st_prefix _ _ Hst) in Hsch. pose proof (running_nodup _ Hs) as Hnd.
    apply elem_of_take in Hsch as (j & Hj & Hlt'). pose proof (NoDup_lookup _ _ _ _ Hnd Hj Hid). lia.
Qed.

(** Clearing the draft tokens of a running request. *)
Lemma spec_cleared p s id r :
  running_inv p s → id ∈ running s → od_get id (requests s) = Some r →
  running_inv p (put_requests (od_alter (on_req (put_spec_token_ids [])) id (requests s)) s).
Proof.
  intros [Hs Hp Hf Hev Hst] Hin Hr. set (s' := put_requests _ s). split; [|by apply (pt_parts _ s)| | |done].
  - eapply (sched_inv_update s s' id (on_req (put_spec_token_ids []))); try done.
    intros r' Hr'. split; try done. apply (iv_running _ Hs _ _ Hr').
  - intros j r'. cbn. rewrite od_get_alter. case_decide as Hj; [|apply Hf]. subst j. rewrite Hr.
    intros [= <-]. eapply (pt_moved r); [by eapply Hf|done..].
  - pose proof (evolved_nodup _ _ Hev) as Hnd. apply NoDup_app in Hnd as (_ & Hd & _). specialize (Hd _ Hin).
    destruct Hev as [Hget]. split; try done. intros j. specialize (Hget j). cbn. rewrite od_get_alter.
    destruct (od_get j (requests s0)) as [r0|].
    2:{ case_decide as Hj; [|done]. subst j. congruence. }
    destruct Hget as (r1 & Hr1 & Hk). destruct (decide (id = j)) as [<-|]; [|by exists r1]. rewrite Hr1. eexists.
    split; [done|]. rewrite decide_False in Hk |- * by done. right. by destruct Hk as [->| ->].
Qed.

Notation round := (schedule_running_request lt_id time_monotonic set_order).
Notation loop := (running_phase lt_id time_monotonic set_order).

(** A round keeps the invariant, and brings the index closer to the end of
    the running list unless it ends the loop. *)
Definition round_ok p s (x : Step * bool) s' : Prop :=
  running_inv x.1 s' ∧ (x.2 = true → zlen (running s') - req_index x.1 < zlen (running s) - req_index p).

Lemma wp_skip_running p s s' : running_inv p s' → running s' = running s →
  wp (mret (put_req_index (req_index p + 1) p, true)) (round_ok p s) E s'.
Proof. intros Hru HR. apply wp_ret. split; [by apply running_advance|]. intros _. cbn. rewrite HR. lia. Qed.

Lemma running_config p s : running_inv p s → config s = config s0.
Proof. intros Hru. apply (ev_config _ _ (ru_evolved _ _ Hru)). Qed.

Lemma wp_round p s : running_inv p s → req_index p < zlen (running s) →
  wp (round p) (round_ok p s) E s.
Proof.
  intros Hru Hlt. destruct (py_index_current p s Hru Hlt) as (id & r & r0 & Hid & Hc & Hr & Hr0 & Hk & Hu).
  pose proof (ru_sched _ _ Hru) as Hs. pose proof (kept_same _ _ Hk) as (Hfeat & Hph & Hcomp & Hspec & _).
  pose proof (iv_tokens _ Hs _ _ Hr Hu) as Htok. pose proof (ru_fits _ _ Hru _ _ Hr) as Hfit.
  unfold schedule_running_request. apply wp_get. rewrite Hid. cbn [some_or]. apply wp_bind, wp_ret.
  apply wp_bind, (wp_get_request _ _ r); [done|]. cbv zeta. apply wp_if; intros _; [by apply wp_skip_running|].
  eapply wp_step; [by apply wp_running_tokens|]. intros [[n limited] plan] s1 (Hru1 & F1 & [Hn Hw Hl Hlim [m Hplan]]).
  cbn [fst snd] in *. injection F1 as _ E2 _ _ E5 _ _ _ _ _. apply wp_if; intros Hz; [by apply wp_skip_running|]. apply Z.eqb_neq in Hz.
  apply wp_bind. eapply (wp_mono _ (λ _ s', running_inv p s' ∧ frame s1 s')); [| |done].
  { apply wp_if; intros _; [|by apply wp_ret]. eapply wp_mono; [by apply (pt_grow (running s1)), Hru1| |done].
    intros _ s' [F' P']. split; [by eapply running_frame|done]. }
  intros grows s2 [Hru2 F2]. injection F2 as _ E2' _ _ E5' _ _ _ _ _.
  apply wp_if; intros _; [apply wp_skip_running; [done|congruence]|]. apply wp_get.
  destruct Hplan as ((Hm1 & Hm2) & (l & Hl1 & Hl2) & Htext).
  eapply wp_step.
  { apply (wp_allocate_running _ p s2 id r n (compute_budget plan) (sumZ l)); try done; [| |lia|within].
    - by rewrite E5', E5.
    - by rewrite E2', E2. }
  intros [[res p3] b] s3 [Hru3 Hm3 Ht3 Hp3 Hgot]. cbn [fst snd] in *.
  destruct res as [blocks|]; [|by apply wp_ret].
  destruct (Hgot ltac:(done)) as (Hc3 & Hr3 & Hb3).
  assert (id ∈ running s3) as Hin3.
  { pose proof (cu_prefix _ _ _ Hc3) as (i & Hi & _)%elem_of_take. by eapply list_elem_of_lookup_2. }
  apply wp_bind, wp_alter_request. set (s4 := put_requests _ s3).
  pose proof (spec_cleared p3 s3 id r Hru3 Hin3 Hr3) as Hru4. fold s4 in Hru4.
  assert (request_id (req r) = id) as Hrid by by apply (iv_id _ Hs).
  assert (Forall (λ f, 0 ≤ mm_length f) (mm_features (req r0))) as Hlen by (rewrite <-Hfeat; apply Htok).
  eapply wp_step.
  { apply (pt_inputs (running s4) s4 r m (encoder_compute_budget p)); [apply Hru4|done|].
    split; [done|]. split; [by exists l|done]. }
  intros [] s5 [F5 P5]. pose proof (running_frame _ _ _ Hru4 F5 P5) as Hru5. injection F5 as _ _ _ _ E5'' _ _ _ _ _.
  apply wp_ret. split; cbn [fst snd].
  - destruct Hru5 as [I1 I2 I3 I4 I5]. split; try done. rewrite E5''.
    apply (schedule_running_ok _ p3 r r0 limited n blocks plan b l id); try done; try lia.
    + rewrite E5'' in I5. done.
    + unfold room. lia.
  - intros _. cbn. rewrite E5''. cbn. rewrite E5', E5 in Hm3. lia.
Qed.

Lemma wp_loop fuel : ∀ p s, running_inv p s → zlen (running s) - req_index p ≤ Z.of_nat fuel →
  wp (loop fuel p) running_inv E s.
Proof.
  induction fuel as [|fuel IH]; intros p s Hru Hfuel; cbn [running_phase]; apply wp_get.
  - rewrite (proj2 (Z.ltb_ge _ _)) by lia. by apply wp_ret.
  - apply wp_if; intros Hg; [|by apply wp_ret]. apply andb_true_iff in Hg as [Hlt%Z.ltb_lt _].
    eapply wp_step; [by apply wp_round|]. intros x s' [Hru' Hm]. apply wp_if; intros Hx; [|by apply wp_ret].
    apply IH; [done|]. specialize (Hm Hx). lia.
Qed.

(** More fuel than the requests after the index does not change the loop. *)
Lemma loop_fuel f1 : ∀ f2 p s, running_inv p s →
  zlen (running s) - req_index p ≤ Z.of_nat f1 → zlen (running s) - req_index p ≤ Z.of_nat f2 →
  loop f1 p s = loop f2 p s.
Proof.
  assert (∀ f p s, zlen (running s) - req_index p ≤ 0 → loop f p s = Ret p s) as Hdone.
  { intros f p s Hm. destruct f; cbn [running_phase]; rewrite get_bind, (proj2 (Z.ltb_ge _ _)) by lia; done. }
  induction f1 as [|f1 IH]; intros f2 p s Hru H1' H2'; [by rewrite !Hdone by lia|].
  destruct f2 as [|f2]; [by rewrite !Hdone by lia|]. cbn [running_phase]. rewrite !get_bind.
  destruct (Z.ltb_spec (req_index p) (zlen (running s))) as [Hlt|]; [|done]. destruct (_ && _); [|done].
  pose proof (wp_round p s Hru Hlt) as Hw. unfold wp in Hw. rewrite !bind_unfold. destruct (round p s) as [x s'|]; [|done].
  destruct Hw as [Hru' Hm]. destruct x as [p' []]; [|done]. cbn [fst snd] in *. specialize (Hm eq_refl).
  apply IH; [done|lia|lia].
Qed.
End running.
