(* ===== verification/SchedulerStep.v ===== *)
(** * The scheduler: admission and the whole step

    The second half of [Scheduler.schedule] ([vllm/v1/core/sched/scheduler.py]):
    the loop that admits waiting requests, with the promotion of blocked ones
    and the order TokenCake imposes, the output of the step and the updates
    that follow it. *)
From S2P Require Import Prelude PyFloat Metrics Protocol Config Request BlockPool KVCache.
From S2P Require Import Scoring Scheduling EncoderCache RequestQueue OffloadPolicy Pressure Scheduler.
Local Open Scope Z_scope.

Module Step.
Import Sched.

Section Step.
Context {F : Type} `{FloatOps F} `{FloatLog1p F}.
Context {C : Type} `{KVConnector F C}.
Notation SchedulerState := (SchedulerState (F := F) (C := C)).
Notation SM := (M SchedulerState).
Notation SchedRequest := (SchedRequest F).
Context (lt_id : bool).
Context (time_time time_monotonic : nat → F).
Context (set_order : gset string → list string).

(** ** Blocked requests *)
(** [_update_waiting_for_remote_kv] *)
Definition update_waiting_for_remote_kv (id : string) : SM unit :=
  r ← get_request id;
  s ← get_state;
  assertM (bool_decide (is_Some (connector s))) ;;
  (if bool_decide (id ∈ failed_recving_kv_req_ids s) then
     (if truthy (num_computed_tokens (req r))
      then on_kv (kv_cache_blocks (req r) (num_computed_tokens (req r)))
      else on_kv (kv_free (req r)) ;; on_controller tt (Controller.release set_order)) ;;
     modify (λ s, put_failed_recving (failed_recving_kv_req_ids s ∖ {[id]}) s)
   else
     on_kv (kv_cache_blocks (req r) (num_computed_tokens (req r))) ;;
     if num_computed_tokens (req r) =? num_tokens (req r)
     then alter_request (on_req (put_num_computed_tokens (num_tokens (req r) - 1))) id else mret tt) ;;
  s ← get_state;
  if bool_decide (id ∈ finished_recving_kv_req_ids s)
  then modify (put_finished_recving (finished_recving_kv_req_ids s ∖ {[id]})) else raise KeyError.

(** [_try_promote_blocked_waiting_request] *)
Definition try_promote_blocked_waiting_request (id : string) : SM bool :=
  r ← get_request id;
  match status (req r) with
  | WAITING_FOR_REMOTE_KVS =>
      s ← get_state;
      if negb (bool_decide (id ∈ finished_recving_kv_req_ids s)) then mret false
      else
        update_waiting_for_remote_kv id ;;
        alter_request (on_req (put_status (if truthy (num_preemptions (req r)) then PREEMPTED else WAITING))) id ;;
        mret true
  | WAITING_FOR_STRUCTURED_OUTPUT_GRAMMAR =>
      if negb (grammar_ready r) then mret false
      else alter_request (on_req (put_status WAITING)) id ;; mret true
  | WAITING_FOR_STREAMING_REQ => mret false
  | _ => raise AssertionError
  end.

(** ** The loop over the waiting requests

    Its local variables; [agent_order] is [None] until it is computed. *)
Record Admission := mkAdmission {
  step_skipped_waiting : WaitQueue;
  reservation_deferred : list string;
  borrow_reserved : bool;
  agent_order : option (list (string * QueueName));
  cache_agent_order : bool;
  scheduled_loras : gset Z
}.

Definition admission_eta (a : Admission) : Admission :=
  {| step_skipped_waiting := step_skipped_waiting a; reservation_deferred := reservation_deferred a;
     borrow_reserved := borrow_reserved a; agent_order := agent_order a;
     cache_agent_order := cache_agent_order a; scheduled_loras := scheduled_loras a |}.
Definition put_step_skipped (v : WaitQueue) (a : Admission) : Admission :=
  ltac:(update_field admission_eta (step_skipped_waiting a) v a).
Definition put_deferred (v : list string) (a : Admission) : Admission :=
  ltac:(update_field admission_eta (reservation_deferred a) v a).
Definition put_borrow_reserved (v : bool) (a : Admission) : Admission :=
  ltac:(update_field admission_eta (borrow_reserved a) v a).
Definition put_agent_order (v : option (list (string * QueueName))) (a : Admission) : Admission :=
  ltac:(update_field admission_eta (agent_order a) v a).
Definition put_loras (v : gset Z) (a : Admission) : Admission :=
  ltac:(update_field admission_eta (scheduled_loras a) v a).

(** A call on [step_skipped_waiting]. *)
Definition on_step_skipped (c : RequestQueue string WaitQueue → M WaitQueue unit) (a : Admission) : SM Admission := λ s,
  match c (waiting_queue (queue_lt lt_id s)) (step_skipped_waiting a) with
  | Ret _ q => Ret (put_step_skipped q a) s
  | Exc e _ => Exc e s
  end.
Definition skip_request (id : string) (a : Admission) : SM Admission := on_step_skipped (λ _, prepend_request id) a.

(** The deferred requests get their second turn. *)
Fixpoint return_deferred (ids : list string) (a : Admission) : SM Admission :=
  match ids with
  | [] => mret a
  | id :: ids' =>
      a ← on_step_skipped (λ _, remove_request id) a;
      on_queue lt_id Waiting (λ _, add_request id) ;;
      return_deferred ids' a
  end.

(** One adapter too many. *)
Definition lora_blocked (a : Admission) (r : Request F) (s : SchedulerState) : bool :=
  match max_loras (config s), lora_request r with
  | Some n, Some l => (Z.of_nat (size (scheduled_loras a)) =? n)
                      && negb (bool_decide (lora_int_id l ∈ scheduled_loras a))
  | _, _ => false
  end.

(** [tokencake is not None and request_id in tokencake.metadata] *)
Definition annotated (p : Step) (id : string) (s : SchedulerState) : bool :=
  tokencake p && match allocator s with inl _ => false | inr k => od_mem id (Controller.metadata k) end.

(** [tokencake.order_key(a) < tokencake.order_key(b)] *)
Definition order_key_lt (a b : string) : SM bool :=
  x ← get_request a;
  y ← get_request b;
  on_controller false
    (k ← get_state;
     if od_mem a (Controller.scores k) && od_mem b (Controller.scores k)
     then mret (Controller.order_lt k (req x) (req y)) else raise KeyError).

(** The loop over the annotated candidates: the eligible ones, in order, and
    the best request seen, its queue with each. *)
Fixpoint resolve_candidates (candidates : list (string * QueueName)) (best : string * QueueName)
    (eligible : list (string * QueueName)) (a : Admission) :
    SM ((string * QueueName) * list (string * QueueName) * Admission) :=
  match candidates with
  | [] => mret (best, eligible, a)
  | (id, queue) :: candidates' =>
      keep ← (if bool_decide (id = best.1) then mret true
              else
                r ← get_request id;
                ok ← (if is_blocked_waiting_status (status (req r))
                      then try_promote_blocked_waiting_request id else mret true);
                s ← get_state;
                mret (ok && negb (lora_blocked a (req r) s)));
      if negb keep then
        on_queue lt_id queue (λ _, remove_request id) ;;
        a ← skip_request id a;
        resolve_candidates candidates' best eligible a
      else if cache_agent_order a
      then resolve_candidates candidates' best (eligible ++ [(id, queue)]) a
      else
        before ← order_key_lt id best.1;
        resolve_candidates candidates' (if before : bool then (id, queue) else best) eligible a
  end.

(** [tokencake.annotated_prefix(...)], as a list *)
Definition annotated_candidates (s : SchedulerState) : list (string * QueueName) :=
  match allocator s with
  | inl _ => []
  | inr k =>
      (λ x, (request_id x.1, x.2)) <$>
        Controller.annotated_prefix (request_lt lt_id)
          (requests_of (queue_list lt_id s (waiting s)) s)
          (requests_of (queue_list lt_id s (skipped_waiting s)) s) Waiting Skipped (policy (config s)) k
  end.

(** [tokencake.order_candidates(eligible)] *)
Definition order_eligible (eligible : list (string * QueueName)) : SM (list (string * QueueName)) :=
  s ← get_state;
  let reqs := omap (λ x, (λ r, (req r, x.2)) <$> od_get x.1 (requests s)) eligible in
  ordered ← on_controller [] (Controller.order_candidates set_order reqs);
  mret ((λ x, (request_id x.1, x.2)) <$> ordered).

(** The request to try instead of the head of the queues. *)
Definition choose_request (p : Step) (id : string) (queue : QueueName) (a : Admission) :
    SM ((string * QueueName) * Admission) :=
  s ← get_state;
  if negb (annotated p id s) then mret ((id, queue), a)
  else
    x ← match agent_order a with
        | Some _ => mret ((id, queue), a)
        | None =>
            x ← resolve_candidates (annotated_candidates s) (id, queue) [] a;
            let '(best, eligible, a) := x in
            if cache_agent_order a
            then order ← order_eligible eligible; mret (best, put_agent_order (Some order) a)
            else mret (best, a)
        end;
    match agent_order x.2 with
    | None => mret x
    | Some [] => raise IndexError
    | Some (next :: order) => mret (next, put_agent_order (Some order) x.2)
    end.

(** The request leaves its queue. *)
Definition leave_queue (p : Step) (id : string) (queue : QueueName) : SM unit :=
  if tokencake p then on_queue lt_id queue (λ _, remove_request id)
  else on_queue lt_id queue (λ _, pop_request) ;; mret tt.

(** [KVCacheManager.create_kv_cache_blocks]: no hit is the manager's own empty
    blocks. *)
Definition hit_blocks (blocks : list (list nat)) : option (list (list nat)) :=
  if existsb (λ g, negb (bool_decide (g = []))) blocks then Some blocks else None.

(** What is computed already: local hits with their tokens, external tokens,
    whether these load asynchronously, and the total. *)
Record Computed := mkComputed {
  new_computed_blocks : option (list (list nat));
  num_local : Z;
  num_external : Z;
  load_kv_async : bool;
  total_computed : Z
}.

(** The cached tokens of a request; [None] when it has to be skipped.  The
    statistics of the first prefill and their assertion are left out. *)
Definition cached_tokens (p : Step) (id : string) (queue : QueueName) (a : Admission) :
    SM (option Computed * Admission) :=
  r ← get_request id;
  if negb (num_computed_tokens (req r) =? 0)
  then mret (Some (mkComputed None 0 0 false (num_computed_tokens (req r))), a)
  else
    hit ← on_kv (get_computed_blocks (req r));
    let '(blocks, local) := hit in
    s ← get_state;
    match connector s with
    | None =>
        assertM (local <=? num_tokens (req r)) ;;
        mret (Some (mkComputed (hit_blocks blocks) local 0 false local), a)
    | Some _ =>
        deferred ← (if bool_decide (is_Some (recompute_cost (F := F) (C := C)))
                    then if_tokencake p false (Controller.defer_cache_lookup set_order (req r) local blocks)
                    else mret false);
        if deferred : bool then
          if_tokencake p tt (Controller.defer (req r)) ;;
          on_queue lt_id queue (λ _, remove_request id) ;;
          a ← skip_request id a;
          mret (None, a)
        else
          ext ← on_connector (Some 0, false) (get_num_new_matched_tokens (req r) local);
          match ext.1 with
          | None =>
              leave_queue p id queue ;;
              a ← skip_request id a;
              mret (None, a)
          | Some n =>
              assertM (local + n <=? num_tokens (req r)) ;;
              mret (Some (mkComputed (hit_blocks blocks) local n ext.2 (local + n)), a)
          end
    end.

(** The tokens of an admission: a number of them with the encoder plan, or the
    end of the loop, or the request skipped. *)
Inductive Tokens :=
  | Tokens_of (n : Z) (limited : bool) (plan : EncoderCache.Plan)
  | Stop_admission
  | Skip_request.

Definition admission_tokens (p : Step) (r : Request F) (c : Computed) : SM Tokens :=
  s ← get_state;
  let cfg := config s in
  t ← (if load_kv_async c then
         assertM (0 <? num_external c) ;;
         mret (Tokens_of 0 false (mkPlan [] [] ∅ 0 0 (encoder_compute_budget p)))
       else
         let n := threshold_cap cfg (num_tokens r - total_computed c) in
         if negb (enable_chunked_prefill cfg) && (token_budget p <? n) then mret Stop_admission
         else
           let n := Z.min n (token_budget p) in
           assertM (0 <? n) ;;
           let limited := limited_prefill p r true n s in
           n ← (if limited then if_tokencake p n (Controller.cap_prefill n (prefill_budget p)) else mret n);
           if limited && (n =? 0) then mret Skip_request
           else
             plan ← encoder_plan r (total_computed c) n (encoder_compute_budget p);
             if has_encoder_inputs r && (new_tokens plan =? 0) then mret Stop_admission
             else mret (Tokens_of (new_tokens plan) limited plan));
  match t with
  | Tokens_of n limited plan =>
      if need_mamba_block_aligned_split cfg then
        n ← mamba_block_aligned_split r n (num_local c) (num_external c);
        mret (if n =? 0 then Stop_admission else Tokens_of n limited plan)
      else mret t
  | _ => mret t
  end.

(** The request is admitted: the record of the step. *)
Definition schedule_waiting (r : Request F) (resumed limited : bool) (n : Z) (blocks : list (list nat))
    (inputs : list nat) (encoder_budget : Z) (p : Step) : Step :=
  let id := request_id r in
  {| scheduled_new := if resumed then scheduled_new p else scheduled_new p ++ [id];
     scheduled_resumed := if resumed then scheduled_resumed p ++ [id] else scheduled_resumed p;
     scheduled_running_reqs := scheduled_running_reqs p; preempted_reqs := preempted_reqs p;
     req_to_new_blocks := od_set id blocks (req_to_new_blocks p);
     num_scheduled_tokens := od_set id n (num_scheduled_tokens p);
     token_budget := token_budget p - n;
     scheduled_encoder_inputs :=
       if bool_decide (inputs = []) then scheduled_encoder_inputs p
       else od_set id inputs (scheduled_encoder_inputs p);
     encoder_compute_budget :=
       if bool_decide (inputs = []) then encoder_compute_budget p else encoder_budget;
     scheduled_spec_decode_tokens := scheduled_spec_decode_tokens p;
     prefill_budget := if limited then prefill_budget p - n else prefill_budget p;
     scheduled_prefill_tokens := scheduled_prefill_tokens p;
     req_index := req_index p; tokencake := tokencake p |}.

(** A request with its slots allocated joins the running list, or waits for
    its blocks to be loaded. *)
Definition complete_admission (p : Step) (id : string) (queue : QueueName) (c : Computed) (n : Z) (limited : bool)
    (plan : EncoderCache.Plan) (num_encoder_tokens : Z) (a : Admission) : SM (Step * Admission) :=
  r ← get_request id;
  (if tokencake p then
     on_controller tt (Controller.commit time_monotonic set_order (req r) false num_encoder_tokens None
                         (borrow_reserved a)) ;;
     on_controller tt (Controller.cache_hits (req r) (num_local c) (num_external c)
                         (Some (default [] (new_computed_blocks c))))
   else mret tt) ;;
  s ← get_state;
  on_connector tt (update_state_after_alloc (req r) (get_blocks id (kv_cache_manager s)) (num_external c)) ;;
  leave_queue p id queue ;;
  if load_kv_async c then
    alter_request (on_req (put_status WAITING_FOR_REMOTE_KVS)) id ;;
    a ← skip_request id a;
    alter_request (on_req (put_num_computed_tokens (total_computed c))) id ;;
    mret (p, a)
  else
    modify (λ s, put_running (running s ++ [id]) s) ;;
    resumed ← match status (req r) with
              | WAITING => mret false
              | PREEMPTED => mret true
              | _ => raise RuntimeError
              end;
    s ← get_state;
    let a := match max_loras (config s), lora_request (req r) with
             | Some _, Some l => put_loras ({[lora_int_id l]} ∪ scheduled_loras a) a
             | _, _ => a
             end in
    let p := schedule_waiting (req r) resumed limited n (get_blocks id (kv_cache_manager s))
               (inputs_to_schedule plan) (compute_budget plan) p in
    alter_request (on_req (λ x, put_num_computed_tokens (total_computed c) (put_status RUNNING x))) id ;;
    on_encoder (allocate_inputs (req r) plan) ;;
    mret (p, a).

(** The chosen request is admitted, skipped, or ends the loop ([false]). *)
Definition admit_request (p : Step) (id : string) (queue : QueueName) (a : Admission) :
    SM (Step * Admission * bool) :=
  x ← cached_tokens p id queue a;
  let '(c, a) := x in
  match c with
  | None => mret (p, a, true)
  | Some c =>
      r ← get_request id;
      t ← admission_tokens p (req r) c;
      match t with
      | Stop_admission => mret (p, a, false)
      | Skip_request =>
          on_queue lt_id queue (λ _, remove_request id) ;;
          a ← skip_request id a;
          mret (p, a, true)
      | Tokens_of n limited plan =>
          s ← get_state;
          let lookahead := if num_computed_tokens (req r) =? 0 then 0 else num_lookahead_tokens (config s) in
          num_encoder_tokens ←
            (if EncoderCache.is_encoder_decoder (encoder_settings (config s)) && has_encoder_inputs (req r)
                && negb (bool_decide (inputs_to_schedule plan = []))
             then embeds_of (req r) (inputs_to_schedule plan) else mret 0);
          ok ← if_tokencake p true
                 (Controller.can_allocate set_order (req r) n (num_local c) (new_computed_blocks c) lookahead
                    (num_external c) num_encoder_tokens (borrow_reserved a));
          if negb ok then
            if_tokencake p tt (Controller.defer (req r)) ;;
            reserved ← if_tokencake p false (gets (λ k, bool_decide (id ∈ Controller.reservation_deferred k)));
            let a := if negb (borrow_reserved a) && reserved
                     then put_deferred (reservation_deferred a ++ [id]) a else a in
            on_queue lt_id queue (λ _, remove_request id) ;;
            a ← skip_request id a;
            mret (p, a, true)
          else
            new_blocks ← on_kv (allocate_slots (req r) n (num_local c) (new_computed_blocks c) lookahead
                                  (num_external c) (load_kv_async c) num_encoder_tokens
                                  (scheduler_reserve_full_isl (config s)));
            match new_blocks with
            | None =>
                (if has_encoder_inputs (req r) then on_encoder (EncoderCache.free (req r)) else mret tt) ;;
                mret (p, a, false)
            | Some _ =>
                y ← complete_admission p id queue c n limited plan num_encoder_tokens a;
                mret (y.1, y.2, true)
            end
      end
  end.

(** One round of the loop; [false] is [break]. *)
Definition admit_one (p : Step) (a : Admission) : SM (Step * Admission * bool) :=
  q ← select_waiting_queue_for_scheduling lt_id;
  queue ← some_or AssertionError q;
  id ← on_queue lt_id queue (λ _, peek_request);
  r ← get_request id;
  ok ← (if is_blocked_waiting_status (status (req r)) then try_promote_blocked_waiting_request id else mret true);
  if negb ok then
    on_queue lt_id queue (λ _, pop_request) ;;
    a ← skip_request id a;
    mret (p, put_agent_order None a, true)
  else
    s ← get_state;
    if lora_blocked a (req r) s then
      on_queue lt_id queue (λ _, pop_request) ;;
      a ← skip_request id a;
      mret (p, a, true)
    else
      x ← choose_request p id queue a;
      admit_request p x.1.1 x.1.2 x.2.

(** The loop; [fuel] bounds its rounds. *)
Fixpoint waiting_phase (fuel : nat) (p : Step) (a : Admission) : SM (Step * Admission) :=
  s ← get_state;
  let pending := nonempty (waiting s) || nonempty (skipped_waiting s) in
  if negb ((pending || negb (bool_decide (reservation_deferred a = []))) && (0 <? token_budget p))
  then mret (p, a)
  else if zlen (running s) =? max_num_running_reqs (config s) then mret (p, a)
  else
    match fuel with
    | O => raise RuntimeError
    | S fuel =>
        a ← (if pending then mret a
             else
               a ← return_deferred (reservation_deferred a) a;
               mret (put_agent_order None (put_borrow_reserved true (put_deferred [] a))));
        x ← admit_one p a;
        let '(p, a, go) := x in
        if go : bool then waiting_phase fuel p a else mret (p, a)
    end.

(** ** The step *)
(** What the connector's forecasts read. *)
Definition scheduler_view (s : SchedulerState) : Pressure.Scheduler F :=
  {| Pressure.allocator := allocator s;
     Pressure.encoder_cache_manager := encoder_cache_manager s;
     Pressure.policy := policy (config s);
     Pressure.waiting := requests_of (queue_list lt_id s (waiting s)) s;
     Pressure.skipped_waiting := requests_of (queue_list lt_id s (skipped_waiting s)) s;
     Pressure.running := requests_of (running s) s;
     Pressure.max_num_running_reqs := max_num_running_reqs (config s);
     Pressure.max_num_scheduled_tokens := max_num_scheduled_tokens (config s);
     Pressure.max_num_encoder_input_tokens := max_num_encoder_input_tokens (config s);
     Pressure.max_model_len := sched_max_model_len (config s);
     Pressure.num_lookahead_tokens := num_lookahead_tokens (config s);
     Pressure.enable_chunked_prefill := enable_chunked_prefill (config s);
     Pressure.long_prefill_token_threshold := long_prefill_token_threshold (config s);
     Pressure.disable_chunked_mm_input := EncoderCache.disable_chunked_mm_input (encoder_settings (config s));
     Pressure.need_mamba_block_aligned_split := need_mamba_block_aligned_split (config s);
     Pressure.scheduler_reserve_full_isl := scheduler_reserve_full_isl (config s);
     Pressure.is_encoder_decoder := EncoderCache.is_encoder_decoder (encoder_settings (config s));
     Pressure.max_loras := max_loras (config s);
     Pressure.pause_state := pause_state s |}.

(** The budgets of the step, TokenCake's part in it, and the connector's.
    [new_step_starts] does nothing for the cache managers modelled. *)
Definition step_budgets : SM Step :=
  s ← get_state;
  let budget := if bool_decide (pause_state s = PAUSED_ALL) then 0 else max_num_scheduled_tokens (config s) in
  let waiting_reqs :=
    (requests_of (queue_list lt_id s (skipped_waiting s)) s ++ requests_of (queue_list lt_id s (waiting s)) s)%list in
  let running_reqs := requests_of (running s) s in
  tk ← on_controller false (Controller.begin_step time_time set_order waiting_reqs running_reqs);
  prefill ← (if tk : bool then on_controller budget (gets (Controller.prefill_budget running_reqs budget))
             else mret budget);
  s ← get_state;
  unpublished ← on_connector false
    (if bool_decide (is_Some (recompute_cost (F := F) (C := C)))
     then evaluate_pending (scheduler_view s) ;; gets has_unpublished
     else mret false);
  mret {| scheduled_new := []; scheduled_resumed := []; scheduled_running_reqs := []; preempted_reqs := [];
          req_to_new_blocks := []; num_scheduled_tokens := [];
          token_budget := if unpublished : bool then 0 else budget;
          scheduled_encoder_inputs := [];
          encoder_compute_budget := max_num_encoder_input_tokens (config s);
          scheduled_spec_decode_tokens := []; prefill_budget := prefill;
          scheduled_prefill_tokens := []; req_index := 0; tokencake := tk |}.

Definition begin_schedule : SM Step := on_connector tt expire_lifecycles ;; step_budgets.

(** The adapters of the running requests scheduled. *)
Definition running_loras (p : Step) (s : SchedulerState) : gset Z :=
  list_to_set (filter (λ i, 0 < i)
    (omap (λ r, lora_int_id <$> lora_request r) (requests_of (scheduled_running_reqs p) s))).

(** The waiting phase, when nothing was preempted and the engine is not
    paused: the loop, and the skipped requests back in their queue. *)
Definition admit_waiting (p : Step) : SM Step :=
  s ← get_state;
  let loras := match max_loras (config s) with Some _ => running_loras p s | None => ∅ end in
  assertM (match max_loras (config s) with Some n => Z.of_nat (size loras) <=? n | None => true end) ;;
  if bool_decide (preempted_reqs p = []) && bool_decide (pause_state s = UNPAUSED) then
    let queued := (queue_list lt_id s (waiting s) ++ queue_list lt_id s (skipped_waiting s))%list in
    let cache_order :=
      tokencake p && bool_decide (max_loras (config s) = None) && forallb (λ id, annotated p id s) queued in
    let a := mkAdmission (new_queue (config s)) [] false None cache_order loras in
    x ← waiting_phase (2 * length queued) p a;
    s ← get_state;
    let skipped := queue_list lt_id s (step_skipped_waiting x.2) in
    (if bool_decide (skipped = []) then mret tt else on_queue lt_id Skipped (λ _, prepend_requests skipped)) ;;
    mret x.1
  else mret p.

(** ** The output *)
Definition new_request_data (p : Step) (id : string) : SM (NewRequestData F) :=
  r ← get_request id;
  blocks ← some_or KeyError (od_get id (req_to_new_blocks p));
  s ← get_state;
  mret {| new_request := req r; new_request_block_ids := blocks;
          new_request_num_computed_tokens := num_computed_tokens (req r);
          prefill_token_ids := if use_v2_model_runner (config s) then Some (all_token_ids (req r)) else None |}.

Fixpoint mapSM {A B} (f : A → SM B) (l : list A) : SM (list B) :=
  match l with
  | [] => mret []
  | x :: l' => y ← f x; ys ← mapSM f l'; mret (y :: ys)
  end.

(** [get_block_ids(allow_none=True)] *)
Definition block_ids_or_none (blocks : list (list nat)) : option (list (list nat)) :=
  if forallb (λ g, bool_decide (g = [])) blocks then None else Some blocks.

(** [_make_cached_request_data], a request at a time *)
Definition cache_request (p : Step) (resumed : bool) (d : CachedRequestData) (id : string) : SM CachedRequestData :=
  r ← get_request id;
  s ← get_state;
  let in_prev_step := bool_decide (id ∈ prev_step_scheduled_req_ids s) in
  assertM (negb (resumed && in_prev_step)) ;;
  blocks ← some_or KeyError (od_get id (req_to_new_blocks p));
  n ← some_or KeyError (od_get id (num_scheduled_tokens p));
  let spec := default [] (od_get id (scheduled_spec_decode_tokens p)) in
  let ids := take (Z.to_nat (n - zlen spec)) (drop (Z.to_nat (num_computed_tokens (req r))) (all_token_ids (req r))) in
  mret {| req_ids := req_ids d ++ [id];
          resumed_req_ids := if resumed then {[id]} ∪ resumed_req_ids d else resumed_req_ids d;
          new_token_ids :=
            if use_pp (config s) && negb (async_scheduling (config s)) then new_token_ids d ++ [ids] else new_token_ids d;
          cached_all_token_ids :=
            if in_prev_step then cached_all_token_ids d
            else od_set id (all_token_ids (req r)) (cached_all_token_ids d);
          new_block_ids := new_block_ids d ++ [block_ids_or_none blocks];
          cached_num_computed_tokens := cached_num_computed_tokens d ++ [num_computed_tokens (req r)];
          cached_num_output_tokens :=
            cached_num_output_tokens d ++ [num_output_tokens (req r) + num_output_placeholders r] |}.

Fixpoint cache_requests (p : Step) (resumed : bool) (ids : list string) (d : CachedRequestData) : SM CachedRequestData :=
  match ids with
  | [] => mret d
  | id :: ids' => d ← cache_request p resumed d id; cache_requests p resumed ids' d
  end.

Definition make_cached_request_data (p : Step) (running_reqs resumed_reqs : list string) : SM CachedRequestData :=
  d ← cache_requests p false running_reqs (mkCached [] ∅ [] [] [] [] []);
  cache_requests p true resumed_reqs d.

(** The assertions at the end of the two phases. *)
Definition check_constraints (p : Step) : SM unit :=
  s ← get_state;
  assertM (sumZ (od_values (num_scheduled_tokens p)) <=? max_num_scheduled_tokens (config s)) ;;
  assertM (0 <=? token_budget p) ;;
  assertM (zlen (running s) <=? max_num_running_reqs (config s)) ;;
  assertM (zlen (scheduled_new p) + zlen (scheduled_resumed p) + zlen (scheduled_running_reqs p) <=? zlen (running s)).

Definition make_output (p : Step) : SM (SchedulerOutput F) :=
  s ← get_state;
  prefixes ← match running s with
             | [] => mret (replicate (length (single_type_managers (kv_cache_manager s))) 0)
             | id :: _ => on_kv (coord_get_num_common_prefix_blocks id)
             end;
  let v2 := use_v2_model_runner (config s) in
  new_reqs ← mapSM (new_request_data p)
    (if v2 then (scheduled_new p ++ scheduled_resumed p)%list else scheduled_new p);
  cached ← make_cached_request_data p (scheduled_running_reqs p) (if v2 then [] else scheduled_resumed p);
  modify (put_prev_step (list_to_set (od_keys (num_scheduled_tokens p)))) ;;
  zeroed ← (if needs_kv_cache_zeroing (config s)
            then ids ← on_kv kv_take_new_block_ids; mret (if bool_decide (ids = []) then None else Some ids)
            else mret None);
  freed ← on_encoder get_freed_mm_hashes;
  mret {| scheduled_new_reqs := new_reqs; scheduled_cached_reqs := cached;
          out_num_scheduled_tokens := num_scheduled_tokens p;
          total_num_scheduled_tokens := sumZ (od_values (num_scheduled_tokens p));
          out_scheduled_spec_decode_tokens := scheduled_spec_decode_tokens p;
          out_scheduled_encoder_inputs := scheduled_encoder_inputs p;
          num_common_prefix_blocks := prefixes;
          preempted_req_ids := list_to_set (preempted_reqs p);
          out_finished_req_ids := finished_req_ids s;
          free_encoder_mm_hashes := freed; new_block_ids_to_zero := zeroed |}.

(** [_update_after_schedule], and what [AsyncScheduler] adds to it. *)
Definition computed_after (n : Z) (r : SchedRequest) : SchedRequest :=
  let r := on_req (put_num_computed_tokens (num_computed_tokens (req r) + n)) r in
  put_prefill_chunk (num_computed_tokens (req r) <? num_tokens (req r) + num_output_placeholders r) r.
Definition placeholders_after (cfg : SchedulerConfig) (spec : list Z) (r : SchedRequest) : SchedRequest :=
  if is_prefill_chunk r then r
  else on_req (put_spec_token_ids (replicate (Z.to_nat (num_spec_tokens cfg)) (-1)))
         (put_placeholders (num_output_placeholders r + 1 + zlen spec) r).

Definition update_after_schedule (o : SchedulerOutput F) : SM unit :=
  forM (out_num_scheduled_tokens o) (λ '(id, n), _ ← get_request id; alter_request (computed_after n) id) ;;
  modify (put_finished_req_ids ∅) ;;
  s ← get_state;
  if async_scheduling (config s) then
    forM (od_keys (out_num_scheduled_tokens o)) (λ id, _ ← get_request id;
      alter_request (placeholders_after (config s)
        (default [] (od_get id (out_scheduled_spec_decode_tokens o)))) id)
  else mret tt.

(** [schedule()]: the requests first, what is reported of them after. *)
Definition schedule_requests : SM Step :=
  p ← begin_schedule;
  s ← get_state;
  p ← running_phase lt_id time_monotonic set_order (length (running s)) p;
  admit_waiting p.

Definition schedule : SM (SchedulerOutput F) :=
  p ← schedule_requests;
  check_constraints p ;;
  o ← make_output p;
  on_connector tt (build_connector_meta o) ;;
  update_after_schedule o ;;
  mret o.
End Step.
End Step.
