(* ===== verification/SchedulerEvents.v ===== *)
(** * The scheduler: what happens between the steps

    The calls of the engine on [Scheduler] ([vllm/v1/core/sched/scheduler.py],
    [async_scheduler.py]) besides [schedule()]: new and aborted requests, the
    results of the model and of the KV transfers, blocks that failed to load,
    draft tokens, pausing and resetting.  Requests are not resumable (a
    streaming session is), and the outputs go to one client.  The lifecycle
    registry is reached through the connector it belongs to.

    What the grammars of structured requests answer is an argument: they are
    objects of another library. *)
From S2P Require Import Prelude PyFloat Metrics Protocol Config Request BlockPool KVCache.
From S2P Require Import Scoring Scheduling EncoderCache RequestQueue SchedUtils OffloadPolicy Pressure Scheduler.
Local Open Scope Z_scope.

Module Events.
Import Sched.

(** The ids [finish_requests] is given: a string, some ids, or all. *)
Inductive RequestIds :=
  | One_id (id : string)
  | Some_ids (ids : gset string)
  | All_ids.

(** [DraftTokenIds] *)
Record DraftTokenIds := mkDrafts { draft_req_ids : list string; draft_token_ids : list (list Z) }.

(** What an [EngineCoreOutput] tells of a request; [pooled] stands for a
    pooling output. *)
Record EngineCoreOutput := mkCoreOutput {
  output_request_id : string;
  output_new_token_ids : list Z;
  output_finish_reason : option FinishReason;
  output_stop_reason : option StopReason;
  pooled : bool
}.

(** The local variables of the loop of [update_from_output]. *)
Record Updates := mkUpdates {
  stopped_running_reqs : gset string;
  stopped_preempted_reqs : gset string;
  outputs : list EngineCoreOutput
}.

(** The scan of a request's blocks for invalid ones: those seen so far in all
    requests, whether any concerns this request, and the first it has to
    compute again. *)
Record Scan := mkScan {
  marked_invalid_block_ids : gset nat;
  is_affected : bool;
  first_invalid : option nat
}.

Definition scan_block (invalid : gset nat) (m : Scan) (x : nat * nat) : Scan :=
  let '(idx, block_id) := x in
  if negb (bool_decide (block_id ∈ invalid)) then m
  else if bool_decide (block_id ∈ marked_invalid_block_ids m)
  then mkScan (marked_invalid_block_ids m) true (first_invalid m)
  else mkScan ({[block_id]} ∪ marked_invalid_block_ids m) true
         (match first_invalid m with Some i => Some i | None => Some idx end).

Section Events.
Context {F : Type} `{FloatOps F} `{FloatLog1p F}.
Context {C : Type} `{KVConnector F C}.
Notation SchedulerState := (SchedulerState (F := F) (C := C)).
Notation SM := (M SchedulerState).
Notation SchedRequest := (SchedRequest F).
Context (lt_id : bool).
Context (time_time time_monotonic : nat → F).
Context (set_order : gset string → list string).

(** [KVConnectorOutput] and [ModelRunnerOutput] *)
Record KVConnectorOutput := mkKVOutput {
  finished_sending : gset string;
  finished_recving : gset string;
  invalid_block_ids : gset nat;
  connector_report : worker_report (F := F) (C := C)
}.
Record ModelRunnerOutput := mkRunnerOutput {
  req_id_to_index : odict string Z;
  sampled_token_ids : list (list Z);
  prompt_logprobs : gset string;
  pooler_output : option (list bool);
  kv_connector_output : option KVConnectorOutput
}.

(** ** Ending a request *)
(** [_connector_finished] *)
Definition connector_finished (id : string) : SM bool :=
  s ← get_state;
  match connector s with
  | None => mret false
  | Some _ =>
      r ← get_request id;
      on_kv (coord_remove_skipped_blocks id (num_computed_tokens (req r))) ;;
      s ← get_state;
      on_connector false (request_finished_all_groups (req r) (get_blocks id (kv_cache_manager s)))
  end.

(** [_free_blocks] *)
Definition free_blocks (id : string) : SM unit :=
  r ← get_request id;
  assertM (is_finished (req r)) ;;
  on_kv (kv_free (req r)) ;;
  on_controller tt (Controller.release set_order) ;;
  modify (λ s, put_requests (od_del id (requests s)) s).

(** [_free_request] *)
Definition free_request (id : string) (delay_free_blocks : bool) : SM unit :=
  r ← get_request id;
  assertM (is_finished (req r)) ;;
  on_controller tt (Controller.finish time_monotonic (req r)) ;;
  delay ← connector_finished id;
  on_encoder (EncoderCache.free (req r)) ;;
  modify (λ s, put_finished_req_ids ({[id]} ∪ finished_req_ids s) s) ;;
  if delay_free_blocks || delay then mret tt else free_blocks id.

(** A request that was waiting for its blocks is no longer reported; the blocks
    stay until they have arrived. *)
Definition forget_transfer (id : string) : SM bool :=
  s ← get_state;
  modify (λ s, put_failed_recving (failed_recving_kv_req_ids s ∖ {[id]})
                 (put_finished_recving (finished_recving_kv_req_ids s ∖ {[id]}) s)) ;;
  mret (negb (bool_decide (id ∈ finished_recving_kv_req_ids s))).

Definition finish_one (finished_status : RequestStatus) (id : string) : SM unit :=
  r ← get_request id;
  delay ← (if bool_decide (status (req r) = WAITING_FOR_REMOTE_KVS) then forget_transfer id else mret false);
  alter_request (on_req (put_status finished_status)) id ;;
  free_request id delay.

(** The unfinished requests among some identifiers. *)
Definition valid_requests (ids : list string) (s : SchedulerState) : list string :=
  filter (λ id, match od_get id (requests s) with Some r => negb (is_finished (req r)) | None => false end = true) ids.
Definition is_running (id : string) (s : SchedulerState) : bool :=
  match od_get id (requests s) with Some r => bool_decide (status (req r) = RUNNING) | None => false end.

(** [finish_requests] *)
Definition finish_requests (request_ids : RequestIds) (finished_status : RequestStatus) : SM (list string) :=
  assertM (status_is_finished finished_status) ;;
  s ← get_state;
  let ids := match request_ids with
             | One_id id => [id]
             | Some_ids ids => set_order ids
             | All_ids => od_keys (requests s)
             end in
  let valid := valid_requests ids s in
  let running_to_remove := filter (λ id, is_running id s = true) valid in
  let waiting_to_remove := filter (λ id, is_running id s = false) valid in
  modify (λ s, put_running (remove_all (running s) (list_to_set running_to_remove)) s) ;;
  (if bool_decide (waiting_to_remove = []) then mret tt
   else on_queue lt_id Waiting (λ _, remove_requests waiting_to_remove) ;;
        on_queue lt_id Skipped (λ _, remove_requests waiting_to_remove)) ;;
  forM valid (finish_one finished_status) ;;
  mret valid.

(** ** A new request *)
(** [add_request], with the TokenCake metadata the request carries; the store
    has it before the queue does, since the queue may compare it. *)
Definition add_request (r : SchedRequest) (metadata : option (TokenCakeMetadata F)) : SM unit :=
  let id := request_id (req r) in
  match metadata with
  | Some d =>
      on_connector tt (associate_lifecycle id d) ;;
      on_controller tt (Controller.associate time_monotonic id d)
  | None => mret tt
  end ;;
  s ← get_state;
  if od_mem id (requests s) then raise AssertionError
  else
    modify (λ s, put_requests (od_set id r (requests s)) s) ;;
    enqueue_waiting_request lt_id id (status (req r)) ;;
    on_connector tt (on_new_request (req r)).

(** ** Blocks that failed to load *)
(** One request of [_update_requests_with_invalid_blocks]: its computed tokens
    end before the first block it has to compute again. *)
Definition invalidate_request (invalid : gset nat) (scheduled : odict string Z) (evict : bool)
    (acc : gset string * gset nat * gset nat) (id : string) : SM (gset string * gset nat * gset nat) :=
  let '(affected, to_evict, marked) := acc in
  r ← get_request id;
  s ← get_state;
  match get_blocks id (kv_cache_manager s) with
  | [blocks] =>
      let size := cache_block_size (config s) in
      let before := num_computed_tokens (req r) - count0 scheduled id in
      let num_blocks := Z.to_nat ((before + size - 1) / size) in
      let m := foldl (scan_block invalid) (mkScan marked false None) (zip (seq 0 num_blocks) blocks) in
      let to_evict := match first_invalid m with
                      | Some idx => if evict then to_evict ∪ list_to_set (drop idx blocks) else to_evict
                      | None => to_evict
                      end in
      if is_affected m then
        alter_request (on_req (put_num_computed_tokens
          match first_invalid m with Some idx => Z.of_nat idx * size | None => before end)) id ;;
        mret ({[id]} ∪ affected, to_evict, marked_invalid_block_ids m)
      else mret (affected, to_evict, marked_invalid_block_ids m)
  | _ => raise ValueError
  end.

Fixpoint invalidate_requests (invalid : gset nat) (scheduled : odict string Z) (evict : bool) (ids : list string)
    (acc : gset string * gset nat * gset nat) : SM (gset string * gset nat * gset nat) :=
  match ids with
  | [] => mret acc
  | id :: ids' =>
      acc ← invalidate_request invalid scheduled evict acc id;
      invalidate_requests invalid scheduled evict ids' acc
  end.

(** [_update_requests_with_invalid_blocks]: the requests concerned and the
    blocks to evict. *)
Definition update_requests_with_invalid_blocks (ids : list string) (invalid : gset nat) (scheduled : odict string Z)
    (evict : bool) : SM (gset string * gset nat) :=
  x ← invalidate_requests invalid scheduled evict ids (∅, ∅, ∅);
  mret (x.1.1, x.1.2).

Definition is_loading (id : string) (s : SchedulerState) : bool :=
  match od_get id (requests s) with
  | Some r => bool_decide (status (req r) = WAITING_FOR_REMOTE_KVS)
  | None => false
  end.

(** [_handle_invalid_blocks]: the requests the update has to skip. *)
Definition handle_invalid_blocks (invalid : gset nat) (scheduled : odict string Z) : SM (gset string) :=
  s ← get_state;
  let loading := filter (λ id, is_loading id s = true) (queue_list lt_id s (skipped_waiting s)) in
  x ← update_requests_with_invalid_blocks loading invalid scheduled false;
  y ← update_requests_with_invalid_blocks (running s) invalid scheduled true;
  let should_fail := negb (recompute_kv_load_failures (config s)) in
  if bool_decide (x.1 = ∅) && bool_decide (y.1 = ∅) then mret ∅
  else
    (if negb (bool_decide (y.2 = ∅)) && should_fail then on_kv (kv_evict_blocks (elements y.2)) else mret tt) ;;
    if should_fail then mret (x.1 ∪ y.1)
    else
      modify (λ s, put_failed_recving (failed_recving_kv_req_ids s ∪ x.1) s) ;;
      mret y.1.
(** ** The results of the model *)
Context (block_hasher : option (Request F → option (list (list Z)))).

(** [Scheduler._update_request_with_output]: the tokens kept, and whether the
    request stopped at the last of them.  The hasher may raise. *)
Fixpoint append_tokens (id : string) (new_token_ids : list Z) : SM (list Z * bool) :=
  match new_token_ids with
  | [] => mret ([], false)
  | t :: ts =>
      r ← get_request id;
      r ← some_or ValueError (append_output_token_ids block_hasher [t] (req r));
      alter_request (put_req r) id ;;
      s ← get_state;
      x ← some_or AssertionError (check_stop r (sched_max_model_len (config s)));
      alter_request (put_req x.2) id ;;
      if x.1 : bool then mret ([t], true)
      else
        y ← append_tokens id ts;
        mret (t :: y.1, y.2)
  end.

(** [AsyncScheduler._update_request_with_output] *)
Definition append_tokens_async (id : string) (new_token_ids : list Z) : SM (list Z * bool) :=
  r ← get_request id;
  if 0 <? async_tokens_to_discard r then
    alter_request (put_discard (async_tokens_to_discard r - 1)) id ;;
    mret ([], false)
  else
    x ← append_tokens id new_token_ids;
    alter_request (λ r, put_placeholders (num_output_placeholders r - zlen x.1) r) id ;;
    r' ← get_request id;
    assertM (0 <=? num_output_placeholders r') ;;
    (if bool_decide (status (req r) = RUNNING)
     then on_kv (kv_cache_blocks (req r') (num_computed_tokens (req r') - num_output_placeholders r'))
     else mret tt) ;;
    mret x.

Definition update_request_with_output (id : string) (new_token_ids : list Z) : SM (list Z * bool) :=
  s ← get_state;
  if async_scheduling (config s) then append_tokens_async id new_token_ids else append_tokens id new_token_ids.

(** Draft tokens the model rejected are not computed. *)
Definition reject_drafts (num_rejected : Z) (r : SchedRequest) : SchedRequest :=
  let r := if 0 <? num_computed_tokens (req r)
           then on_req (put_num_computed_tokens (num_computed_tokens (req r) - num_rejected)) r else r in
  if 0 <? num_output_placeholders r then put_placeholders (num_output_placeholders r - num_rejected) r else r.

(** [l[i]] of a list that may be absent or empty *)
Definition result_at {A} (absent : A) (l : list A) (i : Z) : SM A :=
  if bool_decide (length l = 0%nat) then mret absent else some_or IndexError (py_index l i).

(** The tokens of a request are appended, or its pooling result ends it. *)
Definition receive (id : string) (generated : list Z) (pooling : bool) : SM (list Z * bool) :=
  r ← get_request id;
  if negb (bool_decide (generated = [])) then update_request_with_output id generated
  else if bool_decide (is_Some (pooling_params (req r))) && pooling then
    alter_request (on_req (put_status FINISHED_STOPPED)) id ;;
    mret ([], true)
  else mret ([], false).

(** The grammar of the request may not accept the tokens. *)
Definition check_grammar (rejects : string → list Z → bool) (id : string) (x : list Z * bool) : SM (list Z * bool) :=
  if negb (bool_decide (x.1 = [])) && rejects id x.1 then
    alter_request (on_req (put_status FINISHED_ERROR)) id ;;
    mret (x.1, true)
  else mret x.

(** A stopped request is freed, and noted by the place it has to leave. *)
Definition note_stopped (id : string) (was : RequestStatus) (u : Updates) : SM Updates :=
  free_request id false ;;
  mret (if bool_decide (was = RUNNING)
        then mkUpdates ({[id]} ∪ stopped_running_reqs u) (stopped_preempted_reqs u) (outputs u)
        else mkUpdates (stopped_running_reqs u) ({[id]} ∪ stopped_preempted_reqs u) (outputs u)).

(** The loop of [update_from_output], a request at a time. *)
Definition update_one (o : SchedulerOutput F) (out : ModelRunnerOutput) (failed : gset string)
    (rejects : string → list Z → bool) (u : Updates) (x : string * Z) : SM Updates :=
  let '(id, num_tokens_scheduled) := x in
  assertM (0 <? num_tokens_scheduled) ;;
  s ← get_state;
  match od_get id (requests s) with
  | None => mret u
  | Some r =>
      if bool_decide (id ∈ failed) || is_finished (req r) then mret u
      else
        index ← some_or KeyError (od_get id (req_id_to_index out));
        generated ← result_at [] (sampled_token_ids out) index;
        let spec := default [] (od_get id (out_scheduled_spec_decode_tokens o)) in
        (if bool_decide (spec = []) || bool_decide (generated = []) then mret tt
         else alter_request (reject_drafts (zlen spec - (zlen generated - 1))) id) ;;
        r ← get_request id;
        (if has_encoder_inputs (req r)
         then on_encoder (free_encoder_inputs (encoder_settings (config s)) (req r)) else mret tt) ;;
        pooling ← result_at false (default [] (pooler_output out)) index;
        x ← receive id generated pooling;
        x ← check_grammar rejects id x;
        r' ← get_request id;
        u ← (if x.2 : bool then note_stopped id (status (req r)) u else mret u);
        if negb (bool_decide (x.1 = [])) || pooling || x.2 then
          mret (mkUpdates (stopped_running_reqs u) (stopped_preempted_reqs u)
                  (outputs u ++ [{| output_request_id := id; output_new_token_ids := x.1;
                                    output_finish_reason := if x.2 then get_finished_reason (req r') else None;
                                    output_stop_reason := stop_reason (req r'); pooled := pooling |}]))
        else assertM (negb (bool_decide (id ∈ prompt_logprobs out))) ;; mret u
  end.

Fixpoint update_all (o : SchedulerOutput F) (out : ModelRunnerOutput) (failed : gset string)
    (rejects : string → list Z → bool) (l : odict string Z) (u : Updates) : SM Updates :=
  match l with
  | [] => mret u
  | x :: l' => u ← update_one o out failed rejects u x; update_all o out failed rejects l' u
  end.

(** The stopped requests leave the running list and the waiting queue. *)
Definition remove_stopped (u : Updates) : SM unit :=
  modify (λ s, put_running (remove_all (running s) (stopped_running_reqs u)) s) ;;
  if bool_decide (stopped_preempted_reqs u = ∅) then mret tt
  else on_queue lt_id Waiting (λ _, remove_requests (set_order (stopped_preempted_reqs u))).

(** With the policy to fail, requests whose blocks did not load are finished. *)
Definition failed_output (r : SchedRequest) : EngineCoreOutput :=
  {| output_request_id := request_id (req r); output_new_token_ids := [];
     output_finish_reason :=
       get_finished_reason (if is_finished (req r) then req r else put_status FINISHED_ERROR (req r));
     output_stop_reason := None; pooled := false |}.
Definition fail_requests (failed : gset string) : SM (list EngineCoreOutput) :=
  s ← get_state;
  if bool_decide (failed = ∅) || recompute_kv_load_failures (config s) then mret []
  else
    reqs ← some_or KeyError (mapM (λ id, od_get id (requests s)) (set_order failed));
    finish_requests (Some_ids failed) FINISHED_ERROR ;;
    mret (failed_output <$> reqs).

(** [_update_from_kv_xfer_finished] *)
Definition received_one (id : string) : SM unit :=
  s ← get_state;
  match od_get id (requests s) with
  | None => raise AssertionError
  | Some r =>
      if bool_decide (status (req r) = WAITING_FOR_REMOTE_KVS)
      then modify (λ s, put_finished_recving ({[id]} ∪ finished_recving_kv_req_ids s) s)
      else assertM (is_finished (req r)) ;; free_blocks id
  end.
Definition sent_one (id : string) : SM unit :=
  s ← get_state;
  assertM (od_mem id (requests s)) ;; free_blocks id.
Definition update_from_kv_xfer_finished (k : KVConnectorOutput) : SM unit :=
  on_connector tt (update_connector_output (connector_report k)) ;;
  forM (set_order (finished_recving k)) received_one ;;
  forM (set_order (finished_sending k)) sent_one.

(** The positions [Controller.executed] reads of an output. *)
Definition executed_output (o : SchedulerOutput F) : Controller.SchedulerOutput :=
  {| Controller.cached_reqs :=
       zip (req_ids (scheduled_cached_reqs o)) (cached_num_computed_tokens (scheduled_cached_reqs o));
     Controller.new_reqs :=
       (λ d, (request_id (new_request d), new_request_num_computed_tokens d)) <$> scheduled_new_reqs o;
     Controller.num_scheduled_tokens := out_num_scheduled_tokens o |}.

(** [update_from_output] *)
Definition update_from_output (rejects : string → list Z → bool) (o : SchedulerOutput F) (out : ModelRunnerOutput) :
    SM (list EngineCoreOutput) :=
  failed ← match kv_connector_output out with
           | Some k =>
               if bool_decide (invalid_block_ids k = ∅) then mret ∅
               else handle_invalid_blocks (invalid_block_ids k) (out_num_scheduled_tokens o)
           | None => mret ∅
           end;
  on_controller tt (Controller.executed (executed_output o) (list_to_set (od_keys (req_id_to_index out))) failed) ;;
  u ← update_all o out failed rejects (out_num_scheduled_tokens o) (mkUpdates ∅ ∅ []);
  remove_stopped u ;;
  errors ← fail_requests failed;
  match kv_connector_output out with
  | Some k => update_from_kv_xfer_finished k
  | None => mret tt
  end ;;
  on_kv (at_pool take_events) ;;
  on_connector tt take_connector_events ;;
  mret (outputs u ++ errors)%list.

(** ** Draft tokens *)
(** [update_draft_token_ids]; [validate] is the grammars' check. *)
Definition set_drafts (validate : string → list Z → list Z) (x : string * list Z) : SM unit :=
  s ← get_state;
  match od_get x.1 (requests s) with
  | None => mret tt
  | Some r =>
      if is_finished (req r) then mret tt
      else if is_prefill_chunk r then alter_request (on_req (put_spec_token_ids [])) x.1
      else alter_request (on_req (put_spec_token_ids (validate x.1 x.2))) x.1
  end.
Definition update_draft_token_ids (validate : string → list Z → list Z) (d : DraftTokenIds) : SM unit :=
  forM (zip (draft_req_ids d) (draft_token_ids d)) (set_drafts validate).

(** [update_draft_token_ids_in_output]: the drafts of a request, cut to those
    scheduled and padded to their number. *)
Definition fit_drafts (validate : string → list Z → list Z) (id : string) (scheduled drafts : list Z) : list Z :=
  let kept := validate id (take (length scheduled) drafts) in
  (kept ++ replicate (length scheduled - length kept) (-1))%list.
Definition drafts_in_output (validate : string → list Z → list Z) (d : DraftTokenIds) (s : SchedulerState)
    (scheduled : odict string (list Z)) : odict string (list Z) :=
  foldl (λ spec x,
    match od_get x.1 (requests s) with
    | None => spec
    | Some r =>
        if is_finished (req r) then spec
        else match default [] (od_get x.1 spec) with
             | [] => spec
             | l => od_set x.1 (fit_drafts validate x.1 l x.2) spec
             end
    end) scheduled (zip (draft_req_ids d) (draft_token_ids d)).

Definition update_draft_token_ids_in_output (validate : string → list Z → list Z) (d : DraftTokenIds) (s : SchedulerState)
    (o : SchedulerOutput F) : SchedulerOutput F :=
  {| scheduled_new_reqs := scheduled_new_reqs o; scheduled_cached_reqs := scheduled_cached_reqs o;
     out_num_scheduled_tokens := out_num_scheduled_tokens o; total_num_scheduled_tokens := total_num_scheduled_tokens o;
     out_scheduled_spec_decode_tokens := drafts_in_output validate d s (out_scheduled_spec_decode_tokens o);
     out_scheduled_encoder_inputs := out_scheduled_encoder_inputs o; num_common_prefix_blocks := num_common_prefix_blocks o;
     preempted_req_ids := preempted_req_ids o; out_finished_req_ids := out_finished_req_ids o;
     free_encoder_mm_hashes := free_encoder_mm_hashes o; new_block_ids_to_zero := new_block_ids_to_zero o |}.

(** ** Pausing, counting, resetting *)
Definition set_pause_state (v : PauseState) : SM unit := modify (put_pause_state v).

Definition waiting_len (v : WaitQueue) : Z := queue_len (RequestQueue := waiting_queue (λ _ _, false)) v.
(** [get_request_counts] *)
Definition get_request_counts (s : SchedulerState) : Z * Z :=
  (zlen (running s), waiting_len (waiting s) + waiting_len (skipped_waiting s)).
Definition get_num_unfinished_requests (s : SchedulerState) : Z :=
  match pause_state s with
  | PAUSED_ALL => 0
  | PAUSED_NEW => zlen (running s)
  | UNPAUSED => waiting_len (waiting s) + waiting_len (skipped_waiting s) + zlen (running s)
  end.
(** [has_finished_requests] *)
Definition has_finished_requests (s : SchedulerState) : bool :=
  match connector s with
  | None => negb (bool_decide (finished_req_ids s = ∅))
  | Some c =>
      has_pending c || negb (bool_decide (finished_req_ids s = ∅))
      || (waiting_len (waiting s) + waiting_len (skipped_waiting s) + zlen (running s) <? zlen (requests s))
  end.

(** The loop of [reset_prefix_cache] that preempts every running request, the
    last first; [fuel] bounds its rounds. *)
Fixpoint preempt_all (fuel : nat) : SM unit :=
  s ← get_state;
  match last (running s) with
  | None => mret tt
  | Some id =>
      match fuel with
      | O => raise RuntimeError
      | S fuel =>
          modify (put_running (removelast (running s))) ;;
          preempt_request lt_id time_monotonic set_order id false ;;
          alter_request (λ r, put_placeholders 0 (put_discard (num_output_placeholders r) r)) id ;;
          preempt_all fuel
      end
  end.

(** [reset_connector_cache] *)
Definition reset_connector_cache : SM bool := on_connector false reset_cache.

(** [reset_prefix_cache] *)
Definition reset_prefix_cache (reset_running_requests reset_connector : bool) : SM bool :=
  s ← get_state;
  (if reset_running_requests then preempt_all (length (running s)) ;; modify (put_prev_step ∅) else mret tt) ;;
  ok ← on_kv kv_reset_prefix_cache;
  (if ok : bool then on_connector tt invalidate_snapshots else mret tt) ;;
  if reset_running_requests && negb ok then raise RuntimeError
  else if reset_connector then
    done ← reset_connector_cache;
    mret (done && ok)
  else mret ok.

(** [reset_encoder_cache] *)
Definition reset_encoder_cache : SM unit := on_encoder encoder_reset.
End Events.
End Events.
