(* ===== verification/EngineCore.v ===== *)
(** * The engine

    [EngineCore] ([vllm/v1/engine/core.py]) as far as it drives the scheduler:
    requests are added and aborted at any time, a step is scheduled while the
    batch queue has room, the results of the oldest step are handed over when
    they have arrived.  The model runs elsewhere: its results are arguments.
    [post_step], which hands over the drafts of synchronous speculative decoding,
    is not among the calls. *)
From S2P Require Import Prelude PyFloat Metrics Protocol Config Request BlockPool KVCache.
From S2P Require Import Scoring Scheduling EncoderCache RequestQueue SchedUtils OffloadPolicy Pressure Scheduler SchedulerStep SchedulerEvents.
Local Open Scope Z_scope.

Module Core.
Import Sched Step Events.

Inductive PauseMode := Abort_all | Keep | Wait.

Section Core.
Context {F : Type} `{FloatOps F} `{FloatLog1p F}.
Context {C : Type} `{KVConnector F C}.
Notation SchedulerState := (SchedulerState (F := F) (C := C)).
Context (lt_id : bool) (time_time time_monotonic : nat → F) (set_order : gset string → list string).
Context (block_hasher : option (Request F → option (list (list Z)))).
(** [model_executor.max_concurrent_batches]: without pipeline parallelism one,
    or two with asynchronous scheduling; a queue of one is that of [step]. *)
Context (batch_queue_size : nat).

(** The scheduler, and the outputs of the steps the model has yet to run or is
    running, the oldest first; a step whose sampling is deferred is the last. *)
Record Engine := mkEngine {
  scheduler : SchedulerState;
  batch_queue : list (SchedulerOutput F)
}.
Notation EM := (M Engine).
Definition put_scheduler (s : SchedulerState) (e : Engine) : Engine := mkEngine s (batch_queue e).
Definition put_batch_queue (q : list (SchedulerOutput F)) (e : Engine) : Engine := mkEngine (scheduler e) q.
Definition on_scheduler {A} (c : M SchedulerState A) : EM A := zoom scheduler put_scheduler c.

(** What the engine is asked to do, and by whom: the front end, the loop of the
    engine, the workers. *)
Inductive Call :=
  | Add_request (r : SchedRequest F) (metadata : option (TokenCakeMetadata F)) (abort_immediately : bool)
  | Abort_requests (request_ids : gset string)
  | Schedule_batch
  | Finish_batch (rejects : string → list Z → bool) (out : ModelRunnerOutput (F := F) (C := C))
  | Deferred_drafts (validate : string → list Z → list Z) (d : DraftTokenIds)
  | Pause_scheduler (mode : PauseMode) (clear_cache : bool)
  | Resume_scheduler
  | Reset_prefix_cache (reset_running_requests reset_connector : bool)
  | Reset_encoder_cache.

Definition abort_requests (request_ids : gset string) : EM unit :=
  on_scheduler (finish_requests lt_id time_monotonic set_order (Some_ids request_ids) FINISHED_ABORTED) ;;
  mret tt.

Definition add_request (r : SchedRequest F) (metadata : option (TokenCakeMetadata F)) (abort_immediately : bool) : EM unit :=
  on_scheduler (Events.add_request lt_id time_monotonic r metadata) ;;
  if abort_immediately then abort_requests {[request_id (req r)]} else mret tt.

(** The first part of [step_with_batch_queue]: a step is scheduled when there
    is room, and its output queued or deferred. *)
Definition schedule_batch : EM unit :=
  e ← get_state;
  assertM (length (batch_queue e) <? batch_queue_size)%nat ;;
  o ← on_scheduler (schedule lt_id time_time time_monotonic set_order);
  modify (λ e, put_batch_queue (batch_queue e ++ [o]) e).

(** The second: the results of the oldest step. *)
Definition finish_batch (rejects : string → list Z → bool) (out : ModelRunnerOutput (F := F) (C := C)) :
    EM (list EngineCoreOutput) :=
  e ← get_state;
  match batch_queue e with
  | [] => raise IndexError
  | o :: q =>
      modify (put_batch_queue q) ;;
      on_scheduler (update_from_output lt_id time_monotonic set_order block_hasher rejects o out)
  end.

(** The drafts of the step whose sampling was deferred *)
Definition deferred_drafts (validate : string → list Z → list Z) (d : DraftTokenIds) : EM unit :=
  e ← get_state;
  match last (batch_queue e) with
  | None => raise IndexError
  | Some o =>
      modify (put_batch_queue (removelast (batch_queue e)
        ++ [update_draft_token_ids_in_output validate d (scheduler e) o]))
  end.

(** [_reset_caches], the multi-modal cache of the front end aside *)
Definition reset_caches : EM unit :=
  on_scheduler (reset_prefix_cache lt_id time_monotonic set_order true false) ;;
  on_scheduler reset_encoder_cache.

Definition pause_scheduler (mode : PauseMode) (clear_cache : bool) : EM unit :=
  match mode with
  | Wait => raise ValueError
  | _ =>
      (match mode with
       | Abort_all =>
           on_scheduler (finish_requests lt_id time_monotonic set_order All_ids FINISHED_ABORTED) ;; mret tt
       | _ => mret tt
       end) ;;
      on_scheduler (set_pause_state (match mode with Keep => PAUSED_ALL | _ => PAUSED_NEW end)) ;;
      if clear_cache then reset_caches else mret tt
  end.

Definition resume_scheduler : EM unit := on_scheduler (set_pause_state UNPAUSED).

(** A call, and the outputs it sends to the front end. *)
Definition run (c : Call) : EM (list EngineCoreOutput) :=
  match c with
  | Add_request r d abort => add_request r d abort ;; mret []
  | Abort_requests ids => abort_requests ids ;; mret []
  | Schedule_batch => schedule_batch ;; mret []
  | Finish_batch rejects out => finish_batch rejects out
  | Deferred_drafts validate d => deferred_drafts validate d ;; mret []
  | Pause_scheduler mode clear => pause_scheduler mode clear ;; mret []
  | Resume_scheduler => resume_scheduler ;; mret []
  | Reset_prefix_cache b c => on_scheduler (reset_prefix_cache lt_id time_monotonic set_order b c) ;; mret []
  | Reset_encoder_cache => on_scheduler reset_encoder_cache ;; mret []
  end.

Fixpoint run_all (cs : list Call) : EM (list EngineCoreOutput) :=
  match cs with
  | [] => mret []
  | c :: cs =>
      outs ← run c;
      more ← run_all cs;
      mret (outs ++ more)%list
  end.
End Core.
End Core.
