(* ===== verification/SchedulerKeeps.v ===== *)
(** * What a step leaves of the requests

    [schedule()] changes how far a request has got, never what it is: its
    tokens, its parameters, the outputs it is to discard.  Whatever the step
    meets, and however it ends, a property of the requests that does not depend
    on their progress stays true of them ([sane] is one), and the loop over the
    waiting requests stops no running one. *)
From S2P Require Import Prelude Hoare PyFloat Metrics Request BlockPool KVCache Scoring Scheduling.
From S2P Require Import EncoderCache RequestQueue Pressure Scheduler SchedulerStep.
Import Sched Step.
Local Open Scope Z_scope.

Section keeps.
Context {F : Type} `{FO : FloatOps F} `{FL : FloatLog1p F}.
Context {C : Type} `{KC : KVConnector F C}.
Notation State := (SchedulerState (F := F) (C := C)).
Notation SM := (M State).
Implicit Types (s : State) (r : SchedRequest F) (p : Step) (a : Admission).
Context (cfg : SchedulerConfig).

(** A property of the requests that the updates of their progress keep. *)
Record progressive (ok : SchedRequest F → Prop) : Prop := {
  pg_computed n r : ok r → ok (on_req (put_num_computed_tokens n) r);
  pg_status st r : ok r → ok (on_req (put_status st) r);
  pg_no_drafts r : ok r → ok (on_req (put_spec_token_ids []) r);
  pg_running n r : ok r → ok (on_req (λ x, put_num_computed_tokens n (put_status RUNNING x)) r);
  pg_preempted r : ok r → ok (on_req (λ x, put_num_preemptions (num_preemptions x + 1)
    (put_spec_token_ids [] (put_num_computed_tokens 0 (put_status PREEMPTED x)))) r);
  pg_computed_after n r : ok r → ok (computed_after n r);
  pg_placeholders spec r : async_scheduling cfg = true → ok r → ok (placeholders_after cfg spec r)
}.

(** The tokens of a request are its prompt and its outputs; the least number of
    outputs it asks for fits the model; no output is to be discarded; only an
    asynchronous scheduler has draft tokens, and placeholders. *)
Record sane r : Prop := {
  sn_tokens : num_tokens (req r) = num_prompt_tokens (req r) + num_output_tokens (req r);
  sn_min sp : sampling_params (req r) = Some sp →
    num_prompt_tokens (req r) + min_tokens sp ≤ sched_max_model_len cfg;
  sn_discard : async_tokens_to_discard r = 0;
  sn_drafts : async_scheduling cfg = true ∨ spec_token_ids (req r) = [] ∧ num_output_placeholders r = 0
}.

Lemma sane_progressive : progressive sane.
Proof.
  split; try by intros ? ? [].
  - intros r [H1 H2 H3 H4]. split; [done..|]. destruct H4 as [|[_ ?]]; [by left|by right].
  - intros r [H1 H2 H3 H4]. split; [done..|]. destruct H4 as [|[_ ?]]; [by left|by right].
  - intros spec r Ha Hr. unfold placeholders_after. destruct (is_prefill_chunk r); [done|]. destruct Hr. split; [done..|]. by left.
Qed.
Lemma any_progressive : progressive (λ _, True).
Proof. by split. Qed.

(** [c] leaves the requests [ok], and those of [must] running. *)
Context (ok : SchedRequest F → Prop) (must : list string).
Definition holds s : Prop :=
  config s = cfg ∧ (∀ id r, od_get id (requests s) = Some r → ok r) ∧ ∀ id, id ∈ must → id ∈ running s.
Definition keeps {A} (c : SM A) : Prop := ∀ s, holds s → holds (out_state (c s)).
Lemma leaves_ret {A} (x : A) : keeps (mret x).
Proof. by intros s Hs. Qed.
Lemma leaves_raise {A} e : keeps (raise e : SM A).
Proof. by intros s Hs. Qed.
Lemma leaves_bind {A B} (c : SM A) (k : A → SM B) : keeps c → (∀ x, keeps (k x)) → keeps (c ≫= k).
Proof.
  intros Hc Hk s Hs. rewrite bind_unfold. specialize (Hc s Hs). destruct (c s); cbn in *; [by apply Hk|done].
Qed.
Lemma leaves_get {B} (k : State → SM B) : (∀ s, config s = cfg → keeps (k s)) → keeps (get_state ≫= k).
Proof. intros Hk s Hs. rewrite get_bind. apply Hk; [apply Hs|done]. Qed.
Lemma leaves_gets {A} (f : State → A) : keeps (gets f).
Proof. by intros s Hs. Qed.
Lemma leaves_modify f :
  (∀ s, config (f s) = config s ∧ requests (f s) = requests s ∧ ∀ id, id ∈ must → id ∈ running s → id ∈ running (f s)) →
  keeps (modify f).
Proof.
  intros Hf s (H1 & H2 & H3). destruct (Hf s) as (E1 & E2 & E3).
  split_and!; cbn; [by rewrite E1|by rewrite E2|]. intros id Hid. apply E3; [done|by apply H3].
Qed.
Lemma leaves_if {A} (b : bool) (c c' : SM A) : keeps c → keeps c' → keeps (if b then c else c').
Proof. by destruct b. Qed.
Lemma leaves_forM {A} (l : list A) body : (∀ x, keeps (body x)) → keeps (forM l body).
Proof. intros Hb. induction l; cbn [forM]; [apply leaves_ret|]. by apply leaves_bind. Qed.
Lemma leaves_zoom {T A} (get : State → T) set (c : M T A) :
  (∀ t s, config (set t s) = config s ∧ requests (set t s) = requests s ∧ running (set t s) = running s) →
  keeps (zoom get set c).
Proof.
  intros Hf s (H1 & H2 & H3). unfold zoom. destruct (c (get s)) as [x t|e t]; cbn; destruct (Hf t s) as (E1 & E2 & E3);
    (split_and!; [by rewrite E1|by rewrite E2|by rewrite E3]).
Qed.
Lemma leaves_assert b : keeps (assertM b).
Proof. intros s Hs. by destruct b. Qed.
Lemma leaves_some_or {A} e (o : option A) : keeps (some_or e o).
Proof. intros s Hs. by destruct o. Qed.
Lemma leaves_request id : keeps (get_request id).
Proof. unfold get_request. apply leaves_get. intros. apply leaves_some_or. Qed.
Lemma leaves_alter f id : (∀ r, ok r → ok (f r)) → keeps (alter_request f id).
Proof.
  intros Hf s (H1 & H2 & H3). split_and!; [done| |done]. intros j r. cbn. rewrite od_get_alter. case_decide; [|apply H2]. subst j.
  destruct (od_get id (requests s)) as [r0|] eqn:Hr; [|done]. intros [= <-]. apply Hf. by eapply H2.
Qed.
Lemma leaves_kv {A} (c : M KVCacheManager A) : keeps (on_kv c).
Proof. by apply leaves_zoom. Qed.
Lemma leaves_encoder {A} (c : M EncoderCacheManager A) : keeps (on_encoder c).
Proof. by apply leaves_zoom. Qed.
Lemma leaves_controller {A} (x : A) c : keeps (on_controller x c).
Proof.
  intros s Hs. unfold on_controller. destruct (allocator s); [done|]. by apply (leaves_zoom (λ _, s0)).
Qed.
Lemma leaves_connector {A} (x : A) (c : M C A) : keeps (on_connector x c).
Proof.
  intros s Hs. unfold on_connector. destruct (connector s); [|done]. by apply (leaves_zoom (λ _, c0)).
Qed.
Lemma leaves_tokencake {A} p (x : A) c : keeps (if_tokencake p x c).
Proof. apply leaves_if; [apply leaves_controller|apply leaves_ret]. Qed.
Lemma leaves_queue {A} lt_id q (c : RequestQueue string WaitQueue → M WaitQueue A) : keeps (on_queue lt_id q c).
Proof. intros s Hs. unfold on_queue. apply leaves_zoom; [|done]. by destruct q. Qed.
Lemma leaves_step_skipped lt_id (c : RequestQueue string WaitQueue → M WaitQueue unit) a : keeps (on_step_skipped lt_id c a).
Proof. intros s Hs. unfold on_step_skipped. by destruct (c _ _). Qed.
End keeps.

Create HintDb keeps.
#[export] Hint Resolve leaves_ret leaves_raise leaves_gets leaves_assert leaves_some_or leaves_request leaves_kv leaves_encoder
  leaves_controller leaves_connector leaves_tokencake leaves_queue leaves_step_skipped : keeps.

(** An update of the progress of a request *)
Ltac progressive :=
  match goal with
  | Hok : progressive _ _ |- _ =>
      solve [done | apply (pg_computed _ _ Hok); done | apply (pg_status _ _ Hok); done
        | apply (pg_no_drafts _ _ Hok); done | apply (pg_running _ _ Hok); done
        | apply (pg_preempted _ _ Hok); done | apply (pg_computed_after _ _ Hok); done]
  end.

Ltac keeps :=
  repeat (intros; cbn beta zeta;
    match goal with
    | |- keeps _ _ _ (get_state ≫= _) => apply leaves_get
    | |- keeps _ _ _ (_ ≫= _) => apply leaves_bind
    | |- keeps _ _ _ (if _ then _ else _) => apply leaves_if
    | |- keeps _ _ _ (forM _ _) => apply leaves_forM
    | |- keeps _ _ _ (match ?x with _ => _ end) => destruct x
    | |- keeps _ _ _ (modify _) => solve [apply leaves_modify; intros; split_and!; set_solver]
    | |- keeps _ _ _ (alter_request _ _) => apply leaves_alter; intros; repeat case_match; progressive
    | |- keeps _ _ _ _ => solve [eauto with keeps nocore]
    end); intros.

Section running.
Context {F : Type} `{FO : FloatOps F} `{FL : FloatLog1p F}.
Context {C : Type} `{KC : KVConnector F C}.
Notation State := (SchedulerState (F := F) (C := C)).
Notation SM := (M State).
Context (lt_id : bool) (time_time time_monotonic : nat → F) (set_order : gset string → list string).
Context (cfg : SchedulerConfig) (ok : SchedRequest F → Prop) (Hok : progressive cfg ok) (must : list string).
Implicit Types (p : Step) (a : Admission).
Notation keeps := (keeps cfg ok must).

Lemma leaves_preempt id b : keeps (preempt_request lt_id time_monotonic set_order id b : SM _).
Proof. unfold preempt_request. keeps. Qed.
Lemma leaves_embeds (r : Request F) l : keeps (embeds_of r l : SM _).
Proof. unfold embeds_of. keeps. Qed.
Lemma leaves_unschedule id p : keeps (unschedule id p : SM _).
Proof. unfold unschedule. keeps. apply leaves_embeds. Qed.
Lemma leaves_agent_victim p (r : Request F) n : keeps (agent_victim set_order p r n : SM _).
Proof. unfold agent_victim. keeps. Qed.
Lemma leaves_plan (r : Request F) i j k : keeps (encoder_plan r i j k : SM _).
Proof. unfold encoder_plan. keeps. Qed.
Lemma leaves_mamba (r : Request F) i j k : keeps (mamba_block_aligned_split r i j k : SM _).
Proof. unfold mamba_block_aligned_split. keeps. Qed.
End running.
#[export] Hint Resolve leaves_preempt leaves_embeds leaves_unschedule leaves_agent_victim leaves_plan
  leaves_mamba : keeps.

Section running_phase.
Context {F : Type} `{FO : FloatOps F} `{FL : FloatLog1p F}.
Context {C : Type} `{KC : KVConnector F C}.
Notation State := (SchedulerState (F := F) (C := C)).
Notation SM := (M State).
Context (lt_id : bool) (time_time time_monotonic : nat → F) (set_order : gset string → list string).
Context (cfg : SchedulerConfig) (ok : SchedRequest F → Prop) (Hok : progressive cfg ok).
Implicit Types (p : Step) (a : Admission).
Notation keeps := (keeps cfg ok []).

Lemma leaves_take_victim p v : keeps (take_victim p v : SM _).
Proof. unfold take_victim. keeps. Qed.
#[local] Hint Resolve leaves_take_victim : keeps.

Lemma leaves_allocate fuel : ∀ id n p b,
  keeps (allocate_running lt_id time_monotonic set_order fuel id n p b : SM _).
Proof. induction fuel; intros; cbn [allocate_running]; keeps. Qed.
Lemma leaves_running_tokens r p : keeps (running_tokens r p : SM _).
Proof. unfold running_tokens. keeps. Qed.
Lemma leaves_running_request p : keeps (schedule_running_request lt_id time_monotonic set_order p : SM _).
Proof. unfold schedule_running_request. keeps; (apply leaves_running_tokens || apply leaves_allocate). Qed.
Lemma leaves_running_phase fuel : ∀ p, keeps (running_phase lt_id time_monotonic set_order fuel p : SM _).
Proof. induction fuel; intros; cbn [running_phase]; keeps; apply leaves_running_request. Qed.
End running_phase.

Section waiting.
Context {F : Type} `{FO : FloatOps F} `{FL : FloatLog1p F}.
Context {C : Type} `{KC : KVConnector F C}.
Notation State := (SchedulerState (F := F) (C := C)).
Notation SM := (M State).
Context (lt_id : bool) (time_time time_monotonic : nat → F) (set_order : gset string → list string).
Context (cfg : SchedulerConfig) (ok : SchedRequest F → Prop) (Hok : progressive cfg ok) (must : list string).
Implicit Types (p : Step) (a : Admission).
Notation keeps := (keeps cfg ok must).

Lemma leaves_remote id : keeps (update_waiting_for_remote_kv set_order id : SM _).
Proof. unfold update_waiting_for_remote_kv. keeps. Qed.
Lemma leaves_promote id : keeps (try_promote_blocked_waiting_request set_order id : SM _).
Proof. unfold try_promote_blocked_waiting_request. keeps; apply leaves_remote. Qed.
Lemma leaves_skip id a : keeps (skip_request lt_id id a : SM _).
Proof. apply leaves_step_skipped. Qed.
Lemma leaves_return l : ∀ a, keeps (return_deferred lt_id l a : SM _).
Proof. induction l; intros; cbn [return_deferred]; keeps. Qed.
Lemma leaves_order_key i j : keeps (order_key_lt i j : SM _).
Proof. unfold order_key_lt. keeps. Qed.
Lemma leaves_resolve l : ∀ b e a, keeps (resolve_candidates lt_id set_order l b e a : SM _).
Proof.
  induction l as [|[id q] l IH]; intros; cbn [resolve_candidates]; keeps;
    first [apply IH|apply leaves_promote|apply leaves_skip|apply leaves_order_key].
Qed.
Lemma leaves_order_eligible l : keeps (order_eligible set_order l : SM _).
Proof. unfold order_eligible. keeps. Qed.
Lemma leaves_choose p id q a : keeps (choose_request lt_id set_order p id q a : SM _).
Proof. unfold choose_request. keeps; first [apply leaves_resolve|apply leaves_order_eligible]. Qed.
Lemma leaves_leave p id q : keeps (leave_queue lt_id p id q : SM _).
Proof. unfold leave_queue. keeps. Qed.
Lemma leaves_cached p id q a : keeps (cached_tokens lt_id set_order p id q a : SM _).
Proof. unfold cached_tokens. keeps; first [apply leaves_skip|apply leaves_leave]. Qed.
Lemma leaves_tokens p r c : keeps (admission_tokens p r c : SM _).
Proof. unfold admission_tokens. keeps. Qed.
Lemma leaves_completion p id q c n l pl k a :
  keeps (complete_admission lt_id time_monotonic set_order p id q c n l pl k a : SM _).
Proof. unfold complete_admission. keeps; first [apply leaves_skip|apply leaves_leave]. Qed.
Lemma leaves_admit_request p id q a : keeps (admit_request lt_id time_monotonic set_order p id q a : SM _).
Proof.
  unfold admit_request. keeps; first [apply leaves_cached|apply leaves_tokens|apply leaves_skip|apply leaves_completion].
Qed.
Lemma leaves_select : keeps (select_waiting_queue_for_scheduling lt_id : SM _).
Proof. unfold select_waiting_queue_for_scheduling. keeps. Qed.
Lemma leaves_admit_one p a : keeps (admit_one lt_id time_monotonic set_order p a : SM _).
Proof.
  unfold admit_one. keeps;
    first [apply leaves_select|apply leaves_promote|apply leaves_skip|apply leaves_choose|apply leaves_admit_request].
Qed.
Lemma leaves_waiting_phase fuel : ∀ p a, keeps (waiting_phase lt_id time_monotonic set_order fuel p a : SM _).
Proof.
  induction fuel; intros; cbn [waiting_phase]; keeps; first [apply leaves_return|apply leaves_admit_one|apply IHfuel].
Qed.

Lemma leaves_begin : keeps (begin_schedule lt_id time_time set_order : SM _).
Proof. unfold begin_schedule, step_budgets. keeps. Qed.
Lemma leaves_admit_waiting p : keeps (admit_waiting lt_id time_monotonic set_order p : SM _).
Proof. unfold admit_waiting. keeps. apply leaves_waiting_phase. Qed.
Lemma leaves_mapSM {A B} (f : A → SM B) l : (∀ x, keeps (f x)) → keeps (mapSM f l).
Proof. intros Hf. induction l; cbn [mapSM]; keeps. Qed.
Lemma leaves_cache_requests p b l : ∀ d, keeps (cache_requests p b l d : SM _).
Proof. induction l; intros; cbn [cache_requests]; unfold cache_request; keeps. Qed.
Lemma leaves_make_output p : keeps (make_output p : SM _).
Proof.
  unfold make_output, make_cached_request_data. keeps; try apply leaves_cache_requests.
  apply leaves_mapSM. intros. unfold new_request_data. keeps.
Qed.
Lemma leaves_update_after o : keeps (update_after_schedule o : SM _).
Proof.
  unfold update_after_schedule. apply leaves_bind; [keeps|intros _]. apply leaves_bind; [keeps|intros _].
  apply leaves_get. intros s Hs. destruct (async_scheduling (config s)) eqn:Ha; [|keeps]. apply leaves_forM. intros id.
  apply leaves_bind; [keeps|intros _]. apply leaves_alter. intros r Hr. rewrite Hs in *. by apply (pg_placeholders _ _ Hok).
Qed.

End waiting.

Section step.
Context {F : Type} `{FO : FloatOps F} `{FL : FloatLog1p F}.
Context {C : Type} `{KC : KVConnector F C}.
Notation State := (SchedulerState (F := F) (C := C)).
Context (lt_id : bool) (time_time time_monotonic : nat → F) (set_order : gset string → list string).
Context (cfg : SchedulerConfig) (ok : SchedRequest F → Prop) (Hok : progressive cfg ok).

Lemma leaves_schedule : keeps cfg ok [] (schedule lt_id time_time time_monotonic set_order : M State _).
Proof.
  unfold schedule, schedule_requests, check_constraints. keeps;
    first [apply leaves_begin|by apply leaves_running_phase|by apply leaves_admit_waiting|by apply leaves_make_output
      |by apply leaves_update_after].
Qed.

(** The loop over the waiting requests stops no running one. *)
Lemma wp_admit_waiting_running p (s : State) Q E : wp (admit_waiting lt_id time_monotonic set_order p) Q E s →
  wp (admit_waiting lt_id time_monotonic set_order p)
    (λ p' s', Q p' s' ∧ ∀ id, id ∈ running s → id ∈ running s') E s.
Proof.
  intros Hw. pose proof (leaves_admit_waiting lt_id time_monotonic set_order (config s) (λ _, True)
    (any_progressive _) (running s) p s ltac:(by split_and!)) as Hk.
  unfold wp in *. destruct (admit_waiting _ _ _ _ s) as [p' s'|]; [|done]. split; [done|]. apply Hk.
Qed.
End step.
