(* ===== verification/SchedulerAny.v ===== *)
(** * The parts of any scheduler

    The interface of the parts, for a scheduler of any configuration: with or
    without TokenCake's controller, a connector, multi-modal inputs.  The calls
    may raise (the parts have theorems of their own); what is needed of those
    that return is that they leave the scheduler's own state, and the settings
    of the controller, as they are, and that a plan of encoder inputs respects
    the budget it is given. *)
From S2P Require Import Prelude Hoare PyFloat Metrics Request BlockPool KVCache Scoring Scheduling.
From S2P Require Import Config EncoderCache RequestQueue QueueLaws Pressure ControllerSteady Scheduler SchedulerFacts.
Import Sched.
Local Open Scope Z_scope.

Section plans.
Context {F T : Type} `{FloatOps F} `{EncoderManager F T}.
Context (settings : EncoderSettings) (r : Request F) (computed shift n budget : Z).

Lemma wp_any {S A} (c : M S A) s : wp c (λ _ _, True) (λ _, True) s.
Proof. unfold wp. by destruct (c s). Qed.

(** The budget a plan has left. *)
Definition plan_fits (p : EncoderCache.Plan) : Prop :=
  0 ≤ new_tokens p ≤ n
  ∧ ∃ l, mapM (get_num_encoder_embeds r) (inputs_to_schedule p) = Some l ∧ compute_budget p + sumZ l = budget.

Lemma mapM_snoc {A B} (f : A → option B) l x y ys :
  mapM f l = Some ys → f x = Some y → mapM f (l ++ [x]) = Some (ys ++ [y]).
Proof.
  revert ys. induction l as [|a l IH]; intros ys; cbn.
  - intros [= <-] ->. done.
  - destruct (f a); [|done]. cbn. destruct (mapM f l) as [ys'|]; [|done]. cbn. intros [= <-] Hx.
    by rewrite (IH _ eq_refl Hx).
Qed.

Lemma wp_settle_input i f p (s : T) : mm_features r !! i = Some f → plan_fits p →
  wp (settle settings computed i f p) (λ p' _, plan_fits p') (λ _, True) s.
Proof.
  intros Hf (Hn & l & Hl & Hb). unfold settle. destruct (get_embeds_indices_in_range f _ _) as [[a b]|]; [|done].
  apply wp_if; intros _; [by split; [|exists l]|]. apply wp_if; intros _; (split; [done|]); [by exists l|].
  exists (l ++ [get_num_embeds f]). split.
  - apply mapM_snoc; [done|]. unfold get_num_encoder_embeds. by rewrite Hf.
  - cbn [compute_budget]. rewrite sumZ_app. cbn. lia.
Qed.

Lemma wp_plan_inputs features : ∀ i p (s : T), drop i (mm_features r) = features → plan_fits p →
  wp (plan_inputs settings r computed shift i features p) (λ p' _, plan_fits p') (λ _, True) s.
Proof.
  induction features as [|f features IH]; intros i p s Hd Hp; cbn [plan_inputs]; [done|].
  assert (mm_features r !! i = Some f) as Hf by (by rewrite <-(Nat.add_0_r i), <-lookup_drop, Hd).
  assert (drop (S i) (mm_features r) = features) as Hd'.
  { rewrite <-Nat.add_1_r, <-drop_drop, Hd. done. }
  assert (∀ m, 0 ≤ m ≤ new_tokens p → plan_fits (with_tokens m p)) as Hwith.
  { intros m Hm. destruct Hp as ((? & ?) & Hl). split; [cbn; lia|done]. }
  destruct Hp as [Hn Hl]. cbv zeta. destruct (Z.leb_spec (computed + new_tokens p + shift) (mm_offset f)) as [|Hs]; [done|].
  apply wp_if; intros _; [apply wp_bind, wp_assert; [intros _; by apply IH|done]|].
  apply wp_if; intros _; [by apply IH|].
  apply wp_bind. eapply wp_mono; [apply wp_any| |done]. intros seen s1 _.
  apply wp_if; intros _; [by apply IH|]. apply wp_if; intros _; [apply wp_ret, Hwith; lia|].
  apply wp_bind. eapply wp_mono; [apply wp_any| |done]. intros ok s2 _. apply wp_if; intros _.
  - apply wp_bind. eapply wp_mono; [by apply (wp_settle_input i f)| |done]. intros p' s3 Hp'. by apply IH.
  - destruct (Z.ltb_spec (computed + shift) (mm_offset f)); apply wp_ret, Hwith; lia.
Qed.

Lemma wp_try_schedule (s : T) : 0 ≤ n →
  wp (try_schedule_encoder_inputs settings r computed shift n budget) (λ p _, plan_fits p) (λ _, True) s.
Proof.
  intros Hn. assert (plan_fits (mkPlan [] [] ∅ 0 n budget)) as Hp.
  { split; [cbn; lia|]. exists []. split; [done|]. cbn. lia. }
  unfold try_schedule_encoder_inputs. cbv zeta. apply wp_if; intros _; [done|]. by apply wp_plan_inputs.
Qed.
End plans.

Section any.
Context {F : Type} `{FO : FloatOps F} `{FL : FloatLog1p F}.
Context {C : Type} `{KC : KVConnector F C}.
Context (lt_id : bool) (time_time time_monotonic : nat → F) (set_order : gset string → list string).
Notation State := (SchedulerState (F := F) (C := C)).
Implicit Types (s : State) (r : SchedRequest F) (p : Step).

(** The prefill budget of the settings is one. *)
Definition settings_ok s : Prop :=
  match allocator s with inl _ => True | inr k => 0 ≤ decode_prefill_token_budget (Controller.settings k) end.
Definition any_parts (_ : list string) s : Prop := settings_ok s.
Definition any_fits r : Prop := True.

Lemma any_kv {A} (c : M KVCacheManager A) s : settings_ok s →
  wp (on_kv c) (λ _ s', frame s s' ∧ settings_ok s') (raises True) s.
Proof.
  intros Hs. apply wp_on_kv; [|done]. intros a k _. split; [done|]. unfold settings_ok in *. cbn.
  by destruct (allocator s).
Qed.

Lemma any_encoder {A} (c : M EncoderCacheManager A) s : settings_ok s →
  wp (on_encoder c) (λ _ s', frame s s' ∧ settings_ok s') (raises True) s.
Proof. intros Hs. unfold on_encoder. apply wp_zoom. unfold wp. by destruct (c _). Qed.

Lemma any_controller {A} (a : A) c s : steady c → settings_ok s →
  wp (on_controller a c) (λ _ s', frame s s' ∧ settings_ok s') (raises True) s.
Proof.
  intros Hc Hs. unfold wp, on_controller. destruct (allocator s) as [k|k] eqn:E; [done|]. unfold zoom. specialize (Hc k).
  destruct (c k) as [x k'|e k']; [|done]. split; [done|]. unfold settings_ok in *. cbn in *. rewrite E in Hs. by rewrite Hc.
Qed.

Lemma any_if_tokencake {A} p (a : A) c s : steady c → settings_ok s →
  wp (if_tokencake p a c) (λ _ s', frame s s' ∧ settings_ok s') (raises True) s.
Proof. intros Hc Hs. unfold if_tokencake. apply wp_if; intros _; [by apply any_controller|by apply wp_ret]. Qed.

Lemma any_cap p n b s : settings_ok s →
  wp (if_tokencake p n (Controller.cap_prefill n b))
    (λ n' s', frame s s' ∧ settings_ok s' ∧ n' = if tokencake p then match allocator s with inl _ => n | inr _ => Z.min n b end else n)
    (raises True) s.
Proof.
  intros Hs. unfold if_tokencake. destruct (tokencake p); [|by apply wp_ret].
  unfold wp, on_controller, zoom. destruct (allocator s) as [k|k] eqn:E; [done|].
  assert (steady (Controller.cap_prefill n b : M (Controller.SchedulingController F) Z)) as Hst by apply steady_cap_prefill.
  specialize (Hst k). assert (wp (Controller.cap_prefill n b : M (Controller.SchedulingController F) Z)
    (λ m _, m = Z.min n b) (λ _, True) k) as Hm.
  { unfold Controller.cap_prefill. destruct (Z.ltb_spec b n).
    - apply wp_bind. eapply wp_mono; [apply wp_any| |done]. intros _ ? _. apply wp_ret. lia.
    - apply wp_ret. lia. }
  unfold wp in Hm. destruct (Controller.cap_prefill n b k) as [m k'|]; [|done]. split; [done|].
  split; [|done]. unfold settings_ok in *. cbn in *. rewrite E in Hs. by rewrite Hst.
Qed.

#[export] Instance any_running : RunningParts time_monotonic set_order True any_parts any_fits.
Proof.
  split; unfold any_parts.
  - intros own s s' Hp Hs. injection Hp as E1 E2 E3 E4. unfold settings_ok. by rewrite E2.
  - done.
  - intros. by apply any_kv.
  - intros. apply any_if_tokencake; [apply steady_commit|done].
  - intros own s p r n Hs _. unfold agent_victim. apply wp_get. apply wp_bind.
    eapply wp_mono; [apply any_if_tokencake; [apply steady_victim|done]| |done]. intros v s' [Hf Hs'].
    apply wp_ret. split; [done|]. split; [done|]. by right.
  - intros. by apply any_kv.
  - intros. apply any_controller; [apply steady_preempt|done].
  - intros. by apply any_encoder.
  - intros. by apply any_cap.
  - intros own s r n b Hs _ Hn. unfold encoder_plan. destruct (has_encoder_inputs (req r)) eqn:He.
    + apply wp_get. unfold on_encoder. apply wp_zoom. eapply wp_mono; [by apply (wp_try_schedule (T := EncoderCacheManager))| |done].
      intros plan e Hp. split; [done|]. split; [done|]. destruct Hp as [H1 H2]. split; [done|]. split; [done|]. by rewrite He.
    + apply wp_ret. split; [done|]. split; [done|]. split; [cbn; lia|]. split; [|done]. exists []. cbn. split; [done|lia].
  - intros. by apply any_encoder.
  - intros own s r n Hs. apply wp_bind. eapply wp_mono; [apply any_controller; [apply steady_prepare_running|done]| |done].
    intros [] s1 [F1 S1]. eapply wp_mono; [apply any_controller; [apply steady_can_grow|done]| |done].
    intros x s2 [F2 S2]. split; [by eapply frame_then|done].
  - done.
  - by right.
Qed.
End any.
