(* ===== verification/SchedulerPlain.v ===== *)
(** * The parts of a plain engine

    The interface of the parts, for an engine of one full-attention group
    without TokenCake's scheduling, on text requests whose full blocks are
    hashed: no call of the running phase raises. *)
From S2P Require Import Prelude Hoare PyFloat Metrics Request BlockPool BlockPoolFacts KVCache KVCacheFacts KVCacheProps.
From S2P Require Import Scoring Scheduling.
From S2P Require Import Config EncoderCache RequestQueue QueueLaws Pressure Scheduler SchedulerFacts.
Import Sched.
Local Open Scope Z_scope.

Section plain.
Context {F : Type} `{FO : FloatOps F} `{FL : FloatLog1p F}.
Context {C : Type} `{KC : KVConnector F C}.
Context (time_monotonic : nat → F) (set_order : gset string → list string).
Notation State := (SchedulerState (F := F) (C := C)).
Implicit Types (s : State) (r : SchedRequest F) (p : Step).

(** The sizes of the engine: of its blocks, of the blocks hashed, its longest
    request. *)
Context (size hash_size longest : Z).

Definition plain_parts (_ : list string) s : Prop :=
  0 ≤ longest ∧ sched_max_model_len (config s) ≤ longest
  ∧ ∃ k m l, allocator s = inl k ∧ kv_inv k m l ∧ block_size m = size ∧ hash_block_size (block_pool k) = hash_size
      ∧ KVCache.max_model_len k = longest.

(** The full blocks of the request have their hashes. *)
Definition hashed (x : Request F) : Prop :=
  let full := Z.to_nat (num_tokens x / size) in
  (full ≤ length (block_hashes x))%nat
  ∧ ∃ hs, group_hashes hash_size size (block_hashes x) = Some hs ∧ (full ≤ length hs)%nat.
Definition plain_fits r : Prop := settled r ∧ mm_features (req r) = [] ∧ hashed (req r).

Notation E := (raises False).

Lemma plain_kv {A} (c : M KVCacheManager A) own s (Q : A → Prop) :
  plain_parts own s →
  (∀ k m l, kv_inv k m l → block_size m = size → hash_block_size (block_pool k) = hash_size → KVCache.max_model_len k = longest →
     ∃ a k' m' l', c k = Ret a k' ∧ kv_inv k' m' l' ∧ block_size m' = size ∧ hash_block_size (block_pool k') = hash_size
       ∧ KVCache.max_model_len k' = longest) →
  wp (on_kv c) (λ _ s', frame s s' ∧ plain_parts own s') E s.
Proof.
  intros (H0 & Hmax & k & m & l & Hk & Hinv & H1 & H2 & H3) Hc.
  destruct (Hc k m l Hinv H1 H2 H3) as (a & k' & m' & l' & Hrun & Hinv' & G1 & G2 & G3).
  unfold wp, on_kv, zoom, kv_cache_manager, put_kv. rewrite Hk, Hrun. split; [done|]. split; [done|]. split; [done|].
  exists k', m', l'. by rewrite ?Hk.
Qed.

Lemma plain_absent {A} (a : A) c own s : plain_parts own s → on_controller a c s = Ret a s.
Proof. intros (_ & _ & k & m & l & Hk & _). unfold on_controller. by rewrite Hk. Qed.

Lemma plain_controller {A} (a : A) c own s (Q : A → State → Prop) : plain_parts own s → Q a s → wp (on_controller a c) Q E s.
Proof. intros Hs HQ. unfold wp. by rewrite (plain_absent _ _ own). Qed.

Lemma text_only r : plain_fits r → has_encoder_inputs (req r) = false.
Proof. intros (_ & Hmm & _). unfold has_encoder_inputs, num_encoder_inputs. by rewrite Hmm. Qed.

Lemma plain_slots own s r n k m :
  plain_parts own s → config_ok (config s) → plain_fits r → tokens_ok (config s) r → 1 ≤ n →
  block_size m = size → hash_block_size (block_pool k) = hash_size → KVCache.max_model_len k = longest →
  slots_ok k m (req r) n 0 None (num_lookahead_tokens (config s)) 0 false [].
Proof.
  intros (H0 & Hmax & _) (_ & _ & Hlook & _) ([Hn0 _] & _ & Hh1 & Hh2) (T1 & T2 & T3 & _) Hn E1 E2 E3.
  split; [lia|lia|done|lia|lia|by left|]. intros _ _. unfold hashes_cover. by rewrite E1, E2.
Qed.

#[export] Instance plain_running : RunningParts time_monotonic set_order False plain_parts plain_fits.
Proof.
  split.
  - intros own s s' Hp Hs. injection Hp as E1 E2 E3 E4. unfold plain_parts in *. by rewrite E1, E2.
  - done.
  - intros own s r n Hs Hcfg _ Hfit Htok Hn. apply (plain_kv _ _ _ (λ _, True)); [done|]. intros k m l Hk E1 E2 E3.
    pose proof (plain_slots own s r n k m Hs Hcfg Hfit Htok Hn E1 E2 E3) as Hslots.
    pose proof (allocate_slots_outcome k m l (req r) n 0 None (num_lookahead_tokens (config s)) 0 false false [] Hk Hslots) as Ho.
    cbn zeta in Ho. case_decide; [by exists None, k, m, l|].
    destruct Ho as (nb & k' & m' & l' & Hrun & Hk' & _ & _ & Hst & Hb & Hm). exists (Some [nb]), k', m', l'.
    split; [done|]. split; [done|]. split; [congruence|]. split; [|congruence]. unfold static in Hst. congruence.
  - intros own s p r bs Hs. unfold if_tokencake. apply wp_if; intros _; [by apply (plain_controller _ _ own)|by apply wp_ret].
  - intros own s p r n Hs _. unfold agent_victim, if_tokencake. apply wp_get.
    apply wp_bind, wp_if; intros _; [apply (plain_controller _ _ own); [done|]|apply wp_ret]; by apply wp_ret.
  - intros own s r Hs. apply (plain_kv _ _ _ (λ _, True)); [done|]. intros k m l Hk E1 E2 E3.
    destruct (free_ok alone _ _ _ (request_id (req r)) (kv_sm _ _ _ Hk)) as (p' & m' & Hrun & Hi' & Hf & _).
    eexists tt, (with_state p' m' k), m', _. split_and!.
    + unfold kv_free, coord_free. rewrite get_bind. by apply (coord_unit k m l (λ _, KVCache.free (request_id (req r)))).
    + by eapply kv_inv_step.
    + by rewrite (sf_size _ _ _ _ _ Hf).
    + pose proof (sf_static _ _ _ _ _ Hf) as Hst. unfold static in Hst. cbn. congruence.
    + done.
  - intros own s r b Hs. by apply (plain_controller _ _ own).
  - intros own s r Hs (_ & Hmm & _). unfold on_encoder. apply wp_zoom. unfold EncoderCache.free. apply wp_get.
    unfold get_cached_input_ids. rewrite Hmm. cbn. by apply wp_ret.
  - intros own s p n b Hs. pose proof Hs as (_ & _ & k & m & l & Hk & _). unfold if_tokencake. rewrite Hk.
    destruct (tokencake p); [|by apply wp_ret]. by apply (plain_controller _ _ own).
  - intros own s r n b Hs Hfit Hn. unfold encoder_plan. rewrite (text_only r Hfit). apply wp_ret. split; [done|]. split; [done|].
    split; [cbn; lia|]. split; [|done]. exists []. cbn. split; [done|lia].
  - intros own s r n b plan Hs Hfit (_ & _ & Hno). destruct (Hno (text_only r Hfit)) as [H1 H2].
    unfold on_encoder. apply wp_zoom. unfold allocate_inputs. rewrite H1, H2. cbn. by apply wp_ret.
  - intros own s r n Hs. apply wp_bind, (plain_controller _ _ own); [done|]. by apply (plain_controller _ _ own).
  - intros r r' (Hs & Hmm & Hh) Hid Htok Hbh Hf Hset. split; [by apply Hset|]. split; [by rewrite Hf|].
    unfold hashed, num_tokens in *. by rewrite Htok, Hbh.
  - intros r (Hs & _). by left.
Qed.
End plain.
