(* ===== verification/SchedulerWaiting.v ===== *)
(** * The waiting phase: places and promotion

    During the loop over the waiting requests, a request skipped is in none of
    the scheduler's queues but in one of the loop's own, which the scheduler
    takes back at the end.  This file has what the moves between them keep, for
    a scheduler of any configuration. *)
From S2P Require Import Prelude Hoare PyFloat Metrics Request BlockPool KVCache Scoring Scheduling.
From S2P Require Import Config EncoderCache RequestQueue QueueLaws Pressure ControllerSteady Scheduler SchedulerFacts.
From S2P Require Import SchedulerAny SchedulerStep.
Import Sched Step.
Local Open Scope Z_scope.

Section waiting.
Context {F : Type} `{FO : FloatOps F} `{FL : FloatLog1p F}.
Context {C : Type} `{KC : KVConnector F C}.
Context (lt_id : bool) (time_time time_monotonic : nat → F) (set_order : gset string → list string).
Notation State := (SchedulerState (F := F) (C := C)).
Notation E := (raises True).
Implicit Types (s : State) (r : SchedRequest F) (p : Step) (m : Admission) (X : WaitQueue).

(** The state with the requests of [X] among the skipped ones. *)
Definition with_skipped X s : State :=
  put_skipped_waiting (inr (mkFCFS (waiting_items (skipped_waiting s) ++ waiting_items X))) s.

(** The scheduler during the loop, [X] being skipped: the requests in some place
    are those that were. *)
Context {ids : list string}.
Record waiting_inv X s : Prop := {
  wi_sched : sched_inv (with_skipped X s);
  wi_settings : settings_ok s;
  wi_placed : placed (with_skipped X s) ≡ₚ ids
}.

Definition queued s : nat := length (waiting_items (waiting s)) + length (waiting_items (skipped_waiting s)).

Lemma wp_part {A B} (c : M State A) (k : A → M State B) s Q :
  wp c (λ _ s', frame s s' ∧ settings_ok s') E s →
  (∀ a s', frame s s' → settings_ok s' → wp (k a) Q E s') → wp (c ≫= k) Q E s.
Proof. intros Hc Hk. eapply wp_step; [exact Hc|]. intros a s' [? ?]. by apply Hk. Qed.

Lemma waiting_frame X s s' : waiting_inv X s → frame s s' → settings_ok s' → waiting_inv X s'.
Proof.
  intros [Hs _ Hp] Hf Hs'. injection Hf as E1 E2 E3 E4 E5 E6 E7 E8 E9 E10. split; [|done|].
  - eapply sched_inv_frame; [|exact Hs]. unfold frame, rest, with_skipped. cbn. congruence.
  - unfold placed in *. cbn in *. by rewrite E3, E4, E5.
Qed.

(** An invariant of the queues up to the place of a request among the
    waiting ones. *)
Lemma sched_inv_places s s' :
  sched_inv s → config s' = config s → requests s' = requests s → running s' = running s → placed s' ≡ₚ placed s →
  sched_inv s'.
Proof.
  intros [] E1 E2 E3 Hp. split; rewrite ?E1, ?E2, ?E3; try done; [by rewrite Hp|]. intros id. by rewrite Hp.
Qed.

Lemma waiting_places X X' s s' : waiting_inv X s →
  config s' = config s → requests s' = requests s → running s' = running s → settings_ok s' →
  placed (with_skipped X' s') ≡ₚ placed (with_skipped X s) → waiting_inv X' s'.
Proof.
  intros [Hs _ Hp] E1 E2 E3 Hset HX. split; [|done|by rewrite HX]. by apply (sched_inv_places (with_skipped X s)).
Qed.

(** ** Calls on the queues *)
(** [id] has left the queue [q]. *)
Definition left_queue q id s s1 : Prop :=
  ∃ v, s1 = put_queue q v s ∧ waiting_items (queue_of q s) ≡ₚ id :: waiting_items v.

Lemma put_queue_same q s : put_queue q (queue_of q s) s = s.
Proof. by destruct s, q. Qed.

Lemma wp_peek q s :
  wp (on_queue lt_id q (λ _, peek_request))
    (λ id s', s' = s ∧ peek_request (RequestQueue := waiting_queue (queue_lt lt_id s)) (queue_of q s) = Ret id (queue_of q s)
              ∧ id ∈ waiting_items (queue_of q s)) E s.
Proof.
  pose proof (waiting_laws (queue_lt lt_id s)) as HL.
  unfold wp, on_queue, zoom. destruct (decide (waiting_items (queue_of q s) = [])) as [Hq|Hq].
  - by destruct (peek_empty_law _ Hq) as [e ->].
  - destruct (peek_law _ Hq) as (x & Hx & Hin). rewrite Hx. by rewrite put_queue_same.
Qed.

Lemma wp_remove q id s : wp (on_queue lt_id q (λ _, remove_request id)) (λ _, left_queue q id s) E s.
Proof.
  pose proof (waiting_laws (queue_lt lt_id s)) as HL.
  unfold wp, on_queue, zoom. destruct (decide (id ∈ waiting_items (queue_of q s))) as [Hq|Hq].
  - destruct (remove_law _ _ Hq) as (v & -> & Hv). by exists v.
  - by destruct (remove_absent_law _ _ Hq) as [e ->].
Qed.

Lemma wp_pop q id s : peek_request (RequestQueue := waiting_queue (queue_lt lt_id s)) (queue_of q s) = Ret id (queue_of q s) →
  wp (on_queue lt_id q (λ _, pop_request)) (λ _, left_queue q id s) E s.
Proof.
  intros Hp. destruct (@pop_law _ _ _ _ _ (waiting_laws (queue_lt lt_id s)) _ _ Hp) as (v & Hpop & Hv).
  eapply wp_on_queue; [exact Hpop|]. by exists v.
Qed.

(** The head of a queue stays when nothing but the other parts change: it does
    not depend on the order. *)
Definition head_of q id s : Prop :=
  peek_request (RequestQueue := waiting_queue (λ _ _, false)) (queue_of q s) = Ret id (queue_of q s).

Lemma peek_any lt (v : WaitQueue) :
  peek_request (RequestQueue := waiting_queue lt) v = peek_request (RequestQueue := waiting_queue (λ _ _, false)) v.
Proof. done. Qed.

Lemma wp_leave p q id s : (tokencake p = false → head_of q id s) →
  wp (leave_queue lt_id p id q) (λ _, left_queue q id s) E s.
Proof.
  intros Hh. unfold leave_queue. apply wp_if; intros Ht; [apply wp_remove|].
  eapply wp_step; [by apply (wp_pop q id), Hh|]. intros x s1 Hl. by apply wp_ret.
Qed.

(** [id] is skipped. *)
Lemma wp_skip_request id m s Q :
  (∀ v, waiting_items v ≡ₚ id :: waiting_items (step_skipped_waiting m) → Q (put_step_skipped v m) s) →
  wp (skip_request lt_id id m) Q E s.
Proof.
  intros HQ. pose proof (waiting_laws (queue_lt lt_id s)) as HL. unfold wp, skip_request, on_step_skipped.
  destruct (prepend_law id (step_skipped_waiting m)) as (v & -> & Hv). by apply HQ.
Qed.

Lemma left_placed X q id s s1 : left_queue q id s s1 → placed (with_skipped X s) ≡ₚ id :: placed (with_skipped X s1).
Proof.
  intros (v & -> & Hv). unfold placed. destruct q; cbn in *; rewrite Hv; cbn.
  - by rewrite <-Permutation_middle.
  - rewrite <-(Permutation_middle (waiting_items (waiting s))). by rewrite <-Permutation_middle.
Qed.

Lemma left_same q id s s1 : left_queue q id s s1 →
  config s1 = config s ∧ requests s1 = requests s ∧ running s1 = running s ∧ settings_ok s1 = settings_ok s
  ∧ queued s = S (queued s1) ∧ pause_state s1 = pause_state s.
Proof.
  intros (v & -> & Hv). apply Permutation_length in Hv. destruct q; cbn in *; split_and!; try done; unfold queued; cbn; lia.
Qed.

Lemma skipped_placed X X' id s s1 q : left_queue q id s s1 → waiting_items X' ≡ₚ id :: waiting_items X →
  waiting_inv X s → waiting_inv X' s1.
Proof.
  intros Hl HX Hw. pose proof (left_same _ _ _ _ Hl) as (E1 & E2 & E3 & E4 & _).
  apply (waiting_places X X' s); try done; [by rewrite E4; apply Hw|]. rewrite (left_placed X _ _ _ _ Hl).
  unfold placed, with_skipped. cbn. rewrite HX. cbn. rewrite <-(Permutation_middle (waiting_items (skipped_waiting s1))).
  rewrite <-(Permutation_middle (waiting_items (waiting s1))). by rewrite <-Permutation_middle.
Qed.

(** A request in a queue is unfinished and not running. *)
Lemma queue_request X q id s : waiting_inv X s → id ∈ waiting_items (queue_of q s) →
  ∃ r, od_get id (requests s) = Some r ∧ unfinished r ∧ id ∉ running s ∧ tokens_ok (config s) r ∧ request_id (req r) = id.
Proof.
  intros [Hs _ _] Hid. assert (id ∈ placed (with_skipped X s)) as Hp.
  { unfold placed. cbn. destruct q; cbn in Hid; set_solver. }
  pose proof Hp as Hp'. apply (iv_placed _ Hs) in Hp as (r & Hr & Hu). exists r. split_and!; try done.
  - intros Hrun. pose proof (iv_nodup _ Hs) as Hnd. unfold placed in Hnd. cbn in Hnd. apply NoDup_app in Hnd as (_ & Hd & _).
    apply (Hd _ Hrun). destruct q; cbn in Hid; set_solver.
  - by apply (iv_tokens _ Hs id).
  - by apply (iv_id _ Hs).
Qed.

Lemma left_in q id s s1 : left_queue q id s s1 → id ∈ waiting_items (queue_of q s).
Proof. intros (v & _ & Hv). rewrite Hv. by left. Qed.

(** ** Promotion *)
(** Neither the queues, the running list nor its requests have changed. *)
Record quiet s s' : Prop := {
  qu_same : (config s', waiting s', skipped_waiting s', running s', pause_state s')
            = (config s, waiting s, skipped_waiting s, running s, pause_state s);
  qu_running id : id ∈ running s → od_get id (requests s') = od_get id (requests s)
}.

Lemma quiet_same s : quiet s s.
Proof. done. Qed.
Lemma quiet_then s1 s2 s3 : quiet s1 s2 → quiet s2 s3 → quiet s1 s3.
Proof.
  intros [E1 R1] [E2 R2]. split; [congruence|]. intros id Hid. injection E1 as _ _ _ E1 _. rewrite R2, R1; [done..|].
  by rewrite E1.
Qed.
Lemma quiet_frame s s' : frame s s' → quiet s s'.
Proof. intros Hf. injection Hf as E1 E2 E3 E4 E5 E6 E7 E8 E9 E10. split; [congruence|]. intros id _. by rewrite E2. Qed.

Lemma quiet_queue q s s' : quiet s s' → queue_of q s' = queue_of q s.
Proof. intros [E' _]. injection E' as E1 E2 E3 E4 E5. by destruct q. Qed.

(** A waiting request is updated. *)
Record waits cfg r r' : Prop := {
  wa_id : request_id (req r') = request_id (req r);
  wa_unfinished : unfinished r';
  wa_status : status (req r') ≠ RUNNING;
  wa_tokens : tokens_ok cfg r → tokens_ok cfg r'
}.

Lemma waiting_update X s id f r : waiting_inv X s → od_get id (requests s) = Some r → unfinished r → status (req r) ≠ RUNNING →
  waits (config s) r (f r) →
  waiting_inv X (put_requests (od_alter f id (requests s)) s) ∧ quiet s (put_requests (od_alter f id (requests s)) s).
Proof.
  intros [Hs Hset Hpl] Hr Hu Hst [W1 W2 W3 W4]. assert (id ∉ running s) as Hrun.
  { intros Hrun. by apply (iv_running _ Hs id r Hr) in Hrun. }
  split; [split; [|done|done]|split; [done|]].
  - eapply (sched_inv_update (with_skipped X s) _ id f); try done. intros r' Hr'. assert (r' = r) as -> by (cbn in Hr'; congruence).
    split; [done|done|by intros _; apply W4|]. cbn. split; [by intros ?|done].
  - intros j Hj. cbn. rewrite od_get_alter. case_decide as E'; [by subst|done].
Qed.

Lemma waiting_same X s s' : waiting_inv X s → config s' = config s → requests s' = requests s → waiting s' = waiting s →
  skipped_waiting s' = skipped_waiting s → running s' = running s → allocator s' = allocator s → waiting_inv X s'.
Proof.
  intros Hw E1 E2 E3 E4 E5 E6. apply (waiting_places X X s); try done.
  - pose proof (wi_settings _ _ Hw). unfold settings_ok in *. by rewrite E6.
  - unfold placed, with_skipped. cbn. by rewrite E3, E4, E5.
Qed.

Lemma wp_update_remote_kv X id s r : waiting_inv X s → od_get id (requests s) = Some r → status (req r) = WAITING_FOR_REMOTE_KVS →
  wp (update_waiting_for_remote_kv set_order id)
    (λ _ s', waiting_inv X s' ∧ quiet s s' ∧ ∃ r', od_get id (requests s') = Some r' ∧ status (req r') = WAITING_FOR_REMOTE_KVS
       ∧ request_id (req r') = request_id (req r)) E s.
Proof.
  intros Hs Hr Hst. unfold update_waiting_for_remote_kv. apply wp_bind, (wp_get_request _ _ r); [done|]. apply wp_get.
  apply wp_bind, wp_assert; [intros _|done].
  eapply (wp_step _ _ _ (λ _ s', waiting_inv X s' ∧ quiet s s' ∧ ∃ r', od_get id (requests s') = Some r'
    ∧ status (req r') = WAITING_FOR_REMOTE_KVS ∧ request_id (req r') = request_id (req r))).
  - apply wp_if; intros _.
    + eapply (wp_step _ _ _ (λ _ s', frame s s' ∧ settings_ok s')).
      { apply wp_if; intros _; [apply any_kv, Hs|]. apply wp_part; [apply any_kv, Hs|]. intros _ s1 F1 S1.
        eapply wp_mono; [apply any_controller; [apply steady_release|done]| |done]. intros _ s2 [F2 S2].
        split; [by eapply frame_then|done]. }
      intros _ s1 [F1 S1]. apply wp_modify. pose proof (waiting_frame _ _ _ Hs F1 S1) as Hs1. split_and!.
      * by eapply waiting_same.
      * eapply quiet_then; [by apply quiet_frame|done].
      * injection F1 as _ E2 _ _ _ _ _ _ _ _. exists r. cbn. by rewrite E2.
    + apply wp_part; [apply any_kv, Hs|]. intros _ s1 F1 S1. pose proof (waiting_frame _ _ _ Hs F1 S1) as Hs1.
      pose proof (quiet_frame _ _ F1) as Q1. injection F1 as E1 E2 _ _ _ _ _ _ _ _. apply wp_if; intros _.
      * apply wp_alter_request. destruct (waiting_update X s1 id (on_req (put_num_computed_tokens (num_tokens (req r) - 1))) r) as [H1 H2].
        -- done.
        -- by rewrite E2.
        -- unfold unfinished, is_finished. by rewrite Hst.
        -- by rewrite Hst.
        -- split; try done; [unfold unfinished, is_finished; cbn; by rewrite Hst|cbn; by rewrite Hst|].
           intros (T1 & T2 & T3 & T4 & T5). unfold tokens_ok. cbn. change (num_tokens (put_num_computed_tokens (num_tokens (req r) - 1) (req r))) with (num_tokens (req r)).
           split_and!; [lia..|done].
        -- split_and!; [done|by eapply quiet_then|]. cbn. rewrite od_get_alter, decide_True, E2, Hr by done. by eexists.
      * apply wp_ret. split_and!; [done|done|]. exists r. by rewrite E2.
  - intros _ s1 (Hs1 & Q1 & Hr1). apply wp_get. apply wp_if; intros _; [|done]. apply wp_modify. split_and!; [by eapply waiting_same| |done].
    eapply quiet_then; [exact Q1|done].
Qed.

Lemma wp_promote X id s : waiting_inv X s →
  wp (try_promote_blocked_waiting_request set_order id) (λ _ s', waiting_inv X s' ∧ quiet s s') E s.
Proof.
  intros Hs. unfold try_promote_blocked_waiting_request. destruct (od_get id (requests s)) as [r|] eqn:Hr.
  2:{ apply wp_bind. unfold get_request. apply wp_get. by rewrite Hr. }
  apply wp_bind, (wp_get_request _ _ r); [done|]. destruct (status (req r)) eqn:Hst; try done.
  - apply wp_if; intros _; [by apply wp_ret|]. apply wp_bind, wp_alter_request, wp_ret.
    apply (waiting_update X s id _ r); [done|done|unfold unfinished, is_finished; by rewrite Hst|by rewrite Hst|]. by split.
  - apply wp_get. apply wp_if; intros _; [by apply wp_ret|].
    eapply wp_step; [by apply (wp_update_remote_kv X id s r)|]. intros _ s1 (Hs1 & Q1 & r1 & Hr1 & Hst1 & Hid1).
    apply wp_bind, wp_alter_request, wp_ret.
    edestruct (waiting_update X s1 id (on_req (put_status (if truthy (num_preemptions (req r)) then PREEMPTED else WAITING))) r1) as [H1 H2];
      [done|done|unfold unfinished, is_finished; by rewrite Hst1|by rewrite Hst1| |split; [done|by eapply quiet_then]].
    split; try done; cbn; by destruct (truthy _).
Qed.

(** A blocked request that is promoted, or one that is not blocked. *)
Lemma wp_ready X id s r : waiting_inv X s → 
  wp (if is_blocked_waiting_status (status (req r)) then try_promote_blocked_waiting_request set_order id else mret true)
    (λ _ s', waiting_inv X s' ∧ quiet s s') E s.
Proof. intros Hs. apply wp_if; intros _; [by apply wp_promote|by apply wp_ret]. Qed.
End waiting.
