(* ===== verification/SchedulerAdmit.v ===== *)
(** * The waiting phase: one admission

    One round of the loop over the waiting requests: the choice of a request,
    what is cached of it, the tokens it gets, its admission.  A round keeps
    every unfinished request in one place and the budgets of the step, and
    takes one request out of the queues. *)
From S2P Require Import Prelude Hoare PyFloat Metrics Request BlockPool KVCache Scoring Scheduling.
From S2P Require Import Config EncoderCache RequestQueue QueueLaws Pressure ControllerSteady Scheduler SchedulerFacts.
From S2P Require Import SchedulerAny SchedulerStep SchedulerWaiting.
Import Sched Step.
Local Open Scope Z_scope.

Section admissions.
Context {F : Type} `{FO : FloatOps F} `{FL : FloatLog1p F}.
Context {C : Type} `{KC : KVConnector F C}.
Context (lt_id : bool) (time_time time_monotonic : nat → F) (set_order : gset string → list string).
Context (tokens : Z) {ids : list string}.
Notation State := (SchedulerState (F := F) (C := C)).
Notation E := (raises True).
Notation waiting_inv := (waiting_inv (ids := ids)).
Implicit Types (s : State) (r : SchedRequest F) (p : Step) (m : Admission) (X : WaitQueue).

(** ** What the step has scheduled *)
Definition drafts p id : list Z := default [] (od_get id (scheduled_spec_decode_tokens p)).

Record plan_ok p s : Prop := {
  pl_keys : od_keys (num_scheduled_tokens p) ≡ₚ scheduled_running_reqs p ++ scheduled_new p ++ scheduled_resumed p;
  pl_wf : od_wf (num_scheduled_tokens p);
  pl_blocks id n : od_get id (num_scheduled_tokens p) = Some n → is_Some (od_get id (req_to_new_blocks p));
  pl_budget : token_budget p + sumZ (od_values (num_scheduled_tokens p)) = tokens;
  pl_left : 0 ≤ token_budget p;
  pl_prefill : 0 ≤ prefill_budget p;
  pl_tokens id n : od_get id (num_scheduled_tokens p) = Some n →
    1 ≤ n ∧ id ∈ running s ∧ ∃ r, od_get id (requests s) = Some r
      ∧ num_computed_tokens (req r) + n ≤ num_tokens (req r) + num_output_placeholders r + zlen (drafts p id)
      ∧ num_computed_tokens (req r) + n ≤ sched_max_model_len (config s) - 1;
  pl_max : zlen (running s) ≤ max_num_running_reqs (config s)
}.

(** Neither the running list nor its requests have changed, and no request
    has joined the queues. *)
Record calm s s' : Prop := {
  ca_same : (config s', running s', pause_state s') = (config s, running s, pause_state s);
  ca_running id : id ∈ running s → od_get id (requests s') = od_get id (requests s);
  ca_queued : (queued s' ≤ queued s)%nat
}.

Lemma calm_quiet s s' : quiet s s' → calm s s'.
Proof.
  intros [E' Hr]. injection E' as E1 E2 E3 E4 E5. split; [congruence|done|]. unfold queued. by rewrite E2, E3.
Qed.
Lemma calm_trans s1 s2 s3 : calm s1 s2 → calm s2 s3 → calm s1 s3.
Proof.
  intros [E1 R1 Q1] [E2 R2 Q2]. split; [congruence| |lia]. intros id Hid. injection E1 as _ E1 _.
  rewrite R2, R1; [done..|]. by rewrite E1.
Qed.
Lemma calm_left q id s s1 : left_queue q id s s1 → calm s s1 ∧ queued s = S (queued s1).
Proof.
  intros Hl. pose proof (left_same _ _ _ _ Hl) as (E1 & E2 & E3 & _ & Hq & E4). split; [|done].
  split; [congruence|intros; by rewrite E2|lia].
Qed.

Lemma plan_same p s s' : plan_ok p s → config s' = config s → running s' = running s →
  (∀ id, id ∈ running s → od_get id (requests s') = od_get id (requests s)) → plan_ok p s'.
Proof.
  intros [K1 K2 K3 K4 K5 K6 K7 K8] E1 E2 Hr. split; rewrite ?E1, ?E2; try done.
  intros id n Hn. destruct (K7 id n Hn) as (? & Hin & r & Hg & ?). split; [done|]. split; [done|]. exists r. by rewrite Hr.
Qed.

Lemma plan_calm p s s' : plan_ok p s → calm s s' → plan_ok p s'.
Proof. intros Hp [E' Hr _]. injection E' as E1 E2 E3. by eapply plan_same. Qed.

(** A turn of the loop: the same second chances. *)
Definition same_turn m m' : Prop :=
  borrow_reserved m' = borrow_reserved m ∧ reservation_deferred m' = reservation_deferred m.

Lemma wp_request id s (Q : SchedRequest F → State → Prop) :
  (∀ r, od_get id (requests s) = Some r → Q r s) → wp (get_request id) Q E s.
Proof.
  intros HQ. unfold get_request. apply wp_get. destruct (od_get id (requests s)) as [r|]; [by apply HQ|done].
Qed.

Lemma any_connector {A} (x : A) c s : settings_ok s → wp (on_connector x c) (λ _ s', frame s s' ∧ settings_ok s') E s.
Proof. intros Hs. unfold wp, on_connector. destruct (connector s); [|done]. unfold zoom. by destruct (c _). Qed.

(** A request leaves its queue for the skipped ones. *)
Lemma wp_skip q id m s Q (c : M State unit) :
  waiting_inv (step_skipped_waiting m) s → wp c (λ _, left_queue q id s) E s →
  (∀ v s', waiting_inv v s' → calm s s' → queued s = S (queued s') → Q (put_step_skipped v m) s') →
  wp (c ;; skip_request lt_id id m) Q E s.
Proof.
  intros Hs Hc HQ. eapply wp_step; [exact Hc|]. intros [] s1 Hl. apply wp_skip_request. intros v Hv.
  destruct (calm_left _ _ _ _ Hl). apply HQ; try done. by eapply skipped_placed.
Qed.

(** The rest of a computation after the skip. *)
Lemma bind_assoc {A B D} (c : M State A) (f : A → M State B) (g : B → M State D) s :
  ((c ≫= f) ≫= g) s = (c ≫= (λ x, f x ≫= g)) s.
Proof. rewrite !bind_unfold. destruct (c s); [|done]. by rewrite bind_unfold. Qed.

Lemma wp_skip_then {A} q id m s Q (c : M State unit) (k : Admission → M State A) :
  waiting_inv (step_skipped_waiting m) s → wp c (λ _, left_queue q id s) E s →
  (∀ v s', waiting_inv v s' → calm s s' → queued s = S (queued s') → wp (k (put_step_skipped v m)) Q E s') →
  wp (c ;; m ← skip_request lt_id id m; k m) Q E s.
Proof.
  intros Hs Hc HQ. eapply wp_step; [exact Hc|]. intros [] s1 Hl. apply wp_bind, wp_skip_request. intros v Hv.
  destruct (calm_left _ _ _ _ Hl). apply HQ; try done. by eapply skipped_placed.
Qed.

(** ** The choice *)
Lemma wp_resolve candidates : ∀ best eligible m s, waiting_inv (step_skipped_waiting m) s →
  wp (resolve_candidates lt_id set_order candidates best eligible m)
    (λ x s', waiting_inv (step_skipped_waiting x.2) s' ∧ calm s s' ∧ same_turn m x.2) E s.
Proof.
  induction candidates as [|[id q] candidates IH]; intros best eligible m s Hs; cbn [resolve_candidates].
  { apply wp_ret. split; [done|]. split; [by apply calm_quiet|done]. }
  eapply (wp_step _ _ _ (λ _ s', waiting_inv (step_skipped_waiting m) s' ∧ quiet s s')).
  { apply wp_if; intros _; [by apply wp_ret|]. apply wp_bind, wp_request. intros r Hr.
    eapply wp_step; [by apply wp_ready|]. intros ok s1 H1. by apply wp_get, wp_ret. }
  intros keep s1 [Hs1 Q1]. apply calm_quiet in Q1.
  assert (∀ m' s', calm s1 s' → waiting_inv (step_skipped_waiting m') s' → same_turn m m' → ∀ best eligible,
    wp (resolve_candidates lt_id set_order candidates best eligible m')
      (λ x s', waiting_inv (step_skipped_waiting x.2) s' ∧ calm s s' ∧ same_turn m x.2) E s') as Hrec.
  { intros m' s' Hc Hm' [T1 T2] best' eligible'. eapply wp_mono; [by apply IH| |done]. intros x s'' (H1 & H2 & [T3 T4]).
    split; [done|]. split; [|by split; congruence]. eapply calm_trans; [|done]. by eapply calm_trans. }
  apply wp_if; intros _.
  - apply (wp_skip_then q); [done|apply wp_remove|]. intros v s2 Hv Hc _. by apply Hrec.
  - apply wp_if; intros _; [by apply Hrec; [apply calm_quiet, quiet_same|..]|].
    unfold order_key_lt. apply wp_bind, wp_bind, wp_request. intros x _. apply wp_bind, wp_request. intros y _.
    eapply wp_mono; [apply any_controller; [|apply Hs1]| |done].
    { apply steady_get. intros k. apply steady_if; [apply steady_ret|apply steady_raise]. }
    intros before s2 [F2 S2]. apply Hrec; [by apply calm_quiet, quiet_frame|by eapply waiting_frame|done].
Qed.

Lemma wp_order_eligible X eligible s : waiting_inv X s →
  wp (order_eligible set_order eligible) (λ _ s', waiting_inv X s' ∧ calm s s') E s.
Proof.
  intros Hs. unfold order_eligible. apply wp_get. eapply wp_part; [apply any_controller; [apply steady_order_candidates|apply Hs]|].
  intros ordered s1 F1 S1. apply wp_ret. split; [by eapply waiting_frame|by apply calm_quiet, quiet_frame].
Qed.

Lemma wp_choose p id q m s : waiting_inv (step_skipped_waiting m) s → (tokencake p = false → head_of q id s) →
  wp (choose_request lt_id set_order p id q m)
    (λ x s', waiting_inv (step_skipped_waiting x.2) s' ∧ calm s s' ∧ same_turn m x.2
             ∧ (tokencake p = false → head_of x.1.2 x.1.1 s')) E s.
Proof.
  intros Hs Hh. unfold choose_request. apply wp_get. apply wp_if; intros Han.
  { apply wp_ret. split; [done|]. split; [by apply calm_quiet|done]. }
  assert (tokencake p = true) as Ht.
  { apply negb_false_iff in Han. unfold annotated in Han. by apply andb_true_iff in Han as [? _]. }
  eapply (wp_step _ _ _ (λ x s', waiting_inv (step_skipped_waiting x.2) s' ∧ calm s s' ∧ same_turn m x.2)).
  { destruct (agent_order m). { apply wp_ret. split; [done|]. split; [by apply calm_quiet|done]. }
    eapply wp_step; [by apply wp_resolve|]. intros [[best eligible] m1] s1 (Hs1 & Hc & Hm). cbn [snd] in *.
    apply wp_if; intros _; [|by apply wp_ret]. eapply wp_step; [by apply wp_order_eligible|]. intros order s2 [Hs2 Hc2].
    apply wp_ret. split; [done|]. split; [by eapply calm_trans|done]. }
  intros x s1 (Hs1 & Hc & Hm). destruct (agent_order x.2) as [[|next order]|]; [done| |]; apply wp_ret;
    (split; [done|]; split; [done|]; split; [done|]); congruence.
Qed.

(** ** What is cached *)
(** The chosen request [r], about to be scheduled from its queue. *)
Record turn p m q id r s : Prop := {
  tu_waiting : waiting_inv (step_skipped_waiting m) s;
  tu_plan : plan_ok p s;
  tu_head : tokencake p = false → head_of q id s;
  tu_request : od_get id (requests s) = Some r
}.

Lemma turn_frame p m q id r s s' : turn p m q id r s → frame s s' → settings_ok s' → turn p m q id r s' ∧ calm s s'.
Proof.
  intros [Hs Hp Hh Hr] Hf Hset. pose proof (quiet_frame _ _ Hf) as Hq. pose proof (calm_quiet _ _ Hq) as Hc. split; [|done].
  split; [by eapply waiting_frame|by eapply plan_calm| |].
  - unfold head_of. rewrite (quiet_queue q _ _ Hq). done.
  - injection Hf as _ E2 _ _ _ _ _ _ _ _. by rewrite E2.
Qed.

(** The part of an outcome all ways to end a turn share. *)
Definition turned p s p' m' s' : Prop :=
  waiting_inv (step_skipped_waiting m') s' ∧ plan_ok p' s'
  ∧ (scheduled_running_reqs p', scheduled_spec_decode_tokens p') = (scheduled_running_reqs p, scheduled_spec_decode_tokens p)
  ∧ preempted_reqs p' = preempted_reqs p ∧ config s' = config s.
Definition shorter m s m' s' : Prop :=
  (queued s' < queued s)%nat ∧ borrow_reserved m' = borrow_reserved m
  ∧ (length (reservation_deferred m') ≤ length (reservation_deferred m) + if borrow_reserved m then 0 else 1)%nat.

Lemma calm_config s s' : calm s s' → config s' = config s.
Proof. intros [E' _ _]. by injection E'. Qed.

(** The request of the turn is skipped. *)
Lemma wp_skip_turn {A} p m m1 q id r s0 s (c : M State unit) (k : Admission → M State A) Q :
  turn p m q id r s → calm s0 s → wp c (λ _, left_queue q id s) E s →
  step_skipped_waiting m1 = step_skipped_waiting m →
  borrow_reserved m1 = borrow_reserved m →
  (length (reservation_deferred m1) ≤ length (reservation_deferred m) + if borrow_reserved m then 0 else 1)%nat →
  (∀ m' s', turned p s0 p m' s' → shorter m s0 m' s' → wp (k m') Q E s') →
  wp (c ;; m ← skip_request lt_id id m1; k m) Q E s.
Proof.
  intros [Hs Hp _ _] Hc0 Hc E1 E2 Hlen Hk. apply (wp_skip_then q); [by rewrite E1|done|]. intros v s' Hv Hc1 Hq.
  apply Hk.
  - split; [done|]. split; [by eapply plan_calm|]. split; [done|]. split; [done|].
    by rewrite (calm_config _ _ Hc1), (calm_config _ _ Hc0).
  - split; [|done]. pose proof (ca_queued _ _ Hc0). lia.
Qed.

(** The tokens computed of the request are tokens of it. *)
Definition cached_ok (cfg : SchedulerConfig) r (c : Computed) : Prop :=
  tokens_ok cfg r → total_computed c ≤ num_tokens (req r) + num_output_placeholders r
                    ∧ total_computed c ≤ sched_max_model_len cfg - 1.

Lemma wp_cached p m q id r s :
  turn p m q id r s →
  wp (cached_tokens lt_id set_order p id q m)
    (λ x s', match x.1 with
             | None => turned p s p x.2 s' ∧ shorter m s x.2 s'
             | Some c => x.2 = m ∧ turn p m q id r s' ∧ calm s s' ∧ cached_ok (config s) r c
             end) E s.
Proof.
  intros Ht. unfold cached_tokens. apply wp_bind, (wp_get_request _ _ r); [apply Ht|].
  apply wp_if; intros Hz.
  { apply wp_ret. cbn. split; [done|]. split; [done|]. split; [apply calm_quiet, quiet_same|]. intros (? & ? & _). cbn. lia. }
  eapply wp_part; [apply any_kv, Ht|]. intros [blocks local] s1 F1 S1. destruct (turn_frame _ _ _ _ _ _ _ Ht F1 S1) as [Ht1 C1].
  assert (config s1 = config s) as Ecfg by (by injection F1). apply wp_get. destruct (connector s1) as [c|].
  2:{ apply wp_bind, wp_assert; [intros Hl%Z.leb_le|done]. apply wp_ret. cbn. split; [done|]. split; [done|]. split; [done|].
      intros (T1 & T2 & T3 & T4 & _). cbn. lia. }
  eapply (wp_part _ _ s1).
  { apply wp_if; intros _; [apply any_if_tokencake; [apply steady_defer_cache_lookup|done]|by apply wp_ret]. }
  intros deferred s2 F2 S2. destruct (turn_frame _ _ _ _ _ _ _ Ht1 F2 S2) as [Ht2 C2]. apply wp_if; intros _.
  - eapply wp_part; [apply any_if_tokencake; [apply steady_defer|done]|]. intros _ s3 F3 S3.
    destruct (turn_frame _ _ _ _ _ _ _ Ht2 F3 S3) as [Ht3 C3].
    eapply (wp_skip_turn p m m q id r s); try done; [|apply wp_remove|lia].
    eapply calm_trans; [exact C1|]. by eapply calm_trans.
  - eapply wp_part; [by apply any_connector|]. intros [ext async] s3 F3 S3. cbn [fst snd].
    destruct (turn_frame _ _ _ _ _ _ _ Ht2 F3 S3) as [Ht3 C3].
    assert (calm s s3) as C4 by (eapply calm_trans; [exact C1|]; by eapply calm_trans).
    destruct ext as [n|].
    + apply wp_bind, wp_assert; [intros Hl%Z.leb_le|done]. apply wp_ret. cbn. split; [done|]. split; [done|]. split; [done|].
      intros (T1 & T2 & T3 & T4 & _). cbn. lia.
    + eapply (wp_skip_turn p m m q id r s); try done; [|lia].
      apply wp_leave, Ht3.
Qed.

(** ** The tokens of an admission *)
Lemma wp_mamba_any s (x : Request F) n l e : config_ok (config s) → 0 ≤ n →
  wp (mamba_block_aligned_split x n l e) (λ n' s', s' = s ∧ 0 ≤ n' ≤ n) E s.
Proof.
  intros (_ & _ & _ & Hbs) Hn. unfold mamba_block_aligned_split. apply wp_bind, wp_assert; [intros _|done]. apply wp_get.
  cbv zeta. apply wp_if; intros _; [|by apply wp_ret].
  set (last_pos := if use_eagle (config s) then _ else _). set (computed := num_computed_tokens x + l + e).
  destruct (Z.ltb_spec (computed + n) last_pos).
  - apply wp_ret. split; [done|]. pose proof (Z.div_mod n (cache_block_size (config s)) ltac:(lia)).
    pose proof (Z.mod_pos_bound n (cache_block_size (config s)) Hbs). pose proof (Z.div_pos n _ Hn Hbs). nia.
  - apply wp_if; intros Hb; apply wp_ret; (split; [done|]); [|lia].
    apply andb_true_iff in Hb as [H1'%Z.ltb_lt H2'%Z.ltb_lt]. lia.
Qed.

Lemma any_plan x c n b s : settings_ok s → 0 ≤ n →
  wp (encoder_plan x c n b) (λ plan s', frame s s' ∧ settings_ok s' ∧ 0 ≤ new_tokens plan ≤ n
    ∧ (has_encoder_inputs x = false → new_tokens plan = n)) E s.
Proof.
  intros Hs Hn. unfold encoder_plan. destruct (has_encoder_inputs x); [|apply wp_ret; cbn; split; [done|]; split; [done|]; lia].
  apply wp_get. unfold on_encoder. apply wp_zoom. eapply wp_mono; [by apply (wp_try_schedule (T := EncoderCacheManager) _ x)| |done].
  intros plan e [Hp _]. done.
Qed.

(** What is asked of the tokens of the request [x]. *)
Definition tokens_good p (x : Request F) (c : Computed) (t : Tokens) : Prop :=
  match t with
  | Tokens_of n limited plan =>
      load_kv_async c = false → 1 ≤ n ≤ token_budget p ∧ total_computed c + n ≤ num_tokens x
        ∧ (limited = true → n ≤ prefill_budget p)
  | _ => True
  end.

Lemma threshold_le cfg n : threshold_cap cfg n ≤ n.
Proof.
  unfold threshold_cap. destruct (_ && _) eqn:Hb; [|lia]. apply andb_true_iff in Hb as [_ Hb%Z.ltb_lt]. lia.
Qed.

Lemma wp_tokens p (x : Request F) c s :
  settings_ok s → config_ok (config s) → 0 ≤ prefill_budget p →
  wp (admission_tokens p x c) (λ t s', frame s s' ∧ settings_ok s' ∧ tokens_good p x c t) E s.
Proof.
  intros Hs Hcfg Hpre. unfold admission_tokens. apply wp_get.
  eapply (wp_step _ _ _ (λ t s', (frame s s' ∧ settings_ok s') ∧ tokens_good p x c t
    ∧ match t with Tokens_of n _ _ => 0 ≤ n | _ => True end)).
  { apply wp_if; intros Hasync.
    { apply wp_bind, wp_assert; [intros _|done]. apply wp_ret. split; [done|]. cbn. split; [congruence|lia]. }
    cbv zeta. set (n0 := threshold_cap _ _). apply wp_if; intros _; [by apply wp_ret|].
    apply wp_bind, wp_assert; [intros Hn0%Z.ltb_lt|done]. pose proof (threshold_le (config s) (num_tokens x - total_computed c)) as Hle.
    fold n0 in Hle. set (n1 := Z.min n0 (token_budget p)) in *. set (limited := limited_prefill p x true n1 s).
    eapply (wp_step _ _ _ (λ n s', (frame s s' ∧ settings_ok s') ∧ 0 ≤ n ≤ n1 ∧ (limited = true → n ≤ prefill_budget p)
      ∧ (limited = false → n = n1))).
    { destruct limited eqn:Hlim; [|apply wp_ret; split; [done|]; lia]. eapply wp_mono; [by apply any_cap| |done].
      intros n s' (F1 & S1 & ->). split; [done|]. unfold limited, limited_prefill in Hlim. destruct (tokencake p); [|done].
      destruct (allocator s); [done|]. lia. }
    intros n s1 ([F1 S1] & Hn & Hlim & Hnl). apply wp_if; intros Hz; [by apply wp_ret|].
    eapply wp_step; [apply any_plan; [done|lia]|]. intros plan s2 (F2 & S2 & Hp & Htext). pose proof (frame_then _ _ _ F1 F2) as F3.
    apply wp_if; intros Hz2; apply wp_ret; (split; [done|]); [done|]. split; [|lia]. intros _.
    assert (0 < n). { destruct limited; [|rewrite Hnl by done; lia]. cbn in Hz. apply Z.eqb_neq in Hz. lia. }
    assert (0 < new_tokens plan).
    { destruct (has_encoder_inputs x); [cbn in Hz2; apply Z.eqb_neq in Hz2; lia|]. rewrite Htext by done. done. }
    split; [lia|]. split; [lia|]. intros Hl. specialize (Hlim Hl). lia. }
  intros t s1 ([F1 S1] & Hg & Hn). destruct t as [n limited plan| |]; [|by apply wp_ret..].
  assert (config s1 = config s) as Ec by (by injection F1).
  apply wp_if; intros _; [|by apply wp_ret]. eapply wp_step; [apply wp_mamba_any; [by rewrite Ec|done]|].
  intros n' ? [-> Hn']. apply wp_ret. split; [done|]. split; [done|].
  destruct (Z.eqb_spec n' 0); [done|]. intros Ha. destruct (Hg Ha) as (G1 & G2 & G3). split; [lia|]. split; [lia|].
  intros Hl. specialize (G3 Hl). lia.
Qed.
End admissions.
