(* ===== verification/SchedulerLoop.v ===== *)
(** * The waiting phase: the loop

    An admitted request joins the running list with the tokens it was given;
    every round of the loop takes a request out of the queues, so that the loop
    ends, whatever the requests. *)
From S2P Require Import Prelude Hoare PyFloat Metrics Request BlockPool KVCache Scoring Scheduling.
From S2P Require Import Config EncoderCache RequestQueue QueueLaws Pressure ControllerSteady Scheduler SchedulerFacts.
From S2P Require Import SchedulerAny SchedulerStep SchedulerWaiting SchedulerAdmit.
Import Sched Step.
Local Open Scope Z_scope.

Section loop.
Context {F : Type} `{FO : FloatOps F} `{FL : FloatLog1p F}.
Context {C : Type} `{KC : KVConnector F C}.
Context (lt_id : bool) (time_time time_monotonic : nat → F) (set_order : gset string → list string).
Context (tokens : Z) {ids : list string}.
Notation State := (SchedulerState (F := F) (C := C)).
Notation E := (raises True).
Notation waiting_inv := (waiting_inv (ids := ids)).
Notation plan_ok := (plan_ok tokens).
Notation turn := (turn tokens (ids := ids)).
Notation turned := (turned tokens (ids := ids)).
Implicit Types (s : State) (r : SchedRequest F) (p : Step) (m : Admission) (X : WaitQueue).

(** ** Admission *)
Lemma waiting_perm X X' s : waiting_items X' ≡ₚ waiting_items X → waiting_inv X s → waiting_inv X' s.
Proof.
  intros HX Hw. apply (waiting_places X X' s); try done; [by apply Hw|].
  unfold placed, with_skipped. cbn. by rewrite HX.
Qed.

(** The request joins the running list. *)
Definition admitted_of (n : Z) : SchedRequest F → SchedRequest F :=
  on_req (λ x, put_num_computed_tokens n (put_status RUNNING x)).

Lemma joins_running X q id r n s s1 :
  waiting_inv X s → left_queue q id s s1 → od_get id (requests s) = Some r → tokens_ok (config s) (admitted_of n r) →
  waiting_inv X (put_requests (od_alter (admitted_of n) id (requests s1)) (put_running (running s1 ++ [id]) s1)).
Proof.
  intros Hw Hl Hr Htok. destruct (queue_request _ _ _ _ Hw (left_in _ _ _ _ Hl)) as (r' & Hr' & Hu & Hrun & _).
  assert (r' = r) as -> by congruence. pose proof (left_same _ _ _ _ Hl) as (E1 & E2 & E3 & E4 & _).
  destruct Hw as [Hs Hset Hpl]. assert (placed (with_skipped X (put_requests (od_alter (admitted_of n) id (requests s1))
    (put_running (running s1 ++ [id]) s1))) ≡ₚ placed (with_skipped X s)) as Hperm.
  { rewrite (left_placed X _ _ _ _ Hl). unfold placed. cbn. rewrite <-(assoc_L (++)). cbn. by rewrite <-Permutation_middle. }
  split; [|unfold settings_ok in *; cbn; by rewrite E4|by rewrite Hperm].
  eapply (sched_inv_update (with_skipped X s) _ id (admitted_of n)); [done|exact E1| | | |].
  - cbn. by rewrite E2.
  - exact Hperm.
  - intros r2 Hr2. assert (r2 = r) as -> by (cbn in Hr2; congruence). split; [done|done|done|]. cbn.
    split; [done|]. intros _. apply elem_of_app. right. by left.
  - intros j Hj. cbn. rewrite E3, elem_of_app, list_elem_of_singleton. naive_solver.
Qed.

(** The step with the request [x] scheduled for [n] tokens. *)
Lemma plan_admitted p s s' (x : Request F) resumed limited n blocks inputs b id r' :
  plan_ok p s → request_id x = id → id ∉ running s → config s' = config s → running s' = running s ++ [id] →
  (∀ j, j ∈ running s → od_get j (requests s') = od_get j (requests s)) →
  od_get id (requests s') = Some r' →
  1 ≤ n ≤ token_budget p → (limited = true → n ≤ prefill_budget p) →
  num_computed_tokens (req r') + n ≤ num_tokens (req r') → num_tokens (req r') ≤ sched_max_model_len (config s) - 1 →
  0 ≤ num_output_placeholders r' → zlen (running s) ≠ max_num_running_reqs (config s) →
  plan_ok (schedule_waiting x resumed limited n blocks inputs b p) s'.
Proof.
  intros [K1 K2 K3 K4 K5 K6 K7 K8] Hx Hid Ec Er Hold Hr' Hn Hlim Hroom Hlen Hph Hmax.
  assert (od_get id (num_scheduled_tokens p) = None) as Hnone.
  { destruct (od_get id (num_scheduled_tokens p)) as [k|] eqn:Hk; [|done]. by destruct (K7 _ _ Hk) as (_ & ? & _). }
  unfold schedule_waiting. rewrite Hx.
  split; cbn [num_scheduled_tokens scheduled_running_reqs scheduled_new scheduled_resumed req_to_new_blocks token_budget prefill_budget].
  - rewrite od_set_new by done. unfold od_keys in *. rewrite fmap_app, K1. cbn. destruct resumed; rewrite !(assoc_L (++)); [done|].
    rewrite <-!(assoc_L (++)). by rewrite (comm (++) [id]).
  - by apply od_wf_set.
  - intros j k. rewrite !od_get_set. case_decide; [by eexists|apply K3].
  - rewrite od_set_new by done. unfold od_values in *. rewrite fmap_app, sumZ_app. cbn. lia.
  - lia.
  - destruct limited; [specialize (Hlim eq_refl); lia|lia].
  - intros j k. rewrite od_get_set, Er, elem_of_app, list_elem_of_singleton, Ec. unfold drafts. cbn.
    case_decide as Hj.
    + subst j. intros [= <-]. split; [lia|]. split; [by right|]. exists r'. split; [done|]. unfold zlen. lia.
    + intros Hk. destruct (K7 _ _ Hk) as (? & ? & r & Hr & ?). split; [done|]. split; [by left|]. exists r. by rewrite Hold.
  - rewrite Er, Ec. unfold zlen in *. rewrite length_app. cbn. lia.
Qed.

Lemma wp_admit p m q id r s c n limited plan k :
  turn p m q id r s → cached_ok (config s) r c → tokens_good p (req r) c (Tokens_of n limited plan) →
  zlen (running s) ≠ max_num_running_reqs (config s) →
  wp (complete_admission lt_id time_monotonic set_order p id q c n limited plan k m)
    (λ x s', turned p s x.1 x.2 s' ∧ shorter m s x.2 s') E s.
Proof.
  intros Ht Hc Hg Hmax. unfold complete_admission. apply wp_bind, (wp_get_request _ _ r); [apply Ht|].
  eapply (wp_part _ _ s).
  { apply wp_if; intros _; [|by apply wp_ret; split; [|apply Ht]]. eapply wp_part; [apply any_controller; [apply steady_commit|apply Ht]|].
    intros _ s1 F1 S1. eapply wp_mono; [apply any_controller; [apply steady_cache_hits|done]| |done].
    intros _ s2 [F2 S2]. split; [by eapply frame_then|done]. }
  intros _ s1 F1 S1. destruct (turn_frame _ _ _ _ _ _ _ _ Ht F1 S1) as [Ht1 C1]. apply wp_get.
  eapply wp_part; [by apply any_connector|]. intros _ s2 F2 S2. destruct (turn_frame _ _ _ _ _ _ _ _ Ht1 F2 S2) as [Ht2 C2].
  pose proof (calm_trans _ _ _ C1 C2) as C3. clear Ht Ht1 C1 C2 F1 F2 S1. pose proof (ca_same _ _ C3) as Es. injection Es as Ecfg Erun _.
  destruct Ht2 as [Hw Hp Hh Hr]. eapply wp_step; [by apply wp_leave|]. intros [] s3 Hl. cbv beta in Hl.
  destruct (queue_request _ _ _ _ Hw (left_in _ _ _ _ Hl)) as (r' & Hr' & Hu & Hrun & Htok & Hid).
  assert (r' = r) as -> by congruence. clear Hr'. rewrite Ecfg in Htok. destruct (Hc Htok) as [Hc1 Hc2].
  destruct (calm_left _ _ _ _ Hl) as [Cl Hq]. pose proof (left_same _ _ _ _ Hl) as (L1 & L2 & L3 & L4 & _).
  pose proof (ca_queued _ _ C3) as Hq2. pose proof Htok as (T1 & T2 & T3 & T4 & T5).
  apply wp_if; intros Hasync.
  - (* the blocks are loaded first *)
    set (X1 := inr (mkFCFS (id :: waiting_items (step_skipped_waiting m))) : WaitQueue).
    assert (waiting_inv X1 s3) as Hw3 by (by apply (skipped_placed (step_skipped_waiting m) X1 id s2 s3 q)).
    assert (status (req r) ≠ RUNNING) as Hst.
    { intros Hst. apply Hrun. by apply (iv_running _ (wi_sched _ _ Hw) id r Hr). }
    apply wp_bind, wp_alter_request. set (s4 := put_requests _ s3).
    destruct (waiting_update (ids := ids) X1 s3 id (on_req (put_status WAITING_FOR_REMOTE_KVS)) r) as [Hw4 Q4];
      [done|by rewrite L2|done|done|by split|]. fold s4 in Hw4, Q4.
    apply wp_bind, wp_skip_request. intros v Hv. apply wp_bind, wp_alter_request. set (s5 := put_requests _ s4).
    destruct (waiting_update (ids := ids) X1 s4 id (on_req (put_num_computed_tokens (total_computed c)))
      (on_req (put_status WAITING_FOR_REMOTE_KVS) r)) as [Hw5 Q5]; try done.
    { cbn. by rewrite od_get_alter, decide_True, L2, Hr. }
    { split; try done. intros _. cbn. rewrite L1, Ecfg. unfold tokens_ok. cbn.
      change (num_tokens (put_num_computed_tokens _ _)) with (num_tokens (req r)). split_and!; [lia..|done]. }
    fold s5 in Hw5, Q5. apply wp_ret. cbn [fst snd]. pose proof (quiet_then _ _ _ Q4 Q5) as Q6. pose proof (calm_quiet _ _ Q6) as C6.
    assert (queued s5 = queued s3) as Hq3 by done.
    split.
    + split; [by apply (waiting_perm X1)|]. split; [|split; [done|]; split; [done|]].
      * eapply plan_calm; [eapply plan_calm; [exact Hp|exact Cl]|exact C6].
      * by rewrite (calm_config _ _ C6), (calm_config _ _ Cl).
    + split; [lia|]. split; [done|]. cbn. lia.
  - apply wp_bind, wp_modify. destruct (Hg Hasync) as (G1 & G2 & G3). set (s4 := put_running _ s3).
    eapply (wp_step _ _ _ (λ _ s', s' = s4)).
    { destruct (status (req r)); try done; by apply wp_ret. }
    intros resumed ? ->. apply wp_get, wp_bind, wp_alter_request. set (s5 := put_requests _ s4).
    assert (waiting_inv (step_skipped_waiting m) s5) as Hw5.
    { apply (joins_running (step_skipped_waiting m) q id r (total_computed c) s2 s3); [done..|]. unfold tokens_ok. cbn. rewrite Ecfg.
      change (num_tokens (put_num_computed_tokens _ _)) with (num_tokens (req r)). split_and!; [lia..|done]. }
    eapply wp_part; [apply any_encoder, Hw5|]. intros _ s6 F6 S6. apply wp_ret. cbn [fst snd].
    assert (step_skipped_waiting (match max_loras (config s4), lora_request (req r) with
      | Some _, Some l => put_loras ({[lora_int_id l]} ∪ scheduled_loras m) m | _, _ => m end) = step_skipped_waiting m) as Esk by by repeat case_match.
    pose proof (calm_quiet _ _ (quiet_frame _ _ F6)) as C6. pose proof (waiting_frame _ _ _ Hw5 F6 S6) as Hw6.
    assert (queued s6 ≤ queued s3)%nat as Hq6 by (pose proof (ca_queued _ _ C6); done).
    split; [|split; [lia|]; repeat case_match; split; try done; cbn; lia].
    split; [by rewrite Esk|]. split; [|split; [done|]; split; [done|]; by rewrite (calm_config _ _ C6), (L1 : config s5 = _)].
    eapply plan_calm; [|exact C6].
    eapply (plan_admitted p s2 s5 (req r) resumed limited n _ _ _ id (admitted_of (total_computed c) r)); try done.
    + cbn. by rewrite L3.
    + intros j Hj. cbn. rewrite od_get_alter, L2. case_decide as E'; [by subst|done].
    + cbn. by rewrite od_get_alter, decide_True, L2, Hr.
    + cbn. change (num_tokens (put_num_computed_tokens _ _)) with (num_tokens (req r)). rewrite Ecfg. lia.
    + by rewrite Erun, Ecfg.
Qed.

(** ** A turn *)
Lemma turn_calm m0 s0 m s m' s' :
  calm s0 s → same_turn m0 m → shorter m s m' s' → shorter m0 s0 m' s'.
Proof.
  intros Hc [E1 E2] (H1 & H2 & H3). pose proof (ca_queued _ _ Hc). split; [lia|]. split; [congruence|]. by rewrite <-E1, <-E2.
Qed.

Lemma turned_calm p s0 s p' m' s' : calm s0 s → turned p s p' m' s' → turned p s0 p' m' s'.
Proof. intros Hc (H1 & H2 & H3 & H4 & H5). split_and!; try done. by rewrite H5, (calm_config _ _ Hc). Qed.

(** How a turn ends. *)
Definition turn_over p m s (x : Step * Admission * bool) s' : Prop :=
  turned p s x.1.1 x.1.2 s' ∧ (x.2 = true → shorter m s x.1.2 s').

Lemma turn_ends p m q id r s0 s : turn p m q id r s → calm s0 s → turn_over p m s0 (p, m, false) s.
Proof.
  intros [Hw Hp _ _] Hc. split; [|done]. cbn. split; [done|]. split; [done|]. split; [done|]. split; [done|].
  by apply calm_config.
Qed.

Lemma wp_admit_request p m q id s :
  waiting_inv (step_skipped_waiting m) s → plan_ok p s → (tokencake p = false → head_of q id s) →
  zlen (running s) ≠ max_num_running_reqs (config s) →
  wp (admit_request lt_id time_monotonic set_order p id q m) (turn_over p m s) E s.
Proof.
  intros Hw Hp Hh Hmax. unfold admit_request.
  destruct (od_get id (requests s)) as [r|] eqn:Hr.
  2:{ apply wp_bind. unfold cached_tokens. apply wp_bind, wp_request. congruence. }
  eapply wp_step; [by apply (wp_cached (ids := ids) lt_id set_order tokens p m q id r)|]. intros [c m1] s1 Hc. cbn [fst snd] in Hc.
  destruct c as [c|]; [|apply wp_ret; by destruct Hc]. destruct Hc as (-> & Ht1 & C1 & Hok).
  apply wp_bind, (wp_get_request _ _ r); [apply Ht1|]. pose proof (tu_waiting _ _ _ _ _ _ _ Ht1) as Hw1.
  eapply wp_step; [apply wp_tokens; [apply Hw1|apply (iv_config _ (wi_sched _ _ Hw1))|apply (tu_plan _ _ _ _ _ _ _ Ht1)]|]. intros t s2 (F2 & S2 & Hg).
  destruct (turn_frame _ _ _ _ _ _ _ _ Ht1 F2 S2) as [Ht2 C2]. pose proof (calm_trans _ _ _ C1 C2) as C12. clear Ht1 C1 C2 Hw1 F2.
  destruct t as [n limited plan| |].
  2:{ apply wp_ret. by eapply turn_ends. }
  2:{ eapply (wp_skip_turn (ids := ids) lt_id tokens p m m q id r s); try done; [apply wp_remove|lia]. }
  apply wp_get. cbv zeta. set (lookahead := if num_computed_tokens (req r) =? 0 then _ else _).
  eapply (wp_step _ _ _ (λ _ s', s' = s2)).
  { apply wp_if; intros _; [|by apply wp_ret]. unfold embeds_of. destruct (mapM _ _); [|done]. by apply wp_bind, wp_ret, wp_ret. }
  intros k ? ->. eapply wp_part; [apply any_if_tokencake; [apply steady_can_allocate|done]|]. intros ok s3 F3 S3.
  destruct (turn_frame _ _ _ _ _ _ _ _ Ht2 F3 S3) as [Ht3 C3]. pose proof (calm_trans _ _ _ C12 C3) as C13. clear Ht2 C12 C3.
  apply wp_if; intros _.
  - eapply wp_part; [apply any_if_tokencake; [apply steady_defer|done]|]. intros _ s4 F4 S4.
    destruct (turn_frame _ _ _ _ _ _ _ _ Ht3 F4 S4) as [Ht4 C4]. pose proof (calm_trans _ _ _ C13 C4) as C14.
    eapply wp_part; [apply any_if_tokencake; [apply steady_gets|done]|]. intros reserved s5 F5 S5.
    destruct (turn_frame _ _ _ _ _ _ _ _ Ht4 F5 S5) as [Ht5 C5]. pose proof (calm_trans _ _ _ C14 C5) as C15. cbv zeta.
    eapply (wp_skip_turn (ids := ids) lt_id tokens p m _ q id r s); [done|done|apply wp_remove|by destruct (_ && _)|by destruct (_ && _)| |].
    + destruct (borrow_reserved m); cbn [negb andb]; [lia|]. destruct (reserved : bool); cbn; rewrite ?length_app; cbn; lia.
    + intros m' s' H1 H2. by apply wp_ret.
  - eapply wp_part; [by apply any_kv|]. intros new_blocks s4 F4 S4.
    destruct (turn_frame _ _ _ _ _ _ _ _ Ht3 F4 S4) as [Ht4 C4]. pose proof (calm_trans _ _ _ C13 C4) as C14.
    destruct new_blocks as [blocks|].
    + eapply wp_step; [apply (wp_admit p m q id r s4); [done| |done|]|].
      * rewrite (calm_config _ _ C14). exact Hok.
      * pose proof (ca_same _ _ C14) as Es. injection Es as -> -> _. done.
      * intros x s5 [H1 H2]. apply wp_ret. split; [by eapply turned_calm|]. intros _. by eapply (turn_calm m s m s4).
    + eapply (wp_part _ _ s4); [apply wp_if; intros _; [by apply any_encoder|by apply wp_ret]|]. intros _ s5 F5 S5.
      destruct (turn_frame _ _ _ _ _ _ _ _ Ht4 F5 S5) as [Ht5 C5]. apply wp_ret. eapply turn_ends; [done|].
      by eapply calm_trans.
Qed.

Lemma wp_admit_one p m s :
  waiting_inv (step_skipped_waiting m) s → plan_ok p s → zlen (running s) ≠ max_num_running_reqs (config s) →
  wp (admit_one lt_id time_monotonic set_order p m) (turn_over p m s) E s.
Proof.
  intros Hw Hp Hmax. unfold admit_one.
  eapply (wp_step _ _ _ (λ _ s', s' = s)).
  { unfold select_waiting_queue_for_scheduling. apply wp_get. destruct (policy (config s)).
    all: try apply wp_if; intros; try by apply wp_ret. all: try (apply wp_ret; done).
    eapply wp_step; [apply wp_peek|]. intros x ? (-> & _). eapply wp_step; [apply wp_peek|]. intros y ? (-> & _). by apply wp_ret. }
  intros qo ? ->. destruct qo as [q|]; [|done]. cbn [some_or]. apply wp_bind, wp_ret.
  eapply wp_step; [apply wp_peek|]. intros id ? (-> & Hpeek & Hin). apply wp_bind, wp_request. intros r Hr.
  eapply wp_step; [by apply wp_ready|]. intros ok s1 [Hw1 Q1]. pose proof (calm_quiet _ _ Q1) as C1.
  assert (head_of q id s1) as Hh. { unfold head_of. rewrite (quiet_queue q _ _ Q1). exact Hpeek. }
  pose proof (plan_calm _ _ _ _ Hp C1) as Hp1.
  assert (∀ m', waiting_inv (step_skipped_waiting m') s1 → same_turn m m' → ∀ v s2, waiting_inv v s2 → calm s1 s2 →
    queued s1 = S (queued s2) → ∀ x, step_skipped_waiting x = v → same_turn m' x → turn_over p m s (p, x, true) s2) as Hover.
  { intros m' Hm' [T1 T2] v s2 Hv C2 Hq x <- [T3 T4]. pose proof (calm_trans _ _ _ C1 C2) as C3. split; cbn [fst snd].
    - split; [done|]. split; [by eapply plan_calm|]. split; [done|]. split; [done|]. by apply calm_config.
    - intros _. split; [pose proof (ca_queued _ _ C1); lia|]. split; [congruence|]. rewrite T4, T2. lia. }
  assert (wp (on_queue lt_id q (λ _, pop_request)) (λ _, left_queue q id s1) E s1) as Hpop by (apply wp_pop; exact Hh).
  apply wp_if; intros _; [|apply wp_get, wp_if; intros _].
  1,2: eapply wp_step; [exact Hpop|]; intros _x s2 Hl; cbv beta in Hl; apply wp_bind, wp_skip_request; intros v Hv;
    destruct (calm_left _ _ _ _ Hl); apply wp_ret; eapply (Hover m); try done; by eapply skipped_placed.
  eapply wp_step; [by apply wp_choose|]. intros x s2 (Hw2 & C2 & Hm2 & Hh2). pose proof (calm_trans _ _ _ C1 C2) as C12.
  eapply wp_mono; [apply wp_admit_request; [done|by eapply plan_calm|done|]| |done].
  { pose proof (ca_same _ _ C12) as Es. injection Es as -> -> _. done. }
  intros y s3 [H1 H2]. split; [by eapply turned_calm|]. intros Hy. eapply (turn_calm m s x.2 s2); [done|done|by apply H2].
Qed.

(** ** The loop *)
(** What bounds the rounds: the requests queued count twice as long as those
    deferred may come back. *)
Definition measure m s : nat :=
  (if borrow_reserved m then 1 else 2) * queued s + length (reservation_deferred m).

Lemma shorter_measure m s m' s' : shorter m s m' s' → (measure m' s' < measure m s)%nat.
Proof. intros (H1 & H2 & H3). unfold measure. rewrite H2. destruct (borrow_reserved m); lia. Qed.

Lemma wp_return_deferred l : ∀ m s p,
  waiting_inv (step_skipped_waiting m) s → plan_ok p s →
  wp (return_deferred lt_id l m)
    (λ m' s', waiting_inv (step_skipped_waiting m') s' ∧ plan_ok p s' ∧ queued s' = (queued s + length l)%nat
      ∧ config s' = config s ∧ running s' = running s) E s.
Proof.
  induction l as [|id l IH]; intros m s p Hw Hp; cbn [return_deferred].
  { apply wp_ret. split_and!; try done; lia. }
  pose proof (waiting_laws (queue_lt lt_id s)) as HL.
  apply wp_bind. unfold wp at 1. unfold on_step_skipped.
  destruct (decide (id ∈ waiting_items (step_skipped_waiting m))) as [Hin|Hout].
  2:{ by destruct (remove_absent_law id _ Hout) as [e ->]. }
  destruct (remove_law id _ Hin) as (v & -> & Hv). apply wp_bind.
  destruct (add_law id (waiting s)) as (v' & Hadd & Hv'). eapply wp_on_queue; [exact Hadd|]. set (s1 := put_queue Waiting v' s).
  assert (queued s1 = S (queued s)) as Hq. { apply Permutation_length in Hv'. unfold queued. cbn in *. lia. }
  eapply wp_mono; [apply (IH _ s1 p)| |done].
  - apply (waiting_places (step_skipped_waiting m) _ s); try done; [apply Hw|].
    unfold placed. cbn. rewrite Hv, Hv'. cbn. by rewrite <-!Permutation_middle.
  - by apply (plan_same _ p s).
  - intros m' s' (H1 & H2 & H3 & H4 & H5). split_and!; try done. cbn. lia.
Qed.

Definition pending s : bool := nonempty (waiting s) || nonempty (skipped_waiting s).

Lemma not_pending s : pending s = false → queued s = 0%nat.
Proof.
  unfold pending, queued. rewrite !nonempty_items. intros [H1 H2]%orb_false_iff. apply negb_false_iff in H1, H2.
  apply bool_decide_eq_true in H1, H2. by rewrite H1, H2.
Qed.

(** The deferred requests come back when no other is left. *)
Definition second_turn (more : bool) m : M State Admission :=
  if more then mret m
  else
    m' ← return_deferred lt_id (reservation_deferred m) m;
    mret (put_agent_order None (put_borrow_reserved true (put_deferred [] m'))).

Definition turn_done p m s (x : Step * Admission * bool) s' : Prop :=
  turned p s x.1.1 x.1.2 s' ∧ (x.2 = true → (measure x.1.2 s' < measure m s)%nat).

Lemma wp_turn p m s :
  waiting_inv (step_skipped_waiting m) s → plan_ok p s → zlen (running s) ≠ max_num_running_reqs (config s) →
  wp (m' ← second_turn (pending s) m; admit_one lt_id time_monotonic set_order p m') (turn_done p m s) E s.
Proof.
  intros Hw Hp Hmax. apply wp_bind. unfold second_turn. apply wp_if; intros Hpend.
  - apply wp_ret. eapply wp_mono; [by apply wp_admit_one| |done]. intros x s' [H1 H2]. split; [done|].
    intros Hx. by apply shorter_measure, H2.
  - eapply wp_step; [by apply wp_return_deferred|]. intros m1 s1 (Hw1 & Hp1 & Hq1 & Hc1 & Hr1). apply wp_ret.
    eapply wp_mono; [apply wp_admit_one; [done|done|by rewrite Hc1, Hr1]| |done]. intros x s' [(T1 & T2 & T3 & T4 & T5) H2].
    split; [split_and!; try done; congruence|]. intros Hx. specialize (H2 Hx). apply shorter_measure in H2.
    unfold measure in H2 at 2. cbn in H2. rewrite Hq1, not_pending in H2 by done. unfold measure at 2. lia.
Qed.

Notation phase := (waiting_phase lt_id time_monotonic set_order).

Definition phase_round (rest : Step → Admission → M State (Step * Admission)) p m s : M State (Step * Admission) :=
  if negb ((pending s || negb (bool_decide (reservation_deferred m = []))) && (0 <? token_budget p)) then mret (p, m)
  else if zlen (running s) =? max_num_running_reqs (config s) then mret (p, m)
  else
    x ← (m' ← second_turn (pending s) m; admit_one lt_id time_monotonic set_order p m');
    let '(p, m, go) := x in
    if go : bool then rest p m else mret (p, m).

Lemma phase_unfold fuel p m s : phase (S fuel) p m s = phase_round (phase fuel) p m s s.
Proof.
  cbn [waiting_phase]. rewrite get_bind. unfold phase_round. fold (pending s).
  destruct (negb _); [done|]. destruct (_ =? _); [done|]. by rewrite bind_assoc.
Qed.

Lemma turned_trans p s p1 m1 s1 p2 m2 s2 : turned p s p1 m1 s1 → turned p1 s1 p2 m2 s2 → turned p s p2 m2 s2.
Proof. intros (H1 & H2 & H3 & H4 & H5) (K1 & K2 & K3 & K4 & K5). split_and!; try done; congruence. Qed.

Lemma wp_phase_round rest p m s : waiting_inv (step_skipped_waiting m) s → plan_ok p s →
  (∀ p1 m1 s1, turned p s p1 m1 s1 → wp (rest p1 m1) (λ x s', turned p s x.1 x.2 s') E s1) →
  wp (phase_round rest p m s) (λ x s', turned p s x.1 x.2 s') E s.
Proof.
  intros Hw Hp Hrest. unfold phase_round.
  apply wp_if; intros _; [by apply wp_ret|]. apply wp_if; intros Hmax; [by apply wp_ret|]. apply Z.eqb_neq in Hmax.
  eapply wp_step; [by apply wp_turn|]. intros [[p1 m1] go] s1 [H1 _]. cbn [fst snd] in H1.
  apply wp_if; intros _; [by apply Hrest|by apply wp_ret].
Qed.

(** The loop keeps what every turn keeps. *)
Lemma wp_phase fuel : ∀ p m s, waiting_inv (step_skipped_waiting m) s → plan_ok p s →
  wp (phase fuel p m) (λ x s', turned p s x.1 x.2 s') E s.
Proof.
  induction fuel as [|fuel IH]; intros p m s Hw Hp.
  - cbn [waiting_phase]. apply wp_get. repeat (apply wp_if; intros _); [by apply wp_ret..|done].
  - unfold wp. rewrite phase_unfold. apply (wp_phase_round _ p m s Hw Hp). intros p1 m1 s1 H1.
    pose proof H1 as (Hw1 & Hp1 & _). eapply wp_mono; [by apply IH| |done]. intros x s2 H2. by eapply turned_trans.
Qed.

(** The requests queued, counted twice, and those deferred bound the rounds:
    more fuel changes nothing. *)
Lemma phase_fuel f1 : ∀ f2 p m s, waiting_inv (step_skipped_waiting m) s → plan_ok p s →
  (measure m s ≤ f1)%nat → (measure m s ≤ f2)%nat → phase f1 p m s = phase f2 p m s.
Proof.
  assert (∀ f p m s, measure m s = 0%nat → phase f p m s = Ret (p, m) s) as Hdone.
  { intros f p m s Hm. assert (queued s = 0 ∧ reservation_deferred m = [])%nat as [Hq Hd].
    { unfold measure in Hm. split; [destruct (borrow_reserved m); lia|]. apply nil_length_inv. lia. }
    assert (pending s = false) as Hpend.
    { unfold pending, queued in *. rewrite !nonempty_items. destruct (waiting_items (waiting s)); [|cbn in Hq; lia].
      by destruct (waiting_items (skipped_waiting s)); [|cbn in Hq; lia]. }
    unfold pending in Hpend. destruct f; cbn [waiting_phase]; rewrite get_bind, Hpend, Hd; done. }
  induction f1 as [|f1 IH]; intros f2 p m s Hw Hp H1 H2; [by rewrite !Hdone by lia|].
  destruct f2 as [|f2]; [by rewrite !Hdone by lia|]. rewrite !phase_unfold. unfold phase_round. destruct (negb _); [done|].
  destruct (Z.eqb_spec (zlen (running s)) (max_num_running_reqs (config s))) as [|Hmax]; [done|].
  pose proof (wp_turn p m s Hw Hp Hmax) as Ht. unfold wp in Ht. rewrite (bind_unfold (m' ← second_turn _ _; _)).
  rewrite (bind_unfold (m' ← second_turn _ _; _) (λ x, let '(p, m, go) := x in if go : bool then phase f2 p m else _)).
  destruct ((m' ← second_turn _ _; _) s) as [[[p1 m1] go] s1|]; [|done]. destruct Ht as [(Hw1 & Hp1 & _) Hlt]. cbn [fst snd] in *.
  destruct go; [|done]. specialize (Hlt eq_refl). apply IH; [done|done|lia|lia].
Qed.
End loop.
