(* ===== verification/SchedulerPhases.v ===== *)
(** * The phases of a step together

    From the budgets of the step through the running requests to the waiting
    ones: what holds of the scheduler, and of what it has scheduled, when
    [schedule()] turns to its output. *)
From S2P Require Import Prelude Hoare PyFloat Metrics Request BlockPool KVCache Scoring Scheduling.
From S2P Require Import Config EncoderCache RequestQueue QueueLaws Pressure ControllerSteady Scheduler SchedulerFacts.
From S2P Require Import SchedulerRunning SchedulerAny SchedulerStep SchedulerKeeps SchedulerWaiting SchedulerAdmit SchedulerLoop.
Import Sched Step.
Local Open Scope Z_scope.

Section phases.
Context {F : Type} `{FO : FloatOps F} `{FL : FloatLog1p F}.
Context {C : Type} `{KC : KVConnector F C}.
Context (lt_id : bool) (time_time time_monotonic : nat → F) (set_order : gset string → list string).
Notation State := (SchedulerState (F := F) (C := C)).
Notation E := (raises True).
Implicit Types (s : State) (r : SchedRequest F) (p : Step) (m : Admission) (X : WaitQueue).

(** ** The beginning *)
Record fresh (cfg : SchedulerConfig) p : Prop := {
  fr_empty : (scheduled_new p, scheduled_resumed p, scheduled_running_reqs p, preempted_reqs p) = ([], [], [], []);
  fr_dicts : (req_to_new_blocks p, num_scheduled_tokens p, scheduled_encoder_inputs p, scheduled_spec_decode_tokens p,
              scheduled_prefill_tokens p) = ([], [], [], [], []);
  fr_index : req_index p = 0;
  fr_budget : 0 ≤ token_budget p ≤ max_num_scheduled_tokens cfg;
  fr_prefill : 0 ≤ prefill_budget p;
  fr_encoder : encoder_compute_budget p = max_num_encoder_input_tokens cfg
}.

Lemma prefill_budget_nonneg (k : Controller.SchedulingController F) l n :
  0 ≤ decode_prefill_token_budget (Controller.settings k) → 0 ≤ n → 0 ≤ Controller.prefill_budget l n k.
Proof. intros Hk Hn. unfold Controller.prefill_budget. cbv zeta. destruct (_ && _); lia. Qed.

Lemma any_prefill n l s : settings_ok s → 0 ≤ n →
  wp (on_controller n (gets (Controller.prefill_budget l n))) (λ n' s', (frame s s' ∧ settings_ok s') ∧ 0 ≤ n') E s.
Proof.
  intros Hs Hn. pose proof (any_controller n (gets (Controller.prefill_budget l n)) s (steady_gets _) Hs) as Hw.
  unfold wp, on_controller in *. unfold settings_ok in Hs at 1. destruct (allocator s) as [k|k] eqn:Ek; [done|].
  cbn in *. split; [done|]. by apply prefill_budget_nonneg.
Qed.

Lemma wp_budgets s : settings_ok s → config_ok (config s) →
  wp (step_budgets lt_id time_time set_order) (λ p s', frame s s' ∧ settings_ok s' ∧ fresh (config s) p) E s.
Proof.
  intros Hs (Hmax & _). unfold step_budgets. apply wp_get. cbv zeta. set (budget := if bool_decide (pause_state s = PAUSED_ALL) then 0 else _).
  assert (0 ≤ budget ≤ max_num_scheduled_tokens (config s)) as Hb by (unfold budget; case_bool_decide; lia).
  eapply wp_part; [apply any_controller; [apply steady_begin_step|done]|]. intros tk s1 F1 S1.
  eapply (wp_step _ _ _ (λ n s', (frame s1 s' ∧ settings_ok s') ∧ 0 ≤ n)).
  { apply wp_if; intros _; [|by apply wp_ret; split; [|lia]]. by apply any_prefill; [|lia]. }
  intros prefill s2 [[F2 S2] Hp]. apply wp_get. eapply wp_part; [by apply any_connector|]. intros unpublished s3 F3 S3.
  apply wp_ret. split; [by eapply frame_then; [eapply frame_then|]|]. split; [done|].
  assert (config s2 = config s) as Ec. { injection F2 as E1. injection F1 as E2. congruence. }
  split; cbn; try done; [destruct (unpublished : bool); lia|by rewrite Ec].
Qed.

Lemma wp_begin s : settings_ok s → config_ok (config s) →
  wp (begin_schedule lt_id time_time set_order) (λ p s', frame s s' ∧ settings_ok s' ∧ fresh (config s) p) E s.
Proof.
  intros Hs Hcfg. unfold begin_schedule. eapply wp_part; [by apply any_connector|]. intros [] s0 F0 S0.
  assert (config s0 = config s) as Ec by (by injection F0). rewrite <-Ec in Hcfg |- *.
  eapply wp_mono; [by apply wp_budgets| |done]. intros p s' (F1 & S1 & Hp). split; [by eapply frame_then|done].
Qed.

(** ** The running phase *)
Notation rinv p0 s0 := (running_inv s0 (token_budget p0) (prefill_budget p0) (encoder_compute_budget p0) (tokencake p0)
  any_parts any_fits).

Lemma fresh_running_inv parts_ok fits p s :
  sched_inv s → parts_ok (running s) s → all_fit fits s → fresh (config s) p →
  running_inv s (token_budget p) (prefill_budget p) (encoder_compute_budget p) (tokencake p) parts_ok fits p s.
Proof.
  intros Hs Hparts Hfit [E1 E2 E3 Hb Hp He]. injection E1 as E11 E12 E13 E14. injection E2 as E21 E22 E23 E24 E25.
  split; [done|done|done| |].
  - rewrite E14. split; try done.
    + intros id. destruct (od_get id (requests s)) as [r|]; [|done]. exists r. split; [done|].
      rewrite decide_False by by intros ?%elem_of_nil. by left.
    + by rewrite app_nil_r.
  - split; rewrite ?E11, ?E12, ?E13, ?E21, ?E22, ?E23, ?E24, ?E25, ?E3; try done; try lia.
    all: try (intros id Hid; by apply elem_of_nil in Hid). all: try apply NoDup_nil_2; try (unfold od_wf; apply NoDup_nil_2).
    all: try (split; cbn; [lia|intros; lia]); cbn; lia.
Qed.

Lemma fresh_running p s : sched_inv s → settings_ok s → fresh (config s) p → rinv p s p s.
Proof. intros Hs Hset Hfr. by apply fresh_running_inv. Qed.

Lemma running_plan p0 s0 p s :
  sched_inv s0 → zlen (running s0) ≤ max_num_running_reqs (config s0) → rinv p0 s0 p s → plan_ok (token_budget p0) p s.
Proof.
  intros Hs0 Hmax [Hs Hpt _ Hev Hst]. destruct (st_others _ _ _ _ _ _ _ Hst) as (N1 & N2 & _).
  pose proof (ev_config _ _ _ Hev) as Hcfg.
  split; rewrite ?N1, ?N2, ?app_nil_r; try apply Hst.
  - by rewrite (st_keys _ _ _ _ _ _ _ Hst).
  - unfold od_wf. rewrite (st_keys _ _ _ _ _ _ _ Hst). apply Hst.
  - intros id n Hn. apply od_get_is_Some. rewrite (st_blocks _ _ _ _ _ _ _ Hst), <-(st_keys _ _ _ _ _ _ _ Hst).
    apply od_get_is_Some. by eexists.
  - intros id n Hn. destruct (st_tokens _ _ _ _ _ _ _ Hst _ _ Hn) as (Hn1 & r0 & Hr0 & Hroom & Hdr). split; [done|].
    assert (id ∈ running s) as Hid.
    { assert (id ∈ scheduled_running_reqs p) as Hin.
      { rewrite <-(st_keys _ _ _ _ _ _ _ Hst). apply od_get_is_Some. by eexists. }
      apply (st_prefix _ _ _ _ _ _ _ Hst), elem_of_take in Hin as (i & Hi & _). by eapply list_elem_of_lookup_2. }
    split; [done|]. pose proof (ev_get _ _ _ Hev id) as Hg. rewrite Hr0 in Hg. destruct Hg as (r & Hr & Hk).
    rewrite decide_False in Hk.
    2:{ pose proof (evolved_nodup s0 Hs0 _ _ Hev) as Hnd. apply NoDup_app in Hnd as (_ & Hd & _). by apply Hd. }
    apply kept_same in Hk as (_ & Hph & Hcomp & _ & Htok & _). exists r. split; [done|].
    unfold room in Hroom. rewrite Hcomp, Htok, Hph, Hcfg. unfold drafts. split; [done|]. lia.
  - rewrite Hcfg. pose proof (ev_running _ _ _ Hev) as Hr. apply Permutation_length in Hr. rewrite length_app in Hr.
    unfold zlen in *. lia.
Qed.

(** ** The waiting phase *)
Lemma no_skipped m s : waiting_items (step_skipped_waiting m) = [] → sched_inv s → settings_ok s →
  waiting_inv (ids := placed s) (step_skipped_waiting m) s.
Proof.
  intros Hm Hs Hset. assert (placed (with_skipped (step_skipped_waiting m) s) ≡ₚ placed s) as Hp.
  { unfold placed, with_skipped. cbn. by rewrite Hm, app_nil_r. }
  split; [|done|done]. by apply (sched_inv_places s).
Qed.

Lemma new_queue_items cfg : waiting_items (new_queue cfg) = [].
Proof. unfold new_queue. by destruct (policy cfg). Qed.

(** What the phase leaves of a step. *)
Definition phase_ok tokens p s p' s' : Prop :=
  sched_inv s' ∧ settings_ok s' ∧ plan_ok tokens p' s'
  ∧ (scheduled_running_reqs p', scheduled_spec_decode_tokens p') = (scheduled_running_reqs p, scheduled_spec_decode_tokens p)
  ∧ preempted_reqs p' = preempted_reqs p ∧ config s' = config s ∧ (preempted_reqs p ≠ [] → p' = p ∧ s' = s)
  ∧ placed s' ≡ₚ placed s.

Lemma wp_admit_waiting tokens p s : sched_inv s → settings_ok s → plan_ok tokens p s →
  wp (admit_waiting lt_id time_monotonic set_order p) (phase_ok tokens p s) E s.
Proof.
  intros Hs Hset Hp. unfold admit_waiting. apply wp_get. cbv zeta. apply wp_bind, wp_assert; [intros _|done].
  apply wp_if; intros Hc; [|apply wp_ret; by split_and!]. apply andb_true_iff in Hc as [Hpre%bool_decide_eq_true _].
  set (m := mkAdmission _ _ _ _ _ _).
  eapply wp_step; [apply (wp_phase (ids := placed s) _ _ _ tokens); [apply no_skipped; [apply new_queue_items|done|done]|done]|].
  intros [p1 m1] s1 (Hw1 & Hp1 & E1 & E2 & E3). cbn [fst snd] in *. apply wp_get.
  pose proof (queue_list_items lt_id s1 (step_skipped_waiting m1)) as Hitems.
  set (skipped := queue_list lt_id s1 (step_skipped_waiting m1)) in *.
  eapply (wp_step _ _ _ (λ _ s2, sched_inv s2 ∧ settings_ok s2 ∧ plan_ok tokens p1 s2 ∧ config s2 = config s1 ∧ placed s2 ≡ₚ placed s)).
  - destruct Hw1 as [Hs1 Hset1 Hids]. case_bool_decide as Hnil.
    + assert (placed s1 ≡ₚ placed (with_skipped (step_skipped_waiting m1) s1)) as Hpl.
      { unfold placed, with_skipped. cbn. by rewrite <-Hitems, Hnil, app_nil_r. }
      apply wp_ret. split_and!; try done; [|by rewrite Hpl]. by apply (sched_inv_places (with_skipped (step_skipped_waiting m1) s1)).
    + destruct (@prepend_all_law _ _ _ _ _ (waiting_laws (queue_lt lt_id s1)) skipped (skipped_waiting s1)) as (v & Hv & Hi).
      eapply wp_on_queue; [exact Hv|]. set (s2 := put_queue Skipped v s1).
      assert (placed s2 ≡ₚ placed (with_skipped (step_skipped_waiting m1) s1)) as Hpl.
      { unfold placed, with_skipped. cbn. by rewrite Hi, Hitems, (Permutation_app_comm (waiting_items (step_skipped_waiting m1))). }
      split_and!; try done; [|by apply (plan_same _ _ s1)|by rewrite Hpl].
      by apply (sched_inv_places (with_skipped (step_skipped_waiting m1) s1)).
  - intros [] s2 (H1 & H2 & H3 & H4 & H5). apply wp_ret. split_and!; try done. by rewrite H4.
Qed.

(** ** Both *)
Lemma frame_placed s s' : frame s s' → placed s' = placed s.
Proof. intros Hf. injection Hf as _ _ E3 E4 E5 _ _ _ _ _. unfold placed. by rewrite E3, E4, E5. Qed.

(** What is scheduled when the phases are over: [s0] is the state before. *)
Record planned s0 p s : Prop := {
  pd_sched : sched_inv s;
  pd_settings : settings_ok s;
  pd_config : config s = config s0;
  pd_plan : ∃ tokens, 0 ≤ tokens ≤ max_num_scheduled_tokens (config s0) ∧ plan_ok tokens p s;
  pd_preempted : NoDup (preempted_reqs p)
    ∧ ∀ id, id ∈ preempted_reqs p → id ∈ running s0 ∧ id ∉ running s ∧ id ∈ waiting_items (waiting s)
      ∧ ∃ r, od_get id (requests s) = Some r ∧ status (req r) = PREEMPTED ∧ num_computed_tokens (req r) = 0;
  pd_placed : placed s ≡ₚ placed s0;
  pd_kept id : id ∈ running s0 → id ∈ running s ∨ id ∈ preempted_reqs p;
  pd_alone : preempted_reqs p ≠ [] → scheduled_new p = [] ∧ scheduled_resumed p = [];
  pd_drafts id l : od_get id (scheduled_spec_decode_tokens p) = Some l →
    ∃ r, od_get id (requests s0) = Some r ∧ l `prefix_of` spec_token_ids (req r)
}.

Lemma wp_schedule_requests s : sched_inv s → settings_ok s → zlen (running s) ≤ max_num_running_reqs (config s) →
  wp (schedule_requests lt_id time_time time_monotonic set_order) (planned s) E s.
Proof.
  intros Hs Hset Hmax. unfold schedule_requests. eapply wp_step; [apply wp_begin; [done|apply Hs]|].
  intros p0 s1 (F1 & S1 & Hfr). pose proof (sched_inv_frame _ _ F1 Hs) as Hs1. pose proof F1 as F1'.
  injection F1' as C1 R1 _ _ U1 _ _ _ _ _. rewrite <-C1 in Hfr. rewrite <-C1, <-U1 in Hmax. apply wp_get.
  eapply wp_step; [apply (wp_loop lt_id time_monotonic set_order s1 (token_budget p0) (prefill_budget p0) (encoder_compute_budget p0)
    (tokencake p0) True any_parts any_fits Hs1 _ p0 s1); [by apply fresh_running|]|].
  { rewrite (fr_index _ _ Hfr). unfold zlen. lia. }
  intros p2 s2 Hru. pose proof (running_plan p0 s1 p2 s2 Hs1 Hmax Hru) as Hp2. destruct Hru as [Hs2 Hpt2 _ Hev Hst].
  eapply wp_mono; [by eapply wp_admit_waiting_running, wp_admit_waiting| |done].
  intros p3 s3 ((H1 & H2 & H3 & H4 & H5 & H6 & H7 & H8) & Hkept). injection H4 as H41 H42.
  split; try done.
  - rewrite H6, (ev_config _ _ _ Hev). done.
  - exists (token_budget p0). split; [rewrite <-C1; apply Hfr|done].
  - rewrite H5. pose proof (evolved_nodup s1 Hs1 _ _ Hev) as Hnd. apply NoDup_app in Hnd as (_ & Hd & Hnd). split; [done|].
    intros id Hid. destruct H7 as [-> ->]; [by intros Hnil; rewrite Hnil in Hid; apply elem_of_nil in Hid|].
    assert (id ∈ running s1) as Hin by (rewrite <-(ev_running _ _ _ Hev); apply elem_of_app; by right).
    split; [by rewrite <-U1|]. split; [intros Hr; by apply (Hd _ Hr)|].
    split; [rewrite (ev_waiting _ _ _ Hev); apply elem_of_app; by left|].
    pose proof (ev_get _ _ _ Hev id) as Hg. destruct (proj1 (iv_placed _ Hs1 id)) as (r0 & Hr0 & _).
    { unfold placed. apply elem_of_app. by left. }
    rewrite Hr0 in Hg. destruct Hg as (r & Hr & Hk). rewrite decide_True in Hk by done. subst r. by eexists.
  - rewrite H8, <-(frame_placed _ _ F1). unfold placed.
    rewrite (ev_skipped _ _ _ Hev), (ev_waiting _ _ _ Hev), <-(ev_running _ _ _ Hev). by rewrite <-!(assoc_L (++)).
  - intros id Hid. rewrite <-U1, <-(ev_running _ _ _ Hev) in Hid. rewrite H5.
    apply elem_of_app in Hid as [Hid|Hid]; [left; by apply Hkept|by right].
  - rewrite H5. intros Hne. destruct (H7 Hne) as [-> _]. destruct (st_others _ _ _ _ _ _ _ Hst) as (? & ? & _). done.
  - rewrite H42. intros id l Hl. destruct (st_drafts _ _ _ _ _ _ _ Hst _ _ Hl) as (_ & r0 & Hr0 & Hpre). exists r0.
    by rewrite <-R1.
Qed.

(** The assertions at the end of the phases hold. *)
Lemma planned_constraints s0 p s : planned s0 p s → check_constraints p s = Ret tt s.
Proof.
  intros [Hs _ Hcfg (tokens & Ht & Hp) _ _ _ _ _]. destruct Hp as [K1 K2 K3 K4 K5 K6 K7 K8].
  assert (length (od_keys (num_scheduled_tokens p)) ≤ length (running s))%nat as Hlen.
  { apply submseteq_length, NoDup_submseteq; [exact K2|]. intros id [n Hn]%od_get_is_Some. by apply (K7 id n). }
  apply Permutation_length in K1. rewrite !length_app in K1.
  unfold check_constraints. rewrite get_bind, Hcfg.
  rewrite (proj2 (Z.leb_le _ (max_num_scheduled_tokens (config s0)))) by lia.
  rewrite (proj2 (Z.leb_le 0 _)) by done. rewrite Hcfg in K8.
  rewrite (proj2 (Z.leb_le (zlen (running s)) _)) by done.
  rewrite (proj2 (Z.leb_le _ (zlen (running s)))) by (unfold zlen; lia). done.
Qed.
End phases.
