(* ===== verification/SchedulerReport.v ===== *)
(** * The output of a step and what follows it

    The output names every request scheduled exactly once; after it, the
    scheduled tokens of a request count as computed. *)
From S2P Require Import Prelude Hoare PyFloat Metrics Request BlockPool KVCache Scoring Scheduling.
From S2P Require Import Config EncoderCache RequestQueue QueueLaws Pressure ControllerSteady Scheduler SchedulerFacts.
From S2P Require Import SchedulerAny SchedulerStep SchedulerWaiting SchedulerAdmit SchedulerLoop SchedulerPhases.
Import Sched Step.
Local Open Scope Z_scope.

Section report.
Context {F : Type} `{FO : FloatOps F} `{FL : FloatLog1p F}.
Context {C : Type} `{KC : KVConnector F C}.
Context (lt_id : bool) (time_time time_monotonic : nat → F) (set_order : gset string → list string).
Notation State := (SchedulerState (F := F) (C := C)).
Notation E := (raises True).
Implicit Types (s : State) (r : SchedRequest F) (p : Step).

(** ** The output *)
Lemma wp_mapSM {A B} (f : A → M State B) (R : A → B → Prop) l s :
  (∀ x, wp (f x) (λ y s', s' = s ∧ R x y) E s) → wp (mapSM f l) (λ ys s', s' = s ∧ Forall2 R l ys) E s.
Proof.
  intros Hf. induction l as [|x l IH]; cbn [mapSM]; [by apply wp_ret|].
  eapply wp_step; [apply Hf|]. intros y ? [-> Hy]. eapply wp_step; [apply IH|]. intros ys ? [-> Hys].
  apply wp_ret. split; [done|]. by constructor.
Qed.

Lemma wp_new_request_data p id s : sched_inv s →
  wp (new_request_data p id) (λ d s', s' = s ∧ request_id (new_request d) = id) E s.
Proof.
  intros Hs. unfold new_request_data. apply wp_bind, wp_request. intros r Hr.
  destruct (od_get id (req_to_new_blocks p)); [|done]. cbn [some_or]. apply wp_bind, wp_ret, wp_get, wp_ret.
  split; [done|]. by apply (iv_id _ Hs).
Qed.

(** The lists of the cached requests run in parallel. *)
Definition parallel (d : CachedRequestData) : Prop :=
  length (new_block_ids d) = length (req_ids d) ∧ length (cached_num_computed_tokens d) = length (req_ids d)
  ∧ length (cached_num_output_tokens d) = length (req_ids d).

Lemma wp_cache_request p resumed d id s : parallel d →
  wp (cache_request p resumed d id) (λ d' s', s' = s ∧ parallel d' ∧ req_ids d' = req_ids d ++ [id]) E s.
Proof.
  intros (P1 & P2 & P3). unfold cache_request. apply wp_bind, wp_request. intros r _. apply wp_get.
  apply wp_bind, wp_assert; [intros _|done]. apply wp_bind, wp_some_or; [intros blocks _|done].
  apply wp_bind, wp_some_or; [intros n _|done]. apply wp_ret. split; [done|]. split; [|done].
  unfold parallel. cbn. rewrite !length_app. cbn. lia.
Qed.

Lemma wp_cache_requests p resumed ids : ∀ d s, parallel d →
  wp (cache_requests p resumed ids d) (λ d' s', s' = s ∧ parallel d' ∧ req_ids d' = req_ids d ++ ids) E s.
Proof.
  induction ids as [|id ids IH]; intros d s Hd; cbn [cache_requests]; [apply wp_ret; by rewrite app_nil_r|].
  eapply wp_step; [by apply wp_cache_request|]. intros d' ? (-> & Hd' & Hi). eapply wp_mono; [by apply IH| |done].
  intros d'' ? (-> & Hd'' & Hi'). split; [done|]. split; [done|]. by rewrite Hi', Hi, <-(assoc_L (++)).
Qed.

(** What an output reports of a step. *)
Record reports p (o : SchedulerOutput F) : Prop := {
  re_once : (request_id ∘ new_request <$> scheduled_new_reqs o) ++ req_ids (scheduled_cached_reqs o)
            ≡ₚ od_keys (out_num_scheduled_tokens o);
  re_scheduled : out_num_scheduled_tokens o = num_scheduled_tokens p;
  re_drafts : out_scheduled_spec_decode_tokens o = scheduled_spec_decode_tokens p;
  re_total : total_num_scheduled_tokens o = sumZ (od_values (out_num_scheduled_tokens o));
  re_preempted : preempted_req_ids o = list_to_set (preempted_reqs p);
  re_parallel : parallel (scheduled_cached_reqs o)
}.

(** Everything but the reports is as it was. *)
Definition reported s s' : Prop :=
  (config s', requests s', waiting s', skipped_waiting s', running s')
  = (config s, requests s, waiting s, skipped_waiting s, running s) ∧ settings_ok s'.

Lemma reported_frame s1 s2 s3 : reported s1 s2 → frame s2 s3 → settings_ok s3 → reported s1 s3.
Proof.
  intros [E' _] F' Hs. split; [|done]. injection E' as E1 E2 E3 E4 E5. injection F' as G1 G2 G3 G4 G5 G6 G7 G8 G9 G10. congruence.
Qed.

Lemma wp_make_output tokens p s : sched_inv s → settings_ok s → plan_ok tokens p s →
  wp (make_output p) (λ o s', reported s s' ∧ reports p o) E s.
Proof.
  intros Hs Hset Hp. unfold make_output. apply wp_get.
  eapply (wp_part _ _ s); [destruct (running s); [by apply wp_ret|by apply any_kv]|]. intros prefixes s1 F1 S1.
  pose proof (sched_inv_frame _ _ F1 Hs) as Hs1. assert (reported s s1) as R1 by (by eapply (reported_frame s s)). cbv zeta.
  set (news := if use_v2_model_runner (config s) then scheduled_new p ++ scheduled_resumed p else scheduled_new p).
  eapply wp_step; [apply (wp_mapSM _ (λ id d, request_id (new_request d) = id)); intros; by apply wp_new_request_data|].
  intros new_reqs ? [-> Hnews]. unfold make_cached_request_data. set (resumed := if use_v2_model_runner (config s) then [] else scheduled_resumed p).
  apply wp_bind. eapply wp_step; [by apply wp_cache_requests|]. intros d1 ? (-> & Hd1 & Hi1).
  eapply wp_mono; [by apply wp_cache_requests| |done]. intros d2 ? (-> & Hd2 & Hi2). rewrite Hi1 in Hi2. cbn in Hi2.
  apply wp_bind, wp_modify. set (s2 := put_prev_step _ s1).
  eapply (wp_part _ _ s2).
  { apply wp_if; intros _; [|by apply wp_ret]. eapply wp_part; [by apply any_kv|]. intros ids s3 F3 S3. by apply wp_ret. }
  intros zeroed s3 F3 S3. eapply wp_part; [by apply any_encoder|]. intros freed s4 F4 S4. apply wp_ret. split.
  { eapply reported_frame; [eapply reported_frame; [|exact F3|done]|exact F4|done]. by destruct R1. }
  split; try done. cbn [scheduled_new_reqs scheduled_cached_reqs out_num_scheduled_tokens]. rewrite Hi2, (pl_keys _ _ _ Hp).
  assert (request_id ∘ new_request <$> new_reqs = news) as ->.
  { clear -Hnews. induction Hnews as [|id d ids ds Hid _ IH]; [done|]. cbn. by rewrite Hid, IH. }
  unfold news, resumed. destruct (use_v2_model_runner (config s)).
  - rewrite app_nil_r. by rewrite Permutation_app_comm.
  - rewrite !(assoc_L (++)). by rewrite (Permutation_app_comm (scheduled_new p)).
Qed.

(** ** After the step *)
Lemma forM_ext {S A} (f g : A → M S unit) l : (∀ x, f x = g x) → forM l f = forM l g.
Proof. intros Hfg. induction l as [|x l IH]; cbn [forM]; [done|]. by rewrite Hfg, IH. Qed.

(** A loop that updates the requests it names, each once. *)
Lemma wp_update_each {A} (key : A → string) (g : A → SchedRequest F → SchedRequest F) l : ∀ s, NoDup (key <$> l) →
  wp (forM l (λ x, _ ← get_request (key x); alter_request (g x) (key x)))
    (λ _ s', ∃ reqs, s' = put_requests reqs s ∧ od_keys reqs = od_keys (requests s)
       ∧ (∀ x, x ∈ l → ∃ r, od_get (key x) (requests s) = Some r ∧ od_get (key x) reqs = Some (g x r))
       ∧ ∀ j, j ∉ key <$> l → od_get j reqs = od_get j (requests s)) E s.
Proof.
  induction l as [|x l IH]; intros s Hnd; cbn [forM].
  { exists (requests s). split; [by destruct s|]. split; [done|]. split; [by intros x ?%elem_of_nil|done]. }
  cbn in Hnd. apply NoDup_cons in Hnd as [Hx Hnd]. apply wp_bind, wp_bind, wp_request. intros r Hr. apply wp_alter_request.
  eapply wp_mono; [by apply IH| |done]. intros [] s' (reqs & -> & Hk & Hl & Hout). exists reqs. split; [done|].
  cbn [requests put_requests] in Hk, Hl, Hout.
  split; [by rewrite Hk, od_keys_alter|]. split.
  - intros y [->|Hy]%elem_of_cons.
    + exists r. split; [done|]. by rewrite Hout, od_get_alter, decide_True, Hr by done.
    + destruct (Hl y Hy) as (r' & Hr' & Hg). exists r'. split; [|done]. rewrite od_get_alter, decide_False in Hr'; [done|].
      intros Heq. apply Hx. rewrite Heq. by apply list_elem_of_fmap_2.
  - intros j [Hj1 Hj2]%not_elem_of_cons. by rewrite Hout, od_get_alter, decide_False by done.
Qed.

(** An update of many requests where they are. *)
Lemma sched_inv_bulk s s' : sched_inv s → config s' = config s → placed s' = placed s → running s' = running s →
  od_keys (requests s') = od_keys (requests s) →
  (∀ j r, od_get j (requests s) = Some r → ∃ r', od_get j (requests s') = Some r'
     ∧ request_id (req r') = request_id (req r) ∧ status (req r') = status (req r)
     ∧ (unfinished r → tokens_ok (config s) r')) → sched_inv s'.
Proof.
  intros [Hc Hwf Hid Hnd Hpl Hru Htok] E1 E2 E3 E4 Hf.
  assert (∀ j r', od_get j (requests s') = Some r' → ∃ r, od_get j (requests s) = Some r
    ∧ request_id (req r') = request_id (req r) ∧ status (req r') = status (req r)
     ∧ (unfinished r → tokens_ok (config s) r')) as Hback.
  { intros j r' Hr'. assert (is_Some (od_get j (requests s))) as [r Hr].
    { apply od_get_is_Some. rewrite <-E4. apply od_get_is_Some. by eexists. }
    destruct (Hf j r Hr) as (r2 & Hr2 & H1 & H2 & H3). assert (r2 = r') as -> by congruence. by exists r. }
  split; rewrite ?E1, ?E2, ?E3; try done.
  - unfold od_wf in *. by rewrite E4.
  - intros j r' (r & Hr & Hi & _)%Hback. rewrite Hi. by apply Hid.
  - intros j. rewrite Hpl. unfold unfinished, is_finished. split.
    + intros (r & Hr & Hu). destruct (Hf j r Hr) as (r' & Hr' & _ & Hst & _). exists r'. by rewrite Hst.
    + intros (r' & Hr' & Hu). destruct (Hback j r' Hr') as (r & Hr & _ & Hst & _). exists r. by rewrite <-Hst.
  - intros j r' (r & Hr & _ & Hst & _)%Hback. rewrite Hst. by apply Hru.
  - intros j r' (r & Hr & _ & Hst & Ht)%Hback Hu. apply Ht. unfold unfinished, is_finished in *. by rewrite <-Hst.
Qed.

(** The request [r] with [n] of its tokens scheduled, [spec] of them drafts. *)
Definition scheduled_of (cfg : SchedulerConfig) (n : Z) (spec : list Z) (r : SchedRequest F) : SchedRequest F :=
  if async_scheduling cfg then placeholders_after cfg spec (computed_after n r) else computed_after n r.

Lemma scheduled_of_facts cfg n spec r :
  num_computed_tokens (req (scheduled_of cfg n spec r)) = num_computed_tokens (req r) + n
  ∧ request_id (req (scheduled_of cfg n spec r)) = request_id (req r)
  ∧ status (req (scheduled_of cfg n spec r)) = status (req r).
Proof.
  unfold scheduled_of, placeholders_after. destruct (async_scheduling cfg); [|done]. by destruct (is_prefill_chunk _).
Qed.

Lemma scheduled_of_ok cfg n spec r : 1 ≤ n →
  num_computed_tokens (req r) + n ≤ num_tokens (req r) + num_output_placeholders r + zlen spec →
  num_computed_tokens (req r) + n ≤ sched_max_model_len cfg - 1 →
  async_scheduling cfg = true ∨ spec = [] → tokens_ok cfg r → tokens_ok cfg (scheduled_of cfg n spec r).
Proof.
  intros Hn H1 H2 Hs (T1 & T2 & T3 & T4 & T5). unfold scheduled_of, placeholders_after, tokens_ok.
  change (num_tokens (req (computed_after n r))) with (num_tokens (req r)). unfold zlen in *.
  destruct (async_scheduling cfg).
  - destruct (is_prefill_chunk (computed_after n r)) eqn:Hchunk.
    + change (num_computed_tokens (req r) + n <? num_tokens (req r) + num_output_placeholders r = true) in Hchunk.
      apply Z.ltb_lt in Hchunk. cbn. change (num_tokens (put_num_computed_tokens _ (req r))) with (num_tokens (req r)).
      split_and!; try lia; done.
    + cbn. change (num_tokens (put_spec_token_ids _ _)) with (num_tokens (req r)). split_and!; try lia; done.
  - destruct Hs as [|Hs]; [done|]. rewrite Hs in H1. cbn in *.
    change (num_tokens (put_num_computed_tokens _ (req r))) with (num_tokens (req r)). split_and!; try lia; done.
Qed.

(** The scheduler when the step is over. *)
Record stepped s (o : SchedulerOutput F) s' : Prop := {
  sp_same : (config s', waiting s', skipped_waiting s', running s') = (config s, waiting s, skipped_waiting s, running s);
  sp_keys : od_keys (requests s') = od_keys (requests s);
  sp_settings : settings_ok s';
  sp_finished : finished_req_ids s' = ∅;
  sp_scheduled id n : od_get id (out_num_scheduled_tokens o) = Some n →
    ∃ r, od_get id (requests s) = Some r ∧ od_get id (requests s') =
      Some (scheduled_of (config s) n (default [] (od_get id (out_scheduled_spec_decode_tokens o))) r);
  sp_others j : od_get j (out_num_scheduled_tokens o) = None → od_get j (requests s') = od_get j (requests s)
}.

Lemma wp_update_after o s : settings_ok s → od_wf (out_num_scheduled_tokens o) →
  wp (update_after_schedule o) (λ _, stepped s o) E s.
Proof.
  intros Hset Hwf. unfold update_after_schedule.
  eapply wp_step.
  { pose proof (wp_update_each fst (λ x : string * Z, computed_after x.2) (out_num_scheduled_tokens o) s Hwf) as Hw.
    unfold wp in *. erewrite (forM_ext _ (λ x, _ ← get_request x.1; alter_request (computed_after x.2) x.1)); [exact Hw|].
    by intros [id n]. }
  intros [] s1 (reqs & -> & Hk & Hl & Hout). cbv beta in *. apply wp_bind, wp_modify, wp_get.
  change (config (put_finished_req_ids ∅ (put_requests reqs s))) with (config s).
  assert (∀ id n, od_get id (out_num_scheduled_tokens o) = Some n → ∃ r, od_get id (requests s) = Some r
    ∧ od_get id reqs = Some (computed_after n r)) as Hone.
  { intros id n Hn. by apply (Hl (id, n)), od_get_elem. }
  assert (∀ j, od_get j (out_num_scheduled_tokens o) = None → od_get j reqs = od_get j (requests s)) as Hother.
  { intros j Hj. apply Hout. by apply od_get_None. }
  destruct (async_scheduling (config s)) eqn:Ha.
  - eapply wp_mono; [apply (wp_update_each (λ id : string, id)); by rewrite list_fmap_id| |done].
    intros [] s' (reqs' & -> & Hk' & Hl' & Hout'). cbn [requests put_finished_req_ids put_requests] in *. split; try done.
    + cbn [requests put_requests]. by rewrite Hk'.
    + intros id n Hn. destruct (Hone id n Hn) as (r & Hr & Hr1). exists r. split; [done|].
      destruct (Hl' id) as (r2 & Hr2 & Hg). { apply od_get_is_Some. by eexists. }
      cbn in Hr2. assert (r2 = computed_after n r) as -> by congruence. cbn. rewrite Hg. unfold scheduled_of. by rewrite Ha.
    + intros j Hj. cbn. rewrite Hout'; [by apply Hother|]. rewrite list_fmap_id. by apply od_get_None.
  - apply wp_ret. split; try done. intros id n Hn. destruct (Hone id n Hn) as (r & Hr & Hr1). exists r. split; [done|].
    unfold scheduled_of. by rewrite Ha.
Qed.
End report.
