(* ===== verification/SchedulerProps.v ===== *)
(** * The scheduler's step

    What [schedule()] does, for a scheduler of any configuration: TokenCake or
    not, any policy, connector, speculative decoding, multi-modal input.  The
    calls on the parts may raise; a step that ends leaves every unfinished
    request in one place, spends no more than its budgets, and reports every
    request it schedules once; its loops end however many requests there are. *)
From S2P Require Import Prelude Hoare PyFloat Metrics Request BlockPool KVCache Scoring Scheduling.
From S2P Require Import Config EncoderCache RequestQueue QueueLaws Pressure ControllerSteady Scheduler SchedulerFacts.
From S2P Require Import SchedulerRunning SchedulerAny SchedulerPlain SchedulerStep SchedulerWaiting SchedulerAdmit SchedulerLoop.
From S2P Require Import SchedulerPhases SchedulerReport.
Import Sched Step.
Local Open Scope Z_scope.

Section props.
Context {F : Type} `{FO : FloatOps F} `{FL : FloatLog1p F}.
Context {C : Type} `{KC : KVConnector F C}.
Context (lt_id : bool) (time_time time_monotonic : nat → F) (set_order : gset string → list string).
Notation State := (SchedulerState (F := F) (C := C)).
Notation E := (raises True).
Notation schedule := (schedule lt_id time_time time_monotonic set_order).
Notation running_phase := (running_phase lt_id time_monotonic set_order).
Notation waiting_phase := (waiting_phase lt_id time_monotonic set_order).
Implicit Types (s : State) (r : SchedRequest F) (p : Step) (m : Admission) (o : SchedulerOutput F).

(** A scheduler between two steps. *)
Record ready s : Prop := {
  rd_sched : sched_inv s;
  rd_settings : settings_ok s;
  rd_running : zlen (running s) ≤ max_num_running_reqs (config s)
}.

(** The tokens of a step stay tokens of the requests: with asynchronous
    scheduling the drafts are placeholders, else there are none. *)
Definition drafts_held s : Prop :=
  async_scheduling (config s) = true
  ∨ ∀ id r, od_get id (requests s) = Some r → spec_token_ids (req r) = [].

Lemma wp_schedule s : ready s →
  wp schedule (λ o s', ∃ p s1 s2, planned s p s1 ∧ reports p o ∧ reported s1 s2 ∧ stepped s2 o s') E s.
Proof.
  intros [Hs Hset Hmax]. unfold Step.schedule. eapply wp_step; [by apply wp_schedule_requests|]. intros p s1 Hpl.
  eapply (wp_step _ _ _ (λ _ s', s' = s1)); [by eapply wp_Ret; [by eapply planned_constraints|]|]. intros [] ? ->.
  destruct (pd_plan _ _ _ Hpl) as (tokens & _ & Hp).
  eapply wp_step; [apply (wp_make_output tokens); [apply Hpl|apply Hpl|exact Hp]|]. intros o s2 [R2 Ho].
  eapply wp_part; [apply any_connector, R2|]. intros [] s3 F3 S3. pose proof (reported_frame _ _ _ R2 F3 S3) as R3.
  eapply wp_step; [apply wp_update_after; [done|rewrite (re_scheduled _ _ Ho); apply Hp]|]. intros [] s4 H4. apply wp_ret.
  by exists p, s1, s3.
Qed.

(** A scheduled request after the step. *)
Lemma stepped_request s p s1 s2 o s' id n :
  planned s p s1 → reports p o → reported s1 s2 → stepped s2 o s' → od_get id (out_num_scheduled_tokens o) = Some n →
  1 ≤ n ∧ id ∈ running s' ∧ ∃ r r', od_get id (requests s1) = Some r ∧ od_get id (requests s') = Some r'
    ∧ r' = scheduled_of (config s) n (drafts p id) r
    ∧ num_computed_tokens (req r) + n ≤ num_tokens (req r) + num_output_placeholders r + zlen (drafts p id)
    ∧ num_computed_tokens (req r) + n ≤ sched_max_model_len (config s) - 1.
Proof.
  intros Hpl Ho [R2 _] H' Hn. pose proof (sp_scheduled _ _ _ H' _ _ Hn) as (r & Hr & Hr').
  destruct (pd_plan _ _ _ Hpl) as (tokens & _ & Hp). rewrite (re_scheduled _ _ Ho) in Hn. rewrite (re_drafts _ _ Ho) in Hr'.
  destruct (pl_tokens _ _ _ Hp _ _ Hn) as (Hn1 & Hin & r1 & Hr1 & Hb1 & Hb2).
  injection R2 as E1 E2 E3 E4 E5. pose proof (sp_same _ _ _ H') as Es. injection Es as G1 G2 G3 G4.
  rewrite E2 in Hr. assert (r1 = r) as -> by congruence. pose proof (pd_config _ _ _ Hpl) as Hcfg.
  split; [done|]. split; [by rewrite G4, E5|]. exists r. eexists. split; [done|]. split; [exact Hr'|].
  rewrite Hcfg in Hb2. by rewrite E1, Hcfg.
Qed.

Lemma stepped_ready s p s1 s2 o s' :
  planned s p s1 → reports p o → reported s1 s2 → stepped s2 o s' → drafts_held s → ready s'.
Proof.
  intros Hpl Ho R2 H' Hdr. pose proof R2 as [R2' _]. injection R2' as E1 E2 E3 E4 E5.
  pose proof (sp_same _ _ _ H') as Es. injection Es as G1 G2 G3 G4. pose proof (pd_config _ _ _ Hpl) as Hcfg.
  destruct (pd_plan _ _ _ Hpl) as (tokens & _ & Hp).
  split; [|apply H'|rewrite G4, E5, G1, E1; apply Hp].
  apply (sched_inv_bulk s1 s'); [apply Hpl|congruence|unfold placed; congruence|congruence| |].
  { by rewrite (sp_keys _ _ _ H'), E2. }
  intros j r Hr. destruct (od_get j (out_num_scheduled_tokens o)) as [n|] eqn:Hn.
  - destruct (stepped_request _ _ _ _ _ _ _ _ Hpl Ho R2 H' Hn) as (Hn1 & _ & r1 & r' & Hr1 & Hr' & -> & Hb1 & Hb2).
    assert (r1 = r) as -> by congruence. eexists. split; [exact Hr'|].
    destruct (scheduled_of_facts (config s) n (drafts p j) r) as (_ & F2 & F3). split; [done|]. split; [done|]. intros Hu.
    rewrite Hcfg. apply scheduled_of_ok; try done.
    + destruct Hdr as [Ha|Hno]; [by left|right]. unfold drafts. destruct (od_get j (scheduled_spec_decode_tokens p)) as [l|] eqn:Hl; [|done].
      destruct (pd_drafts _ _ _ Hpl _ _ Hl) as (r0 & Hr0 & Hpre). rewrite (Hno _ _ Hr0) in Hpre. cbn. by apply prefix_nil_inv in Hpre.
    + rewrite <-Hcfg. by apply (iv_tokens _ (pd_sched _ _ _ Hpl) j).
  - exists r. rewrite (sp_others _ _ _ H') by done. rewrite E2. split; [done|]. split; [done|]. split; [done|].
    by apply (iv_tokens _ (pd_sched _ _ _ Hpl) j).
Qed.

(** C5. With asynchronous scheduling, or in a step in which no request holds draft
    tokens ([drafts_held]), the step keeps the scheduler ready: every unfinished
    request is in exactly one of the running list and the two queues, by its
    status; no more requests run than may; what is computed of a request is part
    of it.  With synchronous speculative decoding the drafts count as computed
    until the results are in, and the count may exceed the request. *)
Theorem schedule_keeps_requests s : ready s → drafts_held s →
  match schedule s with Ret _ s' => ready s' ∧ config s' = config s | Exc _ _ => True end.
Proof.
  intros Hs Hdr. pose proof (wp_schedule s Hs) as Hw. unfold wp in Hw. destruct (schedule s) as [o s'|]; [|done].
  destruct Hw as (p & s1 & s2 & Hpl & Ho & R2 & H'). split; [by eapply stepped_ready|].
  pose proof (sp_same _ _ _ H') as Es. injection Es as -> _ _ _. destruct R2 as [R2 _]. injection R2 as -> _ _ _ _. apply Hpl.
Qed.

(** C6. The output names every scheduled request once, as new or as known; the
    tokens are within the budget of the step, at least one for each of the
    requests, which run, and none past the length of the model. *)
Theorem schedule_output_sound s : ready s →
  match schedule s with
  | Ret o s' =>
      (request_id ∘ new_request <$> scheduled_new_reqs o) ++ req_ids (scheduled_cached_reqs o)
        ≡ₚ od_keys (out_num_scheduled_tokens o)
      ∧ NoDup (od_keys (out_num_scheduled_tokens o))
      ∧ parallel (scheduled_cached_reqs o)
      ∧ total_num_scheduled_tokens o = sumZ (od_values (out_num_scheduled_tokens o))
      ∧ total_num_scheduled_tokens o ≤ max_num_scheduled_tokens (config s)
      ∧ ∀ id n, od_get id (out_num_scheduled_tokens o) = Some n →
          1 ≤ n ∧ id ∈ running s' ∧ ∃ r, od_get id (requests s') = Some r
            ∧ num_computed_tokens (req r) ≤ sched_max_model_len (config s) - 1
  | Exc _ _ => True
  end.
Proof.
  intros Hs. pose proof (wp_schedule s Hs) as Hw. unfold wp in Hw. destruct (schedule s) as [o s'|]; [|done].
  destruct Hw as (p & s1 & s2 & Hpl & Ho & R2 & H'). destruct (pd_plan _ _ _ Hpl) as (tokens & Ht & Hp).
  pose proof (re_scheduled _ _ Ho) as Hsch. pose proof (re_total _ _ Ho) as Htot.
  split; [apply Ho|]. split; [rewrite Hsch; apply Hp|]. split; [apply Ho|]. split; [done|]. split.
  - rewrite Htot, Hsch. pose proof (pl_budget _ _ _ Hp). pose proof (pl_left _ _ _ Hp). lia.
  - intros id n Hn. destruct (stepped_request _ _ _ _ _ _ _ _ Hpl Ho R2 H' Hn) as (Hn1 & Hin & r & r' & _ & Hr' & -> & _ & Hb).
    split; [done|]. split; [done|]. eexists. split; [exact Hr'|].
    by rewrite (proj1 (scheduled_of_facts (config s) n (drafts p id) r)).
Qed.

(** C8. The assertions on the budgets at the end of the two phases never fail, and
    the requests preempted were running, are not scheduled, and wait with
    nothing computed; in a step that preempts no request is admitted. *)
Theorem schedule_constraints_hold s : ready s →
  match schedule_requests lt_id time_time time_monotonic set_order s with
  | Ret p s' =>
      check_constraints p s' = Ret tt s'
      ∧ NoDup (preempted_reqs p)
      ∧ (∀ id, id ∈ preempted_reqs p → id ∈ running s ∧ id ∉ od_keys (num_scheduled_tokens p)
           ∧ id ∈ waiting_items (waiting s') ∧ ∃ r, od_get id (requests s') = Some r
             ∧ status (req r) = PREEMPTED ∧ num_computed_tokens (req r) = 0)
      ∧ (preempted_reqs p ≠ [] → scheduled_new p = [] ∧ scheduled_resumed p = [])
  | Exc _ _ => True
  end.
Proof.
  intros [Hs Hset Hmax]. pose proof (wp_schedule_requests lt_id time_time time_monotonic set_order s Hs Hset Hmax) as Hw.
  unfold wp in Hw. destruct (schedule_requests _ _ _ _ s) as [p s'|]; [|done]. split; [by eapply planned_constraints|].
  destruct (pd_preempted _ _ _ Hw) as [Hnd Hpre]. split; [done|]. split; [|apply Hw].
  intros id Hid. destruct (Hpre id Hid) as (H1 & H2 & H3 & H4). split; [done|]. split; [|done].
  intros [n Hn]%od_get_is_Some. destruct (pd_plan _ _ _ Hw) as (tokens & _ & Hp). by apply (pl_tokens _ _ _ Hp) in Hn as (_ & ? & _).
Qed.


(** The account of the loop over the running requests: scheduled and preempted
    requests are apart, and every running one stays or is preempted; what the
    requests are given is what the budgets lose, the preempted ones giving
    theirs back, but for the encoder budget under the priority policy; a
    scheduled request gets a token at least, and no more than it has left. *)
Record accounts s p p' s' : Prop := {
  ac_running : running s' ++ preempted_reqs p' ≡ₚ running s;
  ac_keys : od_keys (num_scheduled_tokens p') = scheduled_running_reqs p';
  ac_apart : NoDup (scheduled_running_reqs p' ++ preempted_reqs p');
  ac_tokens : token_budget p' + sumZ (od_values (num_scheduled_tokens p')) = token_budget p ∧ 0 ≤ token_budget p';
  ac_prefill : prefill_budget p' + sumZ (od_values (scheduled_prefill_tokens p')) = prefill_budget p
    ∧ 0 ≤ prefill_budget p';
  ac_encoder : let left := encoder_compute_budget p' + embeds_spent s (scheduled_encoder_inputs p') in
    left ≤ encoder_compute_budget p ∧ (policy (config s) = Controller.FCFS → left = encoder_compute_budget p);
  ac_each id n : od_get id (num_scheduled_tokens p') = Some n →
    1 ≤ n ∧ ∃ r, od_get id (requests s) = Some r ∧ n ≤ room s r
}.

Lemma running_accounts s p p' s' parts_ok fits : sched_inv s →
  running_inv s (token_budget p) (prefill_budget p) (encoder_compute_budget p) (tokencake p) parts_ok fits p' s' →
  accounts s p p' s'.
Proof.
  intros Hs [_ _ _ Hev Hst]. split; try apply Hst; [apply Hev| | | |].
  - pose proof (evolved_nodup s Hs _ _ Hev) as Hnd. apply NoDup_app in Hnd as (_ & Hd & Hnd). apply NoDup_app.
    split; [apply Hst|]. split; [|done]. intros id (i & Hi & _)%(st_prefix _ _ _ _ _ _ _ Hst)%elem_of_take.
    apply Hd. by eapply list_elem_of_lookup_2.
  - split; apply Hst.
  - split; apply Hst.
  - intros id n Hn. destruct (st_tokens _ _ _ _ _ _ _ Hst _ _ Hn) as (? & r & ? & ? & _). split; [done|]. by exists r.
Qed.

(** C9. Whatever the configuration, when the loop over the running requests ends
    each request that ran still runs or was preempted, the scheduled ones have a
    token at least and no more than they have left, and what they are given is
    what the token and the prefill budget lose, the preempted ones giving theirs
    back.  The encoder budget is exact when requests are served in their order.
    By priority it is only never overspent: what a preempted request gives back
    is lost when the request it makes place for has encoder inputs. *)
Theorem running_phase_accounts s p : ready s → fresh (config s) p →
  match running_phase (length (running s)) p s with Ret p' s' => accounts s p p' s' | Exc _ _ => True end.
Proof.
  intros [Hs Hset Hmax] Hfr.
  pose proof (wp_loop lt_id time_monotonic set_order s (token_budget p) (prefill_budget p) (encoder_compute_budget p)
    (tokencake p) True any_parts any_fits Hs (length (running s)) p s) as Hw.
  unfold wp in Hw. destruct (running_phase _ p s) as [p' s'|]; [|done]. eapply running_accounts; [done|apply Hw].
  - by apply fresh_running.
  - rewrite (fr_index _ _ Hfr). unfold zlen. lia.
Qed.

(** C7. In a plain engine (one full-attention group, no TokenCake scheduling, text
    requests with their full blocks hashed) the loop always ends, without an
    error, with that account, and leaves the engine fit for the next step. *)
Theorem running_phase_total size hash_size longest s p :
  sched_inv s → plain_parts size hash_size longest (running s) s → all_fit (plain_fits size hash_size) s →
  fresh (config s) p →
  ∃ p' s', running_phase (length (running s)) p s = Ret p' s' ∧ accounts s p p' s' ∧ sched_inv s'
    ∧ plain_parts size hash_size longest (running s') s' ∧ all_fit (plain_fits size hash_size) s'.
Proof.
  intros Hs Hparts Hfit Hfr.
  destruct (wp_total _ _ _ (wp_loop lt_id time_monotonic set_order s (token_budget p) (prefill_budget p)
    (encoder_compute_budget p) (tokencake p) False (plain_parts size hash_size longest) (plain_fits size hash_size)
    Hs (length (running s)) p s (fresh_running_inv _ _ p s Hs Hparts Hfit Hfr) ltac:(rewrite (fr_index _ _ Hfr); unfold zlen; lia)))
    as (p' & s' & Hrun & Hru).
  exists p', s'. split; [done|]. split; [by eapply running_accounts|]. by destruct Hru.
Qed.
End props.
