(* ===== verification/SchedulerUpdate.v ===== *)
(** * The results of a step

    What [update_from_output] does to each request of the step: its tokens are
    appended up to the one it stops at; stopped requests are freed. *)
From S2P Require Import Prelude Hoare PyFloat Metrics Request BlockPool KVCache Scoring Scheduling.
From S2P Require Import Config EncoderCache RequestQueue QueueLaws SchedUtils Pressure ControllerSteady Scheduler SchedulerFacts.
From S2P Require Import SchedulerAny SchedulerStep SchedulerEvents SchedulerKeeps SchedulerWaiting SchedulerAdmit.
Import Sched Step Events.
Local Open Scope Z_scope.

(** ** A request gets tokens *)
Section tokens.
Context {F : Type} `{FO : FloatOps F}.
Implicit Types (x y : Request F).

Lemma append_fields h ts x y : append_output_token_ids h ts x = Some y →
  ∃ hashes, y = put_block_hashes hashes (put_all_token_ids (all_token_ids x ++ ts)
                  (put_output_token_ids (output_token_ids x ++ ts) x)).
Proof.
  unfold append_output_token_ids, update_block_hashes. destruct h as [h|].
  - destruct (h _); [|done]. intros [= <-]. by eexists.
  - intros [= <-]. by exists (block_hashes x).
Qed.

(** The stop test finishes the request or leaves it, with room for a token. *)
Lemma check_stop_fields x n b y : check_stop x n = Some (b, y) →
  if b then is_finished y = true ∧ ∃ st reason, y = put_stop_reason reason (put_status st x)
  else y = x ∧ ∃ sp, sampling_params x = Some sp ∧ (num_output_tokens x < min_tokens sp ∨ num_tokens x < n).
Proof.
  unfold check_stop. destruct (pooling_params x); [done|]. destruct (sampling_params x) as [sp|]; [|done].
  destruct (Z.ltb_spec (num_output_tokens x) (min_tokens sp)) as [Hm|Hm].
  { intros [= <- <-]. split; [done|]. exists sp. by split; [|left]. }
  destruct (from_end (output_token_ids x) 1) as [t|]; [|done]. cbn.
  assert (∀ st, x = put_stop_reason (stop_reason x) x) as Heta by (intros; by destruct x).
  case_bool_decide; [intros [= <- <-]; split; [done|]; exists FINISHED_STOPPED, (stop_reason x); by destruct x|].
  case_bool_decide; [intros [= <- <-]; split; [done|]; by eexists FINISHED_STOPPED, _|].
  destruct (orb _ _) eqn:Hlen; [intros [= <- <-]; split; [done|]; exists FINISHED_LENGTH_CAPPED, (stop_reason x); by destruct x|].
  apply orb_false_iff in Hlen as [Hlen%Z.leb_gt _].
  assert (∃ sp', Some sp = Some sp' ∧ (num_output_tokens x < min_tokens sp' ∨ num_tokens x < n)) as Hroom.
  { exists sp. by split; [|right]. }
  destruct (repetition_detection sp) as [params|]; [|by intros [= <- <-]].
  destruct (check_sequence_repetition _ _) as [[]|]; [..|done]; cbn; intros [= <- <-]; [|done].
  split; [done|]. by eexists FINISHED_REPETITION, _.
Qed.

(** [y] is [x] with some more output. *)
Record appended (ts : list Z) x y : Prop := {
  ap_id : request_id y = request_id x;
  ap_computed : num_computed_tokens y = num_computed_tokens x;
  ap_prompt : num_prompt_tokens y = num_prompt_tokens x;
  ap_params : sampling_params y = sampling_params x;
  ap_drafts : spec_token_ids y = spec_token_ids x;
  ap_features : mm_features y = mm_features x;
  ap_all : all_token_ids y = all_token_ids x ++ ts;
  ap_out : output_token_ids y = output_token_ids x ++ ts
}.

Lemma appended_nil x : appended [] x x.
Proof. split; by rewrite ?app_nil_r. Qed.
Lemma appended_trans ts us x y z : appended ts x y → appended us y z → appended (ts ++ us) x z.
Proof. intros [] []. split; try congruence; rewrite (assoc_L (++)); congruence. Qed.
Lemma appended_num ts x y : appended ts x y → num_tokens y = num_tokens x + zlen ts.
Proof. intros Ha. unfold num_tokens. unfold zlen. rewrite (ap_all _ _ _ Ha), length_app. lia. Qed.

Lemma appended_one h t x y n b z : append_output_token_ids h [t] x = Some y → check_stop y n = Some (b, z) →
  appended [t] x z.
Proof.
  intros (hs & ->)%append_fields Hstop%check_stop_fields. destruct b.
  - destruct Hstop as (_ & st & reason & ->). by split.
  - destruct Hstop as [-> _]. by split.
Qed.

(** ** Which tokens, and what ends the request *)
(** The request with some more output. *)
Definition with_output (us : list Z) x : Request F :=
  put_all_token_ids (all_token_ids x ++ us) (put_output_token_ids (output_token_ids x ++ us) x).

(** What the stop test says once [us] has come, and the status it leaves. *)
Definition verdict (n : Z) (us : list Z) x : option (bool * RequestStatus) :=
  (λ p, (p.1, status p.2)) <$> check_stop (with_output us x) n.

(** The part [us] of the tokens [ts] a request gets: up to the first token at
    which the stop test holds, that token included, or all of them. *)
Record part (n : Z) (ts : list Z) x (us : list Z) : Prop := {
  pa_prefix : us `prefix_of` ts;
  pa_some : ts ≠ [] → us ≠ [];
  pa_open vs : vs `prefix_of` us → vs ≠ [] → vs ≠ us → fst <$> verdict n vs x = Some false;
  pa_end : us = ts ∨ fst <$> verdict n us x = Some true
}.

(** What becomes of the request: it stops at its last token, or for its pooling
    result, or because its grammar [rejects] the tokens; or it goes on. *)
Definition fate (n : Z) (rejects : string → list Z → bool) (id : string) (pooling : bool) (us : list Z) x : option RequestStatus :=
  if bool_decide (us = []) then
    if bool_decide (is_Some (pooling_params x)) && pooling then Some FINISHED_STOPPED else None
  else if rejects id us then Some FINISHED_ERROR
  else match verdict n us x with Some (true, st) => Some st | _ => None end.

(** What the stop test reads of a request *)
Record alike x y : Prop := {
  al_pooling : pooling_params y = pooling_params x;
  al_sampling : sampling_params y = sampling_params x;
  al_out : output_token_ids y = output_token_ids x;
  al_all : all_token_ids y = all_token_ids x;
  al_max : max_tokens y = max_tokens x;
  al_status : status y = status x
}.

Lemma alike_verdict n us x y : alike x y → verdict n us y = verdict n us x.
Proof.
  intros [H1 H2 H3 H4 H5 H6]. unfold verdict, check_stop, num_output_tokens, num_tokens. cbn. rewrite H1, H2, H3, H4, H5.
  destruct (pooling_params x); [done|]. destruct (sampling_params x) as [sp|]; [|done].
  destruct (_ <? _); [cbn; by rewrite H6|]. destruct (from_end _ _); [|done]. cbn.
  repeat (case_bool_decide; [done|]). destruct (orb _ _); [done|]. destruct (repetition_detection sp); [|cbn; by rewrite H6].
  destruct (check_sequence_repetition _ _) as [[]|]; cbn; by rewrite ?H6.
Qed.
Lemma alike_part n ts us x y : alike x y → part n ts y us → part n ts x us.
Proof.
  intros Ha [H1 H2 H3 H4]. split; [done|done|..].
  - intros vs. rewrite <-(alike_verdict n vs x y Ha). apply H3.
  - by rewrite <-(alike_verdict n us x y Ha).
Qed.
Lemma alike_fate n rejects id pooling us x y : alike x y → fate n rejects id pooling us y = fate n rejects id pooling us x.
Proof. intros Ha. unfold fate. by rewrite (alike_verdict n us x y Ha), (al_pooling _ _ Ha). Qed.

(** A token is appended and the test made. *)
Lemma append_alike h t x y : append_output_token_ids h [t] x = Some y → alike (with_output [t] x) y.
Proof. intros (hs & ->)%append_fields. by split. Qed.
Lemma alike_later us x y t : alike (with_output [t] x) y → alike (with_output (t :: us) x) (with_output us y).
Proof. intros [H1 H2 H3 H4 H5 H6]. cbn in *. split; cbn; try done; [rewrite H3|rewrite H4]; by rewrite <-(assoc_L (++)). Qed.
Lemma alike_stop x y n : alike x y → (λ p, (p.1, status p.2)) <$> check_stop y n = (λ p, (p.1, status p.2)) <$> check_stop x n.
Proof.
  intros Ha. pose proof (alike_verdict n [] x y Ha) as E. unfold verdict, with_output in E. rewrite !app_nil_r in E.
  assert (∀ z : Request F, put_all_token_ids (all_token_ids z) (put_output_token_ids (output_token_ids z) z) = z) as Heta by by intros [].
  by rewrite !Heta in E.
Qed.
Lemma later_verdict us x y t n : alike (with_output [t] x) y → verdict n us y = verdict n (t :: us) x.
Proof. intros Ha. unfold verdict. by apply alike_stop, alike_later. Qed.

Lemma part_nil n x : part n [] x [].
Proof. split; try done; [|by left]. by intros vs ->%prefix_nil_inv. Qed.
Lemma part_stop n t ts x : fst <$> verdict n [t] x = Some true → part n (t :: ts) x [t].
Proof.
  intros Hv. split; [by apply prefix_cons, prefix_nil|done| |by right]. intros [|v vs] Hp Hne Hn; [done|]. destruct Hn.
  apply prefix_cons_inv_1 in Hp as Hc. apply prefix_cons_inv_2, prefix_nil_inv in Hp. congruence.
Qed.
Lemma part_cons n t ts x y us : alike (with_output [t] x) y → fst <$> verdict n [t] x = Some false →
  part n ts y us → part n (t :: ts) x (t :: us).
Proof.
  intros Ha Hv [H1 H2 H3 H4]. split; [by apply prefix_cons|done|..].
  - intros [|v vs] Hp Hne Hn; [done|]. apply prefix_cons_inv_1 in Hp as Hc. subst v. apply prefix_cons_inv_2 in Hp.
    destruct vs as [|v vs]; [done|]. rewrite <-(later_verdict _ x y t) by done. apply H3; [done|done|congruence].
  - destruct H4 as [->|H4]; [by left|right]. by rewrite <-(later_verdict _ x y t).
Qed.

Lemma sane_appended cfg ts (r : SchedRequest F) y : sane cfg r → appended ts (req r) y → sane cfg (put_req y r).
Proof.
  intros [H1 H2 H3 H4] Ha. split; cbn.
  - rewrite (appended_num _ _ _ Ha), (ap_prompt _ _ _ Ha), H1. unfold num_output_tokens, zlen. rewrite (ap_out _ _ _ Ha), length_app. lia.
  - rewrite (ap_prompt _ _ _ Ha), (ap_params _ _ _ Ha). done.
  - done.
  - by rewrite (ap_drafts _ _ _ Ha).
Qed.
End tokens.

Section update.
Context {F : Type} `{FO : FloatOps F} `{FL : FloatLog1p F}.
Context {C : Type} `{KC : KVConnector F C}.
Context (lt_id : bool) (time_time time_monotonic : nat → F) (set_order : gset string → list string).
Context (block_hasher : option (Request F → option (list (list Z)))).
Notation State := (SchedulerState (F := F) (C := C)).
Notation E := (raises True).
Implicit Types (s : State) (r : SchedRequest F) (x y : Request F).

(** ** A call that concerns one request *)
Definition besides s := (config s, waiting s, skipped_waiting s, running s).

(** The queues are as they were, and so are the requests but [id]. *)
Record touches (id : string) s s' : Prop := {
  to_same : besides s' = besides s;
  to_wf : od_wf (requests s) → od_wf (requests s');
  to_other j : j ≠ id → od_get j (requests s') = od_get j (requests s);
  to_settings : settings_ok s → settings_ok s';
  to_finished : finished_req_ids s ⊆ finished_req_ids s'
}.

Lemma touches_refl id s : touches id s s.
Proof. by split. Qed.
Lemma touches_trans id s1 s2 s3 : touches id s1 s2 → touches id s2 s3 → touches id s1 s3.
Proof.
  intros [A1 A2 A3 A4 A5] [B1 B2 B3 B4 B5]. split; [congruence|auto|..|auto|set_solver].
  intros j Hj. by rewrite B3, A3.
Qed.
Lemma touches_frame id s s' : frame s s' → settings_ok s' → touches id s s'.
Proof.
  intros Hf Hs. injection Hf as E1 E2 E3 E4 E5 E6 E7 E8 E9 E10. split; unfold besides; rewrite ?E2, ?E6; try done. congruence.
Qed.
Lemma touches_alter id f s : touches id s (put_requests (od_alter f id (requests s)) s).
Proof.
  split; try done; cbn; [apply od_wf_alter|]. intros j Hj. rewrite od_get_alter. by rewrite decide_False.
Qed.

(** A call on a part, while looking after one request. *)
Lemma wp_part_of {A B} (c : M State A) (k : A → M State B) id s0 s Q :
  touches id s0 s → settings_ok s0 → (settings_ok s → wp c (λ _ s', frame s s' ∧ settings_ok s') E s) →
  (∀ a s', touches id s0 s' → requests s' = requests s → finished_req_ids s' = finished_req_ids s → wp (k a) Q E s') →
  wp (c ≫= k) Q E s.
Proof.
  intros Ht Hs Hc Hk. eapply wp_step; [apply Hc; by apply Ht|]. intros a s' [Hf Hs']. apply Hk.
  - eapply touches_trans; [done|by apply touches_frame].
  - by injection Hf.
  - by injection Hf.
Qed.

(** ** Freeing *)
Lemma wp_free_blocks id s : settings_ok s →
  wp (free_blocks set_order id) (λ _ s', touches id s s' ∧ finished_req_ids s' = finished_req_ids s
    ∧ requests s' = od_del id (requests s) ∧ ∃ r, od_get id (requests s) = Some r ∧ is_finished (req r) = true) E s.
Proof.
  intros Hset. unfold free_blocks. apply wp_bind, wp_request. intros r Hr.
  apply wp_bind, wp_assert; [intros Hfin|done].
  eapply (wp_part_of _ _ id s s); [apply touches_refl|done|apply any_kv|]. intros [] s1 T1 R1 Fi1.
  eapply (wp_part_of _ _ id s s1); [done|done|apply any_controller, steady_release|]. intros [] s2 T2 R2 Fi2.
  apply wp_modify. split_and!; [|cbn; congruence|cbn; by rewrite R2, R1|by exists r].
  eapply touches_trans; [exact T2|]. split; try done; cbn; [apply od_wf_del|].
  intros j Hj. by rewrite od_get_del, decide_False.
Qed.

Lemma wp_connector_finished id s : settings_ok s →
  wp (connector_finished id) (λ _ s', frame s s' ∧ settings_ok s') E s.
Proof.
  intros Hset. unfold connector_finished. apply wp_get. destruct (connector s); [|by apply wp_ret].
  apply wp_bind, wp_request. intros r Hr. eapply wp_step; [by apply any_kv|]. intros [] s1 [F1 S1]. apply wp_get.
  eapply wp_mono; [by apply any_connector| |done]. intros b s2 [F2 S2]. split; [by eapply frame_then|done].
Qed.

(** A freed request is gone, or waits for a transfer of its blocks. *)
Definition freed_of id s s' : Prop :=
  touches id s s' ∧ finished_req_ids s' = {[id]} ∪ finished_req_ids s
  ∧ (requests s' = requests s ∨ requests s' = od_del id (requests s)).

Lemma wp_free_request id delay s r : settings_ok s → od_get id (requests s) = Some r →
  wp (free_request time_monotonic set_order id delay) (λ _ s', freed_of id s s' ∧ is_finished (req r) = true) E s.
Proof.
  intros Hset Hr. unfold free_request. apply wp_bind, (wp_get_request _ _ r); [done|].
  apply wp_bind, wp_assert; [intros Hfin|done].
  eapply (wp_part_of _ _ id s s); [apply touches_refl|done|apply any_controller, steady_finish|]. intros [] s1 T1 R1 Fi1.
  eapply (wp_part_of _ _ id s s1); [done|done|apply wp_connector_finished|]. intros b s2 T2 R2 Fi2.
  eapply (wp_part_of _ _ id s s2); [done|done|apply any_encoder|]. intros [] s3 T3 R3 Fi3.
  apply wp_bind, wp_modify. set (s4 := put_finished_req_ids _ s3).
  assert (touches id s s4) as T4 by (eapply touches_trans; [exact T3|]; split; try done; cbn; set_solver).
  assert (finished_req_ids s4 = {[id]} ∪ finished_req_ids s) as Fi4 by (cbn; congruence).
  assert (requests s4 = requests s) as R4 by (cbn; congruence).
  apply wp_if; intros _; [apply wp_ret; split; [|done]; split_and!; auto|].
  eapply wp_mono; [apply wp_free_blocks, (to_settings _ _ _ T4), Hset| |done]. intros [] s5 (T5 & Fi5 & R5 & _).
  split; [|done]. split_and!; [by eapply touches_trans|by rewrite Fi5|right; by rewrite R5, R4].
Qed.

(** ** The tokens of a request *)
Lemma wp_append_tokens id ts : ∀ s r, od_get id (requests s) = Some r →
  wp (append_tokens block_hasher id ts)
    (λ a s', touches id s s' ∧ ∃ y, od_get id (requests s') = Some (put_req y r) ∧ appended a.1 (req r) y
       ∧ part (sched_max_model_len (config s)) ts (req r) a.1
       ∧ (ts ≠ [] → verdict (sched_max_model_len (config s)) a.1 (req r) = Some (a.2, status y))
       ∧ (ts = [] → a.2 = false)
       ∧ if a.2 then is_finished y = true
         else status y = status (req r) ∧ (ts ≠ [] → sane (config s) r → num_tokens y ≤ sched_max_model_len (config s) - 1)) E s.
Proof.
  induction ts as [|t ts IH]; intros s r Hr; cbn [append_tokens].
  { apply wp_ret. split; [apply touches_refl|]. exists (req r). split; [by destruct r|]. split; [apply appended_nil|].
    split; [apply part_nil|]. by split_and!. }
  apply wp_bind, (wp_get_request _ _ r); [done|]. apply wp_bind, wp_some_or; [intros y Hy|done].
  apply wp_bind, wp_alter_request. set (s1 := put_requests _ s). apply wp_get. apply wp_bind, wp_some_or; [|done].
  intros [b z] Hstop. change (config s1) with (config s) in *. apply wp_bind, wp_alter_request. set (s2 := put_requests _ s1).
  cbn [fst snd] in *.
  assert (touches id s s2) as T2 by (eapply touches_trans; [apply touches_alter|apply touches_alter]).
  assert (od_get id (requests s2) = Some (put_req z r)) as Hr2.
  { cbn. by rewrite !od_get_alter, !decide_True, Hr by done. }
  pose proof (appended_one _ _ _ _ _ _ _ Hy Hstop) as Hz. pose proof (append_fields _ _ _ _ Hy) as (hs & Ey).
  pose proof (append_alike _ _ _ _ Hy) as Hal.
  assert (verdict (sched_max_model_len (config s)) [t] (req r) = Some (b, status z)) as Hv.
  { unfold verdict. rewrite <-(alike_stop _ _ _ Hal), Hstop. done. }
  pose proof (check_stop_fields _ _ _ _ Hstop) as Hs. destruct b.
  { apply wp_ret. split; [done|]. exists z. split; [done|]. split; [done|]. split; [apply part_stop; by rewrite Hv|].
    split; [done|]. split; [done|]. apply Hs. }
  destruct Hs as [-> (sp & Hsp & Hroom)].
  eapply wp_step; [apply (IH s2 (put_req y r) Hr2)|]. intros [us b] s3 (T3 & z & Hr3 & Hz3 & Hpa & Hvs & Hnil & Hb). cbn [fst snd] in *.
  change (config s2) with (config s) in *. change (req (put_req y r)) with y in *.
  apply wp_ret. cbn [fst snd]. split; [by eapply touches_trans|]. exists z. split; [by rewrite Hr3; destruct r|].
  split; [by apply (appended_trans [t] us _ y)|]. split; [eapply part_cons; [exact Hal|by rewrite Hv|done]|].
  split.
  { intros _. destruct (decide (ts = [])) as [->|Hne].
    - pose proof (pa_prefix _ _ _ _ Hpa) as Hp. apply prefix_nil_inv in Hp as ->. rewrite Hv.
      rewrite (Hnil eq_refl) in Hb |- *. by destruct Hb as [-> _].
    - rewrite <-(later_verdict us _ y t) by done. by apply Hvs. }
  split; [done|]. destruct b; [done|].
  destruct Hb as [Hst Hb]. split; [rewrite Hst; by rewrite Ey|]. intros _ Hsane.
  pose proof (sane_appended _ _ _ _ Hsane Hz) as Hsane2. destruct ts as [|t' ts].
  - pose proof (pa_prefix _ _ _ _ Hpa) as Hp. apply prefix_nil_inv in Hp as ->. apply appended_num in Hz3. change (zlen []) with 0 in Hz3. destruct Hsane2 as [N1 N2 _ _].
    specialize (N2 sp Hsp). change (req (put_req y r)) with y in *. lia.
  - by apply Hb.
Qed.

(** What is known of the progress of a request once the rejected drafts are
    taken off. *)
Record between (cfg : SchedulerConfig) r : Prop := {
  bt_computed : num_computed_tokens (req r) ≤ num_tokens (req r) + num_output_placeholders r
                ∨ num_computed_tokens (req r) ≤ 0;
  bt_len : num_computed_tokens (req r) ≤ sched_max_model_len cfg - 1;
  bt_features : Forall (λ f, 0 ≤ mm_length f) (mm_features (req r))
}.

(** A request that has received [ts], and has stopped or not. *)
Record received cfg (ts : list Z) (stopped : bool) r r' : Prop := {
  rc_id : request_id (req r') = request_id (req r);
  rc_all : all_token_ids (req r') = all_token_ids (req r) ++ ts;
  rc_sane : sane cfg r';
  rc_end : if stopped then is_finished (req r') = true else status (req r') = status (req r) ∧ tokens_ok cfg r'
}.

Lemma received_alive cfg ts r y n : ts ≠ [] → sane cfg r → between cfg r → appended ts (req r) y →
  num_tokens y ≤ sched_max_model_len cfg - 1 → 0 ≤ n → n = num_output_placeholders r - zlen ts ∨ n = num_output_placeholders r →
  tokens_ok cfg (put_placeholders n (put_req y r)).
Proof.
  intros Hne [_ _ _ _] [Hc Hl Hf] Ha Hn H0 Hph. pose proof (appended_num _ _ _ Ha) as Hnum.
  assert (0 ≤ num_tokens (req r)) by (unfold num_tokens, zlen; lia). assert (0 ≤ zlen ts) by (unfold zlen; lia).
  unfold tokens_ok. change (req (put_placeholders n (put_req y r))) with y.
  change (num_output_placeholders (put_placeholders n (put_req y r))) with n.
  rewrite (ap_computed _ _ _ Ha), (ap_features _ _ _ Ha). split_and!; try done; lia.
Qed.

Lemma wp_update_request id ts s r : settings_ok s → od_get id (requests s) = Some r → ts ≠ [] →
  sane (config s) r → between (config s) r →
  wp (update_request_with_output block_hasher id ts)
    (λ a s', touches id s s' ∧ part (sched_max_model_len (config s)) ts (req r) a.1
       ∧ ∃ r', od_get id (requests s') = Some r' ∧ received (config s) a.1 a.2 r r'
           ∧ verdict (sched_max_model_len (config s)) a.1 (req r) = Some (a.2, status (req r'))) E s.
Proof.
  intros Hset Hr Hne Hsane Hbt. unfold update_request_with_output. apply wp_get.
  destruct (async_scheduling (config s)) eqn:Hasync.
  - unfold append_tokens_async. apply wp_bind, (wp_get_request _ _ r); [done|].
    rewrite (sn_discard _ _ Hsane). cbn [Z.ltb Z.compare].
    eapply wp_step; [by apply wp_append_tokens|]. intros [us b] s1 (T1 & y & Hr1 & Ha & Hpa & Hv & _ & Hb). cbn [fst snd] in *.
    pose proof (pa_some _ _ _ _ Hpa Hne) as Hus. apply wp_bind, wp_alter_request. set (s2 := put_requests _ s1).
    set (r2 := put_placeholders (num_output_placeholders r - zlen us) (put_req y r)).
    assert (od_get id (requests s2) = Some r2) as Hr2 by (cbn; by rewrite od_get_alter, decide_True, Hr1 by done).
    assert (touches id s s2) as T2 by (eapply touches_trans; [done|apply touches_alter]).
    apply wp_bind, (wp_get_request _ _ r2); [done|]. apply wp_bind, wp_assert; [intros Hph%Z.leb_le|done].
    eapply (wp_part_of _ _ id s s2); [done|done| |].
    { intros Hset2. apply wp_if; intros _; [by apply any_kv|by apply wp_ret]. }
    intros [] s3 T3 R3 _. apply wp_ret. cbn [fst snd]. split; [done|]. split; [done|].
    exists r2. split; [by rewrite R3|]. split; [|by apply Hv]. pose proof (sane_appended _ _ _ _ Hsane Ha) as [N1 N2 N3 N4].
    split; [apply Ha|apply Ha|split; try done; by left|]. destruct b; [done|]. destruct Hb as [Hst Hb].
    split; [done|]. apply (received_alive _ us); try done; [by apply Hb|by left].
  - eapply wp_mono; [by apply wp_append_tokens| |done]. intros [us b] s1 (T1 & y & Hr1 & Ha & Hpa & Hv & _ & Hb).
    cbn [fst snd] in *. pose proof (pa_some _ _ _ _ Hpa Hne) as Hus. split; [done|]. split; [done|].
    exists (put_req y r). split; [done|]. split; [|by apply Hv]. split; [apply Ha|apply Ha|by eapply sane_appended|]. destruct b; [done|]. destruct Hb as [Hst Hb]. split; [done|].
    assert (num_output_placeholders r = 0) as H0 by (by destruct (sn_drafts _ _ Hsane) as [|[_ ?]]; [congruence|]).
    pose proof (received_alive _ _ _ _ (num_output_placeholders r) Hus Hsane Hbt Ha (Hb Hne Hsane) ltac:(lia) ltac:(by right)) as Ht.
    by destruct r.
Qed.

(** The drafts the model rejected are taken off. *)
Lemma rejected_between cfg k r : sane cfg r → tokens_ok cfg r → 0 ≤ k →
  sane cfg (reject_drafts k r) ∧ between cfg (reject_drafts k r).
Proof.
  intros [N1 N2 N3 N4] (T1 & T2 & T3 & T4 & T5) Hk. unfold reject_drafts.
  destruct (Z.ltb_spec 0 (num_computed_tokens (req r))) as [Hc|Hc];
    match goal with |- context [0 <? ?x] => change x with (num_output_placeholders r) end;
    destruct (Z.ltb_spec 0 (num_output_placeholders r)) as [Hp|Hp]; (split; [split; try done|split; try done]);
    try (cbn; lia); try (destruct N4 as [|[? ?]]; [by left|first [lia|by right]]).
  all: try (left; cbn; change (num_tokens (put_num_computed_tokens _ (req r))) with (num_tokens (req r)); lia).
  all: try (right; cbn; lia).
Qed.

(** ** One request of the step *)
(** The status a request that has stopped has. *)
Definition end_of (stopped : bool) r' : option RequestStatus := if stopped then Some (status (req r')) else None.

Lemma wp_receive id ts pooling s r : settings_ok s → od_get id (requests s) = Some r → sane (config s) r →
  between (config s) r → (ts = [] → tokens_ok (config s) r) →
  wp (receive block_hasher id ts pooling)
    (λ a s', touches id s s' ∧ part (sched_max_model_len (config s)) ts (req r) a.1
       ∧ ∃ r', od_get id (requests s') = Some r' ∧ received (config s) a.1 a.2 r r'
           ∧ fate (sched_max_model_len (config s)) (λ _ _, false) id pooling a.1 (req r) = end_of a.2 r') E s.
Proof.
  intros Hset Hr Hsane Hbt Hok. unfold receive. apply wp_bind, (wp_get_request _ _ r); [done|].
  apply wp_if; intros Hts.
  { apply negb_true_iff, bool_decide_eq_false in Hts. eapply wp_mono; [by apply wp_update_request| |done].
    intros [us b] s' (H1 & H2 & r' & H3 & H4 & H5). split; [done|]. split; [done|]. exists r'. split; [done|]. split; [done|].
    unfold fate. cbn [fst snd] in *. rewrite bool_decide_eq_false_2 by (by apply (pa_some _ _ _ _ H2)). rewrite H5. by destruct b. }
  apply negb_false_iff, bool_decide_eq_true in Hts as ->. apply wp_if; intros Hp.
  - apply wp_bind, wp_alter_request, wp_ret. split; [apply touches_alter|]. split; [apply part_nil|].
    eexists. split; [cbn; by rewrite od_get_alter, decide_True, Hr|].
    split; [split; [done|by rewrite app_nil_r|by destruct Hsane|done]|]. unfold fate. cbn [fst snd]. by rewrite bool_decide_eq_true_2, Hp.
  - apply wp_ret. split; [apply touches_refl|]. split; [apply part_nil|]. exists r. split; [done|].
    split; [split; [done|by rewrite app_nil_r|done|]; split; [done|by apply Hok]|].
    unfold fate. cbn [fst snd]. by rewrite bool_decide_eq_true_2, Hp.
Qed.

Lemma wp_check_grammar rejects id a s cfg n pooling r r' : od_get id (requests s) = Some r' → received cfg a.1 a.2 r r' →
  fate n (λ _ _, false) id pooling a.1 (req r) = end_of a.2 r' →
  wp (check_grammar rejects id a)
    (λ b s', touches id s s' ∧ b.1 = a.1 ∧ ∃ r2, od_get id (requests s') = Some r2 ∧ received cfg b.1 b.2 r r2
       ∧ fate n rejects id pooling b.1 (req r) = end_of b.2 r2) E s.
Proof.
  intros Hr [R1 R2 R3 R4] Hfate. unfold check_grammar. apply wp_if; intros Hg.
  - apply wp_bind, wp_alter_request, wp_ret. split; [apply touches_alter|]. split; [done|].
    eexists. split; [cbn; by rewrite od_get_alter, decide_True, Hr|]. split; [split; [done..|by destruct R3|done]|].
    apply andb_true_iff in Hg as [Hne%negb_true_iff Hg]. unfold fate. cbn [fst snd]. by rewrite Hne, Hg.
  - apply wp_ret. split; [apply touches_refl|]. split; [done|]. exists r'. split; [done|]. split; [done|].
    rewrite <-Hfate. unfold fate. case_bool_decide; [done|]. cbn [negb andb] in Hg. by rewrite Hg.
Qed.

(** The tokens the model has sampled for a request. *)
Definition sampled (out : ModelRunnerOutput) (id : string) : list Z :=
  default [] (index ← od_get id (req_id_to_index out); py_index (sampled_token_ids out) index).

(** What is reported of a request. *)
Definition report (id : string) (ts : list Z) (reason : option FinishReason) (stop : option StopReason) (pooling : bool) :
    EngineCoreOutput :=
  {| output_request_id := id; output_new_token_ids := ts; output_finish_reason := reason; output_stop_reason := stop;
     pooled := pooling |}.

(** What a request makes of the tokens sampled for it. *)
Definition dealt (rejects : string → list Z → bool) (out : ModelRunnerOutput) (cfg : SchedulerConfig) (id : string) r
    (ts : list Z) (pooling : bool) (end_ : option RequestStatus) : Prop :=
  part (sched_max_model_len cfg) (sampled out id) (req r) ts
  ∧ fate (sched_max_model_len cfg) rejects id pooling ts (req r) = end_.

(** What the step does with a request: nothing, some tokens, or its end. *)
Inductive updated (rejects : string → list Z → bool) (out : ModelRunnerOutput) (failed : gset string) (id : string) s s' (u u' : Updates) : Prop :=
  | updated_not :
      requests s' = requests s → u' = u → (∀ r, od_get id (requests s) = Some r → unfinished r → id ∈ failed) →
      updated rejects out failed id s s' u u'
  | updated_alive r r' ts pooling :
      od_get id (requests s) = Some r → unfinished r → id ∉ failed → dealt rejects out (config s) id r ts pooling None →
      od_get id (requests s') = Some r' → received (config s) ts false r r' →
      stopped_running_reqs u' = stopped_running_reqs u → stopped_preempted_reqs u' = stopped_preempted_reqs u →
      (outputs u' = outputs u ∧ ts = [] ∨ ∃ stop, outputs u' = outputs u ++ [report id ts None stop pooling]) →
      updated rejects out failed id s s' u u'
  | updated_stopped r ts st reason pooling :
      od_get id (requests s) = Some r → unfinished r → id ∉ failed → dealt rejects out (config s) id r ts pooling (Some st) →
      status_finished_reason st = Some reason →
      (∀ r', od_get id (requests s') = Some r' →
         request_id (req r') = request_id (req r) ∧ sane (config s) r' ∧ is_finished (req r') = true
         ∧ all_token_ids (req r') = all_token_ids (req r) ++ ts) →
      id ∈ finished_req_ids s' →
      stopped_running_reqs u' = (if bool_decide (status (req r) = RUNNING) then {[id]} else ∅) ∪ stopped_running_reqs u →
      stopped_preempted_reqs u' = (if bool_decide (status (req r) = RUNNING) then ∅ else {[id]}) ∪ stopped_preempted_reqs u →
      (∃ stop, outputs u' = outputs u ++ [report id ts (Some reason) stop pooling]) →
      updated rejects out failed id s s' u u'.

(** The model returns at most a token more than the drafts of a request. *)
Definition drafts_fit (o : SchedulerOutput F) (out : ModelRunnerOutput) (id : string) : Prop :=
  ∀ spec, od_get id (out_scheduled_spec_decode_tokens o) = Some spec → spec ≠ [] → zlen (sampled out id) ≤ zlen spec + 1.

Lemma wp_result_at {A} (absent : A) l i s (Q : A → State → Prop) :
  (∀ a, (l = [] ∧ a = absent) ∨ py_index l i = Some a → Q a s) → wp (result_at absent l i) Q E s.
Proof.
  intros HQ. unfold result_at. case_bool_decide as Hl; [apply wp_ret, HQ; left; by apply length_zero_iff_nil in Hl|].
  apply wp_some_or; [|done]. intros a Ha. apply HQ. by right.
Qed.

Lemma wp_note_stopped id was u s r : settings_ok s → od_get id (requests s) = Some r →
  wp (note_stopped time_monotonic set_order id was u)
    (λ u' s', freed_of id s s' ∧ is_finished (req r) = true
       ∧ stopped_running_reqs u' = (if bool_decide (was = RUNNING) then {[id]} else ∅) ∪ stopped_running_reqs u
       ∧ stopped_preempted_reqs u' = (if bool_decide (was = RUNNING) then ∅ else {[id]}) ∪ stopped_preempted_reqs u
       ∧ outputs u' = outputs u) E s.
Proof.
  intros Hset Hr. unfold note_stopped. eapply wp_step; [by eapply wp_free_request|]. intros [] s' [Hf Hfin].
  apply wp_ret. split; [done|]. split; [done|]. case_bool_decide; cbn; split_and!; set_solver.
Qed.

(** The request once the rejected drafts are off. *)
Lemma wp_reject o out id ts s r : settings_ok s → od_get id (requests s) = Some r → unfinished r →
  sane (config s) r → tokens_ok (config s) r → drafts_fit o out id → (ts = [] ∨ ts = sampled out id) →
  wp (let spec := default [] (od_get id (out_scheduled_spec_decode_tokens o)) in
      if bool_decide (spec = []) || bool_decide (ts = []) then mret tt
      else alter_request (reject_drafts (zlen spec - (zlen ts - 1))) id)
    (λ _ s', touches id s s' ∧ ∃ r1, od_get id (requests s') = Some r1 ∧ sane (config s) r1 ∧ between (config s) r1
       ∧ (ts = [] → tokens_ok (config s) r1) ∧ request_id (req r1) = request_id (req r)
       ∧ alike (req r) (req r1)) E s.
Proof.
  intros Hset Hr Hu Hsane Htok Hfit Hts. cbv zeta. apply wp_if; intros Hc.
  - apply wp_ret. split; [apply touches_refl|]. exists r. destruct Htok as (T1 & T2 & T3 & T4 & T5).
    split_and!; try done. split; [by left|done..].
  - apply orb_false_iff in Hc as [Hspec%bool_decide_eq_false Hne%bool_decide_eq_false].
    destruct (od_get id (out_scheduled_spec_decode_tokens o)) as [spec|] eqn:Hsp; [|done].
    change (default [] (Some spec)) with spec in *. apply wp_alter_request. destruct Hts as [|Hts]; [done|]. specialize (Hfit spec Hsp Hspec). rewrite <-Hts in Hfit.
    destruct (rejected_between _ (zlen spec - (zlen ts - 1)) _ Hsane Htok ltac:(lia)) as [H1 H2].
    split; [apply touches_alter|]. eexists. split; [cbn; by rewrite od_get_alter, decide_True, Hr|].
    split_and!; try done; unfold reject_drafts; by repeat case_match.
Qed.

Lemma received_from cfg ts b r r1 r2 : request_id (req r1) = request_id (req r) → status (req r1) = status (req r) →
  all_token_ids (req r1) = all_token_ids (req r) → received cfg ts b r1 r2 → received cfg ts b r r2.
Proof. intros E1 E2 E3 [H1 H2 H3 H4]. split; [congruence|congruence|done|]. destruct b; [done|]. by rewrite <-E2. Qed.

Lemma finished_reason r : is_finished (req r) = true → ∃ reason, get_finished_reason (req r) = Some reason.
Proof. intros Hf. apply finished_has_reason in Hf as [reason Hr]. by exists reason. Qed.

(** The end of a request's turn. *)
Lemma wp_turn_end rejects out id ts (b pooling : bool) failed s0 s u r r' :
  touches id s0 s → settings_ok s0 → od_get id (requests s0) = Some r → unfinished r → id ∉ failed →
  dealt rejects out (config s0) id r ts pooling (end_of b r') → od_get id (requests s) = Some r' →
  received (config s0) ts b r r' →
  wp (u ← (if b then note_stopped time_monotonic set_order id (status (req r)) u else mret u);
      if negb (bool_decide (ts = [])) || pooling || b then
        mret (mkUpdates (stopped_running_reqs u) (stopped_preempted_reqs u)
                (outputs u ++ [report id ts (if b then get_finished_reason (req r') else None) (stop_reason (req r')) pooling]))
      else assertM (negb (bool_decide (id ∈ prompt_logprobs out))) ;; mret u)
    (λ u' s', touches id s0 s' ∧ updated rejects out failed id s0 s' u u') E s.
Proof.
  intros Ht Hset Hr Hu Hnf Hdealt Hr' Hrc. destruct b.
  - eapply wp_step; [apply wp_note_stopped; [by apply Ht|done]|].
    intros u' s' ((T' & Fi & Rq) & Hfin & S1 & S2 & S3). rewrite orb_true_r. apply wp_ret.
    split; [by eapply touches_trans|]. destruct (finished_reason _ Hfin) as [reason Hreason].
    eapply (updated_stopped _ _ _ _ _ _ _ _ r ts (status (req r')) reason pooling); try done.
    + intros r2 Hr2. assert (r2 = r') as -> by (destruct Rq as [Rq|Rq]; rewrite Rq in Hr2; [congruence|];
        by rewrite od_get_del, decide_True in Hr2). split; [apply Hrc|]. split; [apply Hrc|]. by split; [|apply Hrc].
    + rewrite Fi. set_solver.
    + cbn. rewrite S3, Hreason. by eexists.
  - apply wp_bind, wp_ret. rewrite orb_false_r. apply wp_if; intros Hout.
    + apply wp_ret. split; [done|]. eapply (updated_alive _ _ _ _ _ _ _ _ r r' ts pooling); try done. right. by eexists.
    + apply wp_bind, wp_assert; [intros _|done]. apply wp_ret. split; [done|].
      eapply (updated_alive _ _ _ _ _ _ _ _ r r' ts pooling); try done. left. split; [done|].
      by apply orb_false_iff in Hout as [?%negb_false_iff%bool_decide_eq_true _].
Qed.

Lemma wp_update_one o out failed rejects u id n s : settings_ok s →
  (∀ r, od_get id (requests s) = Some r → unfinished r → sane (config s) r ∧ tokens_ok (config s) r) →
  drafts_fit o out id →
  wp (update_one time_monotonic set_order block_hasher o out failed rejects u (id, n))
    (λ u' s', touches id s s' ∧ updated rejects out failed id s s' u u') E s.
Proof.
  intros Hset Hok Hfit. unfold update_one. apply wp_bind, wp_assert; [intros _|done]. apply wp_get.
  destruct (od_get id (requests s)) as [r|] eqn:Hr.
  2:{ apply wp_ret. split; [apply touches_refl|]. apply updated_not; [done|done|]. intros r' Hr'. congruence. }
  apply wp_if; intros Hskip.
  { apply wp_ret. split; [apply touches_refl|]. apply updated_not; [done|done|]. intros r' Hr' Hu. assert (r' = r) as -> by congruence.
    apply orb_true_iff in Hskip as [?%bool_decide_eq_true|Hfin]; [done|]. unfold unfinished in Hu. congruence. }
  apply orb_false_iff in Hskip as [Hnf%bool_decide_eq_false Hu]. destruct (Hok r eq_refl Hu) as [Hsane Htok].
  apply wp_bind, wp_some_or; [intros index Hindex|done]. apply wp_bind, wp_result_at. intros ts Hts.
  assert (ts = sampled out id) as Hts'.
  { unfold sampled. rewrite Hindex. cbn. destruct Hts as [[E1 ->]|Hts]; [|by rewrite Hts]. rewrite E1.
    unfold py_index. by repeat case_match. }
  eapply wp_step; [eapply (wp_reject o); try done; by right|]. intros [] s1 (T1 & r1 & Hr1 & Hsane1 & Hbt1 & Hok1 & E1 & Hal).
  pose proof (to_same _ _ _ T1) as Es1. injection Es1 as Ec1 _ _ _.
  apply wp_bind, (wp_get_request _ _ r1); [done|].
  eapply (wp_part_of _ _ id s s1); [done|done| |].
  { intros Hset1. apply wp_if; intros _; [by apply any_encoder|by apply wp_ret]. }
  intros [] s2 T2 R2 _. pose proof (to_same _ _ _ T2) as Es2. injection Es2 as Ec2 _ _ _.
  apply wp_bind, wp_result_at. intros pooling _.
  eapply wp_step; [apply (wp_receive id ts pooling s2 r1); rewrite ?Ec2, ?R2; by try apply T2|].
  intros [us b] s3 (T3 & Hpa & r3 & Hr3 & Hrc3 & Hf3). cbn [fst snd] in *.
  eapply wp_step; [by apply (wp_check_grammar rejects id (us, b) s3 _ _ _ _ _ Hr3 Hrc3 Hf3)|].
  intros [us' b'] s4 (T4 & Eus & r4 & Hr4 & Hrc4 & Hf4). cbn [fst snd] in *. subst us'.
  apply wp_bind, (wp_get_request _ _ r4); [done|]. rewrite (al_status _ _ Hal).
  apply (wp_turn_end rejects out id us b' pooling failed s s4 u r r4); try done.
  - eapply touches_trans; [eapply touches_trans; [exact T2|exact T3]|exact T4].
  - rewrite Ec2 in *. split; [rewrite <-Hts'; by eapply alike_part|]. rewrite <-Hf4. symmetry. by apply alike_fate.
  - rewrite <-Ec2. eapply received_from; [done|apply Hal|apply Hal|done].
Qed.
End update.
