(* ===== verification/SchedulerResults.v ===== *)
(** * Requests leave the scheduler

    How the calls between the steps keep the invariant of the scheduler:
    requests that stop, fail or are aborted leave the place they are in, the
    others stay and have progressed. *)
From S2P Require Import Prelude Hoare PyFloat Metrics Request BlockPool KVCache Scoring Scheduling.
From S2P Require Import Config EncoderCache RequestQueue QueueLaws SchedUtils Pressure ControllerSteady Scheduler SchedulerFacts.
From S2P Require Import SchedulerAny SchedulerStep SchedulerEvents SchedulerKeeps SchedulerWaiting SchedulerAdmit.
From S2P Require Import SchedulerUpdate.
Import Sched Step Events.
Local Open Scope Z_scope.

(** [remove_all] of a list without duplicates *)
Lemma remove_all_filter {A} `{Countable A} (l : list A) (X : gset A) : NoDup l → remove_all l X = filter (.∉ X) l.
Proof.
  intros Hnd. unfold remove_all. destruct (elements X) as [|x [|y xs]] eqn:HX.
  - apply elements_empty_inv, leibniz_equiv in HX as ->. rewrite filter_all; [done|]. intros; set_solver.
  - assert (∀ z, z ∈ X ↔ z = x) as Hx.
    { intros z. rewrite <-elem_of_elements, HX. set_solver. }
    clear HX. induction l as [|z l IH]; [done|]. apply NoDup_cons in Hnd as [Hz Hnd]. cbn [list_find].
    destruct (decide (x = z)) as [->|Hne].
    + rewrite filter_cons_False by (intros Hn; by apply Hn, Hx). cbn. rewrite filter_all; [done|].
      intros j Hj Hjx. apply Hx in Hjx as ->. done.
    + rewrite filter_cons_True by (rewrite Hx; congruence). specialize (IH Hnd).
      destruct (list_find (x =.) l) as [[i ?]|]; cbn; f_equal; exact IH.
  - done.
Qed.

Section results.
Context {F : Type} `{FO : FloatOps F} `{FL : FloatLog1p F}.
Context {C : Type} `{KC : KVConnector F C}.
Notation State := (SchedulerState (F := F) (C := C)).
Notation E := (raises True).
Implicit Types (s : State) (r : SchedRequest F) (D : gset string) (R : odict string (SchedRequest F)).

(** ** The requests *)
(** The requests of [R0] have become those of [R]; those of [D] have ended. *)
Record progress (cfg : SchedulerConfig) R0 D R : Prop := {
  ps_wf : od_wf R;
  ps_old j r' : od_get j R = Some r' → ∃ r, od_get j R0 = Some r ∧ request_id (req r') = request_id (req r)
    ∧ sane cfg r'
    ∧ (unfinished r' → j ∉ D ∧ unfinished r ∧ status (req r') = status (req r) ∧ tokens_ok cfg r');
  ps_kept j r : od_get j R0 = Some r → unfinished r → j ∉ D → ∃ r', od_get j R = Some r' ∧ unfinished r'
}.

Lemma progress_one cfg R0 D R D' R' id : progress cfg R0 D R → D ⊆ D' → D' ⊆ {[id]} ∪ D →
  od_wf R' → (∀ j, j ≠ id → od_get j R' = od_get j R) →
  (∀ r', od_get id R' = Some r' → ∃ r, od_get id R = Some r ∧ request_id (req r') = request_id (req r) ∧ sane cfg r'
     ∧ (unfinished r' → id ∉ D' ∧ unfinished r ∧ status (req r') = status (req r) ∧ tokens_ok cfg r')) →
  (∀ r, od_get id R = Some r → unfinished r → id ∉ D' → ∃ r', od_get id R' = Some r' ∧ unfinished r') →
  progress cfg R0 D' R'.
Proof.
  intros [Hwf Hold Hkept] HD HD' Hwf' Hj Hid Hk. split; [done|..].
  - intros j r' Hr'. destruct (decide (j = id)) as [->|Hne].
    + destruct (Hid r' Hr') as (r1 & Hr1 & E1 & Hs & Hu). destruct (Hold id r1 Hr1) as (r0 & Hr0 & E0 & _ & Hu0).
      exists r0. split; [done|]. split; [congruence|]. split; [done|]. intros Hun. destruct (Hu Hun) as (? & H1 & E2 & ?).
      destruct (Hu0 H1) as (_ & ? & E3 & _). split_and!; try done. congruence.
    + rewrite Hj in Hr' by done. destruct (Hold j r' Hr') as (r0 & Hr0 & E0 & Hs & Hu). exists r0.
      split; [done|]. split; [done|]. split; [done|]. intros Hun. destruct (Hu Hun) as (? & ? & ? & ?). split_and!; try done. set_solver.
  - intros j r Hr Hu Hnot. destruct (Hkept j r Hr Hu) as (r1 & Hr1 & Hu1); [set_solver|].
    destruct (decide (j = id)) as [->|Hne]; [by eapply Hk|]. rewrite Hj by done. by exists r1.
Qed.

Lemma progress_refl cfg R : od_wf R → (∀ j r, od_get j R = Some r → sane cfg r ∧ (unfinished r → tokens_ok cfg r)) →
  progress cfg R ∅ R.
Proof.
  intros Hwf Hok. split; [done|..].
  - intros j r Hr. destruct (Hok j r Hr). exists r. split_and!; try done. intros Hu. split_and!; try done. by auto.
  - intros j r Hr Hu _. by exists r.
Qed.

(** ** The scheduler *)
Record left D s s' : Prop := {
  le_config : config s' = config s;
  le_progress : progress (config s) (requests s) D (requests s');
  le_running : running s' ≡ₚ filter (.∉ D) (running s);
  le_waiting : waiting_items (waiting s') ≡ₚ filter (.∉ D) (waiting_items (waiting s));
  le_skipped : waiting_items (skipped_waiting s') ≡ₚ filter (.∉ D) (waiting_items (skipped_waiting s))
}.

Lemma leave_placed D s s' : left D s s' → placed s' ≡ₚ filter (.∉ D) (placed s).
Proof. intros [_ _ H1 H2 H3]. unfold placed. by rewrite !filter_app, H1, H2, H3. Qed.

Lemma left_inv D s s' : sched_inv s → left D s s' → sched_inv s'.
Proof.
  intros [Hc Hwf Hid Hnd Hpl Hru Htok] Hl. pose proof (leave_placed _ _ _ Hl) as Hplaced.
  destruct Hl as [E1 [P1 P2 P3] E2 E3 E4].
  assert (∀ j, j ∈ placed s' ↔ ∃ r, od_get j (requests s') = Some r ∧ unfinished r) as Hpl'.
  { intros j. rewrite Hplaced, list_elem_of_filter, Hpl. split.
    - intros (Hj & r & Hr & Hu). by eapply P3.
    - intros (r' & Hr' & Hu'). destruct (P2 j r' Hr') as (r & Hr & _ & _ & Hu). destruct (Hu Hu') as (? & ? & _). split; [done|]. by exists r. }
  split; rewrite ?E1; try done.
  - intros j r' Hr'. destruct (P2 j r' Hr') as (r & Hr & -> & _). by apply Hid.
  - rewrite Hplaced. by apply NoDup_filter.
  - intros j r' Hr'. destruct (P2 j r' Hr') as (r & Hr & _ & _ & Hu).
    destruct (is_finished (req r')) eqn:Hfin.
    + split.
      * intros Hj. assert (j ∈ placed s') as (r2 & Hr2 & Hu2)%Hpl' by (apply elem_of_app; by left).
        assert (r2 = r') as -> by congruence. unfold unfinished in Hu2. congruence.
      * intros Hst. unfold is_finished in Hfin. by rewrite Hst in Hfin.
    + destruct (Hu Hfin) as (Hj & Hur & -> & _). rewrite E2, list_elem_of_filter, (Hru j r Hr). naive_solver.
  - intros j r' Hr' Hu'. destruct (P2 j r' Hr') as (r & Hr & _ & _ & Hu). by destruct (Hu Hu') as (_ & _ & _ & ?).
Qed.

(** The requests are sane. *)
Definition sane_state s : Prop := ∀ id r, od_get id (requests s) = Some r → sane (config s) r.

Lemma left_sane D s s' : left D s s' → sane_state s'.
Proof. intros [E1 [_ P2 _] _ _ _] j r' Hr'. rewrite E1. by destruct (P2 j r' Hr') as (_ & _ & _ & ? & _). Qed.

Lemma filter_none D (l : list string) : (∀ i, i ∈ l → i ∉ D) → filter (.∉ D) l = l.
Proof. intros Hl. by apply filter_all. Qed.

Lemma start_progress s : sched_inv s → sane_state s → progress (config s) (requests s) ∅ (requests s).
Proof. intros Hs Hsane. apply progress_refl; [apply Hs|]. intros j r Hr. split; [by eapply Hsane|by apply (iv_tokens _ Hs j)]. Qed.

(** Nothing has moved. *)
Lemma left_besides s s' : besides s' = besides s → progress (config s) (requests s) ∅ (requests s') → left ∅ s s'.
Proof.
  intros Hb Hp. injection Hb as E1 E2 E3 E4. split; [done|done|..]; by rewrite ?E2, ?E3, ?E4, filter_none by set_solver.
Qed.

(** ** The loop over the scheduled requests *)
Implicit Types (rejects : string → list Z → bool) (u : Updates) (out : ModelRunnerOutput (F := F) (C := C)) (o : SchedulerOutput F) (e : EngineCoreOutput).

(** What an output tells of a request: the tokens sampled for it, up to the one
    it stopped at; how it ended, if it did; and that it has them now.  A request
    that has ended has them still, or is gone. *)
Definition delivered rejects out (failed : gset string) s0 s e : Prop :=
  let id := output_request_id e in
  id ∉ failed ∧ ∃ r end_, od_get id (requests s0) = Some r ∧ unfinished r
    ∧ dealt rejects out (config s0) id r (output_new_token_ids e) (pooled e) end_
    ∧ output_finish_reason e = (end_ ≫= status_finished_reason)
    ∧ match output_finish_reason e with
      | None => ∃ r', od_get id (requests s) = Some r' ∧ unfinished r'
                  ∧ all_token_ids (req r') = all_token_ids (req r) ++ output_new_token_ids e
      | Some _ => (∀ r', od_get id (requests s) = Some r' → is_finished (req r') = true
                     ∧ all_token_ids (req r') = all_token_ids (req r) ++ output_new_token_ids e)
                  ∧ id ∈ finished_req_ids s
      end.

(** The tokens some outputs bring to a request. *)
Definition streamed (id : string) (outs : list EngineCoreOutput) : list Z :=
  concat (output_new_token_ids <$> filter (λ e, output_request_id e = id) outs).

Lemma streamed_app id l1 l2 : streamed id (l1 ++ l2) = streamed id l1 ++ streamed id l2.
Proof. unfold streamed. by rewrite filter_app, fmap_app, concat_app. Qed.
Lemma streamed_others id outs : (∀ e, e ∈ outs → output_request_id e ≠ id) → streamed id outs = [].
Proof.
  intros Ho. unfold streamed. induction outs as [|e outs IH]; [done|]. rewrite filter_cons_False by (apply Ho; by left).
  apply IH. intros e' He'. apply Ho. by right.
Qed.

Definition ended u : gset string := stopped_running_reqs u ∪ stopped_preempted_reqs u.

(** The state when the requests [ids] have been updated, from [s0]. *)
Record midway rejects out failed s0 (ids : list string) s u : Prop := {
  mw_besides : besides s = besides s0;
  mw_settings : settings_ok s;
  mw_progress : progress (config s0) (requests s0) (ended u) (requests s);
  mw_others j : j ∉ ids → od_get j (requests s) = od_get j (requests s0);
  mw_running j : j ∈ stopped_running_reqs u → ∃ r, od_get j (requests s0) = Some r ∧ unfinished r ∧ status (req r) = RUNNING;
  mw_preempted j : j ∈ stopped_preempted_reqs u →
    j ∈ ids ∧ ∃ r, od_get j (requests s0) = Some r ∧ unfinished r ∧ status (req r) ≠ RUNNING;
  mw_once : NoDup (output_request_id <$> outputs u);
  mw_outputs e : e ∈ outputs u → output_request_id e ∈ ids ∧ delivered rejects out failed s0 s e;
  mw_all j r : j ∈ ids → od_get j (requests s0) = Some r → unfinished r → j ∉ failed →
    (∃ e, e ∈ outputs u ∧ output_request_id e = j)
    ∨ sampled out j = [] ∧ ∃ r', od_get j (requests s) = Some r' ∧ unfinished r' ∧ all_token_ids (req r') = all_token_ids (req r);
  mw_finished : finished_req_ids s0 ⊆ finished_req_ids s;
  mw_tokens j r' : od_get j (requests s) = Some r' → unfinished r' →
    ∃ r, od_get j (requests s0) = Some r ∧ all_token_ids (req r') = all_token_ids (req r) ++ streamed j (outputs u)
}.

Lemma delivered_touches rejects out failed s0 s s' e id : touches id s s' → output_request_id e ≠ id →
  delivered rejects out failed s0 s e → delivered rejects out failed s0 s' e.
Proof.
  intros Ht Hne (Hf & r & end_ & Hr & Hu & Hd & Hre & He). split; [done|]. exists r, end_. split_and!; try done.
  rewrite (to_other _ _ _ Ht) by done. destruct (output_finish_reason e); [|done].
  destruct He. split; [done|]. by apply (to_finished _ _ _ Ht).
Qed.

Lemma updated_progress rejects out failed id s0 s s' u u' : touches id s s' → updated rejects out failed id s s' u u' → config s = config s0 →
  progress (config s0) (requests s0) (ended u) (requests s) → progress (config s0) (requests s0) (ended u') (requests s').
Proof.
  intros Ht Hup Ec Hp. pose proof (to_wf _ _ _ Ht (ps_wf _ _ _ _ Hp)) as Hwf'. unfold ended in *.
  destruct Hup as [E1 -> _|r r' ts pooling Hr Hu _ _ Hr' [R1 R2 R3 R4] E1 E2 _|r ts st reason pooling Hr Hu _ _ _ Hfin _ E1 E2 _].
  - by rewrite E1.
  - destruct (ps_old _ _ _ _ Hp id r Hr) as (r0 & _ & _ & _ & Hnot). destruct (Hnot Hu) as (Hid & _). rewrite E1, E2.
    eapply (progress_one _ _ _ _ _ _ id); [exact Hp|done|set_solver|done|apply Ht| |].
    + intros r2 Hr2. assert (r2 = r') as -> by congruence. exists r. rewrite Ec in *. by split_and!.
    + intros r2 Hr2 _ _. exists r'. split; [done|]. unfold unfinished, is_finished in *. by rewrite (proj1 R4).
  - rewrite E1, E2.
    eapply (progress_one _ _ _ _ _ _ id); [exact Hp| | |done|apply Ht| |].
    1,2: case_bool_decide; set_solver.
    + intros r2 Hr2. destruct (Hfin r2 Hr2) as (? & ? & Hf & _). exists r. rewrite Ec in *. split_and!; try done.
      intros Hu2. unfold unfinished in Hu2. congruence.
    + intros r2 _ _ []. case_bool_decide; set_solver.
Qed.

(** What the update of a request adds to the sets and to the outputs. *)
Lemma updated_ends rejects out failed id s s' u u' : updated rejects out failed id s s' u u' →
  (∀ j, j ∈ stopped_running_reqs u' → j ∈ stopped_running_reqs u
     ∨ j = id ∧ ∃ r, od_get id (requests s) = Some r ∧ unfinished r ∧ status (req r) = RUNNING)
  ∧ (∀ j, j ∈ stopped_preempted_reqs u' → j ∈ stopped_preempted_reqs u
     ∨ j = id ∧ ∃ r, od_get id (requests s) = Some r ∧ unfinished r ∧ status (req r) ≠ RUNNING).
Proof.
  intros [_ -> _|? ? ? ? _ _ _ _ _ _ -> -> _|r ? ? ? ? Hr Hu _ _ _ _ _ -> -> _]; [by split; intros; left..|].
  split; intros j; case_bool_decide; rewrite elem_of_union; intros [Hj|Hj]; try (by left); try set_solver;
    right; apply elem_of_singleton in Hj; (split; [done|by exists r]).
Qed.

Lemma updated_outputs rejects out failed id s s' u u' : updated rejects out failed id s s' u u' →
  ∃ new, outputs u' = outputs u ++ new ∧ (new = [] ∨ ∃ e, new = [e] ∧ output_request_id e = id)
    ∧ (∀ e, e ∈ new → delivered rejects out failed s s' e)
    ∧ ∀ r, od_get id (requests s) = Some r → unfinished r → id ∉ failed →
        (∃ e, e ∈ new) ∨ sampled out id = [] ∧ ∃ r', od_get id (requests s') = Some r' ∧ unfinished r' ∧ all_token_ids (req r') = all_token_ids (req r).
Proof.
  intros [E1 -> Hno|r r' ts pooling Hr Hu Hf Hd Hr' [_ Hts _ [Hst _]] _ _ Ho|r ts st reason pooling Hr Hu Hf Hd Hre Hfin Hfi _ _ (stop & Eo)].
  - exists []. rewrite app_nil_r. split; [done|]. split; [by left|]. split; [by intros ? ?%elem_of_nil|].
    intros r Hr Hu Hf. by destruct Hf; eapply Hno.
  - assert (unfinished r') as Hu' by (unfold unfinished, is_finished in *; by rewrite Hst).
    destruct Ho as [[-> ->]|(stop & ->)].
    + exists []. rewrite app_nil_r in *. split; [done|]. split; [by left|]. split; [by intros ? ?%elem_of_nil|].
      intros r1 Hr1 _ _. right. split.
      { destruct (decide (sampled out id = [])) as [|Hs]; [done|]. by destruct (pa_some _ _ _ _ (proj1 Hd) Hs). }
      exists r'. assert (r1 = r) as -> by congruence. done.
    + eexists. split; [done|]. split; [right; by eexists|]. split; [|intros; left; eexists; by left].
      intros e ->%list_elem_of_singleton. split; [done|]. exists r, None. split_and!; try done. by exists r'.
  - exists [report id ts (Some reason) stop pooling]. split; [done|]. split; [right; by eexists|].
    split; [|intros; left; eexists; by left].
    intros e ->%list_elem_of_singleton. split; [done|]. exists r, (Some st). split; [done|]. split; [done|]. split; [done|].
    split; [by cbn; rewrite Hre|]. cbn. split; [|done]. intros r' Hr'. by destruct (Hfin r' Hr') as (_ & _ & ? & ?).
Qed.

Lemma updated_tokens rejects out failed id s s' u u' : updated rejects out failed id s s' u u' →
  ∃ new, outputs u' = outputs u ++ new ∧ ∀ r', od_get id (requests s') = Some r' → unfinished r' →
    ∃ r, od_get id (requests s) = Some r ∧ all_token_ids (req r') = all_token_ids (req r) ++ streamed id new.
Proof.
  intros [E1 -> _|r r' ts pooling Hr _ _ _ Hr' [_ Hts _ _] _ _ Ho|r ts st reason pooling _ _ _ _ _ Hfin _ _ _ (? & Eo)].
  - exists []. rewrite app_nil_r. split; [done|]. intros r' Hr' _. exists r'. by rewrite <-E1, app_nil_r.
  - destruct Ho as [[-> ->]|(stop & ->)].
    + exists []. rewrite app_nil_r in *. split; [done|]. intros r2 Hr2 _. exists r. split; [done|]. rewrite app_nil_r. congruence.
    + eexists. split; [done|]. intros r2 Hr2 _. exists r. split; [done|]. unfold streamed. rewrite filter_cons_True by done.
      cbn. rewrite app_nil_r. congruence.
  - eexists. split; [done|]. intros r2 Hr2 Hu2. destruct (Hfin r2 Hr2) as (_ & _ & Hf & _). unfold unfinished in Hu2. congruence.
Qed.

Lemma midway_step rejects out failed s0 ids s u id s' u' : midway rejects out failed s0 ids s u → id ∉ ids →
  touches id s s' → updated rejects out failed id s s' u u' → midway rejects out failed s0 (ids ++ [id]) s' u'.
Proof.
  intros [M1 M2 M3 M4 M5 M6 M7 M8 M9 M10 M11] Hid Ht Hup. pose proof M1 as Ec. injection Ec as Ec _ _ _.
  destruct (updated_ends _ _ _ _ _ _ _ _ Hup) as [N5 N6]. destruct (updated_outputs _ _ _ _ _ _ _ _ Hup) as (new & Eo & Hnew & N8 & N9).
  pose proof (M4 id Hid) as Hget. rewrite Hget in N5, N6, N9.
  assert (∀ e, e ∈ new → output_request_id e = id) as Hin.
  { destruct Hnew as [->|(e & -> & He)]; [by intros ? ?%elem_of_nil|]. by intros ? ->%list_elem_of_singleton. }
  assert (∀ e, e ∈ outputs u → output_request_id e ≠ id) as Hne.
  { intros e He Heq. apply Hid. rewrite <-Heq. by apply (M8 e He). }
  assert (∀ j, j ∈ ids → j ∈ ids ++ [id]) as Hids by (intros; apply elem_of_app; by left).
  assert (id ∈ ids ++ [id]) as Hlast by (apply elem_of_app; right; by left).
  split.
  - rewrite (to_same _ _ _ Ht). done.
  - by apply Ht.
  - by eapply updated_progress.
  - intros j [Hj Hj2]%not_elem_of_app. rewrite (to_other _ _ _ Ht) by set_solver. by apply M4.
  - intros j [|[-> ?]]%N5; auto.
  - intros j [[? ?]%M6|[-> ?]]%N6; auto.
  - rewrite Eo, fmap_app. apply NoDup_app. split; [done|]. split.
    + intros j (e & -> & He)%list_elem_of_fmap (e' & Heq & He')%list_elem_of_fmap. apply (Hne e He). rewrite Heq. by apply Hin.
    + destruct Hnew as [->|(e & -> & _)]; [constructor|apply NoDup_singleton].
  - intros e. rewrite Eo, elem_of_app. intros [He|He].
    + destruct (M8 e He). split; [auto|]. eapply delivered_touches; [exact Ht|by apply Hne|done].
    + rewrite (Hin e He). split; [done|]. specialize (N8 e He). unfold delivered in *. rewrite (Hin e He) in N8 |- *. by rewrite Hget, Ec in N8.
  - intros j r [Hj| ->%list_elem_of_singleton]%elem_of_app Hr Hu Hf.
    + destruct (M9 j r Hj Hr Hu Hf) as [(e & He & <-)|Hk].
      * left. exists e. split; [|done]. rewrite Eo. apply elem_of_app. by left.
      * right. by rewrite (to_other _ _ _ Ht) by (intros ->; done).
    + destruct (N9 r Hr Hu Hf) as [[e He]|Hk]; [left|by right]. exists e. split; [rewrite Eo; apply elem_of_app; by right|auto].
  - etrans; [exact M10|apply Ht].
  - intros j r' Hr' Hu'. rewrite Eo, streamed_app. destruct (decide (j = id)) as [->|Hj].
    + destruct (updated_tokens _ _ _ _ _ _ _ _ Hup) as (new' & Eo' & N11). rewrite Eo in Eo'. apply app_inv_head in Eo' as <-.
      rewrite (streamed_others id (outputs u)) by done. rewrite <-Hget. by apply N11.
    + rewrite (to_other _ _ _ Ht) in Hr' by done. rewrite (streamed_others j new), app_nil_r; [by apply M11|].
      intros e He ->%eq_sym. by apply Hj, Hin.
Qed.

Lemma midway_start rejects out failed s : settings_ok s → sane_state s → sched_inv s → midway rejects out failed s [] s (mkUpdates ∅ ∅ []).
Proof.
  intros Hset Hsane Hs. split; try done; try set_solver.
  - unfold ended. cbn. rewrite union_empty_l_L. by apply start_progress.
  - constructor.
  - intros j r Hr _. exists r. by rewrite app_nil_r.
Qed.

(** ** The stopped requests leave *)
Lemma placed_apart s j : sched_inv s → j ∈ running s → j ∉ waiting_items (waiting s) ∧ j ∉ waiting_items (skipped_waiting s).
Proof.
  intros Hs Hj. pose proof (iv_nodup _ Hs) as Hnd. unfold placed in Hnd. apply NoDup_app in Hnd as (_ & Hd & _).
  specialize (Hd j Hj). by rewrite not_elem_of_app in Hd.
Qed.

Lemma filter_iff (P Q : string → Prop) `{!∀ x, Decision (P x), !∀ x, Decision (Q x)} (l : list string) :
  (∀ x, x ∈ l → P x ↔ Q x) → filter P l = filter Q l.
Proof.
  induction l as [|x l IH]; intros Hl; [done|]. assert (filter P l = filter Q l) as He by (apply IH; intros; apply Hl; by right).
  destruct (decide (P x)) as [Hx|Hx]; pose proof (Hl x ltac:(by left)) as Hi.
  - rewrite !filter_cons_True by tauto. by rewrite He.
  - rewrite !filter_cons_False by tauto. done.
Qed.

(** ** Requests are finished from outside *)
(** The requests [ids] are finished one by one. *)
Record finishing s0 (ids : list string) s : Prop := {
  fg_besides : besides s = besides s0;
  fg_settings : settings_ok s;
  fg_progress : progress (config s0) (requests s0) (list_to_set ids) (requests s);
  fg_others j : j ∉ ids → od_get j (requests s) = od_get j (requests s0);
  fg_gone j : j ∈ ids → j ∈ finished_req_ids s ∧ ∀ r', od_get j (requests s) = Some r' → is_finished (req r') = true;
  fg_finished : finished_req_ids s0 ⊆ finished_req_ids s
}.

(** [ids] are finished and have left the queues; nothing else has changed. *)
Record finished_all s (ids : list string) s' : Prop := {
  fa_left : left (list_to_set ids) s s';
  fa_settings : settings_ok s';
  fa_others j : j ∉ ids → od_get j (requests s') = od_get j (requests s);
  fa_gone j : j ∈ ids → j ∈ finished_req_ids s' ∧ ∀ r', od_get j (requests s') = Some r' → is_finished (req r') = true;
  fa_finished : finished_req_ids s ⊆ finished_req_ids s'
}.

Lemma valid_requests_spec ids s id : id ∈ valid_requests ids s ↔ id ∈ ids ∧ ∃ r, od_get id (requests s) = Some r ∧ unfinished r.
Proof.
  unfold valid_requests. rewrite list_elem_of_filter. unfold unfinished. destruct (od_get id (requests s)) as [r|].
  - rewrite negb_true_iff. naive_solver.
  - naive_solver.
Qed.

Lemma placed_valid s ids j : sched_inv s → j ∈ placed s → j ∈ valid_requests ids s ↔ j ∈ ids.
Proof. intros Hs Hj%(iv_placed _ Hs). rewrite valid_requests_spec. naive_solver. Qed.

Lemma is_running_spec s j : sched_inv s → j ∈ placed s → is_running j s = true ↔ j ∈ running s.
Proof.
  intros Hs Hj. apply (iv_placed _ Hs) in Hj as (r & Hr & _). unfold is_running. rewrite Hr, bool_decide_eq_true.
  symmetry. by apply (iv_running _ Hs).
Qed.

(** ** Blocks that failed to load *)
(** Requests may have to compute some of their tokens again. *)
Record recomputed s s' : Prop := {
  rm_besides : besides s' = besides s;
  rm_settings : settings_ok s → settings_ok s';
  rm_keys : od_keys (requests s') = od_keys (requests s);
  rm_get j r' : od_get j (requests s') = Some r' → ∃ r n, od_get j (requests s) = Some r
    ∧ r' = on_req (put_num_computed_tokens n) r ∧ n ≤ Z.max 0 (num_computed_tokens (req r));
  rm_finished : finished_req_ids s' = finished_req_ids s
}.

Lemma put_computed_same r : on_req (put_num_computed_tokens (num_computed_tokens (req r))) r = r.
Proof. by destruct r as [[]]. Qed.

Lemma recomputed_refl s : recomputed s s.
Proof. split; try done. intros j r Hr. exists r, (num_computed_tokens (req r)). rewrite put_computed_same. split_and!; [done..|lia]. Qed.
Lemma recomputed_trans s1 s2 s3 : recomputed s1 s2 → recomputed s2 s3 → recomputed s1 s3.
Proof.
  intros [A1 A2 A3 A4 A5] [B1 B2 B3 B4 B5]. split; [congruence|auto|congruence| |congruence].
  intros j r3 Hr3. destruct (B4 j r3 Hr3) as (r2 & n2 & Hr2 & -> & H2). destruct (A4 j r2 Hr2) as (r1 & n1 & Hr1 & -> & H1).
  exists r1, n2. split_and!; [done..|]. cbn in H2. lia.
Qed.

Lemma recomputed_left s s' : sched_inv s → sane_state s → recomputed s s' → left ∅ s s'.
Proof.
  intros Hs Hsane [H1 _ H2 H3 _]. apply left_besides; [done|]. split.
  - unfold od_wf. rewrite H2. apply Hs.
  - intros j r' Hr'. destruct (H3 j r' Hr') as (r & n & Hr & -> & Hn). exists r. split; [done|]. split; [done|].
    split; [by destruct (Hsane _ _ Hr)|]. intros Hu. split; [set_solver|]. split; [done|]. split; [done|].
    destruct (iv_tokens _ Hs _ _ Hr Hu) as (T1 & T2 & T3 & T4 & T5). unfold tokens_ok.
    change (num_tokens (req (on_req (put_num_computed_tokens n) r))) with (num_tokens (req r)).
    assert (0 ≤ num_tokens (req r)) by (unfold num_tokens, zlen; lia). cbn. split_and!; try done; lia.
  - intros j r Hr Hu _. assert (is_Some (od_get j (requests s'))) as [r' Hr'].
    { apply od_get_is_Some. rewrite H2. apply od_get_is_Some. by exists r. }
    exists r'. split; [done|]. destruct (H3 j r' Hr') as (r1 & n & Hr1 & -> & _). assert (r1 = r) as -> by congruence. done.
Qed.

(** The first invalid block is among those scanned. *)
Lemma scan_blocks_bound invalid n l : ∀ m, (∀ i, first_invalid m = Some i → (i < n)%nat) → Forall (λ x, (x.1 < n)%nat) l →
  ∀ i, first_invalid (foldl (scan_block invalid) m l) = Some i → (i < n)%nat.
Proof.
  induction l as [|[i b] l IH]; intros m Hm Hl j; cbn [foldl]; [apply Hm|]. apply list.Forall_cons in Hl as [Hi Hl].
  apply IH; [|done]. intros k. unfold scan_block. repeat case_bool_decide; cbn; try apply Hm.
  destruct (first_invalid m) eqn:Hf; [intros [= <-]; by apply Hm|by intros [= <-]].
Qed.

Lemma wp_invalidate_request invalid scheduled evict acc id s : config_ok (config s) →
  (∀ n, od_get id scheduled = Some n → 0 ≤ n) →
  wp (invalidate_request invalid scheduled evict acc id) (λ _, recomputed s) E s.
Proof.
  intros (_ & _ & _ & Hsize) Hsch. unfold invalidate_request. destruct acc as [[affected to_evict] marked].
  apply wp_bind, wp_request. intros r Hr. apply wp_get.
  destruct (get_blocks id (kv_cache_manager s)) as [|blocks [|]]; [done| |done]. cbv zeta.
  set (size := cache_block_size (config s)) in *. set (before := num_computed_tokens (req r) - count0 scheduled id).
  set (n := Z.to_nat ((before + size - 1) / size)). set (m := foldl _ _ _).
  assert (before ≤ num_computed_tokens (req r)) as Hbefore.
  { unfold before, count0. destruct (od_get id scheduled) as [k|] eqn:Hk; cbn; [specialize (Hsch k eq_refl)|]; lia. }
  assert (∀ i, first_invalid m = Some i → (i < n)%nat) as Hfirst.
  { apply scan_blocks_bound; [done|]. apply list.Forall_forall. intros [i b] Hin%elem_of_zip_l%elem_of_seq. cbn. lia. }
  apply wp_if; intros _; [|apply wp_ret, recomputed_refl]. apply wp_bind, wp_alter_request, wp_ret.
  split; try done; cbn; [apply od_keys_alter|]. intros j r'. rewrite od_get_alter. case_decide as Hj.
  - subst j. rewrite Hr. intros [= <-]. exists r. eexists. split; [done|]. split; [done|].
    destruct (first_invalid m) as [i|]; [|lia]. specialize (Hfirst i eq_refl).
    assert (Z.of_nat i + 1 ≤ (before + size - 1) / size) by (unfold n in Hfirst; lia).
    pose proof (Z.mul_div_le (before + size - 1) size Hsize). nia.
  - intros Hr'. exists r', (num_computed_tokens (req r')). rewrite put_computed_same. split_and!; [done..|lia].
Qed.

Lemma wp_invalidate_requests invalid scheduled evict ids : ∀ acc s, config_ok (config s) →
  (∀ id n, od_get id scheduled = Some n → 0 ≤ n) →
  wp (invalidate_requests invalid scheduled evict ids acc) (λ _, recomputed s) E s.
Proof.
  induction ids as [|id ids IH]; intros acc s Hc Hsch; cbn [invalidate_requests]; [apply wp_ret, recomputed_refl|].
  eapply wp_step; [apply wp_invalidate_request; [done|apply Hsch]|]. intros acc' s1 H1.
  pose proof (rm_besides _ _ H1) as Eb. injection Eb as Ec _ _ _.
  eapply wp_mono; [apply IH; [by rewrite Ec|done]| |done]. intros ? s2 H2. by apply (recomputed_trans s s1 s2).
Qed.

Lemma recomputed_frame s s1 s2 : recomputed s s1 → frame s1 s2 → (settings_ok s1 → settings_ok s2) → recomputed s s2.
Proof.
  intros [A1 A2 A3 A4 A5] Hf Hset. injection Hf as E1 E2 E3 E4 E5 E6 E7 E8 E9 E10. unfold besides in *.
  split; unfold besides; rewrite ?E1, ?E2, ?E3, ?E4, ?E5, ?E6; auto.
Qed.

End results.

Section removals.
Context {F : Type} `{FO : FloatOps F} `{FL : FloatLog1p F}.
Context {C : Type} `{KC : KVConnector F C}.
Notation State := (SchedulerState (F := F) (C := C)).
Notation E := (raises True).
Implicit Types (s : State) (r : SchedRequest F) (D : gset string) (R : odict string (SchedRequest F)).
Implicit Types (rejects : string → list Z → bool) (u : Updates) (out : ModelRunnerOutput (F := F) (C := C)) (o : SchedulerOutput F) (e : EngineCoreOutput).
Context (lt_id : bool).

(** A queue after a removal. *)
Lemma wp_remove_requests q l s (Q : unit → State → Prop) :
  (∀ v, waiting_items v ≡ₚ filter (.∉ l) (waiting_items (queue_of q s)) → Q tt (put_queue q v s)) →
  wp (on_queue lt_id q (λ _, remove_requests l)) Q E s.
Proof.
  intros HQ. destruct (@remove_all_law _ _ _ _ _ (waiting_laws (queue_lt lt_id s)) l (queue_of q s)) as (v & Hv & Hi).
  eapply wp_on_queue; [exact Hv|]. by apply HQ.
Qed.

(** The queues without the requests to finish. *)
Lemma wp_leave_queues {B} (k : M State B) s ids (Q : B → State → Prop) : sched_inv s →
  let valid := valid_requests ids s in
  let waiting_to_remove := filter (λ id, is_running id s = false) valid in
  (∀ s', (config s', requests s', finished_req_ids s') = (config s, requests s, finished_req_ids s) →
     (settings_ok s → settings_ok s') →
     running s' = filter (.∉ valid) (running s) →
     waiting_items (waiting s') ≡ₚ filter (.∉ valid) (waiting_items (waiting s)) →
     waiting_items (skipped_waiting s') ≡ₚ filter (.∉ valid) (waiting_items (skipped_waiting s)) → wp k Q E s') →
  wp (modify (λ s0, put_running (remove_all (running s0) (list_to_set (filter (λ id, is_running id s = true) valid))) s0) ;;
      (if bool_decide (waiting_to_remove = []) then mret tt
       else on_queue lt_id Waiting (λ _, remove_requests waiting_to_remove) ;;
            on_queue lt_id Skipped (λ _, remove_requests waiting_to_remove)) ;; k) Q E s.
Proof.
  intros Hs valid wl HQ. apply wp_bind, wp_modify. set (s1 := put_running _ s).
  assert (running s1 = filter (.∉ valid) (running s)) as Hr1.
  { cbn. rewrite remove_all_filter by (pose proof (iv_nodup _ Hs) as Hnd; by apply NoDup_app in Hnd as [? _]).
    apply filter_iff. intros j Hj. rewrite elem_of_list_to_set, list_elem_of_filter, is_running_spec; [tauto|done|].
    apply elem_of_app. by left. }
  assert (∀ j, j ∈ waiting_items (waiting s) ∨ j ∈ waiting_items (skipped_waiting s) → j ∉ wl ↔ j ∉ valid) as Hwl.
  { intros j Hj. unfold wl. rewrite list_elem_of_filter. assert (j ∈ placed s) as Hpl by (unfold placed; rewrite !elem_of_app; tauto).
    assert (is_running j s = false); [|tauto]. apply not_true_is_false. rewrite is_running_spec by done. intros Hrun.
    apply (placed_apart _ _ Hs) in Hrun as [? ?]. by destruct Hj. }
  apply wp_bind, wp_if; intros Hc.
  - apply bool_decide_eq_true in Hc. apply wp_ret, HQ; try done; cbn; rewrite filter_all; try done; intros j Hj; apply Hwl;
      rewrite ?Hc; set_solver.
  - eapply (wp_step _ _ _ (λ _ s2, ∃ v, s2 = put_waiting v s1 ∧ waiting_items v ≡ₚ filter (.∉ wl) (waiting_items (waiting s)))).
    { apply wp_remove_requests. intros v Hv. by exists v. }
    intros [] ? (v & -> & Hv). apply wp_remove_requests. intros w Hw. cbn in Hw. apply HQ; try done; cbn.
    + rewrite Hv. erewrite filter_iff; [done|]. intros j Hj. apply Hwl. by left.
    + rewrite Hw. erewrite filter_iff; [done|]. intros j Hj. apply Hwl. by right.
Qed.

Lemma wp_handle_invalid invalid scheduled s : config_ok (config s) → settings_ok s →
  (∀ id n, od_get id scheduled = Some n → 0 ≤ n) →
  wp (handle_invalid_blocks lt_id invalid scheduled) (λ _, recomputed s) E s.
Proof.
  intros Hc Hset Hsch. unfold handle_invalid_blocks, update_requests_with_invalid_blocks. apply wp_get.
  apply wp_bind, wp_bind. eapply wp_mono; [by apply wp_invalidate_requests| |done]. intros x s1 H1. apply wp_ret.
  pose proof (rm_besides _ _ H1) as Eb. injection Eb as Ec _ _ _.
  apply wp_bind, wp_bind. eapply wp_mono; [apply wp_invalidate_requests; [by rewrite Ec|done]| |done].
  intros y s2 H2. apply wp_ret. pose proof (recomputed_trans _ _ _ H1 H2) as H3. clear H1 H2 Ec.
  cbv zeta. apply wp_if; intros _; [by apply wp_ret|].
  eapply (wp_step _ _ _ (λ _ s3, recomputed s s3)).
  { apply wp_if; intros _; [|by apply wp_ret]. eapply wp_mono; [apply any_kv, (rm_settings _ _ H3), Hset| |done].
    intros [] s3 [F3 S3]. by apply (recomputed_frame s s2 s3). }
  intros [] s3 H4. apply wp_if; intros _; [by apply wp_ret|]. apply wp_bind, wp_modify, wp_ret.
  destruct H4 as [A1 A2 A3 A4 A5]. split; try done; intros; by apply A2.
Qed.
End removals.

Section calls.
Context {F : Type} `{FO : FloatOps F} `{FL : FloatLog1p F}.
Context {C : Type} `{KC : KVConnector F C}.
Notation State := (SchedulerState (F := F) (C := C)).
Notation E := (raises True).
Implicit Types (s : State) (r : SchedRequest F) (D : gset string) (R : odict string (SchedRequest F)).
Implicit Types (rejects : string → list Z → bool) (u : Updates) (out : ModelRunnerOutput (F := F) (C := C)) (o : SchedulerOutput F) (e : EngineCoreOutput).
Context (lt_id : bool) (time_monotonic : nat → F) (set_order : gset string → list string).
Context (block_hasher : option (Request F → option (list (list Z)))).

(** The requests of the scheduler can be updated. *)
Lemma wp_update_all o out failed rejects l : ∀ s0 ids s u,
  midway rejects out failed s0 ids s u → NoDup (ids ++ od_keys l) → sane_state s0 → sched_inv s0 →
  (∀ id, id ∈ od_keys l → drafts_fit o out id) →
  wp (update_all time_monotonic set_order block_hasher o out failed rejects l u)
    (λ u' s', midway rejects out failed s0 (ids ++ od_keys l) s' u') E s.
Proof.
  induction l as [|[id n] l IH]; intros s0 ids s u Hmid Hnd Hsane Hs Hfit; cbn [update_all].
  { apply wp_ret. by rewrite app_nil_r. }
  cbn [od_keys fmap list_fmap fst] in *. assert (id ∉ ids) as Hid.
  { apply NoDup_app in Hnd as (_ & Hd & _). intros Hin. apply (Hd id Hin). by left. }
  pose proof (mw_besides _ _ _ _ _ _ _ Hmid) as Ec. injection Ec as Ec _ _ _.
  eapply wp_step.
  { apply wp_update_one; [apply Hmid| |by apply Hfit; left]. intros r Hr Hu. rewrite (mw_others _ _ _ _ _ _ _ Hmid) in Hr by done.
    rewrite Ec. split; [by eapply Hsane|by eapply (iv_tokens _ Hs)]. }
  intros u' s' [Ht Hup]. pose proof (midway_step _ _ _ _ _ _ _ _ _ _ Hmid Hid Ht Hup) as Hmid'.
  replace (ids ++ id :: (fst <$> l)) with ((ids ++ [id]) ++ od_keys l) in * by (by rewrite <-(assoc_L (++))).
  apply IH; try done. intros i Hi. apply Hfit. by right.
Qed.

Lemma wp_finish_one st id s r : settings_ok s → od_get id (requests s) = Some r → status_is_finished st = true →
  sane (config s) r →
  wp (finish_one time_monotonic set_order st id)
    (λ _ s', touches id s s' ∧ id ∈ finished_req_ids s' ∧ ∀ r', od_get id (requests s') = Some r' →
       request_id (req r') = request_id (req r) ∧ sane (config s) r' ∧ is_finished (req r') = true) E s.
Proof.
  intros Hset Hr Hst Hsane. unfold finish_one. apply wp_bind, (wp_get_request _ _ r); [done|].
  eapply (wp_step _ _ _ (λ _ s1, touches id s s1 ∧ requests s1 = requests s)).
  { apply wp_if; intros _; [|by apply wp_ret]. unfold forget_transfer. apply wp_get, wp_bind, wp_modify, wp_ret.
    split; [|done]. by split. }
  intros delay s1 [T1 R1]. apply wp_bind, wp_alter_request. set (s2 := put_requests _ s1).
  assert (touches id s s2) as T2 by (eapply touches_trans; [exact T1|apply touches_alter]).
  assert (od_get id (requests s2) = Some (on_req (put_status st) r)) as Hr2.
  { cbn. by rewrite od_get_alter, decide_True, R1, Hr. }
  eapply wp_mono; [apply wp_free_request; [by apply T2|done]| |done]. intros [] s3 [(T3 & Fi & Rq) _].
  split; [by eapply touches_trans|]. split; [rewrite Fi; set_solver|]. intros r' Hr'.
  assert (r' = on_req (put_status st) r) as ->.
  { destruct Rq as [Rq|Rq]; rewrite Rq in Hr'; [congruence|by rewrite od_get_del, decide_True in Hr']. }
  split; [done|]. split; [by destruct Hsane|done].
Qed.

Lemma wp_finish_all st l : ∀ s0 ids s, status_is_finished st = true → finishing s0 ids s → NoDup (ids ++ l) → sane_state s0 →
  (∀ id, id ∈ l → ∃ r, od_get id (requests s0) = Some r ∧ unfinished r) →
  wp (forM l (finish_one time_monotonic set_order st)) (λ _, finishing s0 (ids ++ l)) E s.
Proof.
  induction l as [|id l IH]; intros s0 ids s Hst Hf Hnd Hsane Hl; cbn [forM]; [apply wp_ret; by rewrite app_nil_r|].
  assert (id ∉ ids) as Hid.
  { apply NoDup_app in Hnd as (_ & Hd & _). intros Hin. apply (Hd id Hin). by left. }
  destruct (Hl id) as (r & Hr & Hu); [by left|]. rewrite <-(fg_others _ _ _ Hf) in Hr by done.
  pose proof (fg_besides _ _ _ Hf) as Eb. injection Eb as Ec _ _ _.
  eapply wp_step.
  { eapply (wp_finish_one st id s r); try done; [apply Hf|]. rewrite Ec, (fg_others _ _ _ Hf) in * by done. by eapply Hsane. }
  intros [] s' (Ht & Hfi & Hgone). rewrite (cons_middle id ids l) in *. rewrite (assoc_L (++)) in *. apply IH; try done.
  2:{ intros i Hi. apply Hl. by right. }
  destruct Hf as [M1 M2 M3 M4 M5 M6]. split.
  - by rewrite (to_same _ _ _ Ht).
  - by apply Ht.
  - eapply (progress_one _ _ _ _ _ _ id); [exact M3|set_solver|set_solver|by apply Ht, M3|apply Ht| |].
    + intros r' Hr'. destruct (Hgone r' Hr') as (? & ? & Hfin). exists r. rewrite Ec in *. split_and!; try done.
      intros Hu'. unfold unfinished in Hu'. congruence.
    + intros r' _ _ []. set_solver.
  - intros j [Hj Hj2]%not_elem_of_app. rewrite (to_other _ _ _ Ht) by set_solver. by apply M4.
  - intros j [Hj| ->%list_elem_of_singleton]%elem_of_app.
    + destruct (M5 j Hj). split; [by apply Ht|]. by rewrite (to_other _ _ _ Ht) by (intros ->; done).
    + split; [done|]. intros r' Hr'. by apply Hgone.
  - etrans; [exact M6|apply Ht].
Qed.

(** Iterating a set gives its elements. *)
Context (set_order_elements : ∀ X, set_order X ≡ₚ elements X).

Lemma elem_of_set_order X j : j ∈ set_order X ↔ j ∈ X.
Proof. by rewrite set_order_elements, elem_of_elements. Qed.

Lemma wp_remove_stopped rejects out failed s0 ids s u : midway rejects out failed s0 ids s u → sched_inv s0 →
  (∀ j, j ∈ stopped_preempted_reqs u → j ∈ waiting_items (waiting s0)) →
  wp (remove_stopped lt_id set_order u)
    (λ _ s', left (ended u) s0 s' ∧ settings_ok s' ∧ requests s' = requests s ∧ finished_req_ids s' = finished_req_ids s) E s.
Proof.
  intros Hmid Hs Hwait. pose proof (mw_besides _ _ _ _ _ _ _ Hmid) as Eb. injection Eb as E1 E2 E3 E4.
  assert (∀ j, j ∈ stopped_running_reqs u → j ∈ running s0) as Hrun.
  { intros j (r & Hr & _ & Hst)%(mw_running _ _ _ _ _ _ _ Hmid). by apply (iv_running _ Hs _ _ Hr). }
  assert (filter (.∉ stopped_running_reqs u) (running s0) = filter (.∉ ended u) (running s0)) as Hr.
  { apply filter_iff. intros j Hj. unfold ended. split; [|set_solver]. intros H1 [H2|H2]%elem_of_union; [done|].
    apply Hwait in H2. by apply (placed_apart _ _ Hs) in Hj as [? _]. }
  assert (filter (.∉ ended u) (waiting_items (skipped_waiting s0)) = waiting_items (skipped_waiting s0)) as Hsk.
  { apply filter_none. intros j Hj [H2|H2]%elem_of_union; [by apply Hrun, (placed_apart _ _ Hs) in H2 as [_ ?]|].
    apply Hwait in H2. pose proof (iv_nodup _ Hs) as Hnd. unfold placed in Hnd. apply NoDup_app in Hnd as (_ & _ & Hnd).
    apply NoDup_app in Hnd as (_ & Hd & _). by apply (Hd j). }
  unfold remove_stopped. apply wp_bind, wp_modify. set (s1 := put_running _ s).
  assert (running s1 = filter (.∉ ended u) (running s0)) as Hr1.
  { cbn. rewrite E4, remove_all_filter; [done|]. pose proof (iv_nodup _ Hs) as Hnd. by apply NoDup_app in Hnd as [? _]. }
  assert (∀ w, waiting_items w ≡ₚ filter (.∉ ended u) (waiting_items (waiting s0)) → left (ended u) s0 (put_waiting w s1)) as Hleft.
  { intros w Hw. split; cbn; [done|apply Hmid|by rewrite <-Hr1|done|by rewrite E3, Hsk]. }
  apply wp_if; intros Hc.
  - apply bool_decide_eq_true in Hc. apply wp_ret. split; [|by split; [apply Hmid|]].
    replace s1 with (put_waiting (waiting s1) s1) by done. apply Hleft. cbn. rewrite E2, filter_none; [done|].
    intros j Hj [H2|H2]%elem_of_union; [by apply Hrun, (placed_apart _ _ Hs) in H2 as [? _]|set_solver].
  - apply wp_remove_requests. intros v Hv. cbn in Hv. split; [|by split; [apply Hmid|]]. apply Hleft.
    rewrite Hv, E2. erewrite filter_iff; [done|]. intros j Hj. cbn. rewrite elem_of_set_order. unfold ended.
    split; [|set_solver]. intros H1 [H2|H2]%elem_of_union; [|done]. by apply Hrun, (placed_apart _ _ Hs) in H2 as [? _].
Qed.

Lemma wp_finish_requests who st s : sched_inv s → sane_state s → settings_ok s →
  wp (finish_requests lt_id time_monotonic set_order who st) (λ ids s', finished_all s ids s'
    ∧ ids = valid_requests (match who with One_id id => [id] | Some_ids X => set_order X | All_ids => od_keys (requests s) end) s) E s.
Proof.
  intros Hs Hsane Hset. unfold finish_requests. apply wp_bind, wp_assert; [intros Hst|done]. apply wp_get. cbv zeta.
  set (ids := match who with One_id id => [id] | Some_ids X => set_order X | All_ids => od_keys (requests s) end).
  set (valid := valid_requests ids s).
  assert (NoDup valid) as Hnd.
  { apply NoDup_filter. unfold ids. destruct who as [id|X|]; [apply NoDup_singleton|rewrite set_order_elements; apply NoDup_elements|apply Hs]. }
  apply (wp_leave_queues lt_id _ s ids); [done|]. fold valid. intros s1 E1 Hset1 R1 W1 K1. injection E1 as C1 Q1 F1.
  assert (finishing (put_requests (requests s) s1) [] s1) as Hstart.
  { split; cbn; rewrite ?Q1; try done; try set_solver; try by auto. rewrite C1. by apply start_progress. }
  eapply wp_step.
  { apply (wp_finish_all st valid (put_requests (requests s) s1) [] s1 Hst Hstart Hnd).
    - intros j r Hr. cbn. rewrite C1. by eapply Hsane.
    - intros id Hid. by apply valid_requests_spec in Hid as [_ ?]. }
  intros [] s2 [M1 M2 M3 M4 M5 M6]. apply wp_ret. split; [|done]. cbn in *. injection M1 as B1 B2 B3 B4.
  assert (∀ l : list string, filter (.∉ (list_to_set valid : gset string)) l = filter (.∉ valid) l) as Hf.
  { intros l. apply filter_iff. intros j _. by rewrite elem_of_list_to_set. }
  split; try done; [|by rewrite <-F1]. rewrite C1 in M3.
  split; [congruence|done|by rewrite Hf, B4, R1|by rewrite Hf, B2|by rewrite Hf, B3].
Qed.
End calls.
