(* ===== verification/SchedulerOutcome.v ===== *)
(** * The calls between the steps

    The whole of [update_from_output], then the calls of the engine that bring
    requests in, and those that take every running one back: what they leave of
    the scheduler. *)
From S2P Require Import Prelude PyFloat Metrics Protocol Config BlockPool Request KVCache Scoring Scheduling.
From S2P Require Import ControllerSteady EncoderCache RequestQueue QueueLaws SchedUtils Hoare Pressure Scheduler.
From S2P Require Import SchedulerFacts SchedulerStep SchedulerEvents SchedulerKeeps SchedulerAny.
From S2P Require Import SchedulerWaiting SchedulerAdmit SchedulerUpdate SchedulerResults.
Import Sched Step Events.
Local Open Scope Z_scope.

Section outcome.
Context {F : Type} `{FO : FloatOps F} `{FL : FloatLog1p F}.
Context {C : Type} `{KC : KVConnector F C}.
Notation State := (SchedulerState (F := F) (C := C)).
Notation E := (raises True).
Implicit Types (s : State) (r : SchedRequest F) (D : gset string).
Implicit Types (rejects : string → list Z → bool) (u : Updates) (out : ModelRunnerOutput (F := F) (C := C)) (o : SchedulerOutput F) (e : EngineCoreOutput).

(** ** What a call leaves of the scheduler *)
(** No request of [s'] is new, and the unfinished ones are where they were. *)
Record later s s' : Prop := {
  la_config : config s' = config s;
  la_old j r' : od_get j (requests s') = Some r' → unfinished r' → ∃ r, od_get j (requests s) = Some r ∧ unfinished r
    ∧ status (req r') = status (req r);
  la_waiting j r' : j ∈ waiting_items (waiting s) → od_get j (requests s') = Some r' → unfinished r' →
    j ∈ waiting_items (waiting s');
  la_running : (length (running s') ≤ length (running s))%nat
}.

Lemma later_refl s : later s s.
Proof. split; try done. intros j r Hr Hu. by exists r. Qed.
Lemma later_trans s1 s2 s3 : later s1 s2 → later s2 s3 → later s1 s3.
Proof.
  intros [A1 A2 A3 A4] [B1 B2 B3 B4]. split; [congruence|..|lia].
  - intros j r3 Hr3 Hu3. destruct (B2 j r3 Hr3 Hu3) as (r2 & Hr2 & Hu2 & E2). destruct (A2 j r2 Hr2 Hu2) as (r1 & Hr1 & Hu1 & E1).
    exists r1. split_and!; try done. congruence.
  - intros j r3 Hj Hr3 Hu3. destruct (B2 j r3 Hr3 Hu3) as (r2 & Hr2 & Hu2 & _). eapply B3; try done. by eapply A3.
Qed.
Lemma left_later D s s' : left D s s' → later s s'.
Proof.
  intros [E1 [_ P2 _] E2 E3 _]. split; [done|..].
  - intros j r' Hr' Hu'. destruct (P2 j r' Hr') as (r & Hr & _ & _ & Hu). destruct (Hu Hu') as (_ & ? & ? & _). by exists r.
  - intros j r' Hj Hr' Hu'. destruct (P2 j r' Hr') as (r & Hr & _ & _ & Hu). destruct (Hu Hu') as (? & _). rewrite E3.
    by apply list_elem_of_filter.
  - rewrite E2. apply length_filter.
Qed.

(** What every call keeps. *)
Record good s : Prop := {
  gd_inv : sched_inv s;
  gd_sane : sane_state s;
  gd_settings : settings_ok s
}.

Lemma left_good D s s' : good s → left D s s' → settings_ok s' → good s'.
Proof. intros [H1 _ _] Hl Hs. split; [by eapply left_inv|by eapply left_sane|done]. Qed.

Lemma frame_good s s' : good s → frame s s' → settings_ok s' → good s'.
Proof.
  intros [H1 H2 _] Hf Hs. split; [by eapply sched_inv_frame| |done]. injection Hf as E1 E2 _ _ _ _ _ _ _ _. unfold sane_state.
  by rewrite E1, E2.
Qed.
Lemma frame_later s s' : frame s s' → later s s'.
Proof.
  intros Hf. injection Hf as E1 E2 E3 E4 E5 _ _ _ _ _. split; rewrite ?E1, ?E2, ?E3, ?E5; try done. intros j r Hr Hu. by exists r.
Qed.

(** ** Finished transfers *)
(** Only finished requests are gone. *)
Record dropped s s' : Prop := {
  dp_besides : besides s' = besides s;
  dp_settings : settings_ok s → settings_ok s';
  dp_wf : od_wf (requests s) → od_wf (requests s');
  dp_get j : od_get j (requests s') = od_get j (requests s)
    ∨ od_get j (requests s') = None ∧ ∃ r, od_get j (requests s) = Some r ∧ is_finished (req r) = true;
  dp_finished : finished_req_ids s' = finished_req_ids s
}.

Lemma dropped_refl s : dropped s s.
Proof. split; try done. by left. Qed.
Lemma dropped_trans s1 s2 s3 : dropped s1 s2 → dropped s2 s3 → dropped s1 s3.
Proof.
  intros [A1 A2 A3 A4 A5] [B1 B2 B3 B4 B5]. split; [congruence|auto|auto| |congruence].
  intros j. destruct (B4 j) as [Hb|(Hb & r & Hr & Hf)]; destruct (A4 j) as [Ha|(Ha & r' & Hr' & Hf')].
  - left. congruence.
  - right. split; [congruence|by exists r'].
  - right. split; [done|]. exists r. by rewrite <-Ha.
  - congruence.
Qed.
Lemma dropped_frame s s1 s2 : dropped s s1 → frame s1 s2 → settings_ok s2 → dropped s s2.
Proof.
  intros [A1 A2 A3 A4 A5] Hf Hset. injection Hf as E1 E2 E3 E4 E5 E6 _ _ _ _. unfold besides in *.
  split; unfold besides; rewrite ?E1, ?E2, ?E3, ?E4, ?E5, ?E6; auto.
Qed.

Lemma dropped_left s s' : good s → dropped s s' → left ∅ s s'.
Proof.
  intros [Hs Hsane _] [H1 _ H2 H3 _]. apply left_besides; [done|]. pose proof (start_progress s Hs Hsane) as [_ P2 P3]. split.
  - by apply H2, Hs.
  - intros j r' Hr'. destruct (H3 j) as [Hj|[Hj _]]; [|congruence]. apply P2. by rewrite <-Hj.
  - intros j r Hr Hu _. exists r. destruct (H3 j) as [Hj|(_ & r1 & Hr1 & Hfin)]; [by rewrite Hj|].
    unfold unfinished in Hu. congruence.
Qed.

(** ** The results of a step *)
(** What the engine sees to when it hands the results of [o] over: the step
    scheduled each request once, the model kept to the drafts, and a request
    preempted since waits in the queue [update_from_output] takes it out of. *)
Record results_ok s o out : Prop := {
  ro_once : NoDup (od_keys (out_num_scheduled_tokens o));
  ro_pos id n : od_get id (out_num_scheduled_tokens o) = Some n → 0 ≤ n;
  ro_fit id : id ∈ od_keys (out_num_scheduled_tokens o) → drafts_fit o out id;
  ro_waiting id r : id ∈ od_keys (out_num_scheduled_tokens o) → od_get id (requests s) = Some r → unfinished r →
    status (req r) ≠ RUNNING → id ∈ waiting_items (waiting s)
}.

(** What has become of the requests of the step, but those whose blocks failed
    to load: an output tells what was delivered to one; a request without an
    output had no tokens sampled for it, and goes on with those it has. *)
Record delivery rejects out (failed : gset string) s o (outs : list EngineCoreOutput) s' : Prop := {
  dl_once : NoDup (output_request_id <$> outs);
  dl_outputs e : e ∈ outs → output_request_id e ∈ od_keys (out_num_scheduled_tokens o) ∧ delivered rejects out failed s s' e;
  dl_all j r : j ∈ od_keys (out_num_scheduled_tokens o) → od_get j (requests s) = Some r → unfinished r → j ∉ failed →
    (∃ e, e ∈ outs ∧ output_request_id e = j)
    ∨ sampled out j = [] ∧ ∃ r', od_get j (requests s') = Some r' ∧ unfinished r' ∧ all_token_ids (req r') = all_token_ids (req r);
  dl_tokens j r' : od_get j (requests s') = Some r' → unfinished r' →
    ∃ r, od_get j (requests s) = Some r ∧ all_token_ids (req r') = all_token_ids (req r) ++ streamed j outs
}.

(** The requests named by outputs, or by the step, keep what is said of them. *)
Lemma delivery_after rejects out failed s o outs s1 s2 : delivery rejects out failed s o outs s1 →
  (∀ j, j ∉ failed → od_get j (requests s2) = od_get j (requests s1)
     ∨ od_get j (requests s2) = None ∧ ∃ r, od_get j (requests s1) = Some r ∧ is_finished (req r) = true) →
  (∀ j r', od_get j (requests s2) = Some r' → unfinished r' → od_get j (requests s1) = Some r') →
  finished_req_ids s1 ⊆ finished_req_ids s2 → delivery rejects out failed s o outs s2.
Proof.
  intros [D1 D2 D3 D4] Hget Hold Hfi. split; [done|..|intros j r' Hr' Hu'; by apply D4; [apply Hold|]].
  - intros e He. destruct (D2 e He) as (Hin & Hf & r & end_ & Hr & Hu & Hpre & Hre & H). split; [done|]. split; [done|]. exists r, end_. split_and!; try done.
    destruct (Hget _ Hf) as [Hj|(Hj & r1 & Hr1 & Hfin)]; [rewrite Hj; destruct (output_finish_reason e); [split; [apply H|apply Hfi, H]|done]|].
    rewrite Hj. destruct (output_finish_reason e); [split; [done|apply Hfi, H]|].
    destruct H as (r' & Hr' & Hu' & _). unfold unfinished in Hu'. congruence.
  - intros j r Hj Hr Hu Hf. destruct (D3 j r Hj Hr Hu Hf) as [|(Hs & r' & Hr' & Hu' & Ht)]; [by left|right]. split; [done|]. exists r'.
    destruct (Hget _ Hf) as [E1|(E1 & r1 & Hr1 & Hfin)]; [by rewrite E1|]. unfold unfinished in Hu'. congruence.
Qed.

(** Taking tokens back before the results changes nothing of them. *)
Lemma delivery_before rejects out failed s s1 o outs s' : recomputed s s1 → delivery rejects out failed s1 o outs s' → delivery rejects out failed s o outs s'.
Proof.
  intros Hrm [D1 D2 D3 D4].
  split; [done|..].
  - intros e He. destruct (D2 e He) as (Hin & Hf & r1 & end_ & Hr1 & Hu & [Hpa Hfa] & Hre & H). split; [done|]. split; [done|].
    destruct (rm_get _ _ Hrm _ _ Hr1) as (r & n & Hr & -> & _). exists r, end_. pose proof (rm_besides _ _ Hrm) as Eb. injection Eb as Ec _ _ _.
    assert (alike (req r) (req (on_req (put_num_computed_tokens n) r))) as Hal by by split.
    split_and!; try done. rewrite Ec in Hpa, Hfa. split; [by eapply alike_part|]. rewrite <-Hfa. symmetry. by apply alike_fate.
  - intros j r Hj Hr Hu Hf. assert (is_Some (od_get j (requests s1))) as [r1 Hr1].
    { apply od_get_is_Some. rewrite (rm_keys _ _ Hrm). apply od_get_is_Some. by exists r. }
    destruct (rm_get _ _ Hrm _ _ Hr1) as (r0 & n & Hr0 & -> & _). assert (r0 = r) as -> by congruence. by apply (D3 j _ Hj Hr1).
  - intros j r' Hr' Hu'. destruct (D4 j r' Hr' Hu') as (r1 & Hr1 & Ht). destruct (rm_get _ _ Hrm _ _ Hr1) as (r0 & n & Hr0 & -> & _).
    by exists r0.
Qed.

Lemma midway_delivery rejects out failed s o s' u : midway rejects out failed s (od_keys (out_num_scheduled_tokens o)) s' u →
  delivery rejects out failed s o (outputs u) s'.
Proof. intros [_ _ _ _ _ _ M7 M8 M9 _ M11]. by split. Qed.

End outcome.

Section update.
Context {F : Type} `{FO : FloatOps F} `{FL : FloatLog1p F}.
Context {C : Type} `{KC : KVConnector F C}.
Notation State := (SchedulerState (F := F) (C := C)).
Notation E := (raises True).
Implicit Types (s : State) (r : SchedRequest F) (D : gset string).
Implicit Types (rejects : string → list Z → bool) (u : Updates) (out : ModelRunnerOutput (F := F) (C := C)) (o : SchedulerOutput F) (e : EngineCoreOutput).
Context (lt_id : bool) (time_monotonic : nat → F) (set_order : gset string → list string).

Lemma wp_drop_one id s : settings_ok s → wp (free_blocks set_order id) (λ _, dropped s) E s.
Proof.
  intros Hset. eapply wp_mono; [by apply wp_free_blocks| |done]. intros [] s' (Ht & Hfi & Rq & r & Hr & Hfin).
  split; [apply Ht|apply Ht|apply Ht| |done]. intros j. rewrite Rq, od_get_del. case_decide as Hj; [|by left]. subst j. right.
  split; [done|by exists r].
Qed.

Lemma wp_received_one id s : settings_ok s → wp (received_one set_order id) (λ _, dropped s) E s.
Proof.
  intros Hset. unfold received_one. apply wp_get. destruct (od_get id (requests s)) as [r|]; [|done]. apply wp_if; intros _.
  - apply wp_modify. split; try done. by left.
  - apply wp_bind, wp_assert; [intros _|done]. by apply wp_drop_one.
Qed.
Lemma wp_sent_one id s : settings_ok s → wp (sent_one set_order id) (λ _, dropped s) E s.
Proof. intros Hset. unfold sent_one. apply wp_get, wp_bind, wp_assert; [intros _|done]. by apply wp_drop_one. Qed.

Lemma wp_drop_all (body : string → M State unit) l s0 s : settings_ok s0 → dropped s0 s →
  (∀ id s1, settings_ok s1 → wp (body id) (λ _, dropped s1) E s1) → wp (forM l body) (λ _, dropped s0) E s.
Proof.
  intros Hset Hd Hb. apply wp_forM_or; [done|]. intros id s1 _ H1.
  eapply wp_mono; [apply Hb, (dp_settings _ _ H1), Hset| |done]. intros [] s2 H2. by apply (dropped_trans s0 s1 s2).
Qed.

Lemma wp_xfer_finished k s : settings_ok s → wp (update_from_kv_xfer_finished set_order k) (λ _, dropped s) E s.
Proof.
  intros Hset. unfold update_from_kv_xfer_finished. eapply wp_step; [by apply any_connector|]. intros [] s1 [F1 S1].
  pose proof (dropped_frame _ _ _ (dropped_refl s) F1 S1) as D1.
  eapply wp_step; [by apply (wp_drop_all _ _ s); [..|intros; by apply wp_received_one]|]. intros [] s2 D2.
  by apply (wp_drop_all _ _ s); [..|intros; by apply wp_sent_one].
Qed.

Context (block_hasher : option (Request F → option (list (list Z)))).
Context (set_order_elements : ∀ X, set_order X ≡ₚ elements X).

Lemma wp_fail_requests failed s : good s →
  wp (fail_requests lt_id time_monotonic set_order failed)
    (λ errors s', good s' ∧ later s s' ∧ (∀ j, j ∉ failed → od_get j (requests s') = od_get j (requests s))
       ∧ (∀ j r', od_get j (requests s') = Some r' → unfinished r' → od_get j (requests s) = Some r')
       ∧ finished_req_ids s ⊆ finished_req_ids s' ∧ (failed = ∅ → errors = []) ∧ ∀ j, streamed j errors = []) E s.
Proof.
  intros Hg. unfold fail_requests. apply wp_get. apply wp_if; intros Hc.
  { apply wp_ret. split; [done|]. split; [apply later_refl|]. by split_and!. }
  apply orb_false_iff in Hc as [Hne%bool_decide_eq_false _]. apply wp_bind, wp_some_or; [intros reqs _|done].
  eapply wp_step; [apply wp_finish_requests; [done|apply Hg..]|]. intros ids s' [[H1 H2 H3 H4 H5] Hids]. apply wp_ret.
  split; [by eapply left_good|]. split; [by eapply left_later|]. split; [|split; [|split; [done|split; [done|]]]].
  2:{ intros j r' Hr' Hu'. destruct (decide (j ∈ ids)) as [Hj|Hj]; [|by rewrite <-H3]. destruct (H4 j Hj) as [_ Hf].
      specialize (Hf r' Hr'). unfold unfinished in Hu'. congruence. }
  2:{ intros j. clear. induction reqs as [|r reqs IH]; [done|]. unfold streamed in *. cbn [fmap list_fmap].
      rewrite filter_cons. case_decide; exact IH. }
  intros j Hj. apply H3. rewrite Hids. intros [Hin _]%valid_requests_spec. by apply elem_of_set_order in Hin.
Qed.

Lemma wp_update_from_output rejects o out s : good s → results_ok s o out →
  wp (update_from_output lt_id time_monotonic set_order block_hasher rejects o out)
    (λ outs s', good s' ∧ later s s' ∧ ∃ failed reports errors, outs = reports ++ errors
       ∧ delivery rejects out failed s o reports s' ∧ (∀ j, streamed j errors = [])
       ∧ (match kv_connector_output out with Some k => invalid_block_ids k = ∅ | None => True end → failed = ∅ ∧ errors = [])) E s.
Proof.
  intros Hg [O1 O2 O3 O4]. pose proof Hg as [Hs Hsane Hset]. unfold update_from_output.
  set (loaded := match kv_connector_output out with Some k => invalid_block_ids k = ∅ | None => True end).
  eapply (wp_step _ _ _ (λ failed s1, recomputed s s1 ∧ (loaded → failed = ∅))).
  { unfold loaded. destruct (kv_connector_output out) as [k|]; [|apply wp_ret; split; [apply recomputed_refl|done]].
    apply wp_if; intros Hk; [apply wp_ret; split; [apply recomputed_refl|done]|]. apply bool_decide_eq_false in Hk.
    eapply wp_mono; [apply wp_handle_invalid; [apply Hs|done|done]| |done]. by intros failed s1 H1. }
  intros failed s1 [R1 Hnone]. eapply wp_step; [apply any_controller; [apply steady_executed|by apply R1]|].
  intros [] s2 [F2 S2]. pose proof (recomputed_frame _ _ _ R1 F2 ltac:(done)) as R2. clear s1 R1 F2.
  pose proof (recomputed_left _ _ Hs Hsane R2) as L2. pose proof (left_good _ _ _ Hg L2 S2) as G2.
  assert (∀ id, id ∈ od_keys (out_num_scheduled_tokens o) → ∀ r, od_get id (requests s2) = Some r → unfinished r →
    status (req r) ≠ RUNNING → id ∈ waiting_items (waiting s2)) as Hwait.
  { intros id Hid r' Hr' Hu' Hst. pose proof (rm_besides _ _ R2) as Eb. injection Eb as _ -> _ _.
    destruct (rm_get _ _ R2 _ _ Hr') as (r & n & Hr & -> & _). by apply (O4 id r). }
  eapply wp_step.
  { apply (wp_update_all time_monotonic set_order block_hasher o out failed rejects _ s2 [] s2); try done; try apply G2.
    apply midway_start; apply G2. }
  intros u s3 Hmid. change ([] ++ od_keys (out_num_scheduled_tokens o)) with (od_keys (out_num_scheduled_tokens o)) in Hmid.
  pose proof (midway_delivery _ _ _ _ _ _ _ Hmid) as Hdel.
  eapply wp_step.
  { apply (wp_remove_stopped lt_id set_order set_order_elements rejects out failed s2 _ s3 u Hmid); [apply G2|].
    intros j Hj. destruct (mw_preempted _ _ _ _ _ _ _ Hmid j Hj) as (Hin & r & Hr & Hu & Hst). by eapply Hwait. }
  intros [] s4 (L4 & S4 & R4 & Fi4). pose proof (left_good _ _ _ G2 L4 S4) as G4.
  pose proof (later_trans _ _ _ (left_later _ _ _ L2) (left_later _ _ _ L4)) as T4.
  assert (delivery rejects out failed s o (outputs u) s4) as D4.
  { eapply delivery_before; [done|]. eapply delivery_after; [done|by intros j _; left; rewrite R4|by intros j r'; rewrite R4|by rewrite Fi4]. }
  eapply wp_step; [by apply wp_fail_requests|]. intros errors s5 (G5 & T5 & Hg5 & Hold5 & Fi5 & Herr & Hno).
  eapply (wp_step _ _ _ (λ _ s6, dropped s5 s6)).
  { destruct (kv_connector_output out); [apply wp_xfer_finished, G5|apply wp_ret, dropped_refl]. }
  intros [] s6 D6. pose proof (dropped_left _ _ G5 D6) as L6. pose proof (left_good _ _ _ G5 L6 (dp_settings _ _ D6 (gd_settings _ G5))) as G6.
  eapply wp_step; [apply any_kv, G6|]. intros events s7 [F7 S7]. eapply wp_step; [by apply any_connector|]. intros [] s8 [F8 S8].
  pose proof (frame_then _ _ _ F7 F8) as F9. apply wp_ret. split; [by eapply frame_good|].
  split; [eapply later_trans; [exact T4|]; eapply later_trans; [exact T5|]; eapply later_trans; [by eapply left_later|by apply frame_later]|].
  exists failed, (outputs u), errors. split; [done|]. split; [|split; [done|intros Hl; specialize (Hnone Hl); auto]].
  injection F9 as _ E2 _ _ _ E6 _ _ _ _. eapply delivery_after; [exact D4| | |].
  - intros j Hj. rewrite E2. rewrite <-(Hg5 j Hj). apply (dp_get _ _ D6).
  - intros j r' Hr' Hu'. rewrite E2 in Hr'. apply Hold5; [|done]. destruct (dp_get _ _ D6 j) as [<-|[Hj _]]; [done|congruence].
  - rewrite E6, (dp_finished _ _ D6). done.
Qed.
End update.

(** ** New requests and resets *)
Section calls.
Context {F : Type} `{FO : FloatOps F} `{FL : FloatLog1p F}.
Context {C : Type} `{KC : KVConnector F C}.
Notation State := (SchedulerState (F := F) (C := C)).
Notation E := (raises True).
Implicit Types (s : State) (r : SchedRequest F).

(** ** A new request *)
(** What the engine makes of a request before it adds it. *)
Record newcomer (cfg : SchedulerConfig) r : Prop := {
  nc_unfinished : unfinished r;
  nc_waits : status (req r) ≠ RUNNING;
  nc_tokens : tokens_ok cfg r;
  nc_sane : sane cfg r
}.

(** The request waits where its status says. *)
Record joined s r s' : Prop := {
  jo_config : config s' = config s;
  jo_new : od_get (request_id (req r)) (requests s) = None;
  jo_requests : requests s' = od_set (request_id (req r)) r (requests s);
  jo_running : running s' = running s;
  jo_settings : settings_ok s';
  jo_waiting : waiting_items (waiting s') ≡ₚ
    if is_blocked_waiting_status (status (req r)) then waiting_items (waiting s)
    else request_id (req r) :: waiting_items (waiting s);
  jo_skipped : waiting_items (skipped_waiting s') ≡ₚ
    if is_blocked_waiting_status (status (req r)) then request_id (req r) :: waiting_items (skipped_waiting s)
    else waiting_items (skipped_waiting s)
}.

Lemma joined_placed s r s' : joined s r s' → placed s' ≡ₚ request_id (req r) :: placed s.
Proof.
  intros [_ _ _ H1 _ H2 H3]. unfold placed. rewrite H1, H2, H3. destruct (is_blocked_waiting_status _).
  - by rewrite <-!Permutation_middle.
  - cbn. by rewrite <-Permutation_middle.
Qed.

Lemma joined_good s r s' : good s → newcomer (config s) r → joined s r s' → good s'.
Proof.
  intros [[Hc Hwf Hid Hnd Hpl Hru Htok] Hsane _] [N1 N2 N3 N4] Hj. pose proof (joined_placed _ _ _ Hj) as Hp.
  destruct Hj as [E1 E2 E3 E4 E5 _ _]. set (id := request_id (req r)) in *.
  assert (id ∉ placed s) as Hout. { intros (r0 & Hr0 & _)%Hpl. congruence. }
  split; [|intros j r'; rewrite E1, E3, od_get_set; case_decide; [by intros [= <-]|apply Hsane]|done].
  split; rewrite ?E1, ?E3, ?E4; try done.
  - by apply od_wf_set.
  - intros j r'. rewrite od_get_set. case_decide as Hj; [by intros [= <-]|apply Hid].
  - rewrite Hp. by apply NoDup_cons.
  - intros j. rewrite Hp, elem_of_cons, Hpl, od_get_set. case_decide as Hj.
    + subst j. split; [intros _; by exists r|by left].
    + naive_solver.
  - intros j r'. rewrite od_get_set. case_decide as Hj; [|apply Hru]. subst j. intros [= <-]. split; [|done].
    intros Hin. destruct Hout. unfold placed. apply elem_of_app. by left.
  - intros j r'. rewrite od_get_set. case_decide as Hj; [by intros [= <-]|apply Htok].
Qed.

Context (lt_id : bool) (time_monotonic : nat → F) (set_order : gset string → list string).

Lemma wp_add_request r md s : settings_ok s →
  wp (add_request lt_id time_monotonic r md) (λ _, joined s r) E s.
Proof.
  intros Hset. unfold add_request.
  eapply (wp_step _ _ _ (λ _ s1, frame s s1 ∧ settings_ok s1)).
  { destruct md as [d|]; [|by apply wp_ret]. apply wp_part; [by apply any_connector|]. intros [] s1 F1 S1.
    eapply wp_mono; [apply any_controller; [apply steady_associate|done]| |done]. intros [] s2 [F2 S2].
    split; [by eapply frame_then|done]. }
  intros [] s1 [F1 S1]. apply wp_get. destruct (od_mem _ _) eqn:Hmem; [done|]. apply od_mem_false in Hmem.
  apply wp_bind, wp_modify. set (s2 := put_requests _ s1). injection F1 as E1 E2 E3 E4 E5 _ _ _ _ _.
  eapply (wp_step _ _ _ (λ _, joined s r)).
  - assert (∀ q, ∃ v, RequestQueue.add_request (RequestQueue := waiting_queue (queue_lt lt_id s2)) (request_id (req r)) (queue_of q s2) = Ret tt v
      ∧ waiting_items v ≡ₚ request_id (req r) :: waiting_items (queue_of q s2)) as Hadd.
    { intros q. apply (@add_law _ _ _ _ _ (waiting_laws (queue_lt lt_id s2))). }
    unfold enqueue_waiting_request. destruct (is_blocked_waiting_status (status (req r))) eqn:Hb.
    + destruct (Hadd Skipped) as (v & Hv & Hi). eapply wp_on_queue; [exact Hv|]. cbn in Hi.
      split; cbn; rewrite ?Hb; try done; [congruence|by rewrite E2|by rewrite E3|by rewrite Hi, E4].
    + destruct (Hadd Waiting) as (v & Hv & Hi). eapply wp_on_queue; [exact Hv|]. cbn in Hi.
      split; cbn; rewrite ?Hb; try done; [congruence|by rewrite E2|by rewrite Hi, E3|by rewrite E4].
  - intros [] s3 Hj. eapply wp_mono; [apply any_connector, Hj| |done]. intros [] s4 [F4 S4].
    injection F4 as G1 G2 G3 G4 G5 _ _ _ _ _. destruct Hj as [J1 J2 J3 J4 J5 J6 J7].
    split; rewrite ?G1, ?G2, ?G3, ?G4, ?G5; done.
Qed.

(** ** Every running request is taken back *)
(** Its outputs on their way are to be discarded. *)
Definition taken_back r : SchedRequest F :=
  put_placeholders 0 (put_discard (num_output_placeholders r) (preempted_of r)).

(** The requests [ids], last of the running list, wait again. *)
Record taken s (ids : list string) s' : Prop := {
  tk_config : config s' = config s;
  tk_settings : settings_ok s';
  tk_keys : od_keys (requests s') = od_keys (requests s);
  tk_running : running s' ++ ids ≡ₚ running s;
  tk_waiting : waiting_items (waiting s') ≡ₚ ids ++ waiting_items (waiting s);
  tk_skipped : skipped_waiting s' = skipped_waiting s;
  tk_get j : od_get j (requests s') = if decide (j ∈ ids) then taken_back <$> od_get j (requests s) else od_get j (requests s)
}.

Lemma taken_none s : settings_ok s → taken s [] s.
Proof. intros Hs. split; try done. by rewrite app_nil_r. Qed.

Lemma last_removelast {A} (l : list A) id : last l = Some id → l = removelast l ++ [id].
Proof.
  intros (l' & ->)%last_Some. by rewrite removelast_last.
Qed.

(** One turn of the loop *)
Definition take_back (id : string) : M State unit :=
  modify (λ s, put_running (removelast (running s)) s) ;;
  preempt_request lt_id time_monotonic set_order id false ;;
  alter_request (λ r, put_placeholders 0 (put_discard (num_output_placeholders r) r)) id.

Lemma wp_take_back id s : sched_inv s → settings_ok s → last (running s) = Some id →
  wp (take_back id) (λ _ s', sched_inv s' ∧ taken s [id] s' ∧ running s' = removelast (running s)) E s.
Proof.
  intros Hs Hset Hl%last_removelast. unfold take_back. apply wp_bind, wp_modify.
  assert (running s ≡ₚ id :: removelast (running s)) as HR by (rewrite Hl at 1; by rewrite (comm (++))).
  eapply wp_step.
  { apply (wp_preempt_request lt_id time_monotonic set_order True any_parts any_fits s id (removelast (running s)) false); try done. }
  intros [] s1 (Hto & Hs1 & S1 & _). apply wp_alter_request. set (f := λ r, _). set (s2 := put_requests _ s1).
  destruct Hto as [T1 T2 T3 T4 T5 _].
  assert (od_get id (requests s1) = preempted_of <$> od_get id (requests s)) as Hget by (by rewrite T2, od_get_alter, decide_True).
  split; [|split; [|exact T3]].
  - apply (sched_inv_update s1 s2 id f); try done. intros r Hr. split; try done.
    + intros _ (K1 & K2 & K3 & K4 & K5). rewrite Hget in Hr. destruct (od_get id (requests s)) as [r0|]; [|done].
      injection Hr as <-. unfold tokens_ok. cbn in *. change (num_tokens (put_num_preemptions _ _)) with (num_tokens (req r0)) in *.
      split_and!; try done; try lia. unfold num_tokens, zlen. lia.
    + apply (iv_running _ Hs1 id r Hr).
  - split; try done.
    + change (od_keys (od_alter f id (requests s1)) = od_keys (requests s)). rewrite od_keys_alter, T2. apply od_keys_alter.
    + change (running s2) with (running s1). rewrite T3. by rewrite <-Hl.
    + intros j. change (requests s2) with (od_alter f id (requests s1)). rewrite od_get_alter, T2, od_get_alter.
      destruct (decide (id = j)) as [<-|Hne].
      * rewrite decide_True by (by left). by destruct (od_get id (requests s)).
      * by rewrite decide_False by (rewrite list_elem_of_singleton; congruence).
Qed.

Lemma taken_then s0 ids s1 id s2 : taken s0 ids s1 → taken s1 [id] s2 → id ∉ ids → taken s0 (id :: ids) s2.
Proof.
  intros [A1 A2 A3 A4 A5 A6 A7] [B1 B2 B3 B4 B5 B6 B7] Hid. split; try congruence.
  - by rewrite <-A4, <-B4, <-(assoc_L (++)).
  - by rewrite B5, A5.
  - intros j. rewrite B7, A7. repeat case_decide; set_solver.
Qed.

Lemma preempt_all_unfold fuel s id : last (running s) = Some id →
  preempt_all lt_id time_monotonic set_order (S fuel) s = (take_back id ;; preempt_all lt_id time_monotonic set_order fuel) s.
Proof.
  intros Hl. cbn [preempt_all]. rewrite get_bind, Hl. unfold take_back. rewrite !bind_unfold.
  destruct (modify _ s) as [[] s1|]; [|done]. cbn. rewrite !bind_unfold. destruct (preempt_request _ _ _ _ _ _) as [[] s2|]; [|done].
  by rewrite !bind_unfold.
Qed.

(** All of them are taken back, the running list being long enough a fuel. *)
Lemma wp_preempt_all fuel : ∀ s0 ids s, sched_inv s0 → sched_inv s → taken s0 ids s →
  wp (preempt_all lt_id time_monotonic set_order fuel)
    (λ _ s', sched_inv s' ∧ ∃ ids', taken s0 ids' s' ∧ running s' = []) E s.
Proof.
  induction fuel as [|fuel IH]; intros s0 ids s Hs0 Hs Ht; (destruct (last (running s)) as [id|] eqn:Hl;
    [|cbn [preempt_all]; apply wp_get; rewrite Hl; apply last_None in Hl; apply wp_ret; split; [done|by exists ids]]).
  { cbn [preempt_all]. apply wp_get. by rewrite Hl. }
  unfold wp. rewrite (preempt_all_unfold _ _ id) by done.
  change (wp (take_back id ;; preempt_all lt_id time_monotonic set_order fuel)
    (λ _ s', sched_inv s' ∧ ∃ ids', taken s0 ids' s' ∧ running s' = []) E s).
  eapply wp_step; [apply wp_take_back; [done|apply Ht|done]|]. intros [] s1 (Hs1 & Ht1 & _).
  apply (IH s0 (id :: ids)); [done|done|]. eapply taken_then; [done..|]. intros Hin.
  assert (NoDup (running s0)) as Hnd by (pose proof (iv_nodup _ Hs0) as Hnd; by apply NoDup_app in Hnd as [? _]).
  rewrite <-(tk_running _ _ _ Ht) in Hnd. apply NoDup_app in Hnd as (_ & Hd & _). apply (Hd id); [|done].
  apply last_removelast in Hl. rewrite Hl. apply elem_of_app. right. by left.
Qed.

(** The running list is long enough a fuel: with more the loop ends the same
    way. *)
Lemma preempt_all_fuel f1 : ∀ f2 s, sched_inv s → settings_ok s →
  (length (running s) ≤ f1)%nat → (length (running s) ≤ f2)%nat →
  preempt_all lt_id time_monotonic set_order f1 s = preempt_all lt_id time_monotonic set_order f2 s.
Proof.
  assert (∀ f s, last (running s) = None → preempt_all lt_id time_monotonic set_order f s = Ret tt s) as Hdone.
  { intros f s Hl. destruct f; cbn [preempt_all]; by rewrite get_bind, Hl. }
  induction f1 as [|f1 IH]; intros f2 s Hs Hset H1 H2; destruct (last (running s)) as [id|] eqn:Hl; try by rewrite !Hdone.
  - apply last_removelast in Hl. rewrite Hl, length_app in H1. cbn in H1. lia.
  - pose proof (last_removelast _ _ Hl) as Hr. assert (S (length (removelast (running s))) = length (running s)) as Hlen.
    { rewrite Hr at 2. rewrite length_app. cbn. lia. }
    destruct f2 as [|f2]; [lia|]. rewrite !(preempt_all_unfold _ _ id) by done. rewrite !bind_unfold.
    pose proof (wp_take_back id s Hs Hset Hl) as Hw. unfold wp in Hw. destruct (take_back id s) as [[] s1|]; [|done].
    destruct Hw as (Hs1 & Ht1 & R1). apply IH; [done|apply Ht1|rewrite R1; lia..].
Qed.

(** [reset_prefix_cache]: when the running requests are to be reset, all of them
    are taken back. *)
Lemma wp_reset_prefix_cache b c s : sched_inv s → settings_ok s →
  wp (reset_prefix_cache lt_id time_monotonic set_order b c)
    (λ _ s', sched_inv s' ∧ ∃ ids, taken s ids s' ∧ if b then running s' = [] else ids = []) E s.
Proof.
  intros Hs Hset. unfold reset_prefix_cache. apply wp_get.
  eapply (wp_step _ _ _ (λ _ s1, sched_inv s1 ∧ ∃ ids, taken s ids s1 ∧ if b then running s1 = [] else ids = [])).
  { destruct b; [|apply wp_ret; split; [done|]; exists []; by split; [apply taken_none|]].
    eapply wp_step; [by apply (wp_preempt_all _ s [] s), taken_none|]. intros [] s1 (Hs1 & ids & [T1 T2 T3 T4 T5 T6 T7] & Hr).
    apply wp_modify. split; [by apply (sched_inv_places s1)|]. by exists ids. }
  intros [] s1 (Hs1 & ids & Ht & Hr).
  assert (∀ s2, frame s1 s2 → settings_ok s2 → sched_inv s2 ∧ ∃ ids, taken s ids s2 ∧ if b then running s2 = [] else ids = []) as Hend.
  { intros s2 F2 S2. split; [by eapply sched_inv_frame|]. exists ids. injection F2 as E1 E2 E3 E4 E5 _ _ _ _ _.
    destruct Ht as [T1 T2 T3 T4 T5 T6 T7]. split; [split; rewrite ?E1, ?E2, ?E3, ?E4, ?E5; done|by rewrite E5]. }
  eapply wp_part; [apply any_kv, Ht|]. intros ok s2 F2 S2.
  eapply (wp_part _ _ s2); [apply wp_if; intros _; [by apply any_connector|by apply wp_ret]|]. intros [] s3 F3 S3.
  pose proof (frame_then _ _ _ F2 F3) as F23. apply wp_if; intros _; [done|]. apply wp_if; intros _; [|by apply wp_ret, Hend].
  unfold reset_connector_cache. eapply wp_part; [by apply any_connector|]. intros d s4 F4 S4. apply wp_ret, Hend; [|done].
  by eapply frame_then.
Qed.

(** No output is on its way to a running request: the engine has drained. *)
Definition drained s : Prop :=
  ∀ id r, id ∈ running s → od_get id (requests s) = Some r → num_output_placeholders r = 0.

Lemma taken_sane s ids s' : sane_state s → (ids ≠ [] → drained s) → taken s ids s' → sane_state s'.
Proof.
  intros Hsane Hd [T1 T2 T3 T4 T5 T6 T7] j r. rewrite T1, T7. case_decide as Hj; [|apply Hsane].
  destruct (od_get j (requests s)) as [r0|] eqn:Hr; [|done]. intros [= <-].
  assert (num_output_placeholders r0 = 0) as Hph.
  { eapply Hd; [by intros ->; apply elem_of_nil in Hj| |exact Hr]. rewrite <-T4. apply elem_of_app. by right. }
  destruct (Hsane j r0 Hr) as [S1 S2 S3 S4]. split; try done. by right.
Qed.
End calls.
