(* ===== verification/EngineProps.v ===== *)
(** * The engine and its requests

    Whatever the order of the engine's calls, the scheduler keeps its
    invariant, and the requests of every step on its way are where
    [update_from_output] looks for them.  The batch queue has at most two places: a
    request scheduled in the newest step runs, one of the step before runs or
    was preempted by the newest, and waits in the queue of the waiting ones.

    The theorems are on the scheduler's two halves together: the invariant of
    every state the engine reaches, the tokens a request gets, the outputs of a
    step, and the end of requests. *)
From S2P Require Import Prelude PyFloat Metrics Protocol Config BlockPool Request KVCache Scoring Scheduling.
From S2P Require Import ControllerSteady EncoderCache RequestQueue QueueLaws SchedUtils Hoare Pressure Scheduler.
From S2P Require Import SchedulerFacts SchedulerStep SchedulerEvents EngineCore SchedulerKeeps.
From S2P Require Import SchedulerAny SchedulerWaiting SchedulerAdmit SchedulerPhases SchedulerReport SchedulerProps.
From S2P Require Import SchedulerUpdate SchedulerResults SchedulerOutcome.
Import Sched Step Events Core.
Local Open Scope Z_scope.

Section flying.
Context {F : Type} `{FO : FloatOps F} `{FL : FloatLog1p F}.
Context {C : Type} `{KC : KVConnector F C}.
Notation State := (SchedulerState (F := F) (C := C)).
Notation E := (raises True).
Implicit Types (s : State) (r : SchedRequest F) (o : SchedulerOutput F) (q : list (SchedulerOutput F)).

(** ** The steps on their way *)
Definition scheduled_ids o : list string := od_keys (out_num_scheduled_tokens o).

Definition runs s o : Prop := ∀ id r, id ∈ scheduled_ids o → od_get id (requests s) = Some r → unfinished r → status (req r) = RUNNING.
Definition awaits s o : Prop := ∀ id r, id ∈ scheduled_ids o → od_get id (requests s) = Some r → unfinished r →
  status (req r) = RUNNING ∨ id ∈ waiting_items (waiting s).
Definition flying s q : Prop :=
  match q with
  | [] => True
  | [o] => runs s o
  | [o1; o2] => awaits s o1 ∧ runs s o2
  | _ => False
  end.

(** A step names a request once, with the tokens it has scheduled of it. *)
Definition well_formed o : Prop :=
  NoDup (scheduled_ids o) ∧ ∀ id n, od_get id (out_num_scheduled_tokens o) = Some n → 1 ≤ n.

(** The invariant of the engine. *)
Record sound s q : Prop := {
  sd_good : good s;
  sd_max : zlen (running s) ≤ max_num_running_reqs (config s);
  sd_each o : o ∈ q → well_formed o;
  sd_flying : flying s q
}.

Lemma runs_awaits s o : runs s o → awaits s o.
Proof. intros Hr id r Hid Hget Hu. left. by eapply Hr. Qed.

(** What a call leaves where it was. *)
Definition stays s s' (id : string) : Prop := ∀ r', od_get id (requests s') = Some r' → unfinished r' →
  (∃ r, od_get id (requests s) = Some r ∧ unfinished r ∧ status (req r') = status (req r))
  ∧ (id ∈ waiting_items (waiting s) → id ∈ waiting_items (waiting s')).

Lemma flying_stays s s' q : (∀ o id, o ∈ q → id ∈ scheduled_ids o → stays s s' id) → flying s q → flying s' q.
Proof.
  intros Hst. assert (∀ o, o ∈ q → runs s o → runs s' o) as Hruns.
  { intros o Ho Hr id r' Hid Hr' Hu'. destruct (Hst o id Ho Hid r' Hr' Hu') as [(r & Hg & Hu & ->) _]. by eapply Hr. }
  destruct q as [|o1 [|o2 [|]]]; cbn; [done|apply Hruns; by left| |done]. intros [H1 H2].
  split; [|apply Hruns; [right; by left|done]]. intros id r' Hid Hr' Hu'.
  destruct (Hst o1 id ltac:(by left) Hid r' Hr' Hu') as [(r & Hg & Hu & ->) Hw]. destruct (H1 id r Hid Hg Hu); [by left|right; by apply Hw].
Qed.

Lemma flying_later s s' q : later s s' → flying s q → flying s' q.
Proof. intros [_ L2 L3 _]. apply flying_stays. intros o id _ _ r' Hr' Hu'. split; [by apply L2|]. intros Hw. by eapply L3. Qed.

Lemma later_sound s s' q : later s s' → good s' → sound s q → sound s' q.
Proof.
  intros Hl Hg [_ Hmax Heach Hf]. split; [done| |done|by eapply flying_later]. rewrite (la_config _ _ Hl).
  pose proof (la_running _ _ Hl). unfold zlen in *. lia.
Qed.

(** The results of the oldest step can be handed over. *)
Lemma sound_results s o q out : sound s (o :: q) → (∀ id, id ∈ scheduled_ids o → drafts_fit o out id) → results_ok s o out.
Proof.
  intros [_ _ Heach Hf] Hfit. destruct (Heach o) as [Hnd Hpos]; [by left|]. split; [done| |done|].
  - intros id n Hn. specialize (Hpos id n Hn). lia.
  - intros id r Hid Hr Hu Hst. assert (awaits s o) as Ha.
    { destruct q as [|o2 [|]]; cbn in Hf; [by apply runs_awaits|apply Hf|done]. }
    by destruct (Ha id r Hid Hr Hu).
Qed.

Lemma sound_pop s o q : sound s (o :: q) → sound s q.
Proof.
  intros [Hg Hmax Heach Hf]. split; [done|done|intros o' Ho'; apply Heach; by right|].
  destruct q as [|o2 [|]]; [done|apply Hf|done].
Qed.

(** ** Tokens *)
(** An unfinished request has the tokens it had, and those the outputs bring it. *)
Definition carries s s' (outs : list EngineCoreOutput) (id : string) : Prop :=
  ∀ r', od_get id (requests s') = Some r' → unfinished r' →
    ∃ r, od_get id (requests s) = Some r ∧ unfinished r ∧ all_token_ids (req r') = all_token_ids (req r) ++ streamed id outs.

Lemma carries_same s s' id : requests s' = requests s → carries s s' [] id.
Proof. intros E1 r' Hr' Hu'. rewrite E1 in Hr'. exists r'. by rewrite app_nil_r. Qed.
Lemma carries_trans s1 s2 s3 outs more id : carries s1 s2 outs id → carries s2 s3 more id → carries s1 s3 (outs ++ more) id.
Proof.
  intros H1 H2 r3 Hr3 Hu3. destruct (H2 r3 Hr3 Hu3) as (r2 & Hr2 & Hu2 & E2). destruct (H1 r2 Hr2 Hu2) as (r1 & Hr1 & Hu1 & E1).
  exists r1. split; [done|]. split; [done|]. by rewrite E2, E1, streamed_app, (assoc_L (++)).
Qed.

Lemma finished_carries s ids s' id : finished_all s ids s' → carries s s' [] id.
Proof.
  intros Hf r' Hr' Hu'. destruct (decide (id ∈ ids)) as [Hid|Hid].
  - destruct (fa_gone _ _ _ Hf id Hid) as [_ Hfin]. specialize (Hfin r' Hr'). unfold unfinished in Hu'. congruence.
  - rewrite (fa_others _ _ _ Hf id Hid) in Hr'. exists r'. by rewrite app_nil_r.
Qed.
Lemma joined_carries s r s' id : joined s r s' → request_id (req r) ≠ id → carries s s' [] id.
Proof.
  intros Hj Hne r' Hr' Hu'. rewrite (jo_requests _ _ _ Hj), od_get_set, decide_False in Hr' by done.
  exists r'. by rewrite app_nil_r.
Qed.
Lemma taken_carries s ids s' id : sched_inv s → taken s ids s' → carries s s' [] id.
Proof.
  intros Hs Ht r' Hr' Hu'. rewrite (tk_get _ _ _ Ht) in Hr'. case_decide as Hid; [|exists r'; by rewrite app_nil_r].
  assert (id ∈ placed s) as (r & Hr & Hu)%(iv_placed _ Hs).
  { apply elem_of_app. left. rewrite <-(tk_running _ _ _ Ht). apply elem_of_app. by right. }
  rewrite Hr in Hr'. injection Hr' as <-. exists r. by rewrite app_nil_r.
Qed.
Lemma delivery_carries rejects out failed s o reports errors s' id : delivery rejects out failed s o reports s' → later s s' →
  (∀ j, streamed j errors = []) → carries s s' (reports ++ errors) id.
Proof.
  intros Hd Hl He r' Hr' Hu'. destruct (dl_tokens _ _ _ _ _ _ _ Hd id r' Hr' Hu') as (r & Hr & Ht).
  destruct (la_old _ _ Hl id r' Hr' Hu') as (r2 & Hr2 & Hu2 & _). assert (r2 = r) as -> by congruence.
  exists r. split; [done|]. split; [done|]. by rewrite streamed_app, He, app_nil_r.
Qed.

(** ** A step is scheduled *)
Context (lt_id : bool) (time_time time_monotonic : nat → F) (set_order : gset string → list string).

Lemma tokens_progressive cfg ts id : progressive cfg (λ r, request_id (req r) = id → all_token_ids (req r) = ts).
Proof. split; try done. intros spec r _. unfold placeholders_after. by destruct (is_prefill_chunk r). Qed.

Lemma wp_schedule_step s q : (length q < 2)%nat → sound s q →
  wp (schedule lt_id time_time time_monotonic set_order) (λ o s', sound s' (q ++ [o]) ∧ ∀ id, carries s s' [] id) E s.
Proof.
  intros Hq [[Hs Hsane Hset] Hmax Heach Hfl]. assert (ready s) as Hready by done.
  assert (drafts_held s) as Hdr.
  { unfold drafts_held. destruct (async_scheduling (config s)) eqn:Ha; [by left|right]. intros id r Hr.
    destruct (sn_drafts _ _ (Hsane id r Hr)) as [|[? _]]; [congruence|done]. }
  pose proof (leaves_schedule lt_id time_time time_monotonic set_order (config s) (sane (config s)) (sane_progressive _) s
    ltac:(split_and!; [done|exact Hsane|set_solver])) as Hkeep.
  pose proof (λ ts id, leaves_schedule lt_id time_time time_monotonic set_order (config s)
    (λ r, request_id (req r) = id → all_token_ids (req r) = ts) (tokens_progressive _ ts id) s) as Htok.
  pose proof (wp_schedule lt_id time_time time_monotonic set_order s Hready) as Hw. unfold wp in *.
  destruct (schedule _ _ _ _ s) as [o s'|]; [|done]. destruct Hw as (p & s1 & s2 & Hpl & Ho & R2 & H'). cbn [out_state] in Hkeep, Htok.
  destruct (stepped_ready _ _ _ _ _ _ Hpl Ho R2 H' Hdr) as [Hs' Hset' Hmax'].
  assert (∀ id, id ∈ scheduled_ids o → id ∈ running s') as Hrun.
  { intros id [n Hn]%od_get_is_Some. by destruct (stepped_request _ _ _ _ _ _ _ _ Hpl Ho R2 H' Hn) as (_ & ? & _). }
  pose proof R2 as [R2' _]. injection R2' as E1 E2 E3 E4 E5. pose proof (sp_same _ _ _ H') as Es. injection Es as G1 G2 G3 G4.
  assert (∀ id r', od_get id (requests s') = Some r' → unfinished r' → ∃ r, od_get id (requests s) = Some r ∧ unfinished r) as Hbefore.
  { intros id r' Hr' Hu'. apply (iv_placed _ Hs). rewrite <-(pd_placed _ _ _ Hpl).
    assert (placed s1 = placed s') as -> by (unfold placed; congruence). apply (iv_placed _ Hs'). by exists r'. }
  assert (∀ o0, runs s o0 → awaits s' o0) as Hold.
  { intros o0 H0 id r' Hid Hr' Hu'. destruct (Hbefore id r' Hr' Hu') as (r & Hr & Hu). pose proof (H0 id r Hid Hr Hu) as Hst. apply (iv_running _ Hs id r Hr) in Hst.
    destruct (pd_kept _ _ _ Hpl id Hst) as [Hk|Hk].
    - left. apply (iv_running _ Hs' id r' Hr'). congruence.
    - right. apply (pd_preempted _ _ _ Hpl) in Hk as (_ & _ & Hk & _). congruence. }
  split.
  2:{ intros id r' Hr' Hu'. destruct (Hbefore id r' Hr' Hu') as (r & Hr & Hu). exists r. split; [done|]. split; [done|].
      rewrite app_nil_r. destruct (Htok (all_token_ids (req r)) id) as (_ & Hk & _); [split_and!; [done| |set_solver]|].
      - intros j r0 Hr0 Hj. rewrite (iv_id _ Hs j r0 Hr0) in Hj. congruence.
      - apply (Hk id r' Hr'), (iv_id _ Hs' id r' Hr'). }
  split; [split; [done| |done]|done| |].
  - destruct Hkeep as (Ec & Hk & _). intros id r Hr. rewrite Ec. by eapply Hk.
  - intros o' [Hin| ->%list_elem_of_singleton]%elem_of_app; [by apply Heach|]. split.
    + unfold scheduled_ids. rewrite (re_scheduled _ _ Ho). destruct (pd_plan _ _ _ Hpl) as (tokens & _ & Hp). apply Hp.
    + intros id n Hn. by destruct (stepped_request _ _ _ _ _ _ _ _ Hpl Ho R2 H' Hn).
  - assert (runs s' o) as Hnew by (intros id r Hid Hr _; by apply (iv_running _ Hs' id r Hr), Hrun).
    destruct q as [|o1 [|]]; [done| |cbn in Hq; lia]. cbn in *. split; [by apply Hold|done].
Qed.

(** ** The other calls *)
Lemma joined_sound s r s' q : sound s q → newcomer (config s) r → (∀ o, o ∈ q → request_id (req r) ∉ scheduled_ids o) →
  joined s r s' → sound s' q.
Proof.
  intros [Hg Hmax Heach Hf] Hn Hid Hj.
  split; [by eapply joined_good|by rewrite (jo_running _ _ _ Hj), (jo_config _ _ _ Hj)|done|].
  eapply flying_stays; [|exact Hf]. intros o id Ho Hin r'. rewrite (jo_requests _ _ _ Hj), od_get_set, decide_False by (intros <-; by destruct (Hid o Ho)).
  intros Hr' Hu'. split; [by exists r'|]. intros Hw. rewrite (jo_waiting _ _ _ Hj). destruct (is_blocked_waiting_status _); [done|by right].
Qed.

(** No running request is in a step on its way, or has an output on its way. *)
Definition idle s q : Prop := drained s ∧ ∀ id o, id ∈ running s → o ∈ q → id ∉ scheduled_ids o.

Lemma taken_sound s ids s' q : sound s q → sched_inv s' → (ids ≠ [] → idle s q) → taken s ids s' → sound s' q.
Proof.
  intros [Hg Hmax Heach Hf] Hs' Hidle Ht. pose proof (tk_running _ _ _ Ht) as Hperm.
  split; [split; [done| |apply Ht]| |done|].
  - eapply taken_sane; [apply Hg| |exact Ht]. intros Hne. by apply Hidle.
  - rewrite (tk_config _ _ _ Ht). apply Permutation_length in Hperm. rewrite length_app in Hperm. unfold zlen in *. lia.
  - eapply flying_stays; [|exact Hf]. intros o id Ho Hin r'. rewrite (tk_get _ _ _ Ht), decide_False.
    2:{ intros Hid. destruct (Hidle ltac:(by intros ->; apply elem_of_nil in Hid)) as [_ Hno]. destruct (Hno id o); [|done..].
        rewrite <-Hperm. apply elem_of_app. by right. }
    intros Hr' Hu'. split; [by exists r'|]. intros Hw. rewrite (tk_waiting _ _ _ Ht). apply elem_of_app. by right.
Qed.
End flying.

Section calls.
Context {F : Type} `{FO : FloatOps F} `{FL : FloatLog1p F}.
Context {C : Type} `{KC : KVConnector F C}.
Notation State := (SchedulerState (F := F) (C := C)).
Notation Engine := (Engine (F := F) (C := C)).
Notation E := (λ _ : Engine, True).
Implicit Types (s : State) (r : SchedRequest F) (o : SchedulerOutput F) (e : Engine) (c : Call (F := F) (C := C)).
Context (lt_id : bool) (time_time time_monotonic : nat → F) (set_order : gset string → list string).
Context (block_hasher : option (Request F → option (list (list Z)))).
Context (set_order_elements : ∀ X, set_order X ≡ₚ elements X).
(** No pipeline parallelism: the batch queue has at most two places. *)
Context (batch_queue_size : nat) (two_places : (batch_queue_size ≤ 2)%nat).

(** ** What the engine is given *)
(** The front end adds new requests, under new identifiers; the model returns at
    most a token more than the drafts it was given; every cache is reset when
    the engine has drained. *)
Definition allowed c e : Prop :=
  match c with
  | Add_request r _ _ => newcomer (config (scheduler e)) r ∧ ∀ o, o ∈ batch_queue e → request_id (req r) ∉ scheduled_ids o
  | Finish_batch _ out => ∀ o q, batch_queue e = o :: q → ∀ id, id ∈ scheduled_ids o → drafts_fit o out id
  | Pause_scheduler Keep true | Reset_prefix_cache true _ => idle (scheduler e) (batch_queue e)
  | _ => True
  end.
Definition adds c : option string :=
  match c with Add_request r _ _ => Some (request_id (req r)) | _ => None end.

Definition engine_ok e : Prop := sound (scheduler e) (batch_queue e).
(** What a call leaves of the engine, [outs] being its outputs. *)
Definition after (new : option string) e (outs : list EngineCoreOutput) e' : Prop :=
  engine_ok e' ∧ ∀ id, new ≠ Some id → carries (scheduler e) (scheduler e') outs id.

Lemma after_trans new e1 outs e2 more e3 : after new e1 outs e2 → after None e2 more e3 → after new e1 (outs ++ more) e3.
Proof. intros [_ H1] [H2 H3]. split; [done|]. intros id Hid. eapply carries_trans; [by apply H1|by apply H3]. Qed.
Lemma after_silent new e1 e2 outs e3 : after None e1 [] e2 → after new e2 outs e3 → after new e1 outs e3.
Proof. intros [_ H1] [H2 H3]. split; [done|]. intros id Hid. apply (carries_trans _ (scheduler e2) _ []); [by apply H1|by apply H3]. Qed.

(** A call of the scheduler *)
Lemma wp_on_scheduler {A} (k : M State A) e (Q : A → Engine → Prop) :
  wp k (λ a s, Q a (put_scheduler s e)) (raises True) (scheduler e) → wp (on_scheduler k) Q E e.
Proof. intros Hk. unfold on_scheduler. by apply wp_zoom. Qed.

Lemma wp_engine_step {A B} (k : M Engine A) (f : A → M Engine B) e (Q1 : A → Engine → Prop) (Q : B → Engine → Prop) :
  wp k Q1 E e → (∀ a e', Q1 a e' → wp (f a) Q E e') → wp (k ≫= f) Q E e.
Proof. intros Hk Hf. apply wp_bind. eapply wp_mono; [exact Hk|exact Hf|done]. Qed.

Lemma wp_abort who e : engine_ok e →
  wp (on_scheduler (finish_requests lt_id time_monotonic set_order who FINISHED_ABORTED))
    (λ ids e', (after None e [] e' ∧ batch_queue e' = batch_queue e) ∧ finished_all (scheduler e) ids (scheduler e')
       ∧ ids = valid_requests (match who with One_id id => [id] | Some_ids X => set_order X | All_ids => od_keys (requests (scheduler e)) end) (scheduler e)) E e.
Proof.
  intros He. pose proof (sd_good _ _ He) as Hg. apply wp_on_scheduler.
  eapply wp_mono; [apply wp_finish_requests; [done|apply Hg..]| |done]. intros ids s' [Hf Hids]. split; [|done]. split; [split|done].
  - apply (later_sound (scheduler e)); [by eapply left_later, Hf|eapply left_good; [done|apply Hf..]|done].
  - intros id _. by eapply finished_carries.
Qed.

Lemma wp_abort_requests X e : engine_ok e →
  wp (abort_requests lt_id time_monotonic set_order X) (λ _ e', after None e [] e') E e.
Proof.
  intros He. unfold abort_requests. eapply wp_engine_step; [by apply wp_abort|]. intros ids e' [[H1 _] _]. by apply wp_ret.
Qed.

Lemma wp_add r md abort e : engine_ok e → allowed (Add_request r md abort) e →
  wp (add_request lt_id time_monotonic set_order r md abort) (λ _ e', after (Some (request_id (req r))) e [] e') E e.
Proof.
  intros He [Hn Hid]. unfold add_request.
  eapply (wp_engine_step _ _ _ (λ _ e', after (Some (request_id (req r))) e [] e')).
  - apply wp_on_scheduler. eapply wp_mono; [apply wp_add_request, (sd_good _ _ He)| |done]. intros [] s' Hj. split.
    + by eapply joined_sound.
    + intros id Hne. eapply joined_carries; [done|]. congruence.
  - intros [] e1 H1. apply wp_if; intros _; [|by apply wp_ret]. eapply wp_mono; [apply wp_abort_requests, H1| |done].
    intros [] e2 H2. by apply (after_trans _ _ [] _ []  _ H1).
Qed.

Lemma wp_schedule_batch e : engine_ok e →
  wp (schedule_batch lt_id time_time time_monotonic set_order batch_queue_size) (λ _ e', after None e [] e') E e.
Proof.
  intros He. unfold schedule_batch. apply wp_get. apply wp_bind, wp_assert; [intros Hq%Nat.ltb_lt|done].
  apply wp_bind, wp_on_scheduler. eapply wp_mono; [apply (wp_schedule_step _ _ _ _ _ (batch_queue e)); [lia|done]| |done]. intros o s' [H1 H2]. apply wp_modify.
  split; [done|]. intros id _. apply H2.
Qed.

Lemma wp_finish_batch rejects out e : engine_ok e → allowed (Finish_batch rejects out) e →
  wp (finish_batch lt_id time_monotonic set_order block_hasher rejects out) (λ outs e', after None e outs e') E e.
Proof.
  intros He Hfit. unfold finish_batch. apply wp_get. destruct (batch_queue e) as [|o q] eqn:Hq; [done|].
  unfold engine_ok in He. rewrite Hq in He. apply wp_bind, wp_modify, wp_on_scheduler.
  eapply wp_mono; [apply wp_update_from_output; [done|apply He|]| |done].
  { eapply sound_results; [exact He|]. by apply (Hfit o q). }
  intros outs s' (G & L & failed & reports & errors & -> & Hd & Hs & _). split.
  - apply (later_sound (scheduler e)); [done|done|]. by eapply sound_pop.
  - intros id _. by eapply delivery_carries.
Qed.

(** The drafts of an output do not matter to the invariant. *)
Lemma sound_last s q o o' : out_num_scheduled_tokens o' = out_num_scheduled_tokens o → sound s (q ++ [o]) → sound s (q ++ [o']).
Proof.
  intros Eo [Hg Hmax Heach Hf]. split; [done|done| |].
  - intros x [Hx| ->%list_elem_of_singleton]%elem_of_app; [apply Heach, elem_of_app; by left|].
    unfold well_formed, scheduled_ids. rewrite Eo. apply (Heach o), elem_of_app. right. by left.
  - destruct q as [|o1 [|o2 [|]]]; cbn in *; unfold runs, awaits, scheduled_ids in *; try done; by rewrite Eo.
Qed.

Lemma wp_deferred_drafts validate d e : engine_ok e → wp (deferred_drafts validate d) (λ _ e', after None e [] e') E e.
Proof.
  intros He. unfold deferred_drafts. apply wp_get. destruct (last (batch_queue e)) as [o|] eqn:Hl; [|done].
  apply last_removelast in Hl. apply wp_modify. split; [|intros id _; by apply carries_same].
  apply (sound_last _ (removelast (batch_queue e)) o); [done|]. rewrite <-Hl. exact He.
Qed.

Lemma wp_reset b (conn : bool) e : engine_ok e → (b = true → idle (scheduler e) (batch_queue e) ∨ running (scheduler e) = []) →
  wp (on_scheduler (reset_prefix_cache lt_id time_monotonic set_order b conn)) (λ _ e', after None e [] e') E e.
Proof.
  intros He Hidle. pose proof (sd_good _ _ He) as Hg. apply wp_on_scheduler.
  eapply wp_mono; [apply wp_reset_prefix_cache; apply Hg| |done]. intros _ s' (Hs' & ids & Ht & Hb). split.
  - eapply taken_sound; [done|done| |exact Ht]. intros Hids. destruct b; [|done]. destruct (Hidle eq_refl) as [|Hr]; [done|].
    pose proof (tk_running _ _ _ Ht) as Hp. rewrite Hr in Hp. apply symmetry, Permutation_nil in Hp. by apply app_eq_nil in Hp as [_ ?].
  - intros id _. eapply taken_carries; [apply Hg|done].
Qed.

Lemma wp_reset_encoder e : engine_ok e → wp (on_scheduler reset_encoder_cache) (λ _ e', after None e [] e') E e.
Proof.
  intros He. pose proof (sd_good _ _ He) as Hg. apply wp_on_scheduler.
  eapply wp_mono; [apply any_encoder, Hg| |done]. intros [] s' [F1 S1]. split.
  - apply (later_sound (scheduler e)); [by apply frame_later|by eapply frame_good|done].
  - intros id _. apply carries_same. by injection F1.
Qed.

Lemma wp_set_pause v e : engine_ok e →
  wp (on_scheduler (set_pause_state v)) (λ _ e', after None e [] e' ∧ running (scheduler e') = running (scheduler e)
    ∧ batch_queue e' = batch_queue e ∧ ∀ q, idle (scheduler e) q → idle (scheduler e') q) E e.
Proof.
  intros He. pose proof (sd_good _ _ He) as [G1 G2 G3]. apply wp_on_scheduler, wp_modify. split; [|done]. split; [|intros id _; by apply carries_same].
  apply (later_sound (scheduler e)); [|split; [by apply (sched_inv_places (scheduler e))|done..]|done].
  split; try done. intros j r Hr Hu. by exists r.
Qed.

(** Without a running request there is nothing to drain. *)
Lemma all_aborted s ids s' : sched_inv s → finished_all s ids s' → ids = valid_requests (od_keys (requests s)) s → running s' = [].
Proof.
  intros Hs Hf ->. pose proof (le_running _ _ _ (fa_left _ _ _ Hf)) as Hr. destruct (running s') as [|j l]; [done|].
  assert (j ∈ j :: l) as Hj by (by left). rewrite Hr in Hj. apply list_elem_of_filter in Hj as [Hout Hj]. destruct Hout.
  assert (j ∈ placed s) as Hp by (apply elem_of_app; by left).
  apply elem_of_list_to_set, (placed_valid _ _ _ Hs Hp). apply (iv_placed _ Hs) in Hp as (r & Hget & _). apply od_get_is_Some. by exists r.
Qed.

Lemma wp_pause mode clear e : engine_ok e → allowed (Pause_scheduler mode clear) e →
  wp (pause_scheduler lt_id time_monotonic set_order mode clear) (λ _ e', after None e [] e') E e.
Proof.
  intros He Hal. unfold pause_scheduler. set (v := match mode with Keep => PAUSED_ALL | _ => PAUSED_NEW end).
  assert (∀ e1, after None e [] e1 → (clear = true → idle (scheduler e1) (batch_queue e1) ∨ running (scheduler e1) = []) →
    wp (on_scheduler (set_pause_state v) ;; if clear then reset_caches lt_id time_monotonic set_order else mret tt)
      (λ _ e', after None e [] e') E e1) as Hrest.
  { intros e1 H1 Hidle. eapply wp_engine_step; [by apply wp_set_pause, H1|]. intros [] e2 (H2 & R2 & Q2 & I2).
    pose proof (after_trans _ _ [] _ [] _ H1 H2) as H12. apply wp_if; intros Hc; [|by apply wp_ret].
    unfold reset_caches. eapply wp_engine_step; [apply wp_reset; [apply H2|]|].
    { intros _. destruct (Hidle Hc) as [Hi|Hr]; [left; rewrite Q2; by apply I2|right; congruence]. }
    intros ok e3 H3. eapply wp_mono; [apply wp_reset_encoder, H3| |done]. intros [] e4 H4.
    apply (after_trans _ _ [] e2 [] _ H12). by apply (after_trans _ _ [] e3 [] _ H3). }
  assert (after None e [] e) as H0 by (split; [done|intros id _; by apply carries_same]).
  destruct mode; [| |done].
  - eapply (wp_engine_step _ _ _ (λ _ e1, after None e [] e1 ∧ running (scheduler e1) = [])).
    { eapply wp_engine_step; [by apply wp_abort|]. intros ids e1 [[H1 _] [Hf Hids]]. apply wp_ret. split; [done|].
      eapply all_aborted; [apply (sd_good _ _ He)|done|done]. }
    intros [] e1 [H1 Hr]. apply Hrest; [done|]. by right.
  - apply wp_bind, wp_ret, Hrest; [done|]. intros ->. by left.
Qed.

(** ** The batch queue *)
(** The queue never holds more than it has places for. *)
Definition roomy e : Prop := (length (batch_queue e) ≤ batch_queue_size)%nat.

Lemma roomy_on_scheduler {A} (k : M State A) e : roomy e → wp (on_scheduler k) (λ _, roomy) E e.
Proof. intros He. unfold on_scheduler, zoom, wp. by destruct (k (scheduler e)). Qed.

Lemma roomy_bind {A B} (k : M Engine A) (f : A → M Engine B) e :
  wp k (λ _, roomy) E e → (∀ a e', roomy e' → wp (f a) (λ _, roomy) E e') → wp (k ≫= f) (λ _, roomy) E e.
Proof. apply wp_engine_step. Qed.

Lemma roomy_run c e : roomy e →
  wp (run lt_id time_time time_monotonic set_order block_hasher batch_queue_size c) (λ _, roomy) E e.
Proof.
  assert (∀ {A} (k : M State A) (outs : list EngineCoreOutput) e, roomy e → wp (on_scheduler k ;; mret outs) (λ _, roomy) E e) as Hsch.
  { intros A k outs e1 H1. apply roomy_bind; [by apply roomy_on_scheduler|]. intros _ e2 H2. by apply wp_ret. }
  assert (∀ {A} (k : M State A) e, roomy e → wp (on_scheduler k ;; mret tt) (λ _, roomy) E e) as Htt.
  { intros A k e1 H1. apply roomy_bind; [by apply roomy_on_scheduler|]. intros _ e2 H2. by apply wp_ret. }
  intros He. destruct c as [r md ab|ids| |rejects out|validate d|mode clear| |b b'|]; cbn [run]; try by apply Hsch.
  - apply roomy_bind; [|intros _ e1 H1; by apply wp_ret]. unfold add_request.
    apply roomy_bind; [by apply roomy_on_scheduler|]. intros _ e1 H1. apply wp_if; intros _; [by apply Htt|by apply wp_ret].
  - apply roomy_bind; [by apply Htt|]. intros _ e1 H1. by apply wp_ret.
  - apply roomy_bind; [|intros _ e1 H1; by apply wp_ret]. unfold schedule_batch. apply wp_get.
    apply wp_bind, wp_assert; [intros Hq%Nat.ltb_lt|done]. unfold on_scheduler, zoom, modify, wp.
    rewrite bind_unfold. destruct (schedule _ _ _ _ _) as [o s'|]; [|done]. unfold roomy. cbn. rewrite length_app. cbn. lia.
  - unfold finish_batch. apply wp_get. destruct (batch_queue e) as [|o q] eqn:Hq; [done|]. apply wp_bind, wp_modify.
    apply roomy_on_scheduler. unfold roomy in *. rewrite Hq in He. cbn in *. lia.
  - apply roomy_bind; [|intros _ e1 H1; by apply wp_ret]. unfold deferred_drafts. apply wp_get.
    destruct (last (batch_queue e)) as [o|] eqn:Hl; [|done]. apply wp_modify. unfold roomy in *.
    apply last_removelast in Hl. rewrite Hl, length_app in He. cbn in *. rewrite length_app. cbn. lia.
  - apply roomy_bind; [|intros _ e1 H1; by apply wp_ret]. unfold pause_scheduler.
    assert (∀ e1, roomy e1 → wp (reset_caches lt_id time_monotonic set_order) (λ _, roomy) E e1) as Hreset.
    { intros e1 H1. unfold reset_caches. apply roomy_bind; [by apply roomy_on_scheduler|]. intros _ e2 H2. by apply roomy_on_scheduler. }
    destruct mode; [| |done]; (apply roomy_bind; [first [by apply Htt | by apply wp_ret]|]).
    all: intros _ e1 H1; apply roomy_bind; [by apply roomy_on_scheduler|]; intros _ e2 H2;
      apply wp_if; intros _; [by apply Hreset|by apply wp_ret].
Qed.

(** ** A call, and any number of them *)
Lemma wp_silent (k : M Engine unit) new e : wp k (λ _ e', after new e [] e') E e →
  wp (k ;; mret []) (λ outs e', after new e outs e') E e.
Proof. intros Hk. eapply wp_engine_step; [exact Hk|]. intros [] e' H1. by apply wp_ret. Qed.

Lemma wp_run c e : engine_ok e → allowed c e →
  wp (run lt_id time_time time_monotonic set_order block_hasher batch_queue_size c) (λ outs e', after (adds c) e outs e') E e.
Proof.
  intros He Ha. destruct c; cbn [run adds].
  - by apply wp_silent, (wp_add _ _ _ _ He).
  - by apply wp_silent, wp_abort_requests.
  - by apply wp_silent, wp_schedule_batch.
  - by apply wp_finish_batch.
  - by apply wp_silent, wp_deferred_drafts.
  - by apply wp_silent, wp_pause.
  - apply wp_silent. eapply wp_mono; [by apply wp_set_pause| |done]. by intros [] e' [? _].
  - eapply wp_engine_step; [apply wp_reset; [done|]|].
    { intros ->. by left. }
    intros ok e' H1. by apply wp_ret.
  - by apply wp_silent, wp_reset_encoder.
Qed.
End calls.

(** ** The theorems *)
Section props.
Context {F : Type} `{FO : FloatOps F} `{FL : FloatLog1p F}.
Context {C : Type} `{KC : KVConnector F C}.
Notation State := (SchedulerState (F := F) (C := C)).
Notation Engine := (Engine (F := F) (C := C)).
Implicit Types (s : State) (r : SchedRequest F) (o : SchedulerOutput F) (e : Engine) (c : Call (F := F) (C := C)).
Context (lt_id : bool) (time_time time_monotonic : nat → F) (set_order : gset string → list string).
Context (block_hasher : option (Request F → option (list (list Z)))).
Context (set_order_elements : ∀ X, set_order X ≡ₚ elements X).
(** No pipeline parallelism: the batch queue has at most two places. *)
Context (batch_queue_size : nat) (two_places : (batch_queue_size ≤ 2)%nat).
Notation run := (run lt_id time_time time_monotonic set_order block_hasher batch_queue_size).
Notation run_all := (run_all lt_id time_time time_monotonic set_order block_hasher batch_queue_size).

(** An engine that has just been built *)
Record engine_start e : Prop := {
  es_config : config_ok (config (scheduler e));
  es_settings : settings_ok (scheduler e);
  es_empty : requests (scheduler e) = [] ∧ placed (scheduler e) = [];
  es_queue : batch_queue e = []
}.

Lemma start_ok e : engine_start e → engine_ok e.
Proof.
  intros [Hc Hs [Hr Hp] Hq]. unfold engine_ok. rewrite Hq.
  assert (running (scheduler e) = []) as Hrun by (unfold placed in Hp; by apply app_eq_nil in Hp as [? _]).
  split; [split; [|by intros id r; rewrite Hr|done]|rewrite Hrun; apply Hc|by intros ? ?%elem_of_nil|done].
  split; rewrite ?Hp, ?Hr, ?Hrun; try done; try constructor.
  - by intros ?%elem_of_nil.
  - by intros (? & ? & _).
Qed.

(** A sequence of calls the engine may be given *)
Fixpoint allowed_all (cs : list (Call (F := F) (C := C))) e : Prop :=
  match cs with
  | [] => True
  | c :: cs => allowed c e ∧ match run c e with Ret _ e' => allowed_all cs e' | Exc _ _ => True end
  end.

Lemma wp_run_all cs : ∀ e, engine_ok e → allowed_all cs e →
  wp (run_all cs) (λ outs e', engine_ok e'
    ∧ ∀ id, (∀ c, c ∈ cs → adds c ≠ Some id) → carries (scheduler e) (scheduler e') outs id) (λ _, True) e.
Proof.
  induction cs as [|c cs IH]; intros e He; cbn [run_all allowed_all].
  { intros _. apply wp_ret. split; [done|]. intros id _. by apply carries_same. }
  intros [Hc Hcs]. apply wp_bind. pose proof (wp_run lt_id time_time time_monotonic set_order block_hasher set_order_elements batch_queue_size two_places c e He Hc) as Hw.
  unfold wp in Hw |- * at 1. destruct (run c e) as [outs e1|]; [|done]. destruct Hw as [H1 C1].
  eapply wp_engine_step; [by apply IH|]. intros more e2 [H2 C2]. apply wp_ret. split; [done|]. intros id Hid.
  eapply carries_trans; [apply C1, Hid; by left|]. apply C2. intros c' Hc'. apply Hid. by right.
Qed.

Lemma roomy_run_all cs : ∀ e, roomy batch_queue_size e → wp (run_all cs) (λ _, roomy batch_queue_size) (λ _, True) e.
Proof.
  induction cs as [|c cs IH]; intros e He; cbn [run_all]; [by apply wp_ret|].
  eapply wp_engine_step; [by apply roomy_run|]. intros outs e1 H1. eapply wp_engine_step; [by apply IH|].
  intros more e2 H2. by apply wp_ret.
Qed.

(** C2. Without pipeline parallelism (a batch queue of one or two places) and
    synchronous speculative decoding ([post_step] is not among the calls), from
    its construction, through any calls in any order the engine may be given
    ([allowed_all]: new requests under new identifiers, at most a token more than
    the drafts from the model, and the running requests reset, by a reset or a
    keeping pause that clears the caches, only once the engine has drained),
    every unfinished request is in exactly one of the running list and the two
    queues, as its status says, no more requests run than may, no more steps are
    on their way than the queue has places, and their unfinished requests are
    running or among the waiting ones. *)
Theorem engine_keeps_requests cs e : engine_start e → allowed_all cs e →
  match run_all cs e with
  | Ret _ e' =>
      let s := scheduler e' in
      sched_inv s ∧ zlen (running s) ≤ max_num_running_reqs (config s) ∧ (length (batch_queue e') ≤ batch_queue_size)%nat
      ∧ ∀ o id n r, o ∈ batch_queue e' → od_get id (out_num_scheduled_tokens o) = Some n →
          od_get id (requests s) = Some r → unfinished r →
          1 ≤ n ∧ (id ∈ running s ∨ id ∈ waiting_items (waiting s))
  | Exc _ _ => True
  end.
Proof.
  intros Hstart Hal. pose proof (start_ok _ Hstart) as He. pose proof (wp_run_all cs e He Hal) as Hw.
  pose proof (roomy_run_all cs e ltac:(unfold roomy; rewrite (es_queue _ Hstart); cbn; lia)) as Hroom.
  unfold wp in Hw, Hroom. destruct (run_all cs e) as [outs e'|]; [|done].
  destruct Hw as [[[Hs _ _] Hmax Heach Hfl] _]. cbv zeta. split; [done|]. split; [done|]. split; [done|]. clear Hroom.
  destruct (batch_queue e') as [|o1 [|o2 [|]]]; cbn [flying] in *; try done.
  - by intros o id n r ?%elem_of_nil.
  - intros o id n r Ho Hn Hr Hu. destruct (Heach o Ho) as [_ Hpos]. apply list_elem_of_singleton in Ho as ->.
    split; [by eapply Hpos|]. left. apply (iv_running _ Hs id r Hr), (Hfl id r); [|done..]. apply od_get_is_Some. by exists n.
  - destruct Hfl as [H1 H2%runs_awaits]. intros o id n r Ho Hn Hr Hu. destruct (Heach o Ho) as [_ Hpos].
    split; [by eapply Hpos|]. assert (awaits (scheduler e') o) as Ha by (apply elem_of_cons in Ho as [->| ->%list_elem_of_singleton]; done).
    destruct (Ha id r) as [Hst|]; [apply od_get_is_Some; by exists n|done|done| |by right]. left. by apply (iv_running _ Hs id r Hr).
Qed.

(** C3. The tokens of a request are those reported for it: after any calls the
    engine may be given (as above: the running requests are reset only once the
    engine has drained, so no result on its way is to be discarded; what is lost
    when a reset finds steps on their way is not shown), none of
    which adds the request, an unfinished request has the tokens it had, followed
    by those of its outputs, in their order. *)
Theorem engine_streams_tokens cs e : engine_ok e → allowed_all cs e →
  match run_all cs e with
  | Ret outs e' =>
      ∀ id r', (∀ c, c ∈ cs → adds c ≠ Some id) → od_get id (requests (scheduler e')) = Some r' → unfinished r' →
        ∃ r, od_get id (requests (scheduler e)) = Some r ∧ unfinished r
          ∧ all_token_ids (req r') = all_token_ids (req r)
              ++ concat (output_new_token_ids <$> filter (λ x, output_request_id x = id) outs)
  | Exc _ _ => True
  end.
Proof.
  intros He Hal. pose proof (wp_run_all cs e He Hal) as Hw. unfold wp in Hw. destruct (run_all cs e) as [outs e'|]; [|done].
  intros id r' Hid. by apply (proj2 Hw id Hid).
Qed.

(** C4. The results of the oldest step, all blocks loaded: each of its requests
    has at most one output.  Its tokens are exactly those sampled for the request,
    up to and including the first at which the stop test holds, or all of them if
    it holds at none; it ends the request with the status of that test, of a
    pooling result or of a grammar that rejects the tokens, and otherwise not at
    all.  The request has these tokens now, after those it had; one that has
    ended is gone or finished, and reported as finished.  An unfinished request
    without an output had no token sampled for it and has the tokens it had. *)
Theorem finish_batch_delivers rejects out o q e : engine_ok e → allowed (Finish_batch rejects out) e → batch_queue e = o :: q →
  match kv_connector_output out with Some k => invalid_block_ids k = ∅ | None => True end →
  match run (Finish_batch rejects out) e with
  | Ret outs e' => batch_queue e' = q ∧ delivery rejects out ∅ (scheduler e) o outs (scheduler e')
  | Exc _ _ => True
  end.
Proof.
  intros He Hfit Hq Hload.
  assert (wp (run (Finish_batch rejects out)) (λ outs e', batch_queue e' = q ∧ delivery rejects out ∅ (scheduler e) o outs (scheduler e')) (λ _, True) e) as Hw;
    [|by unfold wp in Hw; destruct (run _ e)].
  cbn [EngineCore.Core.run]. unfold finish_batch. apply wp_get. rewrite Hq. unfold engine_ok in He. rewrite Hq in He.
  apply wp_bind, wp_modify, wp_on_scheduler. eapply wp_mono; [apply wp_update_from_output; [done|apply He|]| |done].
  { eapply sound_results; [exact He|]. by apply (Hfit o q). }
  intros outs s' (_ & _ & failed & reports & errors & -> & Hd & _ & Hnone). destruct (Hnone Hload) as [-> ->].
  rewrite app_nil_r. done.
Qed.

End props.

Section ended.
Context {F : Type} `{FO : FloatOps F} `{FL : FloatLog1p F}.
Context {C : Type} `{KC : KVConnector F C}.
Context (lt_id : bool) (time_monotonic : nat → F) (set_order : gset string → list string).
Context (set_order_elements : ∀ X, set_order X ≡ₚ elements X).

(** The requests a call to end them is about *)
Definition asked (who : RequestIds) (id : string) : Prop :=
  match who with One_id x => id = x | Some_ids X => id ∈ X | All_ids => True end.

(** C17. Requests ended from outside: exactly the unfinished ones among those asked
    for, whatever they are doing; they leave the running list and the queues, are
    reported as finished, and gone or finished; the others are where they were. *)
Theorem finish_requests_leave who st s : good s →
  match finish_requests lt_id time_monotonic set_order who st s with
  | Ret ids s' =>
      good s'
      ∧ (∀ id, id ∈ ids ↔ asked who id ∧ ∃ r, od_get id (requests s) = Some r ∧ unfinished r)
      ∧ (∀ id, id ∈ ids → id ∉ placed s' ∧ id ∈ finished_req_ids s'
           ∧ ∀ r', od_get id (requests s') = Some r' → is_finished (req r') = true)
      ∧ ∀ id, id ∉ ids → od_get id (requests s') = od_get id (requests s) ∧ (id ∈ placed s' ↔ id ∈ placed s)
  | Exc _ _ => True
  end.
Proof.
  intros Hg. pose proof (wp_finish_requests lt_id time_monotonic set_order set_order_elements who st s) as Hw. destruct Hg as [Hs Hsane Hset].
  specialize (Hw Hs Hsane Hset). unfold wp in Hw. destruct (finish_requests _ _ _ who st s) as [ids s'|]; [|done].
  destruct Hw as [Hf Hids]. pose proof (leave_placed _ _ _ (fa_left _ _ _ Hf)) as Hp.
  split; [by eapply left_good; [|apply Hf..]|]. split; [|split].
  - intros id. rewrite Hids, valid_requests_spec. unfold asked. destruct who as [x|X|].
    + by rewrite list_elem_of_singleton.
    + by rewrite set_order_elements, elem_of_elements.
    + split; [by intros [_ ?]|]. intros [_ (r & Hr & Hu)]. split; [apply od_get_is_Some; by exists r|by exists r].
  - intros id Hid. split; [|by apply (fa_gone _ _ _ Hf)]. rewrite Hp, list_elem_of_filter, elem_of_list_to_set. by intros [? _].
  - intros id Hid. split; [by apply (fa_others _ _ _ Hf)|]. rewrite Hp, list_elem_of_filter, elem_of_list_to_set. naive_solver.
Qed.
End ended.
