(* ===== verification/SchedulerDemo.v ===== *)
(** * A scheduler at work

    Two requests of twelve tokens in an engine of seven usable blocks of two
    tokens, three tokens of each in a step: both are admitted, both continue,
    and then the second is preempted for the first. *)
From Stdlib Require Import QArith.
From S2P Require Import Prelude Hoare PyFloat Metrics Protocol Config Request BlockPool KVCache KVCacheFacts KVCacheProps Scoring Scheduling.
From S2P Require Import EncoderCache RequestQueue QueueLaws Pressure ControllerDemo Scheduler SchedulerFacts.
From S2P Require Import SchedulerRunning SchedulerAny SchedulerPlain SchedulerStep SchedulerWaiting SchedulerAdmit SchedulerPhases SchedulerReport SchedulerProps.
Import Sched Step.
Local Open Scope string_scope.
Local Open Scope Z_scope.
#[local] Existing Instance demo_log1p.

(** An engine without a connector. *)
#[local] Instance demo_connector : KVConnector Q unit := {
  expire_lifecycles := mret tt;
  associate_lifecycle _ _ := mret tt;
  on_new_request _ := mret tt;
  evaluate_pending _ := mret tt;
  has_unpublished _ := false;
  recompute_cost := None;
  get_num_new_matched_tokens _ _ := mret (Some 0, false);
  update_state_after_alloc _ _ _ := mret tt;
  build_connector_meta _ := mret tt;
  request_finished_all_groups _ _ := mret false;
  worker_report := unit;
  update_connector_output _ := mret tt;
  take_connector_events := mret tt;
  invalidate_snapshots := mret tt;
  reset_cache := mret true;
  has_pending _ := false
}.

Definition demo_sched_config : SchedulerConfig :=
  {| Sched.policy := Controller.FCFS; Sched.max_num_running_reqs := 4; Sched.max_num_scheduled_tokens := 8;
     Sched.max_num_encoder_input_tokens := 16; Sched.long_prefill_token_threshold := 3;
     Sched.enable_chunked_prefill := true; sched_max_model_len := 32; Sched.num_lookahead_tokens := 0;
     num_spec_tokens := 0; use_eagle := false; Sched.need_mamba_block_aligned_split := false;
     cache_block_size := 2; Sched.scheduler_reserve_full_isl := false; Sched.max_loras := None;
     encoder_settings := EncoderFacts.demo_settings; use_pp := false; async_scheduling := false;
     use_v2_model_runner := false; needs_kv_cache_zeroing := false; recompute_kv_load_failures := false |}.

Definition demo_long (id : string) (t : Z) : SchedRequest Q :=
  mkSchedRequest (mkRequest id 0 0%Q WAITING 4 12 [] (replicate 12 t) [] 0 [] 0
    ((λ i, [t; Z.of_nat i]) <$> seq 0 6) false None None None None None None) 0 0 false false.

Definition demo_s0 : SchedulerState (F := Q) (C := unit) :=
  {| config := demo_sched_config; allocator := inl demo_k0; encoder_cache_manager := encoder_init 16; connector := None;
     requests := [("A", demo_long "A" 5); ("B", demo_long "B" 6)];
     waiting := inr (mkFCFS ["A"; "B"]); skipped_waiting := inr (mkFCFS []); running := [];
     finished_req_ids := ∅; prev_step_scheduled_req_ids := ∅; finished_recving_kv_req_ids := ∅;
     failed_recving_kv_req_ids := ∅; pause_state := UNPAUSED |}.

Notation demo_schedule := (schedule false demo_clock demo_clock elements).
Definition demo_s1 := out_state (demo_schedule demo_s0).
Definition demo_s2 := out_state (demo_schedule demo_s1).
Definition demo_s3 := out_state (demo_schedule demo_s2).

(** Facts about the requests of a state, checked one by one. *)
Lemma demo_requests (P : string → SchedRequest Q → Prop) (d : odict string (SchedRequest Q)) :
  Forall (λ x, P x.1 x.2) d → ∀ id r, od_get id d = Some r → P id r.
Proof.
  intros Hd id r Hr. apply od_get_elem in Hr. rewrite list.Forall_forall in Hd. by apply (Hd (id, r)).
Qed.

Lemma demo_ready0 : ready demo_s0.
Proof.
  split; [|exact I|vm_compute; discriminate].
  assert (∀ id r, od_get id (requests demo_s0) = Some r → request_id (req r) = id ∧ status (req r) = WAITING
    ∧ tokens_ok demo_sched_config r) as Hr.
  { apply demo_requests. repeat constructor; vm_compute; try discriminate; done. }
  split.
  - split_and!; vm_compute; first [done|discriminate].
  - apply (bool_decide_unpack _). by vm_compute.
  - intros id r Hid. by apply Hr.
  - apply (bool_decide_unpack _). by vm_compute.
  - intros id. change (placed demo_s0) with ["A"; "B"]. rewrite !elem_of_cons, elem_of_nil. split.
    + intros [->|[->|[]]]; eexists; (split; [reflexivity|reflexivity]).
    + intros (r & Hid & _). apply od_get_elem in Hid. change (requests demo_s0) with [("A", demo_long "A" 5); ("B", demo_long "B" 6)] in Hid.
      rewrite !elem_of_cons, elem_of_nil in Hid. destruct Hid as [[= -> _]|[[= -> _]|[]]]; auto.
  - intros id r Hid. change (running demo_s0) with (@nil string). rewrite elem_of_nil.
    destruct (Hr id r Hid) as (_ & -> & _). done.
  - intros id r Hid _. destruct (Hr id r Hid) as (_ & _ & Ht). exact Ht.
Qed.

Lemma demo_held (s : SchedulerState (F := Q) (C := unit)) : config s = demo_sched_config →
  forallb (λ x, bool_decide (spec_token_ids (req x.2) = [])) (requests s) = true → drafts_held s.
Proof.
  intros _ Hs. right. apply demo_requests. apply list.Forall_forall. intros x Hx. rewrite forallb_forall in Hs.
  eapply (bool_decide_unpack _). apply Is_true_true, Hs. by apply list_elem_of_In.
Qed.

(** A step of a ready scheduler that returns. *)
Definition returns {S A} (o : outcome S A) : bool := match o with Ret _ _ => true | Exc _ _ => false end.

Lemma demo_step (s : SchedulerState (F := Q) (C := unit)) : ready s → drafts_held s → returns (demo_schedule s) = true → ready (out_state (demo_schedule s)).
Proof.
  intros Hs Hd Hok. pose proof (wp_schedule false demo_clock demo_clock elements s Hs) as Hw. unfold wp in Hw.
  destruct (demo_schedule s) as [o s'|]; [|done]. destruct Hw as (p & s1 & s2 & H1 & H2 & H3 & H4). by eapply stepped_ready.
Qed.

Lemma demo_ready2 : ready demo_s2.
Proof.
  apply demo_step; [apply demo_step; [apply demo_ready0|by apply demo_held|by vm_compute]| |by vm_compute].
  apply demo_held; by vm_compute.
Qed.

(** The beginning of the step from it. *)
Definition demo_p0 : Step :=
  {| scheduled_new := []; scheduled_resumed := []; scheduled_running_reqs := []; preempted_reqs := [];
     req_to_new_blocks := []; num_scheduled_tokens := []; token_budget := 8; scheduled_encoder_inputs := [];
     Sched.encoder_compute_budget := 16; scheduled_spec_decode_tokens := []; prefill_budget := 8;
     scheduled_prefill_tokens := []; req_index := 0; tokencake := false |}.

Lemma demo_fresh : fresh (config demo_s2) demo_p0.
Proof. assert (config demo_s2 = demo_sched_config) as -> by (by vm_compute). split; try done; cbn; lia. Qed.

(** ** The theorems at these states *)
Lemma schedule_keeps_requests_witness : returns (demo_schedule demo_s2) = true ∧ ready demo_s3.
Proof.
  split; [by vm_compute|].
  pose proof (schedule_keeps_requests false demo_clock demo_clock elements demo_s2 demo_ready2
    (demo_held demo_s2 ltac:(by vm_compute) ltac:(by vm_compute))) as H.
  assert (returns (demo_schedule demo_s2) = true) as Hok by (by vm_compute). unfold demo_s3.
  destruct (demo_schedule demo_s2) as [o s'|]; [|discriminate]. exact (proj1 H).
Defined.

(** A alone is scheduled. *)
Lemma schedule_output_sound_witness :
  ∃ o s', demo_schedule demo_s2 = Ret o s' ∧ od_keys (out_num_scheduled_tokens o) = ["A"]
    ∧ total_num_scheduled_tokens o ≤ 8.
Proof.
  pose proof (schedule_output_sound false demo_clock demo_clock elements demo_s2 demo_ready2) as H.
  assert (match demo_schedule demo_s2 with Ret o _ => od_keys (out_num_scheduled_tokens o) | Exc _ _ => [] end = ["A"]) as Hk
    by (by vm_compute).
  assert (max_num_scheduled_tokens (config demo_s2) = 8) as Hm by (by vm_compute).
  generalize dependent demo_s2. intros s H Hk Hm. rewrite Hm in H.
  destruct (demo_schedule s) as [o s'|]; [|discriminate]. exists o, s'. split; [reflexivity|]. split; [exact Hk|].
  apply H.
Defined.

(** B is preempted. *)
Lemma schedule_constraints_hold_witness :
  ∃ p s', schedule_requests false demo_clock demo_clock elements demo_s2 = Ret p s' ∧ preempted_reqs p = ["B"]
    ∧ check_constraints p s' = Ret tt s' ∧ "B" ∈ waiting_items (waiting s').
Proof.
  pose proof (schedule_constraints_hold false demo_clock demo_clock elements demo_s2 demo_ready2) as H.
  assert (match schedule_requests false demo_clock demo_clock elements demo_s2 with
          | Ret p _ => preempted_reqs p | Exc _ _ => [] end = ["B"]) as Hk by (by vm_compute).
  generalize dependent demo_s2. intros s H Hk.
  destruct (schedule_requests false demo_clock demo_clock elements s) as [p s'|]; [|discriminate].
  exists p, s'. split; [reflexivity|]. split; [exact Hk|]. destruct H as (Hc & _ & Hp & _). split; [exact Hc|].
  apply (Hp "B"). rewrite Hk. by left.
Defined.


Lemma running_phase_accounts_witness :
  ∃ p' s', running_phase false demo_clock elements 2 demo_p0 demo_s2 = Ret p' s' ∧ preempted_reqs p' = ["B"]
    ∧ accounts demo_s2 demo_p0 p' s'.
Proof.
  pose proof (running_phase_accounts false demo_clock elements demo_s2 demo_p0 demo_ready2 demo_fresh) as H.
  assert (length (running demo_s2) = 2%nat) as Hl by (by vm_compute).
  assert (match running_phase false demo_clock elements 2 demo_p0 demo_s2 with
          | Ret p _ => preempted_reqs p | Exc _ _ => [] end = ["B"]) as Hk by (by vm_compute).
  generalize dependent demo_s2. intros s H Hl Hk. rewrite Hl in H.
  destruct (running_phase false demo_clock elements 2 demo_p0 s) as [p' s'|]; [|discriminate].
  exists p', s'. by split_and!.
Defined.

(** ** A plain engine

    A runs, its first five tokens computed and two more to compute. *)
Definition demo_running : SchedRequest Q :=
  mkSchedRequest (mkRequest "A" 0 0%Q RUNNING 4 5 [5; 5] (replicate 7 5) [] 5 [] 0 [[11]; [12]; [13]]
    false None None None None None None) 0 0 false false.

Definition demo_plain : SchedulerState (F := Q) (C := unit) :=
  {| config := demo_sched_config; allocator := inl demo_k2; encoder_cache_manager := encoder_init 16; connector := None;
     requests := [("A", demo_running)]; waiting := inr (mkFCFS []); skipped_waiting := inr (mkFCFS []); running := ["A"];
     finished_req_ids := ∅; prev_step_scheduled_req_ids := ∅; finished_recving_kv_req_ids := ∅;
     failed_recving_kv_req_ids := ∅; pause_state := UNPAUSED |}.

Lemma demo_plain_inv : sched_inv demo_plain.
Proof.
  assert (∀ id r, od_get id (requests demo_plain) = Some r → id = "A" ∧ r = demo_running) as Hr.
  { apply demo_requests. by repeat constructor. }
  split.
  - split_and!; vm_compute; first [done|discriminate].
  - apply (bool_decide_unpack _). by vm_compute.
  - intros id r Hid. by destruct (Hr id r Hid) as [-> ->].
  - apply (bool_decide_unpack _). by vm_compute.
  - intros id. change (placed demo_plain) with ["A"]. rewrite list_elem_of_singleton. split.
    + intros ->. by exists demo_running.
    + intros (r & Hid & _). by apply Hr in Hid as [-> _].
  - intros id r Hid. destruct (Hr id r Hid) as [-> ->]. change (running demo_plain) with ["A"].
    split; [done|intros _; by left].
  - intros id r Hid _. destruct (Hr id r Hid) as [-> ->]. split_and!; vm_compute; first [discriminate|by constructor].
Qed.

Lemma demo_plain_parts : plain_parts 2 2 100 ["A"] demo_plain.
Proof.
  destruct demo_k2_inv as (m & l & Hk & _). split; [lia|]. split; [vm_compute; discriminate|].
  exists demo_k2, m, l. split; [done|]. split; [done|]. pose proof (kv_single _ _ _ Hk) as Hm. vm_compute in Hm.
  injection Hm as <-. by split_and!; vm_compute.
Qed.

Lemma demo_plain_fits : all_fit (plain_fits 2 2) demo_plain.
Proof.
  intros id r. apply (demo_requests (λ _ r, plain_fits 2 2 r) [("A", demo_running)]). constructor; [|constructor].
  split; [by split; [vm_compute|]|]. split; [done|].
  split; [vm_compute; lia|]. eexists. split; [vm_compute; reflexivity|vm_compute; lia].
Qed.

Lemma running_phase_total_witness :
  ∃ p' s', running_phase false demo_clock elements 1 demo_p0 demo_plain = Ret p' s'
    ∧ num_scheduled_tokens p' = [("A", 2)] ∧ accounts demo_plain demo_p0 p' s'.
Proof.
  assert (fresh (config demo_plain) demo_p0) as Hf by (split; try done; cbn; lia).
  destruct (running_phase_total false demo_clock elements 2 2 100 demo_plain demo_p0 demo_plain_inv demo_plain_parts
    demo_plain_fits Hf) as (p' & s' & Hrun & Hacc & _).
  change (length (running demo_plain)) with 1%nat in Hrun. exists p', s'. split; [exact Hrun|]. split; [|exact Hacc].
  assert (match running_phase false demo_clock elements 1 demo_p0 demo_plain with
          | Ret p _ => num_scheduled_tokens p | Exc _ _ => [] end = [("A", 2)]) as Hk by (by vm_compute).
  clear Hacc. revert Hrun Hk. generalize demo_plain. intros s Hrun Hk. rewrite Hrun in Hk. exact Hk.
Defined.
