(* ===== verification/EngineDemo.v ===== *)
(** * An engine at work

    Two requests of three tokens in the engine of seven usable blocks: they are
    added and scheduled, the first token of B is its last, A goes on for two
    steps and is scheduled once more. *)
From Stdlib Require Import QArith.
From S2P Require Import Prelude Hoare PyFloat Metrics Protocol Config Request BlockPool KVCache KVCacheProps Scoring Scheduling.
From S2P Require Import EncoderCache RequestQueue QueueLaws SchedUtils Pressure ControllerDemo Scheduler SchedulerFacts SchedulerAny.
From S2P Require Import SchedulerStep SchedulerEvents EngineCore SchedulerKeeps SchedulerUpdate SchedulerResults SchedulerOutcome.
From S2P Require Import EngineProps EngineProps SchedulerDemo.
Import Sched Step Events Core.
Local Open Scope string_scope.
Local Open Scope Z_scope.
#[local] Existing Instance demo_log1p.
#[local] Existing Instance demo_connector.

(** ** What may be asked of the engine, decided *)
Notation demo_engine := (Engine (F := Q) (C := unit)).
Notation demo_call := (Call (F := Q) (C := unit)).
Implicit Types (e : demo_engine) (c : demo_call) (r : SchedRequest Q).

Definition newcomerb (cfg : SchedulerConfig) r : bool :=
  negb (is_finished (req r)) && negb (bool_decide (status (req r) = RUNNING))
  && (num_computed_tokens (req r) =? 0) && (0 <=? num_output_placeholders r)
  && (num_tokens (req r) <=? sched_max_model_len cfg - 1) && bool_decide (mm_features (req r) = [])
  && (num_tokens (req r) =? num_prompt_tokens (req r) + num_output_tokens (req r))
  && match sampling_params (req r) with Some sp => num_prompt_tokens (req r) + min_tokens sp <=? sched_max_model_len cfg | None => true end
  && (async_tokens_to_discard r =? 0) && bool_decide (spec_token_ids (req r) = []) && (num_output_placeholders r =? 0).

Lemma newcomerb_spec cfg r : newcomerb cfg r = true → newcomer cfg r.
Proof.
  unfold newcomerb. rewrite !andb_true_iff, !negb_true_iff, !Z.eqb_eq, !Z.leb_le, !bool_decide_eq_true, bool_decide_eq_false.
  intros ((((((((((H1 & H2) & H3) & H4) & H5) & H6) & H7) & H8) & H9) & H10) & H11).
  assert (0 ≤ num_tokens (req r)) by (unfold num_tokens, zlen; lia). split; try done.
  - unfold tokens_ok. rewrite H6. split_and!; [lia..|done].
  - split; try done; [|by right]. intros sp Hsp. rewrite Hsp in H8. by apply Z.leb_le.
Qed.

Definition allowedb c e : bool :=
  match c with
  | Add_request r _ _ => newcomerb (config (scheduler e)) r
      && forallb (λ o, negb (bool_decide (request_id (req r) ∈ scheduled_ids o))) (batch_queue e)
  | Finish_batch _ _ => forallb (λ o, bool_decide (out_scheduled_spec_decode_tokens o = [])) (batch_queue e)
  | Pause_scheduler Keep true | Reset_prefix_cache true _ => false
  | _ => true
  end.

Lemma allowedb_spec c e : allowedb c e = true → allowed c e.
Proof.
  destruct c as [r md ab| | |rejects out| |[] []| |[] b|]; cbn [allowedb allowed]; try done.
  - intros [Hn Hf]%andb_true_iff. split; [by apply newcomerb_spec|]. intros o Ho. rewrite forallb_forall in Hf.
    specialize (Hf o). apply list_elem_of_In, Hf, negb_true_iff, bool_decide_eq_false in Ho. done.
  - intros Hf o q Hq id _ spec Hspec. rewrite Hq in Hf. cbn [forallb] in Hf. apply andb_true_iff in Hf as [Hf%bool_decide_eq_true _].
    by rewrite Hf in Hspec.
Qed.

Notation demo_run := (run false demo_clock demo_clock elements None 2).
Notation demo_run_all := (run_all false demo_clock demo_clock elements None 2).

Fixpoint allowed_allb (cs : list demo_call) e : bool :=
  match cs with
  | [] => true
  | c :: cs => allowedb c e && match demo_run c e with Ret _ e' => allowed_allb cs e' | Exc _ _ => true end
  end.

Lemma allowed_allb_spec cs : ∀ e, allowed_allb cs e = true → allowed_all false demo_clock demo_clock elements None 2 cs e.
Proof.
  induction cs as [|c cs IH]; intros e; cbn [allowed_allb allowed_all]; [done|]. intros [Hc Hcs]%andb_true_iff.
  split; [by apply allowedb_spec|]. destruct (demo_run c e) as [outs e'|]; [by apply IH|done].
Qed.

(** ** The engine and its requests *)
Definition demo_short (id : string) (t max : Z) : SchedRequest Q :=
  mkSchedRequest (mkRequest id 0 0%Q WAITING max 3 [] (replicate 3 t) [] 0 [] 0
    ((λ i, [t; Z.of_nat i]) <$> seq 0 6) false
    (Some (mkSamplingParams (Some max) 0 None None None None false)) None None None None None) 0 0 false false.

Definition demo_e0 : demo_engine :=
  mkEngine
    {| config := demo_sched_config; allocator := inl demo_k0; encoder_cache_manager := encoder_init 16; connector := None;
       requests := []; waiting := inr (mkFCFS []); skipped_waiting := inr (mkFCFS []); running := [];
       finished_req_ids := ∅; prev_step_scheduled_req_ids := ∅; finished_recving_kv_req_ids := ∅;
       failed_recving_kv_req_ids := ∅; pause_state := UNPAUSED |} [].

(** The model samples 7 for A and 8 for B. *)
Definition demo_out : ModelRunnerOutput (F := Q) (C := unit) :=
  mkRunnerOutput [("A", 0); ("B", 1)] [[7]; [8]] ∅ None None.
Notation demo_finish := (Finish_batch (λ _ _, false) demo_out).

Definition demo_adds : list demo_call :=
  [Add_request (demo_short "A" 5 4) None false; Add_request (demo_short "B" 6 1) None false].
Definition demo_work : list demo_call := [Schedule_batch; demo_finish; Schedule_batch; demo_finish; Schedule_batch].

Lemma demo_start : engine_start demo_e0.
Proof. by split. Qed.

Notation demo_state cs e := (out_state (demo_run_all cs e)).
Definition demo_e1 := demo_state demo_adds demo_e0.
Definition demo_e2 := demo_state (demo_adds ++ [Schedule_batch]) demo_e0.

(** The engine after calls that return. *)
Lemma demo_ok cs : allowed_allb cs demo_e0 = true → returns (demo_run_all cs demo_e0) = true → engine_ok (demo_state cs demo_e0).
Proof.
  intros Hal%allowed_allb_spec Hret.
  pose proof (wp_run_all false demo_clock demo_clock elements None ltac:(done) 2 ltac:(done) cs demo_e0 (start_ok _ demo_start) Hal) as Hw.
  unfold wp in Hw. destruct (demo_run_all cs demo_e0) as [outs e'|]; [apply Hw|done].
Qed.

(** ** The theorems at these states *)
Lemma engine_keeps_requests_witness : ∃ outs e', demo_run_all (demo_adds ++ demo_work) demo_e0 = Ret outs e'
  ∧ running (scheduler e') = ["A"] ∧ sched_inv (scheduler e').
Proof.
  assert (allowed_allb (demo_adds ++ demo_work) demo_e0 = true) as Hal%allowed_allb_spec by (by vm_compute).
  pose proof (engine_keeps_requests false demo_clock demo_clock elements None ltac:(done) 2 ltac:(done) _ _ demo_start Hal) as H.
  assert (match demo_run_all (demo_adds ++ demo_work) demo_e0 with
          | Ret _ e' => running (scheduler e') | Exc _ _ => [] end = ["A"]) as Hk by (by vm_compute).
  destruct (demo_run_all (demo_adds ++ demo_work) demo_e0) as [outs e'|]; [|discriminate]. exists outs, e'.
  split; [reflexivity|]. split; [exact Hk|apply H].
Defined.

(** A has got two tokens. *)
Lemma engine_streams_tokens_witness : ∃ outs e', demo_run_all demo_work demo_e1 = Ret outs e'
  ∧ (all_token_ids ∘ req <$> od_get "A" (requests (scheduler e'))) = Some [5; 5; 5; 7; 7]
  ∧ concat (output_new_token_ids <$> filter (λ x, output_request_id x = "A") outs) = [7; 7].
Proof.
  assert (engine_ok demo_e1) as Hok by (apply demo_ok; by vm_compute).
  assert (allowed_allb demo_work demo_e1 = true) as Hal%allowed_allb_spec by (by vm_compute).
  pose proof (engine_streams_tokens false demo_clock demo_clock elements None ltac:(done) 2 ltac:(done) _ _ Hok Hal) as H.
  assert (all_token_ids ∘ req <$> od_get "A" (requests (scheduler demo_e1)) = Some [5; 5; 5]) as H0 by (by vm_compute).
  assert (match demo_run_all demo_work demo_e1 with
          | Ret _ e' => (λ r, (all_token_ids (req r), is_finished (req r))) <$> od_get "A" (requests (scheduler e'))
          | Exc _ _ => None end = Some ([5; 5; 5; 7; 7], false)) as Hk by (by vm_compute).
  generalize dependent demo_e1. intros e1 _ _ H H0 Hk.
  destruct (demo_run_all demo_work e1) as [outs e'|]; [|discriminate]. exists outs, e'. split; [reflexivity|].
  destruct (od_get "A" (requests (scheduler e'))) as [r'|] eqn:Hr'; [|discriminate]. cbn in Hk. injection Hk as Ht Hu.
  destruct (H "A" r') as (r & Hr & _ & Hall); [|exact Hr'|exact Hu|].
  { intros c Hc. unfold demo_work in Hc. rewrite !elem_of_cons, elem_of_nil in Hc. by destruct Hc as [->|[->|[->|[->|[->|[]]]]]]. }
  rewrite Hr in H0. cbn in H0. injection H0 as Hr0. rewrite Hr0, Ht in Hall. cbn [fmap option_fmap option_map compose]. rewrite Ht.
  split; [reflexivity|]. injection Hall as Hall. symmetry. exact Hall.
Defined.

(** The output of B is its last. *)
Lemma finish_batch_delivers_witness : ∃ o outs e', demo_run demo_finish demo_e2 = Ret outs e'
  ∧ batch_queue e' = [] ∧ (λ x, (output_request_id x, output_new_token_ids x)) <$> outs = [("A", [7]); ("B", [8])] ∧ delivery (λ _ _, false) demo_out ∅ (scheduler demo_e2) o outs (scheduler e').
Proof.
  assert (engine_ok demo_e2) as Hok by (apply demo_ok; by vm_compute).
  assert (allowedb demo_finish demo_e2 = true) as Hal%allowedb_spec by (by vm_compute).
  assert (length (batch_queue demo_e2) = 1%nat) as Hlen by (by vm_compute).
  assert (match demo_run demo_finish demo_e2 with
          | Ret outs _ => (λ x, (output_request_id x, output_new_token_ids x)) <$> outs | Exc _ _ => [] end
          = [("A", [7]); ("B", [8])]) as Hk by (by vm_compute).
  pose proof (λ o q (Hq : batch_queue demo_e2 = o :: q), finish_batch_delivers false demo_clock demo_clock elements None ltac:(done) 2 _ demo_out o q _ Hok Hal Hq I) as H.
  generalize dependent demo_e2. intros e2 _ _ Hlen Hk H. destruct (batch_queue e2) as [|o [|]] eqn:Hq; [discriminate| |discriminate].
  specialize (H o [] eq_refl). destruct (demo_run demo_finish e2) as [outs e'|]; [|discriminate]. exists o, outs, e'.
  split; [reflexivity|]. split; [apply H|]. split; [exact Hk|apply H].
Defined.

(** A is aborted while it runs. *)
Lemma finish_requests_leave_witness : ∃ s', finish_requests false demo_clock elements (One_id "A") FINISHED_ABORTED (scheduler demo_e2) = Ret ["A"] s'
  ∧ "A" ∉ placed s' ∧ good s'.
Proof.
  assert (engine_ok demo_e2) as Hok by (apply demo_ok; by vm_compute).
  pose proof (finish_requests_leave false demo_clock elements ltac:(done) (One_id "A") FINISHED_ABORTED _ (sd_good _ _ Hok)) as H.
  assert (match finish_requests false demo_clock elements (One_id "A") FINISHED_ABORTED (scheduler demo_e2) with
          | Ret ids _ => ids | Exc _ _ => [] end = ["A"]) as Hk by (by vm_compute).
  generalize dependent demo_e2. intros e2 _ H Hk.
  destruct (finish_requests _ _ _ _ _ (scheduler e2)) as [ids s'|]; [|discriminate]. exists s'. subst ids. split; [reflexivity|].
  destruct H as (H1 & _ & H2 & _). split; [|exact H1]. apply (H2 "A"). by left.
Defined.
