(* ===== verification/PressureFacts.v ===== *)
(** * What the forecast of the waiting demand promises

    It changes nothing of what it reads, and the blocks it reports can really
    be handed to requests that wait, together, in the next admissions. *)
From Stdlib Require Import QArith.
From S2P Require Import Prelude PyFloat Hoare Metrics Protocol Config Request BlockPool KVCache EncoderCache.
From S2P Require Import Scoring Scheduling OffloadPolicy Pressure.
Local Open Scope Z_scope.

(** ** Computations that only read *)
Definition readonly {S A} (c : M S A) : Prop := ∀ s, out_state (c s) = s.

Section readonly.
Context {S : Type}.

Lemma readonly_ret {A} (a : A) : readonly (mret a : M S A).
Proof. done. Qed.
Lemma readonly_raise {A} e : readonly (raise e : M S A).
Proof. done. Qed.
Lemma readonly_get : readonly (get_state : M S S).
Proof. done. Qed.
Lemma readonly_assert b : readonly (assertM b : M S unit).
Proof. by destruct b. Qed.
Lemma readonly_bind {A B} (c : M S A) (k : A → M S B) :
  readonly c → (∀ a, readonly (k a)) → readonly (c ≫= k).
Proof.
  intros Hc Hk s. rewrite bind_unfold. specialize (Hc s). destruct (c s) as [a s'|e s']; cbn in Hc; subst; [apply Hk|done].
Qed.
Lemma readonly_zoom {T A} (get : S → T) (set : T → S → S) (c : M T A) :
  (∀ s, set (get s) s = s) → readonly c → readonly (zoom get set c).
Proof.
  intros Hs Hc s. specialize (Hc (get s)). unfold zoom.
  destruct (c (get s)); cbn in Hc |- *; subst; apply Hs.
Qed.
End readonly.

Create HintDb readonly.
#[export] Hint Resolve readonly_ret readonly_raise readonly_get readonly_assert : readonly.

(** Split binds and branches, and close the ends. *)
Ltac readonly :=
  repeat first
    [ solve [auto with readonly nocore]
    | apply readonly_bind; [|intros]
    | progress case_match
    | progress cbv zeta ].

Lemma get_cached_block_readonly h ids : readonly (get_cached_block h ids).
Proof. induction ids; cbn [get_cached_block]; readonly. Qed.
#[export] Hint Resolve get_cached_block_readonly : readonly.

Lemma hit_prefix_readonly hs g : readonly (hit_prefix hs g).
Proof. induction hs; cbn [hit_prefix]; readonly. Qed.
#[export] Hint Resolve hit_prefix_readonly : readonly.

Lemma window_scan_readonly i hs g bs e al n run c : readonly (window_scan i hs g bs e al n run c).
Proof. revert run c. induction i; intros run c; cbn [window_scan]; readonly. Qed.
#[export] Hint Resolve window_scan_readonly : readonly.

Lemma chunked_hit_readonly hs n g bs ch e al : readonly (chunked_find_longest_cache_hit hs n g bs ch e al).
Proof.
  unfold chunked_find_longest_cache_hit. apply readonly_bind; [readonly|intros _].
  apply readonly_bind; [readonly|intros _]. apply readonly_bind; [readonly|intros p]. cbv zeta.
  apply readonly_bind; [|readonly]. generalize (seq (Z.to_nat ((if 0 <? n then n / ch * ch else 0) / bs))
    (Z.to_nat (n / bs) - Z.to_nat ((if 0 <? n then n / ch * ch else 0) / bs))).
  intros l. induction l; readonly.
Qed.
#[export] Hint Resolve chunked_hit_readonly : readonly.

Lemma set_pair_id i k : set_pair i (block_pool k, single_type_managers k !!! i) k = k.
Proof.
  unfold set_pair. destruct k as [p l n e]. cbn. f_equal.
  destruct (decide (i < length l)%nat) as [Hi|Hi].
  - apply list_insert_id. by apply list_lookup_lookup_total_lt.
  - by apply list_insert_ge, Nat.nlt_ge.
Qed.

Lemma at_manager_readonly {A} i (c : SM A) : readonly c → readonly (at_manager i c).
Proof. apply readonly_zoom. apply set_pair_id. Qed.
Lemma at_pool_readonly {A} (c : PM A) : readonly c → readonly (at_pool c).
Proof. apply readonly_zoom. by intros []. Qed.
#[export] Hint Resolve at_manager_readonly at_pool_readonly : readonly.

Lemma sumM_readonly l body : (∀ i, readonly (body i)) → readonly (sumM l body).
Proof. intros Hb. induction l; cbn [sumM]; readonly. Qed.

Lemma blocks_to_allocate_readonly id n bs t tm cap : readonly (get_num_blocks_to_allocate id n bs t tm cap).
Proof. unfold get_num_blocks_to_allocate. readonly. Qed.
#[export] Hint Resolve blocks_to_allocate_readonly : readonly.

Lemma coord_blocks_readonly id n bs enc t tm cap :
  readonly (coord_get_num_blocks_to_allocate id n bs enc t tm cap).
Proof.
  unfold coord_get_num_blocks_to_allocate. apply readonly_bind; [readonly|intros k].
  apply sumM_readonly. intros i. apply at_manager_readonly. readonly.
Qed.
Lemma coord_hit_readonly hs n : readonly (coord_find_longest_cache_hit hs n).
Proof.
  unfold coord_find_longest_cache_hit. apply readonly_bind; [readonly|intros k].
  case_match; [readonly|]. apply readonly_bind; [|readonly]. apply at_pool_readonly.
  case_match; [unfold full_find_longest_cache_hit|unfold window_find_longest_cache_hit| |]; readonly.
Qed.
#[export] Hint Resolve coord_blocks_readonly coord_hit_readonly : readonly.

Section pressure_readonly.
Context {F : Type} `{FloatOps F} `{FloatLog1p F}.
Context (set_order : gset string → list string) (lt_id : bool).
Implicit Types (s : Scheduler F) (r : Request F).

Lemma kv_readonly {A} (c : M KVCacheManager A) : readonly c → readonly (Controller.kv (F := F) c).
Proof. apply readonly_zoom. by intros []. Qed.

Lemma uncommitted_readonly : readonly (Controller.uncommitted_blocks (F := F) set_order).
Proof. unfold Controller.uncommitted_blocks. readonly. Qed.
Lemma admission_demand_readonly r n bs e : readonly (Controller.admission_demand r n bs e).
Proof.
  unfold Controller.admission_demand. apply readonly_bind; [readonly|intros c]. cbv zeta.
  pose proof (λ id n bs enc t tm cap, kv_readonly _ (coord_blocks_readonly id n bs enc t tm cap)). readonly.
Qed.
Lemma consumption_readonly r n b : readonly (Controller.consumption r n b).
Proof. unfold Controller.consumption. readonly. Qed.
Hint Resolve uncommitted_readonly admission_demand_readonly consumption_readonly : readonly.

Lemma on_kv_readonly {A} (c : M KVCacheManager A) : readonly c → readonly (on_kv (F := F) c).
Proof. apply readonly_zoom. intros []. unfold put_kv. cbn. case_match; subst; cbn; [done|]. by destruct s. Qed.
Hint Resolve on_kv_readonly : readonly.

Lemma by_controller_readonly {A} (a : A) (c : M (Controller.SchedulingController F) A) :
  readonly c → readonly (by_controller a c).
Proof.
  intros Hc s. unfold by_controller, controller. destruct (allocator s) as [k|k] eqn:Ha; [done|].
  case_bool_decide; [done|]. cbn. specialize (Hc k). unfold zoom.
  destruct (c k); cbn in Hc |- *; subst; destruct s; cbn in *; by subst.
Qed.
Hint Resolve by_controller_readonly : readonly.

Lemma candidate_readonly free unc tb r : readonly (candidate_of free unc tb r).
Proof.
  unfold candidate_of, cached_prefix, admission_of, needs_borrowing.
  repeat first [ solve [auto with readonly nocore] | apply readonly_bind; [|intros] | apply by_controller_readonly | progress case_match | progress cbv zeta ].
Qed.
Hint Resolve candidate_readonly : readonly.

Lemma collect_readonly free unc tb l : readonly (collect_candidates free unc tb l).
Proof. induction l; cbn [collect_candidates]; readonly. Qed.
Hint Resolve collect_readonly : readonly.

(** The forecast changes no cache: the scheduler it read, the block pool,
    the request tables, the encoder cache and the controller are what they
    were, even when it raises. *)
Theorem pressure_reads_only s window sel :
  out_state (waiting_pressure set_order lt_id window sel s) = s.
Proof. revert s. change (readonly (waiting_pressure set_order lt_id window sel)). unfold waiting_pressure. readonly. Qed.
End pressure_readonly.

(** ** The forecast spends within its budget, and leaves nothing that fits *)
Section forecast.
Context {F : Type} `{FloatOps F} `{FloatLog1p F}.
Implicit Types (c : Candidate F) (b : Budget).

Definition demands (cs : list (Candidate F)) : Z := sumZ (c_demand <$> cs).
Definition costs c : Prop := 0 < c_demand c ∧ c_demand c ≤ c_admission c ∧ 0 < c_tokens c.

(** No slot is left, or one of the remaining budgets is too small. *)
Definition no_room b c : Prop := slots b ≤ 0 ∨ admissible b c = false.

Record within b : Prop := {
  within_blocks : 0 ≤ remaining_blocks b;
  within_commitment : 0 ≤ remaining_commitment b;
  within_tokens : 0 ≤ remaining_tokens b
}.

Lemma admissible_iff b c : admissible b c = true ↔
  c_demand c ≤ remaining_blocks b ∧ c_admission c ≤ remaining_commitment b ∧ c_tokens c ≤ remaining_tokens b
  ∧ (prefills c = true → c_tokens c ≤ remaining_prefill b).
Proof.
  unfold admissible. rewrite negb_true_iff, !orb_false_iff, andb_false_iff, !Z.ltb_ge.
  destruct (prefills c); naive_solver.
Qed.

Lemma within_spend b c : within b → admissible b c = true → within (spend b c).
Proof. rewrite admissible_iff. intros [] (? & ? & ? & _). split; cbn [spend remaining_blocks remaining_commitment remaining_tokens]; lia. Qed.

(** What does not fit does not fit later. *)
Lemma no_room_spend b c c' : costs c' → no_room b c → no_room (spend b c') c.
Proof.
  intros (Hd & Ha & Ht) [Hs|Hn]; [left; cbn [spend slots]; lia|right].
  apply not_true_iff_false in Hn. apply not_true_iff_false. rewrite admissible_iff in Hn |- *.
  cbn [spend remaining_blocks remaining_commitment remaining_tokens remaining_prefill].
  intros (? & ? & ? & Hp). apply Hn. split_and!; [lia..|]. intros Hc. specialize (Hp Hc). destruct (prefills c'); lia.
Qed.

Lemma no_room_spends b c l : Forall costs l → no_room b c → no_room (foldl spend b l) c.
Proof. intros Hl. revert b. induction Hl; intros b Hn; cbn [foldl]; [done|]. by apply IHHl, no_room_spend. Qed.

Lemma forecast_spec cs b fit : Forall costs cs → within b →
  ∃ chosen rest, cs ≡ₚ chosen ++ rest ∧ forecast b cs fit = fit + demands chosen
    ∧ within (foldl spend b chosen) ∧ zlen chosen ≤ Z.max 0 (slots b)
    ∧ Forall (no_room (foldl spend b chosen)) rest.
Proof.
  intros Hcs. revert b fit. induction Hcs as [|c cs Hc Hcs IH]; intros b fit Hb; cbn [forecast].
  { exists [], []. split_and!; [done|cbn; lia|done|unfold zlen; cbn; lia|done]. }
  destruct (Z.leb_spec (slots b) 0) as [Hs|Hs].
  { exists [], (c :: cs). split_and!; [done|cbn; lia|done|unfold zlen; cbn; lia|].
    apply Forall_forall. intros. by left. }
  destruct (admissible b c) eqn:Ha.
  - destruct (IH (spend b c) (fit + c_demand c)) as (l & rest & Hp & Hf & Hw & Hl & Hr); [by apply within_spend|].
    exists (c :: l), rest. cbn [foldl app]. split_and!; [by rewrite Hp| |done| |done].
    + rewrite Hf. change (demands (c :: l)) with (c_demand c + demands l). lia.
    + unfold zlen in *. cbn [length spend slots] in *. lia.
  - destruct (IH b fit Hb) as (l & rest & Hp & Hf & Hw & Hl & Hr).
    exists l, (c :: rest). split_and!; [|done..|].
    + rewrite Hp. apply Permutation_middle.
    + constructor; [|done]. apply no_room_spends; [|by right].
      rewrite Hp in Hcs. by apply Forall_app in Hcs as [? _].
Qed.

(** ** What the candidates are *)
Context (set_order : gset string → list string) (lt_id : bool).
Implicit Types (s : Scheduler F) (r : Request F).

Record eligible s (free uncommitted token_budget : Z) r c : Prop := {
  el_request : c_request c = r;
  el_status : status r = WAITING ∨ status r = Request.PREEMPTED;
  el_demand : 0 < c_demand c ≤ free;
  el_admission : c_demand c ≤ c_admission c ≤ uncommitted;
  el_tokens : 0 < c_tokens c ≤ (if c_limited_prefill c then token_budget else max_num_scheduled_tokens s)
}.

(** A computation that reads only, in the logic of [Hoare]. *)
Lemma wp_readonly {S A} (m : M S A) (Q : A → S → Prop) t : readonly m → (∀ a, Q a t) → wp m Q (λ _, True) t.
Proof. intros Hm HQ. unfold wp. specialize (Hm t). destruct (m t); cbn in Hm; by subst. Qed.

Lemma wp_by_controller {A} (a : A) m (Q : A → Scheduler F → Prop) s :
  readonly m → Q a s → (∀ k, controller s = Some k → wp m (λ x _, Q x s) (λ _, True) k) →
  wp (by_controller a m) Q (λ _, True) s.
Proof.
  intros Hm Ha Hk. unfold wp, by_controller. destruct (controller s) as [k|] eqn:Ek; [|done].
  specialize (Hk k eq_refl). unfold wp in Hk. unfold zoom.
  assert (readonly (by_controller (F := F) None (x ← m; mret (Some x)))) as Hr.
  { apply by_controller_readonly, readonly_bind; [done|intros; apply readonly_ret]. }
  specialize (Hr s). unfold by_controller in Hr. rewrite Ek in Hr. unfold zoom in Hr.
  rewrite bind_unfold in Hr. destruct (m k); [|done]. cbn in Hr. by rewrite Hr.
Qed.

Lemma wp_admission r n bs e d s :
  wp (admission_of r n bs e d) (λ a t, d ≤ a ∧ t = s) (λ _, True) s.
Proof.
  unfold admission_of. apply wp_get. apply wp_if; intros _; [|by apply wp_ret]. cbv zeta.
  apply wp_bind, wp_readonly; [auto using on_kv_readonly, coord_blocks_readonly|]. intros full.
  apply wp_by_controller; [|split; [lia|done]|].
  - apply readonly_bind; [apply admission_demand_readonly|intros; apply readonly_ret].
  - intros k _. apply wp_bind, wp_readonly; [apply admission_demand_readonly|]. intros own. split; [lia|done].
Qed.

Lemma tokens_bounds s tb r n t : tokens_of s tb r n = Some t →
  0 < t ≤ (if limited s r then tb else max_num_scheduled_tokens s).
Proof.
  unfold tokens_of. destruct (_ && _); [done|]. destruct (Z.leb_spec (Z.min (Z.min (if 0 <? long_prefill_token_threshold s
    then Z.min (Z.max 0 (num_tokens r - n)) (long_prefill_token_threshold s) else Z.max 0 (num_tokens r - n))
    (if limited s r then tb else max_num_scheduled_tokens s)) (max_model_len s - n)) 0); [done|].
  intros [= <-]. lia.
Qed.

Lemma wp_candidate free unc tb r s :
  wp (candidate_of free unc tb r) (λ o t, t = s ∧ ∀ c, o = Some c → eligible s free unc tb r c) (λ _, True) s.
Proof.
  unfold candidate_of. apply wp_get. case_bool_decide as Hst; cbn [negb]; [|by apply wp_ret].
  destruct (lora_blocked s r); [by apply wp_ret|].
  apply wp_bind, wp_readonly.
  { unfold cached_prefix. readonly. apply on_kv_readonly. readonly. }
  intros [bs n]. destruct (tokens_of s tb r n) as [tokens|] eqn:Ht; [|by apply wp_ret].
  destruct (_ && _); [by apply wp_ret|]. cbv zeta.
  apply wp_bind, wp_readonly; [auto using on_kv_readonly, coord_blocks_readonly|]. intros demand.
  apply wp_bind. eapply wp_mono; [apply wp_admission| |done]. cbv beta. intros adm _ [Had ->].
  destruct (Z.leb_spec demand 0), (Z.ltb_spec free demand), (Z.ltb_spec unc adm); cbn [orb];
    try by apply wp_ret.
  apply wp_bind, wp_readonly.
  { apply by_controller_readonly. apply readonly_bind; [apply consumption_readonly|intros [|]; [apply readonly_ret|]].
    apply readonly_bind; [apply consumption_readonly|intros [|]; apply readonly_ret]. }
  intros b. apply wp_ret. split; [done|]. intros c Hc. destruct b as [b|]; [|done]. injection Hc as <-.
  split; cbn [c_request c_demand c_admission c_tokens c_limited_prefill]; [done|done|lia|lia|].
  by apply tokens_bounds in Ht.
Qed.

Lemma wp_collect free unc tb l s :
  wp (collect_candidates free unc tb l)
    (λ cs t, t = s ∧ Forall (λ c, ∃ r, r ∈ l ∧ eligible s free unc tb r c) cs) (λ _, True) s.
Proof.
  induction l as [|r l IH]; cbn [collect_candidates]; [by apply wp_ret|].
  apply wp_bind. eapply wp_mono; [apply wp_candidate| |done]. intros o _ [-> Ho].
  apply wp_bind. eapply wp_mono; [apply IH| |done]. intros cs _ [-> Hcs]. apply wp_ret. split; [done|].
  assert (Forall (λ c, ∃ r', r' ∈ r :: l ∧ eligible s free unc tb r' c) cs).
  { eapply Forall_impl; [done|]. intros c (r' & ? & ?). exists r'. split; [by right|done]. }
  destruct o as [c|]; [|done]. constructor; [|done]. exists r. split; [by left|auto].
Qed.

Definition admissions (cs : list (Candidate F)) : Z := sumZ (c_admission <$> cs).
Definition scheduled (cs : list (Candidate F)) : Z := sumZ (c_tokens <$> cs).

(** The chosen requests fit, together, in what the scheduler has. *)
Record affordable b (chosen : list (Candidate F)) : Prop := {
  af_slots : zlen chosen ≤ Z.max 0 (slots b);
  af_blocks : demands chosen ≤ Z.max 0 (remaining_blocks b);
  af_commitment : admissions chosen ≤ Z.max 0 (remaining_commitment b);
  af_tokens : scheduled chosen ≤ Z.max 0 (remaining_tokens b)
}.

Lemma spends_sums b l :
  remaining_blocks (foldl spend b l) = remaining_blocks b - demands l
  ∧ remaining_commitment (foldl spend b l) = remaining_commitment b - admissions l
  ∧ remaining_tokens (foldl spend b l) = remaining_tokens b - scheduled l.
Proof.
  revert b. induction l as [|c l IH]; intros b.
  { unfold demands, admissions, scheduled. cbn. lia. }
  cbn [foldl]. destruct (IH (spend b c)) as (-> & -> & ->).
  cbn [spend remaining_blocks remaining_commitment remaining_tokens].
  change (demands (c :: l)) with (c_demand c + demands l).
  change (admissions (c :: l)) with (c_admission c + admissions l).
  change (scheduled (c :: l)) with (c_tokens c + scheduled l). lia.
Qed.

Lemma demands_pos l : Forall costs l → l ≠ [] → 0 < demands l.
Proof.
  intros Hl Hn. destruct Hl as [|c l [Hc _] Hl]; [done|]. change (demands (c :: l)) with (c_demand c + demands l).
  enough (0 ≤ demands l) by lia. apply sumZ_nonneg. apply Forall_fmap. eapply Forall_impl; [done|].
  intros c' [? _]. cbn. lia.
Qed.

Lemma forecast_order_Permutation window sel (cs : list (Candidate F)) : forecast_order window sel cs ≡ₚ cs.
Proof. unfold forecast_order. rewrite py_sorted_Permutation. destruct sel; [done|by rewrite py_sorted_Permutation..]. Qed.

(** The budget admits every candidate at the start. *)
Definition admits b (cs : list (Candidate F)) : Prop := Forall (λ c, admissible b c = true) cs.

(** The greedy choice over candidates that are admissible one by one. *)
Lemma forecast_choice b cs : Forall costs cs → admits b cs →
  ∃ chosen rest, cs ≡ₚ chosen ++ rest ∧ forecast b cs 0 = demands chosen ∧ affordable b chosen
    ∧ Forall (no_room (foldl spend b chosen)) rest
    ∧ (cs ≠ [] → 0 < slots b → 0 < demands chosen).
Proof.
  intros Hc Hb. destruct (decide (cs = [])) as [->|Hne].
  { exists [], []. split_and!; [done|done| |done|done].
    split; unfold demands, admissions, scheduled, zlen; cbn; lia. }
  assert (within b) as Hw.
  { destruct Hb as [|c cs Ha]; [done|]. apply admissible_iff in Ha as (? & ? & ? & _).
    apply Forall_cons in Hc as [(? & ? & ?) _]. split; lia. }
  destruct (forecast_spec cs b 0 Hc Hw) as (chosen & rest & Hp & Hf & [Hw1 Hw2 Hw3] & Hl & Hr).
  destruct (spends_sums b chosen) as (E1 & E2 & E3). destruct Hw.
  exists chosen, rest. split_and!; [done|by rewrite Hf|split; lia|done|]. intros _ Hs.
  destruct (decide (chosen = [])) as [->|Hn].
  - exfalso. cbn [foldl app] in *. destruct Hr as [|c rest Hr]; [by apply Permutation_nil_r in Hp|].
    destruct Hr as [|Hr]; [lia|]. unfold admits in Hb. rewrite Hp in Hb. apply Forall_cons in Hb as [Hb _]. congruence.
  - apply demands_pos; [|done]. rewrite Hp in Hc. by apply Forall_app in Hc as [? _].
Qed.

Lemma token_budget_le s : token_budget_of s ≤ max_num_scheduled_tokens s.
Proof.
  unfold token_budget_of, Controller.prefill_budget. destruct (controller s); [|done].
  destruct (_ && negb _); [|done]. destruct (_ && _); lia.
Qed.

(** What the forecast may spend. *)
Definition opening s (uncommitted : Z) : Budget :=
  mkBudget (max_num_running_reqs s - zlen (running s)) (get_num_free_blocks (block_pool (kv_cache_manager s)))
    uncommitted (max_num_scheduled_tokens s) (token_budget_of s).

(** C33.  In an engine that is not paused, with a free slot for a request and a
    positive eviction window, the demand the forecast reports is one the engine
    can serve: it is the total of waiting, schedulable requests that fit together
    in the free slots, the free blocks, the uncommitted capacity and the token
    budget, cut to the eviction window.  Every candidate left out has no slot or
    exceeds what the chosen ones leave; and the demand is zero exactly when no
    waiting request is a candidate. *)
Theorem pressure_forecast s window sel p s' :
  waiting_pressure set_order lt_id window sel s = Ret p s' →
  pause_state s = UNPAUSED → 0 < window → zlen (running s) < max_num_running_reqs s →
  ∃ uncommitted cs chosen rest, let budget := opening s uncommitted in
    by_controller (free p) (Controller.uncommitted_blocks set_order) s = Ret uncommitted s
    ∧ collect_candidates (free p) uncommitted (token_budget_of s) (waiting_list lt_id s) s = Ret cs s
    ∧ cs ≡ₚ chosen ++ rest
    ∧ (∀ c, c ∈ cs → c_request c ∈ waiting_list lt_id s
                     ∧ (status (c_request c) = WAITING ∨ status (c_request c) = Request.PREEMPTED))
    ∧ affordable budget chosen ∧ Forall (no_room (foldl spend budget chosen)) rest
    ∧ fit_demand p = Z.min window (demands chosen) ∧ (fit_demand p = 0 ↔ cs = []).
Proof.
  unfold waiting_pressure. rewrite get_bind. cbv zeta. intros Hp Hu Hw Hrun. rewrite bool_decide_true in Hp by done.
  apply bind_Ret in Hp as (unc & s1 & Hunc & Hp).
  assert (s1 = s) as ->.
  { pose proof (by_controller_readonly (get_num_free_blocks (block_pool (kv_cache_manager s))) _
      (uncommitted_readonly set_order) s) as E. by rewrite Hunc in E. }
  apply bind_Ret in Hp as (cs & s2 & Hcs & [= <- <-]).
  pose proof (wp_collect (get_num_free_blocks (block_pool (kv_cache_manager s))) unc (token_budget_of s)
    (waiting_list lt_id s) s) as Hel.
  unfold wp in Hel. rewrite Hcs in Hel. destruct Hel as [-> Hel]. fold (opening s unc).
  pose proof (token_budget_le s) as Htb.
  assert (Forall costs cs ∧ admits (opening s unc) cs) as [Hc Ha].
  { split; (eapply Forall_impl; [exact Hel|]); intros c (r & _ & [? ? ? ? Ht]); [unfold costs; lia|].
    apply admissible_iff. unfold opening, prefills.
    cbn [remaining_blocks remaining_commitment remaining_tokens remaining_prefill].
    destruct (c_limited_prefill c); cbn [andb]; (split_and!; [lia..|]); [lia|done]. }
  pose proof (forecast_order_Permutation window sel cs) as Hord.
  destruct (forecast_choice (opening s unc) (forecast_order window sel cs))
    as (chosen & rest & Hperm & Hf & Haff & Hr & Hpos); [by rewrite Hord|by unfold admits; rewrite Hord|].
  exists unc, cs, chosen, rest. cbv zeta. cbn [free fit_demand].
  split_and!; [done..|by rewrite <-Hord| |done|done|by rewrite Hf|].
  - intros c Hin. rewrite list.Forall_forall in Hel. destruct (Hel c Hin) as (r & ? & [Er ? _ _ _]). by subst.
  - rewrite Hf. split.
    + intros Hz. destruct (decide (cs = [])) as [|Hne]; [done|]. exfalso.
      assert (0 < demands chosen); [|lia]. apply Hpos; [|cbn; lia]. intros E. rewrite E in Hord.
      by apply Permutation_nil_l in Hord.
    + intros ->. apply Permutation_nil_r in Hord. rewrite Hord in Hperm. apply Permutation_nil_l in Hperm; symmetry in Hperm; apply app_nil in Hperm as [-> _].
      unfold demands. cbn. lia.
Qed.
End forecast.
