(* ===== verification/Coordinator.v ===== *)
(** * The offloading coordinator ([vllm/tokencake/offloading.py])

    TokenCake's subclass of the connector's scheduler side: it captures the
    prefix of a finished generation, decides while the tool call runs whether
    to preserve it in CPU memory, starts the stores outside the steps of the
    engine, and hands the preserved blocks to the lifecycle that owns them.

    The registry and the connector share one [CPUOffloadingManager]: the one in
    [native] is the object, and every call on the registry sees it ([reg]).
    [pool] is the GPU block pool bound to the connector, as it is during the
    call; the coordinator only reads it. *)
From S2P Require Import Prelude PyFloat Metrics Protocol Config Request BlockPool Lifecycle OffloadPolicy.
From S2P Require Import CachePolicy KVCache Scoring Scheduling Pressure CPUManager NativeOffload.
Import Offloading.
Local Open Scope string_scope.
Local Open Scope Z_scope.

Module Coordinator.
(** ** Data *)
Record SnapshotBlock := mkSnapshotBlock {
  group : nat;
  index : nat;
  key : OffloadKey;
  source_block_ids : list nat;
  block_index : Z
}.

(** [context] is the request context; its transfer parameters are not read. *)
Record DetachedStore := mkDetached {
  detached_lifecycle_id : string;
  context : string;
  source_ids : list nat
}.

Section Coordinator.
Context {F P : Type} `{FloatOps F, FloatInf F} `{FloatLog1p F} `{CachePolicy P}.

Record TokenCakeOffloadingScheduler := mkCoordinator {
  native : OffloadingConnectorScheduler P;
  lifecycles : Registry.LifecycleRegistry F P;
  settings : OffloadConfig F;
  temporal_selection : TemporalSelection;
  num_cpu_blocks : Z;
  bytes_per_block : Z;
  shareable_groups : gset nat;
  step : Z;
  unpublished : odict Z TransferJob;
  detached : odict Z DetachedStore;
  recent_stores : list Z;
  bandwidth : odict string F
}.

Definition coordinator_eta (s : TokenCakeOffloadingScheduler) : TokenCakeOffloadingScheduler :=
  {| native := native s; lifecycles := lifecycles s; settings := settings s;
     temporal_selection := temporal_selection s; num_cpu_blocks := num_cpu_blocks s;
     bytes_per_block := bytes_per_block s; shareable_groups := shareable_groups s; step := step s;
     unpublished := unpublished s; detached := detached s; recent_stores := recent_stores s;
     bandwidth := bandwidth s |}.
Definition put_native (v : OffloadingConnectorScheduler P) (s : TokenCakeOffloadingScheduler) : TokenCakeOffloadingScheduler :=
  ltac:(update_field coordinator_eta (native s) v s).
Definition put_lifecycles (v : Registry.LifecycleRegistry F P) (s : TokenCakeOffloadingScheduler) : TokenCakeOffloadingScheduler :=
  ltac:(update_field coordinator_eta (lifecycles s) v s).
Definition put_step (v : Z) (s : TokenCakeOffloadingScheduler) : TokenCakeOffloadingScheduler :=
  ltac:(update_field coordinator_eta (step s) v s).
Definition put_unpublished (v : odict Z TransferJob) (s : TokenCakeOffloadingScheduler) : TokenCakeOffloadingScheduler :=
  ltac:(update_field coordinator_eta (unpublished s) v s).
Definition put_detached (v : odict Z DetachedStore) (s : TokenCakeOffloadingScheduler) : TokenCakeOffloadingScheduler :=
  ltac:(update_field coordinator_eta (detached s) v s).
Definition put_recent (v : list Z) (s : TokenCakeOffloadingScheduler) : TokenCakeOffloadingScheduler :=
  ltac:(update_field coordinator_eta (recent_stores s) v s).
Definition put_bandwidth (v : odict string F) (s : TokenCakeOffloadingScheduler) : TokenCakeOffloadingScheduler :=
  ltac:(update_field coordinator_eta (bandwidth s) v s).

Notation TM := (M TokenCakeOffloadingScheduler).

(** ** Calls on the parts *)
Definition conn {A} (c : M (OffloadingConnectorScheduler P) A) : TM A := zoom native put_native c.

(** The registry with the manager it shares with the connector. *)
Definition registry (s : TokenCakeOffloadingScheduler) : Registry.LifecycleRegistry F P :=
  Registry.put_manager (Some (manager (native s))) (lifecycles s).
Definition put_registry (r : Registry.LifecycleRegistry F P) (s : TokenCakeOffloadingScheduler) : TokenCakeOffloadingScheduler :=
  put_lifecycles r
    match Registry.manager r with Some m => put_native (put_manager m (native s)) s | None => s end.
Definition reg {A} (c : M (Registry.LifecycleRegistry F P) A) : TM A := zoom registry put_registry c.

(** [self.lifecycles.metrics.count(metric, amount)] *)
Definition countM (m : Metric) (amount : Z) : TM unit :=
  reg (zoom Registry.metrics Registry.put_metrics (Metrics.count m amount)).

Definition records (s : TokenCakeOffloadingScheduler) : odict string (Registry.Lifecycle F) :=
  Registry.records (lifecycles s).
Definition update (id : string) (f : Registry.Lifecycle F → Registry.Lifecycle F) : TM unit :=
  reg (Registry.update id f).

(** [self.manager._policy.get(key)] *)
Definition cpu_block (s : TokenCakeOffloadingScheduler) (k : OffloadKey) : option BlockStatus :=
  CPUManager.block_of k (manager (native s)).
Definition is_absent (s : TokenCakeOffloadingScheduler) (k : OffloadKey) : bool :=
  bool_decide (cpu_block s k = None).

Definition is_writing (s : TokenCakeOffloadingScheduler) (k : OffloadKey) : bool :=
  from_option (λ b, negb (is_ready b)) false (cpu_block s k).

Definition or_raise {S A} (e : exn) (o : option A) : M S A :=
  match o with Some a => mret a | None => raise e end.

(** [__init__]; [full_attention] tells for each group whether the type of its
    spec is [FullAttentionSpec] itself. *)
Definition coordinator_init (n : OffloadingConnectorScheduler P) (s : OffloadConfig F) (sel : TemporalSelection)
    (num_blocks cpu_page_size_per_worker : Z) (full_attention : list bool) : TokenCakeOffloadingScheduler :=
  {| native := n; lifecycles := Registry.registry_init s (Some (manager n)); settings := s;
     temporal_selection := sel; num_cpu_blocks := num_blocks; bytes_per_block := cpu_page_size_per_worker;
     shareable_groups := list_to_set (fst <$> filter (λ p, p.2 = true) (imap pair full_attention));
     step := 0; unpublished := []; detached := []; recent_stores := []; bandwidth := [] |}.

(** [TokenCakeConnector.__init__] and [_create_scheduler]; [None] is a
    [ValueError]. *)
Definition create_scheduler (n : OffloadingConnectorScheduler P) (s : option (OffloadConfig F)) (sel : TemporalSelection)
    (num_blocks cpu_page_size_per_worker : Z) (full_attention : list bool) : option TokenCakeOffloadingScheduler :=
  match s with
  | None => None
  | Some s =>
      if negb (oc_enabled s) then None
      else if num_blocks <=? 0 then None
      else Some (coordinator_init n s sel num_blocks cpu_page_size_per_worker full_attention)
  end.

(** The live requests of the engine; the annotation of a request, which is
    under ["tokencake"] in the extra arguments of its sampling parameters and
    which the front end has validated; the readings of [time.monotonic()]. *)
Context (live : string → Request F) (annotation : Request F → option (TokenCakeMetadata F)).
Context (clock : nat → F).
Context (pool : option BlockPool).

(** [_defer_store] *)
Definition defer_store (request : Request F) : bool := bool_decide (is_Some (annotation request)).

(** [_peek_ready] *)
Definition peek_ready (k : OffloadKey) : M (CPUOffloadingManager P) (option bool) := λ m,
  Ret (match CPUManager.block_of k m with
       | None => Some false
       | Some b => if is_ready b then Some true else None
       end) m.

(** [estimate_recompute_tokens] *)
Definition estimate_recompute_tokens (request : Request F) : TM Z :=
  let computed := Z.max 0 (num_computed_tokens request) in
  if negb (defer_store request) || skip_reading_prefix_cache request then mret computed
  else
    s ← get_state;
    let c := config (native s) in
    match update_offload_keys c (block_hashes request) (new_request_state c) with
    | None => raise OverflowError
    | Some state =>
        recoverable ← conn (mgr (lookup peek_ready c (lookup_groups (native s)) (sliding_window_groups (native s))
          (num_tokens request) (num_locally_computed_tokens state) (group_states state)
          (blocks_being_loaded (native s))));
        mret (Z.max 0 (computed - default 0 recoverable))
    end.

(** ** Snapshots *)
(** The hashes of the blocks, as they are now. *)
Definition gpu_hash (bid : nat) : TM (option BlockHashWithGroupId) :=
  match pool with
  | None => raise AssertionError
  | Some p => or_raise IndexError (block_hash <$> blocks p !! bid)
  end.

(** The snapshot of one group. *)
Definition snapshot_group (request : Request F) (factor computed : Z) (c : GroupOffloadConfig) (ids : list nat) :
    TM SnapshotGroup :=
  let step := hash_block_size_factor c in
  let hashes := slice_to (computed / offloaded_block_size c) (islice (step - 1) step (block_hashes request)) in
  let blocks := (λ i, slice (Z.of_nat i * factor) (Z.of_nat (S i) * factor) ids) <$> seq 0 (length hashes) in
  if step <? 1 then raise ValueError
  else
    keys ← or_raise OverflowError (mapM (λ h, make_offload_key h (group_idx c)) hashes);
    gpu ← mapS (mapS gpu_hash) blocks;
    mret (mkSnapshotGroup keys blocks gpu).

(** [capture_snapshot] *)
Definition capture_snapshot (request : Request F) (block_ids : list (list nat)) : TM PrefixSnapshot :=
  assertM (bool_decide (is_Some pool)) ;;
  s ← get_state;
  let config := config (native s) in
  let computed := Z.min (num_computed_tokens request) (num_tokens request) in
  groups ← mapS (λ '(c, ids), snapshot_group request (block_size_factor config) computed c ids)
             (zip (kv_group_configs config) block_ids);
  mret (mkPrefixSnapshot groups (request_id request)).

(** [generation_finished] *)
Definition generation_finished (request : Request F) (block_ids : list (list nat)) : TM unit :=
  match annotation request with
  | None => mret tt
  | Some metadata =>
      let identifier := lifecycle_id metadata in
      s ← get_state;
      found ← match status request with
        | FINISHED_ABORTED => mret (gen_aborted, None)
        | FINISHED_ERROR | FINISHED_IGNORED => mret (gen_error, None)
        | _ =>
            match od_get identifier (records s) with
            | Some r =>
                if Registry.is_none (Registry.terminal_at r)
                then snapshot ← capture_snapshot request block_ids; mret (gen_completed, Some snapshot)
                else mret (gen_completed, None)
            | None => mret (gen_completed, None)
            end
        end;
      reg (Registry.generation_finished clock identifier found.1 found.2)
  end.

(** ** Candidates *)
(** [all(bid != 0 and expected is not None and blocks[bid].block_hash == expected ...)];
    [None] is an [IndexError]. *)
Fixpoint unchanged (p : BlockPool) (ids : list nat) (hashes : list (option BlockHashWithGroupId)) : option bool :=
  match ids, hashes with
  | bid :: ids', expected :: hashes' =>
      if (bid =? 0)%nat || bool_decide (expected = None) then Some false
      else
        b ← blocks p !! bid;
        if bool_decide (block_hash b = expected) then unchanged p ids' hashes' else Some false
  | _, _ => Some true
  end.

(** The null blocks at the start of a sliding-window block. *)
Fixpoint leading_nulls (ids : list nat) : nat :=
  match ids with O :: ids' => S (leading_nulls ids') | _ => O end.

(** The blocks of one group, up to the first that is gone from both sides. *)
Fixpoint group_candidates (p : BlockPool) (r : Registry.Lifecycle F) (g : nat) (snap : SnapshotGroup)
    (c : GroupOffloadConfig) (indices : list nat) : TM (list SnapshotBlock) :=
  match indices with
  | [] => mret []
  | i :: indices' =>
      match sg_keys snap !! i, sg_block_ids snap !! i, sg_gpu_hashes snap !! i with
      | Some k, Some ids, Some hashes =>
          s ← get_state;
          let factor := block_size_factor (config (native s)) in
          let absent := is_absent s k in
          let offset := if bool_decide (sliding_window_size_in_blocks c = None) then 0%nat else leading_nulls ids in
          let source_ids := drop offset ids in
          matches ←
            (if bool_decide (source_ids = []) || negb (zlen ids =? factor) then mret false
             else or_raise IndexError (unchanged p source_ids (drop offset hashes)));
          if absent && negb matches then countM STALE 1 ;; countM PREFIX_GAP 1 ;; mret []
          else if bool_decide (k ∈ Registry.retained r ∪ Registry.pending_retention r)
          then group_candidates p r g snap c indices'
          else if absent && negb (bool_decide (g ∈ shareable_groups s))
                  && existsb (λ bid, negb (BlockPool.ref_cnt (BlockPool.block_of p bid) =? 0)) source_ids
          then group_candidates p r g snap c indices'
          else
            rest ← group_candidates p r g snap c indices';
            mret (mkSnapshotBlock g i k source_ids (Z.of_nat i * factor + Z.of_nat offset) :: rest)
      | _, _, _ => raise IndexError
      end
  end.

(** The order by the token a block ends at, then by group. *)
Definition group_size (config : SchedulerOffloadConfig) (g : nat) : Z :=
  from_option offloaded_block_size 0 (kv_group_configs config !! g).
Definition end_token (config : SchedulerOffloadConfig) (c : SnapshotBlock) : Z :=
  Z.of_nat (S (index c)) * group_size config (group c).
Definition candidate_lt (config : SchedulerOffloadConfig) (a b : SnapshotBlock) : bool :=
  lexb (end_token config a =? end_token config b) (end_token config a <? end_token config b) (group a <? group b)%nat.

(** [_snapshot_candidates] *)
Definition snapshot_candidates (r : Registry.Lifecycle F) : TM (list SnapshotBlock) :=
  match Registry.snapshot r, pool with
  | Some snapshot, Some p =>
      s ← get_state;
      let config := config (native s) in
      found ← mapS (λ '(g, (snap, c)),
        let n := length (sg_keys snap) in
        let start := match sliding_window_size_in_blocks c with
                     | None => 0
                     | Some w => Z.max 0 (Z.of_nat n - w)
                     end in
        group_candidates p r g snap c (seq (Z.to_nat start) (n - Z.to_nat start)))
        (imap pair (zip (Lifecycle.groups snapshot) (kv_group_configs config)));
      mret (py_sorted (candidate_lt config) (concat found))
  | _, _ => raise AssertionError
  end.

(** The indices the candidates have in one group. *)
Definition indices_of (c : GroupOffloadConfig) (candidates : list SnapshotBlock) : list nat :=
  index <$> filter (λ b, Z.of_nat (group b) = group_idx c) candidates.

(** The common end of the groups, and whether a window before it is complete. *)
Definition common_end (configs : list GroupOffloadConfig) (by_group : list (list nat)) : Z :=
  let alignment := foldr (λ c, Z.lcm (offloaded_block_size c)) 1 configs in
  let ends := zip_with (λ c l, Z.of_nat (S (foldr Nat.max 0%nat l)) * offloaded_block_size c) configs by_group in
  match ends with
  | [] => 0
  | e :: ends => foldl Z.min e ends / alignment * alignment
  end.
Definition window_complete (end_ : Z) (c : GroupOffloadConfig) (indices : list nat) : bool :=
  match sliding_window_size_in_blocks c with
  | None => true
  | Some window =>
      let stop := end_ / offloaded_block_size c in
      forallb (λ i, bool_decide (Z.to_nat i ∈ indices)) (seqZ (Z.max 0 (stop - window)) (stop - Z.max 0 (stop - window)))
  end.

(** [_bound_candidates] *)
Definition bound_candidates (config : SchedulerOffloadConfig) (candidates : list SnapshotBlock) (limit : Z) :
    list SnapshotBlock :=
  let candidates := slice_to (limit / block_size_factor config) candidates in
  let configs := kv_group_configs config in
  let single := match configs with [c] => bool_decide (sliding_window_size_in_blocks c = None) | _ => false end in
  if bool_decide (candidates = []) || single then candidates
  else
    let by_group := (λ c, indices_of c candidates) <$> configs in
    if existsb (λ l, bool_decide (l = [])) by_group then []
    else
      let end_ := common_end configs by_group in
      if forallb (λ '(c, l), window_complete end_ c l) (zip configs by_group)
      then filter (λ c, end_token config c ≤ end_) candidates
      else [].

(** ** Costs *)
Inductive Direction := d2h | h2d.
Definition direction_str (d : Direction) : string := match d with d2h => "d2h" | h2d => "h2d" end.

(** [estimate_transfer]; [None] is a division by zero. *)
Definition estimate_transfer (s : TokenCakeOffloadingScheduler) (blocks : Z) (direction : Direction) : option F :=
  let transfer := transfer (settings s) in
  let gbps := match direction with d2h => d2h_bandwidth_gbps transfer | h2d => h2d_bandwidth_gbps transfer end in
  let base := match direction with d2h => d2h_base_time_s transfer | h2d => h2d_base_time_s transfer end in
  let bandwidth := default (fmul gbps (f_of_Z 1000000000)) (od_get (direction_str direction) (bandwidth s)) in
  t ← py_div (f_of_Z (blocks * bytes_per_block s)) bandwidth;
  Some (fadd (fadd base t) (fmul (f_of_Z blocks) (submission_time_per_run_s transfer))).

(** The store of the new blocks and the later load of all of them. *)
Definition round_trip (s : TokenCakeOffloadingScheduler) (new_count count : Z) : option F :=
  d ← estimate_transfer s new_count d2h;
  h ← estimate_transfer s count h2d;
  Some (fadd d h).

(** [_cpu_available] *)
Definition protected_keys (s : TokenCakeOffloadingScheduler) : gset OffloadKey :=
  ⋃ (keys <$> od_values (jobs (native s))) ∪ ⋃ (Registry.retained <$> od_values (records s)).
Definition cpu_available (s : TokenCakeOffloadingScheduler) : Z :=
  Z.max 0 (num_cpu_blocks s - Z.of_nat (size (protected_keys s))).

(** [_preservation_limit]; [count] blocks have been considered. *)
Fixpoint preservation_loop (s : TokenCakeOffloadingScheduler) (candidates : list SnapshotBlock) (available : Z)
    (remaining : F) (count new_count limit : Z) : option Z :=
  match candidates with
  | [] => Some limit
  | c :: candidates' =>
      let count := count + 1 in
      let new_count := new_count + (if is_absent s (key c) then 1 else 0) in
      transfer ← round_trip s new_count count;
      if (available <? new_count)
         || fltb (fsub remaining transfer) (py_max (f_lit 5 100) (fmul (f_of_Z 2) transfer))
      then Some limit
      else preservation_loop s candidates' available remaining count new_count
             (count * block_size_factor (config (native s)))
  end.
Definition preservation_limit (s : TokenCakeOffloadingScheduler) (candidates : list SnapshotBlock) (available : Z)
    (remaining : F) : option Z :=
  preservation_loop s candidates available remaining 0 0 0.

(** ** Stores *)
(** The blocks of one group to be stored, with the index of the first. *)
Definition group_store (candidates : list SnapshotBlock) (new_keys : gset OffloadKey) (g : nat) : list nat * Z :=
  let selected := filter (λ c, group c = g ∧ key c ∈ new_keys) candidates in
  (concat (source_block_ids <$> selected), match selected with [] => 0 | c :: _ => block_index c end).

(** [_register_store] *)
Definition register_store (id : string) (candidates : list SnapshotBlock) : TM Metric :=
  s ← get_state;
  match od_get id (records s) with
  | None => raise AssertionError
  | Some r =>
      match Registry.snapshot r with
      | None => raise AssertionError
      | Some snapshot =>
          let ordered := py_sorted (λ a b, lexb (group a =? group b)%nat (group a <? group b)%nat (index a <? index b)%nat)
                           candidates in
          let all_keys := key <$> ordered in
          prepared ← conn (mgr (prepare_store all_keys));
          match prepared with
          | None => mret CPU_CAPACITY
          | Some out =>
              reg (Registry.retain_ready clock id (list_to_set all_keys)) ;;
              s ← get_state;
              if negb (from_option Registry.owns_preservation false (od_get id (records s))) then
                conn (mgr (complete_store (CPUManager.keys_to_store out) false)) ;;
                mret UNPROFITABLE
              else
                let writing := filter (λ k, is_writing s k = true) all_keys in
                update id (λ r, Registry.set_pending_retention (list_to_set writing ∪ Registry.pending_retention r) r) ;;
                s ← get_state;
                if bool_decide (CPUManager.keys_to_store out = []) then
                  mret (match od_get id (records s) with
                        | Some r => if bool_decide (Registry.retained r ∪ Registry.pending_retention r = ∅)
                                    then UNPROFITABLE else SELECTED
                        | None => UNPROFITABLE
                        end)
                else
                  let new_keys : gset OffloadKey := list_to_set (CPUManager.keys_to_store out) in
                  let config := config (native s) in
                  let parts := group_store ordered new_keys <$> seq 0 (length (kv_group_configs config)) in
                  let sources := concat (fst <$> parts) in
                  job_id ← conn generate_job_id;
                  conn (modify (λ n, put_jobs (od_set job_id
                    (mkJob (req_context snapshot) (num_workers config) new_keys true None None) (jobs n)) n)) ;;
                  modify (λ s, put_detached (od_set job_id
                    (mkDetached (lifecycle_id (Registry.metadata r)) (req_context snapshot) sources) (detached s)) s) ;;
                  conn (forM sources (watch job_id)) ;;
                  modify (λ s, put_unpublished (od_set job_id
                    (mkTransferJob (req_context snapshot)
                       (mkGPUSpec sources ((λ p, zlen p.1) <$> parts) (snd <$> parts)) (store_spec out))
                    (unpublished s)) s) ;;
                  s ← get_state;
                  update id (Registry.set_last_store_step (step s)) ;;
                  modify (λ s, let l := (recent_stores s ++ [step s])%list in put_recent (drop (length l - 96) l) s) ;;
                  mret SELECTED
          end
      end
  end.

(** ** The evaluation *)
(** What the evaluation reads of the engine's scheduler. *)
Context (scheduler : Scheduler F) (set_order : gset string → list string) (lt_id : bool).

(** [waiting_pressure(scheduler, ...)], computed at its first use. *)
Definition get_pressure (pressure : option (Pressure F)) : TM (Pressure F) :=
  match pressure with
  | Some p => mret p
  | None =>
      s ← get_state;
      match waiting_pressure set_order lt_id (eviction_window_blocks (settings s)) (temporal_selection s) scheduler with
      | Ret p _ => mret p
      | Exc e _ => raise e
      end
  end.

Definition agent_score (r : Registry.Lifecycle F) : F :=
  match allocator scheduler with
  | inl _ => f_of_Z 0
  | inr c => default (f_of_Z 0) (od_get (agent_type (Registry.metadata r)) (plan_scores (Controller.plan c)))
  end.

Definition churn_penalty (s : TokenCakeOffloadingScheduler) (r : Registry.Lifecycle F) : F :=
  fadd (if step s - Registry.last_store_step r <=? 4 then f_lit 15 10 else f_of_Z 0)
    (py_min (f_of_Z 4) (int_truediv (Z.max 0 (zlen (recent_stores s) - 64)) 8)).

(** The end of an iteration: the decision is counted and remembered. *)
Definition settle (id : string) (signature : list Z) (reason : Metric) : TM unit :=
  countM reason 1 ;;
  s ← get_state;
  update id (λ r,
    if decide (reason = SELECTED) then Registry.set_backoff_signature None r
    else Registry.set_next_evaluation_step (step s + backoff_steps (settings s))
           (Registry.set_backoff_signature (Some signature) r)).

(** The part of an iteration that weighs a snapshot and starts its store. *)
Definition weigh (id : string) (r : Registry.Lifecycle F) (p : Pressure F) (available : Z) : TM Metric :=
  match Registry.started_at r with
  | None => raise AssertionError
  | Some started_at =>
      now ← reg (Registry.read_clock clock);
      let remaining := py_max (f_of_Z 0) (fsub (fadd started_at (Registry.predicted_duration r)) now) in
      candidates ← snapshot_candidates r;
      s ← get_state;
      limit ← (if truthy (max_relief_blocks (settings s))
               then mret (Z.min (fit_demand p) (max_relief_blocks (settings s)))
               else or_raise ZeroDivisionError (preservation_limit s candidates available remaining));
      let bounded := bound_candidates (config (native s)) candidates limit in
      (if negb (bool_decide (candidates = [])) && (0 <? limit) && bool_decide (bounded = [])
       then countM PREFIX_GAP 1 else mret tt) ;;
      let gpu_blocks := zlen bounded * block_size_factor (config (native s)) in
      let new_count := zlen (filter (λ c, is_absent s (key c) = true) bounded) in
      transfer_time ← or_raise ZeroDivisionError (round_trip s new_count (zlen bounded));
      let decision :=
        evaluate_benefit (settings s) (Registry.metadata r) p gpu_blocks available new_count remaining transfer_time
          (agent_score r) (churn_penalty s r) in
      let reason := if fit_demand p =? 0 then NO_WAITING_DEMAND else reason decision in
      if decide (reason = SELECTED) then
        restore ← or_raise ZeroDivisionError
          (estimate_transfer s (zlen bounded + Z.of_nat (size (Registry.retained r))) h2d);
        reg (Registry.set_h2d_estimate clock id restore) ;;
        s ← get_state;
        if from_option Registry.owns_preservation false (od_get id (records s))
        then register_store id bounded else mret SELECTED
      else mret reason
  end.

(** One iteration of [evaluate_pending]. *)
Definition evaluate1 (pressure : option (Pressure F)) (id : string) : TM (option (Pressure F)) :=
  update id (Registry.set_pending_evaluation false) ;;
  s ← get_state;
  match od_get id (records s) with
  | None => mret pressure
  | Some r =>
      if negb (Registry.owns_preservation r) then mret pressure
      else if negb (bool_decide (Registry.retained r ∪ Registry.pending_retention r = ∅)) then mret pressure
      else if negb (offload_eligible (Registry.metadata r)) || negb (reusable_prefix (Registry.metadata r))
      then countM NOT_ELIGIBLE 1 ;; mret pressure
      else if Registry.is_none (Registry.snapshot r) then countM EMPTY 1 ;; mret pressure
      else
        p ← get_pressure pressure;
        let available := cpu_available s in
        let sig := (signature p ++ [available])%list in
        if bool_decide (Registry.backoff_signature r = Some sig) && (step s <? Registry.next_evaluation_step r)
        then countM BACKOFF 1 ;; mret (Some p)
        else
          reason ← weigh id r p available;
          settle id sig reason ;; mret (Some p)
  end.

(** The stores of the last steps. *)
Fixpoint drop_old (step : Z) (l : list Z) : list Z :=
  match l with
  | x :: l' => if 4 <? step - x then drop_old step l' else l
  | [] => []
  end.

(** [_observe_frontier] *)
Definition known_hashes (s : TokenCakeOffloadingScheduler) : gset BlockHashWithGroupId :=
  list_to_set (concat ((λ r,
    if Registry.owns_preservation r then
      match Registry.snapshot r with
      | Some snap => omap id (concat (concat (sg_gpu_hashes <$> Lifecycle.groups snap)))
      | None => []
      end
    else []) <$> od_values (records s))).
Definition observe_frontier : TM unit :=
  match pool with
  | None => raise AssertionError
  | Some p =>
      s ← get_state;
      let known := known_hashes s in
      if bool_decide (known = ∅) then mret tt
      else
        match peek_free_block_frontier (eviction_window_blocks (settings s)) p with
        | Exc e _ => raise e
        | Ret observed _ =>
            countM EXTERNAL (zlen (filter (λ b, from_option (λ h, negb (bool_decide (h ∈ known))) false b.2 = true) observed))
        end
  end.

(** [evaluate_pending] *)
Definition evaluate_pending (new_step : bool) : TM unit :=
  reg (Registry.expire clock) ;;
  (if new_step then modify (λ s, put_step (step s + 1) s) else mret tt) ;;
  modify (λ s, put_recent (drop_old (step s) (recent_stores s)) s) ;;
  s ← get_state;
  foldM evaluate1 None (od_keys (records s)) ;;
  observe_frontier.

(** [has_unpublished], [has_pending_work] *)
Definition has_unpublished (s : TokenCakeOffloadingScheduler) : bool := negb (bool_decide (unpublished s = [])).
Definition has_pending_work (s : TokenCakeOffloadingScheduler) : bool :=
  negb (bool_decide (detached s = [])) || negb (bool_decide (unpublished s = []))
  || negb (bool_decide (current_batch_jobs_to_flush (native s) = ∅)).

(** ** The calls of the connector *)
(** [total_num_scheduled_tokens], the sum over the scheduled requests. *)
Definition total_num_scheduled_tokens (o : SchedulerOutput) : Z := sumZ (od_values (num_scheduled_tokens o)).

(** [build_connector_meta] *)
Definition build_connector_meta (o : SchedulerOutput) : TM OffloadingConnectorMetadata :=
  s ← get_state;
  let published := unpublished s in
  put_state (put_unpublished [] s) ;;
  (if bool_decide (published = []) then mret tt else assertM (total_num_scheduled_tokens o =? 0)) ;;
  meta ← conn (Offloading.build_connector_meta live defer_store o);
  s ← get_state;
  let flush := jobs_to_flush meta ∖ list_to_set (od_keys published) in
  let flush :=
    if (total_num_scheduled_tokens o =? 0) && bool_decide (published = [])
    then flush ∪ list_to_set (od_keys (detached s)) else flush in
  (if bool_decide (flush ∩ list_to_set (od_keys (detached s)) = ∅) then mret tt else countM FENCE_WAIT 1) ;;
  mret (mkMeta (load_jobs meta) (foldl (λ d '(j, t), od_set j t d) (store_jobs meta) published) flush).

(** [try: self.manager.complete_store(...) except Exception: count; raise] *)
Definition complete_detached (ks : gset OffloadKey) : TM unit := λ s,
  match conn (mgr (complete_store (elements ks) true)) s with
  | Ret u s => Ret u s
  | Exc e s => (countM TRANSFER_FAILURE 1 ;; raise e) s
  end.

(** The completion of one worker's part of a detached store. *)
Definition detached_completed (job_id count : Z) (d : DetachedStore) : TM (gset OffloadKey) :=
  assertM (0 <? count) ;;
  j ← conn (get_job job_id);
  let pending := pending_count j - count in
  conn (modify (λ n, put_jobs (od_set job_id (put_pending_count pending j) (jobs n)) n)) ;;
  assertM (0 <=? pending) ;;
  if negb (pending =? 0) then mret ∅
  else
    complete_detached (keys j) ;;
    conn (remove_pending_job job_id (Some (source_ids d))) ;;
    modify (λ s, put_detached (od_del job_id (detached s)) s) ;;
    conn (modify (λ n, put_jobs (od_del job_id (jobs n)) n)) ;;
    countM SAVED (zlen (source_ids d)) ;;
    mret (keys j).

(** The loop over the completions: the jobs left to the connector, and the
    keys whose stores are complete. *)
Definition completion1 (acc : odict Z Z * gset OffloadKey) (jc : Z * Z) : TM (odict Z Z * gset OffloadKey) :=
  let '(job_id, count) := jc in
  s ← get_state;
  match od_get job_id (detached s) with
  | Some d => ks ← detached_completed job_id count d; mret (acc.1, acc.2 ∪ ks)
  | None =>
      let stored :=
        match od_get job_id (jobs (native s)) with
        | Some j => if is_store j && (pending_count j =? count) then keys j else ∅
        | None => ∅
        end in
      mret (od_set job_id count acc.1, acc.2 ∪ stored)
  end.

(** The lifecycles take over what they were waiting for. *)
Definition take_over (completed_keys : gset OffloadKey) (id : string) : TM unit :=
  s ← get_state;
  match od_get id (records s) with
  | None => mret tt
  | Some r =>
      let ready := Registry.pending_retention r ∩ completed_keys in
      if bool_decide (ready = ∅) then mret tt
      else
        reg (Registry.retain_ready clock id ready) ;;
        update id (λ r, Registry.set_pending_retention (Registry.pending_retention r ∖ ready) r)
  end.

(** The bandwidth estimates; an operation has a size in bytes and a time. *)
Definition observe_operation (direction : Direction) (op : Z * F) : TM unit :=
  let '(op_size, op_time) := op in
  if (op_size <=? 0) || fleb op_time (f_of_Z 0) then mret tt
  else
    sample ← or_raise ZeroDivisionError (py_div (f_of_Z op_size) op_time);
    s ← get_state;
    let d := direction_str direction in
    let previous := default sample (od_get d (bandwidth s)) in
    let alpha := ewma_alpha (settings s) in
    put_state (put_bandwidth
      (od_set d (fadd (fmul alpha sample) (fmul (fsub (f_of_Z 1) alpha) previous)) (bandwidth s)) s).
Definition observe_transfers (stats : odict string (list (Z * F))) : TM unit :=
  forM stats (λ '(name, operations),
    if bool_decide (name = "GPU_to_CPU") then forM operations (observe_operation d2h)
    else if bool_decide (name = "CPU_to_GPU") then forM operations (observe_operation h2d)
    else mret tt).

(** [update_connector_output]; [completed_jobs] is the worker metadata when it
    is the offloading connector's, [stats] its statistics when there are any. *)
Definition update_connector_output (completed_jobs : option (odict Z Z)) (stats : option (odict string (list (Z * F)))) :
    TM unit :=
  done ← foldM completion1 ([], ∅) (default [] completed_jobs);
  conn (Offloading.update_connector_output live done.1) ;;
  reg (Registry.expire clock) ;;
  s ← get_state;
  forM (od_keys (records s)) (take_over done.2) ;;
  observe_transfers (default [] stats).

(** [reset_cache] *)
Definition reset_cache : TM unit :=
  conn Offloading.reset_cache ;;
  modify (λ s, put_native (put_to_flush
    (current_batch_jobs_to_flush (native s) ∖ list_to_set (od_keys (unpublished s))) (native s)) s) ;;
  modify (λ s, put_recent [] (put_detached [] (put_unpublished [] s))) ;;
  reg (Registry.external_reset_succeeded clock).

(** [TokenCakeConnector.request_finished_all_groups] *)
Definition request_finished_all_groups (request : Request F) (block_ids : list (list nat)) : TM unit :=
  generation_finished request block_ids ;;
  conn (Offloading.request_finished (request_id request)).
End Coordinator.
Arguments TokenCakeOffloadingScheduler F P : clear implicits.
End Coordinator.
