(* ===== verification/CoordinatorFacts.v ===== *)
(** * The coordinator's estimates and choices

    What bounds a preservation: the candidates of a snapshot, the cut that
    keeps a hybrid model's groups aligned, the limit that leaves time for the
    restore; and the probe of the CPU cache that must not disturb it. *)
From Stdlib Require Import QArith.
From S2P Require Import Prelude PyFloat Hoare Metrics Protocol Config Request BlockPool Lifecycle OffloadPolicy.
From S2P Require Import CachePolicy KVCache Scoring Scheduling Pressure PressureFacts CPUManager NativeOffload.
From S2P Require Import LookupFacts OffloadKeys Coordinator.
Import Offloading Coordinator.
Local Open Scope Z_scope.

(** ** Probing the CPU cache *)
Section probe.
Context {F P : Type} `{HF : FloatOps F, HI : FloatInf F} `{HL : FloatLog1p F} `{HP : CachePolicyLaws P}.
Implicit Types (s : TokenCakeOffloadingScheduler F P) (request : Request F).

(** The groups are looked up as the connector was created to do. *)
Definition groups_set s : Prop :=
  let n := native s in
  ∃ prefix, lookup_groups n = lookup_groups (connector_init (config n) (manager n) prefix)
    ∧ sliding_window_groups n = sliding_window_groups (connector_init (config n) (manager n) prefix).

(** C37.  The estimate of what a victim would have to recompute is harmless
    and sound: it changes neither the cache (recency, reference counts, lookup
    counts) nor any request, and the tokens it takes off are tokens whose
    blocks are ready in CPU memory, in every group. *)
Theorem recompute_estimate (annotation : Request F → option (TokenCakeMetadata F)) request s r :
  groups_set s →
  update_offload_keys (config (native s)) (block_hashes request) (new_request_state (config (native s))) = Some r →
  Forall2 (group_ok (num_tokens request)) (kv_group_configs (config (native s))) (group_states r) →
  ∃ saved, estimate_recompute_tokens annotation request s
           = Ret (Z.max 0 (Z.max 0 (num_computed_tokens request) - saved)) s
    ∧ (saved = 0
       ∨ (0 < saved ≤ num_tokens request ∧ is_Some (annotation request) ∧ skip_reading_prefix_cache request = false
          ∧ Forall2 (λ c g, backed (ready_in (manager (native s))) 0 c g saved)
              (kv_group_configs (config (native s))) (group_states r))).
Proof.
  intros (prefix & Hlg & Hsw) Hr Hok. unfold estimate_recompute_tokens. cbv zeta.
  destruct (negb (defer_store annotation request) || skip_reading_prefix_cache request) eqn:Hd.
  { exists 0. split; [|by left]. cbn. f_equal. lia. }
  apply orb_false_iff in Hd as [Hd%negb_false_iff Hskip]. apply bool_decide_eq_true in Hd.
  rewrite get_bind, Hr, Hlg, Hsw.
  assert (num_locally_computed_tokens r = 0) as ->.
  { unfold update_offload_keys in Hr. destruct (mapM _ _); [|done]. cbn in Hr. by injection Hr as <-. }
  set (m := manager (native s)) in *. set (cfg := config (native s)) in *.
  destruct (connector_lookup peek_ready (ready_in m) (λ m', m' = m) cfg m prefix (num_tokens request) 0 (group_states r)
    (blocks_being_loaded (native s)) m) as (res & m' & Hrun & -> & Hres).
  - intros k m' ->. by exists m.
  - done.
  - done.
  - unfold num_tokens, zlen. lia.
  - done.
  - exists (default 0 res). split.
    + rewrite bind_unfold. unfold conn, mgr, zoom. fold m. rewrite Hrun. by destruct s as [[] ?].
    + destruct res as [n|]; [|by left]. destruct Hres as [|(? & ? & ?)]; [by left|right]. cbn.
      rewrite Z.add_0_l in *. split_and!; [lia|lia|done..].
Qed.
End probe.

(** ** Cutting a snapshot *)
Section bound.
Implicit Types (config : SchedulerOffloadConfig) (candidates : list SnapshotBlock) (b : SnapshotBlock).

(** The groups are numbered in order ([from_spec]) and the blocks not empty. *)
Definition groups_numbered config : Prop :=
  0 < block_size_factor config
  ∧ ∀ i c, kv_group_configs config !! i = Some c → group_idx c = Z.of_nat i ∧ 0 < offloaded_block_size c.

Definition of_groups config candidates : Prop :=
  Forall (λ b, is_Some (kv_group_configs config !! group b)) candidates.

(** Every group has a block boundary at the token [e]. *)
Definition aligned config (e : Z) : Prop :=
  ∀ c, c ∈ kv_group_configs config → (offloaded_block_size c | e).
(** In every group a candidate ends at [e] or beyond. *)
Definition reached config (all : list SnapshotBlock) (e : Z) : Prop :=
  ∀ i c, kv_group_configs config !! i = Some c → ∃ b, b ∈ all ∧ group b = i ∧ e ≤ end_token config b.
(** The one token at which all groups can end: the greatest that is a block
    boundary of every group and that every group reaches. *)
Record common_boundary config (all : list SnapshotBlock) (e : Z) : Prop := {
  cb_aligned : aligned config e;
  cb_reached : reached config all e;
  cb_greatest : ∀ e', aligned config e' → reached config all e' → e' ≤ e
}.
(** The window before [e] is complete in every sliding-window group. *)
Definition windows_held config (out : list SnapshotBlock) (e : Z) : Prop :=
  ∀ i c w, kv_group_configs config !! i = Some c → sliding_window_size_in_blocks c = Some w →
    ∀ j : nat, Z.max 0 (e / offloaded_block_size c - w) ≤ Z.of_nat j < e / offloaded_block_size c →
      ∃ b, b ∈ out ∧ group b = i ∧ index b = j.

(** A store of the blocks [out], chosen among [all], can be loaded as a whole:
    all groups end at their common boundary [e], exactly the candidates up to
    it are stored, and the last window of a sliding-window group is complete. *)
Record usable config (all out : list SnapshotBlock) (e : Z) : Prop := {
  us_end : common_boundary config all e;
  us_exact : ∀ b, b ∈ out ↔ b ∈ all ∧ end_token config b ≤ e;
  us_window : windows_held config out e
}.
(** There is nothing to store that could be loaded: no candidates, none in
    some group, or a window with a hole before the common boundary. *)
Definition unusable config (all : list SnapshotBlock) : Prop :=
  all = []
  ∨ (∃ i, is_Some (kv_group_configs config !! i) ∧ ∀ b, b ∈ all → group b ≠ i)
  ∨ ∃ e, common_boundary config all e ∧ ¬ windows_held config all e.

Lemma lcm_divide configs c : c ∈ configs → (offloaded_block_size c | foldr (λ c, Z.lcm (offloaded_block_size c)) 1 configs).
Proof.
  induction configs as [|c' configs IH]; [by intros ?%elem_of_nil|]. cbn [foldr]. intros [->|Hc]%elem_of_cons.
  - apply Z.divide_lcm_l.
  - eapply Z.divide_trans; [by apply IH|apply Z.divide_lcm_r].
Qed.

Lemma lcm_least configs e : (∀ c, c ∈ configs → (offloaded_block_size c | e)) →
  (foldr (λ c, Z.lcm (offloaded_block_size c)) 1 configs | e).
Proof.
  induction configs as [|c configs IH]; intros H; cbn [foldr]; [apply Z.divide_1_l|].
  apply Z.lcm_least; [apply H; by left|]. apply IH. intros c' Hc'. apply H. by right.
Qed.

Lemma lcm_positive configs : (∀ c, c ∈ configs → 0 < offloaded_block_size c) →
  0 < foldr (λ c, Z.lcm (offloaded_block_size c)) 1 configs.
Proof.
  induction configs as [|c configs IH]; intros H; cbn [foldr]; [lia|].
  assert (0 < offloaded_block_size c) by (apply H; by left).
  assert (0 < foldr (λ c, Z.lcm (offloaded_block_size c)) 1 configs) by (apply IH; intros ??; apply H; by right).
  pose proof (Z.lcm_nonneg (offloaded_block_size c) (foldr (λ c, Z.lcm (offloaded_block_size c)) 1 configs)).
  assert (Z.lcm (offloaded_block_size c) (foldr (λ c, Z.lcm (offloaded_block_size c)) 1 configs) ≠ 0)
    by (rewrite Z.lcm_eq_0; lia). lia.
Qed.

Lemma foldl_min_spec (e : Z) l : foldl Z.min e l ∈ e :: l ∧ ∀ x, x ∈ e :: l → foldl Z.min e l ≤ x.
Proof.
  revert e. induction l as [|y l IH]; intros e; cbn [foldl].
  { split; [by left|]. intros x ->%list_elem_of_singleton. done. }
  destruct (IH (Z.min e y)) as [Hin Hle]. split.
  - apply elem_of_cons in Hin as [->|Hin]; [|by do 2 right].
    destruct (Z.min_spec e y) as [[_ ->]|[_ ->]]; [by left|by right; left].
  - intros x Hx. pose proof (Hle (Z.min e y) ltac:(by left)).
    apply elem_of_cons in Hx as [->|[->|Hx]%elem_of_cons]; [lia|lia|]. apply Hle. by right.
Qed.

Lemma foldr_max_in (l : list nat) : l ≠ [] → foldr Nat.max 0%nat l ∈ l.
Proof.
  induction l as [|x [|y l] IH]; [done|intros _; cbn; rewrite Nat.max_0_r; by left|intros _].
  specialize (IH ltac:(done)). change (foldr Nat.max 0%nat (x :: y :: l)) with (x `max` foldr Nat.max 0%nat (y :: l))%nat.
  destruct (Nat.max_spec x (foldr Nat.max 0%nat (y :: l))) as [[_ ->]|[_ ->]]; [by right|by left].
Qed.
Lemma foldr_max_ge (l : list nat) x : x ∈ l → (x ≤ foldr Nat.max 0%nat l)%nat.
Proof. induction l as [|y l IH]; [by intros ?%elem_of_nil|]. cbn. intros [->|H%IH]%elem_of_cons; lia. Qed.

Lemma elem_of_indices config i c candidates j : groups_numbered config → kv_group_configs config !! i = Some c →
  j ∈ indices_of c candidates ↔ ∃ b, b ∈ candidates ∧ group b = i ∧ index b = j.
Proof.
  intros [_ Hn] Hc. destruct (Hn i c Hc) as [Hi _]. unfold indices_of. rewrite list_elem_of_fmap.
  setoid_rewrite list_elem_of_filter. rewrite Hi. split.
  - intros (b & -> & Hb & Hin). exists b. split_and!; [done|lia|done].
  - intros (b & Hin & <- & <-). exists b. done.
Qed.

(** The code's test for a group without candidates. *)
Lemma group_missing config candidates : groups_numbered config →
  existsb (λ l, bool_decide (l = [])) ((λ c, indices_of c candidates) <$> kv_group_configs config) = true
  ↔ ∃ i, is_Some (kv_group_configs config !! i) ∧ ∀ b, b ∈ candidates → group b ≠ i.
Proof.
  intros Hn. rewrite existsb_exists. split.
  - intros (l & Hin%list_elem_of_In & Hl%bool_decide_eq_true).
    apply list_elem_of_fmap in Hin as (c & Hlc & (i & Hi)%list_elem_of_lookup). exists i. split; [by eexists|].
    intros b Hb Hbi. apply (not_elem_of_nil (index b)). rewrite <-Hl, Hlc.
    apply (elem_of_indices config i c); [done..|]. by exists b.
  - intros (i & [c Hc] & Hnone). exists (indices_of c candidates). split.
    + rewrite <-list_elem_of_In. apply (list_elem_of_fmap_2 (λ c, indices_of c candidates)). by eapply list_elem_of_lookup_2.
    + apply bool_decide_eq_true. destruct (indices_of c candidates) as [|j l] eqn:E; [done|].
      assert (j ∈ indices_of c candidates) as Hj by (rewrite E; by left).
      apply (elem_of_indices config i c) in Hj as (b & Hb & Hbi & _); [|done..]. by destruct (Hnone b Hb).
Qed.

(** The token the last candidate of a group ends at. *)
Definition group_end candidates (c : GroupOffloadConfig) : Z :=
  Z.of_nat (S (foldr Nat.max 0%nat (indices_of c candidates))) * offloaded_block_size c.

Lemma group_end_spec config i c candidates : groups_numbered config → kv_group_configs config !! i = Some c →
  indices_of c candidates ≠ [] →
  (∃ b, b ∈ candidates ∧ group b = i ∧ end_token config b = group_end candidates c)
  ∧ ∀ b, b ∈ candidates → group b = i → end_token config b ≤ group_end candidates c.
Proof.
  intros Hn Hc Hne. pose proof (proj2 Hn i c Hc) as [_ Hs]. unfold end_token, group_size, group_end. split.
  - apply foldr_max_in, (elem_of_indices config i c) in Hne as (b & Hin & Hb & Hj); [|done..].
    exists b. rewrite Hb, Hc, Hj. done.
  - intros b Hin Hb. rewrite Hb, Hc. cbn [from_option].
    enough (index b ≤ foldr Nat.max 0%nat (indices_of c candidates))%nat by nia.
    apply foldr_max_ge, (elem_of_indices config i c); [done..|]. by exists b.
Qed.

(** The end the code computes is the common boundary. *)
Lemma common_end_spec config candidates : groups_numbered config → kv_group_configs config ≠ [] →
  (∀ c, c ∈ kv_group_configs config → indices_of c candidates ≠ []) →
  common_boundary config candidates
    (common_end (kv_group_configs config) ((λ c, indices_of c candidates) <$> kv_group_configs config)).
Proof.
  intros Hn Hcfg Hne. set (configs := kv_group_configs config) in *.
  assert (0 < foldr (λ c, Z.lcm (offloaded_block_size c)) 1 configs) as Hpos.
  { apply lcm_positive. intros c (i & Hi)%list_elem_of_lookup. by apply (proj2 Hn i c Hi). }
  set (al := foldr _ 1 configs) in *. unfold common_end. fold al.
  assert (zip_with (λ c l, Z.of_nat (S (foldr Nat.max 0%nat l)) * offloaded_block_size c) configs
            ((λ c, indices_of c candidates) <$> configs) = group_end candidates <$> configs) as ->.
  { by rewrite zip_with_fmap_r, zip_with_diag. }
  destruct (group_end candidates <$> configs) as [|e ends] eqn:Hends; [by apply fmap_nil_inv in Hends|].
  destruct (foldl_min_spec e ends) as [Hin Hle]. set (low := foldl Z.min e ends) in *.
  pose proof (Z.mul_div_le low al Hpos) as Hlow.
  assert (∀ i c, configs !! i = Some c → low ≤ group_end candidates c) as Hgroup.
  { intros i c Hc. apply Hle. rewrite <-Hends. apply list_elem_of_fmap_2. by eapply list_elem_of_lookup_2. }
  split.
  - intros c Hc. by apply Z.divide_mul_r, lcm_divide.
  - intros i c Hc. destruct (group_end_spec config i c candidates) as [(b & Hb & Hi & He) _];
      [done|done|by apply Hne; eapply list_elem_of_lookup_2|].
    exists b. split_and!; [done..|]. rewrite He. specialize (Hgroup i c Hc). lia.
  - intros e' Hal Hre. apply lcm_least in Hal as [k Hk]. fold configs al in Hk.
    rewrite <-Hends in Hin. apply list_elem_of_fmap in Hin as (c & Hc & (i & Hi)%list_elem_of_lookup).
    destruct (Hre i c Hi) as (b & Hb & Hbi & Hbe).
    destruct (group_end_spec config i c candidates) as [_ Hmax]; [done|done|by apply Hne; eapply list_elem_of_lookup_2|].
    specialize (Hmax b Hb Hbi). rewrite <-Hc in Hmax.
    assert (k ≤ low / al) by (apply Z.div_le_lower_bound; lia). nia.
Qed.

(** The code's test for the windows. *)
Lemma window_complete_spec config candidates e : groups_numbered config →
  forallb (λ '(c, l), window_complete e c l)
    (zip (kv_group_configs config) ((λ c, indices_of c candidates) <$> kv_group_configs config)) = true
  ↔ windows_held config candidates e.
Proof.
  intros Hn. rewrite forallb_forall. split.
  - intros Hall i c w Hc Hw j Hj. specialize (Hall (c, indices_of c candidates)).
    rewrite <-list_elem_of_In in Hall. cbv beta iota in Hall.
    assert (window_complete e c (indices_of c candidates) = true) as Hwc.
    { apply Hall, list_elem_of_lookup. exists i. by rewrite lookup_zip_with, Hc, list_lookup_fmap, Hc. }
    unfold window_complete in Hwc. rewrite Hw, forallb_forall in Hwc.
    specialize (Hwc (Z.of_nat j)). rewrite <-list_elem_of_In, elem_of_seqZ in Hwc. specialize (Hwc ltac:(lia)).
    apply bool_decide_eq_true in Hwc. rewrite Nat2Z.id in Hwc. by apply (elem_of_indices config i c candidates j Hn Hc).
  - intros Hheld [c l]. rewrite <-list_elem_of_In. intros (i & Hi)%list_elem_of_lookup.
    rewrite lookup_zip_with, list_lookup_fmap in Hi. destruct (kv_group_configs config !! i) as [c'|] eqn:Hc; [|done].
    cbn in Hi. injection Hi as <- <-. unfold window_complete.
    destruct (sliding_window_size_in_blocks c') as [w|] eqn:Hw; [|done].
    apply forallb_forall. intros k. rewrite <-list_elem_of_In, elem_of_seqZ. intros Hk. apply bool_decide_eq_true.
    apply (elem_of_indices config i c' candidates _ Hn Hc), (Hheld i c' w Hc Hw). lia.
Qed.

(** A block before the end of a group lies before the end. *)
Lemma end_token_le config i c b e : groups_numbered config → kv_group_configs config !! i = Some c →
  group b = i → Z.of_nat (index b) < e / offloaded_block_size c → end_token config b ≤ e.
Proof.
  intros [_ Hn] Hc <- Hj. destruct (Hn _ c Hc) as [_ Hs]. unfold end_token, group_size. rewrite Hc. cbn.
  pose proof (Z.mul_div_le e (offloaded_block_size c) Hs). nia.
Qed.

(** The windows that are complete stay so when the blocks beyond are cut. *)
Lemma windows_held_cut config all e : groups_numbered config → windows_held config all e →
  windows_held config (filter (λ b, end_token config b ≤ e) all) e.
Proof.
  intros Hn Hheld i c w Hc Hw j Hj. destruct (Hheld i c w Hc Hw j Hj) as (b & Hb & Hbi & Hbj).
  exists b. split; [|done]. apply list_elem_of_filter. split; [|done]. apply (end_token_le config i c); [done..|]. lia.
Qed.

(** One full-attention group: any prefix of the snapshot will do. *)
Lemma single_usable config c all : groups_numbered config → of_groups config all → all ≠ [] →
  kv_group_configs config = [c] → sliding_window_size_in_blocks c = None → ∃ e, usable config all all e.
Proof.
  intros Hn Hall Hne Hcfg Hw. unfold of_groups in Hall. rewrite Forall_forall in Hall.
  assert (∀ b, b ∈ all → group b = 0%nat) as Hzero.
  { intros b [c' Hc']%Hall. rewrite Hcfg in Hc'. by destruct (group b). }
  assert (kv_group_configs config !! 0%nat = Some c) as H0 by (by rewrite Hcfg).
  assert (indices_of c all ≠ []) as Hi.
  { destruct all as [|b all]; [done|]. intros Hnil. apply (not_elem_of_nil (index b)). rewrite <-Hnil.
    apply (elem_of_indices config 0 c); [done..|]. exists b. split; [by left|]. split; [apply Hzero; by left|done]. }
  destruct (group_end_spec config 0 c all Hn H0 Hi) as [(b & Hb & Hg & He) Hmax].
  exists (group_end all c). split.
  - split.
    + intros c' Hc'. rewrite Hcfg in Hc'. apply list_elem_of_singleton in Hc' as ->. apply Z.divide_factor_r.
    + intros i c' Hc'. rewrite Hcfg in Hc'. destruct i; [|done]. exists b. rewrite He. done.
    + intros e' _ Hre. destruct (Hre 0%nat c H0) as (b' & Hb' & Hg' & ?). specialize (Hmax b' Hb' Hg'). lia.
  - intros b'. split; [|by intros [? _]]. intros Hb'. split; [done|]. by apply Hmax, Hzero.
  - intros i c' w Hc' Hw'. rewrite Hcfg in Hc'. destruct i; [|done]. injection Hc' as <-. congruence.
Qed.

(** C38.  A store that has been cut to fit never leaves dead data.  Within
    the limit on GPU blocks, either what is stored can be loaded as a whole:
    all groups end at one token, the greatest block boundary of every group
    that a candidate of every group reaches; exactly the candidates up to it
    are kept; and every sliding-window group keeps the complete window before
    it.  Or nothing is stored, and then there was nothing to keep: no
    candidates, none in some group, or a hole in a window before that token. *)
Theorem bounded_usable config candidates limit :
  groups_numbered config → of_groups config candidates → 0 ≤ limit →
  let all := take (Z.to_nat (limit / block_size_factor config)) candidates in
  let out := bound_candidates config candidates limit in
  zlen out * block_size_factor config ≤ limit
  ∧ ((∃ e, usable config all out e) ∨ out = [] ∧ unusable config all).
Proof.
  intros Hn Hg Hl. cbv zeta. pose proof Hn as [Hf Hidx]. unfold bound_candidates.
  assert (0 ≤ limit / block_size_factor config) as Hq by (by apply Z.div_pos).
  unfold slice_to. rewrite (proj2 (Z.ltb_ge _ 0)) by done.
  set (all := take _ candidates).
  assert (zlen all * block_size_factor config ≤ limit) as Hlen.
  { unfold all, zlen. rewrite length_take. pose proof (Z.mul_div_le limit _ Hf). nia. }
  assert (of_groups config all) as Hga by (by apply Forall_take).
  assert (∀ l : list SnapshotBlock, l = [] → zlen l * block_size_factor config ≤ limit) as Hnil by (by intros ? ->).
  destruct (decide (all = [])) as [Hall|Hall].
  { rewrite bool_decide_eq_true_2 by done. rewrite Hall. split; [by apply Hnil|]. right. split; [done|by left]. }
  rewrite bool_decide_eq_false_2 by done. cbn [orb]. destruct (match _ with [] => _ | _ => _ end) eqn:Hs.
  { split; [done|left]. destruct (kv_group_configs config) as [|c [|]] eqn:Hc; [done| |done].
    apply bool_decide_eq_true in Hs. by apply (single_usable config c). }
  destruct (existsb _ _) eqn:Hex.
  { split; [by apply Hnil|]. right. split; [done|]. right. left.
    by apply (group_missing config all Hn). }
  assert (common_boundary config all
    (common_end (kv_group_configs config) ((λ c, indices_of c all) <$> kv_group_configs config))) as Hcb.
  { apply common_end_spec; [done| |].
    - intros Hc. destruct all as [|b all']; [done|]. apply Forall_inv in Hga as [c' Hc']. by rewrite Hc in Hc'.
    - intros c Hc Hic. rewrite (proj2 (group_missing config all Hn)) in Hex; [done|].
      apply list_elem_of_lookup in Hc as [i Hi]. exists i. split; [by eexists|]. intros b Hb Hbi.
      apply (not_elem_of_nil (index b)). rewrite <-Hic. apply (elem_of_indices config i c); [done..|]. by exists b. }
  set (e := common_end _ _) in *. destruct (forallb _ _) eqn:Hwin.
  - apply window_complete_spec in Hwin; [|done]. split.
    { enough (length (filter (λ c, (end_token config c ≤ e)%Z) all) ≤ length all)%nat by (unfold zlen in *; nia). apply length_filter. }
    left. exists e. split; [done| |by apply windows_held_cut]. intros b. rewrite list_elem_of_filter. tauto.
  - split; [by apply Hnil|]. right. split; [done|]. right. right. exists e. split; [done|].
    rewrite <-(window_complete_spec config all e Hn). unfold e in *. by rewrite Hwin.
Qed.
End bound.

(** ** The limit on a preservation *)
Section limit.
Context {F P : Type} `{HF : FloatOps F, HI : FloatInf F} `{HL : FloatLog1p F} `{HP : CachePolicy P}.
Implicit Types (s : TokenCakeOffloadingScheduler F P) (candidates : list SnapshotBlock).

(** The candidates that are not in CPU memory yet. *)
Definition new_blocks s candidates : Z := zlen (filter (λ c, is_absent s (key c) = true) candidates).

(** Preserving [chosen] fits: the new blocks in the CPU pool, and the store and
    the later load in the stall, with as much time again as they take, or
    50 ms, left over. *)
Definition fits s (available : Z) (remaining : F) (chosen : list SnapshotBlock) : Prop :=
  ∃ t, round_trip s (new_blocks s chosen) (zlen chosen) = Some t
    ∧ new_blocks s chosen ≤ available
    ∧ fltb (fsub remaining t) (py_max (f_lit 5 100) (fmul (f_of_Z 2) t)) = false.

Lemma new_blocks_snoc s l c : new_blocks s (l ++ [c]) = new_blocks s l + (if is_absent s (key c) then 1 else 0).
Proof.
  unfold new_blocks, zlen. rewrite filter_app, length_app, filter_cons, filter_nil.
  destruct (is_absent s (key c)); cbn [decide]; case_decide; cbn [length]; (done || lia).
Qed.

Lemma preservation_loop_spec s available remaining factor before candidates limit :
  block_size_factor (config (native s)) = factor →
  preservation_loop s candidates available remaining (zlen before) (new_blocks s before) (zlen before * factor)
    = Some limit →
  ∃ chosen rest, candidates = chosen ++ rest ∧ limit = zlen (before ++ chosen) * factor
    ∧ (∀ l, l ≠ [] → l `prefix_of` chosen → fits s available remaining (before ++ l))
    ∧ (∀ c, head rest = Some c → ¬ fits s available remaining (before ++ chosen ++ [c])).
Proof.
  intros Hf. revert before. induction candidates as [|c candidates IH]; intros before; cbn [preservation_loop].
  { intros [= <-]. exists [], []. split_and!; [done|by rewrite app_nil_r| |done].
    intros l Hne Hp. by apply prefix_nil_inv in Hp. }
  set (count := zlen before + 1). set (nc := new_blocks s before + _).
  assert (zlen (before ++ [c]) = count) as Hcount by (unfold count, zlen; rewrite length_app; cbn; lia).
  assert (new_blocks s (before ++ [c]) = nc) as Hnc by (apply new_blocks_snoc).
  destruct (round_trip s nc count) as [t|] eqn:Ht; [|done]. cbn [mbind option_bind].
  destruct ((available <? nc) || _) eqn:Hstop.
  - intros [= <-]. exists [], (c :: candidates). split_and!; [done|by rewrite app_nil_r| |].
    + intros l Hne Hp. by apply prefix_nil_inv in Hp.
    + intros c' [= <-] (t' & Ht' & Hav & Htime). cbn [app] in *. rewrite Hnc, Hcount in Ht'. assert (t' = t) as -> by congruence.
      rewrite Htime in Hstop. rewrite Hnc in Hav. rewrite orb_false_r in Hstop. apply Z.ltb_lt in Hstop. lia.
  - rewrite Hf, <-Hcount, <-Hnc. intros (chosen & rest & -> & -> & Hin & Hout)%IH.
    exists (c :: chosen), rest. rewrite <-!(assoc_L (++)) in *. cbn [app] in *. split_and!; [done|done| |].
    + intros l Hne Hp. destruct l as [|c' l]; [done|]. apply prefix_cons_inv_1 in Hp as Hc. subst c'.
      apply prefix_cons_inv_2 in Hp. destruct (decide (l = [])) as [->|Hl].
      * apply orb_false_iff in Hstop as [Hav%Z.ltb_ge Htime]. exists t. rewrite Hnc, Hcount. done.
      * specialize (Hin l Hl Hp). by rewrite <-(assoc_L (++)) in Hin.
    + intros c' Hc'. specialize (Hout c' Hc'). by rewrite <-?(assoc_L (++)) in Hout.
Qed.

(** The automatic limit is as large as it safely can be: it covers the
    longest prefix of the snapshot each of whose parts fits in the CPU pool
    and in what remains of the stall; one candidate more would not fit. *)
Theorem preservation_limit_exact s candidates available remaining limit :
  preservation_limit s candidates available remaining = Some limit →
  ∃ chosen rest, candidates = chosen ++ rest ∧ limit = zlen chosen * block_size_factor (config (native s))
    ∧ (∀ l, l ≠ [] → l `prefix_of` chosen → fits s available remaining l)
    ∧ (∀ c, head rest = Some c → ¬ fits s available remaining (chosen ++ [c])).
Proof. by apply (preservation_loop_spec s available remaining (block_size_factor (config (native s))) []). Qed.
End limit.
