(* ===== verification/CoordinatorState.v ===== *)
(** * The invariant of the coordinator

    The registry and the connector share the CPU manager, and the coordinator's
    stores share the connector's tables.  Seen from the connector the
    lifecycles and the detached stores are [Guests]; seen from the registry
    everything else is the manager's business. *)
From S2P Require Import Prelude Hoare PyFloat CachePolicy Request BlockPool KVCache CPUManager Lifecycle LifecycleFacts RetentionFacts.
From S2P Require Import NativeOffload OffloadKeys OffloadRefs OffloadJobs OffloadSteps OffloadTraces OffloadGuests.
From S2P Require Import Scoring Coordinator.
Import Offloading Coordinator.
Local Open Scope Z_scope.

(** ** Snapshots

    Their keys are distinct and so are their blocks, null blocks apart; the
    hashes were read block by block. *)
Record snapshot_wf (p : PrefixSnapshot) : Prop := {
  sw_keys : NoDup (concat (sg_keys <$> Lifecycle.groups p));
  sw_blocks : NoDup (nonzero (concat ((λ g, concat (sg_block_ids g)) <$> Lifecycle.groups p)));
  sw_hashes : Forall (λ g, Forall2 (λ ids hs, length ids = length hs) (sg_block_ids g) (sg_gpu_hashes g)) (Lifecycle.groups p)
}.
#[export] Instance coordinator_snapshots : SnapshotLaw := snapshot_wf.

Section state.
Context {F P : Type} `{HF : FloatOps F, HI : FloatInf F} `{HL : FloatLog1p F} `{HP : CachePolicyLaws P}.
Implicit Types (s : TokenCakeOffloadingScheduler F P) (closed : gset string) (hashes : string → list (list Z))
  (r : Registry.LifecycleRegistry F P).

Definition cpu s : CPUOffloadingManager P := manager (native s).

(** What the connector sees of the lifecycles and the detached stores. *)
Definition reads_of (d : odict Z DetachedStore) : gmap Z (gset nat) :=
  list_to_map ((λ p, (p.1, list_to_set (source_ids p.2))) <$> d).
Definition guests_of s : Guests :=
  {| owned := held (records s); owned_nonneg := held_nonneg (records s); guest_reads := reads_of (detached s) |}.

Lemma reads_lookup d i : reads_of d !! i = (λ x, list_to_set (source_ids x)) <$> od_get i d.
Proof.
  unfold reads_of. induction d as [|[j x] d IH]; cbn; [apply lookup_empty|]. case_decide as Hj.
  - subst. by rewrite lookup_insert_eq.
  - by rewrite lookup_insert_ne.
Qed.

Lemma elem_of_detached s i : i ∈ guests (HG := guests_of s) ↔ is_Some (od_get i (detached s)).
Proof. rewrite elem_of_guests. cbn. rewrite reads_lookup. by rewrite fmap_is_Some. Qed.

Record coord_ok closed hashes s : Prop := {
  ck_conn : conn_ok (HG := guests_of s) closed hashes (native s);
  ck_recs : reg_base (lifecycles s);
  ck_wf : od_wf (detached s);
  ck_sources : ∀ i d, od_get i (detached s) = Some d → NoDup (source_ids d);
  ck_unpublished : ∀ i, is_Some (od_get i (unpublished s)) → is_Some (od_get i (detached s))
}.

(** ** The registry's part *)
Lemma coord_cover closed hashes s : coord_ok closed hashes s → cover (registry s).
Proof.
  intros Hok. pose proof (co_jobs _ _ _ (ck_conn _ _ _ Hok)) as Hj. cbn. split; [apply Hj|]. intros k Hk.
  change (0 < held (records s) k) in Hk. pose proof (loads_nonneg (jobs (native s)) k).
  destruct (jo_loads _ _ Hj k) as (z & Hz & Hle); [cbn; lia|]. cbn in Hle. unfold ref_of in Hz.
  destruct (block_of k (manager (native s))) as [b|]; [|done]. injection Hz as <-. exists b. split; [done|].
  change (held (records s) k ≤ CachePolicy.ref_cnt b). lia.
Qed.

Lemma coord_registry closed hashes s : coord_ok closed hashes s → reg_ok (registry s).
Proof. intros Hok. split; [|by eapply coord_cover]. destruct (ck_recs _ _ _ Hok). by split. Qed.

(** A step of the registry, on the shared manager; most do not add a record. *)
Definition reg_move s s' : Prop := ∃ r, s' = put_registry r s ∧ reg_ok r ∧ balanced (registry s) r.
Definition reg_step s s' : Prop :=
  ∃ r, s' = put_registry r s ∧ reg_ok r ∧ balanced (registry s) r ∧ zlen (Registry.records r) ≤ zlen (records s).

Lemma reg_step_move s s' : reg_step s s' → reg_move s s'.
Proof. intros (r & ? & ? & ? & _). by exists r. Qed.

Lemma reg_move_native s s' : reg_move s s' →
  ∃ m, native s' = put_manager m (native s) ∧ detached s' = detached s ∧ unpublished s' = unpublished s
    ∧ step s' = step s ∧ mgr_wf m
    ∧ (∀ k, ref_of k m = (λ z, z + (held (records s') k - held (records s) k)) <$> ref_of k (cpu s))
    ∧ (∀ k, 0 < held (records s') k → ∃ z, ref_of k m = Some z ∧ held (records s') k ≤ z)
    ∧ reg_base (lifecycles s').
Proof.
  intros (r & -> & [Hb Hc] & Hbal). unfold balanced in Hbal. unfold cover in Hc. unfold put_registry.
  cbn [registry Registry.put_manager Registry.manager] in Hbal.
  destruct (Registry.manager r) as [m|]; [|done]. exists m. destruct Hc as [Hm Hc]. split_and!; try done.
  intros k Hk. destruct (Hc k Hk) as (b & Hkb & Hle). exists (CachePolicy.ref_cnt b). unfold ref_of. by rewrite Hkb.
Qed.

Lemma reg_step_native s s' : reg_step s s' →
  ∃ m, native s' = put_manager m (native s) ∧ detached s' = detached s ∧ unpublished s' = unpublished s
    ∧ step s' = step s ∧ mgr_wf m
    ∧ (∀ k, ref_of k m = (λ z, z + (held (records s') k - held (records s) k)) <$> ref_of k (cpu s))
    ∧ (∀ k, 0 < held (records s') k → ∃ z, ref_of k m = Some z ∧ held (records s') k ≤ z)
    ∧ reg_base (lifecycles s') ∧ zlen (records s') ≤ zlen (records s).
Proof.
  intros Hst. destruct (reg_move_native _ _ (reg_step_move _ _ Hst)) as (m & ? & ? & ? & ? & ? & ? & ? & ?).
  exists m. split_and!; try done. destruct Hst as (r & -> & _ & _ & Hlen). unfold put_registry. by destruct (Registry.manager r).
Qed.

Lemma held_le recs k : held (F := F) recs k ≤ zlen recs.
Proof.
  induction recs as [|[i x] recs IH]; [done|]. pose proof (held1_nonneg k x).
  change (held ((i, x) :: recs) k) with (held1 k x + held recs k). unfold zlen in *. cbn [length]. lia.
Qed.

(** Blocks being written are held by no lifecycle. *)
Lemma writing_unheld closed hashes s k : coord_ok closed hashes s → ref_of k (cpu s) = Some (-1) → held (records s) k = 0.
Proof.
  intros Hok Hk. pose proof (held_nonneg (records s) k). destruct (decide (0 < held (records s) k)) as [Hpos|]; [|lia].
  destruct (coord_cover _ _ _ Hok) as [_ Hc]. destruct (Hc k Hpos) as (b & Hb & Hle). unfold ref_of, cpu in Hk.
  cbn in Hb. rewrite Hb in Hk. cbn in Hk. injection Hk as Hk. change (held (records s) k ≤ CachePolicy.ref_cnt b) in Hle. lia.
Qed.

Lemma reg_move_writing closed hashes s s' k :
  coord_ok closed hashes s → reg_move s s' → ref_of k (cpu s) = Some (-1) → ref_of k (cpu s') = Some (-1).
Proof.
  intros Hok Hst Hk. pose proof (writing_unheld _ _ _ _ Hok Hk) as Hh.
  destruct (reg_move_native _ _ Hst) as (m & En & _ & _ & _ & _ & Hrefs & Hcov & _). unfold cpu at 1. rewrite En. cbn.
  rewrite Hrefs, Hk, Hh. cbn. f_equal. pose proof (held_nonneg (records s') k).
  destruct (decide (0 < held (records s') k)) as [Hpos|]; [|lia]. destruct (Hcov k Hpos) as (z & Hz & Hle).
  rewrite Hrefs, Hk, Hh in Hz. cbn in Hz. injection Hz as <-. lia.
Qed.

Lemma reg_step_none s s' k : reg_step s s' → ref_of k (cpu s') = None ↔ ref_of k (cpu s) = None.
Proof.
  intros (m & En & _ & _ & _ & _ & Hrefs & _)%reg_step_native. unfold cpu at 1. rewrite En. cbn. rewrite Hrefs.
  by destruct (ref_of k (cpu s)).
Qed.

Lemma reg_step_writing closed hashes s s' k :
  coord_ok closed hashes s → reg_step s s' → ref_of k (cpu s) = Some (-1) → ref_of k (cpu s') = Some (-1).
Proof. intros Hok Hst%reg_step_move. by eapply reg_move_writing. Qed.

Lemma coord_reg_move closed hashes s s' : coord_ok closed hashes s → reg_move s s' → coord_ok closed hashes s'.
Proof.
  intros Hok Hst. pose proof (λ k, reg_move_writing closed hashes s s' k Hok Hst) as Hwr.
  destruct (reg_move_native _ _ Hst) as (m & En & Ed & Eu & _ & Hm & Hrefs & Hcov & Hb).
  pose proof Hok as [Hc _ Hwf Hsrc Hunp]. split; rewrite ?Ed, ?Eu; try done. rewrite En.
  apply (conn_ok_shapes (HG := guests_of s) closed hashes (native s)); [done| |done|].
  - apply (jobs_ok_owners (HG := guests_of s)); [apply Hc|cbn; by rewrite Ed|done|..].
    + intros k Hk. pose proof (in_writing_ref _ _ _ (co_jobs _ _ _ Hc) Hk) as Hz.
      specialize (Hwr k Hz). unfold cpu in Hwr. by rewrite En in Hwr.
    + intros k Hk. cbn [guests_of owned] in *. pose proof (loads_nonneg (jobs (native s)) k).
      pose proof (held_nonneg (records s) k). pose proof (held_nonneg (records s') k).
      destruct (decide (0 < loads (jobs (native s)) k + held (records s) k)) as [Hpos|Hz].
      * destruct (jo_loads _ _ (co_jobs _ _ _ Hc) k) as (z & Hz & Hle); [done|]. cbn in Hle.
        eexists. split; [rewrite Hrefs; unfold cpu; by rewrite Hz|]. lia.
      * destruct (Hcov k) as (z & Hz' & Hle); [lia|]. exists z. split; [done|]. lia.
  - intros id x Hx. exists x. split; [done|apply same_shape_refl].
Qed.

Lemma coord_reg_step closed hashes s s' : coord_ok closed hashes s → reg_step s s' → coord_ok closed hashes s'.
Proof. intros Hok Hst%reg_step_move. by eapply coord_reg_move. Qed.

(** Blocks that can be read stay so. *)
Lemma reg_step_readable closed hashes s s' ks :
  coord_ok closed hashes s → reg_step s s' → readable ks (cpu s) → readable ks (cpu s').
Proof.
  intros Hok (m & En & _ & _ & _ & _ & Hrefs & _)%reg_step_native Hks k (z & Hz & Hle)%Hks.
  unfold cpu at 1. rewrite En. cbn. rewrite Hrefs, Hz. eexists. split; [done|]. cbn beta.
  pose proof (held_nonneg (records s') k). pose proof (held_nonneg (records s) k).
  destruct (decide (0 < held (records s) k)) as [Hpos|]; [|lia].
  destruct (coord_cover _ _ _ Hok) as [_ Hc]. destruct (Hc k Hpos) as (b & Hb & Hle'). unfold ref_of, cpu in Hz.
  cbn in Hb. rewrite Hb in Hz. injection Hz as <-. change (held (records s) k ≤ CachePolicy.ref_cnt b) in Hle'. lia.
Qed.

(** ** Room for references

    With [n] lifecycles at most, no count can wrap: what other jobs hold leaves
    room for a reference of each. *)
Record roomy (n : Z) s : Prop := {
  rm_records : zlen (records s) ≤ n < int32_max;
  rm_counts : ∀ k z, ref_of k (cpu s) = Some z → z - held (records s) k + n < int32_max
}.

Lemma roomy_reg_step n s s' : roomy n s → reg_step s s' → roomy n s'.
Proof.
  intros [Hn Hr] (m & En & _ & _ & _ & _ & Hrefs & _ & _ & Hlen)%reg_step_native. split; [lia|].
  intros k z. unfold cpu. rewrite En. cbn. rewrite Hrefs. intros (z0 & Hz0 & ->)%fmap_Some.
  specialize (Hr k z0 Hz0). lia.
Qed.

Lemma roomy_room n s : roomy n s → LifecycleFacts.room (registry s).
Proof.
  intros [Hn Hr] m k b Hm Hb. cbn in Hm. injection Hm as <-. pose proof (held_le (records s) k).
  specialize (Hr k (CachePolicy.ref_cnt b)). unfold ref_of, cpu in Hr. rewrite Hb in Hr. specialize (Hr eq_refl). lia.
Qed.

(** ** The connector's part *)
Lemma coord_native closed hashes closed' hashes' s n' :
  coord_ok closed hashes s → conn_ok (HG := guests_of s) closed' hashes' n' → coord_ok closed' hashes' (put_native n' s).
Proof. by intros [] Hn. Qed.

Lemma roomy_native n s n' : roomy n s →
  (∀ k z, ref_of k (manager n') = Some z → z ≤ 0 ∨ ∃ z0, ref_of k (cpu s) = Some z0 ∧ z ≤ z0) → roomy n (put_native n' s).
Proof.
  intros [Hn Hr] Hk. split; [done|]. intros k z Hz. change (records (put_native n' s)) with (records s).
  pose proof (held_nonneg (records s) k). destruct (Hk k z Hz) as [|(z0 & Hz0 & ?)]; [lia|]. specialize (Hr k z0 Hz0). lia.
Qed.

Lemma reads_set i d x : reads_of (od_set i x d) = <[i := list_to_set (source_ids x)]> (reads_of d).
Proof.
  apply map_eq. intros j. rewrite reads_lookup, od_get_set. case_decide as Hj.
  - subst. by rewrite lookup_insert_eq.
  - by rewrite lookup_insert_ne, reads_lookup.
Qed.

Lemma reads_del i d : od_wf d → reads_of (od_del i d) = delete i (reads_of d).
Proof.
  intros Hw. apply map_eq. intros j. rewrite reads_lookup, od_get_del. case_decide as Hj.
  - subst. by rewrite lookup_delete_eq.
  - by rewrite lookup_delete_ne, reads_lookup.
Qed.

(** ** Operations of the registry *)
Lemma evolves_shrinks r r' : reg_base r → reg_base r' → evolves r r' →
  zlen (Registry.records r') ≤ zlen (Registry.records r).
Proof.
  intros Hb Hb' Hev. unfold zlen.
  enough (length (od_keys (Registry.records r')) ≤ length (od_keys (Registry.records r)))%nat as Hle
    by (unfold od_keys in Hle; rewrite !length_fmap in Hle; lia).
  apply submseteq_length, NoDup_submseteq; [apply (rb_wf _ Hb')|]. intros id Hid.
  destruct (decide (id ∈ od_keys (Registry.records r))) as [|Hn]; [done|]. exfalso.
  apply od_get_None in Hn. specialize (Hev id). unfold phase in Hev. rewrite Hn in Hev. cbn in Hev.
  destruct (od_get id (Registry.records r')) as [x|] eqn:Hx; [|by apply od_get_None in Hx].
  cbn in Hev. apply rtc_inv in Hev as [|(p & Hp & _)]; [done|]. inv Hp.
Qed.

Lemma wp_reg {A} (c : M (Registry.LifecycleRegistry F P) A) (Q : A → TokenCakeOffloadingScheduler F P → Prop) E s a r :
  c (registry s) = Ret a r → Q a (put_registry r s) → wp (reg c) Q E s.
Proof. intros Hrun HQ. apply wp_zoom. by eapply wp_Ret. Qed.

Lemma wp_reg_good {A} (c : M (Registry.LifecycleRegistry F P) A) closed hashes s (E : TokenCakeOffloadingScheduler F P → Prop) :
  coord_ok closed hashes s → good (registry s) (c (registry s)) → wp (reg c) (λ _, reg_step s) E s.
Proof.
  intros Hok (a & r & Hrun & Hr & Hev & Hbal). eapply wp_reg; [exact Hrun|]. exists r. split_and!; try done.
  apply (evolves_shrinks (registry s) r); [|apply Hr|done]. by eapply coord_registry.
Qed.

(** An update of one record that keeps what it owns. *)
Lemma reg_step_update closed hashes s id f :
  coord_ok closed hashes s → (∀ x, od_get id (records s) = Some x → rec_ok id x → rec_ok id (f x)) →
  (∀ x, Registry.retained (f x) = Registry.retained x) →
  reg_step s (put_registry (Registry.put_records (od_alter f id (records s)) (registry s)) s).
Proof.
  intros Hok Hf Hret. eexists. split; [reflexivity|]. split_and!.
  - apply (reg_ok_alter f id (registry s)); [done|done|by eapply coord_registry].
  - by eapply balanced_alter.
  - cbn. unfold zlen. rewrite <- (length_fmap fst (records s)), <- (length_fmap fst (od_alter _ _ _)).
    change (Z.of_nat (length (od_keys (od_alter f id (records s)))) ≤ Z.of_nat (length (od_keys (records s)))).
    by rewrite od_keys_alter.
Qed.

Lemma wp_update closed hashes s id f (Q : unit → TokenCakeOffloadingScheduler F P → Prop) E :
  coord_ok closed hashes s → (∀ x, od_get id (records s) = Some x → rec_ok id x → rec_ok id (f x)) →
  (∀ x, Registry.retained (f x) = Registry.retained x) →
  (∀ s', reg_step s s' → records s' = od_alter f id (records s) → Q tt s') → wp (update id f) Q E s.
Proof. intros Hok Hf Hret HQ. eapply wp_reg; [reflexivity|]. apply HQ; [by eapply reg_step_update|done]. Qed.

Lemma wp_countM closed hashes s m a (Q : unit → TokenCakeOffloadingScheduler F P → Prop) E :
  coord_ok closed hashes s → 0 ≤ a → (∀ s', reg_step s s' → records s' = records s → Q tt s') → wp (countM m a) Q E s.
Proof.
  intros Hok Ha HQ. apply wp_zoom, wp_zoom, wp_bind, wp_assert; [intros _|by intros ?%Z.leb_gt; lia].
  apply wp_modify, HQ; [|done]. eexists. split; [reflexivity|]. split_and!; [|by apply balanced_same|done].
  apply reg_ok_put_metrics. by eapply coord_registry.
Qed.

Lemma wp_retain clock closed hashes s n id keys (Q : gset OffloadKey → TokenCakeOffloadingScheduler F P → Prop) E :
  coord_ok closed hashes s → roomy n s → (∀ got s', reg_step s s' → Q got s') →
  wp (reg (Registry.retain_ready clock id keys)) Q E s.
Proof.
  intros Hok Hr HQ.
  destruct (retain_ready_ok clock id keys (registry s)) as (got & r & Hrun & Hr' & Hev & Hbal & _);
    [by eapply coord_registry|by eapply roomy_room|by eexists|].
  eapply wp_reg; [exact Hrun|]. apply HQ. exists r. split_and!; try done.
  apply (evolves_shrinks (registry s) r); [|apply Hr'|done]. by eapply coord_registry.
Qed.

(** The same, when the keys are in CPU memory. *)
Lemma wp_retain_keeps clock closed hashes s n id keys (Q : gset OffloadKey → TokenCakeOffloadingScheduler F P → Prop) E :
  coord_ok closed hashes s → roomy n s → readable keys (cpu s) →
  (∀ got s', reg_step s s' → conserves (records s) (records s') →
     (∀ r' : Registry.Lifecycle F, od_get id (records s') = Some r' → Registry.owns_preservation r' = true → keys ⊆ Registry.retained r') →
     Q got s') →
  wp (reg (Registry.retain_ready clock id keys)) Q E s.
Proof.
  intros Hok Hr Hk HQ. pose proof (coord_registry _ _ _ Hok) as Hreg.
  destruct (retain_ready_ok clock id keys (registry s)) as (got & r & Hrun & Hr' & Hev & Hbal & _);
    [done|by eapply roomy_room|by eexists|].
  destruct (retain_ready_keeps clock id keys (registry s) got r Hreg Hrun ltac:(by eexists)) as [Hcons Hkeep].
  eapply wp_reg; [exact Hrun|]. apply HQ; [|exact Hcons|].
  - exists r. split_and!; try done. apply (evolves_shrinks (registry s) r); [apply Hreg|apply Hr'|done].
  - intros r' Hget Ho k Hin. apply (Hkeep r' Hget Ho k Hin). intros r1 Hexp.
    assert (reg_step s (put_registry r1 s)) as H1.
    { pose proof (wp_reg_good (Registry.expire clock) closed hashes s (λ _, False) Hok (expire_good clock _ Hreg)) as Hwp.
      unfold wp, reg, zoom in Hwp. by rewrite Hexp in Hwp. }
    pose proof (reg_step_readable _ _ _ _ keys Hok H1 Hk) as Hk1.
    destruct H1 as (r2 & _ & _ & Hb2 & _). destruct (Registry.manager r1) as [m|] eqn:Hm.
    + exists m. split; [done|]. destruct (Hk1 k Hin) as (z & Hz & Hle). unfold cpu, put_registry in Hz. rewrite Hm in Hz.
      unfold ref_of in Hz. cbn in Hz. destruct (block_of k m) as [b|] eqn:Hb; [|done]. injection Hz as <-.
      exists b. split; [done|]. by apply Z.leb_le.
    + pose proof (expire_good clock _ Hreg) as (? & r3 & Hexp' & _ & _ & Hb3). rewrite Hexp in Hexp'. injection Hexp' as _ <-.
      unfold balanced in Hb3. by rewrite Hm in Hb3.
Qed.
End state.
