(* ===== verification/CoordinatorStores.v ===== *)
(** * The coordinator's stores

    What a snapshot yields can be stored by one detached job: distinct keys,
    distinct GPU blocks; and registering the store keeps the invariant of the
    coordinator, whichever way it ends. *)
From S2P Require Import Prelude Hoare PyFloat Metrics Protocol Config CachePolicy Request BlockPool KVCache CPUManager Lifecycle LifecycleFacts.
From S2P Require Import OffloadPolicy NativeOffload OffloadKeys OffloadRefs OffloadJobs OffloadSteps OffloadLoads OffloadStores OffloadTraces OffloadGuests.
From S2P Require Import Scoring Scheduling Pressure Coordinator CoordinatorState.
Import Offloading Coordinator.
Local Open Scope Z_scope.

Section stores.
Context {F P : Type} `{HF : FloatOps F, HI : FloatInf F} `{HL : FloatLog1p F} `{HP : CachePolicyLaws P}.
Context (closed : gset string) (hashes : string → list (list Z)) (clock : nat → F) (n : Z).
Implicit Types (s : TokenCakeOffloadingScheduler F P) (cs : list SnapshotBlock) (A : OffloadKey → bool).
Notation ok := (coord_ok closed hashes).

(** The invariant, with room for references, while the absent keys are [A]. *)
Record steady A s : Prop := {
  sd_ok : ok s;
  sd_room : roomy n s;
  sd_absent : ∀ k, is_absent s k = A k
}.

Lemma absent_ref s k : is_absent s k = true ↔ ref_of k (cpu s) = None.
Proof. unfold is_absent, cpu_block, ref_of, cpu. rewrite bool_decide_eq_true. by destruct (block_of k _). Qed.

Lemma steady_reg_step A s s' : steady A s → reg_step s s' → steady A s'.
Proof.
  intros [Hok Hr Ha] Hst. split; [by eapply coord_reg_step|by eapply roomy_reg_step|].
  intros k. rewrite <- Ha. apply eq_true_iff_eq. rewrite !absent_ref. by apply reg_step_none.
Qed.

(** ** Candidates *)
Definition from_gpu A cs : list nat := concat (source_block_ids <$> filter (λ c, A (key c) = true) cs).

(** Distinct keys, and distinct blocks to copy for those that are absent. *)
Definition distinct A cs : Prop := NoDup (key <$> cs) ∧ NoDup (from_gpu A cs).

Lemma from_gpu_sublist A cs cs' : sublist cs cs' → sublist (from_gpu A cs) (from_gpu A cs').
Proof.
  intros Hs. unfold from_gpu. apply sublist_concat, sublist_fmap'.
  induction Hs as [|c cs cs' _ IH|c cs cs' _ IH]; [done|rewrite !filter_cons; by case_decide; [apply sublist_skip|]|].
  rewrite filter_cons. case_decide; [by apply sublist_cons|done].
Qed.

Lemma distinct_sublist A cs cs' : distinct A cs' → sublist cs cs' → distinct A cs.
Proof.
  intros [Hk Hb] Hs. split; (eapply sublist_NoDup; [done|]); [by apply sublist_fmap'|by apply from_gpu_sublist].
Qed.

Lemma distinct_Permutation A cs cs' : distinct A cs' → cs ≡ₚ cs' → distinct A cs.
Proof.
  intros [Hk Hb] Hp. split; [by rewrite Hp|]. unfold from_gpu in *. by rewrite Hp.
Qed.

(** Blocks found unchanged are not null. *)
Lemma unchanged_live (p : BlockPool) ids hs : length ids = length hs → unchanged p ids hs = Some true → nonzero ids = ids.
Proof.
  revert hs. induction ids as [|b ids IH]; intros [|h hs] Hl; cbn [unchanged]; try done. injection Hl as Hl.
  destruct (Nat.eqb_spec b 0) as [|Hb]; cbn [orb]; [done|]. destruct (bool_decide _); [done|].
  destruct (blocks p !! b); [cbn [mbind option_bind]|done]. case_bool_decide; [|done]. intros Hu.
  unfold nonzero. rewrite filter_cons_True by done. f_equal. by eapply IH.
Qed.

Lemma nonzero_app l l' : nonzero (l ++ l') = nonzero l ++ nonzero l'.
Proof. apply filter_app. Qed.

Lemma sublist_nonzero l l' : sublist l l' → sublist (nonzero l) (nonzero l').
Proof.
  induction 1 as [|b l l' _ IH|b l l' _ IH]; [done|unfold nonzero in *; rewrite !filter_cons; by case_decide; [apply sublist_skip|]|].
  unfold nonzero in *. rewrite filter_cons. case_decide; [by apply sublist_cons|done].
Qed.

(** What a scan of a group yields, of its keys and blocks at the indices scanned. *)
Definition scanned A (snap : SnapshotGroup) (indices : list nat) cs : Prop :=
  sublist (key <$> cs) (omap (λ i, sg_keys snap !! i) indices)
  ∧ sublist (from_gpu A cs) (nonzero (concat (omap (λ i, sg_block_ids snap !! i) indices))).

Lemma scanned_nil A snap indices : scanned A snap indices [].
Proof. split; apply sublist_nil_l. Qed.

Lemma scanned_skip A snap i indices cs : scanned A snap indices cs → scanned A snap (i :: indices) cs.
Proof.
  intros [Hk Hb]. split; cbn.
  - destruct (sg_keys snap !! i); [by apply sublist_cons|done].
  - destruct (sg_block_ids snap !! i); [|done]. cbn. rewrite nonzero_app. by apply sublist_inserts_l.
Qed.

Lemma scanned_take A snap i indices cs c ids :
  sg_keys snap !! i = Some (key c) → sg_block_ids snap !! i = Some ids →
  (A (key c) = true → sublist (source_block_ids c) (nonzero ids)) →
  scanned A snap indices cs → scanned A snap (i :: indices) (c :: cs).
Proof.
  intros Hki Hbi Hc [Hk Hb]. split.
  { cbn. rewrite Hki. by apply sublist_skip. }
  assert (omap (λ i, sg_block_ids snap !! i) (i :: indices) = ids :: omap (λ i, sg_block_ids snap !! i) indices) as ->
    by (cbn; by rewrite Hbi).
  cbn [concat]. rewrite nonzero_app. unfold from_gpu in *. rewrite filter_cons.
  case_decide as Ha; [|by apply sublist_inserts_l]. cbn. apply sublist_app; [by apply Hc|done].
Qed.

Lemma wp_group_candidates A p r g snap c indices s :
  Forall2 (λ ids hs, length ids = length hs) (sg_block_ids snap) (sg_gpu_hashes snap) → steady A s →
  wp (group_candidates p r g snap c indices) (λ cs s', steady A s' ∧ scanned A snap indices cs) (steady A) s.
Proof.
  intros Hlen. revert s. induction indices as [|i indices IH]; intros s Hs; cbn [group_candidates].
  { apply wp_ret. split; [done|apply scanned_nil]. }
  destruct (sg_keys snap !! i) as [k|] eqn:Hk; [|by apply wp_raise].
  destruct (sg_block_ids snap !! i) as [ids|] eqn:Hids; [|by apply wp_raise].
  destruct (sg_gpu_hashes snap !! i) as [hs|] eqn:Hhs; [|by apply wp_raise].
  pose proof (Forall2_lookup_lr _ _ _ i ids hs Hlen Hids Hhs) as Hl. cbn beta in Hl.
  apply wp_get. set (offset := if bool_decide _ then 0%nat else _). apply wp_bind.
  eapply wp_mono with (E := steady A)
    (Q := λ m s', s' = s ∧ (m = true → nonzero (drop offset ids) = drop offset ids)); [|cbn beta|done].
  { destruct (bool_decide _ || _); [by apply wp_ret|].
    destruct (unchanged p (drop offset ids) (drop offset hs)) as [m|] eqn:Hu; [|by apply wp_raise].
    apply wp_ret. split; [done|]. intros ->. eapply unchanged_live; [|exact Hu]. by rewrite !length_drop, Hl. }
  intros m s' [-> Hm]. pose proof (sd_absent _ _ Hs k) as Ha. apply wp_if; intros Hstale.
  { apply wp_bind. eapply wp_countM; [apply Hs|done|]. intros s1 H1 _. pose proof (steady_reg_step _ _ _ Hs H1) as Hs1.
    apply wp_bind. eapply wp_countM; [apply Hs1|done|]. intros s2 H2 _. apply wp_ret.
    split; [by eapply steady_reg_step|apply scanned_nil]. }
  assert (wp (group_candidates p r g snap c indices)
    (λ cs s', steady A s' ∧ scanned A snap (i :: indices) cs) (steady A) s) as Hskip.
  { eapply wp_mono; [by apply IH| |done]. cbn beta. intros cs s' [? ?]. split; [done|by apply scanned_skip]. }
  apply wp_if; intros _; [done|]. apply wp_if; intros _; [done|].
  apply wp_bind. eapply wp_mono; [by apply IH|cbn beta|done]. intros cs s' [Hs' Hcs]. apply wp_ret. split; [done|].
  eapply scanned_take; [done|done| |done]. cbn. intros Hka. rewrite Ha, Hka in Hstale. cbn in Hstale.
  apply negb_false_iff in Hstale. rewrite <- (Hm Hstale). unfold nonzero.
  apply sublist_nonzero, sublist_drop.
Qed.

Lemma omap_seq_sublist {B} (l : list B) start m : sublist (omap (λ i, l !! i) (seq start m)) (drop start l).
Proof.
  revert start. induction m as [|m IH]; intros start; [apply sublist_nil_l|]. cbn. destruct (l !! start) as [x|] eqn:Hx.
  - rewrite (drop_S _ _ _ Hx). by apply sublist_skip.
  - etrans; [apply IH|]. replace (S start) with (start + 1)%nat by lia. rewrite <- drop_drop. apply sublist_drop.
Qed.

Lemma scanned_seq A snap start m cs : scanned A snap (seq start m) cs →
  sublist (key <$> cs) (sg_keys snap) ∧ sublist (from_gpu A cs) (nonzero (concat (sg_block_ids snap))).
Proof.
  intros [Hk Hb]. split.
  - etrans; [exact Hk|]. etrans; [apply omap_seq_sublist|apply sublist_drop].
  - etrans; [exact Hb|]. apply sublist_nonzero, sublist_concat. etrans; [apply omap_seq_sublist|apply sublist_drop].
Qed.

Lemma from_gpu_concat A (css : list (list SnapshotBlock)) : from_gpu A (concat css) = concat (from_gpu A <$> css).
Proof.
  unfold from_gpu. induction css as [|cs css IH]; [done|]. cbn [concat fmap list_fmap]. rewrite filter_app, fmap_app, concat_app.
  f_equal. exact IH.
Qed.

(** The candidates of a snapshot can be stored by one job. *)
Lemma wp_snapshot_candidates A pool r s :
  (∀ snap, Registry.snapshot r = Some snap → snapshot_wf snap) → steady A s →
  wp (snapshot_candidates pool r) (λ cs s', steady A s' ∧ distinct A cs) (steady A) s.
Proof.
  intros Hsnap Hs. unfold snapshot_candidates. destruct (Registry.snapshot r) as [snap|]; [|by apply wp_raise].
  destruct pool as [p|]; [|by apply wp_raise]. destruct (Hsnap snap eq_refl) as [Hkeys Hblocks Hlens]. clear Hsnap.
  apply wp_get. set (l := imap pair _). apply wp_bind.
  eapply wp_mono; [apply (wp_mapS (steady A) (λ x cs, sublist (key <$> cs) (sg_keys x.2.1)
    ∧ sublist (from_gpu A cs) (nonzero (concat (sg_block_ids x.2.1)))) (steady A))|cbn beta|done].
  - done.
  - intros [g [sn c]] s' Hin Hs'. cbn beta iota zeta.
    assert (Forall2 (λ ids hs, length ids = length hs) (sg_block_ids sn) (sg_gpu_hashes sn)) as Hlen.
    { rewrite Forall_forall in Hlens. apply Hlens. unfold l in Hin.
      apply elem_of_lookup_imap in Hin as (i & [sn' c'] & Heq & Hx). injection Heq as -> -> ->.
      apply lookup_zip_with_Some in Hx as (g' & c0 & Hx & Hg & _). injection Hx as -> _. by eapply list_elem_of_lookup_2. }
    eapply wp_mono; [by apply wp_group_candidates| |done]. cbn beta. intros cs s'' [? Hcs]. split; [done|].
    by eapply scanned_seq.
  - intros css s' [Hs' Hcss]. apply wp_ret. split; [done|].
    eapply distinct_Permutation; [|apply py_sorted_Permutation].
    assert (sublist ((λ x, x.2.1) <$> l) (Lifecycle.groups snap)) as Hgroups.
    { assert ((λ x, x.2.1) <$> l = (l.*2).*1) as -> by (by rewrite <- list_fmap_compose). unfold l. rewrite imap_pair_snd.
      apply zip_fst_sublist. }
    split.
    + eapply sublist_NoDup; [exact Hkeys|].
      etrans; [|by apply sublist_concat, sublist_fmap'].
      rewrite <- list_fmap_compose. clear -Hcss. induction Hcss as [|x cs l css [Hk _] _ IH]; [done|].
      cbn [concat fmap list_fmap]. rewrite fmap_app. by apply sublist_app.
    + eapply sublist_NoDup; [exact Hblocks|]. rewrite from_gpu_concat.
      etrans; [|by apply sublist_nonzero, sublist_concat, sublist_fmap'].
      rewrite <- list_fmap_compose. clear -Hcss. induction Hcss as [|x cs l css [_ Hb] _ IH]; [done|].
      cbn [concat fmap list_fmap]. unfold nonzero. rewrite filter_app. by apply sublist_app.
Qed.

Lemma bound_sublist config cs limit : sublist (bound_candidates config cs limit) cs.
Proof.
  unfold bound_candidates. assert (sublist (slice_to (limit / block_size_factor config) cs) cs) as Hs by apply sublist_take.
  cbv zeta. set (l := slice_to _ _) in *. destruct (bool_decide (l = []) || _); [done|].
  destruct (existsb _ _); [apply sublist_nil_l|]. destruct (forallb _ _); [|apply sublist_nil_l].
  etrans; [apply sublist_filter|done].
Qed.

(** The GPU blocks of a store, group by group. *)
Lemma partition_groups (Q : SnapshotBlock → Prop) `{∀ c, Decision (Q c)} cs m :
  concat ((λ g, filter (λ c, group c = g ∧ Q c) cs) <$> seq 0 m) ≡ₚ filter (λ c, (group c < m)%nat ∧ Q c) cs.
Proof.
  induction m as [|m IH].
  - induction cs as [|c cs IH]; [done|]. rewrite filter_cons_False by lia. exact IH.
  - rewrite seq_S, fmap_app, concat_app, IH. cbn [fmap list_fmap concat Nat.add]. rewrite app_nil_r. clear IH.
    induction cs as [|c cs IH]; [done|]. rewrite !filter_cons.
    destruct (decide (group c < m ∧ Q c)%nat) as [[Hlt Hq]|H1], (decide (group c = m ∧ Q c)) as [[He Hq']|H2],
      (decide (group c < S m ∧ Q c)%nat) as [[Hlt' Hq'']|H3]; cbn [app]; try (exfalso; lia || (apply H3; split; [lia|done])).
    + by rewrite IH.
    + by rewrite <- Permutation_middle, IH.
    + exfalso. destruct (decide (group c = m)) as [He|Hne]; [by apply H2|]. apply H1. split; [lia|done].
    + exact IH.
Qed.

Lemma group_store_sources A (new_keys : gset OffloadKey) cs m :
  distinct A cs → (∀ k, k ∈ new_keys → A k = true) →
  NoDup (concat (fst <$> (group_store cs new_keys <$> seq 0 m))).
Proof.
  intros [_ Hb] Hnew.
  assert (concat (fst <$> (group_store cs new_keys <$> seq 0 m))
    = concat (source_block_ids <$> concat ((λ g, filter (λ c, group c = g ∧ key c ∈ new_keys) cs) <$> seq 0 m))) as ->.
  { rewrite <- list_fmap_compose. induction (seq 0 m) as [|g gs IH]; [done|]. cbn [fmap list_fmap concat].
    by rewrite IH, fmap_app, concat_app. }
  rewrite (partition_groups (λ c, key c ∈ new_keys)). eapply sublist_NoDup; [exact Hb|].
  unfold from_gpu. apply sublist_concat, sublist_fmap'. clear -Hnew.
  induction cs as [|c cs IH]; [done|]. rewrite !filter_cons.
  destruct (decide (A (key c) = true)) as [Ha|Ha].
  - case_decide; [by apply sublist_skip|by apply sublist_cons].
  - rewrite decide_False; [done|]. intros [_ Hk%Hnew]. done.
Qed.

(** ** Registering a store *)
Definition holds s : Prop := ok s ∧ roomy n s.

Lemma steady_holds A s : steady A s → holds s.
Proof. by intros []. Qed.

Lemma holds_reg_step s s' : holds s → reg_step s s' → holds s'.
Proof. intros [] ?. split; [by eapply coord_reg_step|by eapply roomy_reg_step]. Qed.

Lemma wp_prepare ks s : holds s → NoDup ks →
  wp (conn (mgr (prepare_store ks)))
    (λ o s', holds s' ∧ records s' = records s ∧ detached s' = detached s
       ∧ match o with
         | Some out => storable (list_to_set (CPUManager.keys_to_store out)) (native s')
             ∧ ∀ k, k ∈ CPUManager.keys_to_store out → is_absent s k = true
         | None => True
         end) (λ _, False) s.
Proof.
  intros [Hok Hr] Hnd. apply wp_zoom.
  eapply wp_mono; [apply (wp_prepare_store (HG := guests_of s) closed hashes); [apply Hok|done]|cbn beta|done].
  intros o n' (Hq & Ho & _ & Hrefs). split_and!; [split|done|done|].
  - eapply coord_native; [done|]. eapply conn_ok_quiet; [apply Hok|done].
  - apply roomy_native; [done|]. intros k z Hz. destruct (Hrefs k z Hz) as [|Hz0]; [left; lia|right; by exists z].
  - destruct o as [out|]; [|done]. destruct Ho as [Hsto Hnone]. split; [done|]. intros k Hk.
    apply absent_ref. by apply Hnone.
Qed.

(** What is storable stays so while the registry works. *)
Lemma storable_reg_step ks s s' : ok s → reg_step s s' → storable ks (native s) → storable ks (native s').
Proof.
  intros Hok Hst Hs k Hk. destruct (Hs k Hk) as [Hz Hj]. split; [by apply (reg_step_writing closed hashes s)|].
  destruct (reg_step_native _ _ Hst) as (m & -> & _). exact Hj.
Qed.

(** Giving up a prepared store. *)
Lemma wp_abandon ks s : holds s → storable (list_to_set ks) (native s) →
  wp (conn (mgr (complete_store ks false))) (λ _ s', holds s') (λ _, False) s.
Proof.
  intros [Hok Hr] Hsto. pose proof (ck_conn _ _ _ Hok) as Hc. pose proof (co_jobs _ _ _ Hc) as Hj.
  destruct (complete_failed_spec ks (manager (native s)) (jo_mgr _ _ Hj)) as (m & Hrun & Hm & Hb).
  apply wp_zoom, wp_zoom. eapply wp_Ret; [exact Hrun|].
  assert (∀ k, ref_of k m = ref_of k (cpu s) ∨ k ∈ ks ∧ ref_of k m = None) as Hrefs.
  { intros k. unfold ref_of, cpu. rewrite Hb. destruct (block_of k (manager (native s))); [|by left].
    case_decide as Hk; [right; by destruct Hk|by left]. }
  split.
  - eapply coord_native; [done|].
    apply (conn_ok_shapes (HG := guests_of s) closed hashes (native s)); [done| |done|].
    + apply (jobs_ok_owners (HG := guests_of s)); [done|done|done|..].
      * intros k Hk. destruct (Hrefs k) as [-> |[Hin _]]; [by apply (in_writing_ref (HG := guests_of s) closed)|].
        destruct Hk as (i & j & Hij & Hs & Hkj). destruct (Hsto k ltac:(by apply elem_of_list_to_set)) as [_ Hn].
        by apply (Hn i j) in Hkj.
      * intros k Hk. destruct (jo_loads _ _ Hj k Hk) as (z & Hz & Hle). exists z. split; [|done].
        destruct (Hrefs k) as [-> |[Hin _]]; [done|].
        destruct (Hsto k ltac:(by apply elem_of_list_to_set)) as [Hz' _]. assert (z = -1) by congruence. lia.
    + intros id x Hx. exists x. split; [done|apply same_shape_refl].
  - apply roomy_native; [done|]. intros k z Hz. right. exists z. destruct (Hrefs k) as [<-|[_ Hn]]; [done|].
    cbn in Hz. congruence.
Qed.

(** A new detached store. *)
Record invited s (id : Z) (d : DetachedStore) (rid : string) (ks : gset OffloadKey) s' : Prop := {
  nv_jobs : jobs (native s') = od_set id (mkJob rid (num_workers (config (native s))) ks true None None) (jobs (native s));
  nv_stale : stale_job_threshold (native s') = stale_job_threshold (native s);
  nv_counter : job_counter (native s) = id ∧ job_counter (native s') = id + 1;
  nv_mgr : manager (native s') = manager (native s);
  nv_reqs : req_status (native s') = req_status (native s);
  nv_config : config (native s') = config (native s);
  nv_pending : ∀ b t, t ∈ pending_on b (native s') ↔ t ∈ pending_on b (native s) ∨ t = id ∧ b ∈ source_ids d;
  nv_lifecycles : lifecycles s' = lifecycles s;
  nv_detached : detached s' = od_set id d (detached s);
  nv_unpublished : ∃ t, unpublished s' = od_set id t (unpublished s)
}.

Lemma holds_invited s id d rid ks s' :
  holds s → invited s id d rid ks s' → storable ks (native s) → NoDup (source_ids d) → holds s'.
Proof.
  intros [Hok Hr] [Ej Es [Ei Ec] Em Er Ecfg Ep El Ed [t Eu]] Hsto Hnd. pose proof Hok as [Hc Hb Hwf Hsrc Hunp].
  pose proof (co_jobs _ _ _ Hc) as Hjobs. split.
  2:{ destruct Hr as [Hn Hr]. split; unfold records, cpu; rewrite ?El, ?Em; done. }
  assert (records s' = records s) as Erec by (unfold records; by rewrite El).
  split; rewrite ?El, ?Ed, ?Eu; [|done|by apply od_wf_set|..].
  - set (n1 := put_job_counter (id + 1) (native s)).
    assert (conn_ok (HG := guests_of s) closed hashes n1) as Hc1
      by (eapply conn_ok_quiet; [done|unfold n1; rewrite <- Ei; apply quiet_generate]).
    apply (conn_ok_shapes (HG := guests_of s) closed hashes n1); [done| |exact Ecfg|].
    + eapply (jobs_ok_invite (HG := guests_of s) closed n1 id ks (num_workers (config (native s))) rid (list_to_set (source_ids d))).
      * apply Hc1.
      * split; try done. intros b i. rewrite Ep, elem_of_list_to_set. done.
      * cbn. pose proof (jo_stale _ _ Hjobs). lia.
      * cbn. destruct (od_get id (jobs (native s))) as [j|] eqn:Hj; [|done].
        destruct (jb_id _ _ _ _ (jo_jobs _ _ Hjobs id j Hj)). lia.
      * apply (cf_workers _ (co_config _ _ _ Hc)).
      * exact Hsto.
      * cbn. by rewrite Ed, reads_set.
      * intros k. cbn. by rewrite Erec.
    + intros i x. rewrite Er. intros Hx. exists x. split; [done|apply same_shape_refl].
  - intros i x. rewrite od_get_set. case_decide; [by intros [= <-]|]. by apply Hsrc.
  - intros i. rewrite !od_get_set. case_decide; [by eexists|]. apply Hunp.
Qed.

Lemma set_pending_ok id v (x : Registry.Lifecycle F) : Registry.owns_preservation x = true → rec_ok id x → rec_ok id (Registry.set_pending_retention v x).
Proof.
  unfold Registry.owns_preservation. intros Ho [? ? ? ? ? ? ?].
  destruct (Registry.start x) eqn:Hs, (Registry.ownership_released x) eqn:Hr; try done;
    cbn in Ho; rewrite ?andb_false_r in Ho; try done. split; cbn; rewrite ?Hs, ?Hr; try done.
Qed.

(** Registering a store keeps the invariant, whichever way it ends. *)
Lemma wp_register_store A id cs s :
  steady A s → distinct A cs → wp (register_store clock id cs) (λ _ s', holds s') holds s.
Proof.
  intros Hs Hcs. pose proof (steady_holds _ _ Hs) as Hh. unfold register_store. apply wp_get.
  destruct (od_get id (records s)) as [x|] eqn:Hx; [|by apply wp_raise].
  destruct (Registry.snapshot x) as [snapshot|]; [|by apply wp_raise]. cbv zeta.
  set (ordered := py_sorted _ cs). assert (distinct A ordered) as Ho by (eapply distinct_Permutation; [exact Hcs|apply py_sorted_Permutation]).
  apply wp_bind. eapply wp_mono; [apply wp_prepare; [done|apply Ho]|cbn beta|done].
  intros [out|] s1 (Hh1 & Er1 & Ed1 & Hout); [|by apply wp_ret]. destruct Hout as [Hsto Habs].
  assert (∀ k, k ∈ (list_to_set (CPUManager.keys_to_store out) : gset OffloadKey) → A k = true) as Hnew.
  { intros k Hk%elem_of_list_to_set. rewrite <- (sd_absent _ _ Hs). by apply Habs. }
  apply wp_bind. eapply wp_retain; [apply Hh1|apply Hh1|]. intros got s2 H2.
  pose proof (holds_reg_step _ _ Hh1 H2) as Hh2. pose proof (storable_reg_step _ _ _ (proj1 Hh1) H2 Hsto) as Hsto2.
  apply wp_get, wp_if; intros Howns.
  { apply wp_bind. eapply wp_mono; [by apply wp_abandon|intros u s3 Hh3; by apply wp_ret|done]. }
  apply wp_bind. eapply wp_update; [apply Hh2| |done|].
  { intros y Hy Hyo. apply set_pending_ok; [|done]. rewrite Hy in Howns. by apply negb_false_iff in Howns. }
  intros s3 H3 Er3. pose proof (holds_reg_step _ _ Hh2 H3) as Hh3.
  pose proof (storable_reg_step _ _ _ (proj1 Hh2) H3 Hsto2) as Hsto3.
  apply wp_get, wp_if; intros _; [by apply wp_ret|]. set (new := list_to_set _) in *.
  set (m := length (kv_group_configs _)). pose proof (group_store_sources A new ordered m Ho Hnew) as Hnd.
  set (sources := concat _) in *. set (jid := job_counter (native s3)).
  apply wp_bind, wp_zoom, wp_get, wp_bind, wp_put, wp_ret, wp_bind, wp_zoom, wp_modify, wp_bind, wp_modify, wp_bind, wp_zoom.
  fold jid. match goal with |- wp _ _ _ ?x => destruct (watch_all jid sources x) as (p & Hrun & Hp) end.
  eapply wp_Ret; [exact Hrun|]. apply wp_bind, wp_modify, wp_get.
  match goal with |- wp _ _ _ ?x => set (s4 := x) end.
  assert (holds s4) as Hh4.
  { apply (holds_invited s3 jid (mkDetached (lifecycle_id (Registry.metadata x)) (req_context snapshot) sources)
      (req_context snapshot) new); [exact Hh3| |exact Hsto3|exact Hnd]. split; try done; [|by eexists].
    intros b t. unfold pending_on at 1. cbn. rewrite Hp. cbn. case_decide; rewrite ?elem_of_union, ?elem_of_singleton; tauto. }
  apply wp_bind. eapply wp_update; [apply Hh4|intros y _ []; by split|done|]. intros s5 H5 _.
  apply wp_bind, wp_modify, wp_ret. pose proof (holds_reg_step _ _ Hh4 H5) as [[] []]. by split; split.
Qed.
End stores.
