(* ===== verification/CoordinatorSteps.v ===== *)
(** * The coordinator's calls

    Evaluating the stalled lifecycles and finishing generations keep the
    invariant of the coordinator, whichever way they end. *)
From S2P Require Import Prelude Hoare PyFloat Metrics Protocol Config CachePolicy Request BlockPool KVCache CPUManager Lifecycle LifecycleFacts.
From S2P Require Import OffloadPolicy NativeOffload OffloadKeys OffloadRefs OffloadJobs OffloadSteps OffloadLoads OffloadStores OffloadDone OffloadTraces OffloadGuests.
From S2P Require Import Scoring Scheduling Pressure Coordinator CoordinatorState CoordinatorStores.
Import Offloading Coordinator.
Local Open Scope Z_scope.

Lemma wp_or_raise {S A} e (o : option A) (Q : A → S → Prop) E s :
  (∀ a, o = Some a → Q a s) → E s → wp (or_raise e o) Q E s.
Proof. intros HQ HE. destruct o; [by apply HQ|done]. Qed.

(** ** Evaluation *)
Section evaluation.
Context {F P : Type} `{HF : FloatOps F, HI : FloatInf F} `{HL : FloatLog1p F} `{HP : CachePolicyLaws P}.
Context (closed : gset string) (hashes : string → list (list Z)) (n : Z).
Context (clock : nat → F) (pool : option BlockPool).
Context (scheduler : Scheduler F) (set_order : gset string → list string) (lt_id : bool).
Implicit Types (s : TokenCakeOffloadingScheduler F P) (r : Registry.Lifecycle F).
Notation holds := (holds closed hashes n).
Notation steady := (steady closed hashes n).

(** What does not touch the tables, the records and the manager is free. *)
Lemma holds_same s s' : holds s → native s' = native s → lifecycles s' = lifecycles s →
  detached s' = detached s → (∀ i, is_Some (od_get i (unpublished s')) → is_Some (od_get i (unpublished s))) → holds s'.
Proof.
  intros [[Hc Hb Hw Hs Hu] [Hn Hr]] En El Ed Eu.
  assert (records s' = records s) as Er by (unfold records; by rewrite El).
  assert (guests_of s' = guests_of s) as Eg by (unfold guests_of; by rewrite Er, Ed).
  split; split; unfold cpu; rewrite ?En, ?El, ?Ed, ?Er, ?Eg; try done. intros i Hi. by apply Hu, Eu.
Qed.

Lemma reg_step_self s : coord_ok closed hashes s → reg_step s (put_registry (registry s) s).
Proof.
  intros Hok. eexists. split; [reflexivity|]. split_and!; [by eapply coord_registry|apply balanced_refl|done].
Qed.

Lemma wp_read_clock s (Q : F → TokenCakeOffloadingScheduler F P → Prop) E :
  coord_ok closed hashes s → (∀ t s', reg_step s s' → Q t s') → wp (reg (Registry.read_clock clock)) Q E s.
Proof.
  intros Hok HQ. eapply wp_reg; [reflexivity|]. apply HQ. eexists. split; [reflexivity|].
  split_and!; [by eapply reg_ok_put_tick, coord_registry|by apply balanced_same|done].
Qed.

Lemma wp_set_h2d id secs s :
  coord_ok closed hashes s → wp (reg (Registry.set_h2d_estimate clock id secs)) (λ _, reg_step s) (reg_step s) s.
Proof.
  intros Hok. apply wp_zoom. unfold wp. pose proof (reg_step_self s Hok) as Hself.
  destruct (od_get id (records s)) as [x|] eqn:Hx.
  2:{ unfold Registry.set_h2d_estimate, Registry.get_record, gets. rewrite bind_unfold.
      change (Registry.records (registry s)) with (records s). rewrite Hx. exact Hself. }
  destruct (Registry.started_at x) as [t|] eqn:Ht.
  2:{ unfold Registry.set_h2d_estimate, Registry.get_record, gets. rewrite bind_unfold.
      change (Registry.records (registry s)) with (records s). rewrite Hx, Ht. exact Hself. }
  destruct (set_h2d_estimate_ok clock id secs (registry s) x) as (d & r & -> & Hr & Hbal & Hrec);
    [by eapply coord_registry|done|by rewrite Ht|].
  exists r. split_and!; try done. change (records s) with (Registry.records (registry s)).
  assert (∀ f, zlen (od_alter f id (Registry.records (registry s))) = zlen (Registry.records (registry s))) as Hlen.
  { intros f. unfold zlen. rewrite <- (length_fmap fst (od_alter _ _ _)), <- (length_fmap fst (Registry.records _)).
    f_equal. f_equal. apply od_keys_alter. }
  destruct Hrec as [->| ->]; by rewrite Hlen.
Qed.

Lemma wp_settle_decision id signature reason s (Q : unit → TokenCakeOffloadingScheduler F P → Prop) E :
  holds s → (∀ s', holds s' → Q tt s') → wp (settle id signature reason) Q E s.
Proof.
  intros Hh HQ. unfold settle. apply wp_bind. eapply wp_countM; [apply Hh|done|]. intros s1 H1 _.
  pose proof (holds_reg_step _ _ _ _ _ Hh H1) as Hh1. apply wp_get.
  eapply wp_update; [apply Hh1| | |].
  - intros x _ []. case_decide; by split.
  - intros x. by case_decide.
  - intros s2 H2 _. apply HQ. by eapply holds_reg_step.
Qed.

(** Weighing a snapshot. *)
Lemma wp_weigh id r p available s :
  holds s → (∀ snap, Registry.snapshot r = Some snap → snapshot_wf snap) →
  wp (weigh clock pool scheduler id r p available) (λ _, holds) holds s.
Proof.
  intros Hh Hsnap. set (A := is_absent s).
  assert (steady A s) as Hs by (destruct Hh; by split). clear Hh. unfold weigh.
  destruct (Registry.started_at r) as [started_at|]; [|by eapply wp_raise, steady_holds].
  apply wp_bind, wp_read_clock; [apply Hs|]. intros now s1 H1. pose proof (steady_reg_step _ _ _ _ _ _ Hs H1) as Hs1.
  apply wp_bind. eapply wp_mono; [by apply (wp_snapshot_candidates closed hashes n A)|cbn beta|by intros ? ?%steady_holds].
  intros cs s2 [Hs2 Hcs]. apply wp_get, wp_bind.
  eapply wp_mono with (E := steady A) (Q := λ _ s', s' = s2); [|cbn beta|by intros ? ?%steady_holds].
  { apply wp_if; intros _; [by apply wp_ret|]. by apply wp_or_raise. }
  intros limit s2' ->. set (bounded := bound_candidates _ cs limit).
  assert (distinct A bounded) as Hb by (eapply distinct_sublist; [exact Hcs|apply bound_sublist]).
  apply wp_bind. eapply wp_mono with (E := holds) (Q := λ _, steady A); [|cbn beta|done].
  { apply wp_if; intros _; [|by apply wp_ret]. eapply wp_countM; [apply Hs2|done|]. intros s3 H3 _. by eapply steady_reg_step. }
  intros _ s3 Hs3. pose proof (steady_holds _ _ _ _ _ Hs3) as Hh3. cbv zeta.
  apply wp_bind, wp_or_raise; [|done]. intros t _. set (decision := evaluate_benefit _ _ _ _ _ _ _ _ _ _).
  case_decide as Hsel; [|by apply wp_ret]. apply wp_bind, wp_or_raise; [|done]. intros restore _.
  apply wp_bind. eapply wp_mono; [apply wp_set_h2d, Hs3|cbn beta|by intros s4 H4; eapply holds_reg_step].
  intros _ s4 H4. pose proof (steady_reg_step _ _ _ _ _ _ Hs3 H4) as Hs4. apply wp_get, wp_if; intros _.
  - by eapply wp_register_store.
  - by eapply wp_ret, steady_holds.
Qed.

Lemma wp_pressure pressure s (Q : Pressure F → TokenCakeOffloadingScheduler F P → Prop) E :
  (∀ p, Q p s) → E s → wp (get_pressure scheduler set_order lt_id pressure) Q E s.
Proof.
  intros HQ HE. unfold get_pressure. destruct pressure; [by apply wp_ret|]. apply wp_get.
  destruct (waiting_pressure _ _ _ _ _); [by apply wp_ret|by apply wp_raise].
Qed.

Lemma record_snapshot s id r : coord_ok closed hashes s → od_get id (records s) = Some r →
  ∀ snap, Registry.snapshot r = Some snap → snapshot_wf snap.
Proof. intros Hok Hr. exact (ro_snapshot _ _ (rb_recs _ (ck_recs _ _ _ Hok) id r Hr)). Qed.

(** One round of the evaluation. *)
Lemma wp_evaluate1 pressure id s :
  holds s → wp (evaluate1 clock pool scheduler set_order lt_id pressure id) (λ _, holds) holds s.
Proof.
  intros Hh. unfold evaluate1. apply wp_bind. eapply wp_update; [apply Hh| |done|].
  { intros x _ [? ? Ht ? ? ? ?]. split; try done. intros Hn. by destruct (Ht Hn) as (? & ? & _). }
  intros s1 H1 _. pose proof (holds_reg_step _ _ _ _ _ Hh H1) as Hh1. apply wp_get.
  destruct (od_get id (records s1)) as [r|] eqn:Hr; [|by apply wp_ret].
  assert (∀ m, wp (countM m 1 ;; mret pressure) (λ _, holds) holds s1) as Hcount.
  { intros m. apply wp_bind. eapply wp_countM; [apply Hh1|done|]. intros s2 H2 _. by eapply wp_ret, holds_reg_step. }
  apply wp_if; intros _; [by apply wp_ret|]. apply wp_if; intros _; [by apply wp_ret|].
  apply wp_if; intros _; [apply Hcount|]. apply wp_if; intros _; [apply Hcount|].
  apply wp_bind, wp_pressure; [|done]. intros p. cbv zeta. apply wp_if; intros _.
  { apply wp_bind. eapply wp_countM; [apply Hh1|done|]. intros s2 H2 _. by eapply wp_ret, holds_reg_step. }
  apply wp_bind. eapply wp_mono; [apply wp_weigh; [done|eapply record_snapshot; [apply Hh1|exact Hr]]|cbn beta|done].
  intros reason s2 Hh2. apply wp_bind, wp_settle_decision; [done|]. intros s3 Hh3. by apply wp_ret.
Qed.

Lemma wp_observe_frontier s : holds s → wp (observe_frontier pool) (λ _, holds) holds s.
Proof.
  intros Hh. unfold observe_frontier. destruct pool as [p|]; [|by apply wp_raise]. apply wp_get, wp_if; intros _; [by apply wp_ret|].
  destruct (peek_free_block_frontier _ p); [|by apply wp_raise].
  eapply wp_countM; [apply Hh|unfold zlen; lia|]. intros s1 H1 _. by eapply holds_reg_step.
Qed.

Lemma wp_expire s (Q : unit → TokenCakeOffloadingScheduler F P → Prop) E :
  coord_ok closed hashes s → (∀ s', reg_step s s' → Q tt s') → wp (reg (Registry.expire clock)) Q E s.
Proof.
  intros Hok HQ. eapply wp_mono with (E := E); [eapply wp_reg_good; [exact Hok|eapply expire_good, coord_registry, Hok]| |done].
  intros [] s' Hs'. by apply HQ.
Qed.

Lemma wp_evaluate_pending new_step s :
  holds s → wp (evaluate_pending clock pool scheduler set_order lt_id new_step) (λ _, holds) holds s.
Proof.
  intros Hh. unfold evaluate_pending. apply wp_bind, wp_expire; [apply Hh|]. intros s1 H1.
  pose proof (holds_reg_step _ _ _ _ _ Hh H1) as Hh1. apply wp_bind.
  eapply wp_mono with (E := holds) (Q := λ _, holds); [|cbn beta|done].
  { apply wp_if; intros _; [|by apply wp_ret]. apply wp_modify. by eapply holds_same. }
  intros _ s2 Hh2. apply wp_bind, wp_modify. match goal with |- wp _ _ _ ?x => set (s3 := x) end.
  assert (holds s3) as Hh3 by (by eapply holds_same). apply wp_get, wp_bind.
  eapply wp_mono; [apply (wp_foldM (λ _, holds) holds); [done|]|cbn beta; intros _ s4; apply wp_observe_frontier|done].
  intros pressure id s' _ Hs'. by apply wp_evaluate1.
Qed.
End evaluation.

(** ** The end of a generation *)
Section finish.
Context {F P : Type} `{HF : FloatOps F, HI : FloatInf F} `{HL : FloatLog1p F} `{HP : CachePolicyLaws P}.
Context (annotation : Request F → option (TokenCakeMetadata F)) (clock : nat → F) (pool : option BlockPool).
Implicit Types (s : TokenCakeOffloadingScheduler F P) (closed : gset string) (hashes : string → list (list Z))
  (request : Request F).
Notation same s := (λ s', s' = s).

Lemma slices_sublist {A} f m (l : list A) : 0 ≤ f →
  sublist (concat ((λ i, slice (Z.of_nat i * f) (Z.of_nat (S i) * f) l) <$> seq 0 m)) l.
Proof.
  intros Hf. assert (concat ((λ i, slice (Z.of_nat i * f) (Z.of_nat (S i) * f) l) <$> seq 0 m) = take (m * Z.to_nat f) l) as ->;
    [|apply sublist_take].
  induction m as [|m IH]; [done|]. rewrite seq_S, fmap_app, concat_app, IH. cbn [fmap list_fmap concat Nat.add].
  rewrite app_nil_r. unfold slice. replace (Z.to_nat (Z.of_nat (S m) * f - Z.of_nat m * f)) with (Z.to_nat f) by lia.
  replace (Z.to_nat (Z.of_nat m * f)) with (m * Z.to_nat f)%nat by lia. rewrite take_take_drop. f_equal. lia.
Qed.

Lemma wp_gpu_hash b s : wp (gpu_hash pool b) (λ _, same s) (same s) s.
Proof. unfold gpu_hash. destruct pool; [|done]. by apply wp_or_raise. Qed.

Lemma wp_snapshot_group request f computed c ids s : 0 ≤ f →
  wp (snapshot_group pool request f computed c ids)
    (λ g s', s' = s ∧ keys_of c (block_hashes request) (sg_keys g) ∧ sublist (concat (sg_block_ids g)) ids
       ∧ Forall2 (λ ids hs, length ids = length hs) (sg_block_ids g) (sg_gpu_hashes g)) (same s) s.
Proof.
  intros Hf. unfold snapshot_group. cbv zeta. apply wp_if; intros Hstep; [done|]. apply Z.ltb_ge in Hstep.
  set (hs := slice_to _ _). apply wp_bind, wp_or_raise; [|done]. intros ks Hks.
  apply wp_bind. eapply wp_mono; [apply (wp_mapS (same s) (λ ids hs, length ids = length hs) (same s)); [done|]|cbn beta|done].
  - intros bids s' _ ->. eapply wp_mono; [apply (wp_mapS (same s) (λ _ _, True) (same s)); [done|]|cbn beta|done].
    + intros b s' _ ->. eapply wp_mono; [apply wp_gpu_hash|by intros ? ? ->|done].
    + intros gs s' [-> Hgs]. split; [done|]. by eapply Forall2_length.
  - intros gpu s' [-> Hgpu]. apply wp_ret. split; [done|]. cbn. split_and!; [|by apply slices_sublist|done].
    right. split; [done|]. assert (length ks = length hs) as -> by (symmetry; by eapply length_mapM).
    unfold hs, slice_to in *. rewrite length_take. rewrite <- Hks. f_equal.
    set (l := islice _ _ _). set (k := Z.to_nat _). destruct (Nat.le_ge_cases k (length l)).
    + by rewrite Nat.min_l.
    + by rewrite Nat.min_r, !take_ge.
Qed.

(** A snapshot of distinct block hashes and GPU blocks is as it should be. *)
Lemma wp_capture_snapshot closed hashes request block_ids s :
  coord_ok closed hashes s → NoDup (block_hashes request) → NoDup (nonzero (concat block_ids)) →
  wp (capture_snapshot pool request block_ids) (λ p s', s' = s ∧ snapshot_wf p) (same s) s.
Proof.
  intros Hok Hh Hb. pose proof (co_config _ _ _ (ck_conn _ _ _ Hok)) as Hcfg. unfold capture_snapshot.
  apply wp_bind, wp_assert; [intros _|done]. apply wp_get. set (l := zip _ _). apply wp_bind.
  eapply wp_mono; [apply (wp_mapS (same s) (λ x g, keys_of x.1 (block_hashes request) (sg_keys g)
      ∧ sublist (concat (sg_block_ids g)) x.2
      ∧ Forall2 (λ ids hs, length ids = length hs) (sg_block_ids g) (sg_gpu_hashes g)) (same s)); [done|]|cbn beta|done].
  { intros [c ids] s' _ ->. apply wp_snapshot_group, Hcfg. }
  intros gs s' [-> Hgs]. apply wp_ret. split; [done|]. split; cbn.
  - apply (groups_keys_NoDup l.*1 (block_hashes request)).
    + eapply sublist_NoDup; [apply Hcfg|]. apply sublist_fmap', zip_fst_sublist.
    + done.
    + apply Forall2_fmap. eapply Forall2_impl; [exact Hgs|]. by intros x g (? & _).
  - eapply sublist_NoDup; [exact Hb|]. apply sublist_nonzero.
    etrans; [|apply sublist_concat, (zip_snd_sublist (kv_group_configs (config (native s))) block_ids)].
    fold l. clear -Hgs. induction Hgs as [|x g l gs (_ & Hs & _) _ IH]; [done|]. cbn. by apply sublist_app.
  - clear -Hgs. induction Hgs as [|x g l gs (_ & _ & Hl) _ IH]; by constructor.
Qed.

(** What a request brings when it finishes. *)
Definition finish_ok request (block_ids : list (list nat)) : Prop :=
  NoDup (block_hashes request) ∧ NoDup (nonzero (concat block_ids)).

Lemma wp_generation_finished closed hashes request block_ids s :
  coord_ok closed hashes s → finish_ok request block_ids →
  wp (generation_finished annotation clock pool request block_ids) (λ _, coord_ok closed hashes) (coord_ok closed hashes) s.
Proof.
  intros Hok [Hh Hb]. unfold generation_finished. destruct (annotation request) as [d|]; [|by apply wp_ret].
  cbv zeta. apply wp_get, wp_bind.
  eapply wp_mono with (E := same s) (Q := λ found s', s' = s ∧ ∀ p, found.2 = Some p → snapshot_wf p); [|cbn beta|by intros ? ->].
  { assert (∀ cause, wp (mret (cause, None) : M (TokenCakeOffloadingScheduler F P) (GenerationCause * option PrefixSnapshot))
      (λ found s', s' = s ∧ ∀ p, found.2 = Some p → snapshot_wf p) (same s) s) as Hnone by (intros; by apply wp_ret).
    destruct (status request); try apply Hnone; (destruct (od_get _ (records s)); [|apply Hnone]);
      (apply wp_if; intros _; [|apply Hnone]); apply wp_bind;
      (eapply wp_mono; [by eapply wp_capture_snapshot|cbn beta|done]); intros p s' [-> Hp]; apply wp_ret; (split; [done|]);
      by intros ? [= <-]. }
  intros found s' [-> Hfound]. eapply wp_mono; [eapply wp_reg_good; [exact Hok|apply generation_finished_good; [by eapply coord_registry|exact Hfound]]|cbn beta|].
  - intros _ s' Hs'. by eapply coord_reg_step.
  - by intros s' Hs'.
Qed.

(** The connector is told after the lifecycle. *)
Lemma wp_request_finished_all closed hashes request block_ids s :
  coord_ok closed hashes s → finish_ok request block_ids →
  wp (request_finished_all_groups annotation clock pool request block_ids)
    (λ _, coord_ok ({[request_id request]} ∪ closed) hashes) (coord_ok closed hashes) s.
Proof.
  intros Hok Hf. unfold request_finished_all_groups. apply wp_bind.
  eapply wp_mono; [by apply wp_generation_finished|cbn beta|done]. intros _ s1 Hok1.
  apply wp_zoom. eapply wp_mono; [by apply (wp_request_finished (HG := guests_of s1) closed hashes), Hok1|cbn beta|done].
  intros _ n' Hn'. by eapply coord_native.
Qed.
End finish.
