(* ===== verification/CoordinatorOutput.v ===== *)
(** * The coordinator and the workers

    What a step publishes and fences, and what the reports of the workers do:
    detached stores complete, and the lifecycles take their blocks over. *)
From S2P Require Import Prelude Hoare PyFloat Metrics Protocol Config CachePolicy Request BlockPool KVCache CPUManager Lifecycle LifecycleFacts RetentionFacts.
From S2P Require Import NativeOffload OffloadKeys OffloadRefs OffloadJobs OffloadSteps OffloadLoads OffloadStores OffloadDone OffloadTraces OffloadGuests.
From S2P Require Import Scoring Coordinator CoordinatorState CoordinatorStores CoordinatorSteps.
Import Offloading Coordinator.
Local Open Scope Z_scope.

Section output.
Context {F P : Type} `{HF : FloatOps F, HI : FloatInf F} `{HL : FloatLog1p F} `{HP : CachePolicyLaws P}.
Context (closed : gset string) (hashes : string → list (list Z)) (n : Z).
Context (live : string → Request F) (clock : nat → F).
Implicit Types (s : TokenCakeOffloadingScheduler F P) (r : Registry.Lifecycle F).
Notation holds := (holds closed hashes n).

(** ** Completions *)

(** What the completion of a detached store leaves alone. *)
Record completes (jid : Z) s s' : Prop := {
  cp_detached : ∀ i, i ≠ jid → od_get i (detached s') = od_get i (detached s);
  cp_jobs : ∀ i, i ≠ jid → od_get i (jobs (native s')) = od_get i (jobs (native s));
  cp_stale : stale_job_threshold (native s') = stale_job_threshold (native s);
  cp_reqs : req_status (native s') = req_status (native s);
  cp_records : records s' = records s;
  cp_unpublished : unpublished s' = unpublished s;
  cp_own : od_get jid (detached s') = None ∨ detached s' = detached s;
  cp_refs : ∀ k z, ref_of k (cpu s) = Some z → ∃ z', ref_of k (cpu s') = Some z' ∧ z ≤ z'
}.

(** The guests after a completion. *)
Lemma holds_left s jid d j n' :
  holds s → od_get jid (detached s) = Some d → od_get jid (jobs (native s)) = Some j →
  leaves (native s) jid j n' → od_get jid (unpublished s) = None →
  holds (put_native n' (put_detached (od_del jid (detached s)) s)).
Proof.
  intros [Hok Hr] Hd Hj Hl Hnu. pose proof Hok as [Hc Hb Hwf Hsrc Hunp]. split.
  - split; cbn; [|done|by apply od_wf_del|..].
    + apply (conn_ok_shapes (HG := guests_of s) closed hashes (native s)); [done| |apply Hl|].
      * eapply (jobs_ok_leave (HG := guests_of s) closed (native s) jid j); [apply Hc| |done|done|..].
        -- cbn. by rewrite reads_lookup, Hd.
        -- cbn. by apply reads_del.
        -- done.
      * intros i x. rewrite (lv_reqs _ _ _ _ Hl). intros Hx. exists x. split; [done|apply same_shape_refl].
    + intros i x. rewrite od_get_del. case_decide; [done|]. by apply Hsrc.
    + intros i Hi. rewrite od_get_del. case_decide as Hij; [|by apply Hunp]. subst. rewrite Hnu in Hi. by destruct Hi.
  - apply (roomy_native n (put_detached (od_del jid (detached s)) s)); [by destruct Hr|]. intros k z. rewrite (lv_refs _ _ _ _ Hl).
    intros (z0 & Hz0 & ->)%fmap_Some. destruct (decide (z0 ≤ 0)); [left; case_bool_decide; lia|].
    right. exists z0. split; [done|]. case_bool_decide; lia.
Qed.

Lemma detached_job s jid d : coord_ok closed hashes s → od_get jid (detached s) = Some d →
  ∃ j, od_get jid (jobs (native s)) = Some j ∧ is_store j = true ∧ ∀ b, jid ∈ pending_on b (native s) ↔ b ∈ source_ids d.
Proof.
  intros Hok Hd. destruct (jo_guests _ _ (co_jobs _ _ _ (ck_conn _ _ _ Hok)) jid (list_to_set (source_ids d))) as [(j & Hj & Hs & _) Hb].
  { cbn. by rewrite reads_lookup, Hd. }
  exists j. split; [done|]. split; [done|]. intros b. by rewrite Hb, elem_of_list_to_set.
Qed.

(** Some of the workers are done. *)
Lemma holds_pending s jid j m :
  holds s → od_get jid (jobs (native s)) = Some j → 0 < m →
  holds (put_native (put_jobs (od_set jid (put_pending_count m j) (jobs (native s))) (native s)) s).
Proof.
  intros [Hok Hr] Hj Hm. split.
  - eapply coord_native; [done|]. apply (conn_ok_step (HG := guests_of s) closed closed hashes (native s)); [apply Hok| |done|].
    + apply jobs_ok_pending; [apply (ck_conn _ _ _ Hok)|done|done].
    + intros i x Hx. exists x. split; [done|apply same_shape_refl].
  - apply roomy_native; [done|]. intros k z Hz. right. by exists z.
Qed.

Lemma wp_complete_detached ks s (Q : unit → TokenCakeOffloadingScheduler F P → Prop) :
  wp (conn (mgr (complete_store (elements ks) true))) Q (λ _, False) s → wp (complete_detached ks) Q (λ _, False) s.
Proof. unfold wp, complete_detached. by destruct (conn _ s). Qed.

(** Only the metrics change. *)
Lemma reg_step_refs s s' : reg_step s s' → records s' = records s → ∀ k, ref_of k (cpu s') = ref_of k (cpu s).
Proof.
  intros (m & En & _ & _ & _ & _ & Hrefs & _)%reg_step_native Er k. unfold cpu at 1. rewrite En. cbn. rewrite Hrefs, Er.
  destruct (ref_of k (cpu s)); cbn; [f_equal; lia|done].
Qed.

(** A report on a detached store, published before. *)
Definition detached_report_ok s (jid count : Z) : Prop :=
  od_get jid (unpublished s) = None ∧ ∃ j, od_get jid (jobs (native s)) = Some j ∧ 0 < count ≤ pending_count j.

(** What a completion does, and the count that follows. *)
Lemma left_completes s jid j n' s3 :
  let s2 := put_native n' (put_detached (od_del jid (detached s)) s) in
  jobs_ok (HG := guests_of s) closed (native s) → od_get jid (jobs (native s)) = Some j → is_store j = true →
  leaves (native s) jid j n' → reg_step s2 s3 → records s3 = records s2 →
  completes jid s s3 ∧ readable (keys j) (cpu s3) ∧ od_get jid (detached s3) = None ∧ od_get jid (jobs (native s3)) = None.
Proof.
  intros s2 Hjobs Hj Hst Hl H3 Er3. destruct (reg_step_native _ _ H3) as (m3 & En3 & Ed3 & Eu3 & _).
  assert (∀ k z, ref_of k (cpu s) = Some z → ref_of k (cpu s3) = Some (if bool_decide (k ∈ keys j) then Z.max 0 z else z)) as Hk.
  { intros k z Hz. rewrite (reg_step_refs _ _ H3 Er3). change (cpu s2) with (manager n'). rewrite (lv_refs _ _ _ _ Hl).
    unfold cpu in Hz. by rewrite Hz. }
  assert (∀ i, od_get i (jobs (native s3)) = if decide (jid = i) then None else od_get i (jobs (native s))) as Hj3
    by (intros i; rewrite En3; cbn; by rewrite (lv_jobs _ _ _ _ Hl), od_get_del).
  assert (∀ i, od_get i (detached s3) = if decide (jid = i) then None else od_get i (detached s)) as Hd3
    by (intros i; rewrite Ed3; cbn; by rewrite od_get_del).
  split_and!; [| |by rewrite Hd3, decide_True|by rewrite Hj3, decide_True].
  2:{ intros k Hin. rewrite (Hk k (-1) (jb_store _ _ _ _ (jo_jobs _ _ Hjobs jid j Hj) Hst k Hin)).
      rewrite bool_decide_true by done. by eexists. }
  split.
  - intros i Hi. by rewrite Hd3, decide_False.
  - intros i Hi. by rewrite Hj3, decide_False.
  - rewrite En3. apply Hl.
  - rewrite En3. apply Hl.
  - done.
  - by rewrite Eu3.
  - left. by rewrite Hd3, decide_True.
  - intros k z Hz. eexists. split; [by apply Hk|]. case_bool_decide; lia.
Qed.

Lemma wp_detached_completed s jid count d :
  holds s → od_get jid (detached s) = Some d → detached_report_ok s jid count →
  wp (detached_completed jid count d)
    (λ ks s', holds s' ∧ completes jid s s' ∧ readable ks (cpu s')
       ∧ ∀ j, od_get jid (jobs (native s)) = Some j →
            if decide (pending_count j = count)
            then ks = keys j ∧ od_get jid (detached s') = None ∧ od_get jid (jobs (native s')) = None
            else ks = ∅)
    (λ _, False) s.
Proof.
  intros Hh Hd (Hnu & j & Hj & Hpos & Hle). destruct (detached_job s jid d (proj1 Hh) Hd) as (j' & Hj' & Hst & Hreads).
  assert (j' = j) as -> by congruence. clear Hj'. unfold detached_completed.
  apply wp_bind, wp_assert; [intros _|by intros ?%Z.ltb_ge; lia]. apply wp_bind, wp_zoom. unfold get_job at 1. apply wp_get. rewrite Hj.
  apply wp_ret, wp_bind, wp_zoom, wp_modify. set (m := pending_count j - count).
  apply wp_bind, wp_assert; [intros _|by intros ?%Z.leb_gt; lia]. apply wp_if; intros Hm.
  { apply negb_true_iff, Z.eqb_neq in Hm. apply wp_ret. split; [by apply (holds_pending s jid j m); [| |lia]|].
    split_and!; try done.
    - split; try done.
      + intros i Hi. cbn. by rewrite od_get_set, decide_False.
      + by right.
      + intros k z Hz. exists z. split; [exact Hz|]. lia.
    - intros j' [= <-]. by rewrite decide_False by (unfold m in Hm; lia). }
  apply negb_false_iff, Z.eqb_eq in Hm. assert (pending_count j = count) as Hcount by lia.
  pose proof (ck_conn _ _ _ (proj1 Hh)) as Hc. pose proof (co_jobs _ _ _ Hc) as Hjobs.
  apply wp_bind, wp_complete_detached, wp_zoom, wp_zoom.
  eapply wp_mono; [by apply complete_store_wp, (jo_mgr _ _ Hjobs)|cbn beta|done]. intros _ cpu' [Hm' Hrefs].
  apply wp_bind, wp_zoom. match goal with |- wp _ _ _ ?x => set (n1 := x) end.
  destruct (remove_all jid (source_ids d) n1) as (p & Hrun & Hp).
  { by apply (ck_sources _ _ _ (proj1 Hh) jid). }
  { intros b Hb. change (jid ∈ pending_on b (native s)). by apply Hreads. }
  eapply wp_Ret; [exact Hrun|]. apply wp_bind, wp_modify, wp_bind, wp_zoom, wp_modify.
  match goal with |- wp _ _ _ ?x => set (s2 := x) end.
  assert (leaves (native s) jid j (native s2)) as Hl.
  { split; try done.
    - cbn. apply od_del_set.
    - intros k. change (manager (native s2)) with cpu'. rewrite Hrefs.
      match goal with |- _ <$> ref_of k ?m = _ => change m with (manager (native s)) end. destruct (ref_of k (manager (native s))) as [z|]; [|done]. cbn. f_equal.
      rewrite (bool_decide_ext (k ∈ elements (keys j)) (k ∈ keys j)) by apply elem_of_elements.
      case_bool_decide; cbn; [|done]. destruct (Z.ltb_spec z 0); lia.
    - intros b. unfold pending_on at 1. cbn. rewrite Hp. change (pending_on b n1) with (pending_on b (native s)).
      case_decide as Hb; [done|]. rewrite difference_disjoint_L; [done|]. apply disjoint_singleton_r. by rewrite Hreads. }
  assert (holds s2) as Hh2 by exact (holds_left s jid d j (native s2) Hh Hd Hj Hl Hnu).
  apply wp_bind. eapply wp_countM; [apply Hh2|unfold zlen; lia|]. intros s3 H3 Er3. apply wp_ret.
  destruct (left_completes s jid j (native s2) s3 Hjobs Hj Hst Hl H3 Er3) as (Hcp & Hr & Hd3 & Hj3).
  split; [by eapply holds_reg_step|]. split_and!; [done..|].
  intros j' Hj'. assert (j' = j) as -> by congruence. by rewrite decide_True.
Qed.

(** ** The loop over the reports *)

(** A report of the workers: on a published detached store, or on a job of the
    connector's own. *)
Definition report1_ok s (jid count : Z) : Prop :=
  match od_get jid (detached s) with
  | Some _ => detached_report_ok s jid count
  | None => 0 < count ∧ (jid < stale_job_threshold (native s) ∨ ∃ j, od_get jid (jobs (native s)) = Some j ∧ count ≤ pending_count j)
  end.

(** Detached stores only leave; the other jobs and the lifecycles stay. *)
Record completing s s' : Prop := {
  cg_detached : ∀ i d, od_get i (detached s') = Some d → od_get i (detached s) = Some d;
  cg_jobs : ∀ i, od_get i (detached s) = None → od_get i (jobs (native s')) = od_get i (jobs (native s));
  cg_stale : stale_job_threshold (native s') = stale_job_threshold (native s);
  cg_reqs : req_status (native s') = req_status (native s);
  cg_records : records s' = records s;
  cg_unpublished : unpublished s' = unpublished s;
  cg_refs : ∀ k z, ref_of k (cpu s) = Some z → ∃ z', ref_of k (cpu s') = Some z' ∧ z ≤ z'
}.

Lemma completing_refl s : completing s s.
Proof. split; try done. intros k z Hz. by exists z. Qed.

Lemma completing_trans s1 s2 s3 : completing s1 s2 → completing s2 s3 → completing s1 s3.
Proof.
  intros [D1 J1 S1 Q1 R1 U1 C1] [D2 J2 S2 Q2 R2 U2 C2]. split; try congruence.
  - intros i d Hd. by apply D1, D2.
  - intros i Hi. rewrite J2, J1; [done|done|]. destruct (od_get i (detached s2)) as [d|] eqn:Hd; [|done].
    apply D1 in Hd. congruence.
  - intros k z (z' & Hz' & Hle)%C1. destruct (C2 k z' Hz') as (z2 & Hz2 & ?). exists z2. split; [done|lia].
Qed.

Lemma completes_completing jid s s' :
  is_Some (od_get jid (detached s)) → completes jid s s' → completing s s'.
Proof.
  intros Hd [D J S Q R U O C]. split; try done.
  - intros i d Hi. destruct (decide (i = jid)) as [->|Hne]; [|by rewrite <- D].
    destruct O as [O| <-]; congruence.
  - intros i Hi. apply J. intros ->. rewrite Hi in Hd. by destruct Hd.
Qed.

(** A report on another job means the same afterwards. *)
Lemma report1_completing s s' i count :
  completing s s' → od_get i (detached s') = od_get i (detached s) →
  od_get i (jobs (native s')) = od_get i (jobs (native s)) → report1_ok s i count → report1_ok s' i count.
Proof.
  intros [_ _ S _ _ U _] Hd Hj. unfold report1_ok, detached_report_ok. by rewrite Hd, Hj, U, S.
Qed.

(** A key whose store the reports complete. *)
Definition reported (c : OffloadingConnectorScheduler P) (l : odict Z Z) (k : OffloadKey) : Prop :=
  ∃ i j, od_get i (jobs c) = Some j ∧ is_store j = true ∧ od_get i l = Some (pending_count j) ∧ k ∈ keys j.

(** What the loop leaves for the connector, and what it has completed. *)
Record completed s (l : odict Z Z) (acc done : odict Z Z * gset OffloadKey) s' : Prop := {
  cm_left : ∀ i, od_get i done.1 = match od_get i l with
                                   | Some c => if od_get i (detached s) then od_get i acc.1 else Some c
                                   | None => od_get i acc.1
                                   end;
  cm_wf : od_wf acc.1 → od_wf done.1;
  cm_keys : ∀ k, k ∈ done.2 ↔ k ∈ acc.2 ∨ reported (native s) l k;
  cm_detached : ∀ i d j, od_get i (detached s) = Some d → od_get i (jobs (native s)) = Some j →
    od_get i l = Some (pending_count j) →
    readable (keys j) (cpu s') ∧ od_get i (detached s') = None ∧ od_get i (jobs (native s')) = None
}.

Lemma readable_completing s s' ks : completing s s' → readable ks (cpu s) → readable ks (cpu s').
Proof. intros Hc Hs k (z & Hz & Hle)%Hs. destruct (cg_refs _ _ Hc k z Hz) as (z' & ? & ?). exists z'. split; [done|lia]. Qed.

Lemma reported1 (c : OffloadingConnectorScheduler P) jid count k :
  reported c [(jid, count)] k ↔ ∃ j, od_get jid (jobs c) = Some j ∧ is_store j = true ∧ count = pending_count j ∧ k ∈ keys j.
Proof.
  split.
  - intros (i & j & Hj & Hs & Hc & Hk). cbn in Hc. case_decide; [|done]. subst. injection Hc as ->. by exists j.
  - intros (j & ? & ? & -> & ?). exists jid, j. cbn. by rewrite decide_True.
Qed.

Lemma wp_completion1 acc jid count s :
  holds s → report1_ok s jid count →
  wp (completion1 acc (jid, count)) (λ acc' s', holds s' ∧ completing s s' ∧ completed s [(jid, count)] acc acc' s'
      ∧ ∀ i, i ≠ jid → od_get i (detached s') = od_get i (detached s) ∧ od_get i (jobs (native s')) = od_get i (jobs (native s)))
    (λ _, False) s.
Proof.
  intros Hh Hrep. unfold completion1. apply wp_get. unfold report1_ok in Hrep.
  destruct (od_get jid (detached s)) as [d|] eqn:Hd.
  - apply wp_bind. eapply wp_mono; [by apply (wp_detached_completed s jid count d)|cbn beta|done].
    intros ks s' (Hh' & Hc & Hst & Hdone). apply wp_ret. destruct (detached_job s jid d (proj1 Hh) Hd) as (j & Hj & Hsj & _).
    specialize (Hdone j Hj).
    split_and!; [done|by eapply completes_completing|split; cbn [fst snd od_get]|].
    + intros i. destruct (decide (jid = i)) as [<-|]; [|done]. by rewrite Hd.
    + done.
    + intros k. rewrite elem_of_union, reported1, Hj. destruct (decide (pending_count j = count)) as [Hc'|Hc'].
      * destruct Hdone as [-> _]. split; [intros [?|?]; [by left|right; by exists j]|].
        intros [?|(j' & [= <-] & _ & _ & ?)]; [by left|by right].
      * subst ks. split; [intros [?|[]%elem_of_empty]; by left|]. intros [?|(j' & [= <-] & _ & ? & _)]; [by left|congruence].
    + intros i d' j' Hi Hj'. destruct (decide (jid = i)) as [<-|]; [|done]. intros [= ->]. assert (j' = j) as -> by congruence.
      rewrite decide_True in Hdone by done. by destruct Hdone as (-> & ? & ?).
    + intros i Hi. split; [by apply (cp_detached _ _ _ Hc)|by apply (cp_jobs _ _ _ Hc)].
  - apply wp_ret. split_and!; [done|apply completing_refl|split; cbn [fst snd od_get]|done].
    + intros i. rewrite od_get_set. case_decide as Hi; [|done]. subst. by rewrite Hd.
    + apply od_wf_set.
    + intros k. rewrite elem_of_union, reported1. destruct (od_get jid (jobs (native s))) as [j|]; [|set_solver].
      destruct (is_store j) eqn:Hs, (Z.eqb_spec (pending_count j) count) as [Hc|Hc]; cbn [andb].
      * split; [intros [?|?]; [by left|right; by exists j]|]. intros [?|(j' & [= <-] & _ & _ & ?)]; [by left|by right].
      * split; [intros [?|[]%elem_of_empty]; by left|]. intros [?|(j' & [= <-] & _ & ? & _)]; [by left|congruence].
      * split; [intros [?|[]%elem_of_empty]; by left|]. intros [?|(j' & [= <-] & ? & _)]; [by left|congruence].
      * split; [intros [?|[]%elem_of_empty]; by left|]. intros [?|(j' & [= <-] & ? & _)]; [by left|congruence].
    + intros i d' j Hi _. case_decide; congruence.
Qed.

(** The reports of other jobs complete the same keys. *)
Lemma reported_cons (c c' : OffloadingConnectorScheduler P) jid count l k :
  od_get jid l = None → (∀ i, i ≠ jid → od_get i (jobs c') = od_get i (jobs c)) →
  reported c ((jid, count) :: l) k ↔ reported c [(jid, count)] k ∨ reported c' l k.
Proof.
  intros Hnew Hoth. unfold reported. cbn [od_get]. split.
  - intros (i & j & Hj & Hs & Hc & Hk). case_decide as Hi.
    + left. exists i, j. by rewrite decide_True.
    + right. exists i, j. by rewrite Hoth.
  - intros [(i & j & Hj & Hs & Hc & Hk)|(i & j & Hj & Hs & Hc & Hk)]; exists i, j.
    + by case_decide.
    + assert (jid ≠ i) as Hi by (intros ->; congruence). rewrite decide_False by done. by rewrite <- Hoth.
Qed.

Lemma wp_completions l acc s :
  holds s → od_wf l → (∀ jid count, (jid, count) ∈ l → report1_ok s jid count) →
  wp (foldM completion1 acc l) (λ acc' s', holds s' ∧ completing s s' ∧ completed s l acc acc' s') (λ _, False) s.
Proof.
  revert acc s. induction l as [|[jid count] l IH]; intros acc s Hh Hwf Hall; cbn [foldM].
  { apply wp_ret. split_and!; [done|apply completing_refl|split; try done].
    intros k. split; [by left|]. by intros [?|(i & j & _ & _ & ? & _)]. }
  apply od_wf_cons in Hwf as [Hnew Hwf]. apply wp_bind.
  eapply wp_mono; [apply (wp_completion1 acc jid count s); [done|apply Hall; by left]|cbn beta|done].
  intros acc1 s1 (Hh1 & Hc1 & [L1 W1 K1 D1] & Hoth).
  assert (∀ i c, od_get i l = Some c → i ≠ jid) as Hne by (intros i c Hi ->; congruence).
  eapply wp_mono; [apply (IH acc1 s1 Hh1 Hwf)|cbn beta|done].
  { intros i c Hin. pose proof (od_elem_get i c l Hwf Hin) as Hi. destruct (Hoth i (Hne i c Hi)) as [Hd Hj].
    apply (report1_completing s); [done..|]. apply Hall. by right. }
  intros acc2 s2 (Hh2 & Hc2 & [L2 W2 K2 D2]). split_and!; [done|by eapply completing_trans|].
  cbn [od_get] in L1, D1. split; cbn [od_get].
  - intros i. rewrite L2, L1. case_decide as Hi; [subst; by rewrite Hnew|].
    destruct (od_get i l) as [c|] eqn:Hc; [|done]. destruct (Hoth i (Hne i c Hc)) as [-> _]. done.
  - by intros ?%W1%W2.
  - intros k. rewrite K2, K1, (reported_cons (native s) (native s1) jid count l); [tauto|done|]. intros i Hi. by apply Hoth.
  - intros i d j Hd Hj. case_decide as Hi.
    + intros [= ->]. subst i. destruct (D1 jid d j Hd Hj) as (Hst & Hd1 & Hj1); [by rewrite decide_True|].
      split_and!; [by eapply readable_completing| |].
      * destruct (od_get jid (detached s2)) as [d2|] eqn:Hd2; [|done]. apply (cg_detached _ _ Hc2) in Hd2. congruence.
      * by rewrite (cg_jobs _ _ Hc2 jid Hd1).
    + intros Hl. destruct (Hoth i (Hne i _ Hl)) as [Ed Ej]. apply (D2 i d j); by rewrite ?Ed, ?Ej.
Qed.

(** ** The lifecycles take over *)

(** The tables of jobs are as they were. *)
Definition same_jobs s s' : Prop := jobs (native s') = jobs (native s) ∧ detached s' = detached s.

Lemma reg_step_jobs s s' : reg_step s s' → same_jobs s s'.
Proof. intros (m & En & Ed & _)%reg_step_native. split; [by rewrite En|done]. Qed.

Lemma same_jobs_trans s1 s2 s3 : same_jobs s1 s2 → same_jobs s2 s3 → same_jobs s1 s3.
Proof. intros [] []. split; congruence. Qed.

(** Every lifecycle still there waits for none of [done]. *)
Definition served (done : gset OffloadKey) s (id : string) : Prop :=
  ∀ r, od_get id (records s) = Some r → Registry.pending_retention r ∩ done = ∅.

Lemma served_conserves done s s' id : conserves (records s) (records s') → served done s id → served done s' id.
Proof. intros Hc Hs r' Hr'. destruct (Hc id r' Hr') as (r & Hr & Hp & _). specialize (Hs r Hr). set_solver. Qed.

Lemma pending_shrinks_ok id v (x : Registry.Lifecycle F) :
  v ⊆ Registry.pending_retention x → rec_ok id x → rec_ok id (Registry.set_pending_retention v x).
Proof.
  intros Hv [? ? ? Hr ? Hu ?]. split; cbn; try done.
  - intros Ho. destruct (Hr Ho) as [? Hp]. split; [done|]. set_solver.
  - intros Ho. destruct (Hu Ho) as [? Hp]. split; [done|]. set_solver.
Qed.

Lemma wp_take_over done id s :
  holds s → readable done (cpu s) →
  wp (take_over clock done id) (λ _ s', holds s' ∧ same_jobs s s' ∧ readable done (cpu s')
      ∧ conserves (records s) (records s') ∧ served done s' id) (λ _, False) s.
Proof.
  intros Hh Hdone. unfold take_over. apply wp_get. destruct (od_get id (records s)) as [r|] eqn:Hr.
  2:{ apply wp_ret. split_and!; [done..|apply conserves_refl|]. intros r Hr'. congruence. }
  cbv zeta. set (ready := Registry.pending_retention r ∩ done). case_bool_decide as He.
  { apply wp_ret. split_and!; [done..|apply conserves_refl|]. intros r' Hr'. assert (r' = r) as -> by congruence. exact He. }
  assert (readable ready (cpu s)) as Hready by (intros k Hk; apply Hdone; unfold ready in Hk; set_solver).
  apply wp_bind. eapply wp_retain_keeps; [apply Hh|apply Hh|done|]. intros got s1 H1 Hc1 Hk1.
  pose proof (holds_reg_step _ _ _ _ _ Hh H1) as Hh1. pose proof (reg_step_readable _ _ _ _ done (proj1 Hh) H1 Hdone) as Hd1.
  eapply wp_update; [apply Hh1| |done|].
  { intros x _ Hx. apply pending_shrinks_ok; [set_solver|done]. }
  intros s2 H2 Er2. split_and!; [by eapply holds_reg_step|eapply same_jobs_trans; by apply reg_step_jobs
    |eapply reg_step_readable; [apply Hh1|done..]| |].
  - eapply conserves_trans; [exact Hc1|]. rewrite Er2. apply conserves_alter. intros x Hx. cbn. split; [set_solver|].
    intros Ho. split; [exact Ho|]. specialize (Hk1 x Hx Ho). unfold wanted. cbn. intros k. destruct (decide (k ∈ ready)); set_solver.
  - intros x. rewrite Er2, od_get_alter, decide_True by done. intros (y & Hy & ->)%fmap_Some. cbn.
    destruct (Hc1 id y Hy) as (r' & Hr' & Hp & _). assert (r' = r) as -> by congruence. unfold ready. set_solver.
Qed.

Lemma wp_take_overs done ids s :
  holds s → readable done (cpu s) →
  wp (forM ids (take_over clock done))
    (λ _ s', holds s' ∧ same_jobs s s' ∧ readable done (cpu s') ∧ conserves (records s) (records s')
       ∧ ∀ id, id ∈ ids → served done s' id)
    (λ _, False) s.
Proof.
  revert s. induction ids as [|id ids IH]; intros s Hh Hdone; cbn [forM].
  { apply wp_ret. split_and!; [done..|apply conserves_refl|]. intros id Hid. by apply not_elem_of_nil in Hid. }
  apply wp_bind. eapply wp_mono; [by apply wp_take_over|cbn beta|done]. intros _ s1 (Hh1 & Hj1 & Hd1 & Hc1 & Hs1).
  eapply wp_mono; [by apply IH|cbn beta|done]. intros _ s2 (Hh2 & Hj2 & Hd2 & Hc2 & Hs2).
  split_and!; [done|by eapply same_jobs_trans|done|by eapply conserves_trans|]. intros i [->|Hi]%elem_of_cons; [|by apply Hs2].
  by eapply served_conserves.
Qed.

Lemma wp_expire_conserves s (Q : unit → TokenCakeOffloadingScheduler F P → Prop) E :
  coord_ok closed hashes s → (∀ s', reg_step s s' → conserves (records s) (records s') → Q tt s') →
  wp (reg (Registry.expire clock)) Q E s.
Proof.
  intros Hok HQ. pose proof (coord_registry _ _ _ Hok) as Hreg.
  destruct (expire_ok clock (registry s) Hreg) as (r & Hrun & _ & _ & _ & Hg). eapply wp_reg; [exact Hrun|]. apply HQ.
  - pose proof (wp_reg_good (Registry.expire clock) closed hashes s (λ _, False) Hok (expire_good clock _ Hreg)) as Hwp.
    unfold wp, reg, zoom in Hwp. by rewrite Hrun in Hwp.
  - exact (expire_conserves _ _ _ Hg).
Qed.

(** ** The report of a step *)

(** Measuring the transfers changes the bandwidth only. *)
Lemma wp_observe_transfers stats s :
  holds s → wp (observe_transfers stats) (λ _ s', ∃ b, s' = put_bandwidth b s) (λ s', holds s' ∧ stats ≠ []) s.
Proof.
  intros Hh. destruct (decide (stats = [])) as [->|Hne]; [apply wp_ret; exists (bandwidth s); by destruct s|].
  assert (∀ b, holds (put_bandwidth b s)) as Hb by (intros b; by eapply holds_same).
  eapply wp_mono with (E := λ s', ∃ b, s' = put_bandwidth b s) (Q := λ _ s', ∃ b, s' = put_bandwidth b s);
    [|done|by intros s' [b ->]].
  assert (∀ dir ops t, (∃ b, t = put_bandwidth b s) →
    wp (forM ops (observe_operation dir)) (λ _ s', ∃ b, s' = put_bandwidth b s) (λ s', ∃ b, s' = put_bandwidth b s) t) as Hops.
  { intros dir ops t Ht. apply wp_forM; [done|]. intros [z f] t' _ Ht'. unfold observe_operation.
    apply wp_if; intros _; [by apply wp_ret|]. apply wp_bind, wp_or_raise; [|done]. intros sample _. apply wp_get, wp_put.
    destruct Ht' as [b ->]. by eexists. }
  apply wp_forM; [exists (bandwidth s); by destruct s|]. intros [name ops] t _ Ht.
  apply wp_if; intros _; [by apply Hops|]. apply wp_if; intros _; [by apply Hops|by apply wp_ret].
Qed.

(** What the reports [l] bring about: the jobs they complete are gone, detached
    ones included; their keys are in CPU memory; no lifecycle waits for them any
    longer, and one that does own its preservation holds all it wanted of them. *)
Record received s (l : odict Z Z) s' : Prop := {
  rv_jobs : ∀ i j, od_get i (jobs (native s)) = Some j → od_get i l = Some (pending_count j) →
    od_get i (jobs (native s')) = None ∧ od_get i (detached s') = None;
  rv_fewer : ∀ i, od_get i (jobs (native s)) = None → od_get i l = None → od_get i (jobs (native s')) = None;
  rv_detached : ∀ i d, od_get i (detached s') = Some d → od_get i (detached s) = Some d;
  rv_keys : ∀ k, reported (native s) l k → ∃ z, ref_of k (cpu s') = Some z ∧ 0 ≤ z;
  rv_records : ∀ id r', od_get id (records s') = Some r' → ∃ r, od_get id (records s) = Some r
    ∧ (∀ k, reported (native s) l k → k ∉ Registry.pending_retention r')
    ∧ (Registry.owns_preservation r' = true → ∀ k, reported (native s) l k → k ∈ wanted r → k ∈ Registry.retained r')
}.

Lemma holds_capped s n' :
  holds s → conn_ok (HG := guests_of s) closed hashes n' → refs_capped (cpu s) (manager n') → holds (put_native n' s).
Proof.
  intros [Hok Hr] Hn Hrefs. split; [by eapply coord_native|]. apply roomy_native; [done|]. intros k z Hz.
  destruct (rc_capped _ _ Hrefs k z Hz) as (z0 & Hz0 & Hle). destruct (decide (z ≤ 0)); [by left|]. right. exists z0. split; [done|lia].
Qed.

Lemma wp_coordinator_output completed stats s :
  let l := default [] completed in
  holds s → finished_ok live closed (native s) → od_wf l →
  (∀ jid count, (jid, count) ∈ l → report1_ok s jid count) →
  wp (update_connector_output live clock completed stats)
    (λ _ s', holds s' ∧ received s l s') (λ s', holds s' ∧ default [] stats ≠ []) s.
Proof.
  intros l Hh Hfin Hwf Hall. unfold update_connector_output. fold l. apply wp_bind.
  eapply wp_mono; [by apply (wp_completions l ([], ∅) s)|cbn beta|done].
  intros done s1 (Hh1 & Hc1 & [L1 W1 K1 D1]). cbn [fst snd od_get] in *.
  assert (∀ k, k ∈ done.2 ↔ reported (native s) l k) as Hkeys by (intros k; rewrite K1; set_solver). clear K1.
  apply wp_bind, wp_zoom. pose proof (ck_conn _ _ _ (proj1 Hh1)) as Hconn.
  eapply wp_mono; [apply (wp_connector_output (HG := guests_of s1) live closed hashes (native s1) done.1); [done| |apply W1, od_wf_nil|]|cbn beta|done].
  { intros id. rewrite (cg_reqs _ _ Hc1). apply Hfin. }
  { intros jid count Hin%od_elem_get; [|apply W1, od_wf_nil]. rewrite L1 in Hin.
    destruct (od_get jid l) as [c|] eqn:Hl; [|done]. destruct (od_get jid (detached s)) as [d|] eqn:Hd; [done|].
    injection Hin as ->. pose proof (Hall jid count (od_get_elem _ _ _ Hl)) as Hrep. unfold report1_ok in Hrep. rewrite Hd in Hrep.
    destruct Hrep as [Hpos Hrep]. split; [done|]. rewrite (cg_stale _ _ Hc1), (cg_jobs _ _ Hc1) by done.
    destruct Hrep as [?|Hrep]; [by left|]. right. split; [|done]. rewrite elem_of_detached. intros [d Hd']. by apply (cg_detached _ _ Hc1) in Hd'; congruence. }
  intros _ n2 (Hok2 & Hrefs & Hjobs2). set (s2 := put_native n2 s1).
  assert (holds s2) as Hh2 by (by apply holds_capped).
  assert (∀ i j, od_get i (jobs (native s)) = Some j → od_get i l = Some (pending_count j) →
    od_get i (jobs n2) = None ∧ (is_store j = true → readable (keys j) (manager n2)) ∧ od_get i (detached s1) = None) as Hgone.
  { intros i j Hj Hl. specialize (Hjobs2 i). rewrite L1, Hl in Hjobs2. destruct (od_get i (detached s)) as [d|] eqn:Hd.
    - destruct (D1 i d j Hd Hj Hl) as (Hr & Hd1 & Hj1). rewrite Hjobs2. split_and!; [done| |done]. intros _.
      by eapply readable_capped.
    - destruct (Hjobs2 j) as [? ?]; [by rewrite (cg_jobs _ _ Hc1)|lia|]. split_and!; [done..|].
      destruct (od_get i (detached s1)) as [d|] eqn:Hd1; [|done]. apply (cg_detached _ _ Hc1) in Hd1. congruence. }
  assert (readable done.2 (cpu s2)) as Hr2.
  { intros k (i & j & Hj & Hs & Hl & Hk)%Hkeys. by apply (Hgone i j Hj Hl). }
  apply wp_bind, wp_expire_conserves; [apply Hh2|]. intros s3 H3 Hcons3. pose proof (holds_reg_step _ _ _ _ _ Hh2 H3) as Hh3.
  apply wp_get, wp_bind. eapply wp_mono; [apply wp_take_overs; [done|eapply reg_step_readable; [apply Hh2|done..]]|cbn beta|done].
  intros _ s4 (Hh4 & [Ej4 Ed4] & Hr4 & Hcons4 & Hserved).
  eapply wp_mono; [by apply wp_observe_transfers|cbn beta|done]. intros _ s5 [b ->]. split; [by eapply holds_same|].
  destruct (reg_step_jobs _ _ H3) as [Ej3 Ed3]. assert (records s2 = records s) as Er2 by apply (cg_records _ _ Hc1).
  split.
  - intros i j Hj Hl. destruct (Hgone i j Hj Hl) as (Hn & _ & Hd). cbn. by rewrite Ej4, Ej3, Ed4, Ed3.
  - intros i Hj Hl. cbn. rewrite Ej4, Ej3. specialize (Hjobs2 i). rewrite L1, Hl in Hjobs2. change (native s2) with n2. rewrite Hjobs2.
    rewrite (cg_jobs _ _ Hc1); [done|]. destruct (od_get i (detached s)) as [d|] eqn:Hd; [|done].
    destruct (detached_job s i d (proj1 Hh) Hd) as (j & Hj' & _). congruence.
  - intros i d. cbn. rewrite Ed4, Ed3. apply (cg_detached _ _ Hc1).
  - intros k Hk%Hkeys. by apply Hr4.
  - intros id r' Hr'. change (records _) with (records s4) in Hr'.
    destruct (conserves_trans _ _ _ Hcons3 Hcons4 id r' Hr') as (r & Hr & _ & Ho). rewrite Er2 in Hr. exists r.
    assert (Registry.pending_retention r' ∩ done.2 = ∅) as Hnone.
    { apply (Hserved id); [|done]. apply od_get_is_Some. destruct (Hcons4 id r' Hr') as (r3 & Hr3 & _). by eexists. }
    split_and!; [done| |].
    + intros k Hk%Hkeys Hin. set_solver.
    + intros Hown k Hk%Hkeys Hin. destruct (Ho Hown) as [_ Hw]. unfold wanted in *. specialize (Hw k Hin). set_solver.
Qed.
End output.
