(* ===== verification/CoordinatorTraces.v ===== *)
(** * Sequences of calls of the coordinator

    The engine, the workers and the events of the front end call the
    coordinator in any order.  Whatever happened before, the bookkeeping it
    shares with the native connector and with the lifecycle registry is sound;
    the reports of the workers cannot fail; what a detached store has copied is
    handed to the lifecycles that wait for it; and its GPU blocks are not reused
    before it is done. *)
From S2P Require Import Prelude Hoare PyFloat Metrics Protocol Config CachePolicy Request BlockPool KVCache CPUManager Lifecycle LifecycleFacts RetentionFacts.
From S2P Require Import OffloadPolicy NativeOffload OffloadKeys OffloadRefs OffloadJobs OffloadSteps OffloadLoads OffloadStores OffloadDone OffloadTraces OffloadGuests.
From S2P Require Import Scoring Scheduling Pressure Coordinator CoordinatorState CoordinatorStores CoordinatorSteps CoordinatorOutput.
Import Offloading Coordinator.
Local Open Scope Z_scope.

Section calls.
Context {F P : Type} `{HF : FloatOps F, HI : FloatInf F} `{HL : FloatLog1p F} `{HP : CachePolicyLaws P}.
Implicit Types (s : TokenCakeOffloadingScheduler F P) (closed : gset string) (hashes : string → list (list Z)).

(** ** What a step is told *)
(** The stores the workers know of. *)
Definition published s (jid : Z) : Prop := od_get jid (unpublished s) = None.

(** Nothing given out by the step [o] is still read by a published store that
    is not flushed first. *)
Definition step_fenced (o : SchedulerOutput) s (meta : OffloadingConnectorMetadata) : Prop :=
  ∀ id groups preempted b jid, (id, Some groups, preempted) ∈ yield_req_data o → b ∈ concat groups →
    jid ∈ pending_on b (native s) → published s jid → jid ∈ jobs_to_flush meta.

Lemma wp_coordinator_meta live annotation closed o s :
  let hashes := hashes_of live in
  coord_ok closed hashes s → output_ok live closed (native s) o →
  wp (build_connector_meta live annotation o)
    (λ meta s', coord_ok closed hashes s' ∧ step_fenced o s meta ∧ unpublished s' = []
       ∧ (unpublished s = [] ∨ total_num_scheduled_tokens o = 0))
    (coord_ok closed hashes) s.
Proof.
  intros hashes Hok Ho. unfold build_connector_meta. apply wp_get. cbv zeta. apply wp_bind, wp_put.
  set (s1 := put_unpublished [] s).
  assert (coord_ok closed hashes s1) as Hok1 by (destruct Hok; split; try done; intros i []; done).
  apply wp_bind. eapply wp_mono with (E := coord_ok closed hashes)
    (Q := λ _ s', s' = s1 ∧ (unpublished s = [] ∨ total_num_scheduled_tokens o = 0)); [|cbn beta|done].
  { apply wp_if; [intros He%bool_decide_eq_true; apply wp_ret; auto|intros _].
    apply wp_assert; [intros Ht%Z.eqb_eq; auto|done]. }
  intros _ s1' [-> Hpub]. apply wp_bind, wp_zoom.
  eapply wp_mono; [apply (wp_connector_meta (HG := guests_of s1) live (defer_store annotation) closed); [apply Hok1|done]|cbn beta|].
  2:{ intros n' Hn'. by eapply coord_native. }
  intros meta n' [Hn' Hf]. set (s2 := put_native n' s1). assert (coord_ok closed hashes s2) as Hok2 by (by eapply coord_native).
  apply wp_get. apply wp_bind. set (flush := if _ && _ then _ else _).
  assert (step_fenced o s (mkMeta (load_jobs meta) (foldl (λ d '(j, t), od_set j t d) (store_jobs meta) (unpublished s)) flush)) as Hfence.
  { intros id groups preempted b jid Hin Hb Hp Hu. cbn [jobs_to_flush].
    assert (jid ∈ jobs_to_flush meta ∖ list_to_set (od_keys (unpublished s))) as Hj.
    { apply elem_of_difference. split; [by apply (Hf id (Some groups) preempted Hin b Hb)|].
      rewrite elem_of_list_to_set. by apply od_get_None. }
    unfold flush. destruct (_ && _); [by apply elem_of_union; left|done]. }
  eapply wp_mono with (E := coord_ok closed hashes) (Q := λ _ s', coord_ok closed hashes s' ∧ unpublished s' = []); [|cbn beta|done].
  { apply wp_if; intros _; [by apply wp_ret|]. eapply wp_countM; [done|done|]. intros s3 H3 _.
    split; [by eapply coord_reg_step|]. destruct (reg_step_native _ _ H3) as (m & _ & _ & -> & _). done. }
  intros _ s3 [Hok3 Hu3]. apply wp_ret. done.
Qed.

(** ** Resets *)
(** Which jobs are to be flushed is nobody's invariant. *)
Lemma jobs_ok_to_flush {HG : Guests} closed (n : OffloadingConnectorScheduler P) f :
  jobs_ok closed n → jobs_ok closed (put_to_flush f n).
Proof.
  intros [Hm Hr Hw Hst Hj Hk Hg Hl Hd Hp]. split; try done. intros i j Hi. by destruct (Hj i j Hi).
Qed.

Lemma held_none (recs : odict string (Registry.Lifecycle F)) k :
  od_wf recs → (∀ id r, od_get id recs = Some r → Registry.retained r = ∅) → held recs k = 0.
Proof. intros Hwf Hr. apply held_zero; [done|]. intros id r ->%Hr. apply not_elem_of_empty. Qed.

Lemma wp_coordinator_reset (clock : nat → F) closed hashes s :
  coord_ok closed hashes s → (∀ i j, od_get i (jobs (native s)) = Some j → is_Some (od_get i (detached s))) →
  wp (reset_cache clock) (λ _ s', coord_ok closed hashes s' ∧ detached s' = [] ∧ unpublished s' = []
       ∧ ∀ id r, od_get id (records s') = Some r → Registry.retained r = ∅ ∧ Registry.terminal_at r ≠ None)
    (λ s', s' = s) s.
Proof.
  intros Hok Hall. unfold reset_cache. apply wp_bind, wp_zoom.
  eapply wp_mono; [apply (wp_reset_cache (HG := guests_of s) closed hashes (native s)); [apply Hok|]|cbn beta|].
  { intros i j Hj. rewrite elem_of_detached. by eapply Hall. }
  2:{ intros n ->. by destruct s. }
  intros _ n [Hn _]. apply wp_bind, wp_modify, wp_bind, wp_modify.
  match goal with |- wp _ _ _ ?x => set (s1 := x) end. set (n1 := native s1).
  assert (reg_base (lifecycles s)) as Hb0 by apply Hok.
  destruct (external_reset_ok clock (registry s1)) as (r & Hrun & Hb & Hm & _ & _ & Hret).
  { destruct Hb0. by split. }
  assert (cover r) as Hcov.
  { unfold cover. rewrite Hm. cbn. split; [apply (co_jobs _ _ _ Hn)|]. intros k Hk.
    rewrite held_none in Hk; [lia|apply Hb|]. intros id x Hx. by destruct (Hret id x Hx). }
  eapply wp_reg; [exact Hrun|]. cbn in Hm. unfold put_registry. rewrite Hm.
  set (s2 := put_lifecycles r _). split_and!; [|done..|exact Hret].
  assert (native s2 = put_manager (manager n1) n1) as En by done.
  split; [|exact Hb|apply od_wf_nil|by intros ? ? [=]|by intros ? []].
  rewrite En. apply (conn_ok_shapes (HG := no_guests) closed hashes n); [done| |done|].
  - assert (jobs_ok (HG := no_guests) closed n1) as Hj by apply (jobs_ok_to_flush (HG := no_guests)), Hn.
    apply (jobs_ok_owners (HG := no_guests)); [done|done|apply Hj|..].
    + intros k. by apply (in_writing_ref (HG := no_guests) closed).
    + intros k. cbn [guests_of owned]. rewrite held_none; [|apply Hb|intros id x Hx; by destruct (Hret id x Hx)].
      apply (jo_loads (HG := no_guests) _ _ Hj).
  - intros id x Hx. exists x. split; [done|apply same_shape_refl].
Qed.

(** ** Calls of the registry from outside *)
Lemma wp_registry_call (clock : nat → F) closed hashes c s :
  coord_ok closed hashes s → reg_call_ok c (registry s) → c ≠ RReset →
  wp (reg (run_reg clock c)) (λ _, coord_ok closed hashes) (coord_ok closed hashes) s.
Proof.
  intros Hok Hc Hreset. pose proof (coord_registry _ _ _ Hok) as Hreg.
  destruct (run_reg_spec clock c (registry s) Hreg Hc) as (Hr & _ & _).
  pose proof (run_reg_balanced clock c (registry s) Hreg Hc Hreset) as Hb. apply wp_zoom. unfold wp.
  destruct (run_reg clock c (registry s)) as [u r|e r]; (eapply coord_reg_move; [exact Hok|]); by exists r.
Qed.

(** ** The probe *)
Lemma wp_estimate (annotation : Request F → option (TokenCakeMetadata F)) request s :
  wp (estimate_recompute_tokens annotation request) (λ _ s', s' = s) (λ s', s' = s) s.
Proof.
  unfold estimate_recompute_tokens. apply wp_if; intros _; [done|]. apply wp_get. cbv zeta.
  destruct (update_offload_keys _ _ _) as [st|]; [|done]. apply wp_bind, wp_zoom, wp_zoom.
  eapply wp_mono; [eapply (lookup_keeps peek_ready (λ m, m = manager (native s))); [by intros k m ->|done]|cbn beta|].
  - intros a m ->. apply wp_ret. by destruct s as [[] ?].
  - intros m ->. by destruct s as [[] ?].
Qed.
End calls.

(** ** Calls in any order *)
Section traces.
Context {F P : Type} `{HF : FloatOps F, HI : FloatInf F} `{HL : FloatLog1p F} `{HP : CachePolicyLaws P}.
Implicit Types (s : TokenCakeOffloadingScheduler F P) (closed : gset string) (hashes : string → list (list Z)).

(** What the coordinator sees of the engine during a call. *)
Record Engine := {
  live : string → Request F;
  annotation : Request F → option (TokenCakeMetadata F);
  clock : nat → F;
  gpu_pool : option BlockPool;
  engine : Scheduler F;
  set_order : gset string → list string;
  lt_id : bool
}.

(** The connector's calls, those of the engine and the registry's. *)
Inductive CoordinatorCall :=
  | KMatch (request : Request F) (num_computed_tokens : Z)
  | KAlloc (pool : BlockPool) (do_remote_decode : bool) (request : Request F) (blocks : list (list nat)) (num_external_tokens : Z)
  | KMeta (o : SchedulerOutput)
  | KOutput (completed_jobs : option (odict Z Z)) (stats : option (odict string (list (Z * F))))
  | KFinish (request : Request F) (block_ids : list (list nat))
  | KEvents
  | KReset
  | KEvaluate (new_step : bool)
  | KEstimate (request : Request F)
  | KRegistry (c : @reg_call F).

Definition run_coordinator (e : Engine) (c : CoordinatorCall) : M (TokenCakeOffloadingScheduler F P) unit :=
  match c with
  | KMatch request n => conn (get_num_new_matched_tokens request n) ;; mret tt
  | KAlloc pool drd request blocks n => conn (update_state_after_alloc pool drd request blocks n)
  | KMeta o => build_connector_meta (live e) (annotation e) o ;; mret tt
  | KOutput completed stats => update_connector_output (live e) (clock e) completed stats
  | KFinish request block_ids => request_finished_all_groups (annotation e) (clock e) (gpu_pool e) request block_ids
  | KEvents => conn take_events ;; mret tt
  | KReset => reset_cache (clock e)
  | KEvaluate new_step => evaluate_pending (clock e) (gpu_pool e) (engine e) (set_order e) (lt_id e) new_step
  | KEstimate request => estimate_recompute_tokens (annotation e) request ;; mret tt
  | KRegistry c => reg (run_reg (clock e) c)
  end.

(** What the engine and the workers see to (the registry is told of a reset only
    by the coordinator's own, which comes when every job in flight is detached); and no reference count may be
    about to wrap, were every lifecycle to take another reference. *)
Definition coordinator_call_ok (e : Engine) closed s (c : CoordinatorCall) : Prop :=
  (∃ n, roomy n s) ∧
  match c with
  | KMatch request n => live e (request_id request) = request ∧ 0 ≤ n
  | KAlloc _ _ request _ n =>
      live e (request_id request) = request ∧ request_id request ∉ closed ∧ NoDup (block_hashes request) ∧ 0 ≤ n
  | KMeta o => output_ok (live e) closed (native s) o
  | KOutput completed _ =>
      finished_ok (live e) closed (native s) ∧ od_wf (default [] completed)
      ∧ ∀ jid count, (jid, count) ∈ default [] completed → report1_ok s jid count
  | KFinish request block_ids => finish_ok request block_ids
  | KReset => ∀ i j, od_get i (jobs (native s)) = Some j → is_Some (od_get i (detached s))
  | KRegistry c => reg_call_ok c (registry s) ∧ c ≠ RReset
  | KEvents | KEvaluate _ | KEstimate _ => True
  end.

Definition closes_request (c : CoordinatorCall) closed : gset string :=
  match c with KFinish request _ => {[request_id request]} ∪ closed | _ => closed end.
Definition closed_after {S A} (c : CoordinatorCall) (o : outcome S A) closed : gset string :=
  match o with Ret _ _ => closes_request c closed | Exc _ _ => closed end.

(** The block hashes of a request only grow. *)
Definition hashes_grow (e : Engine) hashes s : Prop :=
  ∀ id, is_Some (od_get id (req_status (native s))) → hashes id `prefix_of` hashes_of (live e) id.

Inductive coordinator_reached : gset string → (string → list (list Z)) → TokenCakeOffloadingScheduler F P → Prop :=
  | created cfg m prefix settings sel num_blocks page full s :
      config_ok cfg → mgr_wf m →
      create_scheduler (connector_init cfg m prefix) settings sel num_blocks page full = Some s →
      coordinator_reached ∅ (λ _, []) s
  | called closed hashes s e c :
      coordinator_reached closed hashes s → hashes_grow e hashes s → coordinator_call_ok e closed s c →
      coordinator_reached (closed_after c (run_coordinator e c s) closed) (hashes_of (live e)) (out_state (run_coordinator e c s)).

Lemma created_ok cfg m prefix settings sel num_blocks page full s :
  config_ok cfg → mgr_wf m →
  create_scheduler (connector_init cfg m prefix) settings sel num_blocks page full = Some s →
  coord_ok ∅ (λ _, []) s.
Proof.
  intros Hcfg Hm. unfold create_scheduler. destruct settings as [st|]; [|done]. destruct (negb _); [done|].
  destruct (_ <=? 0); [done|]. intros [= <-]. unfold coordinator_init. split.
  - split; [|done|by intros]. split; try done; cbn; apply od_wf_nil.
  - split; cbn; [apply od_wf_nil|done|]. split; [apply od_wf_nil|done].
  - apply od_wf_nil.
  - by intros.
  - by intros ? [].
Qed.

Lemma coord_hashes e closed hashes s : coord_ok closed hashes s → hashes_grow e hashes s → coord_ok closed (hashes_of (live e)) s.
Proof.
  intros [Hc ? ? ? ?] Hg. split; try done. eapply conn_ok_hashes; [exact Hc|]. intros id r Hr. apply Hg. by eexists.
Qed.

Definition may_raise (c : CoordinatorCall) : bool :=
  match c with
  | KOutput _ stats => negb (bool_decide (default [] stats = []))
  | KEvents => false
  | KRegistry (RAssociate _ _) => true
  | KRegistry _ => false
  | _ => true
  end.

Lemma wp_conn closed hashes closed' hashes' s {A} (c : M (OffloadingConnectorScheduler P) A) (E : TokenCakeOffloadingScheduler F P → Prop) :
  coord_ok closed hashes s →
  wp c (λ _, conn_ok (HG := guests_of s) closed' hashes') (λ n, E (put_native n s)) (native s) →
  wp (conn c) (λ _, coord_ok closed' hashes') E s.
Proof. intros Hok Hc. apply wp_zoom. eapply wp_mono; [exact Hc| |done]. intros a n Hn. by eapply coord_native. Qed.

Lemma wp_run_coordinator e closed c s :
  coord_ok closed (hashes_of (live e)) s → coordinator_call_ok e closed s c →
  wp (run_coordinator e c) (λ _, coord_ok (closes_request c closed) (hashes_of (live e)))
    (λ s', may_raise c = true ∧ coord_ok closed (hashes_of (live e)) s') s.
Proof.
  intros Hok [[n Hr] Hc]. set (hashes := hashes_of (live e)) in *. pose proof (ck_conn _ _ _ Hok) as Hconn.
  assert (∀ n', conn_ok (HG := guests_of s) closed hashes n' → coord_ok closed hashes (put_native n' s)) as Hn
    by (intros; by eapply coord_native).
  destruct c as [request k|pool drd request blocks k|o|completed stats|request block_ids| | |new_step|request|c];
    cbn [run_coordinator coordinator_call_ok closes_request may_raise] in *.
  - destruct Hc as [Hl Hk]. apply wp_bind. eapply (wp_mono _ (λ _, coord_ok closed hashes) _ (λ s', true = true ∧ coord_ok closed hashes s'));
      [eapply wp_conn; [done|]|done|done].
    eapply wp_mono; [apply (wp_match (HG := guests_of s) closed hashes); [done|unfold hashes, hashes_of; by rewrite Hl|done]|..]; cbn beta.
    + intros _ n' Hn'. by eapply (conn_ok_left (HG := guests_of s)).
    + intros n' Hn'. split; [done|]. apply Hn. by eapply (conn_ok_left (HG := guests_of s)).
  - destruct Hc as (Hl & Hcl & Hnd & Hk). eapply wp_conn; [done|].
    eapply wp_mono; [apply (wp_alloc (HG := guests_of s) closed hashes); [done| |done| |done]|done|].
    + intros k' b Hb. by apply (roomy_room n s Hr (manager (native s)) k' b).
    + unfold hashes, hashes_of. by rewrite Hl.
    + intros n' Hn'. split; [done|by apply Hn].
  - apply wp_bind. eapply wp_mono; [by apply (wp_coordinator_meta (live e) (annotation e) closed)|by intros meta s' [Hs' _]|done].
  - destruct Hc as (Hfin & Hwf & Hall).
    eapply wp_mono; [apply (wp_coordinator_output closed hashes n); [by split|done..]|by intros _ s' [[] _]|].
    cbn beta. intros s' [[Hs' _] Hne]. split; [|done]. by rewrite bool_decide_false.
  - eapply wp_mono; [by apply wp_request_finished_all|done|done].
  - apply wp_bind. eapply (wp_mono _ (λ _, coord_ok closed hashes) _ (λ _, False)); [eapply wp_conn; [done|]|done|done].
    eapply wp_mono; [by apply (wp_take_events (HG := guests_of s) closed hashes)|done|done].
  - eapply wp_mono; [by apply (wp_coordinator_reset (clock e) closed hashes)|by intros _ s' []|by intros s' ->].
  - eapply wp_mono; [apply (wp_evaluate_pending closed hashes n); by split|by intros _ s' []|by intros s' []].
  - apply wp_bind. eapply wp_mono; [apply wp_estimate|by intros _ s' ->; apply wp_ret|by intros s' ->].
  - destruct Hc as [Hc Hreset]. pose proof (wp_registry_call (clock e) closed hashes c s Hok Hc Hreset) as Hwp. unfold wp in *.
    destruct (reg (run_reg (clock e) c) s) as [u s'|x s'] eqn:Hrun; [done|]. split; [|done].
    destruct (run_reg_spec (clock e) c (registry s) (coord_registry _ _ _ Hok) Hc) as (_ & _ & [Hret|(rid & d & r & -> & _)]); [|done].
    unfold reg, zoom in Hrun. by destruct (run_reg (clock e) c (registry s)).
Qed.

Lemma coordinator_reached_ok closed hashes s : coordinator_reached closed hashes s → coord_ok closed hashes s.
Proof.
  induction 1 as [|closed hashes s e c _ IH Hg Hc]; [by eapply created_ok|].
  pose proof (wp_run_coordinator e closed c s (coord_hashes _ _ _ _ IH Hg) Hc) as Hwp. unfold wp in Hwp.
  destruct (run_coordinator e c s); [exact Hwp|by destruct Hwp].
Qed.

(** ** Properties *)
(** C1.  After any sequence of calls that each meet [coordinator_call_ok] when
    made, raising calls included, the parts of the coordinator agree.  That is:
    requests are passed as they are, steps and allocations bring blocks new to
    the request and none for ended ones, the workers report jobs in flight, the
    reference counts have room, and the cache is reset only when every job in
    flight is a detached store.  Nothing in the engine sees to the last: after a
    reset with a job of a request in flight the end of that request raises
    ([reset_strands_requests]).  Under these conditions the transfer jobs of the
    native connector and the detached stores of the coordinator are accounted for
    together (no CPU block is written by two stores, each GPU block a detached
    store reads is watched by it), the CPU blocks the lifecycles hold are present
    and counted besides those of loads, the lifecycles are well formed, and only
    detached stores wait to be published. *)
Theorem coordinator_sound closed hashes s : coordinator_reached closed hashes s → coord_ok closed hashes s.
Proof. apply coordinator_reached_ok. Qed.

(** C10.  In every state the coordinator reaches, the reports of the workers on
    jobs in flight return, whether of the connector's own jobs or of
    detached stores that have been published: none of the assertions, dictionary
    lookups and manager calls on the way can fail.  Afterwards the completed jobs are gone, their keys are
    ready in CPU memory, no lifecycle waits for them any longer, and one
    that still owns its preservation holds all of them it wanted. *)
Theorem coordinator_reports closed hashes s e completed :
  coordinator_reached closed hashes s → hashes_grow e hashes s →
  coordinator_call_ok e closed s (KOutput completed None) →
  ∃ s', run_coordinator e (KOutput completed None) s = Ret tt s' ∧ coord_ok closed (hashes_of (live e)) s'
    ∧ received s (default [] completed) s'.
Proof.
  intros Hs Hg [[n Hr] (Hfin & Hwf & Hall)]. apply coordinator_reached_ok in Hs.
  pose proof (wp_coordinator_output closed (hashes_of (live e)) n (live e) (clock e) completed None s
    ltac:(split; [by eapply coord_hashes|done]) Hfin Hwf Hall) as Hwp. cbn in Hwp.
  destruct (wp_total (update_connector_output (live e) (clock e) completed None)
    (λ _ s', holds closed (hashes_of (live e)) n s' ∧ received s (default [] completed) s') s) as ([] & s' & Hrun & [[Hok _] Hrec]).
  { eapply wp_mono; [exact Hwp|done|by intros s' []]. }
  by exists s'.
Qed.

(** C11.  The GPU blocks of a preserved prefix are not reused under the copy: if
    a step gives a block to a request, every published detached store in flight
    that reads the block, like every job of the connector that no longer holds
    it, is among the jobs the step flushes first; and a step that schedules
    tokens is only built when every store has been published. *)
Theorem preserved_blocks_fenced closed hashes s e o meta s' id groups preempted b jid d :
  coordinator_reached closed hashes s → hashes_grow e hashes s →
  output_ok (live e) closed (native s) o →
  build_connector_meta (live e) (annotation e) o s = Ret meta s' →
  (unpublished s = [] ∨ total_num_scheduled_tokens o = 0)
  ∧ ((id, Some groups, preempted) ∈ yield_req_data o → b ∈ concat groups →
     published s jid →
     (od_get jid (detached s) = Some d ∧ b ∈ source_ids d)
     ∨ (∃ j, od_get jid (jobs (native s)) = Some j ∧ (b ∈ sliding j ∨ req_id j ∈ closed ∧ b ∈ non_sliding j)) →
     jid ∈ jobs_to_flush meta).
Proof.
  intros Hs Hg Ho Hrun. apply coordinator_reached_ok in Hs. pose proof (coord_hashes _ _ _ _ Hs Hg) as Hok.
  pose proof (wp_coordinator_meta (live e) (annotation e) closed o s Hok Ho) as Hwp. unfold wp in Hwp. rewrite Hrun in Hwp.
  destruct Hwp as (_ & Hf & _ & Hpub). split; [exact Hpub|]. intros Hin Hb Hu Hreads. apply (Hf id groups preempted b jid Hin Hb); [|done].
  pose proof (co_jobs _ _ _ (ck_conn _ _ _ Hok)) as Hjobs.
  destruct Hreads as [[Hd Hbd]|(j & Hj & Hreads)].
  - destruct (detached_job closed (hashes_of (live e)) s jid d Hok Hd) as (j & _ & _ & Hreads). by apply Hreads.
  - pose proof (jo_jobs _ _ Hjobs jid j Hj) as Hjob.
    destruct Hreads as [Hsl|[Hcl Hns]]; [by apply (jb_sliding _ _ _ _ Hjob)|by apply (jb_closed _ _ _ _ Hjob)].
Qed.

(** C39.  Preservation ends: once everything is published and the workers have
    reported every job in flight, no detached store, no transfer job and no
    watched GPU block is left. *)
Theorem coordinator_drains closed hashes s e :
  coordinator_reached closed hashes s → hashes_grow e hashes s → (∃ n, roomy n s) →
  finished_ok (live e) closed (native s) → unpublished s = [] →
  ∃ s', run_coordinator e (KOutput (Some ((λ '(i, j), (i, pending_count j)) <$> jobs (native s))) None) s = Ret tt s'
    ∧ detached s' = [] ∧ jobs (native s') = [] ∧ ∀ b, pending_on b (native s') = ∅.
Proof.
  intros Hs Hg [n Hr] Hfin Hpub. apply coordinator_reached_ok in Hs. pose proof (coord_hashes _ _ _ _ Hs Hg) as Hok.
  pose proof (co_jobs _ _ _ (ck_conn _ _ _ Hok)) as Hjobs. set (all := _ <$> jobs (native s)).
  assert (∀ i, od_get i all = pending_count <$> od_get i (jobs (native s))) as Hall.
  { intros i. unfold all. clear. induction (jobs (native s)) as [|[k j] js IH]; cbn; [done|]. by case_decide. }
  assert (od_wf all) as Hwf.
  { unfold od_wf, od_keys, all. rewrite <- list_fmap_compose, (list_fmap_ext _ fst) by (by intros i [? ?]). apply Hjobs. }
  pose proof (wp_coordinator_output closed (hashes_of (live e)) n (live e) (clock e) (Some all) None s ltac:(by split) Hfin Hwf) as Hwp.
  destruct (wp_total (update_connector_output (live e) (clock e) (Some all) None)
    (λ _ s', holds closed (hashes_of (live e)) n s' ∧ received s all s') s) as ([] & s' & Hrun & [[Hok' _] Hrec]).
  { eapply wp_mono; [apply Hwp|done|by intros s' []]. intros jid count Hin%(od_elem_get _ _ _ Hwf). rewrite Hall in Hin.
    apply fmap_Some in Hin as (j & Hj & ->). pose proof (jb_pending _ _ _ _ (jo_jobs _ _ Hjobs jid j Hj)).
    unfold report1_ok, detached_report_ok. destruct (od_get jid (detached s)).
    - split; [by rewrite Hpub|]. exists j. split; [done|lia].
    - split; [done|]. right. exists j. split; [done|lia]. }
  assert (∀ i, od_get i (jobs (native s')) = None ∧ od_get i (detached s') = None) as Hnone.
  { intros i. pose proof (Hall i) as Hi. destruct (od_get i (jobs (native s))) as [j|] eqn:Hj; cbn in Hi.
    - by apply (rv_jobs _ _ _ Hrec i j).
    - split; [by apply (rv_fewer _ _ _ Hrec)|]. destruct (od_get i (detached s')) as [d|] eqn:Hd; [|done].
      apply (rv_detached _ _ _ Hrec) in Hd. destruct (detached_job closed (hashes_of (live e)) s i d Hok Hd) as (j & ? & _). congruence. }
  exists s'. split; [exact Hrun|]. split_and!.
  - destruct (detached s') as [|[i d] l]; [done|]. destruct (Hnone i) as [_ Hd]. cbn in Hd. by rewrite decide_True in Hd.
  - destruct (jobs (native s')) as [|[i j] l]; [done|]. destruct (Hnone i) as [Hj _]. cbn in Hj. by rewrite decide_True in Hj.
  - intros b. apply set_eq. intros t. split; [|by intros ?%elem_of_empty]. intros Ht.
    destruct (jo_watched _ _ (co_jobs _ _ _ (ck_conn _ _ _ Hok')) b t Ht) as (j & Hj & _). destruct (Hnone t). congruence.
Qed.
End traces.
