(* ===== verification/CoordinatorDemo.v ===== *)
(** * A coordinator at work

    Two waiting requests and the blocks their admission would take; a victim
    whose prefix is in CPU memory; and the cut of a hybrid snapshot: the
    theorems of the forecast and of the coordinator at concrete states. *)
From Stdlib Require Import QArith.
From S2P Require Import Prelude PyFloat Hoare Metrics Protocol Config Request BlockPool KVCache EncoderCache CachePolicy CPUManager.
From S2P Require Import Lifecycle Scoring Scheduling OffloadPolicy Pressure PressureFacts ControllerDemo NativeOffload LookupFacts.
From S2P Require Import OffloadKeys Coordinator CoordinatorFacts.
Import Offloading Coordinator.
Local Open Scope string_scope.
Local Open Scope Z_scope.
#[local] Existing Instance demo_log1p.
#[local] Instance demo_inf : FloatInf Q := 1000000%Q.

(** ** The forecast *)
Definition demo_scheduler : Scheduler Q :=
  {| allocator := inr (demo_run demo_begin); encoder_cache_manager := encoder_init 16;
     policy := Controller.FCFS; waiting := [put_status WAITING short_A; put_status WAITING short_B];
     skipped_waiting := []; running := [];
     max_num_running_reqs := 4; max_num_scheduled_tokens := 64; max_num_encoder_input_tokens := 16;
     max_model_len := 32; num_lookahead_tokens := 0; enable_chunked_prefill := true;
     long_prefill_token_threshold := 0; disable_chunked_mm_input := false;
     need_mamba_block_aligned_split := false; scheduler_reserve_full_isl := false;
     is_encoder_decoder := false; max_loras := None; pause_state := UNPAUSED |}.

Notation demo_forecast := (waiting_pressure elements false 128 best_fit demo_scheduler).

Lemma demo_forecast_value :
  match demo_forecast with
  | Ret p _ => (free p, waiting_count p, waiting_demand p, fit_demand p)
  | Exc _ _ => (0, 0, 0, 0)
  end = (7, 2, 5, 5).
Proof. vm_compute. reflexivity. Qed.

Lemma demo_uncommitted :
  match by_controller 7 (Controller.uncommitted_blocks elements) demo_scheduler with Ret u _ => u | Exc _ _ => 0 end = 7.
Proof. vm_compute. reflexivity. Qed.

(** Both requests would be admitted. *)
Lemma pressure_forecast_witness :
  ∃ p, demo_forecast = Ret p demo_scheduler ∧ fit_demand p = 5
    ∧ ∃ chosen : list (Candidate Q), affordable (opening demo_scheduler 7) chosen ∧ demands chosen = 5.
Proof.
  pose proof demo_forecast_value as Hv. pose proof demo_uncommitted as Hd.
  assert (pause_state demo_scheduler = UNPAUSED ∧ zlen (running demo_scheduler) < max_num_running_reqs demo_scheduler) as [Hu Hm]
    by (split; exact eq_refl).
  generalize dependent demo_scheduler. intros s Hv Hd Hu Hm.
  destruct (waiting_pressure elements false 128 best_fit s) as [p s'|] eqn:Hrun; [|discriminate Hv].
  pose proof (pressure_reads_only elements false s 128 best_fit) as Hs. rewrite Hrun in Hs. cbn [out_state] in Hs. subst s'.
  injection Hv as Hfree _ _ Hf.
  destruct (pressure_forecast elements false s 128 best_fit p s Hrun Hu)
    as (u & cs & chosen & rest & Hunc & _ & _ & _ & Haff & _ & Hfit & _); [done|done|].
  rewrite Hfree in Hunc. rewrite Hunc in Hd. subst u.
  exists p. split; [done|]. split; [done|]. exists chosen. split; [done|]. lia.
Defined.

(** ** The estimate *)
Definition demo_offload : OffloadConfig Q := default_offload.
Definition demo_sel : TemporalSelection := best_fit.

(** A full-attention group and a group with a window of two blocks. *)
Definition demo_hybrid : SchedulerOffloadConfig :=
  mkConfig [mkGroup 0 4 4 1 None None; mkGroup 1 8 8 2 (Some 2) None] 1 1.

(** A request of ten tokens, computed; the first two blocks of the first group
    and the first of the second are in CPU memory. *)
Definition demo_victim : Request Q :=
  mkRequest "v" 0 0%Q RUNNING 16 10 [] (repeat 7 10) [] 10 [] 0 [[1]; [2]] false None None None None None None.
Definition demo_victim_state : RequestOffloadState :=
  default (new_request_state demo_hybrid) (update_offload_keys demo_hybrid (block_hashes demo_victim) (new_request_state demo_hybrid)).
Definition demo_cpu : CPUOffloadingManager LRU.t :=
  let keys := concat (offload_keys <$> group_states demo_victim_state) in
  out_state ((out ← prepare_store keys; complete_store keys true) (manager_init 8 false 0 0)).
Definition demo_coordinator : TokenCakeOffloadingScheduler Q LRU.t :=
  coordinator_init (connector_init demo_hybrid demo_cpu true) demo_offload demo_sel 8 1000000 [true; false].
Definition demo_annotation (r : Request Q) : option (TokenCakeMetadata Q) := Some (demo_agent "planner" 1%Q).

Lemma demo_estimate :
  match estimate_recompute_tokens demo_annotation demo_victim demo_coordinator with Ret n _ => n | Exc _ _ => 0 end = 2.
Proof. vm_compute. reflexivity. Qed.

(** Only the last two tokens would be computed again. *)
Lemma recompute_estimate_witness :
  estimate_recompute_tokens demo_annotation demo_victim demo_coordinator = Ret 2 demo_coordinator
  ∧ Forall2 (λ c g, backed (ready_in demo_cpu) 0 c g 8) (kv_group_configs demo_hybrid) (group_states demo_victim_state).
Proof.
  destruct (recompute_estimate demo_annotation demo_victim demo_coordinator demo_victim_state) as (saved & Hrun & Hs).
  - exists true. split; reflexivity.
  - vm_compute. reflexivity.
  - assert (group_states demo_victim_state
            = [mkGroupState [[1; 0; 0; 0; 0]; [2; 0; 0; 0; 0]] [] 0 0; mkGroupState [[2; 0; 0; 0; 1]] [] 0 0]) as ->
      by (vm_compute; reflexivity).
    repeat apply Forall2_cons_2; try apply Forall2_nil_2; split; try (vm_compute; discriminate); try reflexivity;
      intros w [= <-]; done.
  - pose proof demo_estimate as E. rewrite Hrun in E. change (num_computed_tokens demo_victim) with 10 in E.
    assert (saved = 8) as -> by lia.
    split; [exact Hrun|]. destruct Hs as [H8|(_ & _ & _ & Hb)]; [discriminate H8|exact Hb].
Defined.

(** ** The cut *)
Definition demo_block (g i : nat) : SnapshotBlock := mkSnapshotBlock g i [Z.of_nat g; Z.of_nat i] [S i] (Z.of_nat i).
Definition demo_candidates : list SnapshotBlock :=
  [demo_block 0 0; demo_block 0 1; demo_block 1 0; demo_block 0 2].

(** Three of the four candidates end together, at the eighth token. *)
Lemma bounded_usable_witness :
  bound_candidates demo_hybrid demo_candidates 4 = [demo_block 0 0; demo_block 0 1; demo_block 1 0]
  ∧ ∃ e, usable demo_hybrid demo_candidates [demo_block 0 0; demo_block 0 1; demo_block 1 0] e.
Proof.
  assert (bound_candidates demo_hybrid demo_candidates 4 = [demo_block 0 0; demo_block 0 1; demo_block 1 0]) as E
    by (vm_compute; reflexivity).
  destruct (bounded_usable demo_hybrid demo_candidates 4) as [_ [[e He]|[Hnil _]]].
  - split; [done|]. intros [|[|i]] c; intros [= <-]; done.
  - repeat (constructor; [eexists; reflexivity|]). constructor.
  - done.
  - split; [exact E|]. rewrite E in He. exists e. exact He.
  - rewrite E in Hnil. discriminate Hnil.
Defined.

(** ** The limit *)
(** In a pool with room for two new blocks, two fit. *)
Lemma preservation_limit_exact_witness :
  ∃ chosen rest, demo_candidates = (chosen ++ rest)%list ∧ length chosen = 2%nat
    ∧ (∀ c, head rest = Some c → ¬ fits demo_coordinator 2 10%Q (chosen ++ [c])).
Proof.
  destruct (preservation_limit_exact demo_coordinator demo_candidates 2 10%Q 2) as (chosen & rest & E & Hl & _ & Hr).
  - vm_compute. reflexivity.
  - exists chosen, rest. split; [exact E|]. split; [|exact Hr]. change (block_size_factor _) with 1 in Hl. unfold zlen in Hl. lia.
Defined.
