(* ===== verification/CoordinatorRun.v ===== *)
(** * A run of the coordinator

    A generation finishes and its agent calls a tool; while requests wait, the
    prefix is stored in CPU memory, its blocks are handed to another request, and
    the store completes: the theorems on sequences of calls at these states. *)
From Stdlib Require Import QArith.
From S2P Require Import Prelude PyFloat Hoare Metrics Protocol Config Request BlockPool KVCache EncoderCache CachePolicy CPUManager.
From S2P Require Import Lifecycle LifecycleFacts Scoring Scheduling OffloadPolicy Pressure ControllerDemo NativeOffload.
From S2P Require Import OffloadJobs OffloadSteps OffloadStores OffloadDone OffloadTraces OffloadDemo.
From S2P Require Import Coordinator CoordinatorState CoordinatorSteps CoordinatorOutput CoordinatorTraces CoordinatorDemo.
Import Offloading Coordinator.
Local Open Scope string_scope.
Local Open Scope Z_scope.
#[local] Existing Instance demo_log1p.
#[local] Existing Instance CoordinatorDemo.demo_inf.

(** ** The engine *)
Definition run_request (id : string) (st : RequestStatus) (n : nat) (hashes : list (list Z)) : Request Q :=
  mkRequest id 0 0%Q st 16 (Z.of_nat n) [] (repeat 7 n) [] (Z.of_nat n) [] 0 hashes false None None None None None None.
Definition run_a (finished : bool) : Request Q := run_request "a" (if finished then FINISHED_STOPPED else RUNNING) 9 [[1]; [2]].
Definition run_live (finished : bool) (id : string) : Request Q :=
  if decide (id = "a") then run_a finished else run_request id RUNNING 3 [].

(** [a] is annotated; its agent is about to call a tool. *)
Definition run_metadata : TokenCakeMetadata Q :=
  {| lifecycle_id := demo_id; agent_type := "planner"; agent_name := ""; importance := 1%Q;
     depth := 1; in_degree := 0; out_degree := 2; similarity := 0%Q;
     application_started_at_s := 100%Q; application_start_offset_s := 0%Q;
     application_elapsed_s := 0%Q; application_max_depth := 3; remaining_depth := 2;
     critical_path := false; near_completion := false; join_group := "";
     dependency_depth := 0; fanout_width := 1; memory_weight := 1%Q;
     offload_eligible := true; reusable_prefix := true |}.
Definition run_annotation (r : Request Q) : option (TokenCakeMetadata Q) :=
  if decide (request_id r = "a") then Some run_metadata else None.

(** Its first two blocks are still in the GPU cache. *)
Definition run_pool : BlockPool :=
  match pool_init 8 true 4 false false with
  | Some p => set_blocks (imap (λ i b, if decide (i = 1%nat) then mkBlock 0 (Some [1; 0; 0; 0; 0]) false
                                       else if decide (i = 2%nat) then mkBlock 0 (Some [2; 0; 0; 0; 0]) false else b) (blocks p)) p
  | None => mkPool 0 false 0 [] (FreeQueue.queue_init 0) ∅ 0 false false []
  end.
Definition run_engine (finished : bool) : Engine (F := Q) :=
  {| live := run_live finished; annotation := run_annotation; clock := λ n, inject_Z (100 + Z.of_nat n);
     gpu_pool := Some run_pool; engine := demo_scheduler; set_order := elements; lt_id := false |}.

(** Memory is scarce from the start. *)
Definition run_settings : OffloadConfig Q :=
  {| oc_enabled := true; min_gpu_usage := 0%Q; high_pressure_gpu_usage := 1%Q; score_threshold := 1%Q;
     backoff_steps := 8; eviction_window_blocks := 128; max_relief_blocks := 0; default_stall_s := 1%Q;
     release_lead_s := 0%Q; ewma_alpha := 1%Q; transfer := default_transfer |}.

(** ** The run *)
Notation coordinator := (TokenCakeOffloadingScheduler Q LRU.t).
Definition after (e : Engine) (c : CoordinatorCall) (s : coordinator) : coordinator := out_state (run_coordinator e c s).

Definition run_s0 : coordinator :=
  coordinator_init (connector_init OffloadDemo.demo_config (manager_init 8 false 0 0) true) run_settings best_fit 8 1000 [true].
Definition c1 : CoordinatorCall (F := Q) := KRegistry (RAssociate "a" run_metadata).
Definition c2 : CoordinatorCall (F := Q) := KFinish (run_a true) [[1; 2; 3]%nat].
Definition c3 : CoordinatorCall (F := Q) := KRegistry (RApply (Registry.mkLifecycleEvent stall_started demo_id "tool" (Some 30%Q))).
Definition c4 : CoordinatorCall (F := Q) := KEvaluate true.
Definition c5 : CoordinatorCall (F := Q) := KMeta (mkOutput [] [] ∅ [] []).
Definition c6 : CoordinatorCall (F := Q) := KMatch (run_live true "b") 0.
Definition run_s1 := after (run_engine false) c1 run_s0.
Definition run_s2 := after (run_engine true) c2 run_s1.
Definition run_s3 := after (run_engine true) c3 run_s2.
Definition run_s4 := after (run_engine true) c4 run_s3.
Definition run_s5 := after (run_engine true) c5 run_s4.
Definition run_s6 := after (run_engine true) c6 run_s5.
Definition a_closed : gset string := {["a"]} ∪ ∅.
Notation here := (hashes_of (run_live true)).

(** ** The conditions of the calls *)
Lemma roomy_small n (s : coordinator) :
  (zlen (records s) <=? n) && (n <? int32_max)
  && forallb (λ p, CachePolicy.ref_cnt p.2 + n <? int32_max) (resident (cpu s)) = true → ∃ n, roomy n s.
Proof.
  rewrite !andb_true_iff. intros [[Hn%Z.leb_le Hmax%Z.ltb_lt] Hall]. exists n. split; [done|]. intros k z.
  unfold ref_of. rewrite block_of_resident. intros (b & Hb & ->)%fmap_Some. pose proof (held_nonneg (records s) k).
  apply od_get_elem in Hb. rewrite forallb_forall in Hall. specialize (Hall (k, b) (proj1 (list_elem_of_In _ _) Hb)).
  apply Z.ltb_lt in Hall. cbn in Hall. lia.
Qed.

Lemma on_no_requests e hashes (s : coordinator) : od_keys (req_status (native s)) = [] → hashes_grow e hashes s.
Proof. intros He. unfold hashes_grow. apply (on_tracked [] (native s) (λ id, hashes id `prefix_of` hashes_of (live e) id) He). constructor. Qed.

Lemma call_returns closed hashes (s : coordinator) e c :
  coordinator_reached closed hashes s → hashes_grow e hashes s → coordinator_call_ok e closed s c →
  returns (run_coordinator e c s) = true → coordinator_reached (closes_request c closed) (hashes_of (live e)) (after e c s).
Proof.
  intros Hs Hg Hc Hr. pose proof (called closed hashes s e c Hs Hg Hc) as Hn. unfold closed_after in Hn. unfold after.
  by destruct (run_coordinator e c s).
Qed.

Ltac room := apply (roomy_small 16); vm_compute; reflexivity.
Ltac evaluated := vm_compute; reflexivity.

Lemma run_reach0 : coordinator_reached ∅ (λ _, []) run_s0.
Proof.
  apply (created OffloadDemo.demo_config (manager_init 8 false 0 0) true (Some run_settings) best_fit 8 1000 [true]).
  - apply demo_config_ok.
  - by apply init_wf.
  - reflexivity.
Qed.

Lemma run_reach1 : coordinator_reached ∅ (hashes_of (run_live false)) run_s1.
Proof. apply (call_returns _ _ _ (run_engine false) c1 run_reach0); [apply on_no_requests; evaluated|split; [room|done]|evaluated]. Qed.

Lemma run_reach2 : coordinator_reached a_closed here run_s2.
Proof.
  apply (call_returns _ _ _ (run_engine true) c2 run_reach1); [apply on_no_requests; evaluated|split; [room|]|evaluated].
  split; apply (bool_decide_unpack _); evaluated.
Qed.

Lemma run_reach3 : coordinator_reached a_closed here run_s3.
Proof. apply (call_returns _ _ _ (run_engine true) c3 run_reach2); [apply on_no_requests; evaluated|split; [room|done]|evaluated]. Qed.

Lemma run_reach4 : coordinator_reached a_closed here run_s4.
Proof. apply (call_returns _ _ _ (run_engine true) c4 run_reach3); [apply on_no_requests; evaluated|split; [room|done]|evaluated]. Qed.

Lemma run_reach5 : coordinator_reached a_closed here run_s5.
Proof.
  apply (call_returns _ _ _ (run_engine true) c5 run_reach4); [apply on_no_requests; evaluated|split; [room|]|evaluated].
  split; [apply NoDup_nil_2|]. by intros id groups preempted ?%not_elem_of_nil.
Qed.

Lemma run_reach6 : coordinator_reached a_closed here run_s6.
Proof. apply (call_returns _ _ _ (run_engine true) c6 run_reach5); [apply on_no_requests; evaluated|split; [room|by split]|evaluated]. Qed.

Lemma run_grow : hashes_grow (run_engine true) here run_s6.
Proof. by intros id _. Qed.

Lemma run_finished : finished_ok (run_live true) a_closed (native run_s6).
Proof.
  unfold finished_ok. apply (on_tracked ["b"] (native run_s6) (λ id, is_finished (run_live true id) = bool_decide (id ∈ a_closed))); [evaluated|].
  constructor; [evaluated|constructor].
Qed.

(** The store of [a]'s prefix is in flight, known to the workers. *)
Lemma run_detached :
  ∃ d, od_get 0 (detached run_s6) = Some d ∧ source_ids d = [1; 2]%nat ∧ detached_lifecycle_id d = demo_id.
Proof.
  assert ((λ d, (source_ids d, detached_lifecycle_id d)) <$> od_get 0 (detached run_s6) = Some ([1; 2]%nat, demo_id)) as He by evaluated.
  destruct (od_get 0 (detached run_s6)) as [d|]; [|discriminate He]. exists d. split; [done|]. by injection He.
Qed.

Lemma run_job : ∃ j, od_get 0 (jobs (native run_s6)) = Some j ∧ is_store j = true ∧ pending_count j = 1
  ∧ keys j = {[ [1; 0; 0; 0; 0]; [2; 0; 0; 0; 0] ]}.
Proof.
  assert ((λ j, (is_store j, pending_count j, bool_decide (keys j = {[ [1; 0; 0; 0; 0]; [2; 0; 0; 0; 0] ]})))
    <$> od_get 0 (jobs (native run_s6)) = Some (true, 1, true)) as He by evaluated.
  destruct (od_get 0 (jobs (native run_s6))) as [j|]; [|discriminate He]. exists j. split; [done|].
  injection He as -> -> Hk%bool_decide_eq_true. done.
Qed.

Lemma run_published i : published run_s6 i.
Proof. unfold published. assert (unpublished run_s6 = []) as -> by evaluated. done. Qed.

(** ** The theorems *)
Lemma coordinator_sound_witness : coord_ok a_closed here run_s6 ∧ od_keys (detached run_s6) = [0].
Proof. split; [apply (coordinator_sound _ _ _ run_reach6)|evaluated]. Defined.

(** What the tool call left behind is in CPU memory, held by the lifecycle. *)
Lemma coordinator_reports_witness :
  ∃ s', run_coordinator (run_engine true) (KOutput (Some [(0, 1)]) None) run_s6 = Ret tt s'
    ∧ od_get 0 (detached s') = None ∧ ∃ z, ref_of [1; 0; 0; 0; 0] (cpu s') = Some z ∧ 0 ≤ z.
Proof.
  destruct (coordinator_reports a_closed here run_s6 (run_engine true) (Some [(0, 1)])) as (s' & Hrun & _ & Hrec).
  - apply run_reach6.
  - apply run_grow.
  - split; [room|]. split; [exact run_finished|]. split; [apply NoDup_singleton|].
    intros jid count [= -> ->]%list_elem_of_singleton. destruct run_detached as (d & Hd & _), run_job as (j & Hj & _ & Hp & _).
    unfold report1_ok. rewrite Hd. split; [apply run_published|]. exists j. rewrite Hp. split; [exact Hj|lia].
  - destruct run_job as (j & Hj & Hs & Hp & Hk). exists s'. split; [exact Hrun|]. split.
    + apply (rv_jobs _ _ _ Hrec 0 j Hj). rewrite Hp. reflexivity.
    + apply (rv_keys _ _ _ Hrec). exists 0, j. split; [exact Hj|]. split; [exact Hs|]. rewrite Hp, Hk. split; [reflexivity|set_solver].
Defined.

(** The second block goes to [b] while it is still being copied. *)
Lemma preserved_blocks_fenced_witness :
  ∃ meta s', build_connector_meta (run_live true) run_annotation (demo_out "b" [2%nat] 3) run_s6 = Ret meta s' ∧ 0 ∈ jobs_to_flush meta.
Proof.
  destruct (build_connector_meta (run_live true) run_annotation (demo_out "b" [2%nat] 3) run_s6) as [meta s'|x s'] eqn:Hrun.
  - exists meta, s'. split; [done|]. destruct run_detached as (d & Hd & Hb & _).
    apply (preserved_blocks_fenced a_closed here run_s6 (run_engine true) (demo_out "b" [2%nat] 3) meta s' "b" [[2%nat]] false 2%nat 0 d).
    + apply run_reach6.
    + apply run_grow.
    + apply (output_one _ _ _ _ _ _ [[]]); [by apply (bool_decide_unpack _); evaluated| |done|evaluated|];
        apply (bool_decide_unpack _); evaluated.
    + exact Hrun.
    + by left.
    + by left.
    + apply run_published.
    + left. split; [exact Hd|]. rewrite Hb. right. by left.
  - assert (returns (build_connector_meta (run_live true) run_annotation (demo_out "b" [2%nat] 3) run_s6) = true) as Hret by evaluated.
    rewrite Hrun in Hret. discriminate Hret.
Defined.

Lemma coordinator_drains_witness :
  ∃ s', run_coordinator (run_engine true) (KOutput (Some ((λ '(i, j), (i, pending_count j)) <$> jobs (native run_s6))) None) run_s6 = Ret tt s'
    ∧ detached s' = [] ∧ jobs (native s') = [] ∧ ∀ b, pending_on b (native s') = ∅.
Proof.
  apply (coordinator_drains a_closed here run_s6 (run_engine true) run_reach6 run_grow).
  - room.
  - exact run_finished.
  - evaluated.
Defined.
